(* ===== verification/_CoqProject ===== *)
-Q . S2P
Prelude.v
Skbuff.v
Nlattr.v
SockFilter.v
FilterAttach.v
Bitops.v
Hweight.v
Bitmap.v
BitmapMap.v
Groups.v
PosixAcl.v
Kfifo.v
Tasks.v
RwSem.v
Semaphore.v
ResCounter.v
Resource.v
ResourceAlloc.v
FileLock.v
FileLockRange.v
PosixLock.v
PosixLockFile.v
Timer.v
TimerWheel.v
TimerSystem.v
TimerRun.v
TimerNext.v
RbTree.v
RbTreeColor.v
RbTreeErase.v
RbTreeSpec.v
Hrtimer.v
HrtimerQueue.v
HrtimerSystem.v
HrtimerExpire.v
HrtimerRun.v
PageAlloc.v
PageBlocks.v
PageZone.v
PageQueue.v
PagePcp.v
PageSystem.v
PageWatermark.v
OcteonDma.v
OcteonDmaMap.v
OcteonDmaSystem.v
OcteonClock.v
Sha1.v
Random.v
RandomMix.v
RandomExtract.v
RandomEvent.v
RandomSystem.v
