(* ===== verification/Prelude.v ===== *)
(** * Verification of core components of OCTEON-Linux

    The program is the Linux 2.6.32 kernel for Cavium OCTEON, a 64-bit
    big-endian MIPS with several cores (sources under src/linux).  This library
    models parts of it that are algorithms over memory, integers and lists, and
    that other parts of the kernel rely on: packet data and the socket filter,
    bit searches and bitmaps, credentials and access control lists, the FIFO of
    bytes, the sleeping locks, resource counters, the resource tree, file
    locks, red-black trees, timers of both kinds, the page allocator, the random
    number driver with its hash, and of the code for OCTEON itself the DMA
    mapping and the clock.

    ** How C becomes Rocq

    An integer is a [Z] with its wrap-around written out ([u32], [s32], [u64],
    ... of this file): [int] is 32 and [long] 64 bits wide, pages have 4096
    bytes.  Memory is a list of bytes or words, or a [gmap] from addresses to
    records where structures are linked; an access outside of it is a value of
    the result, never an assumption.  A function that may fault or loop returns
    [option] or [run E A] (a value, a fault, or no end within the fuel).  Loops
    have fuel that is computed from the data (number of words, of instructions,
    of records in the heap); the theorems show that the loop ends within it.
    What the caller may do between two critical sections is a step relation, with
    the code under one spin lock as one step.  Allocators, user memory, the
    clock and signals are arguments of the definitions: [kmalloc] is what it
    returns, user memory is a list, and so on.

    ** Files

    - [Prelude] (this file): machine integers, error numbers, memory, the [run]
      monad, the hint databases [kernel] and [lengths], tactics and shared lemmas.
    - [Skbuff]: include/linux/skbuff.h and net/core/skbuff.c, the layout of a
      packet buffer (linear part, page fragments, fragment list), [skb_put],
      [skb_copy_bits] and [skb_header_pointer].
    - [Nlattr]: lib/nlattr.c and include/net/netlink.h, netlink attributes: walking,
      validating, parsing, finding and adding them.
    - [SockFilter]: net/core/filter.c, the checker [sk_chk_filter] and the
      interpreter [sk_run_filter] with all instructions and ancillary loads; it reads
      packets through [Skbuff] and attributes through [Nlattr].
    - [FilterAttach]: net/core/filter.c and net/core/sock.c, attaching and detaching filters that sockets
      share: reference counts, the option memory accounts, and RCU callbacks; it runs the checker of [SockFilter].
    - [Bitops]: arch/mips/include/asm/bitops.h, lib/find_next_bit.c and
      lib/find_last_bit.c, scans of a word and of arrays of words.
    - [Hweight]: lib/hweight.c, the population counts.
    - [Bitmap], [BitmapMap]: lib/bitmap.c, over a store of arrays that may alias:
      logic, shifts, predicates and weight; ordinals, remapping, onto, fold and regions.
    - [Groups]: kernel/groups.c, group lists in pages, Shell sort, binary search,
      and the tests [in_group_p] and [in_egroup_p], stated as an instance of [GroupTest].
    - [PosixAcl]: fs/posix_acl.c, a client of [GroupTest]: validation, permission check, modes.
    - [Kfifo]: kernel/kfifo.c, the ring buffer, with its locks and without.
    - [Tasks]: counting tasks in a map and what they have, shared by the locks and the random number driver.
    - [RwSem]: lib/rwsem-spinlock.c, reader-writer semaphores.
    - [Semaphore]: kernel/semaphore.c, counting semaphores with signals and timeouts.
    - [ResCounter]: kernel/res_counter.c, hierarchical counters with limits.
    - [Resource], [ResourceAlloc]: kernel/resource.c, the tree of address ranges as a
      heap of linked records: request and release; allocation, adjusting, regions.
    - [FileLock]: fs/locks.c, the lock records of one file as a heap, the chain of
      locks and the wait queues, [__posix_lock_file] and [flock_lock_file] as they are
      written, and lemmas on the links between records.
    - [FileLockRange]: what a sorted list of ranges covers, and how each step of the
      loop of [__posix_lock_file] changes it; no heap.
    - [PosixLock]: the loop and the insertion of [__posix_lock_file] over the heap.
    - [PosixLockFile]: the contract of [__posix_lock_file], [posix_test_lock] and
      [flock_to_posix_lock], in terms of which owner holds which byte.
    - [Timer]: kernel/timer.c, the timers and the wheel of each CPU as they are written.
    - [TimerWheel]: one wheel: where a timer may be, what a cascade and a tick do.
    - [TimerSystem]: the invariant of all timers and bases, kept by every operation.
    - [TimerRun]: all CPUs as a step relation, deadlines, [__run_timers].
    - [TimerNext]: [__next_timer_interrupt], and a timer that it misses.
    - [RbTree]: lib/rbtree.c over a heap of nodes with parent and colour in one word; when
      the heap holds a tree, and the effect of each pointer operation on the subtree in focus.
    - [RbTreeColor]: valid red-black trees, and the loops that restore them.
    - [RbTreeErase]: taking nodes out, replacing them, and walking.
    - [RbTreeSpec]: the contract of the operations on red-black trees.
    - [Hrtimer]: kernel/hrtimer.c, high-resolution timers in red-black trees ([RbTree]), as they are written.
    - [HrtimerQueue]: the queue of one clock base: sorted, with its first timer known.
    - [HrtimerSystem]: the invariant of all timers, bases and calls under way, kept by every operation.
    - [HrtimerExpire]: the interrupt, against the classes [Callbacks] and [CpuCallbacks] of what callbacks
      may do; forwarding.
    - [HrtimerRun]: all CPUs as a step relation, and the theorems on its reachable states.
    - [PageAlloc]: mm/page_alloc.c for one zone, as it is written: the buddy system with migrate types,
      the lists of each CPU, isolation and watermarks.
    - [PageBlocks]: aligned blocks of pages: buddies, sets of blocks that are merged, who owns what.
    - [PageZone]: the free lists against the marks in the pages; merging and splitting.
    - [PageQueue]: moving blocks between types, stealing, [__rmqueue].
    - [PagePcp]: the lists of a CPU: refilling, draining, allocation and freeing through them.
    - [PageSystem]: a zone with its CPUs and all who have pages as a step relation, and its theorems.
    - [PageWatermark]: what the counters say about the lists, and the check of the watermarks.
    - [OcteonDma]: arch/mips/cavium-octeon/dma-octeon.c and arch/mips/mm/dma-default.c, DMA addresses through the
      windows of PCI and PCIe.
    - [OcteonDmaMap]: what a device sees, and the table of BAR1 against the buffers that are mapped.
    - [OcteonDmaSystem]: drivers that map and unmap as a step relation, and its theorems.
    - [OcteonClock]: arch/mips/cavium-octeon/csrc-octeon.c, the cycle counter: nanoseconds, delays, scaling.
    - [Sha1]: lib/sha1.c, the SHA-1 transform, and the compression function of FIPS 180-1.
    - [Random]: drivers/char/random.c, the entropy pools and the operations on them, as they are written.
    - [RandomMix]: mixing into a pool and its inverse.
    - [RandomExtract]: accounting, extraction and refilling, and the reads of the devices.
    - [RandomEvent]: the estimate of the entropy of events.
    - [RandomSystem]: readers and sources of entropy as a step relation, its theorems, and the functions of
      the driver as sequences of its steps.

    ** What the theorems show

    - Packets and filters: copying out of a packet returns its bytes and fails exactly
      outside of it; attributes that were put are found again, and parsing any bytes
      stays inside them; a filter that the checker admits ends within its own length
      and never leaves program or scratch memory; attaching, cloning and freeing sockets keep
      reference counts and memory accounts exact.  Three theorems show where this
      version is wrong: an attribute bound is computed the wrong way round, scratch memory
      is readable before it is written, and a shared filter can be queued for its release twice.
    - Bits: each search, shift, mapping and region operation equals its definition on
      single bits, with the behaviour on the last partial word and under aliasing.
    - Credentials: the sort ends with a sorted permutation, the search finds exactly
      the members when gids are less than 2^31 apart, and misses some otherwise; the ACL check is the one of
      POSIX 1003.1e; valid ACLs are a grammar; modes survive the round trip.
    - FIFO and locks: the FIFO is a bounded queue, also across the wrap of its indices and
      with reader and writer interleaved byte by byte; in all reachable states of any
      number of tasks the locks exclude, conserve their counts, and lose no wake-up.
    - Counters and resources: a charge that no other overlaps is all or nothing along the path to the root;
      requests succeed exactly for free ranges and keep the tree sorted and disjoint, releases undo them,
      and allocation finds the lowest free aligned range, for sizes of two and more and as long as rounding
      up does not wrap.
    - File locks: seen as a map from owner and byte to lock type, a granted request
      replaces exactly its range and a refused one changes nothing; conflicting
      locks never coexist; the query and the offset conversion are exact.
    - Timers: the wheel is a table of deadlines, for any expiry and across the wrap of the tick counter;
      [__run_timers] ends in the first turn that does not find the tick counter ahead and calls each handler
      in the turn of its deadline, whatever is done to timers meanwhile; a timer is never queued twice and
      its handler never runs on two CPUs; a synchronous deletion leaves it neither queued nor running; the
      next event is exact unless a timer lies more than 2^32 ticks ahead, when it can be late.
    - Red-black trees: insertion and deletion end, keep the tree valid and change the
      sequence of nodes by exactly the one node; the walks follow that sequence; the
      loops make at most 2 log2 (n + 1) turns.
    - High-resolution timers: in every interleaving of the CPUs each clock has its queued timers in one
      valid sorted tree; starting, cancelling and forwarding are exact; the interrupt ends, leaves nothing
      overdue and sets the next event, if callbacks restart their timers later and queue none that has
      expired already.  Four theorems show reachable states that the code does not intend: a timer cancelled
      while it runs, a range timer that the interrupt runs for ever, a timer moved to a CPU that runs it
      late, and a call that starts a timer and releases the lock of another CPU.
    - Page allocator: in every interleaving of the CPUs no page has two owners and none is lost; free memory is
      always in the one coarsest set of blocks, so that freeing undoes allocation; allocation
      fails only when no block is left, all paths return, and the watermarks are right about it.  One
      theorem shows that pages of an isolated block can be allocated.
    - OCTEON: whatever is mapped and unmapped, a PCI device reaches exactly the bytes of the buffers mapped
      for it and the table is released exactly, until an error of [dma_map_page] goes unnoticed, which
      breaks this; the two versions of [sched_clock] agree and are accurate, and the delays last as long as
      they should.
    - Random numbers: the hash is that of the standard; mixing loses nothing, since it can be undone; reads
      return what they promise; in every interleaving no more entropy is given out than was credited and no
      reader sleeps over entropy, and the functions of the driver are executions of that system; the estimate
      for events is exact in the first five minutes and ignores a difference later.

    ** Not modelled

    Interrupts, preemption inside a critical section and weak memory order; RCU, of which only the promise
    is used that a callback waits for the readers before it; the slab allocators behind [kmalloc], and above
    one zone the choice of zones and reclaim; text conversion of bitmaps and counters; the system call
    layer; the other drivers and architecture code, whose behaviour is that of device registers and
    assembly, and the OCTEON executive (cvmx), which is not part of the sources: the windows of PCIe and the
    clock multipliers are arguments.  Of the modelled files, functions that only free memory or export
    symbols are left out, and in kernel/resource.c the insertion above existing resources, the managed
    regions and /proc. *)

From stdpp Require Export base tactics decidable option list numbers gmap.
From Stdlib Require Export ZArith Lia Bool.

#[export] Set Default Goal Selector "!".
Global Open Scope Z_scope.

Declare Scope kernel_scope.
Delimit Scope kernel_scope with K.

(** ** Machine integers

    A C integer of width [w] is a [Z] kept in range by the wrap-around the
    compiled code has; the kernel is built for MIPS64, so [int] is [s32],
    [unsigned int] is [u32], and [long], [size_t] and pointers are 64 bit. *)

Definition uwrap (w x : Z) : Z := x mod 2 ^ w.
Definition swrap (w x : Z) : Z := (x + 2 ^ (w - 1)) mod 2 ^ w - 2 ^ (w - 1).

Abbreviation u8 := (uwrap 8).
Abbreviation u16 := (uwrap 16).
Abbreviation u32 := (uwrap 32).
Abbreviation u64 := (uwrap 64).
Abbreviation s32 := (swrap 32).
Abbreviation s64 := (swrap 64).

Notation "x .& y" := (Z.land x y) (at level 40, left associativity) : kernel_scope.
Notation "x .| y" := (Z.lor x y) (at level 50, left associativity) : kernel_scope.
Notation "x .^ y" := (Z.lxor x y) (at level 50, left associativity) : kernel_scope.
Notation "x .<< y" := (Z.shiftl x y) (at level 39, left associativity) : kernel_scope.
Notation "x .>> y" := (Z.shiftr x y) (at level 39, left associativity) : kernel_scope.
Global Open Scope kernel_scope.

(** [zbool] evaluates the integer comparisons of the goal that linear arithmetic
    decides; [zcase] splits on the first one. *)
Ltac zbool :=
  rewrite ?Z.gtb_ltb, ?Z.geb_leb;
  repeat match goal with
  | |- context [Z.eqb ?a ?b] =>
      first [ rewrite (proj2 (Z.eqb_eq a b)) by lia | rewrite (proj2 (Z.eqb_neq a b)) by lia ]
  | |- context [Z.ltb ?a ?b] =>
      first [ rewrite (proj2 (Z.ltb_lt a b)) by lia | rewrite (proj2 (Z.ltb_ge a b)) by lia ]
  | |- context [Z.leb ?a ?b] =>
      first [ rewrite (proj2 (Z.leb_le a b)) by lia | rewrite (proj2 (Z.leb_gt a b)) by lia ]
  end.
Ltac zcase :=
  match goal with
  | |- context [Z.eqb ?a ?b] => destruct (Z.eqb_spec a b)
  | |- context [Z.ltb ?a ?b] => destruct (Z.ltb_spec a b)
  | |- context [Z.leb ?a ?b] => destruct (Z.leb_spec a b)
  | |- context [Z.gtb ?a ?b] => destruct (Z.gtb_spec a b)
  | |- context [Z.geb ?a ?b] => destruct (Z.geb_spec a b)
  end.

(** Equality of integers by comparing their bits. *)
Ltac bitwise_eq :=
  apply Z.bits_inj'; intros ??;
  rewrite ?Z.land_spec, ?Z.lor_spec, ?Z.lxor_spec, ?Z.ldiff_spec, ?Z.lnot_spec,
    ?Z.testbit_0_l by lia;
  repeat match goal with |- context [Z.testbit ?a ?i] => destruct (Z.testbit a i) end;
  reflexivity.

(** The error numbers of include/asm-generic/errno-base.h and errno.h that the
    modelled code returns (negated). *)
Definition EPERM : Z := 1.
Definition ENOENT : Z := 2.
Definition EAGAIN : Z := 11.
Definition ENOMEM : Z := 12.
Definition EIO : Z := 5.
Definition EACCES : Z := 13.
Definition EFAULT : Z := 14.
Definition EBUSY : Z := 16.
Definition EINVAL : Z := 22.
Definition ENOSPC : Z := 28.
Definition ERANGE : Z := 34.
Definition EMSGSIZE : Z := 97.

Lemma uwrap_small w x : 0 <= x < 2 ^ w -> uwrap w x = x.
Proof. apply Z.mod_small. Qed.

Lemma uwrap_range w x : 0 <= w -> 0 <= uwrap w x < 2 ^ w.
Proof. intros Hw. apply Z.mod_pos_bound. lia. Qed.

Lemma swrap_small w x : 1 <= w -> - 2 ^ (w - 1) <= x < 2 ^ (w - 1) -> swrap w x = x.
Proof.
  intros Hw Hx. unfold swrap. rewrite Z.mod_small; [lia |].
  replace (2 ^ w) with (2 * 2 ^ (w - 1)); [lia |].
  rewrite <- Z.pow_succ_r by lia. f_equal. lia.
Qed.

Lemma swrap_range w x : 1 <= w -> - 2 ^ (w - 1) <= swrap w x < 2 ^ (w - 1).
Proof.
  intros Hw. unfold swrap.
  assert (2 ^ w = 2 * 2 ^ (w - 1)) as E.
  { rewrite <- Z.pow_succ_r by lia. f_equal. lia. }
  pose proof (Z.mod_pos_bound (x + 2 ^ (w - 1)) (2 ^ w)). lia.
Qed.

Lemma land_le_l a b : 0 <= a -> Z.land a b <= a.
Proof.
  intros Ha.
  assert (a - Z.land a b = Z.ldiff a (Z.land a b)) as E.
  { apply Z.sub_nocarry_ldiff. rewrite Z.ldiff_land. bitwise_eq. }
  pose proof (proj2 (Z.ldiff_nonneg a (Z.land a b)) (or_introl Ha)). lia.
Qed.

Lemma testbit_high a w i : 0 <= a < 2 ^ w -> w <= i -> Z.testbit a i = false.
Proof.
  intros Ha Hi. destruct (Z.eq_dec a 0) as [->|]; [apply Z.testbit_0_l |].
  apply Z.bits_above_log2; [lia |]. apply Z.log2_lt_pow2; [lia |].
  destruct (Z.ltb_spec i 0); [| eapply Z.lt_le_trans; [apply Ha | apply Z.pow_le_mono_r; lia]].
  rewrite (Z.pow_neg_r 2 w) in Ha; lia.
Qed.

(** A mask that clears only bits from [w] on leaves a [w]-bit value alone. *)
Lemma land_lnot_shiftl a b w : 0 <= a < 2 ^ w -> Z.land a (Z.lnot (Z.shiftl b w)) = a.
Proof.
  intros Ha. apply Z.bits_inj'. intros i Hi. rewrite Z.land_spec, Z.lnot_spec by lia.
  destruct (Z.ltb_spec i w).
  - rewrite Z.shiftl_spec_low by lia. apply andb_true_r.
  - by rewrite (testbit_high a w i).
Qed.

Lemma bits_bound a w : 0 <= w -> 0 <= a -> (forall i, w <= i -> Z.testbit a i = false) -> a < 2 ^ w.
Proof.
  intros Hw Ha H. destruct (Z.lt_ge_cases a (2 ^ w)) as [|Hge]; [done |].
  assert (0 < a) by (pose proof (Z.pow_pos_nonneg 2 w); lia).
  pose proof (Z.log2_le_pow2 a w) as [Hl _]; [done |]. specialize (Hl Hge).
  specialize (H (Z.log2 a) Hl). rewrite Z.bit_log2 in H; [done | lia].
Qed.

Lemma lor_range a b w : 0 <= w -> 0 <= a < 2 ^ w -> 0 <= b < 2 ^ w -> 0 <= Z.lor a b < 2 ^ w.
Proof.
  intros Hw Ha Hb. assert (0 <= Z.lor a b) by (apply Z.lor_nonneg; lia).
  split; [done |]. apply bits_bound; [done | done |]. intros i Hi.
  rewrite Z.lor_spec, (testbit_high a w i), (testbit_high b w i) by done. done.
Qed.

Lemma land_range a b w : 0 <= a < 2 ^ w -> 0 <= Z.land a b < 2 ^ w.
Proof. intros Ha. pose proof (land_le_l a b). split; [apply Z.land_nonneg |]; lia. Qed.

Lemma shiftr_range a n w : 0 <= n -> 0 <= a < 2 ^ w -> 0 <= Z.shiftr a n < 2 ^ w.
Proof.
  intros Hn Ha. rewrite Z.shiftr_div_pow2 by done. pose proof (Z.pow_pos_nonneg 2 n).
  split; [apply Z.div_pos; lia |]. eapply Z.le_lt_trans; [apply Z.div_le_upper_bound with (q := a) | apply Ha]; nia.
Qed.

Lemma div_range a b m : 0 < b -> 0 <= a < m -> 0 <= a / b < m.
Proof. intros. split; [apply Z.div_pos; lia |]. apply Z.div_lt_upper_bound; nia. Qed.

(** ** Automation

    [kernel] has the ranges of the machine operations, [lengths] rewrites the
    length of a list built with the list operations; [len] decides goals about
    such lengths. *)
Create HintDb kernel.
#[export] Hint Resolve uwrap_range swrap_range lor_range land_range shiftr_range div_range : kernel.

#[export] Hint Rewrite @length_app @length_fmap @length_take @length_drop @length_insert @length_replicate
  @length_seqZ @length_seq @length_rev : lengths.
Ltac len := autorewrite with lengths; simpl length; lia.

Lemma insert_middle {A} (l1 l2 : list A) x y : <[length l1 := y]> (l1 ++ x :: l2) = l1 ++ y :: l2.
Proof. induction l1 as [|z l1 IH]; simpl; [done |]. by rewrite IH. Qed.

(** ** Results of C code that can go wrong

    [Ret a]: the function returns [a].  [Err e]: it does something C leaves
    undefined or that stops the kernel (an access outside its object, a BUG),
    [e] says what.  [Diverge]: the model's fuel ran out; theorems that state a
    result also state that this one is not reached. *)
Inductive run (E A : Type) : Type :=
  | Ret (a : A)
  | Err (e : E)
  | Diverge.
Arguments Ret {E A} a.
Arguments Err {E A} e.
Arguments Diverge {E A}.

#[export] Instance run_ret {E} : MRet (run E) := @Ret E.
#[export] Instance run_bind {E} : MBind (run E) := fun A B f m =>
  match m with Ret a => f a | Err e => Err e | Diverge => Diverge end.
#[export] Instance run_fmap {E} : FMap (run E) := fun A B f m =>
  match m with Ret a => Ret (f a) | Err e => Err e | Diverge => Diverge end.

Definition of_option {E A} (e : E) (o : option A) : run E A :=
  match o with Some a => Ret a | None => Err e end.

Lemma run_bind_Ret {E A B} (f : A -> run E B) (a : A) : (Ret a ≫= f) = f a.
Proof. reflexivity. Qed.

(** ** Byte buffers

    A C object that is accessed by address is a list of bytes; an access
    outside it is [None]. *)
Definition mem_read (m : list Z) (off n : Z) : option (list Z) :=
  if (0 <=? off) && (0 <=? n) && (off + n <=? Z.of_nat (length m))
  then Some (take (Z.to_nat n) (drop (Z.to_nat off) m))
  else None.

Definition mem_write (m : list Z) (off : Z) (bs : list Z) : option (list Z) :=
  if (0 <=? off) && (off + Z.of_nat (length bs) <=? Z.of_nat (length m))
  then Some (take (Z.to_nat off) m ++ bs ++ drop (Z.to_nat off + length bs) m)
  else None.

(** Big-endian values, as the CPU and the network have them. *)
Definition be_val (bs : list Z) : Z := foldl (fun acc b => acc * 256 + b) 0 bs.
Definition be16_bytes (x : Z) : list Z := [u8 (x .>> 8); u8 x].

Definition read_u8 (m : list Z) (off : Z) : option Z := be_val <$> mem_read m off 1.
Definition read_be16 (m : list Z) (off : Z) : option Z := be_val <$> mem_read m off 2.
Definition read_be32 (m : list Z) (off : Z) : option Z := be_val <$> mem_read m off 4.

Definition is_byte (b : Z) : Prop := 0 <= b < 256.

(** The [n] bytes of [l] from offset [off] on. *)
Definition slice {A} (l : list A) (off n : Z) : list A :=
  take (Z.to_nat n) (drop (Z.to_nat off) l).

Lemma mem_read_Some m off n :
  0 <= off -> 0 <= n -> off + n <= Z.of_nat (length m) ->
  mem_read m off n = Some (slice m off n).
Proof.
  intros H1 H2 H3. unfold mem_read.
  rewrite (proj2 (Z.leb_le 0 off)), (proj2 (Z.leb_le 0 n)), (proj2 (Z.leb_le _ _)) by lia.
  reflexivity.
Qed.

Lemma mem_read_inv m off n bs :
  mem_read m off n = Some bs ->
  0 <= off /\ 0 <= n /\ off + n <= Z.of_nat (length m) /\ bs = slice m off n.
Proof.
  unfold mem_read. intros H.
  destruct (Z.leb_spec 0 off), (Z.leb_spec 0 n),
    (Z.leb_spec (off + n) (Z.of_nat (length m))); simpl in H; simplify_eq.
  unfold slice. auto with lia.
Qed.

Lemma length_slice {A} (l : list A) off n :
  0 <= off -> 0 <= n -> off + n <= Z.of_nat (length l) ->
  Z.of_nat (length (slice l off n)) = n.
Proof. intros. unfold slice. rewrite length_take, length_drop. lia. Qed.

Lemma slice_app_l {A} (a b : list A) off n :
  0 <= off -> 0 <= n -> off + n <= Z.of_nat (length a) ->
  slice (a ++ b) off n = slice a off n.
Proof.
  intros. unfold slice. rewrite drop_app_le by lia. rewrite take_app_le; [done |].
  rewrite length_drop. lia.
Qed.

Lemma slice_app_r {A} (a b : list A) off n :
  Z.of_nat (length a) <= off ->
  slice (a ++ b) off n = slice b (off - Z.of_nat (length a)) n.
Proof.
  intros. unfold slice. rewrite drop_app_ge by lia. do 2 f_equal. lia.
Qed.

Lemma slice_split {A} (l : list A) off n k :
  0 <= off -> 0 <= k <= n -> slice l off n = slice l off k ++ slice l (off + k) (n - k).
Proof.
  intros. unfold slice. replace (Z.to_nat n) with (Z.to_nat k + Z.to_nat (n - k))%nat by lia.
  rewrite <- take_take_drop, drop_drop. do 3 f_equal. lia.
Qed.

Lemma slice_all {A} (l : list A) : slice l 0 (Z.of_nat (length l)) = l.
Proof. unfold slice. rewrite Nat2Z.id. simpl. rewrite drop_0. apply firstn_all. Qed.

Lemma slice_slice {A} (l : list A) o n o' n' :
  0 <= o -> 0 <= o' -> 0 <= n' -> o' + n' <= n -> slice (slice l o n) o' n' = slice l (o + o') n'.
Proof.
  intros. unfold slice. rewrite skipn_firstn_comm, take_take, drop_drop. f_equal; [lia | f_equal; lia].
Qed.

Lemma slice_mid {A} (a b c : list A) off :
  0 <= off <= Z.of_nat (length a) ->
  slice (a ++ b ++ c) off (Z.of_nat (length a) + Z.of_nat (length b) - off)
    = slice a off (Z.of_nat (length a) - off) ++ b.
Proof.
  intros. rewrite (slice_split _ _ _ (Z.of_nat (length a) - off)) by lia.
  rewrite slice_app_l by lia. f_equal. rewrite slice_app_r, slice_app_l by lia.
  rewrite <- (slice_all b) at 3. f_equal; lia.
Qed.

Lemma slice_Forall {A} (P : A -> Prop) l off n : Forall P l -> Forall P (slice l off n).
Proof. intros. unfold slice. by apply Forall_take, Forall_drop. Qed.

Lemma be_val_range bs :
  Forall is_byte bs -> 0 <= be_val bs < 256 ^ Z.of_nat (length bs).
Proof.
  induction bs as [|b bs IH] using rev_ind; intros H; [by vm_compute |].
  apply Forall_app in H as [H1 H2]. apply Forall_cons in H2 as [H2 _]. red in H2.
  unfold be_val in *. rewrite foldl_app. simpl. rewrite length_app. simpl.
  replace (Z.of_nat (length bs + 1)) with (Z.of_nat (length bs) + 1) by lia.
  rewrite Z.pow_add_r by lia. specialize (IH H1). lia.
Qed.

Lemma mem_write_app pre old post bs :
  length old = length bs ->
  mem_write (pre ++ old ++ post) (Z.of_nat (length pre)) bs = Some (pre ++ bs ++ post).
Proof.
  intros Hl. unfold mem_write. rewrite !length_app. zbool. simpl.
  rewrite Nat2Z.id, take_app_length, (app_assoc pre old post).
  rewrite drop_app_length' by (rewrite length_app; lia). done.
Qed.

Lemma mem_read_app pre bs post :
  mem_read (pre ++ bs ++ post) (Z.of_nat (length pre)) (Z.of_nat (length bs)) = Some bs.
Proof.
  rewrite mem_read_Some by (rewrite ?length_app; lia). f_equal.
  rewrite slice_app_r, slice_app_l by lia. rewrite Z.sub_diag. apply slice_all.
Qed.

Lemma list_split_at {A} (l : list A) n :
  (n <= length l)%nat -> exists a b, l = a ++ b /\ length a = n.
Proof. exists (take n l), (drop n l). rewrite take_drop, length_take. auto with lia. Qed.

Lemma be16_bytes_val x : 0 <= x < 2 ^ 16 -> be_val (be16_bytes x) = x.
Proof.
  intros Hx. unfold be_val, be16_bytes, uwrap. simpl. rewrite Z.shiftr_div_pow2 by lia.
  change (2 ^ 8) with 256. rewrite (Z.mod_small (x / 256)); Z.to_euclidean_division_equations; lia.
Qed.
