(* ===== verification/Skbuff.v ===== *)
(** * Socket buffers (net/core/skbuff.c, include/linux/skbuff.h)

    A packet: a linear buffer and, behind it, page fragments and further
    buffers.  The file models the fields the packet filter and the netlink
    attribute code read and write, [skb_put], [skb_copy_bits] and
    [skb_header_pointer], and shows that [skb_copy_bits] returns the bytes of
    the packet seen as one string, whatever way they are spread. *)

From S2P Require Import Prelude.

(** What stops the code that works on packets: an access outside the packet's
    memory, outside the scratch memory or the program of a filter, a division
    by zero, a NULL dereference, a BUG or panic, an [rcu_head] that is queued twice. *)
Inductive fault := FPacket | FMem | FInsn | FDiv | FNull | FBug | FRcu.

Module Skb.

(** [skb_frag_t]: [size] bytes at [page_offset] of a page. *)
Record skb_frag := Frag { page : list Z; page_offset : Z; size : Z }.

(** [struct sk_buff].  [head] is the memory from [skb->head] to [skb->end];
    [data] and [tail] are offsets from [head] (NET_SKBUFF_DATA_USES_OFFSET
    holds on 64 bit).  [dev] is the device's [ifindex], or [None] for NULL;
    [frags] and [frag_list] are [skb_shinfo(skb)]'s. *)
Inductive sk_buff := SkBuff {
  head : list Z;
  data : Z;
  tail : Z;
  len : Z;
  data_len : Z;
  network_header : Z;
  mac_header : Z;
  protocol : Z;
  pkt_type : Z;
  dev : option Z;
  frags : list skb_frag;
  frag_list : list sk_buff
}.

Definition skb_headlen (skb : sk_buff) : Z := u32 (len skb - data_len skb).
Definition skb_is_nonlinear (skb : sk_buff) : bool := negb (data_len skb =? 0).

(** The end of the buffer: [head] spans [skb->head .. skb->end]. *)
Definition skb_end (skb : sk_buff) : Z := Z.of_nat (length (head skb)).

Definition skb_tailroom (skb : sk_buff) : Z :=
  if skb_is_nonlinear skb then 0 else s32 (u32 (skb_end skb - tail skb)).

Definition set_tail_len (skb : sk_buff) (t l : Z) : sk_buff :=
  SkBuff (head skb) (data skb) t l (data_len skb) (network_header skb) (mac_header skb)
    (protocol skb) (pkt_type skb) (dev skb) (frags skb) (frag_list skb).

Definition set_head (skb : sk_buff) (h : list Z) : sk_buff :=
  SkBuff h (data skb) (tail skb) (len skb) (data_len skb) (network_header skb) (mac_header skb)
    (protocol skb) (pkt_type skb) (dev skb) (frags skb) (frag_list skb).

(** [skb_put] returns the old tail (as an offset from [skb->head]) and the
    extended buffer; a nonlinear buffer is a BUG, and too little room panics. *)
Definition skb_put (skb : sk_buff) (n : Z) : run fault (Z * sk_buff) :=
  let tmp := tail skb in
  if skb_is_nonlinear skb then Err FBug
  else
    let tail' := u32 (tail skb + n) in
    let len' := u32 (len skb + n) in
    if tail' >? skb_end skb then Err FBug
    else Ret (tmp, set_tail_len skb tail' len').

(** *** [skb_copy_bits]

    The linear part, each page fragment and each buffer of [frag_list] is
    copied by the same steps: how much of the wanted range lies before the
    part's end, at most [len]; copy it; return if nothing is left.
    [Returned r to]: the function returns [r] with [to] copied; [Going]: it
    goes on with the next part. *)
Inductive progress :=
  | Returned (ret : Z) (to : list Z)
  | Going (offset len : Z) (to : list Z).

Definition copy_part (end_ offset len : Z) (to : list Z)
    (get : Z -> run fault (option (list Z))) : run fault progress :=
  let copy := end_ - offset in
  if copy >? 0 then
    let copy := if copy >? len then len else copy in
    o ← get copy;
    match o with
    | None => Ret (Returned (- EFAULT) to)
    | Some bs =>
        let len := len - copy in
        if len =? 0 then Ret (Returned 0 (to ++ bs))
        else Ret (Going (offset + copy) len (to ++ bs))
    end
  else Ret (Going offset len to).

Definition packet_read (m : list Z) (off n : Z) : run fault (option (list Z)) :=
  Some <$> of_option FPacket (mem_read m off n).

Section parts.
Context {T : Type} (part_len : T -> Z).
Context (get : T -> Z -> Z -> run fault (option (list Z))).

(** The loop over the parts of one kind; gives the new [start] as well. *)
Fixpoint copy_parts (ps : list T) (start offset len : Z) (to : list Z)
    : run fault (Z * progress) :=
  match ps with
  | [] => Ret (start, Going offset len to)
  | p :: ps' =>
      let end_ := start + part_len p in
      r ← copy_part end_ offset len to (get p (offset - start));
      match r with
      | Returned _ _ => Ret (end_, r)
      | Going offset len to => copy_parts ps' end_ offset len to
      end
  end.
End parts.

Definition get_frag (f : skb_frag) (off copy : Z) : run fault (option (list Z)) :=
  packet_read (page f) (page_offset f + off) copy.

Fixpoint skb_copy_bits (skb : sk_buff) (offset n : Z) {struct skb} : run fault (Z * list Z) :=
  let start := skb_headlen skb in
  if offset >? s32 (len skb) - n then Ret (- EFAULT, [])
  else
    r ← copy_part start offset n [] (fun copy => packet_read (head skb) (data skb + offset) copy);
    match r with
    | Returned ret to => Ret (ret, to)
    | Going offset n to =>
        r ← copy_parts size get_frag (frags skb) start offset n to;
        match r with
        | (_, Returned ret to) => Ret (ret, to)
        | (start, Going offset n to) =>
            r ← copy_parts len
                  (fun frag_iter off copy =>
                     r ← skb_copy_bits frag_iter off copy;
                     Ret (if r.1 =? 0 then Some r.2 else None))
                  (frag_list skb) start offset n to;
            match r with
            | (_, Returned ret to) => Ret (ret, to)
            | (_, Going offset n to) => if n =? 0 then Ret (0, to) else Ret (- EFAULT, to)
            end
        end
    end.

(** [skb_header_pointer]: a pointer into the linear part ([InHead], an offset
    from [skb->head]) or to the caller's buffer with the copied bytes, or NULL. *)
Inductive packet_ptr := InHead (off : Z) | InBuffer (bs : list Z).

Definition skb_header_pointer (skb : sk_buff) (offset n : Z) : run fault (option packet_ptr) :=
  let hlen := s32 (skb_headlen skb) in
  if hlen - offset >=? n then Ret (Some (InHead (data skb + offset)))
  else
    r ← skb_copy_bits skb offset n;
    Ret (if r.1 <? 0 then None else Some (InBuffer r.2)).

(** ** The packet as one string of bytes *)

Lemma sk_buff_ind' (P : sk_buff -> Prop) :
  (forall skb, Forall P (frag_list skb) -> P skb) -> forall skb, P skb.
Proof.
  intros IH. fix F 1. intros skb. apply IH. destruct skb. simpl.
  induction frag_list0 as [|x l IHl]; constructor; auto.
Qed.

Definition frag_bytes (f : skb_frag) : list Z := slice (page f) (page_offset f) (size f).

Definition linear_bytes (skb : sk_buff) : list Z :=
  slice (head skb) (data skb) (tail skb - data skb).

Fixpoint skb_bytes (skb : sk_buff) : list Z :=
  linear_bytes skb ++ concat (map frag_bytes (frags skb))
    ++ concat (map skb_bytes (frag_list skb)).

Definition frag_wf (f : skb_frag) : Prop :=
  0 <= page_offset f /\ 0 <= size f /\ page_offset f + size f <= Z.of_nat (length (page f)).

Definition sum_len {T} (f : T -> Z) (l : list T) : Z := foldr (fun x acc => f x + acc) 0 l.

(** The invariant of a socket buffer: the offsets are in order and within the
    buffer, [len] counts all bytes and [data_len] those outside the linear
    part, and every part is well formed. *)
Inductive skb_wf : sk_buff -> Prop :=
  | skb_wf_intro skb :
      0 <= data skb -> data skb <= tail skb -> tail skb <= skb_end skb ->
      len skb = tail skb - data skb + data_len skb ->
      data_len skb = sum_len size (frags skb) + sum_len len (frag_list skb) ->
      0 <= data_len skb -> len skb < 2 ^ 31 ->
      Forall frag_wf (frags skb) -> Forall skb_wf (frag_list skb) ->
      skb_wf skb.

Lemma skb_wf_inv skb : skb_wf skb ->
  (0 <= data skb /\ data skb <= tail skb /\ tail skb <= skb_end skb) /\
  (len skb = tail skb - data skb + data_len skb /\
   data_len skb = sum_len size (frags skb) + sum_len len (frag_list skb) /\
   0 <= data_len skb /\ len skb < 2 ^ 31) /\
  Forall frag_wf (frags skb) /\ Forall skb_wf (frag_list skb).
Proof. destruct 1. repeat split; assumption. Qed.

Lemma length_concat_map {T} (f : T -> list Z) (g : T -> Z) (l : list T) :
  Forall (fun x => Z.of_nat (length (f x)) = g x) l ->
  Z.of_nat (length (concat (map f l))) = sum_len g l.
Proof.
  induction 1 as [|x l Hx _ IH]; [done |]. simpl. rewrite length_app. lia.
Qed.

Lemma length_frag_bytes f : frag_wf f -> Z.of_nat (length (frag_bytes f)) = size f.
Proof. intros (?&?&?). by apply length_slice. Qed.

Lemma length_linear_bytes skb :
  skb_wf skb -> Z.of_nat (length (linear_bytes skb)) = tail skb - data skb.
Proof. intros ((?&?&?)&_&_)%skb_wf_inv. apply length_slice; unfold skb_end in *; lia. Qed.

Lemma skb_bytes_eq skb :
  skb_bytes skb = linear_bytes skb ++ concat (map frag_bytes (frags skb))
    ++ concat (map skb_bytes (frag_list skb)).
Proof. by destruct skb. Qed.

Lemma length_skb_bytes skb : skb_wf skb -> Z.of_nat (length (skb_bytes skb)) = len skb.
Proof.
  induction skb as [skb IH] using sk_buff_ind'. intros Hwf.
  pose proof (length_linear_bytes skb Hwf) as Hlin.
  apply skb_wf_inv in Hwf as (_&(Hlen&Hdl&_)&Hf&Hl).
  rewrite skb_bytes_eq, !length_app.
  rewrite <- (length_concat_map frag_bytes size) in Hdl
    by (eapply Forall_impl; eauto using length_frag_bytes).
  rewrite <- (length_concat_map skb_bytes len) in Hdl.
  - lia.
  - eapply Forall_impl; [apply Forall_and; split; [exact IH | exact Hl] |]. naive_solver.
Qed.

(** ** [skb_copy_bits] copies the bytes of the string *)

(** What a run of the loops over the parts with contents [c] gives, when the
    parts behind them hold [r]: it has returned the wanted bytes, or goes on
    behind [c] with what is missing. *)
Definition copied (start end_ : Z) (c r : list Z) (offset n : Z) (to : list Z) (p : progress) : Prop :=
  match p with
  | Returned ret to' => ret = 0 /\ to' = to ++ slice (c ++ r) (offset - start) n
  | Going offset' n' to' =>
      end_ <= offset' /\ 0 <= n' /\ offset' + n' = offset + n /\
      to' ++ slice r (offset' - end_) n' = to ++ slice (c ++ r) (offset - start) n
  end.

Lemma copy_part_copied start c r offset n to get :
  let end_ := start + Z.of_nat (length c) in
  start <= offset -> 0 <= n ->
  (forall k, 0 <= k -> offset - start + k <= Z.of_nat (length c) ->
     get k = Ret (Some (slice c (offset - start) k))) ->
  exists p, copy_part end_ offset n to get = Ret p /\ copied start end_ c r offset n to p.
Proof.
  intros end_ Ho Hn Hget. unfold copy_part. subst end_.
  destruct (Z.gtb_spec (start + Z.of_nat (length c) - offset) 0) as [Hc|Hc].
  - destruct (Z.gtb_spec (start + Z.of_nat (length c) - offset) n) as [Hl|Hl];
      rewrite Hget, run_bind_Ret by lia.
    + zbool. eexists; split; [done |].
      split; [done |]. by rewrite slice_app_l by lia.
    + case_match eqn:E; [apply Z.eqb_eq in E | apply Z.eqb_neq in E]; eexists; (split; [done |]).
      * split; [done |]. rewrite slice_app_l by lia. do 2 f_equal. lia.
      * simpl. repeat split; try lia. rewrite <- app_assoc. f_equal.
        rewrite (slice_split (c ++ r) _ n (start + Z.of_nat (length c) - offset)) by lia.
        rewrite slice_app_l, slice_app_r by lia. do 2 f_equal. lia.
  - eexists; split; [done |]. simpl. repeat split; try lia.
    rewrite slice_app_r by lia. do 2 f_equal. lia.
Qed.

Lemma copy_parts_copied {T} (part_len : T -> Z) (content : T -> list Z) get ps start r offset n to :
  Forall (fun p => Z.of_nat (length (content p)) = part_len p /\
    forall off k, 0 <= off -> 0 <= k -> off + k <= part_len p ->
      get p off k = Ret (Some (slice (content p) off k))) ps ->
  start <= offset -> 0 <= n ->
  let c := concat (map content ps) in
  exists end_ p, copy_parts part_len get ps start offset n to = Ret (end_, p) /\
    (match p with Going _ _ _ => end_ = start + Z.of_nat (length c) | _ => True end) /\
    copied start (start + Z.of_nat (length c)) c r offset n to p.
Proof.
  intros H. revert start offset n to. induction H as [|q ps [Hq Hget] _ IH]; intros start offset n to Ho Hn.
  { do 2 eexists; split; [done |]. simpl. repeat split; try lia. do 2 f_equal. lia. }
  simpl. rewrite <- Hq. destruct (copy_part_copied start (content q) (concat (map content ps) ++ r) offset n to
      (get q (offset - start))) as (p & -> & Hp); [done | done | |].
  { intros. apply Hget; lia. }
  rewrite run_bind_Ret. destruct p as [ret to'|offset' n' to'].
  - do 2 eexists; split; [done |]. split; [done |]. simpl in *. by rewrite <- app_assoc.
  - destruct Hp as (?&?&Heq&Hto).
    destruct (IH (start + Z.of_nat (length (content q))) offset' n' to') as (e & p & -> & He & Hp);
      [lia | lia |].
    exists e, p; split; [done |]. rewrite length_app. split; [destruct p; [done | lia] |].
    destruct p; simpl in *; rewrite <- app_assoc.
    + by rewrite <- Hto.
    + destruct Hp as (?&?&?&Hs). repeat split; try lia. rewrite <- Hto, <- Hs.
      do 2 f_equal. lia.
Qed.

Lemma skb_headlen_wf skb : skb_wf skb -> skb_headlen skb = tail skb - data skb.
Proof.
  intros ((?&?&?)&(?&?&?&?)&_)%skb_wf_inv. unfold skb_headlen. rewrite uwrap_small; lia.
Qed.

Lemma len_nonneg skb : skb_wf skb -> 0 <= len skb < 2 ^ 31.
Proof. intros ((?&?&?)&(?&?&?&?)&_)%skb_wf_inv. lia. Qed.

Lemma skb_copy_bits_unfold skb offset n :
  skb_copy_bits skb offset n =
  if offset >? s32 (len skb) - n then Ret (- EFAULT, [])
  else
    r ← copy_part (skb_headlen skb) offset n []
          (fun copy => packet_read (head skb) (data skb + offset) copy);
    match r with
    | Returned ret to => Ret (ret, to)
    | Going offset n to =>
        r ← copy_parts size get_frag (frags skb) (skb_headlen skb) offset n to;
        match r with
        | (_, Returned ret to) => Ret (ret, to)
        | (start, Going offset n to) =>
            r ← copy_parts len
                  (fun frag_iter off copy =>
                     r ← skb_copy_bits frag_iter off copy;
                     Ret (if r.1 =? 0 then Some r.2 else None))
                  (frag_list skb) start offset n to;
            match r with
            | (_, Returned ret to) => Ret (ret, to)
            | (_, Going offset n to) => if n =? 0 then Ret (0, to) else Ret (- EFAULT, to)
            end
        end
    end.
Proof. by destruct skb. Qed.

Lemma skb_copy_bits_long skb offset n :
  skb_wf skb -> len skb < offset + n -> skb_copy_bits skb offset n = Ret (- EFAULT, []).
Proof.
  intros Hwf Hlong. rewrite skb_copy_bits_unfold. pose proof (len_nonneg _ Hwf).
  rewrite swrap_small by lia. by zbool.
Qed.

Lemma skb_copy_bits_ok skb offset n :
  skb_wf skb -> 0 <= offset -> 0 <= n -> offset + n <= len skb ->
  skb_copy_bits skb offset n = Ret (0, slice (skb_bytes skb) offset n).
Proof.
  revert offset n. induction skb as [skb IH] using sk_buff_ind'.
  intros offset n Hwf Ho Hn Hlen.
  pose proof (length_linear_bytes _ Hwf) as Hlin. pose proof (skb_headlen_wf _ Hwf) as Hhl.
  pose proof (len_nonneg _ Hwf) as Hbound. pose proof (length_skb_bytes _ Hwf) as Hall.
  apply skb_wf_inv in Hwf as ((?&?&?)&(Hl&Hdl&?&?)&Hf&Hfl). unfold skb_end in *.
  rewrite skb_copy_bits_unfold, swrap_small by lia.
  zbool. rewrite Hhl.
  set (r2 := concat (map skb_bytes (frag_list skb))).
  set (r1 := concat (map frag_bytes (frags skb)) ++ r2).
  rewrite skb_bytes_eq in *. fold r2 in Hall |- *. fold r1 in Hall |- *.
  destruct (copy_part_copied 0 (linear_bytes skb) r1 offset n []
    (fun copy => packet_read (head skb) (data skb + offset) copy)) as (p & Hp & Hc); [lia | lia | |].
  { intros k ??. unfold packet_read. rewrite mem_read_Some by lia. unfold linear_bytes.
    rewrite slice_slice by lia. simpl. do 3 f_equal. lia. }
  rewrite Hlin in Hp, Hc. rewrite Z.add_0_l in Hp, Hc. rewrite Hp, run_bind_Ret.
  destruct p as [ret to|off1 n1 to1]; simpl in Hc.
  { destruct Hc as [-> ->]. do 3 f_equal. lia. }
  destruct Hc as (?&?&?&Ht1). rewrite Z.sub_0_r in Ht1. rewrite <- Ht1.
  edestruct (copy_parts_copied size frag_bytes get_frag (frags skb) (tail skb - data skb) r2 off1 n1 to1)
    as (e2 & p2 & -> & He2 & Hc2); [| lia | lia |].
  { eapply Forall_impl; [exact Hf |]. intros f Hfw. split; [by apply length_frag_bytes |].
    destruct Hfw as (?&?&?). intros. unfold get_frag, packet_read. rewrite mem_read_Some by lia.
    unfold frag_bytes. rewrite slice_slice by lia. done. }
  rewrite run_bind_Ret. destruct p2 as [ret to|off2 n2 to2]; simpl in Hc2.
  { by destruct Hc2 as [-> ->]. }
  destruct Hc2 as (?&?&?&Ht2). unfold r1. rewrite <- Ht2. subst e2.
  edestruct (copy_parts_copied len skb_bytes
      (fun frag_iter off copy => r ← skb_copy_bits frag_iter off copy;
                     Ret (if r.1 =? 0 then Some r.2 else None))
      (frag_list skb)) as (e3 & p3 & -> & He3 & Hc3); [| eassumption | lia |].
  { eapply Forall_impl; [apply Forall_and; split; [exact IH | exact Hfl] |].
    intros x [IHx Hx]. split; [by apply length_skb_bytes |]. intros off k ???.
    by rewrite IHx by done. }
  rewrite run_bind_Ret. destruct p3 as [ret to|off3 n3 to3]; simpl in Hc3.
  - destruct Hc3 as [-> ->]. by rewrite app_nil_r.
  - destruct Hc3 as (?&?&?&Ht3). subst r1 r2. rewrite !length_app in Hall.
    zbool. do 2 f_equal. rewrite app_nil_r in Ht3.
    unfold slice in Ht3 at 1. rewrite drop_nil, take_nil, app_nil_r in Ht3. done.
Qed.

(** [skb_copy_bits] on a well-formed buffer returns 0 and the wanted bytes
    of the packet, read as the one string the linear part, the page fragments
    and the chained buffers make, exactly when the range lies in the packet,
    and -EFAULT with nothing copied otherwise; it never reads outside a part. *)
Theorem skb_copy_bits_correct skb offset n :
  skb_wf skb -> 0 <= offset -> 0 <= n ->
  skb_copy_bits skb offset n =
    if offset + n <=? len skb then Ret (0, slice (skb_bytes skb) offset n)
    else Ret (- EFAULT, []).
Proof.
  intros. destruct (Z.leb_spec (offset + n) (len skb)).
  - by apply skb_copy_bits_ok.
  - by apply skb_copy_bits_long.
Qed.

(** A packet of eight bytes: two in the linear part, four in a page fragment,
    two in a chained buffer. *)
Definition scattered_packet : sk_buff :=
  let chained := SkBuff [0; 7; 8; 0] 1 3 2 0 0 0 0 0 None [] [] in
  SkBuff [0; 1; 2; 0] 1 3 8 6 0 0 0 0 None [Frag [0; 0; 3; 4; 5; 6] 2 4] [chained].

Lemma skb_copy_bits_correct_witness :
  skb_copy_bits scattered_packet 1 6 = Ret (0, [2; 3; 4; 5; 6; 7]) /\
  skb_copy_bits scattered_packet 3 6 = Ret (- EFAULT, []).
Proof.
  assert (H : skb_wf scattered_packet) by (repeat (constructor; try (vm_compute; (done || lia)))).
  split.
  - rewrite (skb_copy_bits_correct scattered_packet 1 6 H) by lia. reflexivity.
  - rewrite (skb_copy_bits_correct scattered_packet 3 6 H) by lia. reflexivity.
Defined.
End Skb.
