(* ===== verification/Nlattr.v ===== *)
(** * Netlink attributes (lib/nlattr.c, include/net/netlink.h)

    A stream of type-length-value attributes in memory.  Memory is a list of
    bytes and a [struct nlattr *] an offset into it; reads outside the memory
    are [Err FPacket].  The file models the stream iteration, [nla_find],
    [validate_nla], [nla_validate], [nla_parse], the reserve and put operations
    on socket buffers, and shows that iteration is safe on any input, that
    parsing gives attributes of the right type inside the stream, and that what
    [nla_put] writes is what [nla_find] finds. *)

From S2P Require Import Prelude Skbuff.

Module Nlattr.
Import Skb.

Abbreviation NLA_ALIGNTO := 4 (only parsing).
Abbreviation NLA_ALIGN n := ((n + NLA_ALIGNTO - 1) .& Z.lnot (NLA_ALIGNTO - 1)) (only parsing).
Abbreviation sizeof_nlattr := (4) (only parsing).
Abbreviation NLA_HDRLEN := (NLA_ALIGN sizeof_nlattr) (only parsing).
Abbreviation NLA_F_NESTED := (1 .<< 15) (only parsing).
Abbreviation NLA_F_NET_BYTEORDER := (1 .<< 14) (only parsing).
Abbreviation NLA_TYPE_MASK := (Z.lnot (NLA_F_NESTED .| NLA_F_NET_BYTEORDER)) (only parsing).

(** The two members of [struct nlattr], both [__u16] in CPU order. *)
Definition field_nla_len (m : list Z) (nla : Z) : run fault Z :=
  of_option FPacket (read_be16 m nla).
Definition field_nla_type (m : list Z) (nla : Z) : run fault Z :=
  of_option FPacket (read_be16 m (nla + 2)).

Definition nla_attr_size (payload : Z) : Z := NLA_HDRLEN + payload.
Definition nla_total_size (payload : Z) : Z := NLA_ALIGN (nla_attr_size payload).
Definition nla_padlen (payload : Z) : Z := nla_total_size payload - nla_attr_size payload.

Definition nla_type (m : list Z) (nla : Z) : run fault Z :=
  t ← field_nla_type m nla; Ret (t .& NLA_TYPE_MASK).
Definition nla_data (nla : Z) : Z := nla + NLA_HDRLEN.
Definition nla_len (m : list Z) (nla : Z) : run fault Z :=
  l ← field_nla_len m nla; Ret (l - NLA_HDRLEN).

Definition nla_ok (m : list Z) (nla remaining : Z) : run fault bool :=
  if remaining >=? sizeof_nlattr then
    l ← field_nla_len m nla;
    Ret ((l >=? sizeof_nlattr) && (l <=? remaining))
  else Ret false.

(** The next attribute and what remains of the stream then. *)
Definition nla_next (m : list Z) (nla remaining : Z) : run fault (Z * Z) :=
  l ← field_nla_len m nla;
  let totlen := NLA_ALIGN l in
  Ret (nla + totlen, remaining - totlen).

(** [nla_for_each_attr(nla, head, len, rem)]: the loop body returns [inl] to
    leave the function with a value and [inr] to go on; at the end of the
    stream the loop gives its state and [rem]. *)
Section for_each.
Context {R S : Type} (m : list Z) (body : Z -> S -> run fault (R + S)).

Fixpoint nla_for_each_attr (fuel : nat) (nla rem : Z) (st : S) : run fault (R + S * Z) :=
  match fuel with
  | O => Diverge
  | Datatypes.S fuel =>
      ok ← nla_ok m nla rem;
      if (ok : bool) then
        r ← body nla st;
        match r with
        | inl ret => Ret (inl ret)
        | inr st =>
            next ← nla_next m nla rem;
            nla_for_each_attr fuel next.1 next.2 st
        end
      else Ret (inr (st, rem))
  end.
End for_each.

(** Every attribute is at least four bytes long. *)
Definition stream_fuel (len : Z) : nat := S (Z.to_nat len).

Definition nla_find (m : list Z) (head len attrtype : Z) : run fault (option Z) :=
  r ← nla_for_each_attr m
        (fun nla (_ : unit) =>
           t ← nla_type m nla;
           Ret (if t =? attrtype then inl nla else inr tt))
        (stream_fuel len) head len tt;
  Ret (match r with inl nla => Some nla | inr _ => None end).

Definition nla_find_nested (m : list Z) (nla attrtype : Z) : run fault (option Z) :=
  l ← nla_len m nla; nla_find m (nla_data nla) l attrtype.

(** *** Validation against a policy *)

Abbreviation NLA_UNSPEC := 0 (only parsing).
Abbreviation NLA_U8 := 1 (only parsing).
Abbreviation NLA_U16 := 2 (only parsing).
Abbreviation NLA_U32 := 3 (only parsing).
Abbreviation NLA_U64 := 4 (only parsing).
Abbreviation NLA_STRING := 5 (only parsing).
Abbreviation NLA_FLAG := 6 (only parsing).
Abbreviation NLA_MSECS := 7 (only parsing).
Abbreviation NLA_NESTED := 8 (only parsing).
Abbreviation NLA_NESTED_COMPAT := 9 (only parsing).
Abbreviation NLA_NUL_STRING := 10 (only parsing).
Abbreviation NLA_BINARY := 11 (only parsing).
Abbreviation NLA_TYPE_MAX := 11 (only parsing).

Record nla_policy := Policy { pt_type : Z; pt_len : Z }.

(** The designated initialisers of [nla_attr_minlen]; the rest is zero. *)
Definition nla_attr_minlen (t : Z) : Z :=
  if t =? NLA_U8 then 1
  else if t =? NLA_U16 then 2
  else if t =? NLA_U32 then 4
  else if t =? NLA_U64 then 8
  else if t =? NLA_NESTED then NLA_HDRLEN
  else 0.

(** [memchr]: the offset of the first [c] among the [n] bytes at [p]. *)
Fixpoint memchr (m : list Z) (p c : Z) (n : nat) : run fault (option Z) :=
  match n with
  | O => Ret None
  | S n =>
      b ← of_option FPacket (read_u8 m p);
      if b =? c then Ret (Some p) else memchr m (p + 1) c n
  end.

(** The case NLA_STRING of the switch, which NLA_NUL_STRING falls through to. *)
Definition validate_string (m : list Z) (nla attrlen : Z) (pt : nla_policy) : run fault Z :=
  if attrlen <? 1 then Ret (- ERANGE)
  else if negb (pt_len pt =? 0) then
    b ← of_option FPacket (read_u8 m (nla_data nla + (attrlen - 1)));
    let attrlen := if b =? 0 then attrlen - 1 else attrlen in
    Ret (if attrlen >? pt_len pt then - ERANGE else 0)
  else Ret 0.

(** The default case, which a nonempty NLA_NESTED falls through to. *)
Definition validate_minlen (attrlen : Z) (pt : nla_policy) : Z :=
  let minlen :=
    if negb (pt_len pt =? 0) then pt_len pt
    else if negb (pt_type pt =? NLA_UNSPEC) then nla_attr_minlen (pt_type pt)
    else 0 in
  if attrlen <? minlen then - ERANGE else 0.

Definition validate_nla (m : list Z) (nla maxtype : Z) (policy : list nla_policy) : run fault Z :=
  attrlen ← nla_len m nla;
  type ← nla_type m nla;
  if (type <=? 0) || (type >? maxtype) then Ret 0
  else
    pt ← of_option FMem (policy !! Z.to_nat type);
    if pt_type pt >? NLA_TYPE_MAX then Err FBug
    else if pt_type pt =? NLA_FLAG then
      Ret (if attrlen >? 0 then - ERANGE else 0)
    else if pt_type pt =? NLA_NUL_STRING then
      let minlen := if negb (pt_len pt =? 0) then Z.min attrlen (pt_len pt + 1) else attrlen in
      if minlen =? 0 then Ret (- EINVAL)
      else
        nul ← memchr m (nla_data nla) 0 (Z.to_nat minlen);
        match nul with
        | None => Ret (- EINVAL)
        | Some _ => validate_string m nla attrlen pt
        end
    else if pt_type pt =? NLA_STRING then validate_string m nla attrlen pt
    else if pt_type pt =? NLA_BINARY then
      Ret (if negb (pt_len pt =? 0) && (attrlen >? pt_len pt) then - ERANGE else 0)
    else if pt_type pt =? NLA_NESTED_COMPAT then
      if attrlen <? pt_len pt then Ret (- ERANGE)
      else if attrlen <? NLA_ALIGN (pt_len pt) then Ret 0
      else if attrlen <? NLA_ALIGN (pt_len pt) + NLA_HDRLEN then Ret (- ERANGE)
      else
        l ← nla_len m (nla_data nla + NLA_ALIGN (pt_len pt));
        Ret (if attrlen <? NLA_ALIGN (pt_len pt) + NLA_HDRLEN + l then - ERANGE else 0)
    else if (pt_type pt =? NLA_NESTED) && (attrlen =? 0) then Ret 0
    else Ret (validate_minlen attrlen pt).

Definition nla_validate (m : list Z) (head len maxtype : Z) (policy : list nla_policy) : run fault Z :=
  r ← nla_for_each_attr m
        (fun nla (_ : unit) =>
           err ← validate_nla m nla maxtype policy;
           Ret (if err <? 0 then inl err else inr tt))
        (stream_fuel len) head len tt;
  Ret (match r with inl err => err | inr _ => 0 end).

(** [nla_parse] fills the caller's table of [maxtype + 1] pointers; [policy] may
    be NULL.  Gives the return value and the table. *)
Definition nla_parse (m : list Z) (maxtype head len : Z) (policy : option (list nla_policy))
    : run fault (Z * list (option Z)) :=
  r ← nla_for_each_attr m
        (fun nla (tb : list (option Z)) =>
           t ← nla_type m nla;
           let type := u16 t in
           if (type >? 0) && (type <=? maxtype) then
             err ← match policy with
                   | Some policy => validate_nla m nla maxtype policy
                   | None => Ret 0
                   end;
             Ret (if err <? 0 then inl (err, tb) else inr (<[Z.to_nat type := Some nla]> tb))
           else Ret (inr tb))
        (stream_fuel len) head len (replicate (Z.to_nat (maxtype + 1)) None);
  Ret (match r with inl errtb => errtb | inr (tb, _) => (0, tb) end).

(** *** Adding attributes to a socket buffer *)

Definition write_head (skb : sk_buff) (off : Z) (bs : list Z) : run fault sk_buff :=
  set_head skb <$> of_option FPacket (mem_write (head skb) off bs).

Definition __nla_reserve (skb : sk_buff) (attrtype attrlen : Z) : run fault (Z * sk_buff) :=
  r ← skb_put skb (nla_total_size attrlen);
  let nla := r.1 in
  let nlalen := u16 (nla_attr_size attrlen) in
  skb ← write_head r.2 (nla + 2) (be16_bytes (u16 attrtype));
  skb ← write_head skb nla (be16_bytes nlalen);
  skb ← write_head skb (nla + nlalen) (replicate (Z.to_nat (nla_padlen attrlen)) 0);
  Ret (nla, skb).

Definition nla_reserve (skb : sk_buff) (attrtype attrlen : Z) : run fault (option (Z * sk_buff)) :=
  if skb_tailroom skb <? nla_total_size attrlen then Ret None
  else Some <$> __nla_reserve skb attrtype attrlen.

Definition __nla_put (skb : sk_buff) (attrtype attrlen : Z) (payload : list Z) : run fault sk_buff :=
  r ← __nla_reserve skb attrtype attrlen;
  write_head r.2 (nla_data r.1) (take (Z.to_nat attrlen) payload).

Definition nla_put (skb : sk_buff) (attrtype attrlen : Z) (payload : list Z) : run fault (Z * sk_buff) :=
  if skb_tailroom skb <? nla_total_size attrlen then Ret (- EMSGSIZE, skb)
  else skb ← __nla_put skb attrtype attrlen payload; Ret (0, skb).

(** ** Alignment *)

Lemma NLA_ALIGN_spec n : NLA_ALIGN n = 4 * ((n + 3) / 4).
Proof.
  change (4 - 1) with (Z.ones 2).
  rewrite <- Z.ldiff_land, Z.ldiff_ones_r, Z.shiftl_mul_pow2, Z.shiftr_div_pow2 by lia.
  change (2 ^ 2) with 4. replace (n + 4 - 1) with (n + 3) by lia. lia.
Qed.

Lemma NLA_ALIGN_bounds n : n <= NLA_ALIGN n < n + 4.
Proof. rewrite NLA_ALIGN_spec. Z.to_euclidean_division_equations. lia. Qed.

Lemma NLA_HDRLEN_eq : NLA_HDRLEN = 4.
Proof. reflexivity. Qed.

(** ** Iteration stays inside the stream *)

(** An attribute of the stream of [total] bytes at [base]: header and payload lie
    inside. *)
Definition attr_in (m : list Z) (base total nla : Z) : Prop :=
  exists l, read_be16 m nla = Some l /\ base <= nla /\ 4 <= l /\ nla + l <= base + total.

Lemma read_be16_inside m off :
  0 <= off -> off + 2 <= Z.of_nat (length m) -> exists x, read_be16 m off = Some x.
Proof. intros. unfold read_be16. rewrite mem_read_Some by lia. eauto. Qed.

Lemma read_u8_inside m off :
  0 <= off < Z.of_nat (length m) -> exists x, read_u8 m off = Some x.
Proof. intros. unfold read_u8. rewrite mem_read_Some by lia. eauto. Qed.

Section stream.
Context (m : list Z) (base total : Z).
Context (Hbase : 0 <= base) (Htotal : base + total <= Z.of_nat (length m)).

Lemma for_each_rule {R S} (body : Z -> S -> run fault (R + S)) (I : S -> Prop) (Q : R -> Prop) fuel nla rem st :
  (forall nla st, attr_in m base total nla -> I st ->
     exists r, body nla st = Ret r /\ match r with inl x => Q x | inr st' => I st' end) ->
  base <= nla -> nla + rem = base + total -> (Z.to_nat rem < fuel)%nat -> I st ->
  exists r, nla_for_each_attr m body fuel nla rem st = Ret r /\
    match r with inl x => Q x | inr (st', _) => I st' end.
Proof using Hbase Htotal.
  intros Hbody. revert nla rem st. induction fuel as [|fuel IH]; intros nla rem st Hn Hr Hf HI; [lia |].
  simpl. unfold nla_ok at 1. change sizeof_nlattr with 4. destruct (Z.geb_spec rem 4) as [H4|H4].
  2: { exists (inr (st, rem)). auto. }
  destruct (read_be16_inside m nla) as [l Hl]; [lia | lia |].
  unfold field_nla_len. rewrite Hl. simpl.
  destruct (Z.geb_spec l 4), (Z.leb_spec l rem); simpl;
    try (exists (inr (st, rem)); split; [done | exact HI]).
  assert (attr_in m base total nla) as Hin by (exists l; auto with lia).
  destruct (Hbody nla st Hin HI) as (r & -> & Hr'). rewrite run_bind_Ret.
  destruct r as [x|st']; [eauto |].
  unfold nla_next, field_nla_len. rewrite Hl. simpl. pose proof (NLA_ALIGN_bounds l).
  apply IH; [lia | lia | lia | done].
Qed.

Lemma attr_in_type nla : attr_in m base total nla -> exists t, nla_type m nla = Ret t.
Proof using Hbase Htotal.
  intros (l & _ & ? & ? & ?). unfold nla_type, field_nla_type.
  destruct (read_be16_inside m (nla + 2)) as [x ->]; [lia | lia |]. eauto.
Qed.

Lemma attr_in_len nla : attr_in m base total nla ->
  exists l, nla_len m nla = Ret l /\ 0 <= l /\ nla + 4 + l <= base + total.
Proof using Hbase Htotal.
  intros (l & Hl & ? & ? & ?). unfold nla_len, field_nla_len. rewrite Hl. simpl.
  exists (l - 4). rewrite NLA_HDRLEN_eq. auto with lia.
Qed.

Lemma memchr_inside p c n :
  0 <= p -> p + Z.of_nat n <= Z.of_nat (length m) -> exists o, memchr m p c n = Ret o.
Proof.
  revert p. induction n as [|n IH]; intros p H1 H2; simpl; [eauto |].
  destruct (read_u8_inside m p) as [b ->]; [lia |]. simpl. zcase; [eauto |]. apply IH; lia.
Qed.

(** A policy table that covers the types up to [maxtype]. *)
Definition policy_wf (maxtype : Z) (policy : list nla_policy) : Prop :=
  maxtype < Z.of_nat (length policy) /\
  Forall (fun pt => pt_type pt <= NLA_TYPE_MAX /\ 0 <= pt_len pt) policy.

Lemma validate_string_inside nla attrlen pt :
  0 <= nla -> nla + 4 + attrlen <= Z.of_nat (length m) ->
  exists e, validate_string m nla attrlen pt = Ret e.
Proof.
  intros. unfold validate_string. destruct (Z.ltb_spec attrlen 1); [eauto |]. case_match; [| eauto].
  destruct (read_u8_inside m (nla_data nla + (attrlen - 1))) as [b ->].
  { unfold nla_data. rewrite NLA_HDRLEN_eq. lia. }
  simpl. eauto.
Qed.

Lemma validate_nla_inside nla maxtype policy :
  attr_in m base total nla -> policy_wf maxtype policy ->
  exists e, validate_nla m nla maxtype policy = Ret e.
Proof using Hbase Htotal.
  intros Hin [Hp1 Hp2]. unfold validate_nla.
  destruct (attr_in_len nla Hin) as (l & -> & Hl & Hlt).
  destruct (attr_in_type nla Hin) as (t & ->). rewrite !run_bind_Ret.
  assert (0 <= nla) by (destruct Hin as (?&?&?&?); lia).
  destruct (Z.leb_spec t 0), (Z.gtb_spec t maxtype); simpl; eauto.
  destruct (lookup_lt_is_Some_2 policy (Z.to_nat t)) as [pt Hpt]; [lia |].
  rewrite Hpt. simpl. pose proof (Forall_lookup_1 _ _ _ _ Hp2 Hpt) as [Ht ?].
  replace (pt_type pt >? NLA_TYPE_MAX) with false by lia.
  assert (forall k, 0 <= k <= l -> exists o, memchr m (nla_data nla) 0 (Z.to_nat k) = Ret o) as Hchr.
  { intros. apply memchr_inside; unfold nla_data; rewrite NLA_HDRLEN_eq; lia. }
  assert (exists e, validate_string m nla l pt = Ret e) as Hstr by (apply validate_string_inside; lia).
  repeat case_match; eauto.
  - edestruct Hchr as [[q|] ->]; [lia | exact Hstr | simpl; eauto].
  - edestruct Hchr as [[q|] ->]; [lia | exact Hstr | simpl; eauto].
  - pose proof (NLA_ALIGN_bounds (pt_len pt)). rewrite NLA_HDRLEN_eq in *. unfold nla_len, field_nla_len.
    destruct (read_be16_inside m (nla_data nla + NLA_ALIGN (pt_len pt))) as [x ->];
      [unfold nla_data; rewrite NLA_HDRLEN_eq; lia.. |].
    simpl. eauto.
Qed.
End stream.

Lemma nla_find_inside m base total t :
  0 <= base -> base + total <= Z.of_nat (length m) ->
  exists o, nla_find m base total t = Ret o /\
    forall q, o = Some q -> attr_in m base total q /\ nla_type m q = Ret t.
Proof.
  intros Hb Ht. unfold nla_find.
  match goal with |- context [nla_for_each_attr m ?body _ _ _ ?st] =>
    destruct (for_each_rule m base total Hb Ht body (fun _ : unit => True)
      (fun q => attr_in m base total q /\ nla_type m q = Ret t) (stream_fuel total) base total st)
    as (r & -> & Hr); [| reflexivity | reflexivity | unfold stream_fuel; lia | exact I |]
  end.
  - intros nla [] Hin _. destruct (attr_in_type _ _ _ Hb Ht _ Hin) as (x & Hx). rewrite Hx.
    simpl. destruct (Z.eqb_spec x t); eexists; (split; [reflexivity |]); simpl; subst; auto.
  - rewrite run_bind_Ret. eexists; split; [reflexivity |]. intros q Hq.
    destruct r as [q'|[[] ?]]; simplify_eq. exact Hr.
Qed.

Lemma nla_type_range m nla t : Forall is_byte m -> nla_type m nla = Ret t -> 0 <= t < 2 ^ 16.
Proof.
  intros Hm Hx. unfold nla_type, field_nla_type in Hx.
  destruct (read_be16 m (nla + 2)) as [y|] eqn:Hy; simplify_eq/=.
  unfold read_be16 in Hy. apply fmap_Some in Hy as (bs & Hbs & ->). apply mem_read_inv in Hbs as (?&?&?&->).
  pose proof (be_val_range (slice m (nla + 2) 2)) as Hr. rewrite length_slice in Hr by lia.
  change (256 ^ 2) with (2 ^ 16) in Hr. specialize (Hr (slice_Forall _ _ _ _ Hm)).
  split; [apply Z.land_nonneg; lia |]. eapply Z.le_lt_trans; [| apply Hr]. apply land_le_l; lia.
Qed.

(** C34: [nla_parse] on any bytes: it ends, reads only inside the stream, and every
    entry of the table it returns is an attribute that lies whole inside the
    stream, carries the entry's type, and has passed the policy. *)
Theorem nla_parse_sound m maxtype base total policy :
  Forall is_byte m -> 0 <= base -> base + total <= Z.of_nat (length m) ->
  (forall p, policy = Some p -> policy_wf maxtype p) ->
  exists err tb, nla_parse m maxtype base total policy = Ret (err, tb) /\
    length tb = Z.to_nat (maxtype + 1) /\
    forall t q, tb !! t = Some (Some q) ->
      attr_in m base total q /\ nla_type m q = Ret (Z.of_nat t) /\ (0 < t)%nat /\
      forall p, policy = Some p -> exists e, validate_nla m q maxtype p = Ret e /\ 0 <= e.
Proof.
  intros Hm Hb Ht Hp. unfold nla_parse.
  set (good := fun tb : list (option Z) => length tb = Z.to_nat (maxtype + 1) /\
    forall t q, tb !! t = Some (Some q) ->
      attr_in m base total q /\ nla_type m q = Ret (Z.of_nat t) /\ (0 < t)%nat /\
      forall p, policy = Some p -> exists e, validate_nla m q maxtype p = Ret e /\ 0 <= e).
  match goal with |- context [nla_for_each_attr m ?body _ _ _ ?st] =>
    destruct (for_each_rule m base total Hb Ht body good
      (fun r : Z * list (option Z) => good r.2) (stream_fuel total) base total st)
    as (r & -> & Hr); [| reflexivity | reflexivity | unfold stream_fuel; lia | |]
  end.
  - intros nla tb Hin Hg. destruct (attr_in_type _ _ _ Hb Ht _ Hin) as (x & Hx). rewrite Hx, run_bind_Ret.
    pose proof (nla_type_range _ _ _ Hm Hx) as Hx16.
    rewrite uwrap_small by done.
    destruct (Z.gtb_spec x 0), (Z.leb_spec x maxtype); simpl; try (by eexists).
    assert (exists e, match policy with Some p => validate_nla m nla maxtype p | None => Ret 0 end = Ret e)
      as [e He].
    { destruct policy; [| eauto]. eapply validate_nla_inside; eauto. }
    rewrite He, run_bind_Ret. destruct (Z.ltb_spec e 0); eexists; (split; [reflexivity |]); [exact Hg |].
    destruct Hg as [Hg1 Hg2]. split; [by rewrite length_insert |].
    intros t q [(<- & [= <-] & ?)|[? ?]]%list_lookup_insert_Some; [| by apply Hg2].
    split; [done |]. rewrite Z2Nat.id by lia. repeat split; auto with lia.
    intros p ->. eauto.
  - split; [by rewrite length_replicate |]. intros t q Hq%lookup_replicate_1. naive_solver.
  - rewrite run_bind_Ret. destruct r as [[err tb]|[tb rem]]; eexists _, _; (split; [reflexivity |]); apply Hr.
Qed.

(** Two attributes, of type 1 with four bytes and of type 2 with one byte. *)
Definition parse_example : list Z := [0; 8; 0; 1; 0; 0; 0; 42; 0; 5; 0; 2; 7; 0; 0; 0].

Lemma nla_parse_sound_witness :
  nla_parse parse_example 2 0 16 (Some [Policy 0 0; Policy NLA_U32 0; Policy NLA_U8 0]) =
    Ret (0, [None; Some 0; Some 8]) /\
  exists err tb, nla_parse parse_example 2 0 16 (Some [Policy 0 0; Policy NLA_U32 0; Policy NLA_U32 0]) =
    Ret (err, tb) /\ length tb = 3%nat.
Proof.
  split; [reflexivity |].
  destruct (nla_parse_sound parse_example 2 0 16 (Some [Policy 0 0; Policy NLA_U32 0; Policy NLA_U32 0]))
    as (err & tb & E & Hl & _).
  - repeat (constructor; [split; [lia | reflexivity] |]). constructor.
  - lia.
  - reflexivity.
  - intros p [= <-]. split; [reflexivity |]. repeat (constructor; [split; vm_compute; congruence |]). constructor.
  - by exists err, tb.
Defined.

(** ** What [nla_put] writes, [nla_find] finds *)

Record attr := Attr { a_type : Z; a_payload : list Z }.

Definition attr_bytes (a : attr) : list Z :=
  let n := Z.of_nat (length (a_payload a)) in
  be16_bytes (nla_attr_size n) ++ be16_bytes (a_type a) ++ a_payload a
    ++ replicate (Z.to_nat (nla_padlen n)) 0.

Definition attr_wf (a : attr) : Prop :=
  0 <= a_type a < 2 ^ 14 /\ nla_attr_size (Z.of_nat (length (a_payload a))) < 2 ^ 16.

Lemma length_attr_bytes a :
  Z.of_nat (length (attr_bytes a)) = nla_total_size (Z.of_nat (length (a_payload a))).
Proof.
  unfold attr_bytes, nla_padlen, nla_total_size, nla_attr_size. rewrite !length_app, length_replicate, NLA_HDRLEN_eq.
  pose proof (NLA_ALIGN_bounds (4 + Z.of_nat (length (a_payload a)))).
  unfold be16_bytes. simpl length. lia.
Qed.

Lemma write_head_app skb pre old post bs :
  head skb = pre ++ old ++ post -> length old = length bs ->
  write_head skb (Z.of_nat (length pre)) bs = Ret (set_head skb (pre ++ bs ++ post)).
Proof. intros H1 H2. unfold write_head. by rewrite H1, mem_write_app. Qed.

(** The buffers netlink messages are built in: linear, of moderate size. *)
Definition linear_wf (skb : sk_buff) : Prop :=
  skb_wf skb /\ data_len skb = 0 /\ frags skb = [] /\ frag_list skb = [] /\ skb_end skb < 2 ^ 31.

Lemma skb_tailroom_linear skb : linear_wf skb -> skb_tailroom skb = skb_end skb - tail skb.
Proof.
  intros (((?&?&?)&_)%skb_wf_inv&Hd&_&_&?). unfold skb_tailroom, skb_is_nonlinear. rewrite Hd. simpl.
  rewrite (uwrap_small 32), swrap_small by lia. done.
Qed.

(** The four writes into the reserved room make the attribute's bytes. *)
Lemma __nla_put_writes skb a pre old post :
  let n := Z.of_nat (length (a_payload a)) in
  attr_wf a -> skb_put skb (nla_total_size n) = Ret (Z.of_nat (length pre), set_tail_len skb
    (Z.of_nat (length pre) + nla_total_size n) (len skb + nla_total_size n)) ->
  head skb = pre ++ old ++ post -> length old = length (attr_bytes a) ->
  __nla_put skb (a_type a) n (a_payload a) =
    Ret (set_head (set_tail_len skb (Z.of_nat (length pre) + nla_total_size n) (len skb + nla_total_size n))
      (pre ++ attr_bytes a ++ post)).
Proof.
  intros n [Ht Hn] Hput Hh Hold.
  assert (Hn0 : 0 <= n) by lia. pose proof (length_attr_bytes a) as Hlen. fold n in Hlen.
  pose proof (NLA_ALIGN_bounds (nla_attr_size n)) as Hal.
  unfold __nla_put, __nla_reserve. rewrite Hput. simpl.
  unfold nla_attr_size, nla_total_size, nla_padlen, nla_attr_size in *.
  fold n in Hn |- *. rewrite NLA_HDRLEN_eq in *. rewrite !(uwrap_small 16) by lia.
  set (pad := Z.to_nat (NLA_ALIGN (4 + n) - (4 + n))).
  destruct (list_split_at old 2) as (b1 & r1 & -> & Hb1); [lia |]. rewrite length_app in Hold.
  destruct (list_split_at r1 2) as (b2 & r2 & -> & Hb2); [lia |]. rewrite length_app in Hold.
  destruct (list_split_at r2 (length (a_payload a))) as (b3 & b4 & -> & Hb3); [lia |].
  rewrite length_app in Hold. assert (Hb4 : length b4 = pad) by lia.
  replace (Z.of_nat (length pre) + 2) with (Z.of_nat (length (pre ++ b1))) by (rewrite length_app; lia).
  rewrite (write_head_app _ _ b2 (b3 ++ b4 ++ post)), run_bind_Ret
    by (simpl; rewrite ?Hh, <- ?app_assoc; auto).
  rewrite (write_head_app _ _ b1 (be16_bytes (a_type a) ++ b3 ++ b4 ++ post)), run_bind_Ret
    by (simpl; rewrite <- ?app_assoc; auto).
  replace (Z.of_nat (length pre) + (4 + n))
    with (Z.of_nat (length (pre ++ be16_bytes (4 + n) ++ be16_bytes (a_type a) ++ b3)))
    by (rewrite !length_app; simpl; lia).
  rewrite (write_head_app _ _ b4 post), run_bind_Ret
    by (simpl; rewrite ?length_replicate, <- ?app_assoc; auto). simpl.
  replace (nla_data (Z.of_nat (length pre)))
    with (Z.of_nat (length (pre ++ be16_bytes (4 + n) ++ be16_bytes (a_type a))))
    by (unfold nla_data; rewrite !length_app, NLA_HDRLEN_eq; simpl; lia).
  rewrite (write_head_app _ _ b3 (replicate pad 0 ++ post))
    by (simpl; rewrite ?length_take, <- ?app_assoc; simpl; auto with lia).
  rewrite take_ge by lia. unfold attr_bytes, nla_padlen, nla_total_size, nla_attr_size.
  fold n. rewrite NLA_HDRLEN_eq. fold pad. by rewrite <- !app_assoc.
Qed.

Lemma linear_wf_extend skb pre old post new :
  linear_wf skb -> head skb = pre ++ old ++ post -> Z.of_nat (length pre) = tail skb ->
  length new = length old ->
  let skb' := set_head (set_tail_len skb (tail skb + Z.of_nat (length new))
                (len skb + Z.of_nat (length new))) (pre ++ new ++ post) in
  linear_wf skb' /\ linear_bytes skb' = linear_bytes skb ++ new.
Proof.
  intros (((?&?&?)&(?&?&?&?)&?&?)%skb_wf_inv&Hd&Hf&Hfl&?) Hh Hpre Hnew skb'.
  assert (Hend : length (head skb) = length (head skb')).
  { rewrite Hh. simpl. rewrite !length_app. lia. }
  assert (tail skb' <= skb_end skb).
  { unfold skb_end. rewrite Hh. simpl. rewrite !length_app. lia. }
  split.
  - split; [constructor; unfold skb_end in *; rewrite <- ?Hend; simpl in *; auto with lia |].
    unfold skb_end in *. rewrite <- ?Hend. simpl. auto.
  - unfold linear_bytes. simpl. rewrite Hh, <- Hpre.
    rewrite slice_mid, slice_app_l by lia. done.
Qed.

Lemma nla_put_ok skb a :
  let n := Z.of_nat (length (a_payload a)) in
  linear_wf skb -> attr_wf a -> nla_total_size n <= skb_end skb - tail skb ->
  exists skb', nla_put skb (a_type a) n (a_payload a) = Ret (0, skb') /\
    linear_wf skb' /\ data skb' = data skb /\ skb_end skb' = skb_end skb /\
    tail skb' = tail skb + nla_total_size n /\
    linear_bytes skb' = linear_bytes skb ++ attr_bytes a.
Proof.
  intros n Hlin Ha Hroom. pose proof Hlin as (((?&?&?)&(?&?&?&?)&_)%skb_wf_inv&Hd&_&_&?).
  pose proof (length_attr_bytes a) as Hlen. fold n in Hlen. unfold skb_end in *.
  destruct (list_split_at (head skb) (Z.to_nat (tail skb))) as (pre & r & Hh & Hpre); [lia |].
  destruct (list_split_at r (length (attr_bytes a))) as (old & post & -> & Hold).
  { apply (f_equal length) in Hh. rewrite length_app in Hh. lia. }
  assert (Hpre' : Z.of_nat (length pre) = tail skb) by lia.
  destruct (linear_wf_extend skb pre old post (attr_bytes a)) as [Hwf Hbytes]; auto.
  unfold nla_put. rewrite skb_tailroom_linear by done. unfold skb_end. fold n. zbool.
  pose proof (__nla_put_writes skb a pre old post Ha) as Hw. cbv zeta in Hw. fold n in Hw.
  rewrite Hw; auto.
  - rewrite run_bind_Ret. eexists; split; [reflexivity |]. rewrite <- Hlen, Hpre'.
    split; [exact Hwf |]. split; [done |].
    split; [unfold skb_end, set_head; cbn [head]; rewrite Hh, !length_app; lia | done].
  - unfold skb_put, skb_is_nonlinear, skb_end. rewrite Hd. simpl.
    rewrite !(uwrap_small 32) by lia. rewrite Hpre'. by zbool.
Qed.

(** Where the attributes of a stream at [p] lie. *)
Fixpoint places (p : Z) (attrs : list attr) : list (Z * attr) :=
  match attrs with
  | [] => []
  | a :: attrs => (p, a) :: places (p + nla_total_size (Z.of_nat (length (a_payload a)))) attrs
  end.

Definition stream_bytes (attrs : list attr) : list Z := concat (map attr_bytes attrs).

Lemma mem_read_at pre bs post off n :
  off = Z.of_nat (length pre) -> n = Z.of_nat (length bs) ->
  mem_read (pre ++ bs ++ post) off n = Some bs.
Proof. intros -> ->. apply mem_read_app. Qed.

Lemma attr_header m pre a rest :
  attr_wf a -> m = pre ++ attr_bytes a ++ rest ->
  field_nla_len m (Z.of_nat (length pre)) = Ret (nla_attr_size (Z.of_nat (length (a_payload a)))) /\
  nla_type m (Z.of_nat (length pre)) = Ret (a_type a) /\
  mem_read m (nla_data (Z.of_nat (length pre))) (Z.of_nat (length (a_payload a))) = Some (a_payload a).
Proof.
  intros [Ht Hn] ->. set (n := Z.of_nat (length (a_payload a))) in *. unfold attr_bytes. fold n.
  unfold field_nla_len, nla_type, field_nla_type, read_be16, nla_data. rewrite <- !app_assoc.
  split; [| split].
  - rewrite mem_read_at by done. simpl. rewrite be16_bytes_val; [done |].
    unfold nla_attr_size in *. rewrite NLA_HDRLEN_eq in *. lia.
  - rewrite (app_assoc pre). rewrite mem_read_at; [| rewrite length_app; simpl; lia | done]. simpl.
    rewrite be16_bytes_val by lia. f_equal. apply (land_lnot_shiftl (a_type a) 3 14 Ht).
  - rewrite !(app_assoc pre), (app_assoc (pre ++ _)).
    rewrite mem_read_at; [done | rewrite !length_app, NLA_HDRLEN_eq; simpl; lia | done].
Qed.

#[local] Opaque attr_bytes.

(** The loop over a stream of encoded attributes visits their places in order. *)
Fixpoint visit {R S} (body : Z -> S -> run fault (R + S)) (ps : list (Z * attr)) (st : S) : run fault (R + S) :=
  match ps with
  | [] => Ret (inr st)
  | (q, _) :: ps => r ← body q st; match r with inl x => Ret (inl x) | inr st => visit body ps st end
  end.

Lemma for_each_encoded {R S} (body : Z -> S -> run fault (R + S)) m attrs pre post fuel st :
  Forall attr_wf attrs -> m = pre ++ stream_bytes attrs ++ post -> (length (stream_bytes attrs) < fuel)%nat ->
  nla_for_each_attr m body fuel (Z.of_nat (length pre)) (Z.of_nat (length (stream_bytes attrs))) st =
  (r ← visit body (places (Z.of_nat (length pre)) attrs) st;
   Ret (match r with inl x => inl x | inr st => inr (st, 0) end)).
Proof.
  intros Hwf. revert pre fuel st. induction Hwf as [|a attrs Ha _ IH]; intros pre fuel st Hm Hf.
  { destruct fuel; [simpl in Hf; lia |]. done. }
  destruct fuel as [|fuel]; [lia |]. unfold stream_bytes in *. simpl in Hm, Hf |- *.
  rewrite <- app_assoc in Hm. destruct (attr_header _ _ _ _ Ha Hm) as (Hl & _ & _).
  pose proof (length_attr_bytes a) as Hlen. set (n := Z.of_nat (length (a_payload a))) in *.
  pose proof (NLA_ALIGN_bounds (nla_attr_size n)) as Hal. unfold nla_total_size in *.
  assert (Hpos : 4 <= nla_attr_size n) by (unfold nla_attr_size; rewrite NLA_HDRLEN_eq; lia).
  rewrite length_app in Hf |- *. unfold nla_ok at 1, nla_next. rewrite Hl. change sizeof_nlattr with 4.
  zbool. simpl. zbool. destruct (body (Z.of_nat (length pre)) st) as [[x|st']| |]; simpl; [done | | done | done].
  specialize (IH (pre ++ attr_bytes a) fuel st'). rewrite length_app in IH. rewrite <- Hlen.
  replace (Z.of_nat (length pre) + Z.of_nat (length (attr_bytes a)))
    with (Z.of_nat (length pre + length (attr_bytes a))) by lia.
  rewrite <- IH; [| by rewrite <- app_assoc | lia]. f_equal. lia.
Qed.

Lemma places_header m attrs pre post q a :
  Forall attr_wf attrs -> m = pre ++ stream_bytes attrs ++ post ->
  (q, a) ∈ places (Z.of_nat (length pre)) attrs ->
  attr_wf a /\ nla_type m q = Ret (a_type a) /\
  mem_read m (nla_data q) (Z.of_nat (length (a_payload a))) = Some (a_payload a).
Proof.
  intros Hwf. revert pre. induction Hwf as [|b attrs Hb _ IH]; intros pre Hm Hin; simpl in Hin.
  { by apply elem_of_nil in Hin. }
  unfold stream_bytes in *. simpl in Hm. rewrite <- app_assoc in Hm.
  apply elem_of_cons in Hin as [E|Hin]; [simplify_eq; split; [done |]; by eapply attr_header |].
  apply (IH (pre ++ attr_bytes b)); [by rewrite <- app_assoc |].
  rewrite length_app, Nat2Z.inj_add, length_attr_bytes. done.
Qed.

(** The first place of an attribute of type [t]. *)
Definition locate (t : Z) (ps : list (Z * attr)) : option (Z * attr) :=
  List.find (fun p => a_type p.2 =? t) ps.

Lemma locate_in t ps q a : locate t ps = Some (q, a) -> (q, a) ∈ ps /\ a_type a = t.
Proof.
  intros H. apply List.find_some in H as [Hin Ht]. split; [by apply list_elem_of_In |]. simpl in Ht. lia.
Qed.

Lemma places_snd p attrs : snd <$> places p attrs = attrs.
Proof. revert p. induction attrs as [|a attrs IH]; intros p; simpl; [done |]. f_equal. apply IH. Qed.

Lemma locate_find t ps : snd <$> locate t ps = List.find (fun a => a_type a =? t) (snd <$> ps).
Proof. induction ps as [|[q a] ps IH]; simpl; [done |]. by destruct (a_type a =? t). Qed.

Lemma nla_find_encoded t attrs pre post :
  Forall attr_wf attrs ->
  nla_find (pre ++ stream_bytes attrs ++ post) (Z.of_nat (length pre))
    (Z.of_nat (length (stream_bytes attrs))) t =
  Ret (fst <$> locate t (places (Z.of_nat (length pre)) attrs)).
Proof.
  intros Hwf. unfold nla_find. rewrite (for_each_encoded _ _ attrs pre post) by (auto; unfold stream_fuel; lia).
  pose proof (fun q a => places_header _ attrs pre post q a Hwf eq_refl) as Hh. revert Hh.
  generalize (places (Z.of_nat (length pre)) attrs) as ps. intros ps Hh.
  induction ps as [|[q a] ps IH]; [done |]. destruct (Hh q a) as (_ & Ht & _); [left |]. cbn [visit]. rewrite Ht. simpl.
  destruct (a_type a =? t); [done |]. simpl. apply IH. intros q' a' Hin. apply Hh. by right.
Qed.

(** The table [nla_parse] builds without a policy: later attributes replace
    earlier ones of the same type. *)
Definition table_add (maxtype : Z) (tb : list (option Z)) (p : Z * attr) : list (option Z) :=
  if (a_type p.2 >? 0) && (a_type p.2 <=? maxtype) then <[Z.to_nat (a_type p.2) := Some p.1]> tb else tb.
Definition table (maxtype : Z) (ps : list (Z * attr)) (tb : list (option Z)) : list (option Z) :=
  foldl (table_add maxtype) tb ps.

Lemma nla_parse_encoded maxtype attrs pre post :
  Forall attr_wf attrs ->
  nla_parse (pre ++ stream_bytes attrs ++ post) maxtype (Z.of_nat (length pre))
    (Z.of_nat (length (stream_bytes attrs))) None =
  Ret (0, table maxtype (places (Z.of_nat (length pre)) attrs) (replicate (Z.to_nat (maxtype + 1)) None)).
Proof.
  intros Hwf. unfold nla_parse. rewrite (for_each_encoded _ _ attrs pre post) by (auto; unfold stream_fuel; lia).
  pose proof (fun q a => places_header _ attrs pre post q a Hwf eq_refl) as Hh. revert Hh.
  generalize (replicate (Z.to_nat (maxtype + 1)) (@None Z)) as tb.
  generalize (places (Z.of_nat (length pre)) attrs) as ps. intros ps. induction ps as [|[q a] ps IH]; intros tb Hh; [done |].
  destruct (Hh q a) as ([Hty _] & Ht & _); [left |].
  cbn [visit]. change (table maxtype ((q, a) :: ps) tb) with (table maxtype ps (table_add maxtype tb (q, a))).
  unfold table_add. cbn [fst snd]. rewrite Ht, run_bind_Ret. rewrite uwrap_small by lia.
  destruct ((a_type a >? 0) && (a_type a <=? maxtype)); rewrite ?run_bind_Ret; cbn;
    apply IH; intros q' a' Hin; apply Hh; by right.
Qed.

Lemma table_length maxtype ps : forall tb, length (table maxtype ps tb) = length tb.
Proof.
  induction ps as [|[q a] ps IH]; intros tb; [done |]. cbn [table foldl].
  fold (table maxtype ps (table_add maxtype tb (q, a))). rewrite IH. unfold table_add.
  case_match; [apply length_insert | done].
Qed.

Lemma table_lookup maxtype t ps : forall tb,
  0 < t <= maxtype -> length tb = Z.to_nat (maxtype + 1) ->
  table maxtype ps tb !! Z.to_nat t =
  match locate t (rev ps) with Some (q, _) => Some (Some q) | None => tb !! Z.to_nat t end.
Proof.
  induction ps as [|[q a] ps IH] using rev_ind; intros tb Ht Hl; [done |].
  unfold table. rewrite foldl_app. fold (table maxtype ps tb). cbn [foldl]. unfold table_add. cbn [fst snd].
  rewrite rev_app_distr. unfold locate. cbn [rev app List.find snd].
  destruct (Z.eqb_spec (a_type a) t) as [E|E].
  - rewrite E. zbool. simpl andb. cbv iota. apply list_lookup_insert_eq. rewrite table_length. lia.
  - fold (locate t (rev ps)). rewrite <- IH by done.
    destruct ((a_type a >? 0) && (a_type a <=? maxtype)) eqn:Hc; [| done].
    rewrite list_lookup_insert_ne; [done | lia].
Qed.

(** The calls a sender makes: one [nla_put] after the other. *)
Fixpoint nla_put_all (skb : sk_buff) (attrs : list attr) : run fault sk_buff :=
  match attrs with
  | [] => Ret skb
  | a :: attrs =>
      r ← nla_put skb (a_type a) (Z.of_nat (length (a_payload a))) (a_payload a);
      nla_put_all r.2 attrs
  end.

Lemma nla_put_all_bytes attrs skb :
  linear_wf skb -> Forall attr_wf attrs ->
  Z.of_nat (length (stream_bytes attrs)) <= skb_end skb - tail skb ->
  exists skb', nla_put_all skb attrs = Ret skb' /\ linear_wf skb' /\ data skb' = data skb /\
    linear_bytes skb' = linear_bytes skb ++ stream_bytes attrs.
Proof.
  intros Hlin Hwf. revert skb Hlin. induction Hwf as [|a attrs Ha _ IH]; intros skb Hlin Hroom.
  { exists skb. unfold stream_bytes. simpl. rewrite app_nil_r. auto. }
  unfold stream_bytes in *. simpl in Hroom |- *. rewrite length_app in Hroom.
  pose proof (length_attr_bytes a).
  destruct (nla_put_ok skb a Hlin Ha) as (s1 & -> & Hlin1 & Hd1 & He1 & Ht1 & Hb1); [lia |].
  simpl. destruct (IH s1 Hlin1) as (s2 & -> & Hlin2 & Hd2 & Hb2); [lia |].
  exists s2. rewrite Hb2, Hb1, <- app_assoc. split; [done |]. split; [done |]. split; [congruence | done].
Qed.

Lemma linear_split skb :
  linear_wf skb -> exists pre post, head skb = pre ++ linear_bytes skb ++ post /\
    Z.of_nat (length pre) = data skb /\ len skb = Z.of_nat (length (linear_bytes skb)).
Proof.
  intros (Hwf&Hd&_). pose proof (length_linear_bytes _ Hwf) as Hl.
  apply skb_wf_inv in Hwf as ((?&?&?)&(?&?)&_). unfold skb_end in *.
  exists (take (Z.to_nat (data skb)) (head skb)), (drop (Z.to_nat (tail skb)) (head skb)).
  split; [| split; [rewrite length_take; lia | lia]].
  unfold linear_bytes, slice. rewrite <- (take_drop (Z.to_nat (data skb)) (head skb)) at 1. f_equal.
  rewrite <- (take_drop (Z.to_nat (tail skb - data skb)) (drop (Z.to_nat (data skb)) (head skb))) at 1.
  f_equal. rewrite drop_drop. f_equal. lia.
Qed.

(** C32: round trip.  After any sequence of [nla_put] calls that fits into an empty
    buffer, for every type [nla_find] over the buffer's bytes gives the first
    and [nla_parse] the last attribute put with that type, with exactly its
    payload behind the header, and NULL for a type that was not put. *)
Theorem nla_put_find_roundtrip skb attrs t maxtype :
  linear_wf skb -> tail skb = data skb -> Forall attr_wf attrs ->
  Z.of_nat (length (stream_bytes attrs)) <= skb_end skb - tail skb -> 0 < t <= maxtype ->
  exists skb' tb, nla_put_all skb attrs = Ret skb' /\
    nla_parse (head skb') maxtype (data skb') (len skb') None = Ret (0, tb) /\
    (match List.find (fun a => a_type a =? t) attrs with
     | Some a => exists q, nla_find (head skb') (data skb') (len skb') t = Ret (Some q) /\
         mem_read (head skb') (nla_data q) (Z.of_nat (length (a_payload a))) = Some (a_payload a)
     | None => nla_find (head skb') (data skb') (len skb') t = Ret None
     end) /\
    (match List.find (fun a => a_type a =? t) (rev attrs) with
     | Some a => exists q, tb !! Z.to_nat t = Some (Some q) /\
         mem_read (head skb') (nla_data q) (Z.of_nat (length (a_payload a))) = Some (a_payload a)
     | None => tb !! Z.to_nat t = Some None
     end).
Proof.
  intros Hlin Hempty Hwf Hroom Ht.
  destruct (nla_put_all_bytes attrs skb Hlin Hwf Hroom) as (s & Hs & Hlin' & Hd & Hb).
  assert (linear_bytes skb = []) as E.
  { unfold linear_bytes, slice. by rewrite Hempty, Z.sub_diag. }
  rewrite E in Hb. destruct (linear_split s Hlin') as (pre & post & Hh & Hpre & Hl). rewrite Hb in Hh, Hl. simpl in Hh, Hl.
  exists s. rewrite Hh, <- Hpre, Hl, nla_parse_encoded, nla_find_encoded by done. eexists. split; [done |]. split; [done |].
  pose proof (fun q a => places_header _ attrs pre post q a Hwf eq_refl) as Hplace. split.
  - pose proof (locate_find t (places (Z.of_nat (length pre)) attrs)) as Hf. rewrite places_snd in Hf. rewrite <- Hf.
    destruct (locate t _) as [[q a]|] eqn:Hloc; simpl; [| done]. apply locate_in in Hloc as [Hin _].
    exists q. split; [done |]. by apply Hplace.
  - rewrite table_lookup by (done || by rewrite length_replicate).
    pose proof (locate_find t (rev (places (Z.of_nat (length pre)) attrs))) as Hf.
    rewrite (map_rev snd), places_snd in Hf. rewrite <- Hf.
    destruct (locate t (rev _)) as [[q a]|] eqn:Hloc; simpl.
    + apply locate_in in Hloc as [Hin _]. exists q. split; [done |]. apply Hplace.
      apply list_elem_of_In, in_rev, list_elem_of_In, Hin.
    + apply lookup_replicate_2. lia.
Qed.

Definition roundtrip_example : sk_buff :=
  SkBuff (replicate 32 7) 4 4 0 0 0 0 0 0 None [] [].

Lemma nla_put_find_roundtrip_witness :
  exists skb' tb, nla_put_all roundtrip_example [Attr 3 [1; 2; 3; 4; 5]; Attr 9 [6]] = Ret skb' /\
    nla_parse (head skb') 10 (data skb') (len skb') None = Ret (0, tb) /\
    (exists q, nla_find (head skb') (data skb') (len skb') 9 = Ret (Some q) /\
      mem_read (head skb') (nla_data q) 1 = Some [6]) /\
    (exists q, tb !! 9%nat = Some (Some q) /\ mem_read (head skb') (nla_data q) 1 = Some [6]).
Proof.
  apply (nla_put_find_roundtrip roundtrip_example [Attr 3 [1; 2; 3; 4; 5]; Attr 9 [6]] 9 10).
  - split; [| by vm_compute]. constructor; try (vm_compute; (done || lia)); constructor.
  - reflexivity.
  - repeat constructor; vm_compute; congruence.
  - by vm_compute.
  - lia.
Defined.
End Nlattr.
