(* ===== verification/SockFilter.v ===== *)
(** * The socket filter (net/core/filter.c, include/linux/filter.h)

    The packet filter machine: [sk_run_filter] interprets a program a process
    has attached to a socket, on every packet, inside the kernel;
    [sk_chk_filter] decides at attach time which programs are let in.  The file
    models both instruction by instruction, and [sk_attach_filter] and
    [sk_detach_filter] with the socket's memory account; it shows that an
    admitted program ends, stays inside the program and the scratch memory and
    never divides by zero or meets an unknown instruction, and says exactly
    where an admitted program can still read outside the packet. *)

From S2P Require Import Prelude Skbuff Nlattr.

Module Filter.
Import Skb Nlattr.

(** ** Instructions *)

(** [struct sock_filter]: [code] is a [__u16], [jt] and [jf] are [__u8], [k] is
    a [__u32]. *)
Record sock_filter := Insn { code : Z; jt : Z; jf : Z; k : Z }.

Abbreviation BPF_CLASS c := (c .& 0x07) (only parsing).
Abbreviation BPF_LD := 0x00 (only parsing).
Abbreviation BPF_LDX := 0x01 (only parsing).
Abbreviation BPF_ST := 0x02 (only parsing).
Abbreviation BPF_STX := 0x03 (only parsing).
Abbreviation BPF_ALU := 0x04 (only parsing).
Abbreviation BPF_JMP := 0x05 (only parsing).
Abbreviation BPF_RET := 0x06 (only parsing).
Abbreviation BPF_MISC := 0x07 (only parsing).
Abbreviation BPF_W := 0x00 (only parsing).
Abbreviation BPF_H := 0x08 (only parsing).
Abbreviation BPF_B := 0x10 (only parsing).
Abbreviation BPF_IMM := 0x00 (only parsing).
Abbreviation BPF_ABS := 0x20 (only parsing).
Abbreviation BPF_IND := 0x40 (only parsing).
Abbreviation BPF_MEM := 0x60 (only parsing).
Abbreviation BPF_LEN := 0x80 (only parsing).
Abbreviation BPF_MSH := 0xa0 (only parsing).
Abbreviation BPF_ADD := 0x00 (only parsing).
Abbreviation BPF_SUB := 0x10 (only parsing).
Abbreviation BPF_MUL := 0x20 (only parsing).
Abbreviation BPF_DIV := 0x30 (only parsing).
Abbreviation BPF_OR := 0x40 (only parsing).
Abbreviation BPF_AND := 0x50 (only parsing).
Abbreviation BPF_LSH := 0x60 (only parsing).
Abbreviation BPF_RSH := 0x70 (only parsing).
Abbreviation BPF_NEG := 0x80 (only parsing).
Abbreviation BPF_JA := 0x00 (only parsing).
Abbreviation BPF_JEQ := 0x10 (only parsing).
Abbreviation BPF_JGT := 0x20 (only parsing).
Abbreviation BPF_JGE := 0x30 (only parsing).
Abbreviation BPF_JSET := 0x40 (only parsing).
Abbreviation BPF_K := 0x00 (only parsing).
Abbreviation BPF_X := 0x08 (only parsing).
Abbreviation BPF_A := 0x10 (only parsing).
Abbreviation BPF_TAX := 0x00 (only parsing).
Abbreviation BPF_TXA := 0x80 (only parsing).
Abbreviation BPF_MAXINSNS := 4096 (only parsing).
Abbreviation BPF_MEMWORDS := 16 (only parsing).
Abbreviation SKF_AD_OFF := (- 0x1000) (only parsing).
Abbreviation SKF_AD_PROTOCOL := 0 (only parsing).
Abbreviation SKF_AD_PKTTYPE := 4 (only parsing).
Abbreviation SKF_AD_IFINDEX := 8 (only parsing).
Abbreviation SKF_AD_NLATTR := 12 (only parsing).
Abbreviation SKF_AD_NLATTR_NEST := 16 (only parsing).
Abbreviation SKF_NET_OFF := (- 0x100000) (only parsing).
Abbreviation SKF_LL_OFF := (- 0x200000) (only parsing).

(** ** Packet access *)

(** Pointers are offsets from [skb->head], which is the smallest address. *)
Definition __load_pointer (skb : sk_buff) (k : Z) : option packet_ptr :=
  let ptr :=
    if k >=? SKF_NET_OFF then Some (network_header skb + k - SKF_NET_OFF)
    else if k >=? SKF_LL_OFF then Some (mac_header skb + k - SKF_LL_OFF)
    else None in
  match ptr with
  | Some ptr => if (ptr >=? 0) && (ptr <? tail skb) then Some (InHead ptr) else None
  | None => None
  end.

Definition load_pointer (skb : sk_buff) (k size : Z) : run fault (option packet_ptr) :=
  if k >=? 0 then skb_header_pointer skb k size
  else if k >=? SKF_AD_OFF then Ret None
  else Ret (__load_pointer skb k).

(** The big-endian value of the [n] bytes a pointer points to. *)
Definition deref (skb : sk_buff) (p : packet_ptr) (n : Z) : run fault Z :=
  match p with
  | InHead off => be_val <$> of_option FPacket (mem_read (head skb) off n)
  | InBuffer bs => be_val <$> of_option FPacket (mem_read bs 0 n)
  end.

(** ** The machine *)

(** The registers and the scratch memory.  The C array [mem] is not initialised:
    its first contents are a parameter of the run. *)
Record machine := Machine { A : Z; X : Z; mem : list Z }.

Definition set_A (s : machine) (a : Z) : machine := Machine a (X s) (mem s).
Definition set_X (s : machine) (x : Z) : machine := Machine (A s) x (mem s).

(** What one turn of the loop does: [continue] with a new [pc] (before the
    loop's increment) and state, or return from the function; [warned] says
    whether a WARN_ON fired. *)
Inductive turn := Continue (pc : Z) (s : machine) | Return (v : Z) (warned : bool).

(** Shifts: MIPS takes the count modulo 32 (sllv, srlv); C leaves larger counts
    undefined. *)
Abbreviation shl32 a n := (u32 (a .<< (n mod 32))) (only parsing).
Abbreviation shr32 a n := (a .>> (n mod 32)) (only parsing).

(** [pc += d], an [int] plus an unsigned value. *)
Abbreviation jump pc d := (s32 (pc + d)) (only parsing).

(** The switch behind the instruction switch: ancillary data, reached when a
    load finds nothing at offset [k]. *)
Definition ancillary (skb : sk_buff) (pc k : Z) (s : machine) : run fault turn :=
  let sel := s32 (k - SKF_AD_OFF) in
  if sel =? SKF_AD_PROTOCOL then Ret (Continue pc (set_A s (protocol skb)))
  else if sel =? SKF_AD_PKTTYPE then Ret (Continue pc (set_A s (pkt_type skb)))
  else if sel =? SKF_AD_IFINDEX then
    ifindex ← of_option FNull (dev skb);
    Ret (Continue pc (set_A s (u32 ifindex)))
  else if sel =? SKF_AD_NLATTR then
    if skb_is_nonlinear skb then Ret (Return 0 false)
    else if A s >? u64 (len skb - sizeof_nlattr) then Ret (Return 0 false)
    else
      nla ← nla_find (head skb) (data skb + A s) (s32 (u32 (len skb - A s))) (s32 (X s));
      Ret (Continue pc (set_A s (match nla with Some nla => u32 (nla - data skb) | None => 0 end)))
  else if sel =? SKF_AD_NLATTR_NEST then
    if skb_is_nonlinear skb then Ret (Return 0 false)
    else if A s >? u64 (len skb - sizeof_nlattr) then Ret (Return 0 false)
    else
      let nla := data skb + A s in
      l ← field_nla_len (head skb) nla;
      if l >? u32 (A s - len skb) then Ret (Return 0 false)
      else
        nla ← nla_find_nested (head skb) nla (s32 (X s));
        Ret (Continue pc (set_A s (match nla with Some nla => u32 (nla - data skb) | None => 0 end)))
  else Ret (Return 0 false).

(** [load_w:], [load_h:] and [load_b:]. *)
Definition load (skb : sk_buff) (pc k size : Z) (s : machine) : run fault turn :=
  p ← load_pointer skb k size;
  match p with
  | Some p => v ← deref skb p size; Ret (Continue pc (set_A s v))
  | None => ancillary skb pc k s
  end.

Definition load_mem (s : machine) (i : Z) : run fault Z := of_option FMem (mem s !! Z.to_nat i).
Definition store_mem (s : machine) (i v : Z) : run fault machine :=
  if i <? Z.of_nat (length (mem s)) then Ret (Machine (A s) (X s) (<[Z.to_nat i := v]> (mem s)))
  else Err FMem.

(** One turn of the loop: the switch on [fentry->code]. *)
Definition step (skb : sk_buff) (fentry : sock_filter) (pc : Z) (s : machine) : run fault turn :=
  let c := code fentry in
  let K := k fentry in
  let go (s : machine) : run fault turn := Ret (Continue pc s) in
  let cond (b : bool) : run fault turn :=
    Ret (Continue (jump pc (if b then jt fentry else jf fentry)) s) in
  if c =? BPF_ALU .| BPF_ADD .| BPF_X then go (set_A s (u32 (A s + X s)))
  else if c =? BPF_ALU .| BPF_ADD .| BPF_K then go (set_A s (u32 (A s + K)))
  else if c =? BPF_ALU .| BPF_SUB .| BPF_X then go (set_A s (u32 (A s - X s)))
  else if c =? BPF_ALU .| BPF_SUB .| BPF_K then go (set_A s (u32 (A s - K)))
  else if c =? BPF_ALU .| BPF_MUL .| BPF_X then go (set_A s (u32 (A s * X s)))
  else if c =? BPF_ALU .| BPF_MUL .| BPF_K then go (set_A s (u32 (A s * K)))
  else if c =? BPF_ALU .| BPF_DIV .| BPF_X then
    if X s =? 0 then Ret (Return 0 false) else go (set_A s (A s / X s))
  else if c =? BPF_ALU .| BPF_DIV .| BPF_K then
    if K =? 0 then Err FDiv else go (set_A s (A s / K))
  else if c =? BPF_ALU .| BPF_AND .| BPF_X then go (set_A s (A s .& X s))
  else if c =? BPF_ALU .| BPF_AND .| BPF_K then go (set_A s (A s .& K))
  else if c =? BPF_ALU .| BPF_OR .| BPF_X then go (set_A s (A s .| X s))
  else if c =? BPF_ALU .| BPF_OR .| BPF_K then go (set_A s (A s .| K))
  else if c =? BPF_ALU .| BPF_LSH .| BPF_X then go (set_A s (shl32 (A s) (X s)))
  else if c =? BPF_ALU .| BPF_LSH .| BPF_K then go (set_A s (shl32 (A s) K))
  else if c =? BPF_ALU .| BPF_RSH .| BPF_X then go (set_A s (shr32 (A s) (X s)))
  else if c =? BPF_ALU .| BPF_RSH .| BPF_K then go (set_A s (shr32 (A s) K))
  else if c =? BPF_ALU .| BPF_NEG then go (set_A s (u32 (- A s)))
  else if c =? BPF_JMP .| BPF_JA then Ret (Continue (jump pc K) s)
  else if c =? BPF_JMP .| BPF_JGT .| BPF_K then cond (A s >? K)
  else if c =? BPF_JMP .| BPF_JGE .| BPF_K then cond (A s >=? K)
  else if c =? BPF_JMP .| BPF_JEQ .| BPF_K then cond (A s =? K)
  else if c =? BPF_JMP .| BPF_JSET .| BPF_K then cond (negb (A s .& K =? 0))
  else if c =? BPF_JMP .| BPF_JGT .| BPF_X then cond (A s >? X s)
  else if c =? BPF_JMP .| BPF_JGE .| BPF_X then cond (A s >=? X s)
  else if c =? BPF_JMP .| BPF_JEQ .| BPF_X then cond (A s =? X s)
  else if c =? BPF_JMP .| BPF_JSET .| BPF_X then cond (negb (A s .& X s =? 0))
  else if c =? BPF_LD .| BPF_W .| BPF_ABS then load skb pc (s32 K) 4 s
  else if c =? BPF_LD .| BPF_H .| BPF_ABS then load skb pc (s32 K) 2 s
  else if c =? BPF_LD .| BPF_B .| BPF_ABS then load skb pc (s32 K) 1 s
  else if c =? BPF_LD .| BPF_W .| BPF_LEN then go (set_A s (len skb))
  else if c =? BPF_LDX .| BPF_W .| BPF_LEN then go (set_X s (len skb))
  else if c =? BPF_LD .| BPF_W .| BPF_IND then load skb pc (s32 (u32 (X s + K))) 4 s
  else if c =? BPF_LD .| BPF_H .| BPF_IND then load skb pc (s32 (u32 (X s + K))) 2 s
  else if c =? BPF_LD .| BPF_B .| BPF_IND then load skb pc (s32 (u32 (X s + K))) 1 s
  else if c =? BPF_LDX .| BPF_B .| BPF_MSH then
    p ← load_pointer skb (s32 K) 1;
    match p with
    | Some p => v ← deref skb p 1; go (set_X s ((v .& 0xf) .<< 2))
    | None => Ret (Return 0 false)
    end
  else if c =? BPF_LD .| BPF_IMM then go (set_A s K)
  else if c =? BPF_LDX .| BPF_IMM then go (set_X s K)
  else if c =? BPF_LD .| BPF_MEM then v ← load_mem s K; go (set_A s v)
  else if c =? BPF_LDX .| BPF_MEM then v ← load_mem s K; go (set_X s v)
  else if c =? BPF_MISC .| BPF_TAX then go (set_X s (A s))
  else if c =? BPF_MISC .| BPF_TXA then go (set_A s (X s))
  else if c =? BPF_RET .| BPF_K then Ret (Return K false)
  else if c =? BPF_RET .| BPF_A then Ret (Return (A s) false)
  else if c =? BPF_ST then s ← store_mem s K (A s); go s
  else if c =? BPF_STX then s ← store_mem s K (X s); go s
  else Ret (Return 0 true).

Definition insn_at (filter : list sock_filter) (pc : Z) : option sock_filter :=
  if pc <? 0 then None else filter !! Z.to_nat pc.

(** [for (pc = 0; pc < flen; pc++)]; [Err FInsn] where [pc] leaves the array.
    Gives the returned value and whether a WARN_ON fired. *)
Fixpoint filter_loop (fuel : nat) (skb : sk_buff) (filter : list sock_filter) (flen pc : Z)
    (s : machine) : run fault (Z * bool) :=
  match fuel with
  | O => Diverge
  | S fuel =>
      if pc <? flen then
        fentry ← of_option FInsn (insn_at filter pc);
        t ← step skb fentry pc s;
        match t with
        | Return v w => Ret (v, w)
        | Continue pc s => filter_loop fuel skb filter flen (s32 (pc + 1)) s
        end
      else Ret (0, false)
  end.

(** [stack] is what the uninitialised [mem] array holds.  A program whose jumps
    go forward takes at most [flen] turns and the final test. *)
Definition sk_run_filter (stack : list Z) (skb : sk_buff) (filter : list sock_filter) (flen : Z)
    : run fault (Z * bool) :=
  filter_loop (S (Z.to_nat flen)) skb filter flen 0 (Machine 0 0 stack).

(** ** The checker *)

Definition plain_codes : list Z :=
  [ BPF_ALU .| BPF_ADD .| BPF_K; BPF_ALU .| BPF_ADD .| BPF_X;
    BPF_ALU .| BPF_SUB .| BPF_K; BPF_ALU .| BPF_SUB .| BPF_X;
    BPF_ALU .| BPF_MUL .| BPF_K; BPF_ALU .| BPF_MUL .| BPF_X;
    BPF_ALU .| BPF_DIV .| BPF_X;
    BPF_ALU .| BPF_AND .| BPF_K; BPF_ALU .| BPF_AND .| BPF_X;
    BPF_ALU .| BPF_OR .| BPF_K; BPF_ALU .| BPF_OR .| BPF_X;
    BPF_ALU .| BPF_LSH .| BPF_K; BPF_ALU .| BPF_LSH .| BPF_X;
    BPF_ALU .| BPF_RSH .| BPF_K; BPF_ALU .| BPF_RSH .| BPF_X;
    BPF_ALU .| BPF_NEG;
    BPF_LD .| BPF_W .| BPF_ABS; BPF_LD .| BPF_H .| BPF_ABS; BPF_LD .| BPF_B .| BPF_ABS;
    BPF_LD .| BPF_W .| BPF_LEN;
    BPF_LD .| BPF_W .| BPF_IND; BPF_LD .| BPF_H .| BPF_IND; BPF_LD .| BPF_B .| BPF_IND;
    BPF_LD .| BPF_IMM; BPF_LDX .| BPF_W .| BPF_LEN; BPF_LDX .| BPF_B .| BPF_MSH;
    BPF_LDX .| BPF_IMM; BPF_MISC .| BPF_TAX; BPF_MISC .| BPF_TXA;
    BPF_RET .| BPF_K; BPF_RET .| BPF_A ].

Abbreviation mem_codes := ([ BPF_LD .| BPF_MEM; BPF_LDX .| BPF_MEM; BPF_ST; BPF_STX ]) (only parsing).

Definition cond_codes : list Z :=
  [ BPF_JMP .| BPF_JEQ .| BPF_K; BPF_JMP .| BPF_JEQ .| BPF_X;
    BPF_JMP .| BPF_JGE .| BPF_K; BPF_JMP .| BPF_JGE .| BPF_X;
    BPF_JMP .| BPF_JGT .| BPF_K; BPF_JMP .| BPF_JGT .| BPF_X;
    BPF_JMP .| BPF_JSET .| BPF_K; BPF_JMP .| BPF_JSET .| BPF_X ].

Definition in_codes (c : Z) (l : list Z) : bool := existsb (Z.eqb c) l.

(** The switch of the checking loop: does the instruction at [pc] pass? *)
Definition chk_insn (ftest : sock_filter) (flen pc : Z) : bool :=
  let c := code ftest in
  if in_codes c plain_codes then true
  else if c =? BPF_ALU .| BPF_DIV .| BPF_K then negb (k ftest =? 0)
  else if in_codes c mem_codes then negb (k ftest >=? BPF_MEMWORDS)
  else if c =? BPF_JMP .| BPF_JA then negb (k ftest >=? u32 (flen - pc - 1))
  else if in_codes c cond_codes then
    negb ((pc + jt ftest + 1 >=? flen) || (pc + jf ftest + 1 >=? flen))
  else false.

(** The loop over [n] instructions from [pc] on. *)
Fixpoint chk_loop (n : nat) (filter : list sock_filter) (flen pc : Z) : run fault bool :=
  match n with
  | O => Ret true
  | S n =>
      ftest ← of_option FInsn (insn_at filter pc);
      if chk_insn ftest flen pc then chk_loop n filter flen (pc + 1) else Ret false
  end.

Definition sk_chk_filter (filter : list sock_filter) (flen : Z) : run fault Z :=
  if (flen =? 0) || (flen >? BPF_MAXINSNS) then Ret (- EINVAL)
  else
    ok ← chk_loop (Z.to_nat flen) filter flen 0;
    if (ok : bool) then
      last ← of_option FInsn (insn_at filter (flen - 1));
      Ret (if BPF_CLASS (code last) =? BPF_RET then 0 else - EINVAL)
    else Ret (- EINVAL).

(** ** Admitted programs are safe *)

Definition insn_wf (i : sock_filter) : Prop :=
  0 <= code i < 2 ^ 16 /\ 0 <= jt i < 2 ^ 8 /\ 0 <= jf i < 2 ^ 8 /\ 0 <= k i < 2 ^ 32.

(** The outcomes of code that at worst reads outside the packet's memory or
    follows a NULL device pointer. *)
Definition packet_only {T} (r : run fault T) (P : T -> Prop) : Prop :=
  match r with
  | Ret t => P t
  | Err FPacket => True
  | Err FNull => True
  | _ => False
  end.

Lemma packet_only_bind {T U} (r : run fault T) (f : T -> run fault U) P Q :
  packet_only r P -> (forall t, P t -> packet_only (f t) Q) -> packet_only (r ≫= f) Q.
Proof. destruct r as [t|[]|]; simpl; auto. Qed.

Lemma packet_only_impl {T} (r : run fault T) (P Q : T -> Prop) :
  packet_only r P -> (forall t, P t -> Q t) -> packet_only r Q.
Proof. destruct r as [t|[]|]; simpl; auto. Qed.

Lemma packet_only_option {T} (o : option T) : packet_only (of_option FPacket o) (fun _ => True).
Proof. by destruct o. Qed.

Lemma packet_only_read m off n : packet_only (packet_read m off n) (fun _ => True).
Proof. unfold packet_read. by destruct (mem_read m off n). Qed.

Lemma copy_part_only e offset n to get :
  (forall copy, packet_only (get copy) (fun _ => True)) ->
  packet_only (copy_part e offset n to get) (fun _ => True).
Proof.
  intros Hget. unfold copy_part. case_match; [| done].
  eapply packet_only_bind; [apply Hget |]. intros [bs|] _; repeat case_match; done.
Qed.

Lemma copy_parts_only {T} (pl : T -> Z) get ps start offset n to :
  Forall (fun p => forall off copy, packet_only (get p off copy) (fun _ => True)) ps ->
  packet_only (copy_parts pl get ps start offset n to) (fun _ => True).
Proof.
  intros H. revert start offset n to. induction H as [|p ps Hp _ IH]; intros; [done |].
  simpl. eapply packet_only_bind; [apply copy_part_only, Hp |]. intros [] _; [done | apply IH].
Qed.

Lemma skb_copy_bits_only skb offset n : packet_only (skb_copy_bits skb offset n) (fun _ => True).
Proof.
  revert offset n. induction skb as [skb IH] using sk_buff_ind'. intros offset n.
  rewrite skb_copy_bits_unfold. case_match; [done |].
  eapply packet_only_bind; [apply copy_part_only; intros; apply packet_only_read |].
  intros [] _; [done |].
  eapply packet_only_bind.
  { apply copy_parts_only, Forall_true. intros. apply packet_only_read. }
  intros [? []] _; [done |].
  eapply packet_only_bind; [| intros [? []] _; repeat case_match; done].
  apply copy_parts_only. eapply Forall_impl; [exact IH |]. intros x Hx off copy.
  eapply packet_only_bind; [apply Hx | done].
Qed.

Lemma for_each_only {R S} m (body : Z -> S -> run fault (R + S)) fuel nla rem st :
  (forall nla st, packet_only (body nla st) (fun _ => True)) -> (Z.to_nat rem < fuel)%nat ->
  packet_only (nla_for_each_attr m body fuel nla rem st) (fun _ => True).
Proof.
  intros Hbody. revert nla rem st. induction fuel as [|fuel IH]; intros nla rem st Hf; [lia |].
  simpl. unfold nla_ok, nla_next, field_nla_len. change sizeof_nlattr with 4.
  destruct (Z.geb_spec rem 4); [| done].
  destruct (read_be16 m nla) as [l|]; [simpl | done].
  destruct (Z.geb_spec l 4); [simpl | done]. case_match; [| done].
  eapply packet_only_bind; [apply Hbody |]. intros [r|st'] _; [done |]. simpl.
  pose proof (NLA_ALIGN_bounds l). apply IH. lia.
Qed.

Lemma field_only m nla :
  packet_only (field_nla_len m nla) (fun _ => True) /\ packet_only (nla_type m nla) (fun _ => True).
Proof.
  unfold nla_type, field_nla_len, field_nla_type. split; [apply packet_only_option |].
  eapply packet_only_bind; [apply packet_only_option | done].
Qed.

Lemma nla_find_only m p n t : packet_only (nla_find m p n t) (fun _ => True).
Proof.
  unfold nla_find. eapply packet_only_bind; [apply for_each_only | done].
  - intros. eapply packet_only_bind; [apply field_only | done].
  - unfold stream_fuel. lia.
Qed.

(** A turn that keeps [pc] inside the program, moving forward, and the scratch
    memory's size, and does not warn. *)
Definition turn_ok (pc flen : Z) (t : turn) : Prop :=
  match t with
  | Continue pc' s' => pc <= pc' < flen /\ length (mem s') = Z.to_nat BPF_MEMWORDS
  | Return _ w => w = false
  end.

Lemma ancillary_only skb pc flen k s :
  0 <= pc < flen -> length (mem s) = Z.to_nat BPF_MEMWORDS ->
  packet_only (ancillary skb pc k s) (turn_ok pc flen).
Proof.
  intros Hpc Hm. unfold ancillary. repeat case_match; try done; try (simpl; auto with lia).
  - destruct (dev skb); simpl; auto with lia.
  - eapply packet_only_bind; [apply nla_find_only |]. simpl. auto with lia.
  - eapply packet_only_bind; [apply field_only |]. intros l _. case_match; [done |].
    unfold nla_find_nested, nla_len. eapply packet_only_bind with (P := fun _ => True).
    + eapply packet_only_bind with (P := fun _ => True); [| intros; apply nla_find_only].
      eapply packet_only_bind; [apply field_only | done].
    + simpl. auto with lia.
Qed.

Lemma load_pointer_only skb k n : packet_only (load_pointer skb k n) (fun _ => True).
Proof.
  unfold load_pointer, skb_header_pointer. repeat case_match; try done.
  eapply packet_only_bind; [apply skb_copy_bits_only | done].
Qed.

Lemma deref_only skb p n : packet_only (deref skb p n) (fun _ => True).
Proof. unfold deref. destruct p; by destruct (mem_read _ _ _). Qed.

Lemma load_only skb pc flen k n s :
  0 <= pc < flen -> length (mem s) = Z.to_nat BPF_MEMWORDS ->
  packet_only (load skb pc k n s) (turn_ok pc flen).
Proof.
  intros Hpc Hm. unfold load. eapply packet_only_bind; [apply load_pointer_only |].
  intros [p|] _; [| by apply ancillary_only].
  eapply packet_only_bind; [apply deref_only |]. simpl. auto with lia.
Qed.

(** What the checker's special cases give. *)
Ltac chk_cases H Hchk :=
  unfold in_codes in H; simpl in H;
  repeat (apply orb_true_iff in H as [H|H]); try discriminate H;
  apply Z.eqb_eq in H; unfold chk_insn in Hchk; rewrite H in Hchk; simpl in Hchk.

Lemma chk_div i flen pc :
  chk_insn i flen pc = true -> code i = BPF_ALU .| BPF_DIV .| BPF_K -> k i <> 0.
Proof. intros Hchk H. unfold chk_insn in Hchk. rewrite H in Hchk. simpl in Hchk. lia. Qed.

Lemma chk_mem i flen pc :
  chk_insn i flen pc = true -> in_codes (code i) mem_codes = true -> k i < BPF_MEMWORDS.
Proof. intros Hchk H. chk_cases H Hchk; lia. Qed.

Lemma chk_ja i flen pc :
  chk_insn i flen pc = true -> code i = BPF_JMP .| BPF_JA -> 0 <= pc < flen -> flen <= BPF_MAXINSNS ->
  pc + k i + 1 < flen.
Proof.
  intros Hchk H ??. unfold chk_insn in Hchk. rewrite H in Hchk. simpl in Hchk.
  rewrite uwrap_small in Hchk by lia. lia.
Qed.

Lemma chk_cond i flen pc :
  chk_insn i flen pc = true -> in_codes (code i) cond_codes = true ->
  pc + jt i + 1 < flen /\ pc + jf i + 1 < flen.
Proof. intros Hchk H. chk_cases H Hchk; lia. Qed.

Lemma jump_small pc d : 0 <= pc -> 0 <= d -> pc + d < 2 ^ 31 -> jump pc d = pc + d.
Proof. intros. apply swrap_small; lia. Qed.

Lemma step_only skb i pc flen s :
  chk_insn i flen pc = true -> insn_wf i -> 0 <= pc < flen -> flen <= BPF_MAXINSNS ->
  length (mem s) = Z.to_nat BPF_MEMWORDS ->
  packet_only (step skb i pc s) (turn_ok pc flen).
Proof.
  intros Hchk (_ & Hjt & Hjf & Hk) Hpc Hflen Hm. pose proof (eq_refl : BPF_MAXINSNS = 4096).
  assert (forall s', length (mem s') = Z.to_nat BPF_MEMWORDS -> packet_only (Ret (Continue pc s')) (turn_ok pc flen))
    as Hgo by (simpl; auto with lia).
  assert (in_codes (code i) cond_codes = true -> forall b : bool,
    packet_only (Ret (Continue (jump pc (if b then jt i else jf i)) s)) (turn_ok pc flen)) as Hcond.
  { intros Hc b. destruct (chk_cond _ _ _ Hchk Hc). simpl.
    rewrite jump_small by (destruct b; lia). destruct b; auto with lia. }
  assert (in_codes (code i) mem_codes = true -> exists v, load_mem s (k i) = Ret v) as Hload.
  { intros Hc. apply (chk_mem _ _ _ Hchk) in Hc. unfold load_mem in *.
    destruct (lookup_lt_is_Some_2 (mem s) (Z.to_nat (k i))) as [v ->]; [lia | by eexists]. }
  assert (in_codes (code i) mem_codes = true -> forall v,
    packet_only (s ← store_mem s (k i) v; Ret (Continue pc s)) (turn_ok pc flen)) as Hstore.
  { intros Hc v. apply (chk_mem _ _ _ Hchk) in Hc. unfold store_mem in *. zbool.
    apply Hgo. simpl. by rewrite length_insert. }
  unfold step.
  repeat match goal with
  | |- context [if code i =? ?c then _ else _] => destruct (Z.eqb_spec (code i) c) as [E|?]
  end;
  lazymatch goal with
  | |- packet_only (Ret (Continue pc _)) _ => apply Hgo; exact Hm
  | |- packet_only (load _ _ _ _ _) _ => apply load_only; assumption
  | |- packet_only (Ret (Return _ false)) _ => reflexivity
  | |- packet_only (Ret (Continue (jump pc (if _ then _ else _)) _)) _ => apply Hcond; rewrite E; reflexivity
  | |- context [store_mem] => apply Hstore; rewrite E; reflexivity
  | |- context [load_mem] => destruct Hload as [v ->]; [rewrite E; reflexivity | apply Hgo, Hm]
  | _ => idtac
  end.
  - case_match; [done | apply Hgo, Hm].
  - rewrite (proj2 (Z.eqb_neq _ _) (chk_div _ _ _ Hchk E)). apply Hgo, Hm.
  - pose proof (chk_ja _ _ _ Hchk E Hpc Hflen) as Hja. clear - Hja Hk Hpc Hflen Hm H. simpl.
    rewrite jump_small by lia. auto with lia.
  - eapply packet_only_bind; [apply load_pointer_only |]. intros [p|] _; [| done].
    eapply packet_only_bind; [apply deref_only |]. intros v _. apply Hgo, Hm.
  - exfalso. unfold chk_insn, in_codes, plain_codes, cond_codes in Hchk. cbn [existsb] in Hchk.
    repeat match goal with n : code i <> _ |- _ => rewrite (proj2 (Z.eqb_neq _ _) n) in Hchk; clear n end.
    discriminate Hchk.
Qed.

Lemma chk_loop_all n filter flen pc :
  chk_loop n filter flen pc = Ret true -> 0 <= pc ->
  forall i, pc <= i < pc + Z.of_nat n -> exists f, insn_at filter i = Some f /\ chk_insn f flen i = true.
Proof.
  revert pc. induction n as [|n IH]; intros pc H Hpc i Hi; [lia |]. simpl in H.
  destruct (insn_at filter pc) as [f|] eqn:Hf; [| done]. simpl in H.
  destruct (chk_insn f flen pc) eqn:Hc; [| done].
  destruct (Z.eq_dec i pc) as [->|]; [eauto |]. apply (IH (pc + 1)); auto with lia.
Qed.

(** A program the checker has admitted. *)
Definition admitted (filter : list sock_filter) : Prop :=
  Forall insn_wf filter /\ sk_chk_filter filter (Z.of_nat (length filter)) = Ret 0.

Lemma admitted_insn filter pc :
  admitted filter -> 0 <= pc < Z.of_nat (length filter) ->
  exists i, insn_at filter pc = Some i /\ insn_wf i /\ chk_insn i (Z.of_nat (length filter)) pc = true.
Proof.
  intros [Hwf Hchk] Hpc. unfold sk_chk_filter in Hchk.
  destruct ((_ =? 0) || _) in Hchk; [discriminate Hchk |].
  destruct (chk_loop _ _ _ _) as [b| |] eqn:Hloop in Hchk; try discriminate Hchk. simpl in Hchk.
  destruct b; [| discriminate Hchk].
  destruct (chk_loop_all _ _ _ _ Hloop) with (i := pc) as (i & Hi & Hc); [lia | lia |].
  exists i. split; [done |]. split; [| done]. unfold insn_at in Hi. destruct (pc <? 0); [done |].
  by eapply Forall_lookup_1.
Qed.

Lemma admitted_length filter :
  admitted filter -> 0 < Z.of_nat (length filter) <= BPF_MAXINSNS.
Proof.
  intros [_ Hchk]. unfold sk_chk_filter in Hchk.
  destruct (Z.eqb_spec (Z.of_nat (length filter)) 0), (Z.gtb_spec (Z.of_nat (length filter)) BPF_MAXINSNS);
    simpl in Hchk; try discriminate Hchk. lia.
Qed.

Lemma filter_loop_only filter skb fuel pc s :
  admitted filter -> 0 <= pc <= Z.of_nat (length filter) ->
  Z.of_nat (length filter) - pc < Z.of_nat fuel -> length (mem s) = Z.to_nat BPF_MEMWORDS ->
  packet_only (filter_loop fuel skb filter (Z.of_nat (length filter)) pc s) (fun r => r.2 = false).
Proof.
  intros Ha. pose proof (admitted_length _ Ha). revert pc s.
  induction fuel as [|fuel IH]; intros pc s Hpc Hf Hm; [lia |]. cbn [filter_loop].
  destruct (Z.ltb_spec pc (Z.of_nat (length filter))); [| done].
  destruct (admitted_insn filter pc Ha) as (i & -> & Hwf & Hc); [lia |]. cbn [of_option]. rewrite run_bind_Ret.
  eapply packet_only_bind; [eapply step_only; eauto; lia |].
  intros [pc' s'|v w]; simpl; [| done]. intros [Hpc' Hm'].
  rewrite swrap_small by lia. apply IH; auto with lia.
Qed.

(** C1: what the checker buys.  A program that [sk_chk_filter] admits, on any
    packet and whatever the uninitialised scratch memory holds, ends within one
    turn per instruction; it never leaves the program or the scratch memory,
    never divides by zero and never meets an instruction the interpreter does
    not know.  All that is left to go wrong is an access to the packet. *)
Theorem sk_chk_filter_sound filter skb stack :
  admitted filter -> length stack = Z.to_nat BPF_MEMWORDS ->
  match sk_run_filter stack skb filter (Z.of_nat (length filter)) with
  | Ret (_, warned) => warned = false
  | Err f => f = FPacket \/ f = FNull
  | Diverge => False
  end.
Proof.
  intros Ha Hs. unfold sk_run_filter.
  pose proof (filter_loop_only filter skb (S (Z.to_nat (Z.of_nat (length filter)))) 0 (Machine 0 0 stack) Ha) as H.
  destruct (filter_loop _ _ _ _ _ _) as [[v w]|[]|]; simpl in H; auto; destruct H; simpl; auto with lia.
Qed.

(** ** Where the packet is safe too *)

Definition is_u32 (x : Z) : Prop := 0 <= x < 2 ^ 32.

(** A packet from the network: well formed, its memory holds bytes, it came from
    a device, it has room for a netlink attribute header, and the buffer ends at
    least three bytes behind the data. *)
Definition packet_ok (skb : sk_buff) : Prop :=
  skb_wf skb /\ Forall is_byte (head skb) /\ Forall is_byte (skb_bytes skb) /\
  is_Some (dev skb) /\ is_u32 (protocol skb) /\ is_u32 (pkt_type skb) /\
  sizeof_nlattr <= len skb /\ tail skb + 3 <= skb_end skb.

Definition machine_ok (s : machine) : Prop :=
  is_u32 (A s) /\ is_u32 (X s) /\ length (mem s) = Z.to_nat BPF_MEMWORDS /\ Forall is_u32 (mem s).

Definition good_turn (t : turn) : Prop :=
  match t with Continue _ s' => machine_ok s' | Return v _ => is_u32 v end.

(** The loads whose offset is known statically and is not the nested-attribute
    search. *)
Definition static_load (i : sock_filter) : Prop :=
  ~ In (code i) [BPF_LD .| BPF_W .| BPF_IND; BPF_LD .| BPF_H .| BPF_IND; BPF_LD .| BPF_B .| BPF_IND] /\
  s32 (k i) <> SKF_AD_OFF + SKF_AD_NLATTR_NEST.

Lemma machine_ok_A s a : machine_ok s -> is_u32 a -> machine_ok (set_A s a).
Proof. by intros (?&?&?&?). Qed.
Lemma machine_ok_X s x : machine_ok s -> is_u32 x -> machine_ok (set_X s x).
Proof. by intros (?&?&?&?). Qed.

Lemma is_u32_wrap x : is_u32 (u32 x).
Proof. apply uwrap_range. lia. Qed.

Lemma be_val_u32 bs : Forall is_byte bs -> (length bs <= 4)%nat -> is_u32 (be_val bs).
Proof.
  intros Hb Hl. pose proof (be_val_range bs Hb). split; [lia |].
  eapply Z.lt_le_trans; [apply H |]. change (2 ^ 32) with (256 ^ 4). apply Z.pow_le_mono_r; lia.
Qed.

Lemma ancillary_sel k c :
  - 2 ^ 31 <= k < 2 ^ 31 -> 0 <= c < 2 ^ 12 -> s32 (k - SKF_AD_OFF) = c -> k = SKF_AD_OFF + c.
Proof.
  unfold swrap. intros Hk Hc H. change (2 ^ (32 - 1)) with 2147483648 in *.
  change (2 ^ 31) with 2147483648 in *. change (2 ^ 32) with 4294967296 in *. change (2 ^ 12) with 4096 in *.
  Z.to_euclidean_division_equations. lia.
Qed.

Lemma ancillary_safe skb pc k s :
  packet_ok skb -> machine_ok s -> - 2 ^ 31 <= k < 2 ^ 31 -> k <> SKF_AD_OFF + SKF_AD_NLATTR_NEST ->
  exists t, ancillary skb pc k s = Ret t /\ good_turn t.
Proof.
  intros (Hwf&Hh&Hb&[ifx Hdev]&Hp&Ht&Hl&Hs) Hm Hk Hn. unfold ancillary, skb_is_nonlinear.
  assert (good_turn (Return 0 false)) as H0 by (simpl; unfold is_u32; lia).
  repeat case_match; eauto using machine_ok_A.
  - eexists; split; [reflexivity |]. by apply machine_ok_A.
  - eexists; split; [reflexivity |]. by apply machine_ok_A.
  - rewrite Hdev. eexists; split; [reflexivity |]. by apply machine_ok_A, is_u32_wrap.
  - apply skb_wf_inv in Hwf as ((?&?&?)&(Hlen&?&?&?)&_).
    destruct Hm as (HA&HX&?&?). unfold is_u32 in HA.
    match goal with H : (A s >? _) = false |- _ => rewrite uwrap_small in H by lia end.
    assert (data_len skb = 0) as Hdl by (destruct (Z.eqb_spec (data_len skb) 0); done).
    rewrite (uwrap_small 32), swrap_small by lia.
    destruct (nla_find_inside (head skb) (data skb + A s) (len skb - A s) (s32 (X s))) as (o & -> & _);
      [lia | unfold skb_end in *; lia |].
    eexists; split; [reflexivity |]. apply machine_ok_A; [done |].
    destruct o; [apply is_u32_wrap | unfold is_u32; lia].
  - exfalso. apply Hn, ancillary_sel; [done | vm_compute; done |]. by apply Z.eqb_eq.
Qed.

Lemma mem_read_slice_u32 m off n :
  Forall is_byte m -> 0 <= off -> 0 <= n <= 4 -> off + n <= Z.of_nat (length m) ->
  exists v, be_val <$> of_option (E:=fault) FPacket (mem_read m off n) = Ret v /\ is_u32 v.
Proof.
  intros. rewrite mem_read_Some by lia. eexists; split; [reflexivity |].
  apply be_val_u32; [by apply slice_Forall |]. unfold slice. rewrite length_take. lia.
Qed.

(** A pointer that [n] bytes can be read through. *)
Lemma load_pointer_safe skb k n :
  packet_ok skb -> - 2 ^ 31 <= k < 2 ^ 31 -> 0 < n <= 4 ->
  exists o, load_pointer skb k n = Ret o /\
    forall p, o = Some p -> exists v, deref skb p n = Ret v /\ is_u32 v.
Proof.
  intros (Hwf&Hh&Hb&_&_&_&Hl&Hs) Hk Hn. unfold load_pointer.
  pose proof (len_nonneg _ Hwf). pose proof (skb_headlen_wf _ Hwf) as Hhl.
  pose proof (length_skb_bytes _ Hwf) as Hall. pose proof (skb_wf_inv _ Hwf) as ((?&?&?)&(?&?&?&?)&_&_).
  unfold skb_end in *. destruct (Z.geb_spec k 0).
  - unfold skb_header_pointer. rewrite Hhl, swrap_small by lia.
    destruct (Z.geb_spec (tail skb - data skb - k) n).
    + eexists; split; [reflexivity |]. intros p [= <-]. simpl. apply mem_read_slice_u32; auto; lia.
    + destruct (Z.le_gt_cases (k + n) (len skb)).
      * rewrite skb_copy_bits_ok by (auto; lia). eexists; split; [reflexivity |].
        intros p [= <-]. simpl. apply mem_read_slice_u32; [by apply slice_Forall | lia | lia |].
        rewrite length_slice by lia. lia.
      * rewrite skb_copy_bits_long by (auto; lia). eexists; split; [reflexivity |]. done.
  - destruct (Z.geb_spec k SKF_AD_OFF); [by eexists |]. eexists; split; [reflexivity |].
    unfold __load_pointer. intros p Hp.
    repeat (case_match; simplify_eq); simpl; apply mem_read_slice_u32; auto; lia.
Qed.

Lemma load_safe skb pc k n s :
  packet_ok skb -> machine_ok s -> - 2 ^ 31 <= k < 2 ^ 31 -> k <> SKF_AD_OFF + SKF_AD_NLATTR_NEST ->
  0 < n <= 4 -> exists t, load skb pc k n s = Ret t /\ good_turn t.
Proof.
  intros Hp Hm Hk Hne Hn. unfold load. destruct (load_pointer_safe skb k n Hp Hk Hn) as (o & -> & Ho).
  rewrite run_bind_Ret. destruct o as [p|]; [| by apply ancillary_safe].
  destruct (Ho p eq_refl) as (v & -> & Hv). eexists; split; [reflexivity |]. by apply machine_ok_A.
Qed.

Lemma step_safe skb i pc flen s :
  chk_insn i flen pc = true -> insn_wf i -> static_load i -> packet_ok skb -> machine_ok s ->
  exists t, step skb i pc s = Ret t /\ good_turn t.
Proof.
  intros Hchk (_ & _ & _ & Hk) [Hind Hne] Hp Hm. pose proof Hm as (HA & HX & Hlen & Hmem).
  assert (forall a, is_u32 a -> exists t, Ret (Continue pc (set_A s a)) = Ret (E:=fault) t /\ good_turn t)
    as HgoA by (intros; eexists; split; [reflexivity | by apply machine_ok_A]).
  assert (forall x, is_u32 x -> exists t, Ret (Continue pc (set_X s x)) = Ret (E:=fault) t /\ good_turn t)
    as HgoX by (intros; eexists; split; [reflexivity | by apply machine_ok_X]).
  assert (forall pc', exists t, Ret (Continue pc' s) = Ret (E:=fault) t /\ good_turn t)
    as Hgo by (intros; eexists; split; [reflexivity | done]).
  assert (in_codes (code i) mem_codes = true -> exists v, load_mem s (k i) = Ret v /\ is_u32 v) as Hload.
  { intros Hc. apply (chk_mem _ _ _ Hchk) in Hc. unfold load_mem in *.
    destruct (lookup_lt_is_Some_2 (mem s) (Z.to_nat (k i))) as [v Hv]; [lia |]. rewrite Hv.
    eexists; split; [reflexivity |]. by apply (Forall_lookup_1 _ _ _ _ Hmem Hv). }
  assert (in_codes (code i) mem_codes = true -> forall v, is_u32 v ->
    exists t, (s ← store_mem s (k i) v; Ret (Continue pc s)) = Ret t /\ good_turn t) as Hstore.
  { intros Hc v Hv. apply (chk_mem _ _ _ Hchk) in Hc. unfold store_mem in *. zbool.
    eexists; split; [reflexivity |]. repeat split; simpl; try apply HA; try apply HX.
    - by rewrite length_insert.
    - by apply Forall_insert. }
  pose proof (swrap_range 32 (k i)) as Hs32. pose proof (eq_refl : SKF_AD_NLATTR_NEST = 16).
  assert (0 <= len skb < 2 ^ 31) by (apply len_nonneg, Hp).
  unfold step.
  repeat match goal with
  | |- context [if code i =? ?c then _ else _] => destruct (Z.eqb_spec (code i) c) as [E|?]
  end;
  repeat match goal with n : code i <> _ |- _ => clear n end;
  lazymatch goal with
  | |- context [load _ _ (s32 (u32 _)) _ _] => exfalso; apply Hind; rewrite E; simpl; auto
  | |- context [load _ _ _ _ _] => apply load_safe; auto; lia
  | |- context [store_mem] => apply Hstore; [rewrite E; reflexivity | assumption]
  | |- context [load_mem] => destruct Hload as (v & -> & Hv); [rewrite E; reflexivity | rewrite run_bind_Ret]
  | |- context [Continue (jump _ _) _] => apply Hgo
  | _ => idtac
  end;
  lazymatch goal with
  | |- context [set_A _ (u32 _)] => apply HgoA, is_u32_wrap
  | |- context [set_A _ (Z.land _ _)] => apply HgoA, land_range, HA
  | |- context [set_A _ (Z.lor _ _)] => apply HgoA, lor_range; [lia | exact HA | done]
  | |- context [set_A _ (shl32 _ _)] => apply HgoA, is_u32_wrap
  | |- context [set_A _ (shr32 _ _)] => apply HgoA, shiftr_range; [by apply Z.mod_pos_bound | exact HA]
  | |- context [set_A _ (A s / k i)] =>
      pose proof (chk_div _ _ _ Hchk E) as Hk0; rewrite (proj2 (Z.eqb_neq _ _) Hk0);
      apply HgoA, div_range; [clear - Hk Hk0; lia | exact HA]
  | |- context [set_A _ (A s / X s)] =>
      destruct (Z.eqb_spec (X s) 0) as [HX0|HX0]; [by eexists |];
      apply HgoA, div_range; [clear - HX HX0; unfold is_u32 in HX; lia | exact HA]
  | |- context [set_A _ (len skb)] => apply HgoA; red; lia
  | |- context [set_X _ (len skb)] => apply HgoX; red; lia
  | |- context [set_A _ _] => apply HgoA; assumption
  | |- context [set_X _ (k i)] => apply HgoX; assumption
  | |- context [set_X _ (A s)] => apply HgoX; assumption
  | |- context [Return _ _] => idtac
  | _ => auto
  end; try (eexists; split; [reflexivity | assumption]).
  - destruct (load_pointer_safe skb (s32 (k i)) 1 Hp) as (o & -> & Ho); [lia | lia |].
    rewrite run_bind_Ret. destruct o as [p|]; [| by eexists].
    destruct (Ho p eq_refl) as (v & -> & Hv). rewrite run_bind_Ret. apply HgoX.
    pose proof (land_range v 0xf 32 Hv). pose proof (land_le_l 0xf v).
    rewrite Z.land_comm in H2. rewrite Z.shiftl_mul_pow2 by lia. red. lia.
  - eexists; split; [reflexivity | done].
Qed.

Lemma filter_loop_safe filter skb fuel pc s :
  admitted filter -> Forall static_load filter -> packet_ok skb ->
  0 <= pc <= Z.of_nat (length filter) ->
  Z.of_nat (length filter) - pc < Z.of_nat fuel -> machine_ok s ->
  exists v, filter_loop fuel skb filter (Z.of_nat (length filter)) pc s = Ret (v, false) /\ is_u32 v.
Proof.
  intros Ha Hst Hp. pose proof (admitted_length _ Ha). revert pc s.
  induction fuel as [|fuel IH]; intros pc s Hpc Hf Hm; [lia |]. cbn [filter_loop].
  destruct (Z.ltb_spec pc (Z.of_nat (length filter))); [| by eexists].
  destruct (admitted_insn filter pc Ha) as (i & Hi & Hwf & Hc); [lia |].
  assert (static_load i) as Hsi.
  { unfold insn_at in Hi. destruct (pc <? 0); [done |]. by eapply Forall_lookup_1. }
  rewrite Hi. cbn [of_option]. rewrite run_bind_Ret.
  assert (packet_only (step skb i pc s) (turn_ok pc (Z.of_nat (length filter)))) as Hturn.
  { apply step_only; auto; [lia | lia | apply Hm]. }
  destruct (step_safe skb i pc _ s Hc Hwf Hsi Hp Hm) as (t & Ht & Hg). rewrite Ht in Hturn |- *.
  rewrite run_bind_Ret. destruct t as [pc' s'|v w]; simpl in *.
  - rewrite swrap_small by lia. apply IH; auto with lia.
  - subst w. eauto.
Qed.

(** packet safety.  An admitted program whose packet loads have constant
    offsets and that does not search nested netlink attributes, on any
    well-formed packet of at least four bytes: the run returns a 32-bit length
    and nothing goes wrong, neither in the machine nor in the packet. *)
Theorem sk_run_filter_packet_safe filter skb stack :
  admitted filter -> Forall static_load filter -> packet_ok skb ->
  length stack = Z.to_nat BPF_MEMWORDS -> Forall is_u32 stack ->
  exists v, sk_run_filter stack skb filter (Z.of_nat (length filter)) = Ret (v, false) /\ 0 <= v < 2 ^ 32.
Proof.
  intros Ha Hst Hp Hl Hs. unfold sk_run_filter. apply filter_loop_safe; auto with lia.
  by repeat split.
Qed.

(** ** Runs of concrete programs *)

(** Accept IPv4 packets to port 80: EtherType at 12, protocol at 23, header
    length at 14 (BPF_MSH), destination port behind it. *)
Definition http_filter : list sock_filter :=
  [ Insn (BPF_LD .| BPF_H .| BPF_ABS) 0 0 12;
    Insn (BPF_JMP .| BPF_JEQ .| BPF_K) 0 4 0x0800;
    Insn (BPF_LD .| BPF_B .| BPF_ABS) 0 0 23;
    Insn (BPF_JMP .| BPF_JEQ .| BPF_K) 0 2 6;
    Insn (BPF_LDX .| BPF_B .| BPF_MSH) 0 0 14;
    Insn (BPF_RET .| BPF_K) 0 0 0xffff;
    Insn (BPF_RET .| BPF_K) 0 0 0 ].

(** The linear packet of [bs] followed by [room] bytes of free buffer. *)
Definition linear_packet (bs : list Z) (room : nat) : sk_buff :=
  let n := Z.of_nat (length bs) in
  SkBuff (bs ++ replicate room 0) 0 n n 0 0 0 0x0800 0 (Some 1) [] [].

Definition http_packet : sk_buff :=
  linear_packet (replicate 12 0 ++ [0x08; 0x00; 0x45] ++ replicate 8 0 ++ [6] ++ replicate 16 0) 8.

Definition zero_stack : list Z := replicate 16 0.

Example http_filter_accepts :
  sk_run_filter zero_stack http_packet http_filter 7 = Ret (0xffff, false).
Proof. by vm_compute. Qed.

Lemma http_filter_admitted : admitted http_filter.
Proof. split; [repeat constructor; vm_compute; congruence | by vm_compute]. Qed.

Lemma linear_packet_wf bs room :
  Z.of_nat (length bs) < 2 ^ 31 -> skb_wf (linear_packet bs room).
Proof.
  intros. constructor; simpl; unfold skb_end; simpl; rewrite ?length_app; auto with lia.
Qed.

Lemma linear_packet_bytes bs room : skb_bytes (linear_packet bs room) = bs.
Proof.
  simpl. rewrite !app_nil_r. unfold linear_bytes, linear_packet, slice. simpl.
  by rewrite Z.sub_0_r, Nat2Z.id, drop_0, take_app_length.
Qed.

Lemma linear_packet_ok bs room :
  Forall is_byte bs -> 4 <= Z.of_nat (length bs) < 2 ^ 31 -> (3 <= room)%nat -> packet_ok (linear_packet bs room).
Proof.
  intros Hb Hl Hr. split; [apply linear_packet_wf; lia |].
  rewrite linear_packet_bytes. unfold skb_end. simpl. rewrite length_app, length_replicate.
  split; [apply Forall_app; split; [done |]; apply Forall_replicate; red; lia |].
  split; [done |]. split; [by eexists |]. unfold is_u32. lia.
Qed.

Lemma sk_chk_filter_sound_witness :
  match sk_run_filter zero_stack http_packet http_filter 7 with
  | Ret (_, warned) => warned = false
  | Err f => f = FPacket \/ f = FNull
  | Diverge => False
  end.
Proof.
  apply (sk_chk_filter_sound http_filter http_packet zero_stack http_filter_admitted).
  reflexivity.
Defined.

Lemma sk_run_filter_packet_safe_witness :
  exists v, sk_run_filter zero_stack http_packet http_filter 7 = Ret (v, false) /\ 0 <= v < 2 ^ 32.
Proof.
  apply (sk_run_filter_packet_safe http_filter http_packet zero_stack http_filter_admitted).
  - repeat constructor; vm_compute; intuition congruence.
  - apply linear_packet_ok; [repeat constructor; vm_compute; congruence | vm_compute; split; congruence | lia].
  - reflexivity.
  - repeat constructor; vm_compute; congruence.
Defined.

(** ** What the checker lets through

    Four programs [sk_chk_filter] admits that misbehave: the conditions of
    [sk_run_filter_packet_safe] cannot be dropped. *)

Definition nest_filter : list sock_filter :=
  [ Insn (BPF_LD .| BPF_W .| BPF_ABS) 0 0 (u32 (SKF_AD_OFF + SKF_AD_NLATTR_NEST));
    Insn (BPF_RET .| BPF_A) 0 0 0 ].

(** the bound of the nested search is written [A - skb->len] instead of
    [skb->len - A]: it wraps and admits any length, and the search leaves the
    packet. *)
Theorem nest_bound_reads_outside :
  exists skb, packet_ok skb /\ admitted nest_filter /\
    sk_run_filter zero_stack skb nest_filter 2 = Err FPacket.
Proof.
  exists (linear_packet [0xff; 0xff; 0; 1; 0; 16; 0; 5] 4). split; [| split].
  - apply linear_packet_ok; [repeat constructor; vm_compute; congruence | vm_compute; split; congruence | lia].
  - split; [repeat constructor; vm_compute; congruence | by vm_compute].
  - by vm_compute.
Qed.

(** an admitted program can return a word of the scratch memory it never wrote: the
    result depends on what the kernel stack held. *)
Theorem scratch_memory_leak :
  exists filter skb stack1 stack2,
    admitted filter /\ Forall static_load filter /\ packet_ok skb /\
    length stack1 = Z.to_nat BPF_MEMWORDS /\ length stack2 = Z.to_nat BPF_MEMWORDS /\
    sk_run_filter stack1 skb filter (Z.of_nat (length filter)) <>
    sk_run_filter stack2 skb filter (Z.of_nat (length filter)).
Proof.
  exists [Insn (BPF_LD .| BPF_MEM) 0 0 3; Insn (BPF_RET .| BPF_A) 0 0 0], http_packet,
    zero_stack, (replicate 16 7).
  split; [split; [repeat constructor; vm_compute; congruence | by vm_compute] |].
  split; [repeat constructor; vm_compute; intuition congruence |].
  split; [apply linear_packet_ok; [repeat constructor; vm_compute; congruence | vm_compute; split; congruence | lia] |].
  repeat split. vm_compute. congruence.
Qed.

(** [__load_pointer] checks where a load starts, not where it ends. *)
Theorem negative_offset_reads_past_tail :
  exists filter skb, admitted filter /\ Forall static_load filter /\ skb_wf skb /\
    sizeof_nlattr <= len skb /\
    sk_run_filter zero_stack skb filter (Z.of_nat (length filter)) = Err FPacket.
Proof.
  exists [Insn (BPF_LD .| BPF_W .| BPF_ABS) 0 0 (u32 (SKF_NET_OFF + 3)); Insn (BPF_RET .| BPF_A) 0 0 0],
    (linear_packet [1; 2; 3; 4] 0).
  split; [split; [repeat constructor; vm_compute; congruence | by vm_compute] |].
  split; [repeat constructor; vm_compute; intuition congruence |].
  split; [apply linear_packet_wf; simpl; lia |]. by vm_compute.
Qed.

(** On a packet shorter than an attribute header the bound
    [skb->len - sizeof(struct nlattr)] wraps, and any start is admitted. *)
Theorem short_packet_reads_outside :
  exists filter skb, admitted filter /\ Forall static_load filter /\ skb_wf skb /\
    sk_run_filter zero_stack skb filter (Z.of_nat (length filter)) = Err FPacket.
Proof.
  exists [ Insn (BPF_LD .| BPF_IMM) 0 0 0x80000010;
           Insn (BPF_LD .| BPF_W .| BPF_ABS) 0 0 (u32 (SKF_AD_OFF + SKF_AD_NLATTR));
           Insn (BPF_RET .| BPF_A) 0 0 0 ], (linear_packet [1] 3).
  split; [split; [repeat constructor; vm_compute; congruence | by vm_compute] |].
  split; [repeat constructor; vm_compute; intuition congruence |].
  split; [apply linear_packet_wf; simpl; lia |]. by lazy.
Qed.

(** A packet without a device (netlink sockets have them) is dereferenced. *)
Theorem missing_device_dereferenced :
  exists filter skb, admitted filter /\ Forall static_load filter /\ skb_wf skb /\
    sk_run_filter zero_stack skb filter (Z.of_nat (length filter)) = Err FNull.
Proof.
  exists [Insn (BPF_LD .| BPF_W .| BPF_ABS) 0 0 (u32 (SKF_AD_OFF + SKF_AD_IFINDEX)); Insn (BPF_RET .| BPF_A) 0 0 0],
    (SkBuff [1; 2; 3; 4] 0 4 4 0 0 0 0 0 None [] []).
  split; [split; [repeat constructor; vm_compute; congruence | by vm_compute] |].
  split; [repeat constructor; vm_compute; intuition congruence |].
  split; [by constructor; vm_compute |]. by vm_compute.
Qed.
End Filter.
