(* ===== verification/FilterAttach.v ===== *)
(** * Attaching filters to sockets (net/core/filter.c, net/core/sock.c, include/net/sock.h)

    [sk_attach_filter] copies a program from user space, charges its memory to
    the socket, checks it and publishes it; the filter it replaces, like the
    one [sk_detach_filter] removes, is uncharged at once and released after an RCU
    grace period.  A socket that [sk_clone] makes shares the filter of its
    parent and counts as one more reference, which [__sk_free] gives back.  The
    state is the sockets with their filter pointers and option-memory accounts,
    the heap of filters, the clones that are being made and the pending RCU
    callbacks; a step relation runs all operations on any number of sockets.
    In every reachable state the reference count of a filter is the number of
    sockets that have it and of the callbacks that wait for it, a published
    filter is an admitted program, and each account is exact.  The one operation
    that can go wrong is a second delayed release of a shared filter during the
    grace period of the first. *)

From S2P Require Import Prelude Skbuff SockFilter.

Module Attach.
Import Filter.

(** [struct sk_filter]. *)
Record sk_filter := SkFilter { refcnt : Z; flen : Z; insns : list sock_filter }.

Definition sizeof_sock_filter : Z := 8.
Definition sizeof_sk_filter : Z := 24.

Definition sk_filter_len (fp : sk_filter) : Z := u32 (flen fp * sizeof_sock_filter + sizeof_sk_filter).

(** [sk_fp] is [sk->sk_filter]; [others] is what the other options of the socket
    have charged. *)
Record sock := Sock { sk_fp : option Z; omem_alloc : Z; others : Z }.

(** A filter is at an address of the heap.  A clone that has copied the socket
    of its parent has not yet charged the filter: [cloning] has the parent and
    the filter.  The callback of a filter is queued through the one [rcu_head]
    in it; it waits for the clones that were being made when it was queued.
    Counts do not wrap: there are fewer than 2^31 sockets. *)
Record net := Net {
  socks : gmap Z sock;
  heap : gmap Z sk_filter;
  cloning : gmap Z (Z * Z);
  rcu : gmap Z (gset Z)
}.

Definition set_heap (h : gmap Z sk_filter) (st : net) : net := Net (socks st) h (cloning st) (rcu st).
Definition put_sock (s : Z) (sk : sock) (st : net) : net := Net (<[s := sk]> (socks st)) (heap st) (cloning st) (rcu st).
Definition get_sock (s : Z) (st : net) : run fault sock := of_option FMem (socks st !! s).

Definition add_omem (s n : Z) (st : net) : run fault net :=
  sk ← get_sock s st;
  Ret (put_sock s (Sock (sk_fp sk) (omem_alloc sk + n) (others sk)) st).
Definition set_filter (s : Z) (fp : option Z) (st : net) : run fault net :=
  sk ← get_sock s st;
  Ret (put_sock s (Sock fp (omem_alloc sk) (others sk)) st).

(** What user space and the allocator decide in one attach: whether
    [fprog->filter] is NULL, [fprog->len], the address [kmalloc] returns, and
    what [copy_from_user] reads, [None] when it faults. *)
Record request := Request {
  user_filter_null : bool;
  user_len : Z;
  kmalloc : option Z;
  user_insns : option (list sock_filter)
}.

Section attach.
Context (sysctl_optmem_max : Z).

(** Address, or NULL. *)
Definition sock_kmalloc (s size : Z) (kmalloc : option Z) (st : net) : run fault (option Z * net) :=
  sk ← get_sock s st;
  if (u32 size <=? sysctl_optmem_max) && (omem_alloc sk + size <? sysctl_optmem_max) then
    st ← add_omem s size st;
    match kmalloc with
    | Some mem => Ret (Some mem, st)
    | None => st ← add_omem s (- size) st; Ret (None, st)
    end
  else Ret (None, st).

Definition sock_kfree_s (s mem size : Z) (st : net) : run fault net :=
  add_omem s (- size) (set_heap (delete mem (heap st)) st).

(** [atomic_dec_and_test] and [kfree]. *)
Definition sk_filter_release (fp : Z) (st : net) : run fault net :=
  f ← of_option FMem (heap st !! fp);
  Ret (if refcnt f - 1 =? 0 then set_heap (delete fp (heap st)) st
       else set_heap (<[fp := SkFilter (refcnt f - 1) (flen f) (insns f)]> (heap st)) st).

Definition sk_filter_uncharge (s fp : Z) (st : net) : run fault net :=
  f ← of_option FMem (heap st !! fp);
  st ← add_omem s (- sk_filter_len f) st;
  sk_filter_release fp st.

Definition sk_filter_charge (s fp : Z) (st : net) : run fault net :=
  f ← of_option FMem (heap st !! fp);
  add_omem s (sk_filter_len f) (set_heap (<[fp := SkFilter (refcnt f + 1) (flen f) (insns f)]> (heap st)) st).

(** An [rcu_head] links one list: it must not be queued again before its callback ran. *)
Definition call_rcu_bh (fp : Z) (st : net) : run fault net :=
  match rcu st !! fp with
  | Some _ => Err FRcu
  | None => Ret (Net (socks st) (heap st) (cloning st) (<[fp := dom (cloning st)]> (rcu st)))
  end.

(** Uncharge now, release after a grace period. *)
Definition sk_filter_delayed_uncharge (s fp : Z) (st : net) : run fault net :=
  f ← of_option FMem (heap st !! fp);
  st ← add_omem s (- sk_filter_len f) st;
  call_rcu_bh fp st.

Definition sk_attach_filter (s : Z) (req : request) (st : net) : run fault (Z * net) :=
  let fsize := u32 (sizeof_sock_filter * user_len req) in
  if user_filter_null req then Ret (- EINVAL, st)
  else
    '(fp, st) ← sock_kmalloc s (s32 (fsize + sizeof_sk_filter)) (kmalloc req) st;
    match fp with
    | None => Ret (- ENOMEM, st)
    | Some fp =>
        match user_insns req with
        | None => st ← sock_kfree_s s fp (s32 (fsize + sizeof_sk_filter)) st; Ret (- EFAULT, st)
        | Some insns =>
            let st := set_heap (<[fp := SkFilter 1 (user_len req) insns]> (heap st)) st in
            err ← sk_chk_filter insns (s32 (user_len req));
            if negb (err =? 0) then
              st ← sk_filter_uncharge s fp st;
              Ret (err, st)
            else
              sk ← get_sock s st;
              let old_fp := sk_fp sk in
              st ← set_filter s (Some fp) st;
              match old_fp with
              | Some old_fp => st ← sk_filter_delayed_uncharge s old_fp st; Ret (0, st)
              | None => Ret (0, st)
              end
        end
    end.

Definition sk_detach_filter (s : Z) (st : net) : run fault (Z * net) :=
  sk ← get_sock s st;
  match sk_fp sk with
  | Some fp =>
      st ← set_filter s None st;
      st ← sk_filter_delayed_uncharge s fp st;
      Ret (0, st)
  | None => Ret (- ENOENT, st)
  end.

(** The RCU callback of a filter. *)
Definition sk_filter_rcu_release (fp : Z) (st : net) : run fault net :=
  sk_filter_release fp (Net (socks st) (heap st) (cloning st) (delete fp (rcu st))).

(** The filter of a socket that nobody refers to any more. *)
Definition __sk_free (s : Z) (st : net) : run fault net :=
  sk ← get_sock s st;
  st ← match sk_fp sk with
       | Some fp => st ← sk_filter_uncharge s fp st; set_filter s None st
       | None => Ret st
       end;
  Ret (Net (delete s (socks st)) (heap st) (cloning st) (rcu st)).

(** [sk_clone] up to the filter: the pointer is copied, the account is empty. *)
Definition sk_clone_copy (s newsk : Z) (st : net) : run fault net :=
  sk ← get_sock s st;
  Ret (match sk_fp sk with
       | Some fp => Net (socks st) (heap st) (<[newsk := (s, fp)]> (cloning st)) (rcu st)
       | None => put_sock newsk (Sock None 0 0) st
       end).

(** The rest of it; then no callback waits for this clone any more. *)
Definition sk_clone_charge (newsk : Z) (st : net) : run fault net :=
  '(_, fp) ← of_option FMem (cloning st !! newsk);
  st ← sk_filter_charge newsk fp (put_sock newsk (Sock (Some fp) 0 0) st);
  Ret (Net (socks st) (heap st) (delete newsk (cloning st)) ((fun w => w ∖ {[newsk]}) <$> rcu st)).

(** ** All interleavings *)

Inductive event :=
  | EvAlloc (s : Z)
  | EvOptions (s n : Z)
  | EvAttach (s : Z) (req : request)
  | EvDetach (s : Z)
  | EvFree (s : Z)
  | EvClone (s newsk : Z)
  | EvCharge (newsk : Z)
  | EvGrace (fp : Z).

(** Other options charge and release [n] bytes. *)
Definition perform (st : net) (e : event) : run fault net :=
  match e with
  | EvAlloc s => Ret (put_sock s (Sock None 0 0) st)
  | EvOptions s n => sk ← get_sock s st; Ret (put_sock s (Sock (sk_fp sk) (omem_alloc sk + n) (others sk + n)) st)
  | EvAttach s req => snd <$> sk_attach_filter s req st
  | EvDetach s => snd <$> sk_detach_filter s st
  | EvFree s => __sk_free s st
  | EvClone s newsk => sk_clone_copy s newsk st
  | EvCharge newsk => sk_clone_charge newsk st
  | EvGrace fp => sk_filter_rcu_release fp st
  end.

Definition fresh (st : net) (s : Z) : Prop := socks st !! s = None /\ cloning st !! s = None.

(** What user space and the allocator may answer: [len] is an unsigned short,
    [copy_from_user] reads [len] instructions, [kmalloc] returns fresh memory. *)
Definition request_ok (st : net) (req : request) : Prop :=
  0 <= user_len req < 2 ^ 16 /\
  (forall a, kmalloc req = Some a -> heap st !! a = None) /\
  (forall l, user_insns req = Some l -> Z.of_nat (length l) = user_len req /\ Forall insn_wf l).

(** Sockets are allocated afresh; one that is being cloned is not freed, as its
    cloner refers to it; a callback runs when no clone is left it waits for. *)
Definition event_ok (st : net) (e : event) : Prop :=
  match e with
  | EvAlloc s => fresh st s
  | EvAttach s req => is_Some (socks st !! s) /\ request_ok st req
  | EvOptions s _ | EvDetach s => is_Some (socks st !! s)
  | EvFree s => is_Some (socks st !! s) /\ forall c p fp, cloning st !! c = Some (p, fp) -> p <> s
  | EvClone s newsk => is_Some (socks st !! s) /\ fresh st newsk
  | EvCharge newsk => is_Some (cloning st !! newsk)
  | EvGrace fp => rcu st !! fp = Some ∅
  end.

Inductive net_step : net -> net -> Prop :=
  | net_step_intro st e st' : event_ok st e -> perform st e = Ret st' -> net_step st st'.

Definition no_sockets : net := Net ∅ ∅ ∅ ∅.

(** ** Counting references *)

Definition has (o : option sock) (a : Z) : Z := if decide (o ≫= sk_fp = Some a) then 1 else 0.

(** The sockets that have the filter. *)
Definition holders (m : gmap Z sock) (a : Z) : Z :=
  Z.of_nat (size (filter (fun p => sk_fp p.2 = Some a) m)).

Definition pending (st : net) (a : Z) : Z := if decide (is_Some (rcu st !! a)) then 1 else 0.

Lemma holders_delete m s a : holders m a = holders (delete s m) a + has (m !! s) a.
Proof.
  unfold holders, has. rewrite map_filter_delete. destruct (m !! s) as [sk|] eqn:E; cbn [mbind option_bind].
  - case_decide as Ha.
    + rewrite <- (insert_id m s sk) at 1 by done. rewrite <- insert_delete_eq, map_filter_insert_True by done.
      rewrite map_filter_delete, map_size_insert_None by apply lookup_delete_eq. lia.
    + rewrite delete_id; [lia |]. apply map_lookup_filter_None. right. intros x Ex. simplify_eq. done.
  - rewrite decide_False by done. rewrite delete_id; [lia |]. apply map_lookup_filter_None. by left.
Qed.

Lemma holders_alter m s o a : holders (partial_alter (fun _ => o) s m) a = holders m a - has (m !! s) a + has o a.
Proof.
  rewrite (holders_delete (partial_alter _ s m) s), (holders_delete m s a).
  assert (delete s (partial_alter (fun _ => o) s m) = delete s m) as ->; [| rewrite lookup_partial_alter_eq; lia].
  apply map_eq. intros i. destruct (decide (s = i)) as [<-|Hne]; [by rewrite !lookup_delete_eq |].
  by rewrite !lookup_delete_ne, lookup_partial_alter_ne.
Qed.

Lemma has_range o a : 0 <= has o a <= 1.
Proof. unfold has. case_decide; lia. Qed.

Lemma holders_has m s a : has (m !! s) a <= holders m a.
Proof. rewrite (holders_delete m s). unfold holders. lia. Qed.

Lemma has_some o a : 0 < has o a -> exists sk, o = Some sk /\ sk_fp sk = Some a.
Proof. unfold has. case_decide as H; [| lia]. destruct o as [sk|]; [| done]. eauto. Qed.

(** ** The invariant *)

Definition filter_ok (f : sk_filter) : Prop := flen f = Z.of_nat (length (insns f)) /\ admitted (insns f).

(** The account of a socket: its other options and the filter it has. *)
Definition account_ok (h : gmap Z sk_filter) (sk : sock) : Prop :=
  match sk_fp sk with
  | Some fp => exists f, h !! fp = Some f /\ omem_alloc sk = others sk + sk_filter_len f
  | None => omem_alloc sk = others sk
  end.

Definition count_at (h : gmap Z sk_filter) (a : Z) : Z := from_option refcnt 0 (h !! a).
Definition held (x : option Z) (a : Z) : Z := if decide (x = Some a) then 1 else 0.

(** [x] is a reference that an operation has in its hands. *)
Record inv (x : option Z) (st : net) : Prop := Inv {
  inv_account : forall s sk, socks st !! s = Some sk -> account_ok (heap st) sk;
  inv_count : forall a, count_at (heap st) a = holders (socks st) a + pending st a + held x a;
  inv_filter : forall a f, heap st !! a = Some f -> 1 <= refcnt f /\ filter_ok f;
  inv_fresh : forall c, is_Some (cloning st !! c) -> socks st !! c = None
}.

(** A clone that is being made is safe: its parent still has the filter, or the
    release of the filter waits for it. *)
Definition clones_ok (st : net) : Prop := forall c p fp, cloning st !! c = Some (p, fp) ->
  (exists sk, socks st !! p = Some sk /\ sk_fp sk = Some fp) \/ (exists w, rcu st !! fp = Some w /\ c ∈ w).

Lemma counted_there x st a : inv x st -> 0 < holders (socks st) a + pending st a + held x a -> exists f, heap st !! a = Some f.
Proof.
  intros H Hp. rewrite <- (inv_count _ _ H a) in Hp. unfold count_at in Hp.
  destruct (heap st !! a); [by eexists | simpl in Hp; lia].
Qed.

(** A filter keeps its program and its size whatever becomes of its count. *)
Lemma account_keep h h' sk : account_ok h sk ->
  (forall a f, sk_fp sk = Some a -> h !! a = Some f -> exists f', h' !! a = Some f' /\ flen f' = flen f) -> account_ok h' sk.
Proof.
  unfold account_ok. destruct (sk_fp sk) as [fp|]; [| done]. intros (f & Hf & Ho) Hk.
  destruct (Hk fp f eq_refl Hf) as (f' & Hf' & El). exists f'. split; [done |]. unfold sk_filter_len. by rewrite El.
Qed.

(** A socket comes, goes or changes, with the counts of the filters. *)
Lemma change_inv x st s o h' cl' rcu' :
  inv None st -> (forall sk, o = Some sk -> account_ok h' sk) ->
  (forall a, count_at h' a = count_at (heap st) a - has (socks st !! s) a + has o a + held x a) ->
  (forall a f, heap st !! a = Some f -> exists f', h' !! a = Some f' /\ flen f' = flen f) ->
  (forall a f, h' !! a = Some f -> 1 <= refcnt f /\ filter_ok f) ->
  (forall a, is_Some (rcu' !! a) <-> is_Some (rcu st !! a)) ->
  (forall c, is_Some (cl' !! c) -> partial_alter (fun _ => o) s (socks st) !! c = None) ->
  inv x (Net (partial_alter (fun _ => o) s (socks st)) h' cl' rcu').
Proof.
  intros H Ho Hc Hk Hf Hr Hfresh. constructor; cbn [socks heap cloning rcu].
  - intros s' sk Hsk. destruct (decide (s = s')) as [<-|Hne].
    + rewrite lookup_partial_alter_eq in Hsk. by apply Ho.
    + rewrite lookup_partial_alter_ne in Hsk by done. eapply account_keep; [by eapply inv_account |].
      intros a f _. apply Hk.
  - intros a. rewrite Hc, holders_alter, (inv_count _ _ H a). unfold pending. cbn [rcu].
    rewrite (decide_ext _ _ _ _ (Hr a)). replace (held None a) with 0 by done. lia.
  - exact Hf.
  - exact Hfresh.
Qed.

(** Giving back the reference in hand. *)
Definition released (fp : Z) (f : sk_filter) (h : gmap Z sk_filter) : gmap Z sk_filter :=
  if refcnt f - 1 =? 0 then delete fp h else <[fp := SkFilter (refcnt f - 1) (flen f) (insns f)]> h.

Lemma release_eq fp f st : heap st !! fp = Some f -> sk_filter_release fp st = Ret (set_heap (released fp f (heap st)) st).
Proof. intros E. unfold sk_filter_release, released. rewrite E. cbn. by destruct (refcnt f - 1 =? 0). Qed.

Lemma released_inv fp f st : inv (Some fp) st -> heap st !! fp = Some f -> inv None (set_heap (released fp f (heap st)) st).
Proof.
  intros [Ha Hc Hf Hfr] E. pose proof (Hc fp) as Efp. unfold count_at, held in Efp. rewrite E, decide_True in Efp by done.
  cbn [from_option] in Efp. constructor; cbn [set_heap socks heap cloning rcu]; [| | | done].
  - intros s sk Hs. eapply account_keep; [by eapply Ha |]. intros a g Hg Eg. unfold released.
    assert (1 <= holders (socks st) a) as Hh.
    { pose proof (holders_has (socks st) s a) as H1. rewrite Hs in H1. unfold has in H1. cbn in H1.
      by rewrite decide_True in H1. }
    destruct (Z.eqb_spec (refcnt f - 1) 0) as [E1|E1]; destruct (decide (a = fp)) as [->|Hne].
    + unfold pending in Efp. case_decide; lia.
    + rewrite lookup_delete_ne by done. eauto.
    + rewrite lookup_insert_eq. simplify_eq. eauto.
    + rewrite lookup_insert_ne by done. eauto.
  - intros a. change (pending (set_heap _ st) a) with (pending st a). pose proof (Hc a) as Hca.
    unfold released, count_at, held in *.
    rewrite (decide_False (P := None = Some a)) by done. destruct (decide (a = fp)) as [->|Hne].
    + destruct (Z.eqb_spec (refcnt f - 1) 0); [rewrite lookup_delete_eq | rewrite lookup_insert_eq]; cbn; lia.
    + rewrite decide_False in Hca by congruence. rewrite <- Hca.
      destruct (refcnt f - 1 =? 0); [rewrite lookup_delete_ne | rewrite lookup_insert_ne]; try done; lia.
  - intros a g. destruct (Hf fp f E) as [? ?]. unfold released. destruct (Z.eqb_spec (refcnt f - 1) 0).
    + intros [_ Hg]%lookup_delete_Some. eauto.
    + intros [[<- <-]|[_ Hg]]%lookup_insert_Some; [split; [cbn; lia | done] | eauto].
Qed.

(** Handing it to an RCU callback, which waits for all clones. *)
Lemma queued_inv fp st : inv (Some fp) st -> rcu st !! fp = None ->
  inv None (Net (socks st) (heap st) (cloning st) (<[fp := dom (cloning st)]> (rcu st))).
Proof.
  intros [Ha Hc Hf Hfr] E. constructor; cbn [socks heap cloning]; [done | | done | done].
  intros a. rewrite Hc. unfold pending, held. cbn [rcu]. rewrite (decide_False (P := None = Some a)) by done.
  destruct (decide (fp = a)) as [->|Hne].
  - rewrite E, lookup_insert_eq, (decide_False (P := is_Some None)) by (by intros []).
    rewrite !decide_True by (done || by eexists). lia.
  - rewrite lookup_insert_ne by done. rewrite (decide_False (P := Some fp = Some a)) by congruence. lia.
Qed.

(** ** The operations *)

Lemma get_sock_Ret s sk st : socks st !! s = Some sk -> get_sock s st = Ret sk.
Proof. unfold get_sock. by intros ->. Qed.

Lemma add_omem_Ret s n sk st : socks st !! s = Some sk ->
  add_omem s n st = Ret (put_sock s (Sock (sk_fp sk) (omem_alloc sk + n) (others sk)) st).
Proof. intros E. unfold add_omem. by rewrite (get_sock_Ret _ _ _ E). Qed.

Lemma set_filter_Ret s fp sk st : socks st !! s = Some sk ->
  set_filter s fp st = Ret (put_sock s (Sock fp (omem_alloc sk) (others sk)) st).
Proof. intros E. unfold set_filter. by rewrite (get_sock_Ret _ _ _ E). Qed.

Lemma put_lookup s sk st : socks (put_sock s sk st) !! s = Some sk.
Proof. apply lookup_insert_eq. Qed.

Lemma put_put s sk sk' st : put_sock s sk (put_sock s sk' st) = put_sock s sk st.
Proof. unfold put_sock. cbn. by rewrite insert_insert_eq. Qed.

Lemma put_same s sk st : socks st !! s = Some sk -> put_sock s sk st = st.
Proof. intros E. unfold put_sock. rewrite insert_id by done. by destruct st. Qed.

Lemma sock_eta sk n : Sock (sk_fp sk) (omem_alloc sk + n + - n) (others sk) = sk.
Proof. destruct sk. cbn. f_equal. lia. Qed.

(** The callbacks after a socket has let its filter go. *)
Definition queue (st : net) (old : option Z) : gmap Z (gset Z) :=
  match old with Some fp => <[fp := dom (cloning st)]> (rcu st) | None => rcu st end.

(** A second release of the filter of the socket is queued. *)
Definition collision (st : net) (s : Z) : Prop :=
  exists sk fp, socks st !! s = Some sk /\ sk_fp sk = Some fp /\ is_Some (rcu st !! fp).

(** A socket gets another filter or none, and the old one goes to a callback. *)
Lemma swap_ok st s sk sk' h' :
  inv None st -> clones_ok st -> socks st !! s = Some sk -> ~ collision st s -> account_ok h' sk' ->
  (forall a, count_at h' a = count_at (heap st) a + has (Some sk') a) ->
  (forall a f, heap st !! a = Some f -> exists f', h' !! a = Some f' /\ flen f' = flen f) ->
  (forall a f, h' !! a = Some f -> 1 <= refcnt f /\ filter_ok f) ->
  let st' := Net (<[s := sk']> (socks st)) h' (cloning st) (queue st (sk_fp sk)) in inv None st' /\ clones_ok st'.
Proof.
  intros H Hcl Hs Hno Hacc Hc Hk Hf st'.
  assert (forall fp, sk_fp sk = Some fp -> rcu st !! fp = None) as Hr.
  { intros fp E. apply eq_None_not_Some. intros Hq. apply Hno. by exists sk, fp. }
  assert (inv (sk_fp sk) (Net (<[s := sk']> (socks st)) h' (cloning st) (rcu st))) as H1.
  { apply (change_inv (sk_fp sk) st s (Some sk') h' (cloning st) (rcu st)); try done; [by intros ? [= <-] | |].
    - intros a. rewrite Hc, Hs. unfold has at 2, held. cbn [mbind option_bind]. lia.
    - intros c Hcc. pose proof (inv_fresh _ _ H c Hcc) as Hn. rewrite lookup_partial_alter_ne; [done | congruence]. }
  split.
  - unfold st', queue. destruct (sk_fp sk) as [fp|] eqn:Efp; [| exact H1]. apply (queued_inv fp _ H1). by apply Hr.
  - intros c p fp Hcc. cbn [st' socks cloning rcu] in *. destruct (Hcl c p fp Hcc) as [(skp & Hp & Hfp) | (w & Hw & Hin)].
    + destruct (decide (s = p)) as [<-|Hne]; [| left; exists skp; by rewrite lookup_insert_ne].
      right. simplify_eq. unfold queue. rewrite Hfp. exists (dom (cloning st)). rewrite lookup_insert_eq. split; [done |].
      apply elem_of_dom. by eexists.
    + right. exists w. unfold queue. destruct (sk_fp sk) as [fp0|] eqn:E0; [| done].
      rewrite lookup_insert_ne; [done |]. intros ->. by rewrite (Hr fp eq_refl) in Hw.
Qed.

(** The release of the old filter, as attach and detach do it. *)
Lemma delayed_Ret st s sk fp f :
  socks st !! s = Some sk -> heap st !! fp = Some f ->
  sk_filter_delayed_uncharge s fp st =
    call_rcu_bh fp (put_sock s (Sock (sk_fp sk) (omem_alloc sk + - sk_filter_len f) (others sk)) st).
Proof. intros Hs Hf. unfold sk_filter_delayed_uncharge. rewrite Hf. cbn. by rewrite (add_omem_Ret _ _ _ _ Hs). Qed.

Lemma published st s sk fp : inv None st -> socks st !! s = Some sk -> sk_fp sk = Some fp ->
  exists f, heap st !! fp = Some f /\ omem_alloc sk = others sk + sk_filter_len f.
Proof. intros H Hs E. pose proof (inv_account _ _ H _ _ Hs) as Ha. unfold account_ok in Ha. by rewrite E in Ha. Qed.

Lemma sk_detach_filter_ok st s sk :
  inv None st -> clones_ok st -> socks st !! s = Some sk ->
  (exists r st', sk_detach_filter s st = Ret (r, st') /\ inv None st' /\ clones_ok st' /\
     r = (if sk_fp sk then 0 else - ENOENT) /\ socks st' !! s = Some (Sock None (others sk) (others sk))) \/
  (sk_detach_filter s st = Err FRcu /\ collision st s).
Proof.
  intros H Hcl Hs. unfold sk_detach_filter. rewrite (get_sock_Ret _ _ _ Hs), run_bind_Ret.
  destruct (sk_fp sk) as [fp|] eqn:Efp.
  2: { left. do 2 eexists; split; [reflexivity |]. pose proof (inv_account _ _ H _ _ Hs) as Ha. unfold account_ok in Ha.
       rewrite Efp in Ha. split; [done |]. split; [done |]. split; [done |]. rewrite Hs. destruct sk; cbn in *. by subst. }
  destruct (published st s sk fp H Hs Efp) as (f & Hf & Ho).
  rewrite (set_filter_Ret _ _ _ _ Hs), run_bind_Ret, (delayed_Ret _ _ _ _ _ (put_lookup s _ st) Hf), put_put.
  unfold call_rcu_bh. cbn [rcu put_sock]. destruct (rcu st !! fp) as [w|] eqn:Er.
  { right. split; [done |]. exists sk, fp. by rewrite Er. }
  left. rewrite run_bind_Ret. do 2 eexists; split; [reflexivity |]. cbn [put_sock socks heap cloning sk_fp omem_alloc others].
  assert (omem_alloc sk + - sk_filter_len f = others sk) as -> by lia. rewrite lookup_insert_eq.
  destruct (swap_ok st s sk (Sock None (others sk) (others sk)) (heap st)) as [H' Hcl'];
    [done | done | done | | done | | by eauto | apply (inv_filter _ _ H) |].
  - intros (sk0 & fp0 & ? & ? & [w Hw]). by simplify_eq.
  - intros a. unfold has. rewrite decide_False by done. lia.
  - unfold queue in *. rewrite Efp in *. by split.
Qed.

Lemma attach_heap st fp f : inv None st -> heap st !! fp = None -> refcnt f = 1 -> filter_ok f ->
  (forall a, count_at (<[fp := f]> (heap st)) a = count_at (heap st) a + held (Some fp) a) /\
  (forall a g, heap st !! a = Some g -> exists g', <[fp := f]> (heap st) !! a = Some g' /\ flen g' = flen g) /\
  (forall a g, <[fp := f]> (heap st) !! a = Some g -> 1 <= refcnt g /\ filter_ok g).
Proof.
  intros H Hn Hr Hf. split; [| split].
  - intros a. unfold count_at, held. destruct (decide (fp = a)) as [<-|Hne].
    + rewrite lookup_insert_eq, Hn, decide_True by done. cbn. lia.
    + rewrite lookup_insert_ne by done. rewrite decide_False by congruence. lia.
  - intros a g Hg. exists g. rewrite lookup_insert_ne by congruence. done.
  - intros a g [[<- <-]|[_ Hg]]%lookup_insert_Some; [split; [lia | done] | by eapply inv_filter].
Qed.

(** The end of a successful attach. *)
Lemma publish_ok st s sk fp f :
  inv None st -> clones_ok st -> socks st !! s = Some sk -> heap st !! fp = None -> refcnt f = 1 -> filter_ok f ->
  let st1 := put_sock s (Sock (Some fp) (omem_alloc sk + sk_filter_len f) (others sk)) (set_heap (<[fp := f]> (heap st)) st) in
  let r := match sk_fp sk with Some old => sk_filter_delayed_uncharge s old st1 | None => Ret st1 end in
  (exists st', r = Ret st' /\ inv None st' /\ clones_ok st' /\ heap st' !! fp = Some f /\
     socks st' = <[s := Sock (Some fp) (others sk + sk_filter_len f) (others sk)]> (socks st)) \/
  (r = Err FRcu /\ collision st s).
Proof.
  intros H Hcl Hs Hn Hr Hf st1 r. destruct (attach_heap st fp f H Hn Hr Hf) as (Hc & Hk & Hok).
  pose proof (swap_ok st s sk (Sock (Some fp) (others sk + sk_filter_len f) (others sk)) (<[fp := f]> (heap st)) H Hcl Hs) as Hsw.
  cbn [sk_fp] in Hsw.
  assert (account_ok (<[fp := f]> (heap st)) (Sock (Some fp) (others sk + sk_filter_len f) (others sk))) as Hacc.
  { exists f. by rewrite lookup_insert_eq. }
  destruct (sk_fp sk) as [old|] eqn:Eold; unfold r.
  - destruct (published st s sk old H Hs Eold) as (g & Hg & Ho). assert (fp <> old) by congruence.
    assert (heap st1 !! old = Some g) as Hg1 by (cbn; by rewrite lookup_insert_ne).
    unfold st1 in *. rewrite (delayed_Ret _ _ _ _ _ (put_lookup s _ _) Hg1), put_put.
    unfold call_rcu_bh. cbn [rcu put_sock set_heap]. destruct (rcu st !! old) as [w|] eqn:Er.
    { right. split; [done |]. exists sk, old. by rewrite Er. }
    left. eexists; split; [reflexivity |]. cbn [put_sock set_heap socks heap cloning sk_fp omem_alloc others].
    assert (omem_alloc sk + sk_filter_len f + - sk_filter_len g = others sk + sk_filter_len f) as -> by lia.
    rewrite lookup_insert_eq. destruct Hsw as [? ?]; try done.
    intros (sk0 & fp0 & ? & ? & [w Hw]). by simplify_eq.
  - left. eexists; split; [reflexivity |]. unfold st1. cbn [put_sock set_heap socks heap cloning sk_fp omem_alloc others].
    pose proof (inv_account _ _ H _ _ Hs) as Ha. unfold account_ok in Ha. rewrite Eold in Ha. rewrite Ha, lookup_insert_eq.
    destruct Hsw as [? ?]; try done. intros (sk0 & fp0 & ? & ? & _). congruence.
Qed.

Lemma sk_chk_filter_returns l :
  exists r, sk_chk_filter l (Z.of_nat (length l)) = Ret r.
Proof.
  unfold sk_chk_filter.
  destruct (Z.eqb_spec (Z.of_nat (length l)) 0); [simpl; eauto |].
  destruct (Z.gtb_spec (Z.of_nat (length l)) BPF_MAXINSNS); [simpl; eauto |]. simpl.
  assert (forall n pc, 0 <= pc -> pc + Z.of_nat n <= Z.of_nat (length l) ->
    exists b, chk_loop n l (Z.of_nat (length l)) pc = Ret b) as Hloop.
  { intros m. induction m as [|m IH]; intros pc H1 H2; simpl; [eauto |].
    unfold insn_at. zbool. destruct (lookup_lt_is_Some_2 l (Z.to_nat pc)) as [i ->]; [lia |].
    simpl. case_match; [apply IH; lia | eauto]. }
  destruct (Hloop (Z.to_nat (Z.of_nat (length l))) 0) as [b ->]; [lia | lia |]. simpl.
  destruct b; [| eauto]. unfold insn_at. zbool.
  destruct (lookup_lt_is_Some_2 l (Z.to_nat (Z.of_nat (length l) - 1))) as [i ->]; [lia |]. simpl. eauto.
Qed.

(** A filter that is rejected leaves no trace. *)
Lemma uncharge_new st st1 s sk fp f :
  st1 = put_sock s (Sock (sk_fp sk) (omem_alloc sk + sk_filter_len f) (others sk)) st ->
  socks st !! s = Some sk -> heap st !! fp = None -> refcnt f = 1 ->
  sk_filter_uncharge s fp (set_heap (<[fp := f]> (heap st1)) st1) = Ret st.
Proof.
  intros -> Hs Hn Hr. unfold sk_filter_uncharge. cbn [set_heap heap]. rewrite lookup_insert_eq. cbn [of_option].
  rewrite run_bind_Ret. erewrite add_omem_Ret by apply lookup_insert_eq. rewrite run_bind_Ret.
  erewrite release_eq by apply lookup_insert_eq. unfold released, put_sock, set_heap.
  cbn [socks heap cloning rcu sk_fp omem_alloc others]. rewrite Hr. cbn [Z.sub Z.opp Z.add Z.pos_sub Z.eqb].
  rewrite delete_insert_id by done. rewrite insert_insert_eq, sock_eta, insert_id by done. by destruct st.
Qed.

(** A successful attach publishes exactly the program read from user space, and
    it is admitted; a failed one changes nothing. *)
Lemma sk_attach_filter_ok st s sk req :
  inv None st -> clones_ok st -> socks st !! s = Some sk -> request_ok st req ->
  (exists r st', sk_attach_filter s req st = Ret (r, st') /\ inv None st' /\ clones_ok st' /\
     (r = 0 -> exists fp f, heap st' !! fp = Some f /\ user_insns req = Some (insns f) /\ admitted (insns f) /\
        socks st' = <[s := Sock (Some fp) (others sk + sk_filter_len f) (others sk)]> (socks st)) /\
     (r <> 0 -> st' = st)) \/
  (sk_attach_filter s req st = Err FRcu /\ collision st s).
Proof.
  intros H Hcl Hs (Hlen & Hfresh & Huser). unfold sk_attach_filter.
  assert (forall e, e <> 0 -> exists r st', Ret (E:=fault) (e, st) = Ret (r, st') /\ inv None st' /\ clones_ok st' /\
     (r = 0 -> exists fp f, heap st' !! fp = Some f /\ user_insns req = Some (insns f) /\ admitted (insns f) /\
        socks st' = <[s := Sock (Some fp) (others sk + sk_filter_len f) (others sk)]> (socks st)) /\
     (r <> 0 -> st' = st)) as Hsame by (intros e He; exists e, st; auto with lia).
  destruct (user_filter_null req); [left; by apply Hsame |].
  set (size := s32 (u32 (sizeof_sock_filter * user_len req) + sizeof_sk_filter)).
  assert (Hsize : size = user_len req * 8 + 24).
  { unfold size, sizeof_sock_filter, sizeof_sk_filter. rewrite uwrap_small, swrap_small; lia. }
  unfold sock_kmalloc. rewrite (get_sock_Ret _ _ _ Hs), run_bind_Ret.
  destruct ((u32 size <=? sysctl_optmem_max) && _); [| left; by apply Hsame].
  rewrite (add_omem_Ret _ _ _ _ Hs), run_bind_Ret. destruct (kmalloc req) as [fp|].
  2: { rewrite (add_omem_Ret _ _ _ _ (put_lookup s _ _)), !run_bind_Ret, put_put. cbn [sk_fp omem_alloc others].
       rewrite sock_eta, put_same by done. left. by apply Hsame. }
  specialize (Hfresh fp eq_refl). rewrite run_bind_Ret. destruct (user_insns req) as [l|].
  2: { unfold sock_kfree_s. erewrite add_omem_Ret by apply lookup_insert_eq. rewrite run_bind_Ret.
       unfold put_sock, set_heap. cbn [socks heap cloning rcu sk_fp omem_alloc others].
       rewrite insert_insert_eq, sock_eta, insert_id, delete_id by done.
       left. destruct st. by apply Hsame. }
  destruct (Huser l eq_refl) as [Hl Hwf]. rewrite (swrap_small 32) by lia.
  destruct (sk_chk_filter_returns l) as [r Hchk]. rewrite Hl in Hchk. rewrite Hchk, run_bind_Ret.
  assert (Hfl : sk_filter_len (SkFilter 1 (user_len req) l) = size).
  { unfold sk_filter_len, sizeof_sock_filter, sizeof_sk_filter. simpl. rewrite uwrap_small; lia. }
  rewrite <- Hfl. destruct (Z.eqb_spec r 0) as [->|Hr]; cbn [negb].
  2: { erewrite uncharge_new by done. left. by apply Hsame. }
  assert (filter_ok (SkFilter 1 (user_len req) l)) as Hfok by (split; [done |]; split; [done | cbn; by rewrite Hl]).
  erewrite get_sock_Ret by apply lookup_insert_eq. rewrite run_bind_Ret.
  erewrite set_filter_Ret by apply lookup_insert_eq. rewrite run_bind_Ret. cbn [sk_fp omem_alloc others].
  destruct (publish_ok st s sk fp (SkFilter 1 (user_len req) l) H Hcl Hs Hfresh eq_refl Hfok)
    as [(st' & E & ? & ? & Hh & Hsk) | [E Hcol]];
    revert E; unfold put_sock, set_heap; cbn [socks heap cloning rcu]; rewrite insert_insert_eq;
    (destruct (sk_fp sk) as [old|]; intros E; [rewrite E | injection E as <- || discriminate E]).
  3: { by right. }
  all: left; do 2 eexists; split; [reflexivity |]; split; [done |]; split; [done |]; split; [intros _ | done].
  all: exists fp, (SkFilter 1 (user_len req) l); by destruct Hfok.
Qed.

Lemma __sk_free_ok st s sk :
  inv None st -> clones_ok st -> socks st !! s = Some sk ->
  (forall c p fp, cloning st !! c = Some (p, fp) -> p <> s) ->
  exists st', __sk_free s st = Ret st' /\ inv None st' /\ clones_ok st'.
Proof.
  intros H Hcl Hs Hp. unfold __sk_free. rewrite (get_sock_Ret _ _ _ Hs), run_bind_Ret.
  set (st0 := Net (delete s (socks st)) (heap st) (cloning st) (rcu st)).
  assert (inv (sk_fp sk) st0) as H0.
  { apply (change_inv (sk_fp sk) st s None (heap st) (cloning st) (rcu st)); try done; [| by eauto | apply H |].
    - intros a. rewrite Hs. unfold has, held. rewrite (decide_False (P := None ≫= _ = _)) by done. cbn [mbind option_bind]. lia.
    - intros c Hc. destruct (decide (s = c)) as [->|Hne]; [apply lookup_partial_alter_eq |].
      rewrite lookup_partial_alter_ne by done. by apply (inv_fresh _ _ H). }
  assert (forall h, clones_ok (set_heap h st0)) as Hcl0.
  { intros h c p fp Hc. specialize (Hp _ _ _ Hc). destruct (Hcl c p fp Hc) as [(skp & ? & ?)|?]; [left | by right].
    exists skp. cbn. by rewrite lookup_delete_ne. }
  destruct (sk_fp sk) as [fp|] eqn:Efp.
  - destruct (published st s sk fp H Hs Efp) as (f & Hf & Ho).
    unfold sk_filter_uncharge. rewrite Hf. cbn [of_option]. rewrite run_bind_Ret, (add_omem_Ret _ _ _ _ Hs), run_bind_Ret.
    erewrite release_eq by exact Hf. rewrite run_bind_Ret. erewrite set_filter_Ret by apply lookup_insert_eq.
    rewrite run_bind_Ret.
    eexists. split; [reflexivity |]. cbn [put_sock set_heap socks heap cloning rcu]. rewrite insert_insert_eq, delete_insert_eq.
    split; [by apply (released_inv fp f st0) | apply Hcl0].
  - rewrite run_bind_Ret. eexists. split; [reflexivity |]. split; [done | apply (Hcl0 (heap st))].
Qed.

(** A new socket without a filter, or the account of the other options. *)
Lemma plain_ok st s sk :
  inv None st -> clones_ok st -> cloning st !! s = None -> account_ok (heap st) sk ->
  (forall a, has (Some sk) a = has (socks st !! s) a) ->
  inv None (put_sock s sk st) /\ clones_ok (put_sock s sk st).
Proof.
  intros H Hcl Hn Hacc Hh. split.
  - apply (change_inv None st s (Some sk) (heap st) (cloning st) (rcu st)); try done;
      [by intros ? [= <-] | | by eauto | apply H |].
    + intros a. rewrite Hh. unfold held. rewrite decide_False by done. lia.
    + intros c Hc. rewrite lookup_partial_alter_ne by (intros ->; rewrite Hn in Hc; by destruct Hc). by apply (inv_fresh _ _ H).
  - intros c p fp Hc. destruct (Hcl c p fp Hc) as [(skp & Hp & Efp)|?]; [left | by right]. cbn [put_sock socks].
    destruct (decide (s = p)) as [<-|Hne]; [| exists skp; by rewrite lookup_insert_ne].
    rewrite lookup_insert_eq. exists sk. split; [done |].
    destruct (has_some (Some sk) fp) as (? & [= <-] & ?); [| done].
    rewrite Hh, Hp. unfold has. cbn [mbind option_bind]. by rewrite decide_True.
Qed.

Lemma sk_clone_copy_ok st s sk newsk :
  inv None st -> clones_ok st -> socks st !! s = Some sk -> fresh st newsk ->
  exists st', sk_clone_copy s newsk st = Ret st' /\ inv None st' /\ clones_ok st'.
Proof.
  intros H Hcl Hs [Hn1 Hn2]. unfold sk_clone_copy. rewrite (get_sock_Ret _ _ _ Hs), run_bind_Ret. eexists. split; [reflexivity |].
  destruct (sk_fp sk) as [fp|] eqn:Efp; [| apply plain_ok; try done; intros a; unfold has; by rewrite Hn1, !decide_False].
  split.
  - destruct H as [Ha Hc Hf Hfr]. constructor; [exact Ha | exact Hc | exact Hf |]. intros c. cbn [cloning socks].
    intros [<-|Hc']%lookup_insert_is_Some'; [done | by apply Hfr].
  - intros c p fp'. cbn [cloning]. intros [[<- [= <- <-]]|[_ Hc]]%lookup_insert_Some; [left; by exists sk | by apply (Hcl c)].
Qed.

(** The filter a clone has copied is there. *)
Lemma clone_live st c p fp : inv None st -> clones_ok st -> cloning st !! c = Some (p, fp) -> exists f, heap st !! fp = Some f.
Proof.
  intros H Hcl Hc. apply (counted_there None st fp H). unfold pending, held. rewrite (decide_False (P := None = _)) by done.
  destruct (Hcl c p fp Hc) as [(sk & Hp & Efp)|(w & Hw & _)].
  - pose proof (holders_has (socks st) p fp) as Hh. rewrite Hp in Hh. unfold has in Hh. cbn [mbind option_bind] in Hh.
    rewrite decide_True in Hh by done. case_decide; lia.
  - rewrite decide_True by (by eexists). unfold holders. lia.
Qed.

Lemma sk_clone_charge_ok st c p fp :
  inv None st -> clones_ok st -> cloning st !! c = Some (p, fp) ->
  exists st' f, sk_clone_charge c st = Ret st' /\ inv None st' /\ clones_ok st' /\ heap st !! fp = Some f /\
    heap st' !! fp = Some (SkFilter (refcnt f + 1) (flen f) (insns f)).
Proof.
  intros H Hcl Hc. destruct (clone_live st c p fp H Hcl Hc) as [f Hf]. pose proof (inv_fresh _ _ H c ltac:(by eexists)) as Hn.
  unfold sk_clone_charge, sk_filter_charge. rewrite Hc. cbn [of_option]. rewrite run_bind_Ret. cbn [put_sock heap].
  rewrite Hf. cbn [of_option]. rewrite run_bind_Ret. erewrite add_omem_Ret by apply lookup_insert_eq. rewrite run_bind_Ret.
  eexists _, f. split; [reflexivity |]. unfold put_sock, set_heap. cbn [socks heap cloning rcu sk_fp omem_alloc others].
  rewrite insert_insert_eq. split; [| split; [| by rewrite lookup_insert_eq]].
  - apply (change_inv None st c (Some (Sock (Some fp) (0 + sk_filter_len f) 0))); [done | | | | | |].
    + intros ? [= <-]. eexists. rewrite lookup_insert_eq. done.
    + intros a. rewrite Hn. unfold count_at, has, held. cbn [mbind option_bind sk_fp].
      rewrite !(decide_False (P := None = _)) by done. destruct (decide (fp = a)) as [<-|Hne].
      * rewrite lookup_insert_eq, Hf, decide_True by done. cbn. lia.
      * rewrite lookup_insert_ne by done. rewrite decide_False by congruence. lia.
    + intros a g Hg. destruct (decide (fp = a)) as [<-|Hne]; [rewrite lookup_insert_eq | rewrite lookup_insert_ne by done; eauto].
      simplify_eq. eauto.
    + intros a g [[<- <-]|[_ Hg]]%lookup_insert_Some; [| by apply (inv_filter _ _ H a)].
      destruct (inv_filter _ _ H _ _ Hf). split; [cbn; lia | done].
    + intros a. rewrite lookup_fmap, fmap_is_Some. done.
    + intros c'. rewrite lookup_delete_is_Some. intros [Hne Hc']. rewrite lookup_partial_alter_ne by done.
      by apply (inv_fresh _ _ H).
  - intros c' p' fp'. cbn [socks cloning rcu]. intros [Hne Hc']%lookup_delete_Some.
    destruct (Hcl c' p' fp' Hc') as [(skp & Hp & Efp)|(w & Hw & Hin)].
    + left. exists skp. rewrite lookup_insert_ne; [done | congruence].
    + right. exists (w ∖ {[c]}). rewrite lookup_fmap, Hw. split; [done | set_solver].
Qed.

Lemma sk_filter_rcu_release_ok st fp :
  inv None st -> clones_ok st -> rcu st !! fp = Some ∅ ->
  exists st', sk_filter_rcu_release fp st = Ret st' /\ inv None st' /\ clones_ok st'.
Proof.
  intros H Hcl Hr. unfold sk_filter_rcu_release. set (st1 := Net _ _ _ _).
  assert (inv (Some fp) st1) as H1.
  { destruct H as [Ha Hc Hf Hfr]. constructor; [exact Ha | | exact Hf | exact Hfr]. intros a. cbn [heap socks st1].
    rewrite Hc. unfold pending, held. cbn [rcu st1]. rewrite (decide_False (P := None = _)) by done.
    destruct (decide (fp = a)) as [<-|Hne].
    - rewrite Hr, lookup_delete_eq, (decide_False (P := is_Some None)) by (by intros []).
      rewrite !decide_True by (done || by eexists). lia.
    - rewrite lookup_delete_ne by done. rewrite (decide_False (P := Some fp = _)) by congruence. lia. }
  destruct (counted_there _ _ fp H1) as [f Hf].
  { unfold held. rewrite decide_True by done. unfold holders, pending. case_decide; lia. }
  rewrite (release_eq _ _ _ Hf). eexists. split; [reflexivity |]. split; [by apply released_inv |].
  intros c p a Hc. destruct (Hcl c p a Hc) as [?|(w & Hw & Hin)]; [by left | right]. exists w. cbn.
  rewrite lookup_delete_ne; [done |]. intros ->. rewrite Hr in Hw. injection Hw as <-. set_solver.
Qed.

Lemma perform_ok st e :
  inv None st -> clones_ok st -> event_ok st e ->
  (exists st', perform st e = Ret st' /\ inv None st' /\ clones_ok st') \/
  (perform st e = Err FRcu /\ exists s, (e = EvDetach s \/ exists req, e = EvAttach s req) /\ collision st s).
Proof.
  intros H Hcl He. destruct e as [s|s n|s req|s|s|s newsk|newsk|fp]; cbn [event_ok perform] in *.
  - left. eexists. split; [reflexivity |]. destruct He as [He1 He2]. apply plain_ok; try done.
    intros a. unfold has. by rewrite He1, !decide_False.
  - destruct He as [sk Hs]. left. rewrite (get_sock_Ret _ _ _ Hs), run_bind_Ret. eexists. split; [reflexivity |].
    apply plain_ok; [done | done | | | intros a; unfold has; by rewrite Hs].
    + apply eq_None_not_Some. intros Hc. rewrite (inv_fresh _ _ H s Hc) in Hs. done.
    + pose proof (inv_account _ _ H _ _ Hs) as Ha. unfold account_ok in *. cbn [sk_fp omem_alloc others].
      destruct (sk_fp sk); [| lia]. destruct Ha as (f & ? & ?). exists f. split; [done | lia].
  - destruct He as [[sk Hs] Hreq].
    destruct (sk_attach_filter_ok st s sk req H Hcl Hs Hreq) as [(r & st' & -> & ? & ? & _)|[-> ?]]; [left; by eexists | right].
    split; [done |]. eauto.
  - destruct He as [sk Hs].
    destruct (sk_detach_filter_ok st s sk H Hcl Hs) as [(r & st' & -> & ? & ? & _)|[-> ?]]; [left; by eexists | right].
    split; [done |]. eauto.
  - destruct He as [[sk Hs] Hp]. left. by apply (__sk_free_ok st s sk).
  - destruct He as [[sk Hs] Hn]. left. by apply (sk_clone_copy_ok st s sk).
  - destruct He as [[p fp] Hc]. left. destruct (sk_clone_charge_ok st newsk p fp H Hcl Hc) as (st' & f & ? & ? & ? & _). eauto.
  - left. by apply sk_filter_rcu_release_ok.
Qed.

Lemma reachable_inv st : rtc net_step no_sockets st -> inv None st /\ clones_ok st.
Proof.
  apply (rtc_ind_r (fun s => inv None s /\ clones_ok s)).
  - split; [| intros c p fp; cbn [no_sockets cloning]; by rewrite lookup_empty].
    constructor; cbn [no_sockets socks heap cloning rcu]; try (intros ? ?; by rewrite lookup_empty).
    intros a. unfold count_at, holders, pending, held. cbn [no_sockets rcu].
    rewrite !lookup_empty, map_filter_empty, map_size_empty.
    rewrite !decide_False by (done || by intros []). done.
  - intros s s' _ Hs [H Hcl]. destruct Hs as [st0 e st' He Hp].
    destruct (perform_ok st0 e H Hcl He) as [(st1 & E & ? & ?)|[E _]]; rewrite Hp in E; by simplify_eq.
Qed.

(** C33: in every state that any number of sockets reach by attaching and detaching filters, by cloning and freeing
    sockets, by other options and by RCU callbacks in any order, the reference count of every live filter is the number
    of sockets that have it and of callbacks that wait to release it, and a filter without either is freed; a published
    filter is one the checker has admitted; the memory account of each socket exceeds what its other options hold by
    exactly the size of its filter; a clone that has copied the pointer finds the filter still there.  The next
    operation, whatever it is, does not touch freed memory, and goes wrong in one case only: the socket lets go of a
    filter that another socket has let go of in the same grace period, so that one rcu_head is queued twice. *)
Theorem socket_filter_invariant st e :
  rtc net_step no_sockets st -> event_ok st e ->
  (forall a f, heap st !! a = Some f -> refcnt f = holders (socks st) a + pending st a /\ 1 <= refcnt f) /\
  (forall a, heap st !! a = None -> holders (socks st) a = 0 /\ pending st a = 0) /\
  (forall s sk, socks st !! s = Some sk ->
     match sk_fp sk with
     | Some fp => exists f, heap st !! fp = Some f /\ flen f = Z.of_nat (length (insns f)) /\ admitted (insns f) /\
         omem_alloc sk = others sk + sk_filter_len f
     | None => omem_alloc sk = others sk
     end) /\
  (forall c p fp, cloning st !! c = Some (p, fp) -> exists f, heap st !! fp = Some f) /\
  ((exists st', perform st e = Ret st') \/
   perform st e = Err FRcu /\ exists s, (e = EvDetach s \/ exists req, e = EvAttach s req) /\ collision st s).
Proof.
  intros Hr He. destruct (reachable_inv st Hr) as [H Hcl]. split_and!.
  - intros a f Hf. pose proof (inv_count _ _ H a) as Hc. unfold count_at, held in Hc. rewrite Hf, decide_False in Hc by done.
    cbn in Hc. destruct (inv_filter _ _ H a f Hf). lia.
  - intros a Hn. pose proof (inv_count _ _ H a) as Hc. unfold count_at, held in Hc.
    rewrite Hn, decide_False in Hc by done. cbn in Hc.
    revert Hc. unfold holders, pending. case_decide; lia.
  - intros s sk Hs. pose proof (inv_account _ _ H _ _ Hs) as Ha. unfold account_ok in Ha. destruct (sk_fp sk); [| done].
    destruct Ha as (f & Hf & Ho). destruct (inv_filter _ _ H _ _ Hf) as (_ & ? & ?). by exists f.
  - intros c p fp Hc. by eapply clone_live.
  - destruct (perform_ok st e H Hcl He) as [(st' & ? & _)|?]; [left; by exists st' | by right].
Qed.

(** every attach publishes the program it read or changes nothing, and a filter that is attached and then detached
    leaves the account as it was. *)
Theorem attach_all_or_nothing st s sk req :
  inv None st -> clones_ok st -> socks st !! s = Some sk -> request_ok st req -> ~ collision st s ->
  exists r st', sk_attach_filter s req st = Ret (r, st') /\
    (if r =? 0 then
       (exists fp f, heap st' !! fp = Some f /\ user_insns req = Some (insns f) /\ admitted (insns f) /\
          socks st' !! s = Some (Sock (Some fp) (others sk + sk_filter_len f) (others sk))) /\
       (collision st' s \/ exists st'', sk_detach_filter s st' = Ret (0, st'') /\
          socks st'' !! s = Some (Sock None (others sk) (others sk)))
     else st' = st).
Proof.
  intros H Hcl Hs Hreq Hno.
  destruct (sk_attach_filter_ok st s sk req H Hcl Hs Hreq) as [(r & st' & E & H' & Hcl' & H0 & H1)|[_ ?]]; [| done].
  exists r, st'. split; [done |]. destruct (Z.eqb_spec r 0) as [E0|E0]; [| by apply H1].
  destruct (H0 E0) as (fp & f & Hf & Hu & Ha & Hsk).
  assert (socks st' !! s = Some (Sock (Some fp) (others sk + sk_filter_len f) (others sk))) as Hs'
    by (rewrite Hsk; apply lookup_insert_eq).
  split; [by exists fp, f |].
  destruct (sk_detach_filter_ok st' s _ H' Hcl' Hs') as [(r2 & s2 & Hd & _ & _ & -> & Hs2)|[_ ?]]; [right | by left]. eauto.
Qed.
End attach.

(** ** Examples *)

Definition example_request : request := Request false 7 (Some 100) (Some http_filter).

(** A socket with the filter at 100. *)
Definition one_socket : net := Net {[1 := Sock (Some 100) 80 0]} {[100 := SkFilter 1 7 http_filter]} ∅ ∅.

(** The same and a clone of it. *)
Definition two_sockets : net :=
  Net {[2 := Sock (Some 100) 80 0; 1 := Sock (Some 100) 80 0]} {[100 := SkFilter 2 7 http_filter]} ∅ ∅.

Lemma one_socket_reachable : rtc (net_step 20480) no_sockets one_socket.
Proof.
  eapply rtc_l; [apply (net_step_intro _ _ (EvAlloc 1)); [by split | reflexivity] |]. apply rtc_once.
  apply (net_step_intro _ _ (EvAttach 1 example_request)); [| by vm_compute].
  split; [by eexists |]. split; [cbn; lia |]. split; intros ? [= <-]; [done |].
  split; [reflexivity | apply http_filter_admitted].
Qed.

Lemma two_sockets_reachable : rtc (net_step 20480) no_sockets two_sockets.
Proof.
  eapply rtc_r; [eapply rtc_r; [apply one_socket_reachable |] |].
  - apply (net_step_intro _ _ (EvClone 1 2)); [split; [by eexists | by split] | reflexivity].
  - apply (net_step_intro _ _ (EvCharge 2)); [by eexists | by vm_compute].
Qed.

Lemma socket_filter_invariant_witness :
  exists f, heap two_sockets !! 100 = Some f /\ refcnt f = holders (socks two_sockets) 100 + pending two_sockets 100 /\
    holders (socks two_sockets) 100 = 2 /\
    exists st', perform 20480 two_sockets (EvDetach 1) = Ret st'.
Proof.
  destruct (socket_filter_invariant 20480 two_sockets (EvDetach 1) two_sockets_reachable ltac:(by eexists))
    as (Hc & _ & _ & _ & Hn).
  eexists. split; [reflexivity |]. split; [by apply (Hc 100) |]. split; [by vm_compute |].
  destruct Hn as [Hn|(_ & s & [[= <-]|[? [=]]] & sk & fp & [= <-] & [= <-] & [w Hw])]; [exact Hn | discriminate Hw].
Defined.

(** Sharing breaks the delayed release: a socket and its clone that both detach the filter they share within one grace
    period queue its rcu_head twice. *)
Theorem shared_filter_queued_twice :
  exists st, rtc (net_step 20480) no_sockets st /\ event_ok st (EvDetach 2) /\ perform 20480 st (EvDetach 2) = Err FRcu.
Proof.
  eexists. split; [| split].
  - eapply rtc_r; [apply two_sockets_reachable |]. apply (net_step_intro _ _ (EvDetach 1));
      [by eexists | vm_compute; reflexivity].
  - by eexists.
  - by vm_compute.
Qed.
End Attach.
