(* ===== verification/Bitops.v ===== *)
(** * Bit operations on words and bit search (arch/mips/include/asm/bitops.h,
      lib/hweight.c, lib/find_next_bit.c, lib/find_last_bit.c)

    An [unsigned long] is a [Z] in [0, 2^64); an array of them is a list, and a
    pointer that walks over an array is the rest of the list ([None]: a read
    behind its end).  An array of words stands for one number, [bm_val], whose
    binary digits are the bitmap's bits; the searches are shown to find the
    first or last set or clear bit of that number, and the word operations
    built from shifts and masks to be the logarithm and the population count. *)

From S2P Require Import Prelude.

Module Bitops.

Definition BITS_PER_LONG : Z := 64.

(** [~0UL], [~x] and [x << n] on unsigned longs. *)
Definition ULONG_MAX : Z := 2 ^ 64 - 1.
Definition ul_not (x : Z) : Z := u64 (Z.lnot x).
Definition ul_shl (x n : Z) : Z := u64 (x .<< n).

(** ** Words *)

(** The instruction dclz: leading zeros of a doubleword. *)
Definition dclz (x : Z) : Z := if x =? 0 then 64 else 63 - Z.log2 x.

(** [__fls] on a CPU with dclz, and the code for the others; one halving step
    of the latter is [fls_step]. *)
Definition __fls (word : Z) : Z := 63 - dclz word.

Definition fls_step (s : Z) (nw : Z * Z) : Z * Z :=
  let '(num, word) := nw in
  if word .& ul_shl ULONG_MAX (BITS_PER_LONG - s) =? 0
  then (num - s, ul_shl word s) else (num, word).

Definition __fls_generic (word : Z) : Z :=
  let nw := (BITS_PER_LONG - 1, word) in
  let nw := fls_step 32 nw in
  let nw := fls_step 16 nw in
  let nw := fls_step 8 nw in
  let nw := fls_step 4 nw in
  let nw := fls_step 2 nw in
  let '(num, word) := nw in
  if word .& ul_shl ULONG_MAX (BITS_PER_LONG - 1) =? 0 then num - 1 else num.

Definition __ffs (word : Z) : Z := __fls (word .& u64 (- word)).
Abbreviation ffz word := (__ffs (ul_not word)) (only parsing).

(** [fls]: the argument is an [int], of which only the bits matter. *)
Definition clz (x : Z) : Z := if x =? 0 then 32 else 31 - Z.log2 x.
Definition fls (x : Z) : Z := 32 - clz (u32 x).

Definition fls_halve (m s : Z) (xr : Z * Z) : Z * Z :=
  let '(x, r) := xr in if x .& m =? 0 then (u32 (x .<< s), r - s) else (x, r).

Definition fls_generic (x : Z) : Z :=
  let x := u32 x in
  if x =? 0 then 0
  else
    let xr := fls_halve 0xffff0000 16 (x, 32) in
    let xr := fls_halve 0xff000000 8 xr in
    let xr := fls_halve 0xf0000000 4 xr in
    let xr := fls_halve 0xc0000000 2 xr in
    let xr := fls_halve 0x80000000 1 xr in
    snd xr.

(** [ext2_swab], [ext2_swabp]: the bytes of a word in the other order, as
    [___constant_swab64] of include/linux/swab.h spells it. *)
Definition ext2_swab (x : Z) : Z :=
  u64 ((x .& 0x00000000000000ff) .<< 56)
  .| u64 ((x .& 0x000000000000ff00) .<< 40)
  .| u64 ((x .& 0x0000000000ff0000) .<< 24)
  .| u64 ((x .& 0x00000000ff000000) .<< 8)
  .| ((x .& 0x000000ff00000000) .>> 8)
  .| ((x .& 0x0000ff0000000000) .>> 24)
  .| ((x .& 0x00ff000000000000) .>> 40)
  .| ((x .& 0xff00000000000000) .>> 56).

(** ** Searches *)

Section search.
Context (size_mask := Z.lnot (BITS_PER_LONG - 1)).

Definition found_middle (result tmp : Z) : option Z := Some (result + __ffs tmp).

Definition found_first (result size tmp : Z) : option Z :=
  let tmp := tmp .& (ULONG_MAX .>> (BITS_PER_LONG - size)) in
  if tmp =? 0 then Some (result + size) else found_middle result tmp.

(** The [while] loop over whole words and what follows it. *)
Fixpoint find_next_loop (p : list Z) (result size : Z) : option Z :=
  if negb (size .& size_mask =? 0) then
    match p with
    | [] => None
    | tmp :: p =>
        if negb (tmp =? 0) then found_middle result tmp
        else find_next_loop p (result + BITS_PER_LONG) (size - BITS_PER_LONG)
    end
  else if size =? 0 then Some result
  else match p with [] => None | tmp :: _ => found_first result size tmp end.

Definition find_next_bit (addr : list Z) (size offset : Z) : option Z :=
  let p := drop (Z.to_nat (offset / BITS_PER_LONG)) addr in
  let result := offset .& size_mask in
  if offset >=? size then Some size
  else
    let size := size - result in
    let offset := offset mod BITS_PER_LONG in
    if negb (offset =? 0) then
      match p with
      | [] => None
      | tmp :: p =>
          let tmp := tmp .& ul_shl ULONG_MAX offset in
          if size <? BITS_PER_LONG then found_first result size tmp
          else if negb (tmp =? 0) then found_middle result tmp
          else find_next_loop p (result + BITS_PER_LONG) (size - BITS_PER_LONG)
      end
    else find_next_loop p result size.

Abbreviation found_middle_zero result tmp := (Some (result + ffz tmp)) (only parsing).

Definition found_first_zero (result size tmp : Z) : option Z :=
  let tmp := tmp .| ul_shl ULONG_MAX size in
  if tmp =? ULONG_MAX then Some (result + size) else found_middle_zero result tmp.

Fixpoint find_next_zero_loop (p : list Z) (result size : Z) : option Z :=
  if negb (size .& size_mask =? 0) then
    match p with
    | [] => None
    | tmp :: p =>
        if negb (ul_not tmp =? 0) then found_middle_zero result tmp
        else find_next_zero_loop p (result + BITS_PER_LONG) (size - BITS_PER_LONG)
    end
  else if size =? 0 then Some result
  else match p with [] => None | tmp :: _ => found_first_zero result size tmp end.

Definition find_next_zero_bit (addr : list Z) (size offset : Z) : option Z :=
  let p := drop (Z.to_nat (offset / BITS_PER_LONG)) addr in
  let result := offset .& size_mask in
  if offset >=? size then Some size
  else
    let size := size - result in
    let offset := offset mod BITS_PER_LONG in
    if negb (offset =? 0) then
      match p with
      | [] => None
      | tmp :: p =>
          let tmp := tmp .| (ULONG_MAX .>> (BITS_PER_LONG - offset)) in
          if size <? BITS_PER_LONG then found_first_zero result size tmp
          else if negb (ul_not tmp =? 0) then found_middle_zero result tmp
          else find_next_zero_loop p (result + BITS_PER_LONG) (size - BITS_PER_LONG)
      end
    else find_next_zero_loop p result size.

(** [find_first_bit] is the loop alone. *)
Definition find_first_bit (addr : list Z) (size : Z) : option Z := find_next_loop addr 0 size.
Definition find_first_zero_bit (addr : list Z) (size : Z) : option Z := find_next_zero_loop addr 0 size.

(** The searches of little-endian bitmaps on a big-endian machine: the loops
    test a word as it lies in memory and swap it only when they stop at it. *)
Fixpoint find_next_le_loop (p : list Z) (result size : Z) : option Z :=
  if negb (size .& size_mask =? 0) then
    match p with
    | [] => None
    | tmp :: p =>
        if negb (tmp =? 0) then found_middle result (ext2_swab tmp)
        else find_next_le_loop p (result + BITS_PER_LONG) (size - BITS_PER_LONG)
    end
  else if size =? 0 then Some result
  else match p with [] => None | tmp :: _ => found_first result size (ext2_swab tmp) end.

Definition generic_find_next_le_bit (addr : list Z) (size offset : Z) : option Z :=
  let p := drop (Z.to_nat (offset / BITS_PER_LONG)) addr in
  let result := offset .& size_mask in
  if offset >=? size then Some size
  else
    let size := size - result in
    let offset := offset .& (BITS_PER_LONG - 1) in
    if negb (offset =? 0) then
      match p with
      | [] => None
      | tmp :: p =>
          let tmp := ext2_swab tmp .& ul_shl ULONG_MAX offset in
          if size <? BITS_PER_LONG then found_first result size tmp
          else if negb (tmp =? 0) then found_middle result tmp
          else find_next_le_loop p (result + BITS_PER_LONG) (size - BITS_PER_LONG)
      end
    else find_next_le_loop p result size.

Fixpoint find_next_zero_le_loop (p : list Z) (result size : Z) : option Z :=
  if negb (size .& size_mask =? 0) then
    match p with
    | [] => None
    | tmp :: p =>
        if negb (ul_not tmp =? 0) then found_middle_zero result (ext2_swab tmp)
        else find_next_zero_le_loop p (result + BITS_PER_LONG) (size - BITS_PER_LONG)
    end
  else if size =? 0 then Some result
  else match p with [] => None | tmp :: _ => found_first_zero result size (ext2_swab tmp) end.

Definition generic_find_next_zero_le_bit (addr : list Z) (size offset : Z) : option Z :=
  let p := drop (Z.to_nat (offset / BITS_PER_LONG)) addr in
  let result := offset .& size_mask in
  if offset >=? size then Some size
  else
    let size := size - result in
    let offset := offset .& (BITS_PER_LONG - 1) in
    if negb (offset =? 0) then
      match p with
      | [] => None
      | tmp :: p =>
          let tmp := ext2_swab tmp .| (ULONG_MAX .>> (BITS_PER_LONG - offset)) in
          if size <? BITS_PER_LONG then found_first_zero result size tmp
          else if negb (ul_not tmp =? 0) then found_middle_zero result tmp
          else find_next_zero_le_loop p (result + BITS_PER_LONG) (size - BITS_PER_LONG)
      end
    else find_next_zero_le_loop p result size.

(** [while (words) { tmp = addr[--words]; if (tmp) return ...; }]: [words]
    counts down. *)
Fixpoint find_last_loop (addr : list Z) (size : Z) (words : nat) : option Z :=
  match words with
  | O => Some size
  | S words =>
      tmp ← addr !! words;
      if negb (tmp =? 0) then Some (Z.of_nat words * BITS_PER_LONG + __fls tmp)
      else find_last_loop addr size words
  end.

Definition find_last_bit (addr : list Z) (size : Z) : option Z :=
  let words := size / BITS_PER_LONG in
  let partial := size .& (BITS_PER_LONG - 1) in
  if negb (partial =? 0) then
    tmp ← addr !! Z.to_nat words;
    let tmp := tmp .& (ULONG_MAX .>> (BITS_PER_LONG - partial)) in
    if negb (tmp =? 0) then Some (words * BITS_PER_LONG + __fls tmp)
    else find_last_loop addr size (Z.to_nat words)
  else find_last_loop addr size (Z.to_nat words).
End search.

(** ** Bits of words *)

Definition is_ulong (w : Z) : Prop := 0 <= w < 2 ^ 64.

Lemma u64_testbit x i : 0 <= i -> Z.testbit (u64 x) i = (i <? 64) && Z.testbit x i.
Proof.
  intros Hi. unfold uwrap. destruct (Z.ltb_spec i 64).
  - by rewrite Z.mod_pow2_bits_low by lia.
  - by rewrite Z.mod_pow2_bits_high by lia.
Qed.

Lemma ULONG_MAX_testbit i : 0 <= i -> Z.testbit ULONG_MAX i = (i <? 64).
Proof.
  intros Hi. unfold ULONG_MAX. replace (2 ^ 64 - 1) with (Z.ones 64) by reflexivity.
  by apply Z.testbit_ones_nonneg.
Qed.

Lemma ul_not_testbit x i : 0 <= i -> Z.testbit (ul_not x) i = (i <? 64) && negb (Z.testbit x i).
Proof. intros Hi. unfold ul_not. rewrite u64_testbit, Z.lnot_spec; auto. Qed.

Lemma ul_shl_max_testbit n i :
  0 <= n -> 0 <= i -> Z.testbit (ul_shl ULONG_MAX n) i = (n <=? i) && (i <? 64).
Proof.
  intros Hn Hi. unfold ul_shl. rewrite u64_testbit by done. destruct (Z.leb_spec n i).
  - rewrite Z.shiftl_spec, ULONG_MAX_testbit by lia. destruct (Z.ltb_spec i 64), (Z.ltb_spec (i - n) 64); try lia; done.
  - rewrite Z.shiftl_spec_low by lia. apply andb_false_r.
Qed.

Lemma max_shr_testbit n i :
  0 <= n <= 64 -> 0 <= i -> Z.testbit (ULONG_MAX .>> (64 - n)) i = (i <? n).
Proof.
  intros Hn Hi. rewrite Z.shiftr_spec, ULONG_MAX_testbit by lia.
  destruct (Z.ltb_spec (i + (64 - n)) 64), (Z.ltb_spec i n); lia || done.
Qed.

Lemma ulong_high w i : is_ulong w -> 64 <= i -> Z.testbit w i = false.
Proof. apply testbit_high. Qed.

(** A nonzero word has a set bit. *)
Lemma nonzero_bit w : is_ulong w -> w <> 0 -> exists i, 0 <= i < 64 /\ Z.testbit w i = true.
Proof.
  intros Hw Hne. exists (Z.log2 w). red in Hw. split; [| apply Z.bit_log2; lia].
  split; [apply Z.log2_nonneg |]. apply Z.log2_lt_pow2; lia.
Qed.

Lemma zero_bits w : is_ulong w -> w = 0 <-> forall i, 0 <= i < 64 -> Z.testbit w i = false.
Proof.
  intros Hw. split; [intros -> i _; apply Z.testbit_0_l |].
  intros H. destruct (Z.eq_dec w 0) as [|Hne]; [done |].
  destruct (nonzero_bit w Hw Hne) as (i & Hi & Hb). rewrite H in Hb; done.
Qed.

(** ** [__fls] and [__ffs] *)

Lemma log2_range w : is_ulong w -> w <> 0 -> 0 <= Z.log2 w < 64.
Proof. intros Hw Hne. red in Hw. split; [apply Z.log2_nonneg | apply Z.log2_lt_pow2; lia]. Qed.

Lemma __fls_log2 w : w <> 0 -> __fls w = Z.log2 w.
Proof. intros. unfold __fls, dclz. zbool. lia. Qed.

Lemma high_mask_zero w s :
  is_ulong w -> 0 <= s <= 64 -> (w .& ul_shl ULONG_MAX (64 - s) =? 0) = (w <? 2 ^ (64 - s)).
Proof.
  intros Hw Hs. red in Hw.
  assert (Z.land w (ul_shl ULONG_MAX (64 - s)) = Z.shiftl (Z.shiftr w (64 - s)) (64 - s)) as ->.
  { apply Z.bits_inj'. intros i Hi. rewrite Z.land_spec, ul_shl_max_testbit by lia.
    destruct (Z.leb_spec (64 - s) i).
    - rewrite Z.shiftl_spec, Z.shiftr_spec by lia. replace (i - (64 - s) + (64 - s)) with i by lia.
      destruct (Z.ltb_spec i 64); simpl; [apply andb_true_r |]. rewrite (ulong_high w i); auto.
    - rewrite Z.shiftl_spec_low by lia. apply andb_false_r. }
  rewrite Z.shiftl_mul_pow2, Z.shiftr_div_pow2 by lia.
  assert (0 < 2 ^ (64 - s)) by (apply Z.pow_pos_nonneg; lia).
  destruct (Z.ltb_spec w (2 ^ (64 - s))).
  - rewrite Z.div_small by lia. done.
  - apply Z.eqb_neq. assert (1 <= w / 2 ^ (64 - s)) by (apply Z.div_le_lower_bound; lia). nia.
Qed.

(** One halving step: the number and the word keep the sum, the word's top bits
    are no longer all zero. *)
Lemma fls_step_spec s num w :
  0 <= s <= 32 -> is_ulong w -> 2 ^ (64 - 2 * s) <= w ->
  exists num' w', fls_step s (num, w) = (num', w') /\ is_ulong w' /\
    num' - 63 + Z.log2 w' = num - 63 + Z.log2 w /\ 2 ^ (64 - s) <= w'.
Proof.
  intros Hs Hw Hlo. unfold fls_step, BITS_PER_LONG. rewrite high_mask_zero by (auto; lia).
  destruct (Z.ltb_spec w (2 ^ (64 - s))) as [Hlt|]; [| by eauto 6].
  assert (0 < 2 ^ (64 - 2 * s)) by (apply Z.pow_pos_nonneg; lia).
  assert (E : 2 ^ (64 - s) * 2 ^ s = 2 ^ 64) by (rewrite <- Z.pow_add_r by lia; f_equal; lia).
  assert (E' : 2 ^ (64 - 2 * s) * 2 ^ s = 2 ^ (64 - s)) by (rewrite <- Z.pow_add_r by lia; f_equal; lia).
  assert (0 < 2 ^ s) by (apply Z.pow_pos_nonneg; lia).
  unfold ul_shl. rewrite Z.shiftl_mul_pow2 by lia. rewrite uwrap_small by nia.
  exists (num - s), (w * 2 ^ s). split; [done |]. split; [red; nia |].
  rewrite Z.log2_mul_pow2 by lia. split; [lia | nia].
Qed.

Lemma __fls_generic_log2 w : is_ulong w -> w <> 0 -> __fls_generic w = Z.log2 w.
Proof.
  intros Hw Hne. unfold __fls_generic. unfold BITS_PER_LONG at 1.
  destruct (fls_step_spec 32 63 w) as (n1 & w1 & E1 & H1 & L1 & B1); [lia | done | red in Hw; lia |].
  destruct (fls_step_spec 16 n1 w1) as (n2 & w2 & E2 & H2 & L2 & B2); [lia | done | done |].
  destruct (fls_step_spec 8 n2 w2) as (n3 & w3 & E3 & H3 & L3 & B3); [lia | done | done |].
  destruct (fls_step_spec 4 n3 w3) as (n4 & w4 & E4 & H4 & L4 & B4); [lia | done | done |].
  destruct (fls_step_spec 2 n4 w4) as (n5 & w5 & E5 & H5 & L5 & B5); [lia | done | done |].
  change (64 - 1) with 63. rewrite E1, E2, E3, E4, E5. unfold BITS_PER_LONG.
  rewrite high_mask_zero by (auto; lia). red in H5. change (2 ^ (64 - 2)) with (2 ^ 62) in B5.
  destruct (Z.ltb_spec w5 (2 ^ (64 - 1))).
  - assert (Z.log2 w5 = 62) by (apply Z.log2_unique; lia). lia.
  - assert (Z.log2 w5 = 63) by (apply Z.log2_unique; lia). lia.
Qed.

Lemma odd_part x : 0 < x -> exists r q, 0 <= r /\ 0 <= q /\ x = 2 ^ r * (2 * q + 1).
Proof.
  destruct x as [|p|p]; try lia. intros _. induction p as [p IH|p IH|].
  - exists 0, (Z.pos p). lia.
  - destruct IH as (r & q & Hr & Hq & E). exists (r + 1), q. split; [lia |]. split; [done |].
    rewrite Z.pow_add_r by lia. change (Z.pos p~0) with (2 * Z.pos p). rewrite E. lia.
  - exists 0, 0. lia.
Qed.

(** [x & -x] isolates the lowest set bit. *)
Lemma land_neg_lowest r q : 0 <= r -> 0 <= q -> Z.land (2 ^ r * (2 * q + 1)) (- (2 ^ r * (2 * q + 1))) = 2 ^ r.
Proof.
  intros Hr Hq. assert (Hp : 0 < 2 ^ r) by (apply Z.pow_pos_nonneg; lia).
  replace (- (2 ^ r * (2 * q + 1))) with (Z.lnot (2 ^ r * (2 * q) + (2 ^ r - 1))) by (unfold Z.lnot; nia).
  rewrite !(Z.mul_comm (2 ^ r)). apply Z.bits_inj'. intros i Hi.
  rewrite Z.land_spec, Z.lnot_spec by done.
  destruct (Z.lt_ge_cases i r) as [Hlt|Hge].
  - rewrite Z.mul_pow2_bits_low by done. rewrite Z.pow2_bits_false by lia. done.
  - rewrite Z.mul_pow2_bits by done.
    replace (Z.testbit (2 * q * 2 ^ r + (2 ^ r - 1)) i) with (Z.testbit (2 * q) (i - r)).
    2: { replace i with (i - r + r) at 2 by lia. rewrite <- Z.div_pow2_bits by lia.
         rewrite Z.div_add_l, (Z.div_small (2 ^ r - 1)), Z.add_0_r by lia. done. }
    destruct (Z.eq_dec i r) as [->|Hne].
    + rewrite Z.sub_diag, Z.testbit_odd_0, Z.testbit_even_0, Z.pow2_bits_true by done. done.
    + rewrite (Z.pow2_bits_false r i) by lia. replace (i - r) with (Z.succ (i - r - 1)) by lia.
      rewrite Z.testbit_odd_succ, Z.testbit_even_succ by lia. by destruct (Z.testbit q _).
Qed.

(** The lowest set bit. *)
Definition lowest (w r : Z) : Prop :=
  0 <= r < 64 /\ Z.testbit w r = true /\ forall j, 0 <= j < r -> Z.testbit w j = false.

Lemma __ffs_lowest w : is_ulong w -> w <> 0 -> lowest w (__ffs w).
Proof.
  intros Hw Hne. red in Hw. destruct (odd_part w) as (r & q & Hr & Hq & E); [lia |].
  assert (Hp : 0 < 2 ^ r) by (apply Z.pow_pos_nonneg; lia).
  assert (Hffs : __ffs w = r).
  { unfold __ffs. replace (w .& u64 (- w)) with (2 ^ r).
    - rewrite __fls_log2 by lia. by apply Z.log2_pow2.
    - rewrite <- (land_neg_lowest r q Hr Hq), <- E. apply Z.bits_inj'. intros i Hi.
      rewrite !Z.land_spec, u64_testbit by done. destruct (Z.ltb_spec i 64); [done |].
      by rewrite (ulong_high w i). }
  rewrite Hffs. assert (Hr64 : r < 64).
  { apply (Z.pow_lt_mono_r_iff 2); [lia | lia |]. nia. }
  rewrite Z.mul_comm in E. split; [done |]. subst w. split.
  - rewrite Z.mul_pow2_bits, Z.sub_diag by done. apply Z.testbit_odd_0.
  - intros j Hj. apply Z.mul_pow2_bits_low. lia.
Qed.

(** ** Arrays of words as numbers *)

Definition bm_val (m : list Z) : Z := foldr (fun w acc => w + 2 ^ 64 * acc) 0 m.
Definition words_ok (m : list Z) : Prop := Forall is_ulong m.

Lemma bm_val_nonneg m : words_ok m -> 0 <= bm_val m.
Proof. induction 1 as [|w m Hw _ IH]; simpl; [lia |]. red in Hw. lia. Qed.

Lemma cons_testbit w v i :
  is_ulong w -> 0 <= i ->
  Z.testbit (w + 2 ^ 64 * v) i = if i <? 64 then Z.testbit w i else Z.testbit v (i - 64).
Proof.
  intros Hw Hi. red in Hw. destruct (Z.ltb_spec i 64).
  - rewrite <- (Z.mod_pow2_bits_low _ 64) by done. f_equal.
    rewrite Z.mul_comm, Z_mod_plus_full. by apply Z.mod_small.
  - replace i with (i - 64 + 64) at 1 by lia. rewrite <- Z.div_pow2_bits by lia. f_equal.
    rewrite Z.mul_comm, Z.div_add, Z.div_small by lia. lia.
Qed.

(** Bit [i] of the bitmap is bit [i mod 64] of word [i / 64]. *)
Lemma bm_val_testbit m i :
  words_ok m -> 0 <= i ->
  Z.testbit (bm_val m) i = Z.testbit (default 0 (m !! Z.to_nat (i / 64))) (i mod 64).
Proof.
  intros Hm. revert i. induction Hm as [|w m Hw _ IH]; intros i Hi; simpl.
  - by rewrite !Z.testbit_0_l.
  - rewrite cons_testbit by done. destruct (Z.ltb_spec i 64).
    + rewrite Z.div_small, Z.mod_small by lia. done.
    + rewrite IH by lia. replace i with (i - 64 + 1 * 64) at 3 4 by lia.
      rewrite Z.div_add, Z.mod_add by lia. assert (0 <= (i - 64) / 64) by (apply Z.div_pos; lia).
      by replace (Z.to_nat ((i - 64) / 64 + 1)) with (S (Z.to_nat ((i - 64) / 64))) by lia.
Qed.

Lemma bm_val_drop m n i :
  words_ok m -> 0 <= i ->
  Z.testbit (bm_val (drop n m)) i = Z.testbit (bm_val m) (i + 64 * Z.of_nat n).
Proof.
  intros Hm. revert i n. induction Hm as [|w m Hw Hm IH]; intros i n Hi.
  - rewrite drop_nil. simpl. by rewrite !Z.testbit_0_l.
  - destruct n as [|n]; simpl; [f_equal; lia |]. rewrite IH, cons_testbit by (auto; lia). zbool. f_equal. lia.
Qed.

Lemma words_ok_drop m n : words_ok m -> words_ok (drop n m).
Proof. apply Forall_drop. Qed.

(** ** Searching *)

(** [r] is the first index in [lo, hi) at which [P] holds, or [hi]. *)
Definition first_in (P : Z -> bool) (lo hi r : Z) : Prop :=
  lo <= r <= hi /\ (forall j, lo <= j < r -> P j = false) /\ (r < hi -> P r = true).

Lemma first_in_skip P lo mid hi r :
  lo <= mid -> (forall j, lo <= j < mid -> P j = false) -> first_in P mid hi r -> first_in P lo hi r.
Proof.
  intros Hm Hz (H1 & H2 & H3). split; [lia |]. split; [| done]. intros j Hj.
  destruct (Z.lt_ge_cases j mid); auto with lia.
Qed.

Lemma first_in_ext P Q lo hi r :
  (forall j, lo <= j < hi -> P j = Q j) -> first_in P lo hi r -> first_in Q lo hi r.
Proof.
  intros E (H1 & H2 & H3). split; [done |]. split.
  - intros j Hj. rewrite <- E by lia. auto.
  - intros Hr. rewrite <- E by lia. auto.
Qed.

Lemma first_in_unique P lo hi r1 r2 : first_in P lo hi r1 -> first_in P lo hi r2 -> r1 = r2.
Proof.
  intros (A1 & A2 & A3) (B1 & B2 & B3). destruct (Z.lt_trichotomy r1 r2) as [H|[H|H]]; [| done |].
  - rewrite B2 in A3 by lia. discriminate A3. lia.
  - rewrite A2 in B3 by lia. discriminate B3. lia.
Qed.

(** [found_middle] on a nonzero word. *)
Lemma found_middle_first result w size :
  is_ulong w -> w <> 0 -> (forall i, size <= i < 64 -> Z.testbit w i = false) ->
  exists r, found_middle result w = Some r /\
    first_in (fun i => Z.testbit w (i - result)) result (result + size) r.
Proof.
  intros Hw Hne Hhi. destruct (__ffs_lowest w Hw Hne) as (Hr & Hb & Hlow).
  eexists; split; [reflexivity |]. assert (__ffs w < size).
  { destruct (Z.lt_ge_cases (__ffs w) size); [done |]. rewrite Hhi in Hb by lia. done. }
  split; [lia |]. split.
  - intros j Hj. apply Hlow. lia.
  - intros _. by replace (result + __ffs w - result) with (__ffs w) by lia.
Qed.

Lemma found_first_first result size w :
  is_ulong w -> 0 < size < 64 ->
  exists r, found_first result size w = Some r /\
    first_in (fun i => Z.testbit w (i - result)) result (result + size) r.
Proof.
  intros Hw Hs. unfold found_first, BITS_PER_LONG.
  set (t := w .& (ULONG_MAX .>> (64 - size))).
  assert (Ht : forall i, 0 <= i -> Z.testbit t i = (i <? size) && Z.testbit w i).
  { intros i Hi. unfold t. rewrite Z.land_spec, max_shr_testbit by lia. apply andb_comm. }
  assert (Htu : is_ulong t) by (apply land_range, Hw).
  assert (Hext : forall j, result <= j < result + size -> Z.testbit t (j - result) = Z.testbit w (j - result)).
  { intros j Hj. rewrite Ht by lia. by zbool. }
  destruct (Z.eqb_spec t 0) as [E|E].
  - eexists; split; [reflexivity |]. split; [lia |]. split; [| lia].
    intros j Hj. rewrite <- Hext, E by lia. apply Z.testbit_0_l.
  - destruct (found_middle_first result t size Htu E) as (r & Hr & Hf).
    { intros i Hi. rewrite Ht by lia. by zbool. }
    exists r. split; [done |]. eapply first_in_ext; [exact Hext | exact Hf].
Qed.

Lemma size_mask_zero size : 0 <= size -> (size .& Z.lnot (BITS_PER_LONG - 1) =? 0) = (size <? 64).
Proof.
  intros Hs. change (BITS_PER_LONG - 1) with (Z.ones 6).
  rewrite <- Z.ldiff_land, Z.ldiff_ones_r, Z.shiftl_mul_pow2, Z.shiftr_div_pow2 by lia.
  change (2 ^ 6) with 64. destruct (Z.ltb_spec size 64).
  - rewrite Z.div_small by lia. done.
  - apply Z.eqb_neq. assert (1 <= size / 64) by (apply Z.div_le_lower_bound; lia). lia.
Qed.

Lemma find_next_loop_first p result size :
  words_ok p -> 0 <= size <= 64 * Z.of_nat (length p) ->
  exists r, find_next_loop p result size = Some r /\
    first_in (fun i => Z.testbit (bm_val p) (i - result)) result (result + size) r.
Proof.
  intros Hp. revert result size. induction Hp as [|w p Hw Hp IH]; intros result size Hs.
  - simpl in Hs. assert (size = 0) as -> by lia. exists result. split; [done |].
    split; [lia |]. split; intros; lia.
  - cbn [find_next_loop]. rewrite size_mask_zero by lia. destruct (Z.ltb_spec size 64) as [Hlt|Hge]; simpl negb.
    + destruct (Z.eqb_spec size 0) as [->|].
      { exists result. split; [done |]. split; [lia |]. split; intros; lia. }
      destruct (found_first_first result size w Hw) as (r & Hr & Hf); [lia |].
      exists r. split; [done |]. eapply first_in_ext; [| exact Hf]. intros j Hj. simpl.
      rewrite cons_testbit by (auto; lia). by zbool.
    + assert (Hlow : forall j, result <= j < result + 64 ->
        Z.testbit (bm_val (w :: p)) (j - result) = Z.testbit w (j - result)).
      { intros j Hj. simpl. rewrite cons_testbit by (auto; lia). by zbool. }
      destruct (Z.eqb_spec w 0) as [E|E]; simpl negb.
      * unfold BITS_PER_LONG.
        destruct (IH (result + 64) (size - 64)) as (r & Hr & Hf); [simpl in Hs; lia |].
        exists r. split; [done |]. apply (first_in_skip _ _ (result + 64)); [lia | |].
        { intros j Hj. rewrite Hlow, E by lia. apply Z.testbit_0_l. }
        replace (result + 64 + (size - 64)) with (result + size) in Hf by lia.
        eapply first_in_ext; [| exact Hf]. intros j Hj. simpl. rewrite cons_testbit by (auto; lia).
        zbool. f_equal. lia.
      * destruct (found_middle_first result w 64 Hw E) as (r & Hr & Hr1 & Hr2 & Hr3); [lia |].
        exists r. split; [done |]. assert (r < result + 64).
        { destruct (__ffs_lowest w Hw E) as (? & _). unfold found_middle in Hr. simplify_eq. lia. }
        split; [lia |]. split; [intros j Hj; rewrite Hlow by lia; auto | intros _; rewrite Hlow by lia; apply Hr3; lia].
Qed.

Lemma land_size_mask offset : offset .& Z.lnot (BITS_PER_LONG - 1) = 64 * (offset / 64).
Proof.
  change (BITS_PER_LONG - 1) with (Z.ones 6).
  rewrite <- Z.ldiff_land, Z.ldiff_ones_r, Z.shiftl_mul_pow2, Z.shiftr_div_pow2 by lia.
  change (2 ^ 6) with 64. apply Z.mul_comm.
Qed.

(** A search in a word whose low [o] bits are masked off. *)
Section masked.
Context (w o base : Z) (P : Z -> bool).
Context (Hw : is_ulong w) (Ho : 0 <= o < 64).
Context (HP : forall j, base <= j < base + 64 -> P j = Z.testbit w (j - base)).
Let t := w .& ul_shl ULONG_MAX o.

Lemma masked_ulong : is_ulong t.
Proof using Hw. apply land_range, Hw. Qed.

Lemma masked_testbit j :
  base <= j < base + 64 -> Z.testbit t (j - base) = (base + o <=? j) && P j.
Proof using Hw Ho HP.
  intros Hj. unfold t. rewrite HP, Z.land_spec, ul_shl_max_testbit by lia.
  destruct (Z.leb_spec o (j - base)), (Z.leb_spec (base + o) j); try lia; zbool; simpl;
    auto using andb_true_r, andb_false_r.
Qed.

Lemma first_in_masked hi r :
  hi <= base + 64 -> base + o < hi ->
  first_in (fun i => Z.testbit t (i - base)) base hi r -> first_in P (base + o) hi r.
Proof using Hw Ho HP.
  intros Hhi Hlt (Hr1 & Hr2 & Hr3).
  assert (base + o <= r).
  { destruct (Z.lt_ge_cases r (base + o)); [| done]. rewrite masked_testbit in Hr3 by lia.
    replace (base + o <=? r) with false in Hr3 by lia. discriminate Hr3. lia. }
  split; [lia |]. split.
  - intros j Hj. specialize (Hr2 j). rewrite masked_testbit in Hr2 by lia.
    replace (base + o <=? j) with true in Hr2 by lia. apply Hr2. lia.
  - intros Hr. specialize (Hr3 Hr). rewrite masked_testbit in Hr3 by lia.
    by apply andb_prop in Hr3 as [_ ?].
Qed.

Lemma masked_zero : t = 0 -> forall j, base + o <= j < base + 64 -> P j = false.
Proof using Hw Ho HP.
  intros E j Hj. pose proof (masked_testbit j) as H. rewrite E, Z.testbit_0_l in H.
  replace (base + o <=? j) with true in H by lia. symmetry. apply H. lia.
Qed.
End masked.

Lemma find_next_bit_first addr size offset :
  words_ok addr -> 0 <= offset -> 0 <= size <= 64 * Z.of_nat (length addr) ->
  exists r, find_next_bit addr size offset = Some r /\
    (if offset <? size then first_in (Z.testbit (bm_val addr)) offset size r else r = size).
Proof.
  intros Ha Ho Hs. unfold find_next_bit. rewrite land_size_mask.
  destruct (Z.geb_spec offset size), (Z.ltb_spec offset size); try lia; [by eauto |].
  set (n := Z.to_nat (offset / BITS_PER_LONG)). unfold BITS_PER_LONG in *.
  assert (Hdiv : offset = 64 * (offset / 64) + offset mod 64) by (apply Z.div_mod; lia).
  pose proof (Z.mod_pos_bound offset 64 ltac:(lia)). assert (0 <= offset / 64) by (apply Z.div_pos; lia).
  pose proof (words_ok_drop addr n Ha) as Hd.
  assert (Hbit : forall j, 64 * (offset / 64) <= j ->
    Z.testbit (bm_val (drop n addr)) (j - 64 * (offset / 64)) = Z.testbit (bm_val addr) j).
  { intros j Hj. rewrite bm_val_drop by (auto; lia). f_equal. lia. }
  assert (Hlen : Z.of_nat (length (drop n addr)) = Z.of_nat (length addr) - offset / 64).
  { rewrite length_drop. lia. }
  set (base := 64 * (offset / 64)) in *. set (o := offset mod 64) in *.
  destruct (Z.eqb_spec o 0) as [E|E]; simpl negb; cbv iota.
  { destruct (find_next_loop_first (drop n addr) base (size - base) Hd) as (r & Hr & Hf); [lia |].
    exists r. split; [done |]. replace offset with base by lia.
    replace (base + (size - base)) with size in Hf by lia.
    eapply first_in_ext; [| exact Hf]. intros j Hj. apply Hbit. lia. }
  destruct (drop n addr) as [|w p]; [simpl in Hlen; lia |]. simpl in Hlen.
  apply Forall_cons in Hd as [Hw Hp]. rewrite Hdiv.
  assert (HP : forall j, base <= j < base + 64 -> Z.testbit (bm_val addr) j = Z.testbit w (j - base)).
  { intros j Hj. rewrite <- Hbit by lia. simpl. rewrite cons_testbit by (auto; lia). by zbool. }
  pose proof (masked_ulong w o Hw) as Htu. set (t := w .& ul_shl ULONG_MAX o) in *.
  destruct (Z.ltb_spec (size - base) 64).
  { destruct (found_first_first base (size - base) t Htu) as (r & Hr & Hf); [lia |].
    exists r. split; [done |]. replace (base + (size - base)) with size in Hf by lia.
    apply (first_in_masked w o base); auto; lia. }
  destruct (Z.eqb_spec t 0) as [Ez|Ez]; simpl negb; cbv iota.
  - destruct (find_next_loop_first p (base + 64) (size - base - 64) Hp) as (r & Hr & Hf); [lia |].
    exists r. split; [done |]. replace (base + 64 + (size - base - 64)) with size in Hf by lia.
    apply (first_in_skip _ _ (base + 64)); [lia | |].
    { by apply (masked_zero w o base). }
    eapply first_in_ext; [| exact Hf]. intros j Hj. rewrite <- (Hbit j) by lia. simpl.
    rewrite cons_testbit by (auto; lia). zbool. f_equal. lia.
  - destruct (found_middle_first base t 64 Htu Ez) as (r & Hr & Hf); [lia |].
    exists r. split; [done |]. destruct (__ffs_lowest t Htu Ez) as (? & _).
    unfold found_middle in Hr. apply (first_in_masked w o base (Z.testbit (bm_val addr))) in Hf; [| auto with lia ..].
    simplify_eq. destruct Hf as (? & Hf2 & Hf3). split; [lia |]. split; [done |]. intros _. apply Hf3. lia.
Qed.

Lemma find_first_bit_next addr size :
  0 <= size -> find_first_bit addr size = find_next_bit addr size 0.
Proof.
  intros Hs. unfold find_first_bit, find_next_bit. rewrite Z.land_0_l, Z.sub_0_r. change (0 / BITS_PER_LONG) with 0.
  change (0 mod BITS_PER_LONG) with 0. cbn [Z.to_nat drop].
  destruct (Z.geb_spec 0 size); [| done]. assert (size = 0) as -> by lia. by destruct addr.
Qed.

(** *** Clear bits: the search for set bits in the complement *)

Lemma ul_not_range x : is_ulong (ul_not x).
Proof. apply uwrap_range. lia. Qed.

Lemma ul_not_zero x : is_ulong x -> (ul_not x =? 0) = (x =? ULONG_MAX).
Proof.
  intros Hx. red in Hx. unfold ul_not, uwrap, Z.lnot, ULONG_MAX.
  replace (Z.pred (- x)) with (2 ^ 64 - 1 - x + (-1) * 2 ^ 64) by lia.
  rewrite Z_mod_plus_full, Z.mod_small by lia. destruct (Z.eqb_spec x (2 ^ 64 - 1)); zbool; done.
Qed.

Lemma ul_not_lor_shl x n :
  is_ulong x -> 0 <= n <= 64 ->
  ul_not (x .| ul_shl ULONG_MAX n) = ul_not x .& (ULONG_MAX .>> (64 - n)).
Proof.
  intros Hx Hn. apply Z.bits_inj'. intros i Hi.
  rewrite Z.land_spec, !ul_not_testbit, max_shr_testbit, Z.lor_spec, ul_shl_max_testbit by lia.
  destruct (Z.ltb_spec i 64), (Z.ltb_spec i n), (Z.leb_spec n i), (Z.testbit x i); lia || done.
Qed.

Lemma ul_not_lor_shr x n :
  is_ulong x -> 0 <= n <= 64 ->
  ul_not (x .| (ULONG_MAX .>> (64 - n))) = ul_not x .& ul_shl ULONG_MAX n.
Proof.
  intros Hx Hn. apply Z.bits_inj'. intros i Hi.
  rewrite Z.land_spec, !ul_not_testbit, Z.lor_spec, max_shr_testbit, ul_shl_max_testbit by lia.
  destruct (Z.ltb_spec i 64), (Z.ltb_spec i n), (Z.leb_spec n i), (Z.testbit x i); lia || done.
Qed.

Lemma ulong_shl x n : is_ulong (ul_shl x n).
Proof. apply uwrap_range. lia. Qed.

Lemma ulong_max_shr n : 0 <= n -> is_ulong (ULONG_MAX .>> n).
Proof. intros. apply shiftr_range; unfold ULONG_MAX; lia. Qed.

#[local] Hint Resolve ulong_shl ulong_max_shr ul_not_range : core.

Lemma ulong_lor x y : is_ulong x -> is_ulong y -> is_ulong (x .| y).
Proof. intros. by apply lor_range. Qed.

Lemma found_first_zero_compl result size w :
  is_ulong w -> 0 <= size <= 64 ->
  found_first_zero result size w = found_first result size (ul_not w).
Proof.
  intros Hw Hs. unfold found_first_zero, found_first, found_middle, BITS_PER_LONG.
  rewrite <- ul_not_lor_shl, <- ul_not_zero by auto using ulong_lor. done.
Qed.

Lemma find_next_zero_loop_compl p result size :
  words_ok p -> 0 <= size ->
  find_next_zero_loop p result size = find_next_loop (map ul_not p) result size.
Proof.
  intros Hp. revert result size. induction Hp as [|w p Hw Hp IH]; intros result size Hs; [done |].
  cbn [find_next_zero_loop find_next_loop map]. rewrite size_mask_zero by done.
  destruct (Z.ltb_spec size 64); simpl negb.
  - destruct (size =? 0); [done |]. by apply found_first_zero_compl; auto with lia.
  - destruct (ul_not w =? 0); [| done]. apply IH. unfold BITS_PER_LONG. lia.
Qed.

Lemma find_next_zero_bit_compl addr size offset :
  words_ok addr -> 0 <= offset ->
  find_next_zero_bit addr size offset = find_next_bit (map ul_not addr) size offset.
Proof.
  intros Ha Ho. unfold find_next_zero_bit, find_next_bit. rewrite land_size_mask.
  destruct (Z.geb_spec offset size); [done |]. rewrite skipn_map.
  pose proof (words_ok_drop addr (Z.to_nat (offset / BITS_PER_LONG)) Ha) as Hd. unfold BITS_PER_LONG in *.
  pose proof (Z.mod_pos_bound offset 64 ltac:(lia)).
  assert (offset = 64 * (offset / 64) + offset mod 64) by (apply Z.div_mod; lia).
  destruct Hd as [|w p Hw Hp]; simpl map; [by destruct (offset mod 64 =? 0) |].
  destruct (Z.eqb_spec (offset mod 64) 0); simpl negb.
  - apply (find_next_zero_loop_compl (w :: p)); [by constructor | lia].
  - rewrite <- ul_not_lor_shr by (auto; lia).
    destruct (Z.ltb_spec (size - 64 * (offset / 64)) 64).
    + apply found_first_zero_compl; [| lia]. apply ulong_lor; auto with lia.
    + destruct (ul_not _ =? 0); [| done]. apply find_next_zero_loop_compl; [done | lia].
Qed.

Lemma words_ok_compl addr : words_ok (map ul_not addr).
Proof. apply Forall_fmap, Forall_true. intros. apply ul_not_range. Qed.

Lemma compl_testbit addr i :
  words_ok addr -> 0 <= i < 64 * Z.of_nat (length addr) ->
  Z.testbit (bm_val (map ul_not addr)) i = negb (Z.testbit (bm_val addr) i).
Proof.
  intros Ha. revert i. induction Ha as [|w p Hw Hp IH]; intros i Hi; simpl in *; [lia |].
  rewrite !cons_testbit by (auto; lia). destruct (Z.ltb_spec i 64).
  - rewrite ul_not_testbit by lia. by zbool.
  - apply IH. lia.
Qed.

Lemma find_next_zero_bit_first addr size offset :
  words_ok addr -> 0 <= offset -> 0 <= size <= 64 * Z.of_nat (length addr) ->
  exists r, find_next_zero_bit addr size offset = Some r /\
    (if offset <? size then first_in (fun i => negb (Z.testbit (bm_val addr) i)) offset size r else r = size).
Proof.
  intros Ha Ho Hs. rewrite find_next_zero_bit_compl by done.
  destruct (find_next_bit_first (map ul_not addr) size offset) as (r & Hr & Hf);
    [apply words_ok_compl | done | by rewrite length_map |].
  exists r. split; [done |]. destruct (offset <? size); [| done].
  eapply first_in_ext; [| exact Hf]. intros j Hj. apply compl_testbit; [done | lia].
Qed.

Lemma find_first_zero_bit_next addr size :
  0 <= size -> find_first_zero_bit addr size = find_next_zero_bit addr size 0.
Proof.
  intros Hs. unfold find_first_zero_bit, find_next_zero_bit. rewrite Z.land_0_l, Z.sub_0_r.
  change (0 / BITS_PER_LONG) with 0. change (0 mod BITS_PER_LONG) with 0. cbn [Z.to_nat drop].
  destruct (Z.geb_spec 0 size); [| done]. assert (size = 0) as -> by lia. by destruct addr.
Qed.

(** *** The last set bit *)

(** [r] is the last index below [n] at which [P] holds, or [n] if there is none. *)
Definition last_below (P : Z -> bool) (n r : Z) : Prop :=
  (0 <= r < n /\ P r = true /\ forall j, r < j < n -> P j = false) \/
  (r = n /\ forall j, 0 <= j < n -> P j = false).

Lemma bm_val_word addr k w j :
  words_ok addr -> addr !! k = Some w -> 64 * Z.of_nat k <= j < 64 * Z.of_nat k + 64 ->
  Z.testbit (bm_val addr) j = Z.testbit w (j - 64 * Z.of_nat k).
Proof.
  intros Ha Hk Hj. rewrite bm_val_testbit by (auto; lia).
  replace j with (j - 64 * Z.of_nat k + Z.of_nat k * 64) at 1 2 by lia.
  rewrite Z.div_add, Z.mod_add, Z.div_small, Z.mod_small by lia. by rewrite Z.add_0_l, Nat2Z.id, Hk.
Qed.

(** The highest bit of the word in which a downward search stops. *)
Lemma stop_at_word P k t n :
  is_ulong t -> t <> 0 ->
  (forall j, 64 * Z.of_nat k <= j < 64 * Z.of_nat k + 64 -> j < n -> P j = Z.testbit t (j - 64 * Z.of_nat k)) ->
  (forall j, 64 * Z.of_nat k + 64 <= j < n -> P j = false) ->
  64 * Z.of_nat k + Z.log2 t < n ->
  last_below P n (Z.of_nat k * BITS_PER_LONG + __fls t).
Proof.
  intros Ht Hne HP Hz Hn. pose proof (log2_range t Ht Hne). rewrite __fls_log2 by done.
  unfold BITS_PER_LONG. left. split; [lia |]. split.
  - rewrite HP by lia. replace (Z.of_nat k * 64 + Z.log2 t - 64 * Z.of_nat k) with (Z.log2 t) by lia.
    apply Z.bit_log2. red in Ht. lia.
  - intros j Hj. destruct (Z.lt_ge_cases j (64 * Z.of_nat k + 64)); [| apply Hz; lia].
    rewrite HP by lia. apply Z.bits_above_log2; red in Ht; lia.
Qed.

Lemma find_last_loop_last addr size words :
  words_ok addr -> (words <= length addr)%nat -> 64 * Z.of_nat words <= size ->
  (forall j, 64 * Z.of_nat words <= j < size -> Z.testbit (bm_val addr) j = false) ->
  exists r, find_last_loop addr size words = Some r /\ last_below (Z.testbit (bm_val addr)) size r.
Proof.
  intros Ha. induction words as [|k IH]; intros Hk Hs Hz; cbn [find_last_loop].
  - exists size. split; [done |]. right. split; [done |]. intros j Hj. apply Hz. lia.
  - destruct (lookup_lt_is_Some_2 addr k) as [w Hw]; [lia |]. rewrite Hw. cbn [mbind option_bind].
    assert (Hu : is_ulong w) by (eapply Forall_lookup_1; eauto).
    pose proof (bm_val_word addr k w) as Hb. destruct (Z.eqb_spec w 0) as [E|E]; simpl negb; cbv iota.
    + apply IH; [lia | lia |]. intros j Hj. destruct (Z.lt_ge_cases j (64 * Z.of_nat (S k))); [| apply Hz; lia].
      rewrite Hb, E by (auto; lia). apply Z.testbit_0_l.
    + eexists; split; [done |]. pose proof (log2_range w Hu E).
      apply stop_at_word; auto with lia.
Qed.

Lemma find_last_bit_last addr size :
  words_ok addr -> 0 <= size <= 64 * Z.of_nat (length addr) ->
  exists r, find_last_bit addr size = Some r /\ last_below (Z.testbit (bm_val addr)) size r.
Proof.
  intros Ha Hs. unfold find_last_bit, BITS_PER_LONG. change (64 - 1) with (Z.ones 6). rewrite Z.land_ones by lia.
  change (2 ^ 6) with 64. set (k := size / 64). set (o := size mod 64).
  assert (Hdiv : size = 64 * k + o) by (apply Z.div_mod; lia).
  assert (Hk : 0 <= k) by (apply Z.div_pos; lia).
  assert (Ho : 0 <= o < 64) by (apply Z.mod_pos_bound; lia).
  assert (Hloop : o = 0 \/ (forall j, 64 * k <= j < size -> Z.testbit (bm_val addr) j = false) ->
    exists r, find_last_loop addr size (Z.to_nat k) = Some r /\ last_below (Z.testbit (bm_val addr)) size r).
  { intros H. apply find_last_loop_last; [done | lia | lia |]. intros j Hj. destruct H as [H|H]; [lia |].
    apply H. lia. }
  destruct (Z.eqb_spec o 0) as [E|E]; simpl negb; cbv iota; [auto |].
  destruct (lookup_lt_is_Some_2 addr (Z.to_nat k)) as [w Hw]; [lia |]. rewrite Hw. cbn [mbind option_bind].
  assert (Hu : is_ulong w) by (eapply Forall_lookup_1; eauto).
  pose proof (bm_val_word addr (Z.to_nat k) w) as Hb. rewrite Z2Nat.id in Hb by done.
  set (t := w .& (ULONG_MAX .>> (64 - o))).
  assert (Ht : forall i, 0 <= i -> Z.testbit t i = (i <? o) && Z.testbit w i).
  { intros i Hi. unfold t. rewrite Z.land_spec, max_shr_testbit by lia. apply andb_comm. }
  assert (HP : forall j, 64 * k <= j < size -> Z.testbit (bm_val addr) j = Z.testbit t (j - 64 * k)).
  { intros j Hj. rewrite Hb, Ht by (auto; lia). by zbool. }
  destruct (Z.eqb_spec t 0) as [Ez|Ez]; simpl negb; cbv iota.
  - apply Hloop. right. intros j Hj. rewrite HP, Ez by done. apply Z.testbit_0_l.
  - eexists; split; [done |]. assert (is_ulong t) by (apply land_range, Hu).
    rewrite <- (Z2Nat.id k) at 1 by done. apply stop_at_word; auto; rewrite ?Z2Nat.id by done; auto with lia.
    assert (Hlog : Z.testbit t (Z.log2 t) = true) by (apply Z.bit_log2; red in H; lia).
    rewrite Ht in Hlog by apply Z.log2_nonneg. lia.
Qed.

(** *** Little-endian bitmaps: the search in the swapped words *)

Lemma ext2_swab_testbit x i : 0 <= i < 64 -> Z.testbit (ext2_swab x) i = Z.testbit x (Z.lxor i 56).
Proof.
  intros Hi. destruct i as [|p|p]; [| | lia].
  all: do 6 (try destruct p as [p|p|]); try lia.
  all: unfold ext2_swab; rewrite !Z.lor_spec, !u64_testbit, !Z.shiftl_spec, !Z.shiftr_spec, !Z.land_spec by lia.
  all: simpl; rewrite ?andb_false_r, ?andb_true_r, ?orb_false_r; reflexivity.
Qed.

Lemma ext2_swab_range x : is_ulong x -> is_ulong (ext2_swab x).
Proof.
  intros Hx. unfold ext2_swab. repeat apply ulong_lor; try (apply uwrap_range; lia).
  all: apply shiftr_range; [lia |]; apply land_range, Hx.
Qed.

Lemma lxor_56 i : 0 <= i < 64 -> 0 <= Z.lxor i 56 < 64 /\ Z.lxor (Z.lxor i 56) 56 = i.
Proof.
  intros Hi. rewrite Z.lxor_assoc, Z.lxor_nilpotent, Z.lxor_0_r. split; [| done].
  assert (0 <= Z.lxor i 56) by (apply Z.lxor_nonneg; lia). split; [done |].
  destruct (Z.eq_dec (Z.lxor i 56) 0) as [E|E]; [lia |]. apply (Z.log2_lt_pow2 _ 6); [lia |].
  pose proof (Z.log2_lxor i 56 ltac:(lia) ltac:(lia)) as Hl. change (Z.log2 56) with 5 in Hl.
  destruct (Z.eq_dec i 0) as [->|]; [done |].
  assert (Z.log2 i < 6) by (apply Z.log2_lt_pow2; lia). lia.
Qed.

Lemma ext2_swab_zero x : is_ulong x -> (ext2_swab x =? 0) = (x =? 0).
Proof.
  intros Hx. apply Bool.eq_iff_eq_true. rewrite !Z.eqb_eq, !zero_bits by auto using ext2_swab_range.
  split; intros H i Hi; destruct (lxor_56 i Hi) as [? E].
  - rewrite <- E, <- ext2_swab_testbit by done. by apply H.
  - rewrite ext2_swab_testbit by done. by apply H.
Qed.

Lemma ext2_swab_not x : is_ulong x -> ul_not (ext2_swab x) = ext2_swab (ul_not x).
Proof.
  intros Hx. apply Z.bits_inj'. intros i Hi. destruct (Z.lt_ge_cases i 64).
  - destruct (lxor_56 i) as [? _]; [lia |].
    rewrite ul_not_testbit, !ext2_swab_testbit, ul_not_testbit by lia. by zbool.
  - rewrite !ulong_high by auto using ext2_swab_range. done.
Qed.

Lemma find_next_le_loop_swab p result size :
  words_ok p -> find_next_le_loop p result size = find_next_loop (map ext2_swab p) result size.
Proof.
  intros Hp. revert result size. induction Hp as [|w p Hw Hp IH]; intros; [done |].
  cbn [find_next_le_loop find_next_loop map]. by rewrite ext2_swab_zero, IH.
Qed.

Lemma find_next_zero_le_loop_swab p result size :
  words_ok p -> find_next_zero_le_loop p result size = find_next_zero_loop (map ext2_swab p) result size.
Proof.
  intros Hp. revert result size. induction Hp as [|w p Hw Hp IH]; intros; [done |].
  cbn [find_next_zero_le_loop find_next_zero_loop map]. by rewrite ext2_swab_not, ext2_swab_zero, IH.
Qed.

Lemma land_63 x : x .& (BITS_PER_LONG - 1) = x mod BITS_PER_LONG.
Proof. change (BITS_PER_LONG - 1) with (Z.ones 6). by rewrite Z.land_ones by lia. Qed.

(** *** [fls] *)

Lemma land_high_mask x n :
  0 <= n <= 32 -> 0 <= x < 2 ^ 32 -> (x .& (2 ^ 32 - 2 ^ n) =? 0) = (x <? 2 ^ n).
Proof.
  intros Hn Hx. assert (E : 2 ^ 32 = 2 ^ (32 - n) * 2 ^ n) by (rewrite <- Z.pow_add_r by lia; f_equal; lia).
  assert (0 < 2 ^ n) by (apply Z.pow_pos_nonneg; lia).
  replace (2 ^ 32 - 2 ^ n) with (Z.shiftl (Z.ones (32 - n)) n)
    by (rewrite Z.shiftl_mul_pow2, Z.ones_equiv by lia; lia).
  replace (x .& _) with (Z.shiftl (Z.shiftr x n) n).
  - rewrite Z.shiftl_mul_pow2, Z.shiftr_div_pow2 by lia. destruct (Z.ltb_spec x (2 ^ n)).
    + by rewrite Z.div_small by lia.
    + apply Z.eqb_neq. assert (1 <= x / 2 ^ n) by (apply Z.div_le_lower_bound; lia). nia.
  - apply Z.bits_inj'. intros i Hi. rewrite Z.land_spec, !Z.shiftl_spec by done.
    destruct (Z.lt_ge_cases i n); [rewrite !(Z.testbit_neg_r _ (i - n)) by lia; by destruct (Z.testbit x i) |].
    rewrite Z.shiftr_spec, Z.testbit_ones_nonneg by lia. replace (i - n + n) with i by lia.
    destruct (Z.ltb_spec (i - n) (32 - n)); [by rewrite andb_true_r |].
    rewrite (testbit_high x 32) by lia. done.
Qed.

Lemma fls_halve_spec m s x r :
  m = 2 ^ 32 - 2 ^ (32 - s) -> 1 <= s <= 16 -> 0 <= x < 2 ^ 32 -> 2 ^ (32 - 2 * s) <= x ->
  exists x' r', fls_halve m s (x, r) = (x', r') /\
    0 <= x' < 2 ^ 32 /\ r' + Z.log2 x' = r + Z.log2 x /\ 2 ^ (32 - s) <= x'.
Proof.
  intros -> Hs Hx Hlo. unfold fls_halve. rewrite land_high_mask by lia.
  destruct (Z.ltb_spec x (2 ^ (32 - s))) as [Hlt|]; [| by eauto 6].
  assert (0 < 2 ^ (32 - 2 * s)) by (apply Z.pow_pos_nonneg; lia).
  assert (E : 2 ^ (32 - s) * 2 ^ s = 2 ^ 32) by (rewrite <- Z.pow_add_r by lia; f_equal; lia).
  assert (E' : 2 ^ (32 - 2 * s) * 2 ^ s = 2 ^ (32 - s)) by (rewrite <- Z.pow_add_r by lia; f_equal; lia).
  assert (0 < 2 ^ s) by (apply Z.pow_pos_nonneg; lia).
  rewrite Z.shiftl_mul_pow2 by lia. rewrite uwrap_small by nia.
  exists (x * 2 ^ s), (r - s). split; [done |]. split; [nia |].
  rewrite Z.log2_mul_pow2 by lia. split; [lia | nia].
Qed.

Lemma fls_generic_log2 x : 0 < u32 x -> fls_generic x = Z.log2 (u32 x) + 1.
Proof.
  intros Hx. unfold fls_generic. pose proof (uwrap_range 32 x ltac:(lia)) as Hr. zbool.
  destruct (fls_halve_spec 0xffff0000 16 (u32 x) 32) as (x1 & r1 & E1 & H1 & L1 & B1); [done | lia | done | lia |].
  destruct (fls_halve_spec 0xff000000 8 x1 r1) as (x2 & r2 & E2 & H2 & L2 & B2); [done | lia | done | done |].
  destruct (fls_halve_spec 0xf0000000 4 x2 r2) as (x3 & r3 & E3 & H3 & L3 & B3); [done | lia | done | done |].
  destruct (fls_halve_spec 0xc0000000 2 x3 r3) as (x4 & r4 & E4 & H4 & L4 & B4); [done | lia | done | done |].
  destruct (fls_halve_spec 0x80000000 1 x4 r4) as (x5 & r5 & E5 & H5 & L5 & B5); [done | lia | done | done |].
  rewrite E1, E2, E3, E4, E5. simpl.
  assert (Z.log2 x5 = 31) by (apply Z.log2_unique; lia). lia.
Qed.

(** ** Properties *)

(** every version of the highest-bit operations computes the binary
    logarithm and [__ffs] finds the lowest set bit.  On a nonzero word the code
    for CPUs without dclz agrees with the instruction, and [fls] with and
    without clz agree on every [int], zero and negative numbers included. *)
Theorem word_bits_correct w x :
  is_ulong w -> w <> 0 ->
  __fls_generic w = __fls w /\ __fls w = Z.log2 w /\ lowest w (__ffs w) /\
  fls_generic x = fls x /\ (u32 x <> 0 -> fls x = Z.log2 (u32 x) + 1).
Proof.
  intros Hw Hne. rewrite __fls_generic_log2, __fls_log2 by done.
  split; [done |]. split; [done |]. split; [by apply __ffs_lowest |].
  pose proof (uwrap_range 32 x ltac:(lia)). destruct (Z.eq_dec (u32 x) 0) as [E|E].
  - split; [| done]. unfold fls_generic, fls, clz. by rewrite E.
  - rewrite fls_generic_log2 by lia. unfold fls, clz. zbool. lia.
Qed.

Lemma word_bits_correct_witness :
  __fls_generic 0x18 = 4 /\ __ffs 0x18 = 3 /\ fls_generic (-1) = fls (-1).
Proof.
  destruct (word_bits_correct 0x18 (-1)) as (E1 & E2 & _ & E3 & _); [red; lia | done |].
  split; [by rewrite E1, E2 |]. split; [reflexivity | exact E3].
Defined.

(** the forward searches find the first set (clear) bit at or after [offset]
    and below [size], or return [size], on every array that covers [size] bits;
    they never read behind the array, whatever the alignment of both bounds. *)
Theorem find_next_correct addr size offset :
  words_ok addr -> 0 <= offset < size -> size <= 64 * Z.of_nat (length addr) ->
  (exists r, find_next_bit addr size offset = Some r /\
     first_in (Z.testbit (bm_val addr)) offset size r) /\
  (exists r, find_next_zero_bit addr size offset = Some r /\
     first_in (fun i => negb (Z.testbit (bm_val addr) i)) offset size r) /\
  find_first_bit addr size = find_next_bit addr size 0 /\
  find_first_zero_bit addr size = find_next_zero_bit addr size 0.
Proof.
  intros Ha Ho Hs.
  destruct (find_next_bit_first addr size offset) as (r & Hr & Hf); [done | lia | lia |].
  destruct (find_next_zero_bit_first addr size offset) as (r' & Hr' & Hf'); [done | lia | lia |].
  replace (offset <? size) with true in Hf, Hf' by lia.
  rewrite find_first_bit_next, find_first_zero_bit_next by lia. by eauto 10.
Qed.

Definition two_words : list Z := [0x8000000000000001; 0x6].

Lemma words_okb m : forallb (fun w => (0 <=? w) && (w <? 2 ^ 64)) m = true -> words_ok m.
Proof. intros H. apply List.Forall_forall. intros w Hw. red. rewrite forallb_forall in H. specialize (H w Hw). lia. Qed.

Lemma find_next_correct_witness :
  find_next_bit two_words 100 1 = Some 63 /\ find_next_zero_bit two_words 100 63 = Some 64 /\
  first_in (Z.testbit (bm_val two_words)) 1 100 63.
Proof.
  split; [reflexivity |]. split; [reflexivity |].
  destruct (find_next_correct two_words 100 1) as ((r & Hr & Hf) & _);
    [by apply words_okb | lia | simpl; lia |].
  vm_compute in Hr. injection Hr as <-. exact Hf.
Defined.

(** [find_last_bit] returns the last set bit below [size], or [size] if
    there is none, and reads only the words that hold those bits. *)
Theorem find_last_correct addr size :
  words_ok addr -> 0 <= size <= 64 * Z.of_nat (length addr) ->
  exists r, find_last_bit addr size = Some r /\ last_below (Z.testbit (bm_val addr)) size r.
Proof. apply find_last_bit_last. Qed.

Lemma find_last_correct_witness :
  find_last_bit two_words 128 = Some 66 /\ find_last_bit two_words 65 = Some 63 /\
  exists r, find_last_bit two_words 65 = Some r /\ last_below (Z.testbit (bm_val two_words)) 65 r.
Proof.
  split; [reflexivity |]. split; [reflexivity |].
  apply (find_last_correct two_words 65); [by apply words_okb | simpl; lia].
Defined.

(** on a big-endian machine the searches of little-endian bitmaps are the
    ordinary searches in the byte-swapped words, in which bit [i] of the bitmap
    is bit [i ^ 56] of its word as it lies in memory. *)
Theorem find_next_le_correct addr size offset :
  words_ok addr -> 0 <= offset ->
  generic_find_next_le_bit addr size offset = find_next_bit (map ext2_swab addr) size offset /\
  generic_find_next_zero_le_bit addr size offset = find_next_zero_bit (map ext2_swab addr) size offset /\
  Forall (fun w => forall i, 0 <= i < 64 -> Z.testbit (ext2_swab w) i = Z.testbit w (Z.lxor i 56)) addr.
Proof.
  intros Ha Ho. split; [| split; [| apply Forall_true; intros; by apply ext2_swab_testbit]].
  - unfold generic_find_next_le_bit, find_next_bit. rewrite land_63, skipn_map.
    pose proof (words_ok_drop addr (Z.to_nat (offset / BITS_PER_LONG)) Ha) as Hd.
    rewrite find_next_le_loop_swab by done.
    destruct Hd as [|w p Hw Hp]; simpl map; [done |]. by rewrite find_next_le_loop_swab.
  - unfold generic_find_next_zero_le_bit, find_next_zero_bit. rewrite land_63, skipn_map.
    pose proof (words_ok_drop addr (Z.to_nat (offset / BITS_PER_LONG)) Ha) as Hd.
    rewrite find_next_zero_le_loop_swab by done.
    destruct Hd as [|w p Hw Hp]; simpl map; [done |]. by rewrite find_next_zero_le_loop_swab.
Qed.

Lemma find_next_le_correct_witness :
  generic_find_next_le_bit two_words 100 1 = Some 7 /\
  find_next_bit (map ext2_swab two_words) 100 1 = Some 7.
Proof.
  split; [reflexivity |].
  destruct (find_next_le_correct two_words 100 1) as (E & _ & _); [by apply words_okb | lia |].
  rewrite <- E. reflexivity.
Defined.

End Bitops.
