(* ===== verification/Hweight.v ===== *)
(** * Population count (lib/hweight.c)

    The four routines add neighbouring fields of a word in parallel.  A word is
    read as the list of its [k]-bit fields; each statement of the C code then
    is one operation on such lists, and the sum of the fields never changes. *)

From S2P Require Import Prelude.

Module Hweight.

(** Arithmetic on [unsigned int] wraps at 32 bits, on [__u64] at 64. *)

Definition hweight32 (w : Z) : Z :=
  let res := u32 (w - ((w .>> 1) .& 0x55555555)) in
  let res := u32 ((res .& 0x33333333) + ((res .>> 2) .& 0x33333333)) in
  let res := u32 (res + (res .>> 4)) .& 0x0F0F0F0F in
  let res := u32 (res + (res .>> 8)) in
  u32 (res + (res .>> 16)) .& 0x000000FF.

Definition hweight16 (w : Z) : Z :=
  let res := u32 (w - ((w .>> 1) .& 0x5555)) in
  let res := u32 ((res .& 0x3333) + ((res .>> 2) .& 0x3333)) in
  let res := u32 (res + (res .>> 4)) .& 0x0F0F in
  u32 (res + (res .>> 8)) .& 0x00FF.

Definition hweight8 (w : Z) : Z :=
  let res := u32 (w - ((w .>> 1) .& 0x55)) in
  let res := u32 ((res .& 0x33) + ((res .>> 2) .& 0x33)) in
  u32 (res + (res .>> 4)) .& 0x0F.

Definition hweight64 (w : Z) : Z :=
  let res := u64 (w - ((w .>> 1) .& 0x5555555555555555)) in
  let res := u64 ((res .& 0x3333333333333333) + ((res .>> 2) .& 0x3333333333333333)) in
  let res := u64 (res + (res .>> 4)) .& 0x0F0F0F0F0F0F0F0F in
  let res := u64 (res + (res .>> 8)) in
  let res := u64 (res + (res .>> 16)) in
  u64 (res + (res .>> 32)) .& 0x00000000000000FF.

(** The branch for CPUs with a fast multiplier. *)
Definition hweight64_mul (w : Z) : Z :=
  let w := u64 (w - ((w .>> 1) .& 0x5555555555555555)) in
  let w := u64 ((w .& 0x3333333333333333) + ((w .>> 2) .& 0x3333333333333333)) in
  let w := u64 (w + (w .>> 4)) .& 0x0f0f0f0f0f0f0f0f in
  u64 (w * 0x0101010101010101) .>> 56.


(** ** Fields *)

(** The number whose [k]-bit fields are [l], lowest first. *)
Fixpoint fields (k : Z) (l : list Z) : Z :=
  match l with [] => 0 | x :: l => x + 2 ^ k * fields k l end.
Definition sum (l : list Z) : Z := foldr Z.add 0 l.

Fixpoint evens (l : list Z) : list Z :=
  match l with a :: _ :: l => a :: evens l | l => l end.

(** Sums of neighbours. *)
Fixpoint pairs (l : list Z) : list Z :=
  match l with a :: b :: l => a + b :: pairs l | l => l end.

(** Field-wise sum of [l] and [l] moved down by one. *)
Fixpoint overlap (l : list Z) : list Z :=
  match l with [] => [] | a :: l => a + default 0 (head l) :: overlap l end.

Definition bounded (m : Z) (l : list Z) : Prop := Forall (fun x => 0 <= x <= m) l.

(** Induction two elements at a time. *)
Lemma list_ind2 (P : list Z -> Prop) :
  P [] -> (forall a, P [a]) -> (forall a b l, P l -> P (a :: b :: l)) -> forall l, P l.
Proof.
  intros H0 H1 H2 l. assert (H : P l /\ forall a, P (a :: l)); [| apply H].
  induction l as [|b l [IH1 IH2]]; [by auto |]. split; [apply IH2 | intros a; by apply H2].
Qed.

Lemma land_concat m x y u v :
  0 <= m -> 0 <= x < 2 ^ m -> 0 <= u < 2 ^ m ->
  Z.land (x + 2 ^ m * y) (u + 2 ^ m * v) = Z.land x u + 2 ^ m * Z.land y v.
Proof.
  intros Hm Hx Hu.
  assert (cat : forall a b, 0 <= a < 2 ^ m -> a + 2 ^ m * b = Z.lor a (Z.shiftl b m)).
  { intros a b Ha. rewrite <- Z.lxor_lor; [rewrite <- Z.add_nocarry_lxor |].
    1: rewrite Z.shiftl_mul_pow2 by done; lia.
    all: apply Z.bits_inj'; intros i Hi; rewrite Z.land_spec, Z.testbit_0_l.
    all: destruct (Z.lt_ge_cases i m); [rewrite Z.shiftl_spec_low by done; apply andb_false_r |].
    all: rewrite (testbit_high a m i); auto. }
  rewrite !cat by (try done; by apply land_range). apply Z.bits_inj'. intros i Hi.
  rewrite !Z.land_spec, !Z.lor_spec, !Z.land_spec, !Z.shiftl_spec, Z.land_spec by done.
  destruct (Z.lt_ge_cases i m).
  - rewrite !(Z.testbit_neg_r _ (i - m)), !orb_false_r by lia. done.
  - rewrite (testbit_high x m i), (testbit_high u m i) by done. done.
Qed.

Lemma fields_range k l : 0 <= k -> bounded (2 ^ k - 1) l -> 0 <= fields k l < 2 ^ (k * Z.of_nat (length l)).
Proof.
  intros Hk. induction 1 as [|a l Ha _ IH]; simpl.
  { rewrite Z.mul_0_r. lia. }
  replace (k * Z.of_nat (S (length l))) with (k + k * Z.of_nat (length l)) by lia.
  rewrite Z.pow_add_r by lia. nia.
Qed.

Lemma fields_shiftr k l n :
  0 <= k -> bounded (2 ^ k - 1) l -> fields k l .>> (k * Z.of_nat n) = fields k (drop n l).
Proof.
  intros Hk Hl. revert n. induction Hl as [|a l Ha Hl IH]; intros n.
  { rewrite drop_nil. apply Z.shiftr_0_l. }
  destruct n as [|n]; simpl drop; [rewrite Z.mul_0_r; apply Z.shiftr_0_r |].
  rewrite <- IH. replace (k * Z.of_nat (S n)) with (k + k * Z.of_nat n) by lia.
  rewrite <- Z.shiftr_shiftr by lia. f_equal. simpl. rewrite Z.shiftr_div_pow2 by done.
  rewrite Z.mul_comm, Z.div_add, Z.div_small by lia. lia.
Qed.

(** A mask with ones in every other field selects the fields of even index. *)
Lemma fields_mask k l n :
  0 <= k -> bounded (2 ^ k - 1) l -> (length l <= 2 * n)%nat ->
  fields k l .& fields (2 * k) (replicate n (2 ^ k - 1)) = fields (2 * k) (evens l).
Proof.
  intros Hk Hl. revert n. induction l as [|a|a b l IH] using list_ind2; intros n Hn.
  - apply Z.land_0_l.
  - destruct n as [|n]; simpl in Hn; [lia |]. apply Forall_cons in Hl as [Ha _].
    assert (0 < 2 ^ k) by (apply Z.pow_pos_nonneg; lia).
    assert (2 ^ k <= 2 ^ (2 * k)) by (apply Z.pow_le_mono_r; lia).
    simpl. rewrite !Z.mul_0_r, !Z.add_0_r. replace a with (a + 2 ^ (2 * k) * 0) at 1 by lia.
    rewrite land_concat by lia. rewrite Z.land_0_l.
    replace (2 ^ k - 1) with (Z.ones k) by (rewrite Z.ones_equiv; lia).
    rewrite Z.land_ones, Z.mod_small by lia. lia.
  - destruct n as [|n]; simpl in Hn; [lia |].
    apply Forall_cons in Hl as [Ha Hl]. apply Forall_cons in Hl as [Hb Hl].
    assert (0 < 2 ^ k) by (apply Z.pow_pos_nonneg; lia).
    assert (E : 2 ^ (2 * k) = 2 ^ k * 2 ^ k) by (rewrite <- Z.pow_add_r by lia; f_equal; lia).
    cbn [replicate evens fields]. rewrite <- (IH Hl n) by lia.
    replace (a + 2 ^ k * (b + 2 ^ k * fields k l)) with (a + 2 ^ k * b + 2 ^ (2 * k) * fields k l) by lia.
    rewrite land_concat by nia. f_equal.
    replace (2 ^ k - 1) with (Z.ones k) by (rewrite Z.ones_equiv; lia).
    rewrite Z.land_ones, Z.mul_comm, Z_mod_plus_full, Z.mod_small by lia. done.
Qed.

Lemma evens_cons b l : evens (b :: l) = b :: evens (drop 1 l).
Proof. by destruct l. Qed.

Lemma fields_pairs k l : fields k (evens l) + fields k (evens (drop 1 l)) = fields k (pairs l).
Proof.
  induction l as [|a|a b l IH] using list_ind2; [done | simpl; lia |].
  change (drop 1 (a :: b :: l)) with (b :: l). rewrite (evens_cons b l). cbn [evens pairs fields].
  rewrite <- IH. lia.
Qed.

Lemma fields_overlap k l : fields k l + fields k (drop 1 l) = fields k (overlap l).
Proof.
  induction l as [|a l IH]; [done |]. cbn [overlap fields]. rewrite <- IH.
  change (drop 1 (a :: l)) with l. destruct l; simpl; rewrite ?drop_0; lia.
Qed.

Lemma evens_overlap l : evens (overlap l) = pairs l.
Proof. induction l as [|a|a b l IH] using list_ind2; simpl; [done | f_equal; lia |]. by rewrite IH. Qed.

Lemma sum_pairs l : sum (pairs l) = sum l.
Proof. induction l as [|a|a b l IH] using list_ind2; simpl in *; lia. Qed.

Lemma pairs_bounded m l : 0 <= m -> bounded m l -> bounded (2 * m) (pairs l).
Proof.
  intros Hm. induction l as [|a|a b l IH] using list_ind2; intros Hl; simpl; [constructor | |].
  - apply Forall_cons in Hl as [? _]. constructor; [lia | constructor].
  - apply Forall_cons in Hl as [? Hl]. apply Forall_cons in Hl as [? Hl]. constructor; [lia | by apply IH].
Qed.

Lemma length_pairs l n : length l = (2 * n)%nat -> length (pairs l) = n.
Proof.
  revert n. induction l as [|a|a b l IH] using list_ind2; intros n Hn; simpl in *; [lia | lia |].
  destruct n; [lia |]. f_equal. apply IH. lia.
Qed.

Lemma bounded_le m m' l : m <= m' -> bounded m l -> bounded m' l.
Proof. intros Hm Hl. eapply Forall_impl; [exact Hl |]. simpl. lia. Qed.

Lemma bounded_drop m n l : bounded m l -> bounded m (drop n l).
Proof. apply Forall_drop. Qed.

Lemma overlap_bounded m l : 0 <= m -> bounded m l -> bounded (2 * m) (overlap l).
Proof.
  intros Hm. induction 1 as [|a l Ha Hl IH]; simpl; constructor; [| done].
  destruct Hl; simpl; lia.
Qed.

Lemma length_overlap l : length (overlap l) = length l.
Proof. induction l; simpl; congruence. Qed.

Lemma fields_split k l :
  0 <= k -> fields k l = fields (2 * k) (evens l) + 2 ^ k * fields (2 * k) (evens (drop 1 l)).
Proof.
  intros Hk. assert (E : 2 ^ (2 * k) = 2 ^ k * 2 ^ k) by (rewrite <- Z.pow_add_r by lia; f_equal; lia).
  induction l as [|a|a b l IH] using list_ind2; [simpl; lia | simpl; lia |].
  change (drop 1 (a :: b :: l)) with (b :: l). rewrite (evens_cons b l). cbn [evens fields].
  rewrite IH, E. lia.
Qed.

(** ** The statements of the routines as operations on fields *)

Section steps.
Context (W : Z) (l : list Z) (n : nat).
Context (Hlen : length l = (2 * n)%nat).

Lemma pairs_range k m :
  0 <= k -> 0 <= m -> 2 * m < 2 ^ (2 * k) -> bounded m l -> 2 * k * Z.of_nat n <= W ->
  0 <= fields (2 * k) (pairs l) < 2 ^ W.
Proof using Hlen.
  intros Hk Hm Hlt Hl HW. apply pairs_bounded in Hl; [| done].
  apply (bounded_le _ (2 ^ (2 * k) - 1)) in Hl; [| lia]. apply fields_range in Hl; [| lia].
  rewrite (length_pairs l n) in Hl by done.
  assert (2 ^ (2 * k * Z.of_nat n) <= 2 ^ W) by (apply Z.pow_le_mono_r; lia). lia.
Qed.

Lemma mask_pairs k :
  0 <= k -> bounded (2 ^ k - 1) l ->
  let M := fields (2 * k) (replicate n (2 ^ k - 1)) in
  (fields k l .& M) + ((fields k l .>> k) .& M) = fields (2 * k) (pairs l).
Proof using Hlen.
  intros Hk Hl. cbv zeta. pose proof (fields_shiftr k l 1 Hk Hl) as E.
  rewrite Z.mul_1_r in E. rewrite E, !fields_mask by (rewrite ?length_drop; auto using bounded_drop; lia).
  apply fields_pairs.
Qed.

(** [w - ((w >> 1) & 0x55..)]. *)
Lemma step_bits :
  bounded 1 l -> 2 * Z.of_nat n <= W ->
  uwrap W (fields 1 l - ((fields 1 l .>> 1) .& fields 2 (replicate n 1))) = fields 2 (pairs l).
Proof using Hlen.
  intros Hl HW. pose proof (fields_split 1 l ltac:(lia)) as E.
  assert (Em : (fields 1 l .>> 1) .& fields 2 (replicate n 1) = fields 2 (evens (drop 1 l))).
  { pose proof (fields_shiftr 1 l 1 ltac:(lia) Hl) as E'. change (1 * Z.of_nat 1) with 1 in E'. rewrite E'.
    apply (fields_mask 1 (drop 1 l) n); [lia | by apply bounded_drop |]. rewrite length_drop. lia. }
  rewrite Em. change (2 * 1) with 2 in E. change (2 ^ 1) with 2 in E.
  replace (fields 1 l - _) with (fields 2 (pairs l)) by (rewrite <- fields_pairs; lia).
  apply uwrap_small, (pairs_range 1 1); auto; lia.
Qed.

(** [(w & 0x33..) + ((w >> 2) & 0x33..)]. *)
Lemma step_pairs :
  bounded 2 l -> 4 * Z.of_nat n <= W ->
  uwrap W ((fields 2 l .& fields 4 (replicate n 3)) + ((fields 2 l .>> 2) .& fields 4 (replicate n 3))) =
  fields 4 (pairs l).
Proof using Hlen.
  intros Hl HW. pose proof (mask_pairs 2 ltac:(lia) (bounded_le 2 3 l ltac:(lia) Hl)) as E.
  cbv zeta in E. change (2 * 2) with 4 in E. change (2 ^ 2 - 1) with 3 in E. rewrite E. apply uwrap_small.
  apply (pairs_range 2 2); auto; lia.
Qed.

(** [(w + (w >> 4)) & 0x0f..]. *)
Lemma step_nibbles :
  bounded 4 l -> 8 * Z.of_nat n <= W ->
  uwrap W (fields 4 l + (fields 4 l .>> 4)) .& fields 8 (replicate n 15) = fields 8 (pairs l).
Proof using Hlen.
  intros Hl HW. pose proof (fields_shiftr 4 l 1 ltac:(lia) (bounded_le 4 15 l ltac:(lia) Hl)) as E.
  change (4 * Z.of_nat 1) with 4 in E. rewrite E, fields_overlap.
  assert (Ho : bounded 15 (overlap l)) by (eapply bounded_le; [| apply (overlap_bounded 4)]; auto; lia).
  pose proof (fields_range 4 (overlap l) ltac:(lia) Ho) as Hr. rewrite length_overlap, Hlen in Hr.
  assert (2 ^ (4 * Z.of_nat (2 * n)) <= 2 ^ W) by (apply Z.pow_le_mono_r; lia).
  rewrite uwrap_small by lia. rewrite <- evens_overlap.
  apply (fields_mask 4 (overlap l) n); [lia | done |]. rewrite length_overlap. lia.
Qed.
End steps.

(** The bits of a word, lowest first. *)
Fixpoint bits (n : nat) (w : Z) : list Z :=
  match n with O => [] | S n => bits n w ++ [Z.b2z (Z.testbit w (Z.of_nat n))] end.

(** The number of indices below [n] at which [P] holds. *)
Fixpoint count (P : Z -> bool) (n : nat) : Z :=
  match n with O => 0 | S n => count P n + Z.b2z (P (Z.of_nat n)) end.

Lemma length_bits n w : length (bits n w) = n.
Proof. induction n; simpl; [done |]. rewrite length_app. simpl. lia. Qed.

Lemma sum_bits n w : sum (bits n w) = count (Z.testbit w) n.
Proof.
  induction n as [|n IH]; simpl; [done |]. rewrite <- IH. unfold sum. rewrite foldr_app. simpl.
  generalize (Z.b2z (Z.testbit w (Z.of_nat n))). intros b. clear IH. induction (bits n w); simpl; lia.
Qed.

Lemma bits_bounded n w : bounded 1 (bits n w).
Proof.
  induction n; simpl; [constructor |]. apply Forall_app. split; [done |].
  constructor; [| constructor]. destruct (Z.testbit w _); simpl; lia.
Qed.

Lemma fields_app k l x : 0 <= k -> fields k (l ++ [x]) = fields k l + 2 ^ (k * Z.of_nat (length l)) * x.
Proof.
  intros Hk. induction l as [|a l IH]; simpl; [rewrite !Z.mul_0_r; lia |].
  rewrite IH. replace (k * Z.of_nat (S (length l))) with (k + k * Z.of_nat (length l)) by lia.
  rewrite Z.pow_add_r by lia. lia.
Qed.

Lemma fields_bits n w : fields 1 (bits n w) = w mod 2 ^ Z.of_nat n.
Proof.
  induction n as [|n IH]; simpl bits; [by rewrite Z.mod_1_r |].
  rewrite fields_app, IH, length_bits, Z.mul_1_l by lia. rewrite Nat2Z.inj_succ, Z.pow_succ_r by lia.
  rewrite (Z.mul_comm 2), Z.rem_mul_r by lia.
  rewrite Z.testbit_spec' by lia. lia.
Qed.

(** ** From bits to bytes *)

(** After the third statement the word's bytes hold the counts of its bytes. *)
Lemma byte_counts W n w :
  0 <= w < 2 ^ (8 * Z.of_nat n) -> 8 * Z.of_nat n <= W ->
  exists l, length l = n /\ bounded 8 l /\ sum l = count (Z.testbit w) (8 * n) /\
    let r1 := uwrap W (w - ((w .>> 1) .& fields 2 (replicate (4 * n) 1))) in
    let r2 := uwrap W ((r1 .& fields 4 (replicate (2 * n) 3)) + ((r1 .>> 2) .& fields 4 (replicate (2 * n) 3))) in
    uwrap W (r2 + (r2 .>> 4)) .& fields 8 (replicate n 15) = fields 8 l.
Proof.
  intros Hw HW. set (l0 := bits (8 * n) w).
  assert (E0 : fields 1 l0 = w).
  { unfold l0. rewrite fields_bits. apply Z.mod_small. by replace (Z.of_nat (8 * n)) with (8 * Z.of_nat n) by lia. }
  assert (L0 : length l0 = (8 * n)%nat) by apply length_bits.
  assert (L1 : length (pairs l0) = (4 * n)%nat) by (apply length_pairs; lia).
  assert (L2 : length (pairs (pairs l0)) = (2 * n)%nat) by (apply length_pairs; lia).
  assert (B0 : bounded 1 l0) by apply bits_bounded.
  assert (B1 : bounded 2 (pairs l0)) by (apply (pairs_bounded 1); [lia | done]).
  assert (B2 : bounded 4 (pairs (pairs l0))) by (apply (pairs_bounded 2); [lia | done]).
  exists (pairs (pairs (pairs l0))). split; [by apply length_pairs |].
  split; [apply (pairs_bounded 4); [lia | done] |]. split; [rewrite !sum_pairs; apply sum_bits |].
  cbv zeta. rewrite <- E0, (step_bits W l0 (4 * n)), step_pairs by (auto; lia).
  apply step_nibbles; [done | done | lia].
Qed.

(** The bounds of the elements of an explicit list. *)
Ltac split_bytes :=
  unfold bounded in *;
  repeat match goal with
  | H : Forall _ (_ :: _) |- _ => apply Forall_cons in H as [? H]
  end.

Lemma land_ff x : x .& 0xff = x mod 256.
Proof. change 0xff with (Z.ones 8). by rewrite Z.land_ones by lia. Qed.

(** [res + (res >> 8 * m)] adds bytes that are [m] apart. *)
Lemma add_bytes W l m c :
  bounded c l -> 2 * c <= 255 -> 0 <= c -> 8 * Z.of_nat (length l) <= W ->
  uwrap W (fields 8 l + (fields 8 l .>> (8 * Z.of_nat m))) = fields 8 l + fields 8 (drop m l).
Proof.
  intros Hl Hc Hc0 HW. pose proof (bounded_le c 255 l ltac:(lia) Hl).
  rewrite fields_shiftr by (done || lia).
  assert (Hhalf : forall k, bounded c k -> (length k <= length l)%nat -> 0 <= 2 * fields 8 k < 2 ^ W).
  { intros k Hk Hlen. assert (Hr : 0 <= 2 * fields 8 k < 2 ^ (8 * Z.of_nat (length k))).
    { clear Hlen. induction Hk as [|a k Ha _ IH]; simpl; [lia |].
      replace (8 * Z.of_nat (S (length k))) with (8 + 8 * Z.of_nat (length k)) by lia.
      rewrite Z.pow_add_r by lia. change (2 ^ 8) with 256. lia. }
    assert (2 ^ (8 * Z.of_nat (length k)) <= 2 ^ W) by (apply Z.pow_le_mono_r; lia). lia. }
  pose proof (Hhalf l Hl ltac:(lia)).
  pose proof (Hhalf (drop m l) (bounded_drop _ _ _ Hl) ltac:(rewrite length_drop; lia)).
  apply uwrap_small. lia.
Qed.

Ltac fields_lia := unfold sum; simpl drop; cbn [fields foldr]; change (2 ^ 8) with 256; Z.div_mod_to_equations; lia.

Lemma hweight32_count w : 0 <= w < 2 ^ 32 -> hweight32 w = count (Z.testbit w) 32.
Proof.
  intros Hw. destruct (byte_counts 32 4 w) as (l & Hl & Hb & Hs & E); [lia | lia |].
  change (8 * 4)%nat with 32%nat in Hs. rewrite <- Hs. cbv zeta in E. unfold hweight32.
  change (fields 2 (replicate (4 * 4) 1)) with 0x55555555 in E. change (fields 4 (replicate (2 * 4) 3)) with 0x33333333 in E.
  change (fields 8 (replicate 4 15)) with 0x0F0F0F0F in E. rewrite E, land_ff. clear E Hs.
  pose proof (add_bytes 32 l 1 8 Hb ltac:(lia) ltac:(lia) ltac:(lia)) as E1.
  change (8 * Z.of_nat 1) with 8 in E1. rewrite E1. clear E1.
  destruct l as [|a [|b [|c [|d [|]]]]]; try discriminate Hl. split_bytes.
  replace (fields 8 _ + fields 8 _) with (fields 8 [a + b; b + c; c + d; d]) by fields_lia.
  pose proof (add_bytes 32 [a + b; b + c; c + d; d] 2 16) as E2. change (8 * Z.of_nat 2) with 16 in E2.
  rewrite E2; [fields_lia | repeat constructor; lia | lia | lia | simpl; lia].
Qed.

Lemma hweight16_count w : 0 <= w < 2 ^ 16 -> hweight16 w = count (Z.testbit w) 16.
Proof.
  intros Hw. destruct (byte_counts 32 2 w) as (l & Hl & Hb & Hs & E); [lia | lia |].
  change (8 * 2)%nat with 16%nat in Hs. rewrite <- Hs. cbv zeta in E. unfold hweight16.
  change (fields 2 (replicate (4 * 2) 1)) with 0x5555 in E. change (fields 4 (replicate (2 * 2) 3)) with 0x3333 in E.
  change (fields 8 (replicate 2 15)) with 0x0F0F in E. rewrite E, land_ff. clear E Hs.
  pose proof (add_bytes 32 l 1 8 Hb ltac:(lia) ltac:(lia) ltac:(lia)) as E1.
  change (8 * Z.of_nat 1) with 8 in E1. rewrite E1. clear E1.
  destruct l as [|a [|b [|]]]; try discriminate Hl. split_bytes. fields_lia.
Qed.

Lemma hweight8_count w : 0 <= w < 2 ^ 8 -> hweight8 w = count (Z.testbit w) 8.
Proof.
  intros Hw. destruct (byte_counts 32 1 w) as (l & Hl & Hb & Hs & E); [lia | lia |].
  change (8 * 1)%nat with 8%nat in Hs. rewrite <- Hs. cbv zeta in E. unfold hweight8.
  change (fields 2 (replicate (4 * 1) 1)) with 0x55 in E. change (fields 4 (replicate (2 * 1) 3)) with 0x33 in E.
  change (fields 8 (replicate 1 15)) with 0x0F in E. rewrite E.
  destruct l as [|a [|]]; try discriminate Hl. fields_lia.
Qed.

(** The three statements both 64-bit versions share. *)
Lemma byte_counts64 w :
  0 <= w < 2 ^ 64 ->
  exists l, length l = 8%nat /\ bounded 8 l /\ sum l = count (Z.testbit w) 64 /\
    let r1 := u64 (w - ((w .>> 1) .& 0x5555555555555555)) in
    let r2 := u64 ((r1 .& 0x3333333333333333) + ((r1 .>> 2) .& 0x3333333333333333)) in
    u64 (r2 + (r2 .>> 4)) .& 0x0F0F0F0F0F0F0F0F = fields 8 l.
Proof.
  intros Hw. destruct (byte_counts 64 8 w) as (l & Hl & Hb & Hs & E); [lia | lia |].
  exists l. split; [done |]. split; [done |]. split; [exact Hs |]. exact E.
Qed.

Lemma hweight64_count w : 0 <= w < 2 ^ 64 -> hweight64 w = count (Z.testbit w) 64.
Proof.
  intros Hw. destruct (byte_counts64 w Hw) as (l & Hl & Hb & Hs & E). rewrite <- Hs.
  cbv zeta in E. unfold hweight64. rewrite E, land_ff. clear E Hs.
  pose proof (add_bytes 64 l 1 8 Hb ltac:(lia) ltac:(lia) ltac:(lia)) as E1.
  change (8 * Z.of_nat 1) with 8 in E1. rewrite E1. clear E1.
  destruct l as [|a [|b [|c [|d [|e [|f [|g [|h [|]]]]]]]]]; try discriminate Hl. split_bytes.
  set (l1 := [a + b; b + c; c + d; d + e; e + f; f + g; g + h; h]).
  replace (fields 8 _ + fields 8 _) with (fields 8 l1) by (unfold l1; fields_lia).
  pose proof (add_bytes 64 l1 2 16) as E2. change (8 * Z.of_nat 2) with 16 in E2.
  rewrite E2; [| unfold l1; repeat constructor; lia | lia | lia | done]. clear E2.
  set (l2 := [a + b + c + d; b + c + d + e; c + d + e + f; d + e + f + g; e + f + g + h; f + g + h; g + h; h]).
  replace (fields 8 _ + fields 8 _) with (fields 8 l2) by (unfold l1, l2; fields_lia).
  pose proof (add_bytes 64 l2 4 32) as E3. change (8 * Z.of_nat 4) with 32 in E3.
  rewrite E3; [unfold l2; fields_lia | unfold l2; repeat constructor; lia | lia | lia | done].
Qed.

Lemma hweight64_mul_count w : 0 <= w < 2 ^ 64 -> hweight64_mul w = count (Z.testbit w) 64.
Proof.
  intros Hw. destruct (byte_counts64 w Hw) as (l & Hl & Hb & Hs & E). rewrite <- Hs.
  cbv zeta in E. unfold hweight64_mul. rewrite E. clear E Hs.
  destruct l as [|a [|b [|c [|d [|e [|f [|g [|h [|]]]]]]]]]; try discriminate Hl. split_bytes.
  set (low := fields 8 [a; a + b; a + b + c; a + b + c + d; a + b + c + d + e; a + b + c + d + e + f;
    a + b + c + d + e + f + g]).
  set (high := fields 8 [b + c + d + e + f + g + h; c + d + e + f + g + h; d + e + f + g + h; e + f + g + h;
    f + g + h; g + h; h]).
  assert (Hlow : 0 <= low < 2 ^ 56).
  { apply (fields_range 8); [lia |]. repeat constructor; lia. }
  replace (fields 8 _ * _) with (low + 2 ^ 56 * sum [a; b; c; d; e; f; g; h] + high * 2 ^ 64).
  2: { unfold low, high, sum. cbn [fields foldr]. lia. }
  assert (0 <= sum [a; b; c; d; e; f; g; h] <= 64) by (unfold sum; simpl; lia).
  unfold uwrap. rewrite Z_mod_plus_full, Z.mod_small by lia.
  rewrite Z.shiftr_div_pow2, Z.mul_comm, Z.div_add, Z.div_small by lia. done.
Qed.

(** ** Property *)

(** the population counts are exact at every width: [hweight8], [hweight16],
    [hweight32] and both branches of [hweight64] return the number of set bits
    of their argument, although the intermediate sums wrap at the register's
    width. *)
Theorem hweight_correct w :
  0 <= w < 2 ^ 64 ->
  hweight64 w = count (Z.testbit w) 64 /\
  hweight64_mul w = count (Z.testbit w) 64 /\
  (w < 2 ^ 32 -> hweight32 w = count (Z.testbit w) 32) /\
  (w < 2 ^ 16 -> hweight16 w = count (Z.testbit w) 16) /\
  (w < 2 ^ 8 -> hweight8 w = count (Z.testbit w) 8).
Proof.
  intros Hw. rewrite hweight64_count, hweight64_mul_count by done.
  split; [done |]. split; [done |]. split; [| split]; intros Hlt.
  - apply hweight32_count. lia.
  - apply hweight16_count. lia.
  - apply hweight8_count. lia.
Qed.

Lemma hweight_correct_witness : hweight64 0xF00000000000FF01 = 13 /\ hweight8 0xA7 = 5.
Proof.
  split.
  - rewrite (proj1 (hweight_correct 0xF00000000000FF01 ltac:(lia))). reflexivity.
  - destruct (hweight_correct 0xA7) as (_ & _ & _ & _ & E); [lia |]. rewrite E by lia. reflexivity.
Defined.

End Hweight.
