(* ===== verification/Bitmap.v ===== *)
(** * Bitmaps (lib/bitmap.c, include/linux/bitmap.h)

    The operations work on arrays of unsigned longs that may be the same array
    (a bitmap is shifted or complemented in place), so they are functions on a
    store of arrays and take pointers into it.  An access behind the end of an
    array is [None].  The theorems speak of single bits: bit [i] of an array is
    bit [i] of the number [bm_val] of its words. *)

From S2P Require Import Prelude Bitops Hweight.

Module Bitmap.
Import Bitops Hweight.

(** ** The store *)

Abbreviation ptr := nat (only parsing).
Abbreviation store := (gmap nat (list Z)).
Definition M (A : Type) : Type := store -> option (A * store).

#[export] Instance M_ret : MRet M := fun A a s => Some (a, s).
#[export] Instance M_bind : MBind M := fun A B k m s =>
  match m s with Some (a, s) => k a s | None => None end.

Definition contents (p : ptr) : M (list Z) := fun s =>
  match s !! p with Some m => Some (m, s) | None => None end.

Definition rd (p : ptr) (k : nat) : M Z := fun s =>
  match s !! p with
  | Some m => match m !! k with Some w => Some (w, s) | None => None end
  | None => None
  end.

Definition wr (p : ptr) (k : nat) (v : Z) : M () := fun s =>
  match s !! p with
  | Some m => if (k <? length m)%nat then Some (tt, <[p := <[k := v]> m]> s) else None
  | None => None
  end.

(** [for (k = i; n times; k++) body]. *)
Fixpoint for_up (k n : nat) (body : nat -> M ()) : M () :=
  match n with O => mret () | S n => _ ← body k; for_up (S k) n body end.

(** [for (k = n - 1; k >= 0; k--) body]. *)
Fixpoint for_down (n : nat) (body : nat -> M ()) : M () :=
  match n with O => mret () | S k => _ ← body k; for_down k body end.

(** [for (k = i; n times; k++) if (test) return ...]: whether a test fired. *)
Fixpoint for_any (k n : nat) (test : nat -> M bool) : M bool :=
  match n with O => mret false | S n => b ← test k; if b : bool then mret true else for_any (S k) n test end.

(** [memset] of whole words to zero. *)
Definition clear_words (p : ptr) (k n : nat) : M () := for_up k n (fun k => wr p k 0).

Definition BITS_TO_LONGS (bits : Z) : Z := (bits + BITS_PER_LONG - 1) / BITS_PER_LONG.

Definition BITMAP_LAST_WORD_MASK (nbits : Z) : Z :=
  if negb (nbits mod BITS_PER_LONG =? 0) then ul_shl 1 (nbits mod BITS_PER_LONG) - 1 else ULONG_MAX.

Definition bitmap_zero (dst : ptr) (nbits : Z) : M () := clear_words dst 0 (Z.to_nat (BITS_TO_LONGS nbits)).

Definition bitmap_fill (dst : ptr) (nbits : Z) : M () :=
  let nlongs := Z.to_nat (BITS_TO_LONGS nbits) in
  _ ← for_up 0 (nlongs - 1) (fun k => wr dst k ULONG_MAX);
  wr dst (nlongs - 1) (BITMAP_LAST_WORD_MASK nbits).

(** [set_bit], [clear_bit] and [test_bit] (arch/mips/include/asm/bitops.h,
    include/asm-generic/bitops/non-atomic.h). *)
Definition set_bit (nr : Z) (addr : ptr) : M () :=
  let k := Z.to_nat (nr / BITS_PER_LONG) in
  w ← rd addr k; wr addr k (w .| ul_shl 1 (nr mod BITS_PER_LONG)).

Definition test_bit (nr : Z) (addr : ptr) : M bool :=
  w ← rd addr (Z.to_nat (nr / BITS_PER_LONG));
  mret (negb ((w .>> (nr .& (BITS_PER_LONG - 1))) .& 1 =? 0)).

(** ** Predicates *)

Section predicates.
(** The common shape: [whole] on each whole word, [last] on the partial one;
    whether one of them fired. *)
Definition scan (whole last : nat -> M bool) (bits : Z) : M bool :=
  let lim := Z.to_nat (bits / BITS_PER_LONG) in
  hit ← for_any 0 lim whole;
  if hit : bool then mret true
  else if negb (bits mod BITS_PER_LONG =? 0) then last lim else mret false.

Definition __bitmap_empty (bitmap : ptr) (bits : Z) : M bool :=
  hit ← scan (fun k => w ← rd bitmap k; mret (negb (w =? 0)))
             (fun k => w ← rd bitmap k; mret (negb (w .& BITMAP_LAST_WORD_MASK bits =? 0))) bits;
  mret (negb hit).

Definition __bitmap_full (bitmap : ptr) (bits : Z) : M bool :=
  hit ← scan (fun k => w ← rd bitmap k; mret (negb (ul_not w =? 0)))
             (fun k => w ← rd bitmap k; mret (negb (ul_not w .& BITMAP_LAST_WORD_MASK bits =? 0))) bits;
  mret (negb hit).

Definition __bitmap_equal (bitmap1 bitmap2 : ptr) (bits : Z) : M bool :=
  hit ← scan (fun k => a ← rd bitmap1 k; b ← rd bitmap2 k; mret (negb (a =? b)))
             (fun k => a ← rd bitmap1 k; b ← rd bitmap2 k;
                       mret (negb ((a .^ b) .& BITMAP_LAST_WORD_MASK bits =? 0))) bits;
  mret (negb hit).

Definition __bitmap_intersects (bitmap1 bitmap2 : ptr) (bits : Z) : M bool :=
  scan (fun k => a ← rd bitmap1 k; b ← rd bitmap2 k; mret (negb (a .& b =? 0)))
       (fun k => a ← rd bitmap1 k; b ← rd bitmap2 k;
                 mret (negb ((a .& b) .& BITMAP_LAST_WORD_MASK bits =? 0))) bits.

Definition __bitmap_subset (bitmap1 bitmap2 : ptr) (bits : Z) : M bool :=
  hit ← scan (fun k => a ← rd bitmap1 k; b ← rd bitmap2 k; mret (negb (a .& ul_not b =? 0)))
             (fun k => a ← rd bitmap1 k; b ← rd bitmap2 k;
                       mret (negb ((a .& ul_not b) .& BITMAP_LAST_WORD_MASK bits =? 0))) bits;
  mret (negb hit).
End predicates.

(** The sum of [hweight_long] over the words. *)
Fixpoint weight_loop (bitmap : ptr) (k n : nat) (w : Z) : M Z :=
  match n with
  | O => mret w
  | S n => x ← rd bitmap k; weight_loop bitmap (S k) n (w + hweight64 x)
  end.

Definition __bitmap_weight (bitmap : ptr) (bits : Z) : M Z :=
  let lim := Z.to_nat (bits / BITS_PER_LONG) in
  w ← weight_loop bitmap 0 lim 0;
  if negb (bits mod BITS_PER_LONG =? 0) then
    x ← rd bitmap lim; mret (w + hweight64 (x .& BITMAP_LAST_WORD_MASK bits))
  else mret w.

(** ** Operations that write *)

Definition __bitmap_complement (dst src : ptr) (bits : Z) : M () :=
  let lim := Z.to_nat (bits / BITS_PER_LONG) in
  _ ← for_up 0 lim (fun k => w ← rd src k; wr dst k (ul_not w));
  if negb (bits mod BITS_PER_LONG =? 0) then
    w ← rd src lim; wr dst lim (ul_not w .& BITMAP_LAST_WORD_MASK bits)
  else mret ().

(** The bodies of the two shift loops. *)
Definition shift_right_step (dst src : ptr) (lim left off rem : Z) (k' : nat) : M () :=
  let k := Z.of_nat k' in
  let mask := ul_shl 1 left - 1 in
  upper ← (if (rem =? 0) || (off + k + 1 >=? lim) then mret 0
           else
             upper ← rd src (Z.to_nat (off + k + 1));
             mret (if (off + k + 1 =? lim - 1) && negb (left =? 0) then upper .& mask else upper));
  lower ← rd src (Z.to_nat (off + k));
  let lower := if negb (left =? 0) && (off + k =? lim - 1) then lower .& mask else lower in
  _ ← wr dst k' (ul_shl upper (BITS_PER_LONG - rem) .| (lower .>> rem));
  if negb (left =? 0) && (k =? lim - 1) then w ← rd dst k'; wr dst k' (w .& mask) else mret ().

Definition __bitmap_shift_right (dst src : ptr) (shift bits : Z) : M () :=
  let lim := BITS_TO_LONGS bits in
  let left := bits mod BITS_PER_LONG in
  let off := shift / BITS_PER_LONG in
  let rem := shift mod BITS_PER_LONG in
  _ ← for_up 0 (Z.to_nat (lim - off)) (shift_right_step dst src lim left off rem);
  if negb (off =? 0) then clear_words dst (Z.to_nat (lim - off)) (Z.to_nat off) else mret ().

Definition shift_left_step (dst src : ptr) (lim left off rem : Z) (k' : nat) : M () :=
  let k := Z.of_nat k' in
  lower ← (if negb (rem =? 0) && (k >? 0) then rd src (Z.to_nat (k - 1)) else mret 0);
  upper ← rd src k';
  let upper := if negb (left =? 0) && (k =? lim - 1) then upper .& (ul_shl 1 left - 1) else upper in
  _ ← wr dst (Z.to_nat (k + off)) ((lower .>> (BITS_PER_LONG - rem)) .| ul_shl upper rem);
  if negb (left =? 0) && (k + off =? lim - 1) then
    w ← rd dst (Z.to_nat (k + off)); wr dst (Z.to_nat (k + off)) (w .& (ul_shl 1 left - 1))
  else mret ().

Definition __bitmap_shift_left (dst src : ptr) (shift bits : Z) : M () :=
  let lim := BITS_TO_LONGS bits in
  let left := bits mod BITS_PER_LONG in
  let off := shift / BITS_PER_LONG in
  let rem := shift mod BITS_PER_LONG in
  _ ← for_down (Z.to_nat (lim - off)) (shift_left_step dst src lim left off rem);
  if negb (off =? 0) then clear_words dst 0 (Z.to_nat off) else mret ().

(** [result |= (dst[k] = ...)]: the binary operations that also report whether
    the result has a set bit. *)
Fixpoint combine_loop (f : Z -> Z -> Z) (dst bitmap1 bitmap2 : ptr) (k n : nat) (result : Z) : M Z :=
  match n with
  | O => mret result
  | S n =>
      a ← rd bitmap1 k; b ← rd bitmap2 k; _ ← wr dst k (f a b);
      combine_loop f dst bitmap1 bitmap2 (S k) n (result .| f a b)
  end.

Definition __bitmap_and (dst bitmap1 bitmap2 : ptr) (bits : Z) : M bool :=
  result ← combine_loop Z.land dst bitmap1 bitmap2 0 (Z.to_nat (BITS_TO_LONGS bits)) 0;
  mret (negb (result =? 0)).

Definition __bitmap_andnot (dst bitmap1 bitmap2 : ptr) (bits : Z) : M bool :=
  result ← combine_loop (fun a b => a .& ul_not b) dst bitmap1 bitmap2 0 (Z.to_nat (BITS_TO_LONGS bits)) 0;
  mret (negb (result =? 0)).

Definition __bitmap_or (dst bitmap1 bitmap2 : ptr) (bits : Z) : M () :=
  for_up 0 (Z.to_nat (BITS_TO_LONGS bits)) (fun k =>
    a ← rd bitmap1 k; b ← rd bitmap2 k; wr dst k (a .| b)).

Definition __bitmap_xor (dst bitmap1 bitmap2 : ptr) (bits : Z) : M () :=
  for_up 0 (Z.to_nat (BITS_TO_LONGS bits)) (fun k =>
    a ← rd bitmap1 k; b ← rd bitmap2 k; wr dst k (a .^ b)).

(** [cpu_to_le64] on a big-endian machine is the byte swap. *)
Definition bitmap_copy_le (dst src : ptr) (nbits : Z) : M () :=
  for_up 0 (Z.to_nat (nbits / BITS_PER_LONG)) (fun i => w ← rd src i; wr dst i (ext2_swab w)).

(** ** Reading and writing *)

Lemma rd_ok (s : store) p m k w : s !! p = Some m -> m !! k = Some w -> rd p k s = Some (w, s).
Proof. intros Hp Hk. unfold rd. by rewrite Hp, Hk. Qed.

Lemma wr_ok (s : store) p m k v :
  s !! p = Some m -> (k < length m)%nat -> wr p k v s = Some (tt, <[p := <[k := v]> m]> s).
Proof. intros Hp Hk. unfold wr. rewrite Hp. by rewrite (proj2 (Nat.ltb_lt _ _) Hk). Qed.

Lemma bind_ok {A B} (m : M A) (k : A -> M B) s a s' : m s = Some (a, s') -> (a ← m; k a) s = k a s'.
Proof. intros H. unfold mbind, M_bind. by rewrite H. Qed.

(** [d'] is [d] with [g k] in the words [k0, k0 + n). *)
Definition written (d d' : list Z) (k0 n : nat) (g : nat -> Z) : Prop :=
  length d' = length d /\
  forall j, d' !! j = if (k0 <=? j)%nat && (j <? k0 + n)%nat then Some (g j) else d !! j.

Lemma written_none d k0 g : written d d k0 0 g.
Proof. split; [done |]. intros j. destruct (Nat.leb_spec k0 j), (Nat.ltb_spec j (k0 + 0)); lia || done. Qed.

Lemma written_ok d d' k0 n g :
  words_ok d -> written d d' k0 n g -> (forall j, (k0 <= j < k0 + n)%nat -> is_ulong (g j)) -> words_ok d'.
Proof.
  intros Hd [_ Hw] Hg. apply Forall_lookup_2. intros j w Hj. rewrite Hw in Hj.
  destruct (Nat.leb_spec k0 j), (Nat.ltb_spec j (k0 + n)); simpl in Hj; simplify_eq; auto.
  all: eapply Forall_lookup_1; eauto.
Qed.

Lemma written_first d d' k0 n g :
  (k0 < length d)%nat -> written (<[k0 := g k0]> d) d' (S k0) n g -> written d d' k0 (S n) g.
Proof.
  intros Hk [Hl Hw]. rewrite length_insert in Hl. split; [done |]. intros j. rewrite Hw.
  destruct (decide (j = k0)) as [->|Hne].
  - rewrite list_lookup_insert_eq by done.
    destruct (Nat.leb_spec (S k0) k0), (Nat.leb_spec k0 k0), (Nat.ltb_spec k0 (k0 + S n)); lia || done.
  - rewrite list_lookup_insert_ne by done.
    destruct (Nat.leb_spec (S k0) j), (Nat.leb_spec k0 j), (Nat.ltb_spec j (S k0 + n)),
      (Nat.ltb_spec j (k0 + S n)); lia || done.
Qed.

Lemma written_last d d' k0 n g :
  (k0 + n < length d)%nat -> written (<[(k0 + n)%nat := g (k0 + n)%nat]> d) d' k0 n g -> written d d' k0 (S n) g.
Proof.
  intros Hk [Hl Hw]. rewrite length_insert in Hl. split; [done |]. intros j. rewrite Hw.
  destruct (decide (j = k0 + n)%nat) as [->|Hne].
  - rewrite list_lookup_insert_eq by done.
    destruct (Nat.ltb_spec (k0 + n) (k0 + n)), (Nat.leb_spec k0 (k0 + n)), (Nat.ltb_spec (k0 + n) (k0 + S n));
      lia || done.
  - rewrite list_lookup_insert_ne by done.
    destruct (Nat.leb_spec k0 j), (Nat.ltb_spec j (k0 + n)), (Nat.ltb_spec j (k0 + S n)); lia || done.
Qed.

(** A loop whose step [k] writes [g k] to word [k] of [dst], provided the words
    from [k] on are those the loop started with. *)
Lemma for_up_from (s : store) dst d g body n : forall k0 e,
  (k0 + n <= length d)%nat -> length e = length d -> (forall j, (k0 <= j)%nat -> e !! j = d !! j) ->
  (forall k e, (k0 <= k < k0 + n)%nat -> length e = length d -> (forall j, (k <= j)%nat -> e !! j = d !! j) ->
    body k (<[dst := e]> s) = Some (tt, <[dst := <[k := g k]> e]> s)) ->
  exists d', for_up k0 n body (<[dst := e]> s) = Some (tt, <[dst := d']> s) /\ written e d' k0 n g.
Proof.
  induction n as [|n IH]; intros k0 e Hn He Hag Hbody; cbn [for_up].
  - exists e. split; [done | apply written_none].
  - rewrite (bind_ok _ _ _ _ _ (Hbody k0 e ltac:(lia) He Hag)).
    destruct (IH (S k0) (<[k0 := g k0]> e)) as (d' & Hd' & Hw).
    + lia.
    + by rewrite length_insert.
    + intros j Hj. rewrite list_lookup_insert_ne by lia. apply Hag. lia.
    + intros k e' Hk. apply Hbody. lia.
    + exists d'. split; [done |]. apply written_first; [lia | done].
Qed.

Lemma for_up_words (s : store) dst d g body k0 n :
  s !! dst = Some d -> (k0 + n <= length d)%nat ->
  (forall k e, (k0 <= k < k0 + n)%nat -> length e = length d -> (forall j, (k <= j)%nat -> e !! j = d !! j) ->
    body k (<[dst := e]> s) = Some (tt, <[dst := <[k := g k]> e]> s)) ->
  exists d', for_up k0 n body s = Some (tt, <[dst := d']> s) /\ written d d' k0 n g.
Proof.
  intros Hd Hn Hbody. pose proof (for_up_from s dst d g body n k0 d) as H.
  rewrite (insert_id s dst d Hd) in H. by apply H.
Qed.

(** The same downwards, where step [k] writes to word [k + off]. *)
Lemma for_down_words (s : store) dst d g body off n :
  s !! dst = Some d -> (off + n <= length d)%nat ->
  (forall k e, (k < n)%nat -> length e = length d -> (forall j, (j <= off + k)%nat -> e !! j = d !! j) ->
    body k (<[dst := e]> s) = Some (tt, <[dst := <[(off + k)%nat := g (off + k)%nat]> e]> s)) ->
  exists d', for_down n body s = Some (tt, <[dst := d']> s) /\ written d d' off n g.
Proof.
  intros Hd Hn Hbody.
  enough (H : forall e, length e = length d -> (forall j, (j < off + n)%nat -> e !! j = d !! j) ->
    exists d', for_down n body (<[dst := e]> s) = Some (tt, <[dst := d']> s) /\ written e d' off n g)
    by (specialize (H d); rewrite (insert_id s dst d Hd) in H; by apply H).
  induction n as [|n IH]; intros e He Hag; cbn [for_down].
  - exists e. split; [done | apply written_none].
  - rewrite (bind_ok _ _ _ _ _ (Hbody n e ltac:(lia) He ltac:(intros; apply Hag; lia))).
    destruct (IH ltac:(lia) ltac:(intros; apply Hbody; auto; lia) (<[(off + n)%nat := g (off + n)%nat]> e))
      as (d' & Hd' & Hw).
    + by rewrite length_insert.
    + intros j Hj. rewrite list_lookup_insert_ne by lia. apply Hag. lia.
    + exists d'. split; [done |]. apply written_last; [lia | done].
Qed.

(** A word of an array that may be the one the loop writes. *)
Lemma rd_shared (s : store) dst d src m e k w :
  s !! dst = Some d -> s !! src = Some m -> e !! k = d !! k -> m !! k = Some w ->
  rd src k (<[dst := e]> s) = Some (w, <[dst := e]> s).
Proof.
  intros Hd Hm He Hk. destruct (decide (src = dst)) as [->|Hne].
  - simplify_eq. apply (rd_ok _ _ e); [apply lookup_insert_eq | congruence].
  - apply (rd_ok _ _ m); [| done]. by rewrite lookup_insert_ne.
Qed.

Lemma wr_dst (s : store) dst e k v :
  (k < length e)%nat -> wr dst k v (<[dst := e]> s) = Some (tt, <[dst := <[k := v]> e]> s).
Proof. intros Hk. rewrite (wr_ok _ _ e); [| apply lookup_insert_eq | done]. by rewrite insert_insert_eq. Qed.

(** ** Bits of arrays *)

Definition bit (m : list Z) (i : Z) : bool := Z.testbit (bm_val m) i.

Lemma bit_word m k w j :
  words_ok m -> m !! k = Some w -> 0 <= j < 64 -> bit m (64 * Z.of_nat k + j) = Z.testbit w j.
Proof.
  intros Hm Hk Hj. unfold bit. rewrite (bm_val_word m k w) by (auto; lia). f_equal. lia.
Qed.

(** Word and place of a bit. *)
Lemma bit_place i : 0 <= i -> exists k j, i = 64 * Z.of_nat k + j /\ 0 <= j < 64.
Proof.
  intros Hi. exists (Z.to_nat (i / 64)), (i mod 64). assert (0 <= i / 64) by (apply Z.div_pos; lia).
  rewrite Z2Nat.id by done. split; [apply Z.div_mod; lia | apply Z.mod_pos_bound; lia].
Qed.

Lemma BITS_TO_LONGS_bounds bits :
  0 <= bits -> 64 * (BITS_TO_LONGS bits - 1) < bits <= 64 * BITS_TO_LONGS bits.
Proof. intros Hb. unfold BITS_TO_LONGS, BITS_PER_LONG. Z.div_mod_to_equations. lia. Qed.

Lemma mask_testbit n j : 0 <= n < 64 -> 0 <= j -> Z.testbit (ul_shl 1 n - 1) j = (j <? n).
Proof.
  intros Hn Hj. unfold ul_shl. assert (2 ^ n < 2 ^ 64) by (apply Z.pow_lt_mono_r; lia).
  rewrite Z.shiftl_mul_pow2, Z.mul_1_l, uwrap_small by (pose proof (Z.pow_nonneg 2 n); lia).
  replace (2 ^ n - 1) with (Z.ones n) by (rewrite Z.ones_equiv; lia). apply Z.testbit_ones_nonneg; lia.
Qed.

Lemma mask_ulong n : 0 <= n < 64 -> is_ulong (ul_shl 1 n - 1).
Proof.
  intros Hn. unfold ul_shl. assert (0 < 2 ^ n < 2 ^ 64) by (split; [apply Z.pow_pos_nonneg | apply Z.pow_lt_mono_r]; lia).
  rewrite Z.shiftl_mul_pow2, Z.mul_1_l, uwrap_small by lia. red. lia.
Qed.

(** A word with the bits behind the end of the bitmap masked off. *)
Lemma clipped_testbit m bits k w j :
  words_ok m -> 0 <= bits -> m !! k = Some w -> Z.of_nat k < BITS_TO_LONGS bits -> 0 <= j < 64 ->
  Z.testbit (if negb (bits mod 64 =? 0) && (Z.of_nat k =? BITS_TO_LONGS bits - 1)
             then w .& (ul_shl 1 (bits mod 64) - 1) else w) j =
  (64 * Z.of_nat k + j <? bits) && bit m (64 * Z.of_nat k + j).
Proof.
  intros Hm Hb Hk Hlt Hj. rewrite (bit_word m k w) by done.
  pose proof (BITS_TO_LONGS_bounds bits Hb). pose proof (Z.mod_pos_bound bits 64 ltac:(lia)).
  pose proof (Z.div_mod bits 64 ltac:(lia)).
  destruct (Z.eqb_spec (bits mod 64) 0); simpl; [by zbool |].
  destruct (Z.eqb_spec (Z.of_nat k) (BITS_TO_LONGS bits - 1)); [| by zbool].
  rewrite Z.land_spec, mask_testbit, andb_comm by lia. f_equal.
  assert (bits / 64 = Z.of_nat k) by lia.
  destruct (Z.ltb_spec j (bits mod 64)), (Z.ltb_spec (64 * Z.of_nat k + j) bits); lia || done.
Qed.

Lemma clipped_ulong bits (b : bool) w : is_ulong w -> is_ulong (if b then w .& (ul_shl 1 (bits mod 64) - 1) else w).
Proof. intros Hw. destruct b; [apply land_range, Hw | exact Hw]. Qed.

(** The two halves of a shifted word. *)
Lemma funnel_right upper lower rem j :
  is_ulong upper -> is_ulong lower -> 0 <= rem < 64 -> (rem = 0 -> upper = 0) -> 0 <= j < 64 ->
  Z.testbit (ul_shl upper (64 - rem) .| (lower .>> rem)) j =
  if j + rem <? 64 then Z.testbit lower (j + rem) else Z.testbit upper (j + rem - 64).
Proof.
  intros Hu Hl Hr H0 Hj. rewrite Z.lor_spec, Z.shiftr_spec by lia. unfold ul_shl. rewrite u64_testbit by lia.
  rewrite Z.shiftl_spec by lia. replace (j - (64 - rem)) with (j + rem - 64) by lia.
  rewrite (proj2 (Z.ltb_lt j 64)) by lia. rewrite andb_true_l. destruct (Z.ltb_spec (j + rem) 64).
  - by rewrite Z.testbit_neg_r by lia.
  - rewrite (ulong_high lower) by (auto; lia). by rewrite orb_false_r.
Qed.

Lemma funnel_left upper lower rem j :
  is_ulong upper -> is_ulong lower -> 0 <= rem < 64 -> (rem = 0 -> lower = 0) -> 0 <= j < 64 ->
  Z.testbit ((lower .>> (64 - rem)) .| ul_shl upper rem) j =
  if rem <=? j then Z.testbit upper (j - rem) else Z.testbit lower (j - rem + 64).
Proof.
  intros Hu Hl Hr H0 Hj. rewrite Z.lor_spec, Z.shiftr_spec by lia. unfold ul_shl. rewrite u64_testbit by lia.
  rewrite Z.shiftl_spec by lia. replace (j + (64 - rem)) with (j - rem + 64) by lia.
  rewrite (proj2 (Z.ltb_lt j 64)) by lia. rewrite andb_true_l. destruct (Z.leb_spec rem j).
  - rewrite (ulong_high lower) by (auto; lia). done.
  - rewrite (Z.testbit_neg_r upper) by lia. apply orb_false_r.
Qed.

Lemma funnel_ulong a b n k : 0 <= k -> is_ulong b -> is_ulong (ul_shl a n .| (b .>> k)).
Proof. intros. apply ulong_lor; [apply ulong_shl |]. apply shiftr_range; auto. Qed.

(** The bits of an array some words of which were written. *)
Lemma written_bit d d' k0 n g i :
  words_ok d -> written d d' k0 n g -> (forall j, (k0 <= j < k0 + n)%nat -> is_ulong (g j)) ->
  64 * Z.of_nat k0 <= i < 64 * Z.of_nat (k0 + n) -> (k0 + n <= length d)%nat ->
  exists k j, (k0 <= k < k0 + n)%nat /\ i = 64 * Z.of_nat k + j /\ 0 <= j < 64 /\ bit d' i = Z.testbit (g k) j.
Proof.
  intros Hd Hw Hg Hi Hn. destruct (bit_place i) as (k & j & -> & Hj); [lia |]. exists k, j.
  split; [lia |]. split; [done |]. split; [done |]. apply bit_word; [by eapply written_ok | | done].
  destruct Hw as [_ Hw]. rewrite Hw. by rewrite (proj2 (Nat.leb_le k0 k)), (proj2 (Nat.ltb_lt k (k0 + n))) by lia.
Qed.

Lemma written_other d d' k0 n g i :
  words_ok d -> words_ok d' -> written d d' k0 n g -> 0 <= i ->
  i < 64 * Z.of_nat k0 \/ 64 * Z.of_nat (k0 + n) <= i -> bit d' i = bit d i.
Proof.
  intros Hd Hd' [_ Hw] Hi Hout. unfold bit. rewrite !bm_val_testbit by done. rewrite Hw.
  pose proof (Z.div_mod i 64 ltac:(lia)). pose proof (Z.mod_pos_bound i 64 ltac:(lia)).
  destruct (Nat.leb_spec k0 (Z.to_nat (i / 64))), (Nat.ltb_spec (Z.to_nat (i / 64)) (k0 + n)); lia || done.
Qed.

Lemma clear_words_ok (s : store) dst d k0 n :
  s !! dst = Some d -> words_ok d -> (k0 + n <= length d)%nat ->
  exists d', clear_words dst k0 n s = Some (tt, <[dst := d']> s) /\ words_ok d' /\ length d' = length d /\
    forall i, 0 <= i -> bit d' i = negb ((64 * Z.of_nat k0 <=? i) && (i <? 64 * Z.of_nat (k0 + n))) && bit d i.
Proof.
  intros Hd Hok Hn. destruct (for_up_words s dst d (fun _ => 0) (fun k => wr dst k 0) k0 n) as (d' & Hr & Hw).
  { done. } { done. } { intros k e Hk He _. apply wr_dst. lia. }
  assert (Hok' : words_ok d') by (eapply written_ok; eauto; intros; red; lia).
  exists d'. split; [done |]. split; [done |]. split; [apply Hw |]. intros i Hi.
  destruct (Z.leb_spec (64 * Z.of_nat k0) i), (Z.ltb_spec i (64 * Z.of_nat (k0 + n))); simpl.
  2, 3, 4: by eapply written_other; eauto; lia.
  edestruct (written_bit d d' k0 n (fun _ => 0) i) as (k & j & ? & ? & ? & ->); eauto; [red; lia |].
  apply Z.testbit_0_l.
Qed.

(** ** Shifts *)

Section shifts.
#[local] Set Default Proof Using "All".
Context (s : store) (dst src : nat) (d m : list Z) (shift bits : Z).
Context (Hd : s !! dst = Some d) (Hm : s !! src = Some m) (Hdok : words_ok d) (Hmok : words_ok m).
Context (Hbits : 0 <= bits) (Hshift : 0 <= shift <= 64 * BITS_TO_LONGS bits).
Context (Hdl : BITS_TO_LONGS bits <= Z.of_nat (length d)) (Hml : BITS_TO_LONGS bits <= Z.of_nat (length m)).

Let lim := BITS_TO_LONGS bits.
Let off := shift / 64.
Let rem := shift mod 64.

(** The word [k] of the source without the bits behind the end. *)
Definition clipped (k : Z) (w : Z) : Z :=
  if negb (bits mod 64 =? 0) && (k =? lim - 1) then w .& (ul_shl 1 (bits mod 64) - 1) else w.
Definition source (k : Z) : Z := clipped k (default 0 (m !! Z.to_nat k)).

Lemma shift_facts : 0 <= off <= lim /\ 0 <= rem < 64 /\ shift = 64 * off + rem.
Proof.
  pose proof (Z.div_mod shift 64 ltac:(lia)). pose proof (Z.mod_pos_bound shift 64 ltac:(lia)).
  unfold off, rem, lim. lia.
Qed.

Lemma source_lookup k : 0 <= k < lim -> exists w, m !! Z.to_nat k = Some w /\ is_ulong w /\ source k = clipped k w.
Proof.
  intros Hk. destruct (lookup_lt_is_Some_2 m (Z.to_nat k)) as [w Hw]; [unfold lim in *; lia |].
  exists w. split; [done |]. split; [by eapply Forall_lookup_1 |]. unfold source. by rewrite Hw.
Qed.

Lemma source_ulong k : 0 <= k < lim -> is_ulong (source k).
Proof. intros Hk. destruct (source_lookup k Hk) as (w & _ & Hw & ->). by apply clipped_ulong. Qed.

Lemma source_testbit k j :
  0 <= k < lim -> 0 <= j < 64 -> Z.testbit (source k) j = (64 * k + j <? bits) && bit m (64 * k + j).
Proof.
  intros Hk Hj. destruct (source_lookup k Hk) as (w & Hw & _ & ->).
  pose proof (clipped_testbit m bits (Z.to_nat k) w j Hmok Hbits Hw) as H.
  rewrite Z2Nat.id in H by lia. apply H; [apply Hk | done].
Qed.

Lemma clipped_testbit_out k w j :
  0 <= k < lim -> 0 <= j < 64 -> Z.testbit (clipped k w) j = (64 * k + j <? bits) && Z.testbit w j.
Proof.
  intros Hk Hj. unfold clipped. pose proof (BITS_TO_LONGS_bounds bits Hbits) as HB. fold lim in HB.
  pose proof (Z.mod_pos_bound bits 64 ltac:(lia)). pose proof (Z.div_mod bits 64 ltac:(lia)).
  destruct (Z.eqb_spec (bits mod 64) 0); simpl; [by zbool |].
  destruct (Z.eqb_spec k (lim - 1)); [| by zbool].
  rewrite Z.land_spec, mask_testbit, andb_comm by lia. f_equal. assert (bits / 64 = k) by lia.
  destruct (Z.ltb_spec j (bits mod 64)), (Z.ltb_spec (64 * k + j) bits); lia || done.
Qed.

Definition right_word (k : nat) : Z :=
  let k := Z.of_nat k in
  let upper := if (rem =? 0) || (off + k + 1 >=? lim) then 0 else source (off + k + 1) in
  clipped k (ul_shl upper (64 - rem) .| (source (off + k) .>> rem)).

Lemma right_word_testbit k j :
  off + Z.of_nat k < lim -> 0 <= j < 64 ->
  let i := 64 * Z.of_nat k + j in
  Z.testbit (right_word k) j = (i + shift <? bits) && bit m (i + shift).
Proof.
  intros Hk Hj i. destruct shift_facts as (Ho & Hr & Es). unfold right_word.
  set (upper := if (rem =? 0) || (off + Z.of_nat k + 1 >=? lim) then 0 else source (off + Z.of_nat k + 1)).
  assert (Hu : is_ulong upper).
  { unfold upper. destruct (Z.eqb_spec rem 0), (Z.geb_spec (off + Z.of_nat k + 1) lim); simpl;
      try (red; lia). apply source_ulong. lia. }
  rewrite clipped_testbit_out, funnel_right by
    (try apply source_ulong; try (unfold upper; intros ->); done || lia). fold i.
  transitivity ((i <? bits) && ((i + shift <? bits) && bit m (i + shift)));
    [f_equal | destruct (Z.ltb_spec i bits), (Z.ltb_spec (i + shift) bits); lia || done].
  destruct (Z.ltb_spec (j + rem) 64).
  - rewrite source_testbit by lia. do 2 f_equal; unfold i; lia.
  - unfold upper. replace (rem =? 0) with false by lia. simpl.
    pose proof (BITS_TO_LONGS_bounds bits Hbits) as HB. fold lim in HB.
    destruct (Z.geb_spec (off + Z.of_nat k + 1) lim).
    + rewrite Z.testbit_0_l. replace (i + shift <? bits) with false by lia. done.
    + rewrite source_testbit by lia. do 2 f_equal; unfold i; lia.
Qed.

Lemma right_word_ulong k : off + Z.of_nat k < lim -> is_ulong (right_word k).
Proof.
  intros Hk. destruct shift_facts as (? & ? & _). apply clipped_ulong, funnel_ulong; [lia |].
  apply source_ulong. lia.
Qed.

Definition left_word (k' : nat) : Z :=
  let k := Z.of_nat k' - off in
  let lower := if negb (rem =? 0) && (k >? 0) then default 0 (m !! Z.to_nat (k - 1)) else 0 in
  clipped (k + off) ((lower .>> (64 - rem)) .| ul_shl (source k) rem).

Lemma left_word_testbit k j :
  off <= Z.of_nat k < lim -> 0 <= j < 64 ->
  let i := 64 * Z.of_nat k + j in
  Z.testbit (left_word k) j = (i <? bits) && ((shift <=? i) && bit m (i - shift)).
Proof.
  intros Hk Hj i. destruct shift_facts as (Ho & Hr & Es). unfold left_word.
  set (k1 := Z.of_nat k - off).
  set (lower := if negb (rem =? 0) && (k1 >? 0) then default 0 (m !! Z.to_nat (k1 - 1)) else 0).
  assert (Hl : is_ulong lower).
  { unfold lower. destruct (negb (rem =? 0) && (k1 >? 0)) eqn:E; [| red; lia].
    destruct (source_lookup (k1 - 1)) as (w & -> & ? & _); [lia | done]. }
  rewrite clipped_testbit_out, funnel_left by
    (try apply source_ulong; try (unfold lower; intros ->); done || lia).
  replace (64 * (k1 + off) + j) with i by lia. destruct (Z.ltb_spec i bits); [| done]. rewrite !andb_true_l.
  pose proof (BITS_TO_LONGS_bounds bits Hbits) as HB. fold lim in HB.
  destruct (Z.leb_spec rem j).
  - rewrite source_testbit by lia. replace (64 * k1 + (j - rem)) with (i - shift) by lia.
    replace (shift <=? i) with true by lia. by replace (i - shift <? bits) with true by lia.
  - unfold lower. replace (rem =? 0) with false by lia. rewrite andb_true_l.
    destruct (Z.gtb_spec k1 0).
    + destruct (source_lookup (k1 - 1)) as (w & Hw & ? & _); [lia |]. rewrite Hw. simpl default.
      rewrite <- (bit_word m (Z.to_nat (k1 - 1)) w) by (done || lia).
      replace (shift <=? i) with true by lia. rewrite andb_true_l. f_equal. lia.
    + rewrite Z.testbit_0_l. by replace (shift <=? i) with false by lia.
Qed.

Lemma left_word_ulong k : off <= Z.of_nat k < lim -> is_ulong (left_word k).
Proof.
  intros Hk. destruct shift_facts as (? & ? & _). apply clipped_ulong. rewrite Z.lor_comm.
  apply funnel_ulong; [lia |]. destruct (negb (rem =? 0) && (Z.of_nat k - off >? 0)) eqn:E; [| red; lia].
  destruct (source_lookup (Z.of_nat k - off - 1)) as (w & -> & ? & _); [lia | done].
Qed.

(** The write of a word and the second write that clips it. *)
Lemma wr_clipped e k (z v : Z) :
  (k < length e)%nat ->
  (_ ← wr dst k v; if negb (bits mod 64 =? 0) && (z =? lim - 1)
                   then w ← rd dst k; wr dst k (w .& (ul_shl 1 (bits mod 64) - 1)) else mret ())
    (<[dst := e]> s) = Some (tt, <[dst := <[k := clipped z v]> e]> s).
Proof.
  intros Hk. rewrite (bind_ok _ _ _ _ _ (wr_dst s dst e k v Hk)). unfold clipped.
  destruct (negb _ && _); [| done].
  rewrite (bind_ok _ _ _ v (<[dst := <[k := v]> e]> s)).
  - rewrite wr_dst by (by rewrite length_insert). by rewrite list_insert_insert_eq.
  - eapply rd_ok; [apply lookup_insert_eq | by apply list_lookup_insert_eq].
Qed.

Lemma rd_source e k :
  0 <= k < lim -> e !! Z.to_nat k = d !! Z.to_nat k ->
  exists w, rd src (Z.to_nat k) (<[dst := e]> s) = Some (w, <[dst := e]> s) /\
    m !! Z.to_nat k = Some w /\ source k = clipped k w.
Proof.
  intros Hk He. destruct (source_lookup k Hk) as (w & Hw & _ & E). exists w. split; [| done].
  by eapply rd_shared.
Qed.

Lemma shift_right_step_ok k e :
  (k < Z.to_nat (lim - off))%nat -> length e = length d -> (forall j, (k <= j)%nat -> e !! j = d !! j) ->
  shift_right_step dst src lim (bits mod 64) off rem k (<[dst := e]> s) =
  Some (tt, <[dst := <[k := right_word k]> e]> s).
Proof.
  intros Hk He Hag. destruct shift_facts as (Ho & Hr & Es). unfold shift_right_step.
  rewrite (bind_ok _ _ _
    (if (rem =? 0) || (off + Z.of_nat k + 1 >=? lim) then 0 else source (off + Z.of_nat k + 1))
    (<[dst := e]> s)).
  2: { destruct ((rem =? 0) || (off + Z.of_nat k + 1 >=? lim)) eqn:E; [done |].
       apply orb_false_iff in E as [_ E]. rewrite Z.geb_leb in E. apply Z.leb_gt in E.
       destruct (rd_source e (off + Z.of_nat k + 1)) as (w & Hw & _ & ->); [lia | apply Hag; lia |].
       rewrite (bind_ok _ _ _ _ _ Hw). unfold clipped. by rewrite andb_comm. }
  destruct (rd_source e (off + Z.of_nat k)) as (w & Hw & _ & E); [lia | apply Hag; lia |].
  rewrite (bind_ok _ _ _ _ _ Hw). fold (clipped (off + Z.of_nat k) w). rewrite <- E.
  apply wr_clipped. unfold lim in *. lia.
Qed.

Lemma shift_right_ok :
  exists d', __bitmap_shift_right dst src shift bits s = Some (tt, <[dst := d']> s) /\
    words_ok d' /\ length d' = length d /\
    forall i, 0 <= i < 64 * lim -> bit d' i = (i + shift <? bits) && bit m (i + shift).
Proof.
  destruct shift_facts as (Ho & Hr & Es). unfold __bitmap_shift_right, BITS_PER_LONG. fold lim off rem.
  pose proof (BITS_TO_LONGS_bounds bits Hbits) as HB. fold lim in HB.
  destruct (for_up_words s dst d right_word (shift_right_step dst src lim (bits mod 64) off rem) 0
    (Z.to_nat (lim - off))) as (d1 & E1 & W1); [done | unfold lim in *; lia | |].
  { intros k e Hk. apply shift_right_step_ok. lia. }
  assert (Hg : forall j, (0 <= j < 0 + Z.to_nat (lim - off))%nat -> is_ulong (right_word j))
    by (intros; apply right_word_ulong; lia).
  pose proof (written_ok _ _ _ _ _ Hdok W1 Hg) as Hok1.
  assert (Hl1 : length d1 = length d) by apply W1.
  assert (Hlow : forall i, 0 <= i < 64 * (lim - off) -> bit d1 i = (i + shift <? bits) && bit m (i + shift)).
  { intros i Hi. destruct (written_bit d d1 0 (Z.to_nat (lim - off)) right_word i) as (k & j & ? & -> & ? & ->);
      auto; [lia | unfold lim in *; lia |]. apply right_word_testbit; lia. }
  rewrite (bind_ok _ _ _ _ _ E1). destruct (Z.eqb_spec off 0); cbn [negb].
  { exists d1. split; [done |]. split; [done |]. split; [done |]. intros i Hi. apply Hlow. lia. }
  destruct (clear_words_ok (<[dst := d1]> s) dst d1 (Z.to_nat (lim - off)) (Z.to_nat off))
    as (d2 & E2 & Hok2 & Hl2 & Hb2); [apply lookup_insert_eq | done | unfold lim in *; lia |].
  exists d2. rewrite E2, insert_insert_eq. split; [done |]. split; [done |]. split; [congruence |].
  intros i Hi. rewrite Hb2 by lia. rewrite Nat2Z.inj_add, !Z2Nat.id by lia.
  destruct (Z.lt_ge_cases i (64 * (lim - off))); [rewrite Hlow by lia |]; by zbool.
Qed.

Lemma shift_left_step_ok k e :
  (k < Z.to_nat (lim - off))%nat -> length e = length d ->
  (forall j, (j <= Z.to_nat off + k)%nat -> e !! j = d !! j) ->
  shift_left_step dst src lim (bits mod 64) off rem k (<[dst := e]> s) =
  Some (tt, <[dst := <[(Z.to_nat off + k)%nat := left_word (Z.to_nat off + k)]> e]> s).
Proof.
  intros Hk He Hag. destruct shift_facts as (Ho & Hr & Es). unfold shift_left_step, left_word.
  replace (Z.of_nat (Z.to_nat off + k) - off) with (Z.of_nat k) by lia.
  rewrite (bind_ok _ _ _
    (if negb (rem =? 0) && (Z.of_nat k >? 0) then default 0 (m !! Z.to_nat (Z.of_nat k - 1)) else 0)
    (<[dst := e]> s)).
  2: { destruct (negb (rem =? 0) && (Z.of_nat k >? 0)) eqn:E; [| done].
       destruct (rd_source e (Z.of_nat k - 1)) as (w & -> & -> & _); [lia | apply Hag; lia | done]. }
  destruct (rd_source e (Z.of_nat k)) as (w & Hw & _ & E); [lia | apply Hag; lia |]. rewrite Nat2Z.id in Hw.
  rewrite (bind_ok _ _ _ _ _ Hw). fold (clipped (Z.of_nat k) w). rewrite <- E.
  replace (Z.to_nat (Z.of_nat k + off)) with (Z.to_nat off + k)%nat by lia.
  apply wr_clipped. unfold lim in *. lia.
Qed.

Lemma shift_left_ok :
  exists d', __bitmap_shift_left dst src shift bits s = Some (tt, <[dst := d']> s) /\
    words_ok d' /\ length d' = length d /\
    forall i, 0 <= i < 64 * lim -> bit d' i = (i <? bits) && ((shift <=? i) && bit m (i - shift)).
Proof.
  destruct shift_facts as (Ho & Hr & Es). unfold __bitmap_shift_left, BITS_PER_LONG. fold lim off rem.
  destruct (for_down_words s dst d left_word (shift_left_step dst src lim (bits mod 64) off rem) (Z.to_nat off)
    (Z.to_nat (lim - off))) as (d1 & E1 & W1); [done | unfold lim in *; lia | |].
  { intros k e Hk. by apply shift_left_step_ok. }
  assert (Hg : forall j, (Z.to_nat off <= j < Z.to_nat off + Z.to_nat (lim - off))%nat -> is_ulong (left_word j))
    by (intros; apply left_word_ulong; lia).
  pose proof (written_ok _ _ _ _ _ Hdok W1 Hg) as Hok1.
  assert (Hl1 : length d1 = length d) by apply W1.
  assert (Hhigh : forall i, 64 * off <= i < 64 * lim ->
    bit d1 i = (i <? bits) && ((shift <=? i) && bit m (i - shift))).
  { intros i Hi. destruct (written_bit d d1 (Z.to_nat off) (Z.to_nat (lim - off)) left_word i)
      as (k & j & ? & -> & ? & ->); auto; [lia | unfold lim in *; lia |]. apply left_word_testbit; lia. }
  rewrite (bind_ok _ _ _ _ _ E1). destruct (Z.eqb_spec off 0); cbn [negb].
  { exists d1. split; [done |]. split; [done |]. split; [done |]. intros i Hi. apply Hhigh. lia. }
  destruct (clear_words_ok (<[dst := d1]> s) dst d1 0 (Z.to_nat off))
    as (d2 & E2 & Hok2 & Hl2 & Hb2); [apply lookup_insert_eq | done | unfold lim in *; lia |].
  exists d2. rewrite E2, insert_insert_eq. split; [done |]. split; [done |]. split; [congruence |].
  intros i Hi. rewrite Hb2 by lia. rewrite Nat2Z.inj_add, Z2Nat.id by lia.
  destruct (Z.lt_ge_cases i (64 * off)); [| rewrite Hhigh by lia]; zbool; by rewrite ?andb_false_r.
Qed.
End shifts.

(** ** Predicates *)

Lemma LAST_WORD_MASK_testbit bits j :
  bits mod 64 <> 0 -> 0 <= j -> Z.testbit (BITMAP_LAST_WORD_MASK bits) j = (j <? bits mod 64).
Proof.
  intros Hne Hj. unfold BITMAP_LAST_WORD_MASK, BITS_PER_LONG. pose proof (Z.mod_pos_bound bits 64 ltac:(lia)).
  zbool. cbn [negb]. apply mask_testbit; lia.
Qed.

Lemma for_any_ok (s : store) test f n : forall k,
  (forall j, (k <= j < k + n)%nat -> test j s = Some (f j, s)) ->
  exists b, for_any k n test s = Some (b, s) /\ (b = true <-> exists j, (k <= j < k + n)%nat /\ f j = true).
Proof.
  induction n as [|n IH]; intros k Ht; cbn [for_any].
  - exists false. split; [done |]. split; [done |]. intros (j & ? & _). lia.
  - rewrite (bind_ok _ _ _ _ _ (Ht k ltac:(lia))). destruct (f k) eqn:E.
    + exists true. split; [done |]. split; [| done]. intros _. exists k. split; [lia | done].
    + destruct (IH (S k)) as (b & Hb & Hiff); [intros; apply Ht; lia |]. exists b. split; [done |].
      rewrite Hiff. split; intros (j & Hj & Hf); exists j; (split; [| done]); [lia |].
      assert (j <> k) by congruence. lia.
Qed.

(** Some bit below [bits] has the property that the tests look for. *)
Definition some_bit (F : Z -> bool) (bits : Z) : Prop := exists i, 0 <= i < bits /\ F i = true.

Lemma word_bit w : is_ulong w -> negb (w =? 0) = true <-> exists j, 0 <= j < 64 /\ Z.testbit w j = true.
Proof.
  intros Hw. split.
  - intros H. apply (nonzero_bit w Hw). intros ->. done.
  - intros (j & Hj & Hb). destruct (Z.eqb_spec w 0) as [->|]; [| done]. by rewrite Z.testbit_0_l in Hb.
Qed.

Section scan.
Context (s : store) (bits : Z) (f : nat -> Z) (F : Z -> bool) (whole last : nat -> M bool).
Context (Hbits : 0 <= bits).
Context (Hf : forall k, Z.of_nat k < BITS_TO_LONGS bits -> is_ulong (f k)).
Context (HF : forall k j, Z.of_nat k < BITS_TO_LONGS bits -> 0 <= j < 64 ->
  F (64 * Z.of_nat k + j) = Z.testbit (f k) j).
Context (Hwhole : forall k, Z.of_nat k < bits / 64 -> whole k s = Some (negb (f k =? 0), s)).
Context (Hlast : forall k, Z.of_nat k = bits / 64 -> bits mod 64 <> 0 ->
  last k s = Some (negb (f k .& BITMAP_LAST_WORD_MASK bits =? 0), s)).
#[local] Set Default Proof Using "All".

Lemma scan_ok : exists b, scan whole last bits s = Some (b, s) /\ (b = true <-> some_bit F bits).
Proof.
  pose proof (Z.div_mod bits 64 ltac:(lia)). pose proof (Z.mod_pos_bound bits 64 ltac:(lia)).
  pose proof (BITS_TO_LONGS_bounds bits Hbits). assert (0 <= bits / 64) by (apply Z.div_pos; lia).
  unfold scan, BITS_PER_LONG.
  destruct (for_any_ok s whole (fun k => negb (f k =? 0)) (Z.to_nat (bits / 64)) 0) as (b & Hb & Hiff).
  { intros k Hk. apply Hwhole. lia. }
  rewrite (bind_ok _ _ _ _ _ Hb). destruct b.
  { exists true. split; [done |]. split; [intros _ | done]. destruct Hiff as [Hiff _].
    destruct (Hiff eq_refl) as (k & Hk & Hbit). apply word_bit in Hbit as (j & Hj & Hbit); [| apply Hf; lia].
    exists (64 * Z.of_nat k + j). rewrite HF by lia. split; [lia | done]. }
  assert (Hlow : forall i, 0 <= i < 64 * (bits / 64) -> F i = false).
  { intros i Hi. destruct (bit_place i) as (k & j & -> & Hj); [lia |]. destruct (F _) eqn:E; [| done].
    rewrite HF in E by lia. destruct Hiff as [_ Hiff]. discriminate Hiff. exists k. split; [lia |].
    apply word_bit; [apply Hf; lia | by exists j]. }
  destruct (Z.eqb_spec (bits mod 64) 0) as [E|E]; cbn [negb].
  { exists false. split; [done |]. split; [done |]. intros (i & Hi & HFi). rewrite Hlow in HFi by lia. done. }
  set (k := Z.to_nat (bits / 64)). rewrite (Hlast k) by lia.
  eexists. split; [done |]. rewrite word_bit by (apply land_range, Hf; lia).
  split.
  - intros (j & Hj & Hbit). rewrite Z.land_spec, LAST_WORD_MASK_testbit in Hbit by lia.
    apply andb_prop in Hbit as [Hb1 Hb2]. exists (64 * Z.of_nat k + j). rewrite HF by lia. split; [lia | done].
  - intros (i & Hi & HFi). destruct (Z.lt_ge_cases i (64 * (bits / 64))); [by rewrite Hlow in HFi by lia |].
    exists (i - 64 * (bits / 64)). split; [lia |].
    replace i with (64 * Z.of_nat k + (i - 64 * (bits / 64))) in HFi by lia. rewrite HF in HFi by lia.
    rewrite Z.land_spec, HFi, LAST_WORD_MASK_testbit by lia. lia.
Qed.
End scan.

(** Words of an array that holds the bitmap. *)
Lemma array_word m bits k :
  words_ok m -> BITS_TO_LONGS bits <= Z.of_nat (length m) -> Z.of_nat k < BITS_TO_LONGS bits ->
  exists w, m !! k = Some w /\ is_ulong w.
Proof.
  intros Hm Hl Hk. destruct (lookup_lt_is_Some_2 m k) as [w Hw]; [lia |]. exists w. split; [done |].
  by eapply Forall_lookup_1.
Qed.

(** A predicate that reads one or two arrays: [op] combines their words. *)
Section predicates_ok.
Context (s : store) (p q : nat) (a b : list Z) (bits : Z).
Context (Ha : s !! p = Some a) (Hb : s !! q = Some b) (Haok : words_ok a) (Hbok : words_ok b).
Context (Hbits : 0 <= bits).
Context (Hal : BITS_TO_LONGS bits <= Z.of_nat (length a)) (Hbl : BITS_TO_LONGS bits <= Z.of_nat (length b)).
#[local] Set Default Proof Using "All".

Lemma scan2_ok (op : Z -> Z -> Z) (bop : bool -> bool -> bool) (whole last : nat -> M bool) :
  (forall x y, is_ulong x -> is_ulong y -> is_ulong (op x y)) ->
  (forall x y j, is_ulong x -> is_ulong y -> 0 <= j < 64 ->
    Z.testbit (op x y) j = bop (Z.testbit x j) (Z.testbit y j)) ->
  (forall k x y, a !! k = Some x -> b !! k = Some y -> is_ulong x -> is_ulong y ->
    whole k s = Some (negb (op x y =? 0), s) /\
    last k s = Some (negb (op x y .& BITMAP_LAST_WORD_MASK bits =? 0), s)) ->
  exists hit, scan whole last bits s = Some (hit, s) /\
    (hit = true <-> some_bit (fun i => bop (bit a i) (bit b i)) bits).
Proof.
  intros Hop Hbop Hread. pose proof (BITS_TO_LONGS_bounds bits Hbits).
  pose proof (Z.div_mod bits 64 ltac:(lia)). pose proof (Z.mod_pos_bound bits 64 ltac:(lia)).
  assert (Hwords : forall k, Z.of_nat k < BITS_TO_LONGS bits -> exists x y, a !! k = Some x /\ b !! k = Some y /\
    is_ulong x /\ is_ulong y /\ op (default 0 (a !! k)) (default 0 (b !! k)) = op x y).
  { intros k Hk. destruct (array_word a bits k) as (x & Hx & ?); [done | done | done |].
    destruct (array_word b bits k) as (y & Hy & ?); [done | done | done |]. exists x, y. by rewrite Hx, Hy. }
  apply (scan_ok s bits (fun k => op (default 0 (a !! k)) (default 0 (b !! k)))); [done | | | |].
  - intros k Hk. destruct (Hwords k Hk) as (x & y & _ & _ & ? & ? & ->). auto.
  - intros k j Hk Hj. destruct (Hwords k Hk) as (x & y & Hx & Hy & ? & ? & ->).
    rewrite Hbop, (bit_word a k x), (bit_word b k y) by done. done.
  - intros k Hk. destruct (Hwords k) as (x & y & Hx & Hy & ? & ? & ->); [lia |]. by apply (Hread k x y).
  - intros k Hk Hne. destruct (Hwords k) as (x & y & Hx & Hy & ? & ? & ->); [lia |]. by apply (Hread k x y).
Qed.
End predicates_ok.

(** ** Word-wise operations *)

(** [d'] has in its first [n] words the combination of the words of [a] and [b]. *)
Section pointwise.
Context (s : store) (dst p q : nat) (d a b : list Z) (bits : Z) (op : Z -> Z -> Z) (bop : bool -> bool -> bool).
Context (Hd : s !! dst = Some d) (Ha : s !! p = Some a) (Hb : s !! q = Some b).
Context (Hdok : words_ok d) (Haok : words_ok a) (Hbok : words_ok b) (Hbits : 0 <= bits).
Context (Hdl : BITS_TO_LONGS bits <= Z.of_nat (length d)).
Context (Hal : BITS_TO_LONGS bits <= Z.of_nat (length a)) (Hbl : BITS_TO_LONGS bits <= Z.of_nat (length b)).
Context (Hop : forall x y, is_ulong x -> is_ulong y -> is_ulong (op x y)).
Context (Hbop : forall x y j, is_ulong x -> is_ulong y -> 0 <= j < 64 ->
  Z.testbit (op x y) j = bop (Z.testbit x j) (Z.testbit y j)).
#[local] Set Default Proof Using "All".

Definition combined (k : nat) : Z := op (default 0 (a !! k)) (default 0 (b !! k)).

Lemma combined_words k : Z.of_nat k < BITS_TO_LONGS bits ->
  exists x y, a !! k = Some x /\ b !! k = Some y /\ is_ulong x /\ is_ulong y /\ combined k = op x y.
Proof.
  intros Hk. destruct (array_word a bits k) as (x & Hx & ?); [done | done | done |].
  destruct (array_word b bits k) as (y & Hy & ?); [done | done | done |].
  exists x, y. unfold combined. by rewrite Hx, Hy.
Qed.

Lemma written_combined d' n :
  Z.of_nat n <= BITS_TO_LONGS bits -> written d d' 0 n combined ->
  words_ok d' /\ forall i, 0 <= i < 64 * Z.of_nat n -> bit d' i = bop (bit a i) (bit b i).
Proof.
  intros Hn Hw. assert (Hg : forall j, (0 <= j < 0 + n)%nat -> is_ulong (combined j)).
  { intros k Hk. destruct (combined_words k) as (x & y & _ & _ & ? & ? & ->); [lia | auto]. }
  split; [exact (written_ok _ _ _ _ _ Hdok Hw Hg) |]. intros i Hi.
  destruct (written_bit d d' 0 n combined i) as (k & j & Hk & -> & Hj & ->); auto; [lia |].
  destruct (combined_words k) as (x & y & Hx & Hy & ? & ? & ->); [lia |].
  rewrite Hbop, (bit_word a k x), (bit_word b k y) by done. done.
Qed.

Lemma for_up_combined n :
  Z.of_nat n <= BITS_TO_LONGS bits ->
  exists d', for_up 0 n (fun k => x ← rd p k; y ← rd q k; wr dst k (op x y)) s = Some (tt, <[dst := d']> s) /\
    written d d' 0 n combined.
Proof.
  intros Hn. apply for_up_words; [done | lia |]. intros k e Hk He Hag.
  destruct (combined_words k) as (x & y & Hx & Hy & _ & _ & ->); [lia |].
  rewrite (bind_ok _ _ _ x (<[dst := e]> s)) by (eapply rd_shared; eauto).
  rewrite (bind_ok _ _ _ y (<[dst := e]> s)) by (eapply rd_shared; eauto).
  apply wr_dst. lia.
Qed.

(** The loop that also collects the result. *)
Lemma combine_loop_for_up n : forall k (st : store) st' r,
  for_up k n (fun k => x ← rd p k; y ← rd q k; wr dst k (op x y)) st = Some (tt, st') ->
  exists r', combine_loop op dst p q k n r st = Some (r', st').
Proof.
  induction n as [|n IH]; intros k st st' r H; cbn [for_up combine_loop] in *.
  - injection H as ->. by exists r.
  - unfold mbind, M_bind in *. destruct (rd p k st) as [[x s1]|]; [| done].
    destruct (rd q k s1) as [[y s2]|]; [| done]. destruct (wr dst k (op x y) s2) as [[[] s3]|]; [| done].
    by apply IH.
Qed.

Lemma combine_loop_result n : forall k r e r' st',
  Z.of_nat (k + n) <= BITS_TO_LONGS bits -> length e = length d -> (forall j, (k <= j)%nat -> e !! j = d !! j) ->
  combine_loop op dst p q k n r (<[dst := e]> s) = Some (r', st') ->
  (r' <> 0 <-> r <> 0 \/ exists j, (k <= j < k + n)%nat /\ combined j <> 0).
Proof.
  induction n as [|n IH]; intros k r e r' st' Hn He Hag H; cbn [combine_loop] in H.
  { injection H as -> _. split; [by left |]. intros [?|(j & ? & _)]; [done | lia]. }
  destruct (combined_words k) as (x & y & Hx & Hy & _ & _ & Ec); [lia |].
  rewrite (bind_ok _ _ _ x (<[dst := e]> s)) in H by (eapply rd_shared; eauto).
  rewrite (bind_ok _ _ _ y (<[dst := e]> s)) in H by (eapply rd_shared; eauto).
  rewrite (bind_ok _ _ _ _ _ (wr_dst s dst e k (op x y) ltac:(lia))) in H.
  apply IH in H.
  - rewrite H, Z.lor_eq_0_iff, <- Ec. split.
    + intros [Hr|(j & Hj & Hc)]; [| right; exists j; split; [lia | done]].
      destruct (Z.eq_dec r 0); [| by left]. right. exists k. split; [lia | tauto].
    + intros [Hr|(j & Hj & Hc)]; [left; tauto |].
      destruct (decide (j = k)) as [->|]; [left; tauto | right; exists j; split; [lia | done]].
  - lia.
  - by rewrite length_insert.
  - intros j Hj. rewrite list_lookup_insert_ne by lia. apply Hag. lia.
Qed.

Lemma for_up_pointwise :
  exists d', for_up 0 (Z.to_nat (BITS_TO_LONGS bits)) (fun k => x ← rd p k; y ← rd q k; wr dst k (op x y)) s =
      Some (tt, <[dst := d']> s) /\ words_ok d' /\ length d' = length d /\
    forall i, 0 <= i < 64 * BITS_TO_LONGS bits -> bit d' i = bop (bit a i) (bit b i).
Proof.
  pose proof (BITS_TO_LONGS_bounds bits Hbits).
  destruct (for_up_combined (Z.to_nat (BITS_TO_LONGS bits))) as (d' & E & W); [lia |].
  destruct (written_combined d' (Z.to_nat (BITS_TO_LONGS bits)) ltac:(lia) W) as [Hok Hbit]. exists d'.
  split; [done |]. split; [done |].
  split; [apply W |]. intros i Hi. apply Hbit. lia.
Qed.

Lemma combine_loop_pointwise :
  exists d' r, combine_loop op dst p q 0 (Z.to_nat (BITS_TO_LONGS bits)) 0 s = Some (r, <[dst := d']> s) /\
    words_ok d' /\ length d' = length d /\
    (forall i, 0 <= i < 64 * BITS_TO_LONGS bits -> bit d' i = bop (bit a i) (bit b i)) /\
    (negb (r =? 0) = true <-> some_bit (bit d') (64 * BITS_TO_LONGS bits)).
Proof.
  pose proof (BITS_TO_LONGS_bounds bits Hbits).
  destruct (for_up_combined (Z.to_nat (BITS_TO_LONGS bits))) as (d' & E & W); [lia |].
  destruct (written_combined d' (Z.to_nat (BITS_TO_LONGS bits)) ltac:(lia) W) as [Hok Hbit].
  destruct (combine_loop_for_up _ _ _ _ 0 E) as (r & Er). exists d', r. split; [done |]. split; [done |].
  split; [apply W |]. split; [intros i Hi; apply Hbit; lia |].
  rewrite <- (insert_id s dst d Hd) in Er at 1. apply combine_loop_result in Er; [| lia | done | done].
  rewrite negb_true_iff, Z.eqb_neq, Er. split.
  - intros [?|(k & Hk & Hc)]; [done |].
    destruct (combined_words k) as (x & y & Hx & Hy & ? & ? & Ec); [lia |]. rewrite Ec in Hc.
    destruct (nonzero_bit (op x y)) as (j & Hj & Hjb); [auto | done |].
    exists (64 * Z.of_nat k + j). split; [lia |]. rewrite Hbit by lia.
    rewrite (bit_word a k x), (bit_word b k y), <- Hbop by done. done.
  - intros (i & Hi & Hib). right. rewrite Hbit in Hib by lia. destruct (bit_place i) as (k & j & -> & Hj); [lia |].
    exists k. split; [lia |]. destruct (combined_words k) as (x & y & Hx & Hy & ? & ? & ->); [lia |].
    rewrite (bit_word a k x), (bit_word b k y), <- Hbop in Hib by done. intros E0. by rewrite E0, Z.testbit_0_l in Hib.
Qed.
End pointwise.

(** ** Weight *)

Lemma count_ext P Q n : (forall i, 0 <= i < Z.of_nat n -> P i = Q i) -> count P n = count Q n.
Proof.
  induction n as [|n IH]; intros H; simpl; [done |]. rewrite IH by (intros; apply H; lia).
  by rewrite H by lia.
Qed.

Lemma count_add P n m : count P (n + m) = count P n + count (fun i => P (Z.of_nat n + i)) m.
Proof.
  induction m as [|m IH]; simpl; [rewrite Nat.add_0_r; lia |].
  rewrite Nat.add_succ_r. simpl. rewrite IH. rewrite Nat2Z.inj_add. lia.
Qed.

Lemma count_none P n : (forall i, 0 <= i < Z.of_nat n -> P i = false) -> count P n = 0.
Proof. induction n as [|n IH]; intros H; simpl; [done |]. rewrite IH, H by (auto with lia). done. Qed.

Lemma count_bounds P n : 0 <= count P n <= Z.of_nat n.
Proof. induction n as [|n IH]; simpl; [lia |]. destruct (P (Z.of_nat n)); simpl; lia. Qed.

Lemma weight_loop_ok (s : store) p m n : forall k w,
  s !! p = Some m -> words_ok m -> (k + n <= length m)%nat ->
  weight_loop p k n w s = Some (w + count (fun i => bit m (64 * Z.of_nat k + i)) (64 * n), s).
Proof.
  induction n as [|n IH]; intros k w Hp Hm Hk; cbn [weight_loop].
  - simpl. by rewrite Z.add_0_r.
  - destruct (lookup_lt_is_Some_2 m k) as [x Hx]; [lia |]. assert (is_ulong x) by (by eapply Forall_lookup_1).
    rewrite (bind_ok _ _ _ _ _ (rd_ok _ _ _ _ _ Hp Hx)). rewrite IH by (done || lia). do 2 f_equal.
    replace (64 * S n)%nat with (64 + 64 * n)%nat by lia. rewrite count_add, hweight64_count by done.
    rewrite (count_ext (fun i => bit m (64 * Z.of_nat k + i)) (Z.testbit x) 64)
      by (intros i Hi; apply bit_word; [done | done | lia]).
    rewrite (count_ext (fun i => bit m (64 * Z.of_nat (S k) + i))
      (fun i => bit m (64 * Z.of_nat k + (Z.of_nat 64 + i)))) by (intros; f_equal; lia). lia.
Qed.

Lemma bitmap_weight_ok (s : store) p m bits :
  s !! p = Some m -> words_ok m -> 0 <= bits -> BITS_TO_LONGS bits <= Z.of_nat (length m) ->
  __bitmap_weight p bits s = Some (count (bit m) (Z.to_nat bits), s).
Proof.
  intros Hp Hm Hb Hl. pose proof (BITS_TO_LONGS_bounds bits Hb). unfold __bitmap_weight, BITS_PER_LONG.
  pose proof (Z.div_mod bits 64 ltac:(lia)). pose proof (Z.mod_pos_bound bits 64 ltac:(lia)).
  assert (0 <= bits / 64) by (apply Z.div_pos; lia). set (lim := Z.to_nat (bits / 64)).
  rewrite (bind_ok _ _ _ _ _ (weight_loop_ok s p m lim 0 0 Hp Hm ltac:(lia))).
  replace (Z.to_nat bits) with (64 * lim + Z.to_nat (bits mod 64))%nat by lia.
  rewrite count_add, Z.add_0_l. destruct (Z.eqb_spec (bits mod 64) 0) as [E|E]; cbn [negb].
  { rewrite E. simpl. by rewrite Z.add_0_r. }
  destruct (array_word m bits lim) as (x & Hx & Hxu); [done | done | lia |].
  rewrite (bind_ok _ _ _ _ _ (rd_ok _ _ _ _ _ Hp Hx)).
  rewrite hweight64_count by (apply land_range, Hxu). do 2 f_equal.
  unfold mret, M_ret. do 3 f_equal.
  replace 64%nat with (Z.to_nat (bits mod 64) + (64 - Z.to_nat (bits mod 64)))%nat at 1 by lia.
  rewrite count_add, (count_none _ (64 - _)), Z.add_0_r.
  - apply count_ext. intros i Hi. rewrite Z.land_spec, LAST_WORD_MASK_testbit by lia.
    rewrite Nat2Z.inj_mul, (bit_word m lim x) by (done || lia). zbool. apply andb_true_r.
  - intros i Hi. rewrite Z.land_spec, LAST_WORD_MASK_testbit by lia. zbool. apply andb_false_r.
Qed.

(** ** Complement and single bits *)

Lemma insert_bit d k v i :
  words_ok d -> is_ulong v -> (k < length d)%nat -> 0 <= i ->
  bit (<[k := v]> d) i = if i / 64 =? Z.of_nat k then Z.testbit v (i mod 64) else bit d i.
Proof.
  intros Hd Hv Hk Hi. assert (words_ok (<[k := v]> d)) by (by apply Forall_insert).
  unfold bit. rewrite !bm_val_testbit by done. assert (0 <= i / 64) by (apply Z.div_pos; lia).
  destruct (Z.eqb_spec (i / 64) (Z.of_nat k)) as [->|Hne].
  - by rewrite Nat2Z.id, list_lookup_insert_eq.
  - by rewrite list_lookup_insert_ne by lia.
Qed.

Lemma complement_ok (s : store) dst src d m bits :
  s !! dst = Some d -> s !! src = Some m -> words_ok d -> words_ok m -> 0 <= bits ->
  BITS_TO_LONGS bits <= Z.of_nat (length d) -> BITS_TO_LONGS bits <= Z.of_nat (length m) ->
  exists d', __bitmap_complement dst src bits s = Some (tt, <[dst := d']> s) /\ words_ok d' /\
    length d' = length d /\
    forall i, 0 <= i < 64 * BITS_TO_LONGS bits -> bit d' i = (i <? bits) && negb (bit m i).
Proof.
  intros Hd Hm Hdok Hmok Hb Hdl Hml. pose proof (BITS_TO_LONGS_bounds bits Hb).
  pose proof (Z.div_mod bits 64 ltac:(lia)). pose proof (Z.mod_pos_bound bits 64 ltac:(lia)).
  assert (0 <= bits / 64) by (apply Z.div_pos; lia).
  unfold __bitmap_complement, BITS_PER_LONG. set (lim := Z.to_nat (bits / 64)).
  destruct (for_up_words s dst d (fun k => ul_not (default 0 (m !! k)))
    (fun k => w ← rd src k; wr dst k (ul_not w)) 0 lim) as (d1 & E1 & W1); [done | lia | |].
  { intros k e Hk He Hag. destruct (array_word m bits k) as (x & Hx & _); [done | done | lia |]. rewrite Hx.
    rewrite (bind_ok _ _ _ x (<[dst := e]> s)) by (eapply rd_shared; eauto). apply wr_dst. lia. }
  assert (Hg : forall j, (0 <= j < 0 + lim)%nat -> is_ulong (ul_not (default 0 (m !! j))))
    by (intros; apply ul_not_range).
  pose proof (written_ok _ _ _ _ _ Hdok W1 Hg) as Hok1.
  assert (Hlow : forall i, 0 <= i < 64 * (bits / 64) -> bit d1 i = negb (bit m i)).
  { intros i Hi. destruct (written_bit _ _ _ _ _ i Hdok W1 Hg) as (k & j & Hk & -> & Hj & ->); [lia | lia |].
    destruct (array_word m bits k) as (x & Hx & _); [done | done | lia |].
    rewrite Hx, (bit_word m k x), ul_not_testbit by (done || lia). simpl. by zbool. }
  rewrite (bind_ok _ _ _ _ _ E1). destruct (Z.eqb_spec (bits mod 64) 0) as [E|E]; cbn [negb].
  { exists d1. split; [done |]. split; [done |]. split; [apply W1 |]. intros i Hi. rewrite Hlow by lia. by zbool. }
  destruct (array_word m bits lim) as (x & Hx & _); [done | done | lia |].
  assert (Hl1 : length d1 = length d) by apply W1.
  rewrite (bind_ok _ _ _ x (<[dst := d1]> s)).
  2: { eapply rd_shared; eauto. destruct W1 as [_ W1]. rewrite W1.
       by rewrite (proj2 (Nat.ltb_ge lim (0 + lim))), andb_false_r by lia. }
  rewrite wr_dst by lia. eexists. split; [done |].
  assert (Hv : is_ulong (ul_not x .& BITMAP_LAST_WORD_MASK bits)) by apply land_range, ul_not_range.
  split; [by apply Forall_insert |]. split; [by rewrite length_insert |]. intros i Hi.
  rewrite insert_bit by (done || lia). replace (Z.of_nat lim) with (bits / 64) by lia.
  pose proof (Z.div_mod i 64 ltac:(lia)). pose proof (Z.mod_pos_bound i 64 ltac:(lia)).
  destruct (Z.eqb_spec (i / 64) (bits / 64)).
  - rewrite Z.land_spec, LAST_WORD_MASK_testbit, ul_not_testbit by lia.
    assert (bit m i = Z.testbit x (i mod 64)) as ->.
    { replace i with (64 * Z.of_nat lim + i mod 64) at 1 by lia. by apply bit_word. }
    replace (i <? bits) with (i mod 64 <? bits mod 64)
      by (destruct (Z.ltb_spec (i mod 64) (bits mod 64)); symmetry; [apply Z.ltb_lt | apply Z.ltb_ge]; lia).
    rewrite andb_comm. by zbool.
  - rewrite Hlow by lia. by zbool.
Qed.


Lemma one_shl_testbit n j : 0 <= n < 64 -> 0 <= j -> Z.testbit (ul_shl 1 n) j = (j =? n).
Proof.
  intros Hn Hj. unfold ul_shl. rewrite u64_testbit by done. rewrite Z.shiftl_mul_pow2, Z.mul_1_l by lia.
  destruct (Z.eqb_spec j n) as [->|]; [rewrite Z.pow2_bits_true by lia; by zbool |].
  rewrite Z.pow2_bits_false by lia. apply andb_false_r.
Qed.

Lemma set_bit_ok (s : store) p d nr :
  s !! p = Some d -> words_ok d -> 0 <= nr < 64 * Z.of_nat (length d) ->
  exists d', set_bit nr p s = Some (tt, <[p := d']> s) /\ words_ok d' /\ length d' = length d /\
    forall i, 0 <= i -> bit d' i = (i =? nr) || bit d i.
Proof.
  intros Hp Hd Hnr. unfold set_bit, BITS_PER_LONG.
  pose proof (Z.div_mod nr 64 ltac:(lia)). pose proof (Z.mod_pos_bound nr 64 ltac:(lia)).
  assert (0 <= nr / 64) by (apply Z.div_pos; lia). set (k := Z.to_nat (nr / 64)).
  destruct (lookup_lt_is_Some_2 d k) as [w Hw]; [lia |]. assert (is_ulong w) by (by eapply Forall_lookup_1).
  rewrite (bind_ok _ _ _ _ _ (rd_ok _ _ _ _ _ Hp Hw)), (wr_ok _ _ _ _ _ Hp) by lia.
  assert (is_ulong (w .| ul_shl 1 (nr mod 64))) by auto using ulong_lor, ulong_shl.
  eexists. split; [done |]. split; [by apply Forall_insert |]. split; [by rewrite length_insert |].
  intros i Hi. rewrite insert_bit by (done || lia).
  pose proof (Z.div_mod i 64 ltac:(lia)). pose proof (Z.mod_pos_bound i 64 ltac:(lia)).
  destruct (Z.eqb_spec (i / 64) (Z.of_nat k)).
  - rewrite Z.lor_spec, one_shl_testbit by lia. replace i with (64 * Z.of_nat k + i mod 64) at 4 by lia.
    rewrite (bit_word d k w), orb_comm by (done || lia). f_equal.
    destruct (Z.eqb_spec (i mod 64) (nr mod 64)), (Z.eqb_spec i nr); lia || done.
  - by replace (i =? nr) with false by (symmetry; apply Z.eqb_neq; intros ->; lia).
Qed.

Lemma test_bit_ok (s : store) p m nr :
  s !! p = Some m -> words_ok m -> 0 <= nr < 64 * Z.of_nat (length m) -> test_bit nr p s = Some (bit m nr, s).
Proof.
  intros Hp Hm Hnr. unfold test_bit. rewrite land_63. unfold BITS_PER_LONG.
  pose proof (Z.div_mod nr 64 ltac:(lia)). pose proof (Z.mod_pos_bound nr 64 ltac:(lia)).
  assert (0 <= nr / 64) by (apply Z.div_pos; lia). set (k := Z.to_nat (nr / 64)).
  destruct (lookup_lt_is_Some_2 m k) as [w Hw]; [lia |].
  rewrite (bind_ok _ _ _ _ _ (rd_ok _ _ _ _ _ Hp Hw)).
  replace nr with (64 * Z.of_nat k + nr mod 64) at 2 by lia. rewrite (bit_word m k w) by done.
  change 1 with (Z.ones 1). rewrite Z.land_ones by lia. change (2 ^ 1) with 2. rewrite Zmod_odd.
  rewrite <- Z.bit0_odd, Z.shiftr_spec, Z.add_0_l by lia. by destruct (Z.testbit w (nr mod 64)).
Qed.

Lemma bitmap_zero_ok (s : store) p d bits :
  s !! p = Some d -> words_ok d -> 0 <= bits -> BITS_TO_LONGS bits <= Z.of_nat (length d) ->
  exists d', bitmap_zero p bits s = Some (tt, <[p := d']> s) /\ words_ok d' /\ length d' = length d /\
    forall i, 0 <= i -> bit d' i = negb (i <? 64 * BITS_TO_LONGS bits) && bit d i.
Proof.
  intros Hp Hd Hb Hl. pose proof (BITS_TO_LONGS_bounds bits Hb).
  destruct (clear_words_ok s p d 0 (Z.to_nat (BITS_TO_LONGS bits))) as (d' & E & Hok & Hlen & Hbit); [done | done | lia |].
  exists d'. split; [done |]. split; [done |]. split; [done |]. intros i Hi. rewrite Hbit by done.
  rewrite (proj2 (Z.leb_le (64 * Z.of_nat 0) i)) by lia. rewrite andb_true_l. do 3 f_equal. lia.
Qed.

(** ** Properties *)

(** [p] points to the array [m], which has room for [bits] bits. *)
Definition array_at (s : store) (p : nat) (bits : Z) (m : list Z) : Prop :=
  s !! p = Some m /\ words_ok m /\ BITS_TO_LONGS bits <= Z.of_nat (length m).

(** [s'] is [s] with the array at [dst] replaced by one whose bits, up to the
    end of the last word in use, are [F]. *)
Definition stored (s s' : store) (dst : nat) (bits : Z) (F : Z -> bool) : Prop :=
  exists d', s' = <[dst := d']> s /\ array_at s' dst bits d' /\
    forall i, 0 <= i < 64 * BITS_TO_LONGS bits -> bit d' i = F i.

Lemma stored_intro s dst bits d d' F :
  array_at s dst bits d -> words_ok d' -> length d' = length d ->
  (forall i, 0 <= i < 64 * BITS_TO_LONGS bits -> bit d' i = F i) -> stored s (<[dst := d']> s) dst bits F.
Proof.
  intros (_ & _ & Hl) Hok Hlen HF. exists d'. split; [done |]. split; [| done].
  split; [apply lookup_insert_eq |]. split; [done |]. lia.
Qed.

Lemma ulong_lxor x y : is_ulong x -> is_ulong y -> is_ulong (x .^ y).
Proof.
  intros Hx Hy. unfold is_ulong in *. assert (0 <= x .^ y) by (apply Z.lxor_nonneg; lia). split; [done |].
  destruct (Z.eq_dec (x .^ y) 0) as [->|]; [lia |]. apply Z.log2_lt_pow2; [lia |].
  pose proof (Z.log2_lxor x y ltac:(lia) ltac:(lia)).
  assert (forall z, 0 <= z < 2 ^ 64 -> Z.log2 z < 64).
  { intros z Hz. destruct (Z.eq_dec z 0) as [->|]; [done |]. apply Z.log2_lt_pow2; lia. }
  pose proof (H1 x Hx). pose proof (H1 y Hy). lia.
Qed.

(** shifting a bitmap by up to its own (rounded) length moves every bit by
    [shift] places and feeds in zeros: the bits past [bits] of the source never
    enter the result, and those of the result are zero.  This holds for any
    alignment and also when source and destination are the same array. *)
Theorem bitmap_shift_correct s dst src shift bits d m :
  array_at s dst bits d -> array_at s src bits m -> 0 <= bits -> 0 <= shift <= 64 * BITS_TO_LONGS bits ->
  (exists s', __bitmap_shift_right dst src shift bits s = Some (tt, s') /\
     stored s s' dst bits (fun i => (i + shift <? bits) && bit m (i + shift))) /\
  (exists s', __bitmap_shift_left dst src shift bits s = Some (tt, s') /\
     stored s s' dst bits (fun i => (i <? bits) && ((shift <=? i) && bit m (i - shift)))).
Proof.
  intros Hda (Hm & Hmok & Hml) Hb Hs. pose proof Hda as (Hd & Hdok & Hdl). split.
  - destruct (shift_right_ok s dst src d m shift bits) as (d' & E & ? & ? & ?); try done.
    eexists. split; [exact E |]. by eapply stored_intro.
  - destruct (shift_left_ok s dst src d m shift bits) as (d' & E & ? & ? & ?); try done.
    eexists. split; [exact E |]. by eapply stored_intro.
Qed.

Definition shift_example : store := {[ 0%nat := [0x8000000000000001; 0x5] ]}.

Lemma bitmap_shift_correct_witness :
  __bitmap_shift_left 0 0 63 70 shift_example = Some (tt, {[ 0%nat := [0x8000000000000000; 0x0] ]}) /\
  exists s', __bitmap_shift_left 0 0 63 70 shift_example = Some (tt, s') /\
    stored shift_example s' 0 70 (fun i => (i <? 70) && ((63 <=? i) && bit [0x8000000000000001; 0x5] (i - 63))).
Proof.
  split; [reflexivity |].
  assert (H : array_at shift_example 0 70 [0x8000000000000001; 0x5])
    by (split; [reflexivity |]; split; [by apply words_okb | vm_compute; discriminate]).
  apply (bitmap_shift_correct shift_example 0 0 63 70 _ _ H H); [lia |]. vm_compute. split; discriminate.
Defined.

(** the word-wise operations compute conjunction, difference, union,
    symmetric difference and complement bit by bit, in place or not; [and] and
    [andnot] also report whether the words they stored have a set bit. *)
Theorem bitmap_logic_correct s dst p q bits d a b :
  array_at s dst bits d -> array_at s p bits a -> array_at s q bits b -> 0 <= bits ->
  (exists r s', __bitmap_and dst p q bits s = Some (r, s') /\
     stored s s' dst bits (fun i => bit a i && bit b i) /\
     (r = true <-> some_bit (fun i => bit a i && bit b i) (64 * BITS_TO_LONGS bits))) /\
  (exists r s', __bitmap_andnot dst p q bits s = Some (r, s') /\
     stored s s' dst bits (fun i => bit a i && negb (bit b i)) /\
     (r = true <-> some_bit (fun i => bit a i && negb (bit b i)) (64 * BITS_TO_LONGS bits))) /\
  (exists s', __bitmap_or dst p q bits s = Some (tt, s') /\ stored s s' dst bits (fun i => bit a i || bit b i)) /\
  (exists s', __bitmap_xor dst p q bits s = Some (tt, s') /\ stored s s' dst bits (fun i => xorb (bit a i) (bit b i))) /\
  (exists s', __bitmap_complement dst p bits s = Some (tt, s') /\
     stored s s' dst bits (fun i => (i <? bits) && negb (bit a i))).
Proof.
  intros Hda (Ha & Haok & Hal) (Hb & Hbok & Hbl) Hbits. pose proof Hda as (Hd & Hdok & Hdl).
  assert (Hflag : forall d' (F : Z -> bool) r, (forall i, 0 <= i < 64 * BITS_TO_LONGS bits -> bit d' i = F i) ->
    (r = true <-> some_bit (bit d') (64 * BITS_TO_LONGS bits)) -> (r = true <-> some_bit F (64 * BITS_TO_LONGS bits))).
  { intros d' F r HF ->. split; intros (i & Hi & Hbit); exists i; (split; [done |]); by rewrite HF in *. }
  split_and!.
  - destruct (combine_loop_pointwise s dst p q d a b bits Z.land andb) as (d' & r & E & ? & ? & HF & ?); try done.
    { intros. by apply land_range. } { intros. apply Z.land_spec. }
    eexists _, _. split; [unfold __bitmap_and; rewrite (bind_ok _ _ _ _ _ E); reflexivity |].
    split; [by eapply stored_intro | by eapply Hflag].
  - destruct (combine_loop_pointwise s dst p q d a b bits (fun x y => x .& ul_not y) (fun x y => x && negb y))
      as (d' & r & E & ? & ? & HF & ?); try done.
    { intros. by apply land_range. }
    { intros. rewrite Z.land_spec, ul_not_testbit by lia. by zbool. }
    eexists _, _. split; [unfold __bitmap_andnot; rewrite (bind_ok _ _ _ _ _ E); reflexivity |].
    split; [by eapply stored_intro | by eapply Hflag].
  - destruct (for_up_pointwise s dst p q d a b bits Z.lor orb) as (d' & E & ? & ? & HF); try done.
    { apply ulong_lor. } { intros. apply Z.lor_spec. }
    eexists. split; [exact E | by eapply stored_intro].
  - destruct (for_up_pointwise s dst p q d a b bits Z.lxor xorb) as (d' & E & ? & ? & HF); try done.
    { apply ulong_lxor. } { intros. apply Z.lxor_spec. }
    eexists. split; [exact E | by eapply stored_intro].
  - destruct (complement_ok s dst p d a bits) as (d' & E & ? & ? & HF); try done.
    eexists. split; [exact E | by eapply stored_intro].
Qed.

Definition logic_example : store := {[ 0%nat := [0xF0; 0x3]; 1%nat := [0x3C; 0x8]; 2%nat := [0; 0] ]}.

Lemma logic_example_at p m :
  logic_example !! p = Some m -> words_ok m /\ length m = 2%nat -> array_at logic_example p 66 m.
Proof. intros Hp [Hok Hl]. split; [done |]. split; [done |]. rewrite Hl. vm_compute. discriminate. Qed.

Lemma bitmap_logic_correct_witness :
  __bitmap_and 2 0 1 66 logic_example = Some (true, <[2%nat := [0x30; 0]]> logic_example) /\
  exists s', __bitmap_complement 0 0 66 logic_example = Some (tt, s') /\
    stored logic_example s' 0 66 (fun i => (i <? 66) && negb (bit [0xF0; 0x3] i)).
Proof.
  split; [reflexivity |].
  assert (H0 : array_at logic_example 0 66 [0xF0; 0x3])
    by (apply logic_example_at; [reflexivity | split; [by apply words_okb | done]]).
  assert (H1 : array_at logic_example 1 66 [0x3C; 0x8])
    by (apply logic_example_at; [reflexivity | split; [by apply words_okb | done]]).
  apply (bitmap_logic_correct logic_example 0 0 1 66 _ _ _ H0 H0 H1). lia.
Defined.

(** The result of [and] is not confined to the bitmap: two bitmaps of one bit
    that share no bit report an intersection when the unused bits of their
    words do. *)
Theorem and_counts_unused_bits :
  let s : store := {[ 0%nat := [0x2]; 1%nat := [0x3]; 2%nat := [0] ]} in
  __bitmap_and 2 0 1 1 s = Some (true, <[2%nat := [0x2]]> s) /\
  __bitmap_intersects 0 1 1 s = Some (false, s).
Proof. split; reflexivity. Qed.

Lemma some_bit_ext F G bits : (forall i, 0 <= i < bits -> F i = G i) -> some_bit F bits -> some_bit G bits.
Proof. intros E (i & Hi & Hf). exists i. split; [done |]. by rewrite <- E. Qed.

(** The negation of a scan's result, as the predicates return it. *)
Lemma no_bit hit F bits (P : Z -> Prop) :
  (forall i, F i = false <-> P i) -> (hit = true <-> some_bit F bits) ->
  negb hit = true <-> forall i, 0 <= i < bits -> P i.
Proof.
  intros HP Hhit. destruct hit; simpl; split.
  - done.
  - intros H. destruct Hhit as [Hhit _]. destruct (Hhit eq_refl) as (i & Hi & Hf).
    specialize (H i Hi). apply HP in H. congruence.
  - intros _ i Hi. apply HP. destruct (F i) eqn:E; [| done]. destruct Hhit as [_ Hhit].
    discriminate Hhit. by exists i.
  - done.
Qed.

(** Reads two words and returns a test of them. *)
Lemma rd2 (s : store) p q a b k x y (t : Z -> Z -> bool) :
  s !! p = Some a -> s !! q = Some b -> a !! k = Some x -> b !! k = Some y ->
  (v ← rd p k; w ← rd q k; mret (t v w)) s = Some (t x y, s).
Proof.
  intros Hp Hq Hx Hy. rewrite (bind_ok _ _ _ _ _ (rd_ok _ _ _ _ _ Hp Hx)).
  by rewrite (bind_ok _ _ _ _ _ (rd_ok _ _ _ _ _ Hq Hy)).
Qed.

Lemma rd1 (s : store) p a k x (t : Z -> bool) :
  s !! p = Some a -> a !! k = Some x -> (v ← rd p k; mret (t v)) s = Some (t x, s).
Proof. intros Hp Hx. by rewrite (bind_ok _ _ _ _ _ (rd_ok _ _ _ _ _ Hp Hx)). Qed.

(** Instantiates the scan of the predicate [f] with the operation on words and
    on bits that it computes. *)
Ltac use_scan f Hscan op bop :=
  unfold f;
  match goal with |- context [scan ?w ?l _] => destruct (Hscan op bop w l) as (hit & E & Hhit) end.

(** the predicates decide emptiness, fullness, equality, intersection and
    inclusion of the first [bits] bits, [bitmap_weight] counts them, and none of
    them depends on the unused bits of the last word. *)
Theorem bitmap_predicates_correct s p q bits a b :
  array_at s p bits a -> array_at s q bits b -> 0 <= bits ->
  (exists r, __bitmap_empty p bits s = Some (r, s) /\ (r = true <-> forall i, 0 <= i < bits -> bit a i = false)) /\
  (exists r, __bitmap_full p bits s = Some (r, s) /\ (r = true <-> forall i, 0 <= i < bits -> bit a i = true)) /\
  (exists r, __bitmap_equal p q bits s = Some (r, s) /\ (r = true <-> forall i, 0 <= i < bits -> bit a i = bit b i)) /\
  (exists r, __bitmap_intersects p q bits s = Some (r, s) /\ (r = true <-> some_bit (fun i => bit a i && bit b i) bits)) /\
  (exists r, __bitmap_subset p q bits s = Some (r, s) /\
     (r = true <-> forall i, 0 <= i < bits -> bit a i = true -> bit b i = true)) /\
  __bitmap_weight p bits s = Some (count (bit a) (Z.to_nat bits), s).
Proof.
  intros (Ha & Haok & Hal) (Hb & Hbok & Hbl) Hbits.
  pose proof (scan2_ok s p q a b bits Ha Hb Haok Hbok Hbits Hal Hbl) as Hscan.
  split_and!.
  - use_scan __bitmap_empty Hscan (fun x _ : Z => x) (fun x _ : bool => x); [done | done | |].
    { intros k x y Hx Hy _ _. split; by apply (rd1 s p a k x). }
    eexists. split; [rewrite (bind_ok _ _ _ _ _ E); reflexivity |].
    by eapply no_bit; [| exact Hhit].
  - use_scan __bitmap_full Hscan (fun x _ : Z => ul_not x) (fun x _ : bool => negb x).
    { intros. apply ul_not_range. } { intros. rewrite ul_not_testbit by lia. by zbool. }
    { intros k x y Hx Hy _ _. split; by apply (rd1 s p a k x). }
    eexists. split; [rewrite (bind_ok _ _ _ _ _ E); reflexivity |].
    eapply no_bit; [| exact Hhit]. intros i. apply negb_false_iff.
  - use_scan __bitmap_equal Hscan Z.lxor xorb; [apply ulong_lxor | intros; apply Z.lxor_spec | |].
    { intros k x y Hx Hy _ _. split; [| by apply (rd2 s p q a b k x y)].
      replace (x .^ y =? 0) with (x =? y) by (apply Bool.eq_iff_eq_true; by rewrite !Z.eqb_eq, Z.lxor_eq_0_iff).
      by apply (rd2 s p q a b k x y). }
    eexists. split; [rewrite (bind_ok _ _ _ _ _ E); reflexivity |].
    eapply no_bit; [| exact Hhit]. intros i. simpl. by destruct (bit a i), (bit b i).
  - use_scan __bitmap_intersects Hscan Z.land andb; [intros; by apply land_range | intros; apply Z.land_spec | |].
    { intros k x y Hx Hy _ _. split; by apply (rd2 s p q a b k x y). }
    by exists hit.
  - use_scan __bitmap_subset Hscan (fun x y => x .& ul_not y) (fun x y => x && negb y).
    { intros. by apply land_range. } { intros. rewrite Z.land_spec, ul_not_testbit by lia. by zbool. }
    { intros k x y Hx Hy _ _. split; by apply (rd2 s p q a b k x y). }
    eexists. split; [rewrite (bind_ok _ _ _ _ _ E); reflexivity |].
    eapply no_bit; [| exact Hhit]. intros i. simpl. destruct (bit a i), (bit b i); naive_solver.
  - by apply bitmap_weight_ok.
Qed.

Lemma bitmap_predicates_correct_witness :
  __bitmap_weight 0 66 logic_example = Some (6, logic_example) /\
  exists r, __bitmap_subset 0 1 66 logic_example = Some (r, logic_example) /\
    (r = true <-> forall i, 0 <= i < 66 -> bit [0xF0; 0x3] i = true -> bit [0x3C; 0x8] i = true).
Proof.
  split; [reflexivity |].
  apply (bitmap_predicates_correct logic_example 0 1 66); [| | lia];
    (apply logic_example_at; [reflexivity | split; [by apply words_okb | done]]).
Defined.

End Bitmap.
