(* ===== verification/BitmapMap.v ===== *)
(** * Renumbering bits and allocating regions (lib/bitmap.c)

    [bitmap_pos_to_ord], [bitmap_ord_to_pos] and the operations built from them,
    and the allocator of aligned power-of-two regions.  Loops carry fuel; a run
    out of fuel is [None] like a bad access or a failed [BUG_ON], and the
    theorems show that the fuel the definitions pass is enough. *)

From S2P Require Import Prelude Bitops Hweight Bitmap.

Module BitmapMap.
Import Bitops Hweight Bitmap.

Definition lift {A} (o : option A) : M A := fun s =>
  match o with Some a => Some (a, s) | None => None end.

Definition stuck {A} : M A := fun _ => None.

(** The searches on an array of the store. *)
Definition first_bit_of (p : nat) (bits : Z) : M Z := m ← contents p; lift (find_first_bit m bits).
Definition next_bit_of (p : nat) (bits offset : Z) : M Z := m ← contents p; lift (find_next_bit m bits offset).

(** ** Positions and ordinals *)

(** [while (i < pos) { i = find_next_bit(buf, bits, i + 1); ord++; }] *)
Fixpoint ord_loop (fuel : nat) (buf : nat) (pos bits i ord : Z) : M (Z * Z) :=
  match fuel with
  | O => stuck
  | S fuel =>
      if i <? pos then i ← next_bit_of buf bits (i + 1); ord_loop fuel buf pos bits i (ord + 1)
      else mret (i, ord)
  end.

Definition bitmap_pos_to_ord (buf : nat) (pos bits : Z) : M Z :=
  if (pos <? 0) || (pos >=? bits) then mret (-1)
  else
    t ← test_bit pos buf;
    if negb t then mret (-1)
    else
      i ← first_bit_of buf bits;
      r ← ord_loop (S (Z.to_nat bits)) buf pos bits i 0;
      let '(i, ord) := r in
      if negb (i =? pos) then stuck else mret ord.

(** [for (i = find_first_bit(..); i < bits && ord > 0; i = find_next_bit(..)) ord--;] *)
Fixpoint pos_loop (fuel : nat) (buf : nat) (bits i ord : Z) : M (Z * Z) :=
  match fuel with
  | O => stuck
  | S fuel =>
      if (i <? bits) && (ord >? 0) then i ← next_bit_of buf bits (i + 1); pos_loop fuel buf bits i (ord - 1)
      else mret (i, ord)
  end.

Definition bitmap_ord_to_pos (buf : nat) (ord bits : Z) : M Z :=
  if (ord >=? 0) && (ord <? bits) then
    i ← first_bit_of buf bits;
    r ← pos_loop (S (Z.to_nat bits)) buf bits i ord;
    let '(i, ord) := r in
    if (i <? bits) && (ord =? 0) then mret i else mret 0
  else mret 0.

(** ** Loops over the set bits of a bitmap

    [for (i = find_first_bit(..); i < bits; i = find_next_bit(.., i + 1))] with
    one local variable. *)
Fixpoint set_bits_loop {A} (fuel : nat) (p : nat) (bits i : Z) (body : A -> Z -> M A) (acc : A) : M A :=
  match fuel with
  | O => stuck
  | S fuel =>
      if i <? bits then
        acc ← body acc i;
        i ← next_bit_of p bits (i + 1);
        set_bits_loop fuel p bits i body acc
      else mret acc
  end.

Definition for_set_bits {A} (p : nat) (bits : Z) (body : A -> Z -> M A) (acc : A) : M A :=
  i ← first_bit_of p bits; set_bits_loop (S (Z.to_nat bits)) p bits i body acc.

Definition bitmap_remap (dst src old new : nat) (bits : Z) : M () :=
  if (dst =? src)%nat then mret ()
  else
    _ ← bitmap_zero dst bits;
    w ← __bitmap_weight new bits;
    for_set_bits src bits (fun _ oldbit =>
      n ← bitmap_pos_to_ord old oldbit bits;
      if (n <? 0) || (w =? 0) then set_bit oldbit dst
      else pos ← bitmap_ord_to_pos new (Z.rem n w) bits; set_bit pos dst) ().

Definition bitmap_bitremap (oldbit : Z) (old new : nat) (bits : Z) : M Z :=
  w ← __bitmap_weight new bits;
  n ← bitmap_pos_to_ord old oldbit bits;
  if (n <? 0) || (w =? 0) then mret oldbit
  else bitmap_ord_to_pos new (Z.rem n w) bits.

Definition bitmap_onto (dst orig relmap : nat) (bits : Z) : M () :=
  if (dst =? orig)%nat then mret ()
  else
    _ ← bitmap_zero dst bits;
    _ ← for_set_bits relmap bits (fun m n =>
      t ← test_bit m orig;
      _ ← (if t : bool then set_bit n dst else mret ());
      mret (m + 1)) 0;
    mret ().

Definition bitmap_fold (dst orig : nat) (sz bits : Z) : M () :=
  if (dst =? orig)%nat then mret ()
  else
    _ ← bitmap_zero dst bits;
    for_set_bits orig bits (fun _ oldbit =>
      if sz =? 0 then stuck else set_bit (Z.rem oldbit sz) dst) ().

(** ** Regions *)

Inductive reg_op : Set := REG_OP_ISFREE | REG_OP_ALLOC | REG_OP_RELEASE.

Definition region_mask (nbitsinlong offset : Z) : Z :=
  let mask := ul_shl 1 (nbitsinlong - 1) in
  let mask := u64 (mask + (mask - 1)) in
  ul_shl mask offset.

Definition __reg_op (bitmap : nat) (pos order : Z) (op : reg_op) : M Z :=
  let nbits_reg := s32 (1 .<< order) in
  let index := pos / BITS_PER_LONG in
  let offset := pos - index * BITS_PER_LONG in
  let nlongs_reg := Z.to_nat (BITS_TO_LONGS nbits_reg) in
  let nbitsinlong := Z.min nbits_reg BITS_PER_LONG in
  let mask := region_mask nbitsinlong offset in
  let index := Z.to_nat index in
  match op with
  | REG_OP_ISFREE =>
      busy ← for_any index nlongs_reg (fun i => w ← rd bitmap i; mret (negb (w .& mask =? 0)));
      mret (if busy : bool then 0 else 1)
  | REG_OP_ALLOC =>
      _ ← for_up index nlongs_reg (fun i => w ← rd bitmap i; wr bitmap i (w .| mask)); mret 0
  | REG_OP_RELEASE =>
      _ ← for_up index nlongs_reg (fun i => w ← rd bitmap i; wr bitmap i (w .& ul_not mask)); mret 0
  end.

(** [for (pos = 0; (end = pos + (1 << order)) <= bits; pos = end)] *)
Fixpoint free_region_loop (fuel : nat) (bitmap : nat) (bits order pos : Z) : M Z :=
  match fuel with
  | O => stuck
  | S fuel =>
      let fin := s32 (pos + s32 (1 .<< order)) in
      if fin <=? bits then
        free ← __reg_op bitmap pos order REG_OP_ISFREE;
        if free =? 0 then free_region_loop fuel bitmap bits order fin
        else _ ← __reg_op bitmap pos order REG_OP_ALLOC; mret pos
      else mret (- ENOMEM)
  end.

Definition bitmap_find_free_region (bitmap : nat) (bits order : Z) : M Z :=
  free_region_loop (S (Z.to_nat bits)) bitmap bits order 0.

Definition bitmap_release_region (bitmap : nat) (pos order : Z) : M () :=
  _ ← __reg_op bitmap pos order REG_OP_RELEASE; mret ().

Definition bitmap_allocate_region (bitmap : nat) (pos order : Z) : M Z :=
  free ← __reg_op bitmap pos order REG_OP_ISFREE;
  if free =? 0 then mret (- EBUSY)
  else _ ← __reg_op bitmap pos order REG_OP_ALLOC; mret 0.

(** ** Counting *)

(** The number of set bits below [i]. *)
Definition rank (m : list Z) (i : Z) : Z := count (bit m) (Z.to_nat i).

Lemma rank_gap m i j :
  0 <= i <= j -> (forall k, i <= k < j -> bit m k = false) -> rank m j = rank m i.
Proof.
  intros Hij Hz. unfold rank. replace (Z.to_nat j) with (Z.to_nat i + Z.to_nat (j - i))%nat by lia.
  rewrite count_add, (count_none _ (Z.to_nat (j - i))); [lia |]. intros k Hk. apply Hz. lia.
Qed.

Lemma rank_step m i : 0 <= i -> rank m (i + 1) = rank m i + (if bit m i then 1 else 0).
Proof.
  intros Hi. unfold rank. replace (Z.to_nat (i + 1)) with (S (Z.to_nat i)) by lia. simpl.
  rewrite Z2Nat.id by done. by destruct (bit m i).
Qed.

Lemma rank_nonneg m i : 0 <= rank m i.
Proof. apply count_bounds. Qed.

Lemma rank_mono m i j : 0 <= i <= j -> rank m i <= rank m j.
Proof.
  intros Hij. unfold rank. replace (Z.to_nat j) with (Z.to_nat i + Z.to_nat (j - i))%nat by lia.
  rewrite count_add. pose proof (count_bounds (fun k => bit m (Z.of_nat (Z.to_nat i) + k)) (Z.to_nat (j - i))). lia.
Qed.

(** Positions of set bits are determined by their rank. *)
Lemma rank_inj m i j :
  0 <= i -> 0 <= j -> bit m i = true -> bit m j = true -> rank m i = rank m j -> i = j.
Proof.
  intros Hi Hj Bi Bj E. destruct (Z.lt_trichotomy i j) as [H|[H|H]]; [| done |].
  - pose proof (rank_mono m (i + 1) j ltac:(lia)). rewrite rank_step, Bi in H0 by done. lia.
  - pose proof (rank_mono m (j + 1) i ltac:(lia)). rewrite rank_step, Bj in H0 by done. lia.
Qed.

(** ** The searches in the store *)

Lemma lift_ok {A} (o : option A) a (s : store) : o = Some a -> lift o s = Some (a, s).
Proof. by intros ->. Qed.

Lemma next_bit_of_ok s p bits m i :
  array_at s p bits m -> 0 <= i < bits ->
  exists r, next_bit_of p bits (i + 1) s = Some (r, s) /\ i + 1 <= r <= bits /\
    (forall j, i + 1 <= j < r -> bit m j = false) /\ (r < bits -> bit m r = true).
Proof.
  intros (Hp & Hok & Hl) Hi. pose proof (BITS_TO_LONGS_bounds bits ltac:(lia)).
  destruct (find_next_bit_first m bits (i + 1)) as (r & Hr & Hf); [done | lia | lia |].
  exists r. unfold next_bit_of. rewrite (bind_ok _ _ _ m s) by (unfold contents; by rewrite Hp).
  rewrite (lift_ok _ _ _ Hr). split; [done |]. destruct (Z.ltb_spec (i + 1) bits); [exact Hf |].
  subst r. split; [lia |]. split; intros; lia.
Qed.

Lemma first_bit_of_ok s p bits m :
  array_at s p bits m -> 0 <= bits ->
  exists r, first_bit_of p bits s = Some (r, s) /\ 0 <= r <= bits /\
    (forall j, 0 <= j < r -> bit m j = false) /\ (r < bits -> bit m r = true).
Proof.
  intros (Hp & Hok & Hl) Hb. pose proof (BITS_TO_LONGS_bounds bits ltac:(lia)).
  destruct (find_next_bit_first m bits 0) as (r & Hr & Hf); [done | lia | lia |].
  exists r. unfold first_bit_of. rewrite (bind_ok _ _ _ m s) by (unfold contents; by rewrite Hp).
  rewrite <- find_first_bit_next in Hr by done. rewrite (lift_ok _ _ _ Hr). split; [done |].
  destruct (Z.ltb_spec 0 bits); [exact Hf |]. subst r. split; [lia |]. split; intros; lia.
Qed.

(** ** Positions and ordinals *)

Section ordinals.
Context (s : store) (buf : nat) (bits : Z) (m : list Z).
Context (Hm : array_at s buf bits m) (Hbits : 0 <= bits).
#[local] Set Default Proof Using "All".

Lemma ord_loop_ok pos fuel : forall i,
  0 <= pos < bits -> bit m pos = true -> 0 <= i <= pos -> bit m i = true \/ i = pos ->
  pos - i < Z.of_nat fuel ->
  ord_loop fuel buf pos bits i (rank m i) s = Some ((pos, rank m pos), s).
Proof.
  induction fuel as [|fuel IH]; intros i Hpos Hset Hi Hbi Hf; [lia |]. cbn [ord_loop].
  destruct (Z.ltb_spec i pos).
  - destruct (next_bit_of_ok s buf bits m i Hm) as (r & Hr & Hr1 & Hr2 & Hr3); [lia |].
    rewrite (bind_ok _ _ _ _ _ Hr). assert (r <= pos).
    { destruct (Z.lt_ge_cases pos r); [| lia]. rewrite Hr2 in Hset by lia. done. }
    destruct Hbi as [Hbi|]; [| lia].
    replace (rank m i + 1) with (rank m r).
    + apply IH; try done; [lia | left; apply Hr3; lia | lia].
    + rewrite (rank_gap m (i + 1) r) by (auto; lia). rewrite rank_step, Hbi by lia. done.
  - by replace i with pos by lia.
Qed.

Lemma pos_to_ord_ok pos :
  bitmap_pos_to_ord buf pos bits s =
  Some (if (0 <=? pos) && (pos <? bits) && bit m pos then rank m pos else -1, s).
Proof.
  pose proof Hm as (Hp & Hok & Hl). pose proof (BITS_TO_LONGS_bounds bits Hbits). unfold bitmap_pos_to_ord.
  destruct (Z.ltb_spec pos 0), (Z.leb_spec 0 pos); try lia; [done |].
  destruct (Z.geb_spec pos bits), (Z.ltb_spec pos bits); try lia; [done |]. cbn [orb andb].
  rewrite (bind_ok _ _ _ _ _ (test_bit_ok s buf m pos Hp Hok ltac:(lia))).
  destruct (bit m pos) eqn:E; cbn [negb]; [| done].
  destruct (first_bit_of_ok s buf bits m Hm Hbits) as (r & Hr & Hr1 & Hr2 & Hr3).
  rewrite (bind_ok _ _ _ _ _ Hr). assert (r <= pos).
  { destruct (Z.lt_ge_cases pos r); [| lia]. rewrite Hr2 in E by lia. done. }
  assert (E0 : rank m r = 0) by (rewrite (rank_gap m 0 r) by (auto; lia); done). rewrite <- E0 at 1.
  rewrite (bind_ok _ _ _ _ _ (ord_loop_ok pos (S (Z.to_nat bits)) r ltac:(lia) E ltac:(lia)
    (or_introl (Hr3 ltac:(lia))) ltac:(lia))).
  by rewrite Z.eqb_refl.
Qed.

(** [i] is the position of a set bit, or the end. *)
Lemma pos_loop_ok fuel : forall i ord,
  0 <= i <= bits -> (i < bits -> bit m i = true) -> 0 <= ord -> bits - i < Z.of_nat fuel ->
  exists i' ord', pos_loop fuel buf bits i ord s = Some ((i', ord'), s) /\
    i <= i' <= bits /\ (i' < bits -> bit m i' = true) /\ 0 <= ord' /\ (i' < bits -> ord' = 0) /\
    rank m i' + ord' = rank m i + ord.
Proof.
  induction fuel as [|fuel IH]; intros i ord Hi Hbi Ho Hf; [lia |]. cbn [pos_loop].
  destruct (Z.ltb_spec i bits), (Z.gtb_spec ord 0); cbn [andb]; try (exists i, ord; split; [done |]; auto 10 with lia).
  destruct (next_bit_of_ok s buf bits m i Hm) as (r & Hr & Hr1 & Hr2 & Hr3); [lia |].
  rewrite (bind_ok _ _ _ _ _ Hr).
  destruct (IH r (ord - 1)) as (i' & ord' & E & ? & ? & ? & ? & Hrk); [lia | done | lia | lia |].
  exists i', ord'. split; [done |]. split; [lia |]. split; [done |]. split; [done |]. split; [done |].
  rewrite Hrk, (rank_gap m (i + 1) r), rank_step, Hbi by (auto; lia). lia.
Qed.

Lemma ord_to_pos_ok ord :
  exists pos, bitmap_ord_to_pos buf ord bits s = Some (pos, s) /\
    (0 <= ord < rank m bits -> 0 <= pos < bits /\ bit m pos = true /\ rank m pos = ord) /\
    (~ 0 <= ord < rank m bits -> pos = 0).
Proof.
  assert (Hw : rank m bits <= bits) by (pose proof (count_bounds (bit m) (Z.to_nat bits)); unfold rank; lia).
  unfold bitmap_ord_to_pos. destruct ((ord >=? 0) && (ord <? bits)) eqn:Ho.
  2: { exists 0. split; [done |]. split; [lia | done]. }
  destruct (first_bit_of_ok s buf bits m Hm Hbits) as (r & Hr & Hr1 & Hr2 & Hr3).
  rewrite (bind_ok _ _ _ _ _ Hr).
  destruct (pos_loop_ok (S (Z.to_nat bits)) r ord) as (i & o & E & Hi & Hbi & Ho' & Hz & Hrk);
    [done | done | lia | lia |].
  rewrite (bind_ok _ _ _ _ _ E). rewrite (rank_gap m 0 r) in Hrk by (auto; lia). change (rank m 0) with 0 in Hrk.
  destruct (Z.ltb_spec i bits) as [Hlt|Hge]; cbn [andb].
  - rewrite (Hz Hlt). cbn. exists i. split; [done |]. rewrite (Hz Hlt) in Hrk. split; [intros _; split_and!; auto; lia |].
    intros Hn. pose proof (rank_mono m (i + 1) bits ltac:(lia)) as Hmono. rewrite rank_step, Hbi in Hmono by (auto; lia).
    lia.
  - exists 0. split; [done |]. assert (i = bits) by lia. subst i. split; [lia | done].
Qed.
End ordinals.

(** ** Images of bitmaps *)

Lemma set_bits_loop_rule {A} p bits m (body : A -> Z -> M A) (Inv : store -> Z -> A -> Prop) :
  (forall s i a, Inv s i a -> array_at s p bits m) ->
  (forall s i j a, Inv s i a -> 0 <= i <= j -> (forall k, i <= k < j -> bit m k = false) -> Inv s j a) ->
  (forall s i a, Inv s i a -> 0 <= i < bits -> bit m i = true ->
    exists s' a', body a i s = Some (a', s') /\ Inv s' (i + 1) a') ->
  forall s a, 0 <= bits -> Inv s 0 a -> exists s' a', for_set_bits p bits body a s = Some (a', s') /\ Inv s' bits a'.
Proof.
  intros Harr Hskip Hstep s a Hb HI. unfold for_set_bits.
  destruct (first_bit_of_ok s p bits m) as (r & Hr & Hr1 & Hr2 & Hr3); [by eapply Harr | done |].
  rewrite (bind_ok _ _ _ _ _ Hr). apply (Hskip _ _ r) in HI; [| lia | done]. clear Hr Hr2.
  assert (Hf : bits - r < Z.of_nat (S (Z.to_nat bits))) by lia. revert Hf Hr1 Hr3 HI.
  generalize (S (Z.to_nat bits)) as fuel. intros fuel. revert r s a.
  induction fuel as [|fuel IH]; intros r s a Hf Hr1 Hr3 HI; [lia |]. cbn [set_bits_loop].
  destruct (Z.ltb_spec r bits).
  - destruct (Hstep s r a HI) as (s1 & a1 & E1 & HI1); [lia | auto |]. rewrite (bind_ok _ _ _ _ _ E1).
    destruct (next_bit_of_ok s1 p bits m r) as (r' & Hr' & Hb' & Hz' & Hs'); [by eapply Harr | lia |].
    rewrite (bind_ok _ _ _ _ _ Hr'). apply IH; [lia | lia | done |]. eapply Hskip; [exact HI1 | lia | done].
  - replace bits with r by lia. by eauto.
Qed.

(** The set bits of [m] below [bits], mapped by [R]. *)
Definition image_of (m : list Z) (bits : Z) (R : Z -> Z -> Prop) (j : Z) : Prop :=
  exists o, 0 <= o < bits /\ bit m o = true /\ R o j.

Definition maps_to (s s' : store) (dst : nat) (bits : Z) (m : list Z) (R : Z -> Z -> Prop) : Prop :=
  exists d', s' = <[dst := d']> s /\ array_at s' dst bits d' /\
    forall j, 0 <= j < 64 * BITS_TO_LONGS bits -> bit d' j = true <-> image_of m bits R j.

Section image.
Context (s : store) (dst p : nat) (bits : Z) (d m : list Z).
Context (Hd : array_at s dst bits d) (Hm : array_at s p bits m) (Hne : dst <> p) (Hbits : 0 <= bits).
Context {A : Type} (body : A -> Z -> M A) (acc : Z -> A) (R : Z -> Z -> Prop).
Context (Hacc : forall i j, 0 <= i <= j -> (forall k, i <= k < j -> bit m k = false) -> acc j = acc i).
Context (Hbody : forall e i, array_at (<[dst := e]> s) dst bits e -> 0 <= i < bits -> bit m i = true ->
  exists e', body (acc i) i (<[dst := e]> s) = Some (acc (i + 1), <[dst := e']> s) /\
    array_at (<[dst := e']> s) dst bits e' /\
    forall j, 0 <= j < 64 * BITS_TO_LONGS bits -> bit e' j = true <-> bit e j = true \/ R i j).
#[local] Set Default Proof Using "All".

Lemma image_ok :
  exists z s', bitmap_zero dst bits s = Some (tt, <[dst := z]> s) /\
    for_set_bits p bits body (acc 0) (<[dst := z]> s) = Some (acc bits, s') /\ maps_to s s' dst bits m R.
Proof.
  destruct Hd as (Hd1 & Hd2 & Hd3). pose proof (BITS_TO_LONGS_bounds bits Hbits).
  destruct (bitmap_zero_ok s dst d bits) as (z & Ez & Hzok & Hzl & Hzb); try done.
  exists z. setoid_rewrite Ez. set (Inv := fun (st : store) (i : Z) (a : A) =>
    a = acc i /\ exists e, st = <[dst := e]> s /\ array_at st dst bits e /\
      forall j, 0 <= j < 64 * BITS_TO_LONGS bits -> bit e j = true <-> image_of m i R j).
  destruct (set_bits_loop_rule p bits m body Inv) with (s := <[dst := z]> s) (a := acc 0)
    as (s' & a' & E & -> & e & -> & He & Hb); [| | | done | | by exists (<[dst := e]> s); split; [| split; [| exists e]]].
  - intros st i a (_ & e & -> & _). destruct Hm as (? & ? & ?). split; [by rewrite lookup_insert_ne | done].
  - intros st i j a (-> & e & -> & He & Hb) Hij Hz. split; [symmetry; by apply Hacc |]. exists e.
    split; [done |]. split; [done |]. intros k Hk. rewrite Hb by done.
    split; intros (o & Ho & Hbo & HR); exists o; (split; [| done]); [lia |].
    destruct (Z.lt_ge_cases o i); [lia |]. rewrite Hz in Hbo by lia. done.
  - intros st i a (-> & e & -> & He & Hb) Hi Hbi.
    destruct (Hbody e i He Hi Hbi) as (e' & E & He' & Hb'). exists (<[dst := e']> s), (acc (i + 1)).
    split; [done |]. split; [done |]. exists e'. split; [done |]. split; [done |].
    intros j Hj. rewrite Hb', Hb by done. split.
    + intros [(o & Ho & ? & ?)|HR]; [exists o | exists i]; (split; [lia | done]).
    + intros (o & Ho & Hbo & HR). destruct (Z.eq_dec o i) as [->|]; [by right |]. left. exists o. split; [lia | done].
  - split; [done |]. exists z. split; [done |]. split.
    + split; [apply lookup_insert_eq |]. split; [done | lia].
    + intros j Hj. rewrite Hzb by lia. rewrite (proj2 (Z.ltb_lt j _)) by lia. cbn [negb andb].
      split; [done |]. intros (o & Ho & _). lia.
Qed.
End image.

(** [set_bit] below the end of the bitmap, in the form [Hbody] asks for. *)
Lemma set_bit_image (s : store) dst bits e nr (R : Z -> Prop) :
  array_at (<[dst := e]> s) dst bits e -> 0 <= bits -> 0 <= nr < bits ->
  (forall j, R j <-> j = nr) ->
  exists e', set_bit nr dst (<[dst := e]> s) = Some (tt, <[dst := e']> s) /\
    array_at (<[dst := e']> s) dst bits e' /\
    forall j, 0 <= j < 64 * BITS_TO_LONGS bits -> bit e' j = true <-> bit e j = true \/ R j.
Proof.
  intros (He1 & He2 & He3) Hb Hnr HR. pose proof (BITS_TO_LONGS_bounds bits Hb).
  destruct (set_bit_ok (<[dst := e]> s) dst e nr) as (e' & E & Hok & Hl & Hbit); [done | done | lia |].
  exists e'. rewrite E, insert_insert_eq. split; [done |]. split.
  - split; [apply lookup_insert_eq |]. split; [done | lia].
  - intros j Hj. rewrite Hbit, HR by lia. destruct (Z.eqb_spec j nr); simpl; naive_solver.
Qed.

Lemma array_at_other (s : store) dst e p bits m :
  dst <> p -> array_at s p bits m -> array_at (<[dst := e]> s) p bits m.
Proof. intros Hne (? & ? & ?). split; [by rewrite lookup_insert_ne | done]. Qed.

(** The map that [old] and [new] define: the n-th set bit of [old] goes to the
    set bit number [n % w] of [new], where [w] is the weight of [new]; other
    positions stay. *)
Definition renumbered (old new : list Z) (bits o j : Z) : Prop :=
  if bit old o && negb (rank new bits =? 0)
  then 0 <= j < bits /\ bit new j = true /\ rank new j = rank old o mod rank new bits
  else j = o.

Lemma renumber_one (s : store) pold pnew old new bits o :
  array_at s pold bits old -> array_at s pnew bits new -> 0 <= o < bits ->
  exists n, bitmap_pos_to_ord pold o bits s = Some (n, s) /\
    ((n <? 0) || (rank new bits =? 0) = negb (bit old o && negb (rank new bits =? 0))) /\
    ((n <? 0) || (rank new bits =? 0) = false ->
      exists j, bitmap_ord_to_pos pnew (Z.rem n (rank new bits)) bits s = Some (j, s) /\ renumbered old new bits o j).
Proof.
  intros Hold Hnew Ho. eexists. split; [apply pos_to_ord_ok; [exact Hold | lia] |].
  replace ((0 <=? o) && (o <? bits)) with true by lia. rewrite andb_true_l.
  pose proof (rank_nonneg old o). pose proof (rank_nonneg new bits). unfold renumbered.
  destruct (bit old o); cbn [andb]; [| by split].
  destruct (Z.eqb_spec (rank new bits) 0) as [E|E]; cbn [negb]; [split; [apply orb_true_r | rewrite orb_true_r; done] |].
  replace (rank old o <? 0) with false by lia. split; [done |]. intros _.
  rewrite Z.rem_mod_nonneg by lia. pose proof (Z.mod_pos_bound (rank old o) (rank new bits) ltac:(lia)).
  destruct (ord_to_pos_ok s pnew bits new Hnew ltac:(lia) (rank old o mod rank new bits)) as (j & Ej & Hj & _).
  exists j. split; [done |]. by apply Hj.
Qed.

(** ** Properties *)

(** positions and ordinals are inverse to each other.  [bitmap_pos_to_ord]
    returns the number of set bits below a set position (and -1 elsewhere),
    [bitmap_ord_to_pos] finds the position with that number, and the loops of
    both always end, without ever reaching the [BUG_ON]. *)
Theorem pos_ord_roundtrip s buf bits m :
  array_at s buf bits m -> 0 <= bits ->
  (forall pos, bitmap_pos_to_ord buf pos bits s =
     Some (if (0 <=? pos) && (pos <? bits) && bit m pos then rank m pos else -1, s)) /\
  (forall pos, 0 <= pos < bits -> bit m pos = true ->
     (ord ← bitmap_pos_to_ord buf pos bits; bitmap_ord_to_pos buf ord bits) s = Some (pos, s)) /\
  (forall ord, 0 <= ord < rank m bits ->
     (pos ← bitmap_ord_to_pos buf ord bits; bitmap_pos_to_ord buf pos bits) s = Some (ord, s)).
Proof.
  intros Hm Hb. split; [intros; by apply pos_to_ord_ok |]. split.
  - intros pos Hpos Hbit. rewrite (bind_ok _ _ _ _ _ (pos_to_ord_ok s buf bits m Hm Hb pos)).
    replace ((0 <=? pos) && (pos <? bits)) with true by lia. rewrite Hbit. cbn [andb].
    destruct (ord_to_pos_ok s buf bits m Hm Hb (rank m pos)) as (j & Ej & Hj & _). rewrite Ej.
    pose proof (rank_mono m (pos + 1) bits ltac:(lia)) as Hlt. rewrite rank_step, Hbit in Hlt by lia.
    destruct Hj as (Hj1 & Hj2 & Hj3); [split; [apply rank_nonneg | lia] |].
    by rewrite (rank_inj m j pos) by (done || lia).
  - intros ord Ho. destruct (ord_to_pos_ok s buf bits m Hm Hb ord) as (j & Ej & Hj & _).
    destruct (Hj Ho) as (Hj1 & Hj2 & Hj3). rewrite (bind_ok _ _ _ _ _ Ej), (pos_to_ord_ok s buf bits m Hm Hb).
    replace ((0 <=? j) && (j <? bits)) with true by lia. by rewrite Hj2, Hj3.
Qed.

Definition map_example : store :=
  {[ 0%nat := [0xF0; 0]; 1%nat := [0xF000; 0]; 2%nat := [0xA2; 0]; 3%nat := [0xFFFF; 0] ]}.

Lemma map_example_at p m : map_example !! p = Some m -> words_ok m /\ length m = 2%nat -> array_at map_example p 100 m.
Proof. intros Hp [Hok Hl]. split; [done |]. split; [done |]. rewrite Hl. vm_compute. discriminate. Qed.

Ltac map_example := apply map_example_at; [reflexivity | split; [by apply words_okb | done]].

Lemma pos_ord_roundtrip_witness :
  bitmap_pos_to_ord 0 7 100 map_example = Some (3, map_example) /\
  (pos ← bitmap_ord_to_pos 0 3 100; bitmap_pos_to_ord 0 pos 100) map_example = Some (3, map_example).
Proof.
  split; [reflexivity |].
  apply (pos_ord_roundtrip map_example 0 100 [0xF0; 0]); [map_example | lia | vm_compute; split; congruence].
Defined.

(** [bitmap_remap] stores exactly the images of the set bits of [src] under
    the map that [old] and [new] define, [bitmap_bitremap] computes that map for
    one position, and a remap in place leaves everything alone. *)
Theorem bitmap_remap_correct s dst psrc pold pnew bits d src old new :
  array_at s dst bits d -> array_at s psrc bits src -> array_at s pold bits old -> array_at s pnew bits new ->
  0 <= bits -> dst <> psrc -> dst <> pold -> dst <> pnew ->
  (exists s', bitmap_remap dst psrc pold pnew bits s = Some (tt, s') /\
     maps_to s s' dst bits src (renumbered old new bits)) /\
  bitmap_remap psrc psrc pold pnew bits s = Some (tt, s) /\
  (forall o, exists j, bitmap_bitremap o pold pnew bits s = Some (j, s) /\
     (if (0 <=? o) && (o <? bits) then renumbered old new bits o j else j = o)).
Proof.
  intros Hd Hsrc Hold Hnew Hb Hn1 Hn2 Hn3. split_and!.
  - unfold bitmap_remap. rewrite (proj2 (Nat.eqb_neq dst psrc) Hn1).
    pose proof Hnew as (Hn & Hnok & Hnl). set (w := rank new bits).
    edestruct (image_ok s dst psrc bits d src Hd Hsrc Hn1 Hb (fun _ oldbit =>
      n ← bitmap_pos_to_ord pold oldbit bits;
      if (n <? 0) || (w =? 0) then set_bit oldbit dst
      else pos ← bitmap_ord_to_pos pnew (Z.rem n w) bits; set_bit pos dst) (fun _ => tt) (renumbered old new bits))
      as (z & s' & Ez & E & Hmap); [done | |].
    { intros e i He Hi Hbi. pose proof (array_at_other s dst e pold bits old Hn2 Hold) as Hold'.
      pose proof (array_at_other s dst e pnew bits new Hn3 Hnew) as Hnew'.
      destruct (renumber_one _ pold pnew old new bits i Hold' Hnew' Hi) as (n & En & Hc & Hj).
      rewrite (bind_ok _ _ _ _ _ En). fold w in Hc, Hj. destruct ((n <? 0) || (w =? 0)).
      - apply set_bit_image; [done | done | done |]. intros j. unfold renumbered. fold w. revert Hc.
        by destruct (bit old i && negb (w =? 0)).
      - destruct (Hj eq_refl) as (j & Ej & HRj). rewrite (bind_ok _ _ _ _ _ Ej).
        unfold renumbered in HRj |- *. fold w in HRj |- *. destruct (bit old i && negb (w =? 0)); [| done].
        destruct HRj as (Hj1 & Hj2 & Hj3). apply set_bit_image; [done | done | done |]. intros j'. split; [| by intros ->].
        intros (? & ? & ?). apply (rank_inj new); [lia | lia | done | done | congruence]. }
    exists s'. split; [| done]. rewrite (bind_ok _ _ _ _ _ Ez).
    rewrite (bind_ok _ _ _ w (<[dst := z]> s)); [exact E |].
    apply bitmap_weight_ok; [by rewrite lookup_insert_ne | done | done | done].
  - unfold bitmap_remap. by rewrite Nat.eqb_refl.
  - intros o. unfold bitmap_bitremap. pose proof Hnew as (Hn & Hnok & Hnl).
    rewrite (bind_ok _ _ _ _ _ (bitmap_weight_ok s pnew new bits Hn Hnok Hb Hnl)). fold (rank new bits).
    destruct ((0 <=? o) && (o <? bits)) eqn:Ho.
    + destruct (renumber_one s pold pnew old new bits o Hold Hnew) as (n & En & Hc & Hj); [lia |].
      rewrite (bind_ok _ _ _ _ _ En). destruct ((n <? 0) || (rank new bits =? 0)); [| by apply Hj].
      exists o. split; [done |]. unfold renumbered. revert Hc. by destruct (bit old o && negb (rank new bits =? 0)).
    + rewrite (bind_ok _ _ _ _ _ (pos_to_ord_ok s pold bits old Hold Hb o)). rewrite Ho. by exists o.
Qed.

Lemma bitmap_remap_correct_witness :
  bitmap_remap 3 2 0 1 100 map_example = Some (tt, <[3%nat := [0xA002; 0]]> map_example) /\
  exists s', bitmap_remap 3 2 0 1 100 map_example = Some (tt, s') /\
    maps_to map_example s' 3 100 [0xA2; 0] (renumbered [0xF0; 0] [0xF000; 0] 100).
Proof.
  split; [reflexivity |].
  apply (bitmap_remap_correct map_example 3 2 0 1 100 [0xFFFF; 0]); try map_example; lia.
Defined.

(** [bitmap_onto] sets bit [n] iff bit [n] of [relmap] is its m-th set bit
    and bit [m] of [orig] is set, and [bitmap_fold] sets exactly the remainders
    modulo [sz] of the set bits of [orig]. *)
Theorem bitmap_onto_fold_correct s dst porig prel bits d orig relmap sz :
  array_at s dst bits d -> array_at s porig bits orig -> array_at s prel bits relmap ->
  0 <= bits -> dst <> porig -> dst <> prel -> 0 < sz ->
  (exists s', bitmap_onto dst porig prel bits s = Some (tt, s') /\
     maps_to s s' dst bits relmap (fun n j => j = n /\ bit orig (rank relmap n) = true)) /\
  (exists s', bitmap_fold dst porig sz bits s = Some (tt, s') /\
     maps_to s s' dst bits orig (fun o j => j = o mod sz)).
Proof.
  intros Hd Horig Hrel Hb Hn1 Hn2 Hsz. pose proof (BITS_TO_LONGS_bounds bits Hb). split.
  - unfold bitmap_onto. rewrite (proj2 (Nat.eqb_neq dst porig) Hn1).
    edestruct (image_ok s dst prel bits d relmap Hd Hrel Hn2 Hb (fun m n =>
      t ← test_bit m porig; _ ← (if t : bool then set_bit n dst else mret ()); mret (m + 1)) (rank relmap)
      (fun n j => j = n /\ bit orig (rank relmap n) = true)) as (z & s' & Ez & E & Hmap).
    { intros i j Hij Hz. by apply rank_gap. }
    { intros e i He Hi Hbi. pose proof (array_at_other s dst e porig bits orig Hn1 Horig) as (Ho1 & Ho2 & Ho3).
      pose proof (rank_nonneg relmap i). assert (rank relmap i <= i)
        by (pose proof (count_bounds (bit relmap) (Z.to_nat i)); unfold rank; lia).
      rewrite (bind_ok _ _ _ _ _ (test_bit_ok _ porig orig (rank relmap i) Ho1 Ho2 ltac:(lia))).
      rewrite rank_step, Hbi by lia. destruct (bit orig (rank relmap i)).
      - destruct (set_bit_image s dst bits e i (fun j => j = i /\ true = true) He Hb Hi) as (e' & E & He' & Hbit);
          [naive_solver |].
        exists e'. rewrite (bind_ok _ _ _ _ _ E). split; [done |]. by split.
      - exists e. split; [done |]. split; [done |]. naive_solver. }
    exists s'. split; [| done]. rewrite (bind_ok _ _ _ _ _ Ez). by rewrite (bind_ok _ _ _ _ _ E).
  - unfold bitmap_fold. rewrite (proj2 (Nat.eqb_neq dst porig) Hn1).
    edestruct (image_ok s dst porig bits d orig Hd Horig Hn1 Hb (fun (_ : ()) oldbit =>
      if sz =? 0 then stuck else set_bit (Z.rem oldbit sz) dst) (fun _ => tt) (fun o j => j = o mod sz))
      as (z & s' & Ez & E & Hmap); [done | |].
    { intros e i He Hi Hbi. rewrite (proj2 (Z.eqb_neq sz 0)) by lia. rewrite Z.rem_mod_nonneg by lia.
      pose proof (Z.mod_pos_bound i sz Hsz). pose proof (Z.mod_le i sz ltac:(lia) Hsz).
      apply set_bit_image; [done | done | lia | done]. }
    exists s'. split; [| done]. rewrite (bind_ok _ _ _ _ _ Ez). exact E.
Qed.

Lemma bitmap_onto_fold_correct_witness :
  bitmap_onto 3 2 1 100 map_example = Some (tt, <[3%nat := [0x2000; 0]]> map_example) /\
  exists s', bitmap_fold 3 2 5 100 map_example = Some (tt, s') /\
    maps_to map_example s' 3 100 [0xA2; 0] (fun o j => j = o mod 5).
Proof.
  split; [reflexivity |].
  apply (bitmap_onto_fold_correct map_example 3 2 1 100 [0xFFFF; 0] [0xA2; 0] [0xF000; 0] 5); try map_example; lia.
Defined.

(** ** Regions *)

Lemma s32_small x : - 2 ^ 31 <= x < 2 ^ 31 -> s32 x = x.
Proof. intros Hx. apply swrap_small; [lia | exact Hx]. Qed.

Section region.
Context (s : store) (p : nat) (m : list Z) (pos order : Z).
Context (Hm : s !! p = Some m) (Hok : words_ok m) (Ho : 0 <= order <= 30).
Context (Hpos : 0 <= pos) (Halign : pos mod 2 ^ order = 0) (Hend : pos + 2 ^ order <= 64 * Z.of_nat (length m)).
#[local] Set Default Proof Using "All".

Let index := Z.to_nat (pos / 64).
Let n := Z.to_nat (BITS_TO_LONGS (2 ^ order)).
Let mask := region_mask (Z.min (2 ^ order) 64) (pos - pos / 64 * 64).

Definition in_region (i : Z) : bool := (pos <=? i) && (i <? pos + 2 ^ order).

Lemma pow_order : 0 < 2 ^ order < 2 ^ 31.
Proof. split; [apply Z.pow_pos_nonneg; lia | apply Z.pow_lt_mono_r; lia]. Qed.

(** A region lies inside one word or consists of whole words. *)
Lemma region_shape :
  (2 ^ order <= 64 /\ n = 1%nat /\ pos mod 64 + 2 ^ order <= 64) \/
  (64 < 2 ^ order /\ pos mod 64 = 0 /\ 64 * Z.of_nat n = 2 ^ order).
Proof.
  pose proof pow_order as Hp. unfold n, BITS_TO_LONGS, BITS_PER_LONG.
  destruct (Z.le_gt_cases order 6) as [Hle|Hgt].
  - left. assert (E : 64 = 2 ^ order * 2 ^ (6 - order))
      by (rewrite <- Z.pow_add_r by lia; by replace (order + (6 - order)) with 6 by lia).
    assert (0 < 2 ^ (6 - order)) by (apply Z.pow_pos_nonneg; lia). split; [nia |]. split.
    + rewrite <- (Z.div_unique (2 ^ order + 64 - 1) 64 1 (2 ^ order - 1)) by nia. done.
    + apply Z.div_exact in Halign; [| lia]. rewrite Halign at 1. rewrite E at 1.
      rewrite Z.mul_mod_distr_l by lia.
      pose proof (Z.mod_pos_bound (pos / 2 ^ order) (2 ^ (6 - order)) ltac:(lia)). nia.
  - right. assert (E : 2 ^ order = 64 * 2 ^ (order - 6)) by (change 64 with (2 ^ 6); rewrite <- Z.pow_add_r by lia; f_equal; lia).
    assert (2 <= 2 ^ (order - 6)) by (change 2 with (2 ^ 1) at 1; apply Z.pow_le_mono_r; lia). split; [lia |]. split.
    + apply Z.div_exact in Halign; [| lia]. rewrite Halign, E, <- Z.mul_assoc, Z.mul_comm. apply Z.mod_mul. lia.
    + rewrite E. replace (64 * 2 ^ (order - 6) + 64 - 1) with (63 + 2 ^ (order - 6) * 64) by lia.
      rewrite Z.div_add, Z.div_small by lia. lia.
Qed.

Lemma region_mask_testbit j : 0 <= j < 64 ->
  Z.testbit mask j = (pos mod 64 <=? j) && (j <? pos mod 64 + Z.min (2 ^ order) 64).
Proof.
  intros Hj. pose proof pow_order as Hp. pose proof (Z.mod_pos_bound pos 64 ltac:(lia)).
  unfold mask, region_mask. replace (pos - pos / 64 * 64) with (pos mod 64) by (rewrite Z.mod_eq by lia; lia).
  set (c := Z.min (2 ^ order) 64). assert (Hc : 1 <= c <= 64) by lia.
  assert (E : u64 (ul_shl 1 (c - 1) + (ul_shl 1 (c - 1) - 1)) = Z.ones c).
  { unfold ul_shl. rewrite Z.shiftl_mul_pow2, Z.mul_1_l by lia.
    assert (2 ^ c = 2 * 2 ^ (c - 1)) by (rewrite <- Z.pow_succ_r by lia; f_equal; lia).
    assert (0 < 2 ^ (c - 1) <= 2 ^ 63) by (split; [apply Z.pow_pos_nonneg; lia | apply Z.pow_le_mono_r; lia]).
    rewrite Z.ones_equiv, (uwrap_small _ (2 ^ (c - 1))), uwrap_small by lia. lia. }
  rewrite E. unfold ul_shl. rewrite u64_testbit by lia. rewrite (proj2 (Z.ltb_lt j 64)) by lia.
  destruct (Z.leb_spec (pos mod 64) j).
  - rewrite Z.shiftl_spec, Z.testbit_ones_nonneg by lia. simpl.
    destruct (Z.ltb_spec (j - pos mod 64) c), (Z.ltb_spec j (pos mod 64 + c)); lia || done.
  - by rewrite Z.shiftl_spec_low by lia.
Qed.

(** The words of the region, and the mask in each of them. *)
Lemma region_words k j : 0 <= j < 64 -> (index <= k < index + n)%nat ->
  (k < length m)%nat /\ Z.testbit mask j = in_region (64 * Z.of_nat k + j).
Proof.
  intros Hj Hk. pose proof pow_order. pose proof (Z.div_mod pos 64 ltac:(lia)).
  pose proof (Z.mod_pos_bound pos 64 ltac:(lia)). assert (0 <= pos / 64) by (apply Z.div_pos; lia).
  rewrite region_mask_testbit by done. unfold in_region, index in *.
  destruct region_shape as [(Hs1 & Hs2 & Hs3)|(Hs1 & Hs2 & Hs3)].
  - assert (Z.of_nat k = pos / 64) by lia. split; [lia |]. rewrite Z.min_l by lia.
    f_equal; [destruct (Z.leb_spec (pos mod 64) j), (Z.leb_spec pos (64 * Z.of_nat k + j)) |
      destruct (Z.ltb_spec j (pos mod 64 + 2 ^ order)), (Z.ltb_spec (64 * Z.of_nat k + j) (pos + 2 ^ order))]; lia || done.
  - split; [lia |]. rewrite Z.min_r by lia. zbool. done.
Qed.

Lemma region_outside i : 0 <= i ->
  i < 64 * Z.of_nat index \/ 64 * Z.of_nat (index + n) <= i -> in_region i = false.
Proof.
  intros Hi Hout. pose proof pow_order. pose proof (Z.div_mod pos 64 ltac:(lia)).
  pose proof (Z.mod_pos_bound pos 64 ltac:(lia)). assert (0 <= pos / 64) by (apply Z.div_pos; lia).
  unfold in_region, index in *. destruct region_shape as [(Hs1 & Hs2 & Hs3)|(Hs1 & Hs2 & Hs3)];
    destruct (Z.leb_spec pos i), (Z.ltb_spec i (pos + 2 ^ order)); lia || done.
Qed.

Lemma mask_is_ulong : is_ulong mask.
Proof. apply ulong_shl. Qed.

Lemma region_length : (index + n <= length m)%nat.
Proof.
  pose proof pow_order. pose proof (Z.div_mod pos 64 ltac:(lia)). pose proof (Z.mod_pos_bound pos 64 ltac:(lia)).
  assert (0 <= pos / 64) by (apply Z.div_pos; lia).
  destruct region_shape as [(Hs1 & Hs2 & Hs3)|(Hs1 & Hs2 & Hs3)]; unfold index; lia.
Qed.

Lemma reg_op_unfold op :
  __reg_op p pos order op =
  match op with
  | REG_OP_ISFREE =>
      busy ← for_any index n (fun i => w ← rd p i; mret (negb (w .& mask =? 0))); mret (if busy : bool then 0 else 1)
  | REG_OP_ALLOC => _ ← for_up index n (fun i => w ← rd p i; wr p i (w .| mask)); mret 0
  | REG_OP_RELEASE => _ ← for_up index n (fun i => w ← rd p i; wr p i (w .& ul_not mask)); mret 0
  end.
Proof.
  pose proof pow_order. unfold __reg_op. rewrite Z.shiftl_mul_pow2, Z.mul_1_l by lia.
  by rewrite s32_small by lia.
Qed.

(** Some bit of the region is set. *)
Definition busy : Prop := exists i, in_region i = true /\ bit m i = true.

Lemma isfree_ok :
  exists r, __reg_op p pos order REG_OP_ISFREE s = Some (r, s) /\ (r = 0 <-> busy).
Proof.
  rewrite reg_op_unfold. pose proof region_length as Hlen.
  destruct (for_any_ok s (fun i => w ← rd p i; mret (negb (w .& mask =? 0)))
    (fun k => negb (default 0 (m !! k) .& mask =? 0)) n index) as (b & Eb & Hb).
  { intros k Hk. destruct (lookup_lt_is_Some_2 m k) as [w Hw]; [lia |]. rewrite Hw.
    by rewrite (bind_ok _ _ _ _ _ (rd_ok _ _ _ _ _ Hm Hw)). }
  rewrite (bind_ok _ _ _ _ _ Eb). eexists. split; [done |].
  transitivity (b = true); [by destruct b |]. rewrite Hb. split.
  - intros (k & Hk & Hbit). destruct (lookup_lt_is_Some_2 m k) as [w Hw]; [lia |]. rewrite Hw in Hbit.
    assert (Hwu : is_ulong w) by (by eapply Forall_lookup_1).
    apply word_bit in Hbit as (j & Hj & Hbit); [| by apply land_range].
    rewrite Z.land_spec in Hbit. apply andb_prop in Hbit as [Hw1 Hm1].
    exists (64 * Z.of_nat k + j). rewrite (bit_word m k w) by done. split; [| done].
    by rewrite <- (proj2 (region_words k j Hj Hk)).
  - intros (i & Hr & Hbit). assert (0 <= i) by (unfold in_region in Hr; lia).
    destruct (bit_place i) as (k & j & -> & Hj); [done |].
    assert (Hk : (index <= k < index + n)%nat).
    { destruct (decide (index <= k < index + n)%nat); [done |].
      rewrite region_outside in Hr by lia. done. }
    exists k. split; [done |]. destruct (lookup_lt_is_Some_2 m k) as [w Hw]; [lia |]. rewrite Hw.
    assert (Hwu : is_ulong w) by (by eapply Forall_lookup_1).
    apply word_bit; [by apply land_range |]. exists j. split; [done |].
    rewrite (bit_word m k w) in Hbit by done. simpl. rewrite Z.land_spec, Hbit.
    by rewrite (proj2 (region_words k j Hj Hk)), Hr.
Qed.

(** Setting or clearing the region, word by word. *)
Lemma region_update (op : Z -> Z) (bop : bool -> bool -> bool) :
  (forall x, is_ulong x -> is_ulong (op x)) ->
  (forall x j, is_ulong x -> 0 <= j < 64 -> Z.testbit (op x) j = bop (Z.testbit mask j) (Z.testbit x j)) ->
  (forall b, bop false b = b) ->
  exists m', (_ ← for_up index n (fun i => w ← rd p i; wr p i (op w)); mret 0) s = Some (0, <[p := m']> s) /\
    words_ok m' /\ length m' = length m /\ forall i, 0 <= i -> bit m' i = bop (in_region i) (bit m i).
Proof.
  intros Hop Hbop Hf. pose proof region_length as Hlen.
  destruct (for_up_words s p m (fun k => op (default 0 (m !! k))) (fun i => w ← rd p i; wr p i (op w)) index n)
    as (m' & E & W); [done | done | |].
  { intros k e Hk He Hag. destruct (lookup_lt_is_Some_2 m k) as [w Hw]; [lia |]. rewrite Hw.
    rewrite (bind_ok _ _ _ w (<[p := e]> s)) by (eapply rd_shared; eauto). apply wr_dst. lia. }
  assert (Hg : forall k, (index <= k < index + n)%nat -> exists w, m !! k = Some w /\ is_ulong w /\
    is_ulong (op (default 0 (m !! k)))).
  { intros k Hk. destruct (lookup_lt_is_Some_2 m k) as [w Hw]; [lia |]. exists w. rewrite Hw.
    assert (is_ulong w) by (by eapply Forall_lookup_1). auto. }
  assert (Hok' : words_ok m') by (eapply written_ok; [exact Hok | exact W | intros k Hk;
    by destruct (Hg k Hk) as (? & _ & _ & ?)]).
  exists m'. rewrite (bind_ok _ _ _ _ _ E). split; [done |]. split; [done |]. split; [apply W |]. intros i Hi.
  destruct (Z.lt_ge_cases i (64 * Z.of_nat index)); [| destruct (Z.lt_ge_cases i (64 * Z.of_nat (index + n)))].
  1, 3: rewrite region_outside, Hf by lia; by eapply written_other; eauto; lia.
  edestruct (written_bit m m' index n _ i Hok W) as (k & j & Hk & -> & Hj & ->); [| lia | done |].
  { intros k Hk. by destruct (Hg k Hk) as (? & _ & _ & ?). }
  destruct (Hg k Hk) as (w & Hw & Hwu & _). rewrite Hw, (bit_word m k w) by done. simpl default.
  by rewrite Hbop, (proj2 (region_words k j Hj Hk)).
Qed.

Lemma alloc_ok :
  exists m', __reg_op p pos order REG_OP_ALLOC s = Some (0, <[p := m']> s) /\
    words_ok m' /\ length m' = length m /\ forall i, 0 <= i -> bit m' i = in_region i || bit m i.
Proof.
  rewrite reg_op_unfold. apply (region_update (fun w => w .| mask) orb); [| | done].
  - intros x Hx. apply ulong_lor; [done | apply mask_is_ulong].
  - intros x j Hx Hj. rewrite Z.lor_spec. apply orb_comm.
Qed.

Lemma release_ok :
  exists m', __reg_op p pos order REG_OP_RELEASE s = Some (0, <[p := m']> s) /\
    words_ok m' /\ length m' = length m /\ forall i, 0 <= i -> bit m' i = negb (in_region i) && bit m i.
Proof.
  rewrite reg_op_unfold. apply (region_update (fun w => w .& ul_not mask) (fun r b => negb r && b)); [| | done].
  - intros x Hx. by apply land_range.
  - intros x j Hx Hj. rewrite Z.land_spec, ul_not_testbit by lia. zbool. apply andb_comm.
Qed.
End region.

(** What the search promises: the first aligned region without a set bit is
    allocated, or there is none. *)
Definition region_found (s s' : store) (p : nat) (m : list Z) (bits order from r : Z) : Prop :=
  (from <= r /\ r mod 2 ^ order = 0 /\ r + 2 ^ order <= bits /\ ~ busy m r order /\
   (forall q, from <= q < r -> q mod 2 ^ order = 0 -> busy m q order) /\
   exists m', s' = <[p := m']> s /\ words_ok m' /\ length m' = length m /\
     forall i, 0 <= i -> bit m' i = in_region r order i || bit m i) \/
  (r = - ENOMEM /\ s' = s /\
   forall q, from <= q -> q mod 2 ^ order = 0 -> q + 2 ^ order <= bits -> busy m q order).

Lemma mod_next q pos a : 0 < a -> pos mod a = 0 -> q mod a = 0 -> pos <= q < pos + a -> q = pos.
Proof.
  intros Ha Hp Hq H. pose proof (Z.div_mod q a ltac:(lia)) as Eq. pose proof (Z.div_mod pos a ltac:(lia)) as Ep.
  rewrite Hq, Z.add_0_r in Eq. rewrite Hp, Z.add_0_r in Ep.
  assert (pos / a <= q / a) by (apply Z.div_le_mono; lia).
  assert (q / a < pos / a + 1) by (apply Z.div_lt_upper_bound; lia).
  replace (q / a) with (pos / a) in Eq by lia. lia.
Qed.

Section find_region.
Context (s : store) (p : nat) (m : list Z) (bits order : Z).
Context (Hm : s !! p = Some m) (Hok : words_ok m) (Ho : 0 <= order <= 30).
Context (Hbits : 0 <= bits <= 64 * Z.of_nat (length m)) (Hint : bits + 2 ^ order < 2 ^ 31).

Lemma free_region_loop_ok fuel : forall pos,
  0 <= pos <= bits -> pos mod 2 ^ order = 0 -> bits - pos < Z.of_nat fuel ->
  exists r s', free_region_loop fuel p bits order pos s = Some (r, s') /\ region_found s s' p m bits order pos r.
Proof using All.
  induction fuel as [|fuel IH]; intros pos Hpos Hal Hf; [lia |]. cbn [free_region_loop].
  assert (Hp : 0 < 2 ^ order) by (apply Z.pow_pos_nonneg; lia).
  rewrite Z.shiftl_mul_pow2, Z.mul_1_l, (s32_small (2 ^ order)), s32_small by lia.
  destruct (Z.leb_spec (pos + 2 ^ order) bits) as [Hle|Hgt].
  2: { exists (- ENOMEM), s. split; [done |]. right. split; [done |]. split; [done |]. intros q Hq. lia. }
  destruct (isfree_ok s p m pos order) as (f & Ef & Hfree); try done; try lia.
  rewrite (bind_ok _ _ _ _ _ Ef). destruct (Z.eqb_spec f 0) as [E0|E0].
  - destruct (IH (pos + 2 ^ order)) as (r & s' & E & Hr).
    { lia. } { by rewrite <- Z.add_mod_idemp_r, Z.mod_same, Z.add_0_r by lia. } { lia. }
    exists r, s'. split; [done |]. apply Hfree in E0.
    destruct Hr as [(H1 & H2 & H3 & H4 & H5 & H6)|(H1 & H2 & H3)].
    + left. split; [lia |]. split_and!; try done. intros q Hq Hqa.
      destruct (Z.lt_ge_cases q (pos + 2 ^ order)); [| apply H5; [lia | done]].
      by rewrite (mod_next q pos (2 ^ order)) by (done || lia).
    + right. split_and!; try done. intros q Hq Hqa Hqe.
      destruct (Z.lt_ge_cases q (pos + 2 ^ order)); [| apply H3; [lia | done | done]].
      by rewrite (mod_next q pos (2 ^ order)) by (done || lia).
  - destruct (alloc_ok s p m pos order) as (m' & Ea & Ha1 & Ha2 & Ha3); try done; try lia.
    rewrite (bind_ok _ _ _ _ _ Ea). exists pos, (<[p := m']> s). split; [done |]. left.
    split; [lia |]. split; [done |]. split; [done |]. split; [by intros Hb; apply E0, Hfree |].
    split; [intros q Hq; lia |]. by exists m'.
Qed.
End find_region.

(** C31: [bitmap_find_free_region] returns the lowest aligned region of [2^order]
    bits that has no set bit, and sets exactly the bits of that region; it
    fails with -ENOMEM only when every aligned region has a set bit, and then
    changes nothing. *)
Theorem find_free_region_correct s p m bits order :
  s !! p = Some m -> words_ok m -> 0 <= order <= 30 -> 0 <= bits <= 64 * Z.of_nat (length m) ->
  bits + 2 ^ order < 2 ^ 31 ->
  exists r s', bitmap_find_free_region p bits order s = Some (r, s') /\ region_found s s' p m bits order 0 r.
Proof.
  intros Hm Hok Ho Hb Hi. apply free_region_loop_ok; auto using Zmod_0_l; lia.
Qed.

Definition region_example : store := {[ 0%nat := [0x000000000000FF01; 0; 0; 0] ]}.

Lemma find_free_region_correct_witness :
  bitmap_find_free_region 0 256 4 region_example = Some (16, {[ 0%nat := [0x00000000FFFFFF01; 0; 0; 0] ]}) /\
  exists r s', bitmap_find_free_region 0 256 7 region_example = Some (r, s') /\
    region_found region_example s' 0 [0x000000000000FF01; 0; 0; 0] 256 7 0 r.
Proof.
  split; [reflexivity |].
  apply (find_free_region_correct region_example 0 [0x000000000000FF01; 0; 0; 0] 256 7);
    [reflexivity | by apply words_okb | lia | simpl; lia | lia].
Defined.

(** claiming a given region succeeds exactly when it is free and sets exactly
    its bits; releasing it afterwards clears exactly them, so the bitmap is as
    it was; a busy region is refused with -EBUSY and nothing changes. *)
Theorem region_alloc_release s p m pos order :
  s !! p = Some m -> words_ok m -> 0 <= order <= 30 -> 0 <= pos -> pos mod 2 ^ order = 0 ->
  pos + 2 ^ order <= 64 * Z.of_nat (length m) ->
  (busy m pos order -> bitmap_allocate_region p pos order s = Some (- EBUSY, s)) /\
  (~ busy m pos order ->
   exists m' m'', bitmap_allocate_region p pos order s = Some (0, <[p := m']> s) /\
     (forall i, 0 <= i -> bit m' i = in_region pos order i || bit m i) /\
     bitmap_release_region p pos order (<[p := m']> s) = Some (tt, <[p := m'']> s) /\
     forall i, 0 <= i -> bit m'' i = bit m i).
Proof.
  intros Hm Hok Ho Hp Hal He. unfold bitmap_allocate_region, bitmap_release_region.
  destruct (isfree_ok s p m pos order) as (f & Ef & Hfree); try done. rewrite (bind_ok _ _ _ _ _ Ef). split.
  - intros Hb. apply Hfree in Hb as ->. done.
  - intros Hb. destruct (Z.eqb_spec f 0) as [E0|_]; [tauto |].
    destruct (alloc_ok s p m pos order) as (m' & Ea & Ha1 & Ha2 & Ha3); try done.
    destruct (release_ok (<[p := m']> s) p m' pos order) as (m'' & Er & Hr1 & Hr2 & Hr3); try done.
    { apply lookup_insert_eq. } { lia. }
    exists m', m''. rewrite (bind_ok _ _ _ _ _ Ea), (bind_ok _ _ _ _ _ Er), insert_insert_eq.
    split; [done |]. split; [done |]. split; [done |]. intros i Hi. rewrite Hr3, Ha3 by done.
    destruct (in_region pos order i) eqn:E; [| done]. simpl. symmetry.
    destruct (bit m i) eqn:Ebit; [| done]. destruct Hb. by exists i.
Qed.

Lemma region_alloc_release_witness :
  bitmap_allocate_region 0 8 3 region_example = Some (- EBUSY, region_example) /\
  exists m' m'', bitmap_allocate_region 0 64 6 region_example = Some (0, <[0%nat := m']> region_example) /\
    bitmap_release_region 0 64 6 (<[0%nat := m']> region_example) = Some (tt, <[0%nat := m'']> region_example).
Proof.
  split; [reflexivity |].
  destruct (region_alloc_release region_example 0 [0x000000000000FF01; 0; 0; 0] 64 6) as (_ & H);
    [reflexivity | by apply words_okb | lia | lia | reflexivity | simpl; lia |].
  destruct H as (m' & m'' & E1 & _ & E2 & _); [| by exists m', m''].
  intros (i & Hi & Hb). unfold in_region in Hi. apply andb_prop in Hi as [Hi1 Hi2].
  unfold bit in Hb. rewrite (bm_val_word _ 1 0) in Hb; [| by apply words_okb | done | lia].
  by rewrite Z.testbit_0_l in Hb.
Defined.

End BitmapMap.
