(* ===== verification/Groups.v ===== *)
(** * Supplementary groups (kernel/groups.c, include/linux/cred.h)

    A [group_info] keeps its gids in blocks of one page.  The code is modelled on
    that layout ([GROUP_AT] picks block and slot; a bad index is [None]), and the
    theorems speak of the flat list [gids].  Pages come from the allocator with
    arbitrary contents, and the user's memory is a list whose end faults. *)

From stdpp Require Import sorting.
From S2P Require Import Prelude.

Module Groups.

Abbreviation NGROUPS_SMALL := 32 (only parsing).
Abbreviation PAGE_SIZE := 4096 (only parsing).
Abbreviation NGROUPS_PER_BLOCK := (PAGE_SIZE / 4) (only parsing).
Abbreviation NGROUPS_MAX := 65536 (only parsing).

Record group_info := GroupInfo {
  usage : Z;
  ngroups : Z;
  nblocks : Z;
  small_block : bool;        (** [blocks[0] == small_block] *)
  blocks : list (list Z)
}.

(** [GROUP_AT] as an rvalue and as an lvalue. *)
Definition group_at (gi : group_info) (i : Z) : option Z :=
  if i <? 0 then None
  else
    b ← blocks gi !! Z.to_nat (i / NGROUPS_PER_BLOCK);
    b !! Z.to_nat (i mod NGROUPS_PER_BLOCK).

Definition set_blocks (gi : group_info) (bs : list (list Z)) : group_info :=
  GroupInfo (usage gi) (ngroups gi) (nblocks gi) (small_block gi) bs.

Definition set_group_at (gi : group_info) (i v : Z) : option group_info :=
  if i <? 0 then None
  else
    let k := Z.to_nat (i / NGROUPS_PER_BLOCK) in
    let j := Z.to_nat (i mod NGROUPS_PER_BLOCK) in
    b ← blocks gi !! k;
    if (j <? length b)%nat then Some (set_blocks gi (<[k := <[j := v]> b]> (blocks gi))) else None.

(** ** Allocation *)

(** The loop over [__get_free_page]: the pages obtained, or the pages that the
    undo path gives back. *)
Fixpoint alloc_blocks (n : nat) (free_page : list (option (list Z))) (got : list (list Z))
    : list (list Z) + list (list Z) :=
  match n with
  | O => inl got
  | S n =>
      match free_page with
      | Some b :: free_page => alloc_blocks n free_page (got ++ [b])
      | _ => inr (rev got)
      end
  end.

(** [kmalloc]: the contents of the fresh small block, or failure. *)
Definition groups_alloc (gidsetsize : Z) (kmalloc : option (list Z)) (free_page : list (option (list Z)))
    : option group_info * list (list Z) :=
  let nblocks := (gidsetsize + NGROUPS_PER_BLOCK - 1) / NGROUPS_PER_BLOCK in
  let nblocks := if nblocks =? 0 then 1 else nblocks in
  match kmalloc with
  | None => (None, [])
  | Some small =>
      if gidsetsize <=? NGROUPS_SMALL then (Some (GroupInfo 1 gidsetsize nblocks true [small]), [])
      else
        match alloc_blocks (Z.to_nat nblocks) free_page [] with
        | inl bs => (Some (GroupInfo 1 gidsetsize nblocks false bs), [])
        | inr freed => (None, freed)
        end
  end.

(** ** Copies from and to user space *)

(** A copy of [n] gids at [off]; one of nothing never faults. *)
Definition accessible (user : list Z) (off n : nat) : bool := (n =? 0)%nat || (off + n <=? length user)%nat.

(** One round of the loop: [cp_count] gids of a block. *)
Definition copy_in (user : list Z) (off cp_count : nat) (b : list Z) : option (list Z) :=
  if accessible user off cp_count && (cp_count <=? length b)%nat
  then Some (take cp_count (drop off user) ++ drop cp_count b) else None.

Fixpoint from_user_loop (user : list Z) (bs : list (list Z)) (off : nat) (count : Z) : option (list (list Z)) :=
  match bs with
  | [] => Some []
  | b :: bs =>
      let cp_count := Z.min NGROUPS_PER_BLOCK count in
      b ← copy_in user off (Z.to_nat cp_count) b;
      bs ← from_user_loop user bs (off + Z.to_nat NGROUPS_PER_BLOCK) (count - cp_count);
      Some (b :: bs)
  end.

Definition groups_from_user (gi : group_info) (grouplist : list Z) : Z + group_info :=
  match from_user_loop grouplist (take (Z.to_nat (nblocks gi)) (blocks gi)) 0 (ngroups gi) with
  | Some bs => inr (set_blocks gi bs)
  | None => inl (- EFAULT)
  end.

(** The user's array after the copies; [None] when one of them faults. *)
Fixpoint to_user_loop (user : list Z) (bs : list (list Z)) (off : nat) (count : Z) : option (list Z) :=
  match bs with
  | [] => Some user
  | b :: bs =>
      let cp_count := Z.min NGROUPS_PER_BLOCK count in
      let n := Z.to_nat cp_count in
      if accessible user off n && (n <=? length b)%nat then
        to_user_loop (take off user ++ take n b ++ drop (off + n) user) bs
          (off + Z.to_nat NGROUPS_PER_BLOCK) (count - cp_count)
      else None
  end.

Definition groups_to_user (grouplist : list Z) (gi : group_info) : option (list Z) :=
  to_user_loop grouplist (take (Z.to_nat (nblocks gi)) (blocks gi)) 0 (ngroups gi).

(** ** Sorting *)

(** [while (left >= 0 && GROUP_AT(left) > tmp) { ... }] *)
Fixpoint sift (fuel : nat) (gi : group_info) (stride left right tmp : Z) : option (group_info * Z) :=
  match fuel with
  | O => None
  | S fuel =>
      if left >=? 0 then
        x ← group_at gi left;
        if x >? tmp then
          gi ← set_group_at gi right x;
          sift fuel gi stride (left - stride) left tmp
        else Some (gi, right)
      else Some (gi, right)
  end.

(** [for (base = 0; base < max; base++)]: [n] rounds from [base] on. *)
Fixpoint sort_pass (n : nat) (gi : group_info) (stride base : Z) : option group_info :=
  match n with
  | O => Some gi
  | S n =>
      let left := base in
      let right := left + stride in
      tmp ← group_at gi right;
      r ← sift (S (S (Z.to_nat base))) gi stride left right tmp;
      gi ← set_group_at r.1 r.2 tmp;
      sort_pass n gi stride (base + 1)
  end.

Fixpoint stride_loop (fuel : nat) (gi : group_info) (stride : Z) : option group_info :=
  match fuel with
  | O => None
  | S fuel =>
      if stride =? 0 then Some gi
      else
        gi ← sort_pass (Z.to_nat (ngroups gi - stride)) gi stride 0;
        stride_loop fuel gi (stride / 3)
  end.

(** [for (stride = 1; stride < gidsetsize; stride = 3 * stride + 1)] *)
Fixpoint first_stride (fuel : nat) (gidsetsize stride : Z) : option Z :=
  match fuel with
  | O => None
  | S fuel => if stride <? gidsetsize then first_stride fuel gidsetsize (3 * stride + 1) else Some stride
  end.

Definition groups_sort (gi : group_info) : option group_info :=
  stride ← first_stride (S (Z.to_nat (ngroups gi))) (ngroups gi) 1;
  stride_loop (S (Z.to_nat (stride / 3))) gi (stride / 3).

(** ** Searching *)

(** [int cmp = grp - GROUP_AT(..)]: the difference of two unsigned ints, read as
    a signed one. *)
Fixpoint search_loop (fuel : nat) (gi : group_info) (grp left right : Z) : option bool :=
  match fuel with
  | O => None
  | S fuel =>
      if left <? right then
        let mid := u32 (left + right) / 2 in
        x ← group_at gi mid;
        let cmp := s32 (u32 (grp - x)) in
        if cmp >? 0 then search_loop fuel gi grp (mid + 1) right
        else if cmp <? 0 then search_loop fuel gi grp left mid
        else Some true
      else Some false
  end.

Definition groups_search (gi : option group_info) (grp : Z) : option bool :=
  match gi with
  | None => Some false
  | Some gi => search_loop (S (Z.to_nat (ngroups gi))) gi grp 0 (ngroups gi)
  end.

(** ** Credentials *)

Record cred := Cred { fsuid : Z; fsgid : Z; egid : Z; cred_groups : option group_info }.

Definition in_group_p (c : cred) (grp : Z) : option bool :=
  if negb (grp =? fsgid c) then groups_search (cred_groups c) grp else Some true.

Definition in_egroup_p (c : cred) (grp : Z) : option bool :=
  if negb (grp =? egid c) then groups_search (cred_groups c) grp else Some true.

(** ** The flat list *)

Definition wf (gi : group_info) : Prop :=
  0 <= ngroups gi <= NGROUPS_MAX /\ forall i, 0 <= i < ngroups gi -> is_Some (group_at gi i).

Definition gids (gi : group_info) : list Z :=
  (fun i => default 0 (group_at gi (Z.of_nat i))) <$> seq 0 (Z.to_nat (ngroups gi)).

(** Everything but the gids themselves. *)
Definition alike (gi gi' : group_info) : Prop :=
  usage gi' = usage gi /\ ngroups gi' = ngroups gi /\ nblocks gi' = nblocks gi /\ small_block gi' = small_block gi.

#[export] Instance alike_preorder : PreOrder alike.
Proof. split; [done |]. intros a b c (?&?&?&?) (?&?&?&?). repeat split; congruence. Qed.

Lemma length_gids gi : length (gids gi) = Z.to_nat (ngroups gi).
Proof. unfold gids. by rewrite length_fmap, length_seq. Qed.

Lemma gids_lookup gi i : wf gi -> 0 <= i < ngroups gi -> gids gi !! Z.to_nat i = group_at gi i.
Proof.
  intros [_ Hs] Hi. unfold gids. rewrite list_lookup_fmap, lookup_seq_lt by lia. simpl.
  rewrite Z2Nat.id by lia. by destruct (Hs i Hi) as [x ->].
Qed.

Lemma group_at_set gi gi' i j v :
  set_group_at gi i v = Some gi' -> 0 <= j -> group_at gi' j = if j =? i then Some v else group_at gi j.
Proof.
  unfold set_group_at, group_at. intros H Hj. destruct (Z.ltb_spec i 0); [done |].
  destruct (blocks gi !! Z.to_nat (i / _)) as [b|] eqn:Hb; simpl in H; [| done].
  destruct (Nat.ltb_spec (Z.to_nat (i mod NGROUPS_PER_BLOCK)) (length b)) as [Hl|]; simplify_eq. simpl.
  zbool. pose proof (Z.div_mod i NGROUPS_PER_BLOCK ltac:(done)). pose proof (Z.div_mod j NGROUPS_PER_BLOCK ltac:(done)).
  pose proof (Z.mod_pos_bound i NGROUPS_PER_BLOCK ltac:(done)). pose proof (Z.mod_pos_bound j NGROUPS_PER_BLOCK ltac:(done)).
  assert (0 <= i / NGROUPS_PER_BLOCK) by (apply Z.div_pos; done).
  assert (0 <= j / NGROUPS_PER_BLOCK) by (apply Z.div_pos; done).
  assert (Z.to_nat (i / NGROUPS_PER_BLOCK) < length (blocks gi))%nat by (by eapply lookup_lt_Some).
  destruct (decide (j / NGROUPS_PER_BLOCK = i / NGROUPS_PER_BLOCK)) as [E|E].
  - rewrite E, list_lookup_insert_eq by done. simpl.
    destruct (decide (j mod NGROUPS_PER_BLOCK = i mod NGROUPS_PER_BLOCK)) as [E'|E'].
    + rewrite E', list_lookup_insert_eq by done. by rewrite (proj2 (Z.eqb_eq j i)) by congruence.
    + rewrite list_lookup_insert_ne by lia. rewrite Hb. simpl.
      by rewrite (proj2 (Z.eqb_neq j i)) by congruence.
  - rewrite list_lookup_insert_ne by lia. by rewrite (proj2 (Z.eqb_neq j i)) by congruence.
Qed.

Lemma set_group_at_ok gi i v :
  wf gi -> 0 <= i < ngroups gi ->
  exists gi', set_group_at gi i v = Some gi' /\ wf gi' /\ alike gi gi' /\ gids gi' = <[Z.to_nat i := v]> (gids gi).
Proof.
  intros Hwf Hi. pose proof Hwf as [Hn Hs]. destruct (Hs i Hi) as [x Hx].
  assert (exists gi', set_group_at gi i v = Some gi' /\ alike gi gi') as (gi' & E & Ha).
  { unfold group_at in Hx. unfold set_group_at. destruct (i <? 0); [done |].
    destruct (blocks gi !! _) as [b|]; simpl in Hx |- *; [| done].
    rewrite (proj2 (Nat.ltb_lt _ _)) by (by eapply lookup_lt_Some). by eexists. }
  pose proof Ha as (_ & Hng & _). assert (Hwf' : wf gi').
  { split; [by rewrite Hng |]. intros j Hj. rewrite (group_at_set gi gi' i j v E) by lia.
    destruct (j =? i); [done |]. apply Hs. lia. }
  exists gi'. split; [done |]. split; [done |]. split; [done |]. apply list_eq. intros j.
  destruct (decide (j < Z.to_nat (ngroups gi))%nat) as [Hj|Hj].
  - rewrite <- (Nat2Z.id j) at 1. rewrite gids_lookup, (group_at_set gi gi' i _ v E) by (done || lia).
    destruct (Z.eqb_spec (Z.of_nat j) i) as [<-|Hne].
    + rewrite Nat2Z.id, list_lookup_insert_eq; [done |]. by rewrite length_gids.
    + rewrite list_lookup_insert_ne by lia. rewrite <- (gids_lookup gi (Z.of_nat j)) by (done || lia).
      by rewrite Nat2Z.id.
  - rewrite !lookup_ge_None_2; [done | rewrite length_insert, length_gids; lia | rewrite length_gids; lia].
Qed.

(** ** Sorting permutes *)

Lemma swap_Permutation {A} (l : list A) i j x y :
  l !! i = Some x -> l !! j = Some y -> <[i := y]> (<[j := x]> l) ≡ₚ l.
Proof.
  revert i j. induction l as [|a l IH]; intros i j Hi Hj; [done |].
  destruct i as [|i], j as [|j]; simpl in *; simplify_eq.
  - done.
  - revert j Hj. clear IH. intros j Hj. revert j Hj. induction l as [|b l IH]; intros [|j] Hj; simplify_eq/=.
    + by rewrite Permutation_swap.
    + rewrite Permutation_swap, (IH j Hj). by rewrite Permutation_swap.
  - revert i Hi. clear IH. induction l as [|b l IH]; intros [|i] Hi; simplify_eq/=.
    + by rewrite Permutation_swap.
    + rewrite Permutation_swap, (IH i Hi). by rewrite Permutation_swap.
  - by rewrite IH.
Qed.

Lemma sift_permutes fuel : forall gi stride left tmp,
  wf gi -> 1 <= stride -> - stride <= left -> left + stride < ngroups gi -> left + 1 < Z.of_nat fuel ->
  0 < Z.of_nat fuel ->
  exists gi' right', sift fuel gi stride left (left + stride) tmp = Some (gi', right') /\
    wf gi' /\ alike gi gi' /\ 0 <= right' < ngroups gi /\
    <[Z.to_nat right' := tmp]> (gids gi') ≡ₚ <[Z.to_nat (left + stride) := tmp]> (gids gi).
Proof.
  induction fuel as [|fuel IH]; intros gi stride left tmp Hwf Hst Hl Hr Hf Hf0; [lia |]. cbn [sift].
  assert (Hdone : exists gi' right', Some (gi, left + stride) = Some (gi', right') /\
    wf gi' /\ alike gi gi' /\ 0 <= right' < ngroups gi /\
    <[Z.to_nat right' := tmp]> (gids gi') ≡ₚ <[Z.to_nat (left + stride) := tmp]> (gids gi)).
  { exists gi, (left + stride). split; [done |]. split; [done |]. split; [done |]. split; [lia | done]. }
  destruct (Z.geb_spec left 0) as [H0|]; [| exact Hdone].
  pose proof Hwf as [_ Hs]. destruct (Hs left) as [x Hx]; [lia |]. rewrite Hx. cbn [mbind option_bind].
  destruct (Z.gtb_spec x tmp); [| exact Hdone].
  destruct (set_group_at_ok gi (left + stride) x Hwf) as (gi1 & E1 & Hwf1 & Ha1 & Hg1); [lia |].
  rewrite E1. cbn [mbind option_bind]. pose proof Ha1 as (_ & Hn1 & _).
  destruct (IH gi1 stride (left - stride) tmp) as (gi' & right' & E & Hwf' & Ha' & Hr' & Hp');
    try done; try lia.
  replace (left - stride + stride) with left in * by lia. rewrite E. exists gi', right'.
  split; [done |]. split; [done |]. split; [by etrans |]. split; [lia |]. rewrite Hp', Hg1.
  rewrite <- (gids_lookup gi left) in Hx by (done || lia).
  pose proof (length_gids gi) as Hlen.
  rewrite <- (swap_Permutation (<[Z.to_nat (left + stride) := tmp]> (gids gi)) (Z.to_nat left) (Z.to_nat (left + stride)) x tmp).
  - by rewrite list_insert_insert_eq.
  - by rewrite list_lookup_insert_ne by lia.
  - apply list_lookup_insert_eq. lia.
Qed.

(** One round of the inner [for] loop: read, sift, write back. *)
Lemma sort_round gi stride base :
  wf gi -> 1 <= stride -> 0 <= base -> base + stride < ngroups gi ->
  exists tmp gi1 right gi2, group_at gi (base + stride) = Some tmp /\
    sift (S (S (Z.to_nat base))) gi stride base (base + stride) tmp = Some (gi1, right) /\
    set_group_at gi1 right tmp = Some gi2 /\ wf gi2 /\ alike gi gi2 /\ gids gi2 ≡ₚ gids gi /\
    gids gi2 = <[Z.to_nat right := tmp]> (gids gi1).
Proof.
  intros Hwf Hst Hb Hr. pose proof Hwf as [_ Hs]. destruct (Hs (base + stride)) as [tmp Ht]; [lia |].
  destruct (sift_permutes (S (S (Z.to_nat base))) gi stride base tmp) as (gi1 & right & E & Hwf1 & Ha1 & Hr1 & Hp1);
    try done; try lia.
  pose proof Ha1 as (_ & Hn1 & _).
  destruct (set_group_at_ok gi1 right tmp Hwf1) as (gi2 & E2 & Hwf2 & Ha2 & Hg2); [lia |].
  exists tmp, gi1, right, gi2. split; [done |]. split; [done |]. split; [done |]. split; [done |].
  split; [by etrans |]. split; [| done]. rewrite Hg2, Hp1, list_insert_id; [done |].
  by rewrite gids_lookup by (done || lia).
Qed.

Lemma sort_pass_permutes n : forall gi stride base,
  wf gi -> 1 <= stride -> 0 <= base -> base + stride + Z.of_nat n <= ngroups gi ->
  exists gi', sort_pass n gi stride base = Some gi' /\ wf gi' /\ alike gi gi' /\ gids gi' ≡ₚ gids gi.
Proof.
  induction n as [|n IH]; intros gi stride base Hwf Hst Hb Hn; cbn [sort_pass]; [by exists gi |].
  destruct (sort_round gi stride base) as (tmp & gi1 & right & gi2 & Et & Es & Ew & Hwf2 & Ha2 & Hp2 & _); try done; try lia.
  rewrite Et. cbn [mbind option_bind]. rewrite Es. cbn [mbind option_bind fst snd]. rewrite Ew. cbn [mbind option_bind].
  pose proof Ha2 as (_ & Hn2 & _).
  destruct (IH gi2 stride (base + 1)) as (gi' & E & ? & ? & Hp); try done; try lia.
  exists gi'. split; [done |]. split; [done |]. split; [by etrans | by rewrite Hp].
Qed.

(** ** The last pass sorts *)

Definition ordered (l : list Z) : Prop := StronglySorted Z.le l.

Lemma ordered_snoc l x : ordered (l ++ [x]) <-> ordered l /\ Forall (fun y => y <= x) l.
Proof.
  unfold ordered. induction l as [|a l IH]; simpl.
  - split; [by repeat constructor |]. by repeat constructor.
  - split.
    + intros H. apply StronglySorted_inv in H as [H1 H2]. apply Forall_app in H2 as [H2 H3].
      apply IH in H1 as [H1 H4]. apply Forall_cons in H3 as [H3 _]. split; [by constructor | by constructor].
    + intros [H1 H2]. apply StronglySorted_inv in H1 as [H1 H3]. apply Forall_cons in H2 as [H2 H4].
      constructor; [by apply IH |]. apply Forall_app. split; [done |]. by constructor.
Qed.

Lemma ordered_lookup l i j x y :
  ordered l -> (i <= j)%nat -> l !! i = Some x -> l !! j = Some y -> x <= y.
Proof.
  intros Hl. revert i j. induction Hl as [|a l _ IH Ha]; intros i j Hij Hi Hj; [done |].
  destruct i as [|i], j as [|j]; simplify_eq/=; [lia | | lia |].
  - rewrite Forall_lookup in Ha. by eapply Ha.
  - eapply IH; [| done | done]. lia.
Qed.

(** Where sifting with stride one puts [tmp] behind the prefix [rev rp]. *)
Fixpoint place (tmp : Z) (rp : list Z) : list Z :=
  match rp with
  | [] => [tmp]
  | b :: rp' => if b >? tmp then place tmp rp' ++ [b] else rev rp ++ [tmp]
  end.

Lemma place_bound tmp rp b : tmp <= b -> Forall (fun y => y <= b) rp -> Forall (fun y => y <= b) (place tmp rp).
Proof.
  intros Ht. induction 1 as [|a rp Ha Hrp IH]; simpl; [by repeat constructor |].
  destruct (a >? tmp).
  - apply Forall_app. split; [done | by repeat constructor].
  - apply Forall_app. split; [| by repeat constructor]. apply Forall_app. split; [by apply Forall_rev | by repeat constructor].
Qed.

Lemma place_ordered tmp rp : ordered (rev rp) -> ordered (place tmp rp).
Proof.
  induction rp as [|b rp IH]; simpl; [by repeat constructor |]. intros H. pose proof H as H'.
  apply ordered_snoc in H as [H1 H2]. destruct (Z.gtb_spec b tmp).
  - apply ordered_snoc. split; [by apply IH |]. apply place_bound; [lia |].
    rewrite <- (rev_involutive rp). by apply Forall_rev.
  - apply ordered_snoc. split; [done |]. apply Forall_app. split; [| by repeat constructor].
    eapply Forall_impl; [exact H2 |]. simpl. lia.
Qed.

Lemma length_place tmp rp : length (place tmp rp) = S (length rp).
Proof.
  induction rp as [|b rp IH]; simpl; [done |]. destruct (b >? tmp); rewrite !length_app, ?length_rev, ?IH; simpl; lia.
Qed.

Lemma sift_one rp : forall fuel gi h r tmp,
  wf gi -> gids gi = rev rp ++ h :: r -> (length rp < fuel)%nat ->
  exists gi' right', sift fuel gi 1 (Z.of_nat (length rp) - 1) (Z.of_nat (length rp)) tmp = Some (gi', right') /\
    wf gi' /\ alike gi gi' /\ 0 <= right' < ngroups gi /\ <[Z.to_nat right' := tmp]> (gids gi') = place tmp rp ++ r.
Proof.
  induction rp as [|b rp IH]; intros fuel gi h r tmp Hwf Hg Hf; (destruct fuel as [|fuel]; [simpl in Hf; lia |]); cbn [sift].
  - pose proof (length_gids gi) as Hl. rewrite Hg in Hl. simpl in Hl. simpl.
    exists gi, 0. split; [done |]. split; [done |]. split; [done |]. split; [lia |]. by rewrite Hg.
  - pose proof (length_gids gi) as Hl. rewrite Hg, length_app, length_rev in Hl. simpl length in *.
    replace (Z.of_nat (S (length rp)) - 1) with (Z.of_nat (length rp)) by lia.
    rewrite (proj2 (Z.geb_le _ _)) by lia.
    assert (Hb : group_at gi (Z.of_nat (length rp)) = Some b).
    { rewrite <- gids_lookup by (done || lia). rewrite Hg, Nat2Z.id. simpl. rewrite <- app_assoc.
      rewrite <- (length_rev rp), <- (Nat.add_0_r (length (rev rp))), lookup_app_r by lia.
      by rewrite Nat.add_0_r, Nat.sub_diag. }
    rewrite Hb. cbn [mbind option_bind place]. destruct (Z.gtb_spec b tmp) as [Hgt|Hle].
    + destruct (set_group_at_ok gi (Z.of_nat (S (length rp))) b Hwf) as (gi1 & E1 & Hwf1 & Ha1 & Hg1); [lia |].
      rewrite E1. cbn [mbind option_bind]. pose proof Ha1 as (_ & Hn1 & _).
      destruct (IH fuel gi1 b (b :: r) tmp Hwf1) as (gi' & right' & E & ? & ? & ? & Hp); [| lia |].
      { rewrite Hg1, Hg, Nat2Z.id. replace (S (length rp)) with (length (rev (b :: rp))) by (by rewrite length_rev).
        rewrite insert_middle. simpl. by rewrite <- app_assoc. }
      exists gi', right'. rewrite E. split; [done |]. split; [done |]. split; [by etrans |]. split; [lia |].
      rewrite Hp. by rewrite <- app_assoc.
    + exists gi, (Z.of_nat (S (length rp))). split; [done |]. split; [done |]. split; [done |]. split; [lia |].
      rewrite Hg, Nat2Z.id. rewrite <- app_assoc.
      replace (S (length rp)) with (length (rev (b :: rp))) by (by rewrite length_rev). by rewrite insert_middle.
Qed.

(** With stride one the pass keeps a growing sorted prefix. *)
Lemma sort_pass_sorts n : forall gi base q rest,
  wf gi -> gids gi = q ++ rest -> ordered q -> Z.of_nat (length q) = base + 1 -> 0 <= base ->
  length rest = n ->
  exists gi', sort_pass n gi 1 base = Some gi' /\ wf gi' /\ alike gi gi' /\ ordered (gids gi') /\ gids gi' ≡ₚ gids gi.
Proof.
  induction n as [|n IH]; intros gi base q rest Hwf Hg Hq Hlq Hb Hn; cbn [sort_pass].
  { destruct rest; [| done]. rewrite app_nil_r in Hg. exists gi. rewrite Hg. by repeat split; try apply Hwf. }
  destruct rest as [|t rest]; [done |]. simpl in Hn. pose proof (length_gids gi) as Hl.
  rewrite Hg, length_app in Hl. simpl in Hl.
  destruct (sort_round gi 1 base) as (tmp & gi1 & right & gi2 & Et & Es & Ew & Hwf2 & Ha2 & Hp2 & Hg2); try done; try lia.
  rewrite Et. cbn [mbind option_bind]. rewrite Es. cbn [mbind option_bind fst snd]. rewrite Ew. cbn [mbind option_bind].
  destruct (sift_one (rev q) (S (S (Z.to_nat base))) gi t rest tmp Hwf) as (gi1' & right' & Es' & _ & _ & _ & Hpl).
  { by rewrite rev_involutive. } { rewrite length_rev. lia. }
  rewrite length_rev in Es'. replace (Z.of_nat (length q) - 1) with base in Es' by lia. rewrite Hlq in Es'.
  rewrite Es in Es'. simplify_eq. rewrite <- Hg2 in Hpl.
  destruct (IH gi2 (base + 1) (place tmp (rev q)) rest Hwf2 Hpl) as (gi' & E & ? & ? & ? & Hp); [| | lia | lia |].
  { apply place_ordered. by rewrite rev_involutive. } { rewrite length_place, length_rev. lia. }
  exists gi'. split; [done |]. split; [done |]. split; [by etrans |]. split; [done | by rewrite Hp].
Qed.

(** ** The strides: 1, 4, 13, 40, ... *)

Inductive is_stride : Z -> Prop :=
  | stride_one : is_stride 1
  | stride_next s : is_stride s -> is_stride (3 * s + 1).

Lemma is_stride_pos s : is_stride s -> 1 <= s.
Proof. induction 1; lia. Qed.

Lemma stride_div s : is_stride s -> (s = 1 /\ s / 3 = 0) \/ is_stride (s / 3).
Proof.
  destruct 1 as [|s H]; [by left |]. right. pose proof (is_stride_pos s H).
  replace (3 * s + 1) with (1 + s * 3) by lia. by rewrite Z.div_add, Z.div_small, Z.add_0_l by lia.
Qed.

Lemma first_stride_ok fuel : forall n s,
  is_stride s -> n - s < Z.of_nat fuel -> (s = 1 \/ s / 3 < n) -> 0 < Z.of_nat fuel ->
  exists r, first_stride fuel n s = Some r /\ is_stride r /\ n <= r /\ (r = 1 \/ r / 3 < n).
Proof.
  induction fuel as [|fuel IH]; intros n s Hs Hf Hlt Hf0; [lia |]. cbn [first_stride].
  pose proof (is_stride_pos s Hs). destruct (Z.ltb_spec s n); [| by exists s].
  apply IH; [by constructor | lia | | lia]. right.
  replace (3 * s + 1) with (1 + s * 3) by lia. by rewrite Z.div_add, Z.div_small, Z.add_0_l by lia.
Qed.

Lemma stride_loop_ok fuel : forall gi s,
  wf gi -> is_stride s -> s < ngroups gi -> s < Z.of_nat fuel ->
  exists gi', stride_loop fuel gi s = Some gi' /\ wf gi' /\ alike gi gi' /\ ordered (gids gi') /\ gids gi' ≡ₚ gids gi.
Proof.
  induction fuel as [|fuel IH]; intros gi s Hwf Hs Hlt Hf; pose proof (is_stride_pos s Hs); [lia |].
  cbn [stride_loop]. rewrite (proj2 (Z.eqb_neq s 0)) by lia.
  destruct (stride_div s Hs) as [[-> _]|Hnext].
  - pose proof (length_gids gi) as Hl. destruct (gids gi) as [|g rest] eqn:Hg; [simpl in Hl; lia |].
    destruct (sort_pass_sorts (Z.to_nat (ngroups gi - 1)) gi 0 [g] rest Hwf) as (gi' & E & ? & ? & ? & Hp);
      try done; [by repeat constructor | simpl in Hl; lia |].
    rewrite E. cbn [mbind option_bind]. exists gi'. rewrite Hg in Hp. split; [| done].
    destruct fuel; [lia |]. done.
  - destruct (sort_pass_permutes (Z.to_nat (ngroups gi - s)) gi s 0) as (gi1 & E & Hwf1 & Ha1 & Hp1); try done; try lia.
    rewrite E. cbn [mbind option_bind]. pose proof Ha1 as (_ & Hn1 & _).
    assert (s / 3 < s) by (apply Z.div_lt; lia).
    destruct (IH gi1 (s / 3)) as (gi' & E' & ? & ? & ? & Hp); try done; try lia.
    exists gi'. split; [done |]. split; [done |]. split; [by etrans |]. split; [done | by rewrite Hp].
Qed.

Lemma groups_sort_ok gi :
  wf gi -> exists gi', groups_sort gi = Some gi' /\ wf gi' /\ alike gi gi' /\ ordered (gids gi') /\ gids gi' ≡ₚ gids gi.
Proof.
  intros Hwf. pose proof Hwf as [Hn _]. unfold groups_sort.
  destruct (first_stride_ok (S (Z.to_nat (ngroups gi))) (ngroups gi) 1) as (r & -> & Hr & Hle & Hlt);
    [constructor | lia | by left | lia |].
  cbn [mbind option_bind]. destruct (stride_div r Hr) as [[-> E]|Hs].
  - rewrite E. simpl. exists gi. split; [done |]. split; [done |]. split; [done |]. split; [| done].
    pose proof (length_gids gi) as Hl. destruct (gids gi) as [|g [|]]; simpl in Hl; [constructor | by repeat constructor | lia].
  - pose proof (is_stride_pos _ Hs). apply stride_loop_ok; [done | done | | lia].
    destruct Hlt as [->|]; [by vm_compute in Hs; apply is_stride_pos in Hs | done].
Qed.

(** ** Searching *)

(** The difference of two gids fits into an [int]. *)
Definition comparable (grp : Z) (l : list Z) : Prop := Forall (fun x => - 2 ^ 31 <= grp - x < 2 ^ 31) l.

Lemma search_loop_ok fuel : forall gi grp left right,
  wf gi -> ordered (gids gi) -> comparable grp (gids gi) -> 0 <= left <= right -> right <= ngroups gi ->
  right - left < Z.of_nat fuel ->
  (forall j x, 0 <= j < left -> gids gi !! Z.to_nat j = Some x -> x < grp) ->
  (forall j x, right <= j < ngroups gi -> gids gi !! Z.to_nat j = Some x -> grp < x) ->
  search_loop fuel gi grp left right = Some (bool_decide (grp ∈ gids gi)).
Proof.
  induction fuel as [|fuel IH]; intros gi grp left right Hwf Hord Hcmp Hlr Hrn Hf Hlo Hhi; [lia |].
  cbn [search_loop]. pose proof Hwf as [Hn Hs]. pose proof (length_gids gi) as Hlen.
  destruct (Z.ltb_spec left right) as [Hlt|Hge].
  - rewrite uwrap_small by lia. set (mid := (left + right) / 2).
    assert (Hm : left <= mid < right).
    { split; [apply Z.div_le_lower_bound; lia | apply Z.div_lt_upper_bound; lia]. }
    destruct (Hs mid) as [x Hx]; [lia |]. rewrite Hx. cbn [mbind option_bind].
    rewrite <- gids_lookup in Hx by (done || lia).
    assert (Hc : - 2 ^ 31 <= grp - x < 2 ^ 31) by exact (Forall_lookup_1 _ _ _ _ Hcmp Hx).
    assert (Es : s32 (u32 (grp - x)) = grp - x).
    { unfold swrap, uwrap. rewrite Zplus_mod_idemp_l. change (2 ^ (32 - 1)) with (2 ^ 31).
      rewrite Z.mod_small by lia. lia. }
    rewrite Es. destruct (Z.gtb_spec (grp - x) 0); [| destruct (Z.ltb_spec (grp - x) 0)].
    + apply IH; try done; try lia. intros j y Hj Hy. destruct (Z.lt_ge_cases j left); [by apply (Hlo j); [lia |] |].
      pose proof (ordered_lookup _ _ _ _ _ Hord (ltac:(lia) : (Z.to_nat j <= Z.to_nat mid)%nat) Hy Hx). lia.
    + apply IH; try done; try lia. intros j y Hj Hy. destruct (Z.lt_ge_cases j right); [| by apply (Hhi j); [lia |]].
      pose proof (ordered_lookup _ _ _ _ _ Hord (ltac:(lia) : (Z.to_nat mid <= Z.to_nat j)%nat) Hx Hy). lia.
    + f_equal. symmetry. apply bool_decide_eq_true. replace grp with x by lia. apply list_elem_of_lookup.
      by exists (Z.to_nat mid).
  - f_equal. symmetry. apply bool_decide_eq_false. intros (j & Hj)%list_elem_of_lookup.
    assert ((j < length (gids gi))%nat) by (by eapply lookup_lt_Some).
    destruct (Z.lt_ge_cases (Z.of_nat j) left).
    + specialize (Hlo (Z.of_nat j) grp). rewrite Nat2Z.id in Hlo. specialize (Hlo ltac:(lia) Hj). lia.
    + specialize (Hhi (Z.of_nat j) grp). rewrite Nat2Z.id in Hhi. specialize (Hhi ltac:(lia) Hj). lia.
Qed.

Lemma groups_search_ok gi grp :
  wf gi -> ordered (gids gi) -> comparable grp (gids gi) ->
  groups_search (Some gi) grp = Some (bool_decide (grp ∈ gids gi)).
Proof.
  intros Hwf Ho Hc. pose proof Hwf as [Hn _]. apply search_loop_ok; try done; try lia.
Qed.

(** ** Copies *)

(** Blocks of whole pages, or the small block. *)
Definition layout (gi : group_info) : Prop :=
  0 <= ngroups gi <= NGROUPS_MAX /\ Z.of_nat (length (blocks gi)) = nblocks gi /\
  ngroups gi <= NGROUPS_PER_BLOCK * nblocks gi /\
  Forall (fun b => Z.of_nat (length b) = NGROUPS_PER_BLOCK \/
                   ngroups gi <= Z.of_nat (length b) /\ nblocks gi = 1) (blocks gi).

Definition slot (bs : list (list Z)) (i : nat) : option Z :=
  b ← bs !! (i / 1024)%nat; b !! (i mod 1024)%nat.

Lemma group_at_slot gi i : 0 <= i -> group_at gi i = slot (blocks gi) (Z.to_nat i).
Proof.
  intros Hi. unfold group_at, slot. zbool. change NGROUPS_PER_BLOCK with 1024.
  rewrite Z2Nat.inj_div, Z2Nat.inj_mod by lia. done.
Qed.

Lemma slot_head b bs i : (i < 1024)%nat -> slot (b :: bs) i = b !! i.
Proof. intros Hi. unfold slot. by rewrite Nat.div_small, Nat.mod_small. Qed.

Lemma slot_tail b bs i : slot (b :: bs) (1024 + i) = slot bs i.
Proof.
  unfold slot. replace (1024 + i)%nat with (i + 1 * 1024)%nat by lia.
  rewrite Nat.div_add, Nat.Div0.mod_add by lia. by rewrite Nat.add_1_r.
Qed.

(** Every block can take the gids meant for it. *)
Fixpoint roomy (bs : list (list Z)) (count : Z) : Prop :=
  match bs with
  | [] => count = 0
  | b :: bs => Z.min NGROUPS_PER_BLOCK count <= Z.of_nat (length b) /\
               roomy bs (count - Z.min NGROUPS_PER_BLOCK count)
  end.

Lemma layout_roomy gi : layout gi -> roomy (blocks gi) (ngroups gi).
Proof.
  intros (Hn & Hl & Hle & Hb). revert Hn Hl Hle Hb. generalize (nblocks gi) as nb. generalize (ngroups gi) as n.
  change NGROUPS_PER_BLOCK with 1024.
  induction (blocks gi) as [|b bs IH]; intros n nb Hn Hl Hle Hb; simpl in *; [lia |]. change NGROUPS_PER_BLOCK with 1024.
  apply Forall_cons in Hb as [Hb1 Hb2]. split; [lia |].
  destruct bs as [|b' bs]; [simpl in *; lia |].
  apply (IH _ (nb - 1)); [lia | simpl in *; lia | lia |].
  eapply Forall_impl; [exact Hb2 |]. simpl in *. intros x [?|?]; [by left | lia].
Qed.

Lemma accessible_true user off n : accessible user off n = true <-> n = O \/ (off + n <= length user)%nat.
Proof. unfold accessible. destruct (Nat.eqb_spec n 0), (Nat.leb_spec (off + n) (length user)); simpl; naive_solver lia. Qed.

Lemma accessible_split user off (count : Z) :
  0 <= count ->
  accessible user off (Z.to_nat count) =
  accessible user off (Z.to_nat (Z.min NGROUPS_PER_BLOCK count)) &&
  accessible user (off + Z.to_nat NGROUPS_PER_BLOCK) (Z.to_nat (count - Z.min NGROUPS_PER_BLOCK count)).
Proof.
  intros Hc. change NGROUPS_PER_BLOCK with 1024. change (Z.to_nat 1024) with 1024%nat.
  apply Bool.eq_iff_eq_true. rewrite andb_true_iff, !accessible_true. lia.
Qed.

Lemma from_user_ok bs : forall user off count,
  roomy bs count -> 0 <= count ->
  if accessible user off (Z.to_nat count) then
    exists bs', from_user_loop user bs off count = Some bs' /\ length bs' = length bs /\
      forall i, (i < Z.to_nat count)%nat -> slot bs' i = user !! (off + i)%nat
  else from_user_loop user bs off count = None.
Proof.
  induction bs as [|b bs IH]; intros user off count Hroom Hc; cbn [roomy] in Hroom.
  { subst count. simpl. exists []. split; [done |]. split; [done |]. simpl. lia. }
  destruct Hroom as [Hr1 Hr2]. cbn [from_user_loop]. rewrite accessible_split by done.
  set (cp := Z.min NGROUPS_PER_BLOCK count) in *. assert (Hcp : 0 <= cp <= 1024 /\ cp <= count /\ (cp < count -> cp = 1024)).
  { unfold cp. change NGROUPS_PER_BLOCK with 1024. lia. }
  unfold copy_in. rewrite (proj2 (Nat.leb_le (Z.to_nat cp) (length b))), andb_true_r by lia.
  destruct (accessible user off (Z.to_nat cp)) eqn:Hacc; cbn [andb]; [| done]. cbn [mbind option_bind].
  specialize (IH user (off + Z.to_nat NGROUPS_PER_BLOCK)%nat (count - cp) Hr2 ltac:(lia)).
  destruct (accessible user (off + Z.to_nat NGROUPS_PER_BLOCK) (Z.to_nat (count - cp))); [| by rewrite IH].
  destruct IH as (bs' & -> & Hl & Hs). cbn [mbind option_bind]. eexists. split; [done |].
  split; [simpl; congruence |]. intros i Hi. apply accessible_true in Hacc.
  destruct (decide (i < Z.to_nat cp)%nat).
  - rewrite slot_head by lia. rewrite lookup_app_l by (rewrite length_take, length_drop; lia).
    rewrite lookup_take_lt by done. by rewrite lookup_drop.
  - replace i with (1024 + (i - 1024))%nat at 1 by lia. rewrite slot_tail, Hs by lia. f_equal.
    change (Z.to_nat NGROUPS_PER_BLOCK) with 1024%nat. lia.
Qed.

(** The copies keep the sizes of the blocks. *)
Lemma from_user_roomy user bs : forall off count bs',
  roomy bs count -> from_user_loop user bs off count = Some bs' -> roomy bs' count.
Proof.
  induction bs as [|b bs IH]; intros off count bs' Hr H; cbn [roomy from_user_loop] in *; [by simplify_eq |].
  destruct Hr as [Hr1 Hr2]. unfold copy_in in H. case_match eqn:Hc; simplify_eq/=.
  destruct (from_user_loop user bs _ _) as [bs1|] eqn:E; simplify_eq/=. apply andb_prop in Hc as [Ha Hlb].
  apply accessible_true in Ha. split; [| by eapply IH]. rewrite length_app, length_take, !length_drop.
  apply Nat.leb_le in Hlb. lia.
Qed.

Lemma to_user_ok bs : forall user off count,
  roomy bs count -> 0 <= count -> (off <= length user)%nat \/ count = 0 ->
  if accessible user off (Z.to_nat count) then
    exists user', to_user_loop user bs off count = Some user' /\ length user' = length user /\
      (forall i, (i < Z.to_nat count)%nat -> user' !! (off + i)%nat = slot bs i) /\
      (forall j, (j < off \/ off + Z.to_nat count <= j)%nat -> user' !! j = user !! j)
  else to_user_loop user bs off count = None.
Proof.
  induction bs as [|b bs IH]; intros user off count Hroom Hc Hoff; cbn [roomy] in Hroom.
  { subst count. simpl. exists user. split; [done |]. split; [done |]. split; [lia | done]. }
  destruct Hroom as [Hr1 Hr2]. cbn [to_user_loop]. rewrite accessible_split by done.
  set (cp := Z.min NGROUPS_PER_BLOCK count) in *. assert (Hcp : 0 <= cp <= 1024 /\ cp <= count /\ (cp < count -> cp = 1024)).
  { unfold cp. change NGROUPS_PER_BLOCK with 1024. lia. }
  rewrite (proj2 (Nat.leb_le (Z.to_nat cp) (length b))), andb_true_r by lia.
  destruct (accessible user off (Z.to_nat cp)) eqn:Hacc; cbn [andb]; [| done]. apply accessible_true in Hacc.
  set (u1 := take off user ++ take (Z.to_nat cp) b ++ drop (off + Z.to_nat cp) user).
  assert (Hu1 : length u1 = length user).
  { unfold u1. rewrite !length_app, !length_take, length_drop. lia. }
  assert (Hin : forall i, (i < Z.to_nat cp)%nat -> u1 !! (off + i)%nat = b !! i).
  { intros i Hi. unfold u1. rewrite lookup_app_r by (rewrite length_take; lia). rewrite length_take.
    replace (off + i - off `min` length user)%nat with i by lia.
    rewrite lookup_app_l by (rewrite length_take; lia). by rewrite lookup_take_lt. }
  assert (Hout : forall j, (j < off \/ off + Z.to_nat cp <= j)%nat -> u1 !! j = user !! j).
  { intros j Hj. destruct (decide (j < length user)%nat) as [Hjl|];
      [| rewrite !lookup_ge_None_2; [done | lia | lia]].
    unfold u1. destruct (decide (j < off)%nat).
    - rewrite lookup_app_l by (rewrite length_take; lia). by rewrite lookup_take_lt.
    - rewrite lookup_app_r by (rewrite length_take; lia). rewrite length_take.
      rewrite lookup_app_r by (rewrite length_take; lia). rewrite length_take, lookup_drop. f_equal. lia. }
  assert (Hacc' : accessible u1 (off + Z.to_nat NGROUPS_PER_BLOCK) (Z.to_nat (count - cp)) =
    accessible user (off + Z.to_nat NGROUPS_PER_BLOCK) (Z.to_nat (count - cp))) by (unfold accessible; by rewrite Hu1).
  specialize (IH u1 (off + Z.to_nat NGROUPS_PER_BLOCK)%nat (count - cp) Hr2 ltac:(lia)).
  rewrite Hacc' in IH. change (Z.to_nat NGROUPS_PER_BLOCK) with 1024%nat in *.
  destruct (accessible user (off + 1024) (Z.to_nat (count - cp))) eqn:Hacc2; [| apply IH; rewrite Hu1; lia].
  destruct IH as (user' & -> & Hl & Hs & Ho); [rewrite Hu1; lia |]. exists user'. split; [done |]. split; [lia |]. split.
  - intros i Hi. destruct (decide (i < Z.to_nat cp)%nat).
    + rewrite slot_head by lia. rewrite Ho by lia. by apply Hin.
    + replace i with (1024 + (i - 1024))%nat at 2 by lia. rewrite slot_tail, <- Hs by lia. f_equal. lia.
  - intros j Hj. rewrite Ho by lia. apply Hout. lia.
Qed.

Lemma layout_wf gi : layout gi -> wf gi.
Proof.
  intros Hlay. pose proof Hlay as (Hn & Hl & Hle & Hb). split; [done |]. intros i Hi.
  rewrite group_at_slot by lia. unfold slot. change NGROUPS_PER_BLOCK with 1024 in *.
  assert (Hk : (Z.to_nat i / 1024 < length (blocks gi))%nat) by (apply Nat.Div0.div_lt_upper_bound; lia).
  destruct (lookup_lt_is_Some_2 _ _ Hk) as [b Hbk]. rewrite Hbk. cbn [mbind option_bind].
  apply lookup_lt_is_Some_2. apply (Forall_lookup_1 _ _ _ _ Hb) in Hbk. cbv beta in Hbk.
  pose proof (Nat.mod_upper_bound (Z.to_nat i) 1024 ltac:(lia)). pose proof (Nat.Div0.mod_le (Z.to_nat i) 1024). lia.
Qed.

Lemma alloc_blocks_ok n : forall fp got,
  match alloc_blocks n fp got with
  | inl bs => exists new rest, fp = (Some <$> new) ++ rest /\ length new = n /\ bs = got ++ new
  | inr freed => exists new rest, fp = (Some <$> new) ++ rest /\ (length new < n)%nat /\
      (forall b rest', rest <> Some b :: rest') /\ freed = rev (got ++ new)
  end.
Proof.
  induction n as [|n IH]; intros fp got; simpl.
  { exists [], fp. by rewrite app_nil_r. }
  destruct fp as [|[b|] fp].
  - exists [], []. split; [done |]. split; [simpl; lia |]. split; [done | by rewrite app_nil_r].
  - specialize (IH fp (got ++ [b])). destruct (alloc_blocks n fp (got ++ [b])) as [bs|freed].
    + destruct IH as (new & rest & -> & <- & ->). exists (b :: new), rest. by rewrite <- app_assoc.
    + destruct IH as (new & rest & -> & Hl & Hr & ->). exists (b :: new), rest. rewrite <- app_assoc.
      split; [done |]. split; [simpl; lia | done].
  - exists [], (None :: fp). split; [done |]. split; [simpl; lia |]. split; [done | by rewrite app_nil_r].
Qed.

Lemma copy_layout gi n user buf :
  layout gi -> ngroups gi = n -> (Z.to_nat n <= length buf)%nat ->
  if (Z.to_nat n <=? length user)%nat then
    exists gi', groups_from_user gi user = inr gi' /\ wf gi' /\ gids gi' = take (Z.to_nat n) user /\
      groups_to_user buf gi' = Some (take (Z.to_nat n) user ++ drop (Z.to_nat n) buf)
  else groups_from_user gi user = inl (- EFAULT).
Proof.
  intros Hlay <- Hbuf. pose proof Hlay as (Hn & Hl & _). pose proof (layout_roomy gi Hlay) as Hroom.
  unfold groups_from_user. rewrite take_ge by lia.
  pose proof (from_user_ok (blocks gi) user 0 (ngroups gi) Hroom ltac:(lia)) as Hfrom.
  assert (Hacc : accessible user 0 (Z.to_nat (ngroups gi)) = (Z.to_nat (ngroups gi) <=? length user)%nat).
  { unfold accessible. simpl. destruct (Nat.eqb_spec (Z.to_nat (ngroups gi)) 0) as [->|]; done. }
  rewrite Hacc in Hfrom. destruct (Nat.leb_spec (Z.to_nat (ngroups gi)) (length user)) as [Hle|]; [| by rewrite Hfrom].
  destruct Hfrom as (bs & Ebs & Hlb & Hslot). rewrite Ebs. exists (set_blocks gi bs). split; [done |].
  set (gi' := set_blocks gi bs) in *.
  assert (Hat : forall i, 0 <= i < ngroups gi -> group_at gi' i = user !! Z.to_nat i).
  { intros i Hi. rewrite group_at_slot by lia. apply Hslot. lia. }
  assert (Hwf' : wf gi').
  { split; [done |]. intros i Hi. rewrite Hat by done. apply lookup_lt_is_Some_2. simpl in Hi. lia. }
  split; [done |]. assert (Hg : gids gi' = take (Z.to_nat (ngroups gi)) user).
  { apply list_eq. intros j. destruct (decide (j < Z.to_nat (ngroups gi))%nat).
    - rewrite lookup_take_lt by done. rewrite <- (Nat2Z.id j) at 1. rewrite gids_lookup by (done || simpl; lia).
      rewrite Hat by lia. by rewrite Nat2Z.id.
    - rewrite !lookup_ge_None_2; [done | rewrite length_take; lia | rewrite length_gids; simpl; lia]. }
  split; [done |]. unfold groups_to_user. simpl. rewrite take_ge by lia.
  assert (Hroom' : roomy bs (ngroups gi)) by exact (from_user_roomy _ _ _ _ _ Hroom Ebs).
  pose proof (to_user_ok bs buf 0 (ngroups gi) Hroom' ltac:(lia) ltac:(left; lia)) as Hto.
  rewrite (proj2 (accessible_true buf 0 _)) in Hto by (right; lia).
  destruct Hto as (u & -> & Hlu & Hin & Hout). f_equal. apply list_eq. intros j.
  destruct (decide (j < Z.to_nat (ngroups gi))%nat).
  - rewrite lookup_app_l by (rewrite length_take; lia). rewrite lookup_take_lt by done.
    rewrite <- (Hslot j : _ -> _ = user !! j) by done. by apply (Hin j).
  - rewrite lookup_app_r by (rewrite length_take; lia). rewrite length_take, lookup_drop, Hout by lia. f_equal. lia.
Qed.

(** ** What the group list promises to permission checks *)

(** A credential [c] has a test for membership that is right for the gids it
    covers. *)
Class GroupTest (C : Type) := {
  member : C -> Z -> option bool;
  groups_of : C -> list Z;
  covers : C -> Z -> Prop;
  member_spec c g : covers c g -> member c g = Some (bool_decide (g ∈ groups_of c))
}.

(** A credential as [set_groups] leaves it: the list is sorted. *)
Definition cred_ok (c : cred) (g : Z) : Prop :=
  match cred_groups c with
  | None => True
  | Some gi => wf gi /\ ordered (gids gi) /\ comparable g (gids gi)
  end.

Definition cred_gids (c : cred) : list Z :=
  fsgid c :: match cred_groups c with None => [] | Some gi => gids gi end.

Lemma in_group_p_ok c g : cred_ok c g -> in_group_p c g = Some (bool_decide (g ∈ cred_gids c)).
Proof.
  unfold cred_ok, in_group_p, cred_gids. intros H. destruct (Z.eqb_spec g (fsgid c)) as [->|Hne]; cbn [negb].
  - f_equal. symmetry. apply bool_decide_eq_true. by left.
  - destruct (cred_groups c) as [gi|].
    + destruct H as (? & ? & ?). rewrite groups_search_ok by done. f_equal. apply bool_decide_ext. set_solver.
    + simpl. f_equal. symmetry. apply bool_decide_eq_false. set_solver.
Qed.

#[export] Instance cred_group_test : GroupTest cred := {
  member := in_group_p; groups_of := cred_gids; covers := cred_ok; member_spec := in_group_p_ok
}.

(** ** Properties *)

(** C29: the Shell sort ends, keeps every gid with its multiplicity and leaves the
    list sorted, for any gids; a binary search in the sorted list then answers
    exactly whether a gid is a member, provided that this gid is less than 2^31
    away from every member. *)
Theorem groups_sort_search gi :
  wf gi ->
  exists gi', groups_sort gi = Some gi' /\ wf gi' /\ alike gi gi' /\
    ordered (gids gi') /\ gids gi' ≡ₚ gids gi /\
    forall grp, comparable grp (gids gi) -> groups_search (Some gi') grp = Some (bool_decide (grp ∈ gids gi)).
Proof.
  intros Hwf. destruct (groups_sort_ok gi Hwf) as (gi' & E & Hwf' & Ha & Ho & Hp). exists gi'.
  split_and!; try done. intros grp Hc. rewrite groups_search_ok; [| done | done | by unfold comparable; rewrite Hp].
  f_equal. apply bool_decide_ext. by rewrite Hp.
Qed.

Definition five_groups : group_info := GroupInfo 1 5 1 true [[40; 7; 7; 1000; 3] ++ replicate 27 0].

Lemma layout_small n b : 0 <= n <= 32 -> length b = 32%nat -> layout (GroupInfo 1 n 1 true [b]).
Proof.
  intros Hn Hb. unfold layout. change NGROUPS_PER_BLOCK with 1024. simpl.
  split; [lia |]. split; [done |]. split; [lia |]. constructor; [rewrite Hb; lia | constructor].
Qed.

Lemma groups_sort_search_witness :
  gids <$> groups_sort five_groups = Some [3; 7; 7; 40; 1000] /\
  exists gi', groups_sort five_groups = Some gi' /\ groups_search (Some gi') 40 = Some true /\
    groups_search (Some gi') 41 = Some false.
Proof.
  split; [by vm_compute |].
  destruct (groups_sort_search five_groups) as (gi' & E & _ & _ & _ & _ & Hs).
  - apply layout_wf, layout_small; [lia | reflexivity].
  - assert (Hc : forall g, 0 <= g < 1000 -> comparable g (gids five_groups)).
    { intros g Hg. change (gids five_groups) with [40; 7; 7; 1000; 3]. repeat (constructor; [lia |]). constructor. }
    exists gi'. split; [exact E |]. split; rewrite Hs by (apply Hc; lia); by vm_compute.
Defined.

(** the search misses members when gids are 2^31 or more apart: the difference
    of two unsigned gids is read as a signed number.  After sorting, the gid
    0x80000005 is in the list and not found. *)
Theorem groups_search_overflow :
  exists gi gi', layout gi /\ Forall (fun g => 0 <= g < 2 ^ 32) (gids gi) /\
    groups_sort gi = Some gi' /\ 0x80000005 ∈ gids gi' /\ groups_search (Some gi') 0x80000005 = Some false.
Proof.
  exists (GroupInfo 1 3 1 true [[2; 0x80000005; 1] ++ replicate 29 0]), (GroupInfo 1 3 1 true [[1; 2;
    0x80000005] ++ replicate 29 0]).
  split; [apply layout_small; [lia | reflexivity] |]. split; [repeat constructor; vm_compute; congruence |].
  split; [by vm_compute |]. split; [| by vm_compute]. apply list_elem_of_lookup. by exists 2%nat.
Qed.

(** copying a list of at most NGROUPS_MAX gids from user space into freshly
    allocated blocks and back gives the same list, whatever the pages held
    before; a list that is too short faults with -EFAULT; and when a page
    cannot be had, every page taken so far is given back. *)
Theorem groups_copy_roundtrip n kmalloc fp user buf :
  0 <= n <= NGROUPS_MAX -> (forall b, kmalloc = Some b -> length b = 32%nat) ->
  Forall (fun o => forall b, o = Some b -> Z.of_nat (length b) = NGROUPS_PER_BLOCK) fp ->
  (Z.to_nat n <= length buf)%nat ->
  match groups_alloc n kmalloc fp with
  | (Some gi, freed) =>
      freed = [] /\ usage gi = 1 /\
      if (Z.to_nat n <=? length user)%nat then
        exists gi', groups_from_user gi user = inr gi' /\ wf gi' /\ gids gi' = take (Z.to_nat n) user /\
          groups_to_user buf gi' = Some (take (Z.to_nat n) user ++ drop (Z.to_nat n) buf)
      else groups_from_user gi user = inl (- EFAULT)
  | (None, freed) =>
      kmalloc = None /\ freed = [] \/
      exists new rest, fp = (Some <$> new) ++ rest /\ (forall b rest', rest <> Some b :: rest') /\ freed = rev new
  end.
Proof.
  intros Hn Hk Hfp Hbuf.
  assert (Hcopy : forall gi, layout gi -> ngroups gi = n ->
    if (Z.to_nat n <=? length user)%nat then
      exists gi', groups_from_user gi user = inr gi' /\ wf gi' /\ gids gi' = take (Z.to_nat n) user /\
        groups_to_user buf gi' = Some (take (Z.to_nat n) user ++ drop (Z.to_nat n) buf)
    else groups_from_user gi user = inl (- EFAULT)) by (intros; by apply copy_layout).
  unfold groups_alloc. destruct kmalloc as [small|]; [| by left].
  set (nb := (n + NGROUPS_PER_BLOCK - 1) / NGROUPS_PER_BLOCK). set (nb' := if nb =? 0 then 1 else nb).
  assert (Hnb : 0 < nb' /\ n <= 1024 * nb' /\ (n <= 1024 -> nb' = 1)).
  { unfold nb', nb. change NGROUPS_PER_BLOCK with 1024.
    destruct (Z.eqb_spec ((n + 1024 - 1) / 1024) 0); Z.div_mod_to_equations; lia. }
  destruct (Z.leb_spec n NGROUPS_SMALL) as [Hs|Hs].
  - split; [done |]. split; [done |]. apply Hcopy; [| done]. replace nb' with 1 by lia.
    apply layout_small; [lia | by apply Hk].
  - pose proof (alloc_blocks_ok (Z.to_nat nb') fp []) as Ha. destruct (alloc_blocks _ fp []) as [bs|freed].
    + destruct Ha as (new & rest & -> & Hl & ->). split; [done |]. split; [done |]. apply Hcopy; [| done].
      split; [done |]. split; [simpl; lia |]. split; [simpl; change NGROUPS_PER_BLOCK with 1024; lia |].
      apply Forall_app in Hfp as [Hfp _]. rewrite Forall_fmap in Hfp. eapply Forall_impl; [exact Hfp |].
      simpl. intros b Hb. left. by apply Hb.
    + right. destruct Ha as (new & rest & -> & _ & Hr & ->). by exists new, rest.
Qed.

Lemma groups_copy_roundtrip_witness :
  match groups_alloc 3 (Some (replicate 32 9)) [] with
  | (Some gi, _) => exists gi', groups_from_user gi [30; 10; 20] = inr gi' /\ wf gi' /\ gids gi' = [30; 10; 20] /\
      groups_to_user [0; 0; 0; 77] gi' = Some [30; 10; 20; 77]
  | (None, _) => False
  end.
Proof.
  destruct (groups_copy_roundtrip 3 (Some (replicate 32 9)) [] [30; 10; 20] [0; 0; 0; 77]) as (_ & _ & H).
  - lia.
  - intros b [= <-]. reflexivity.
  - constructor.
  - simpl. lia.
  - exact H.
Defined.
End Groups.
