(* ===== verification/PosixAcl.v ===== *)
(** * POSIX access control lists (fs/posix_acl.c)

    An ACL is the list of its entries.  [posix_acl_valid] is shown to accept
    exactly the lists of one grammar, and the other operations are characterised
    on that grammar: the permission check by the access check algorithm of
    POSIX 1003.1e, the mode conversions by what they do to single permission
    bits.  Membership in groups is used through the interface [GroupTest]. *)

From S2P Require Import Prelude Groups.

Module PosixAcl.
Import Groups.

Abbreviation ACL_UNDEFINED_ID := (2 ^ 32 - 1) (only parsing).
Abbreviation ACL_USER_OBJ := 0x01 (only parsing).
Abbreviation ACL_USER := 0x02 (only parsing).
Abbreviation ACL_GROUP_OBJ := 0x04 (only parsing).
Abbreviation ACL_GROUP := 0x08 (only parsing).
Abbreviation ACL_MASK := 0x10 (only parsing).
Abbreviation ACL_OTHER := 0x20 (only parsing).
Abbreviation ACL_READ := 0x04 (only parsing).
Abbreviation ACL_WRITE := 0x02 (only parsing).
Abbreviation ACL_EXECUTE := 0x01 (only parsing).
Abbreviation S_IRWXU := 0x1c0 (only parsing).
Abbreviation S_IRWXG := 0x38 (only parsing).
Abbreviation S_IRWXO := 0x7 (only parsing).
Abbreviation S_IRWXUGO := (S_IRWXU .| S_IRWXG .| S_IRWXO) (only parsing).

Record posix_acl_entry := Entry { e_tag : Z; e_perm : Z; e_id : Z }.

Definition set_perm (pa : posix_acl_entry) (p : Z) : posix_acl_entry := Entry (e_tag pa) p (e_id pa).

(** ** Validity *)

(** One turn of the loop: the new [state], [id] and [needs_mask], or an error. *)
Definition valid_step (pa : posix_acl_entry) (state id : Z) (needs_mask : bool) : option (Z * Z * bool) :=
  if negb (e_perm pa .& Z.lnot (ACL_READ .| ACL_WRITE .| ACL_EXECUTE) =? 0) then None
  else if e_tag pa =? ACL_USER_OBJ then
    if state =? ACL_USER_OBJ then Some (ACL_USER, 0, needs_mask) else None
  else if e_tag pa =? ACL_USER then
    if negb (state =? ACL_USER) then None
    else if (e_id pa =? ACL_UNDEFINED_ID) || (e_id pa <? id) then None
    else Some (state, u32 (e_id pa + 1), true)
  else if e_tag pa =? ACL_GROUP_OBJ then
    if state =? ACL_USER then Some (ACL_GROUP, 0, needs_mask) else None
  else if e_tag pa =? ACL_GROUP then
    if negb (state =? ACL_GROUP) then None
    else if (e_id pa =? ACL_UNDEFINED_ID) || (e_id pa <? id) then None
    else Some (state, u32 (e_id pa + 1), true)
  else if e_tag pa =? ACL_MASK then
    if negb (state =? ACL_GROUP) then None else Some (ACL_OTHER, id, needs_mask)
  else if e_tag pa =? ACL_OTHER then
    if (state =? ACL_OTHER) || ((state =? ACL_GROUP) && negb needs_mask) then Some (0, id, needs_mask) else None
  else None.

Fixpoint valid_loop (acl : list posix_acl_entry) (state id : Z) (needs_mask : bool) : Z :=
  match acl with
  | [] => if state =? 0 then 0 else - EINVAL
  | pa :: acl =>
      match valid_step pa state id needs_mask with
      | None => - EINVAL
      | Some (state, id, needs_mask) => valid_loop acl state id needs_mask
      end
  end.

Definition posix_acl_valid (acl : list posix_acl_entry) : Z := valid_loop acl ACL_USER_OBJ 0 false.

(** ** Modes *)

Fixpoint equiv_loop (acl : list posix_acl_entry) (mode : Z) (not_equiv : bool) : option (Z * bool) :=
  match acl with
  | [] => Some (mode, not_equiv)
  | pa :: acl =>
      if e_tag pa =? ACL_USER_OBJ then equiv_loop acl (mode .| ((e_perm pa .& S_IRWXO) .<< 6)) not_equiv
      else if e_tag pa =? ACL_GROUP_OBJ then equiv_loop acl (mode .| ((e_perm pa .& S_IRWXO) .<< 3)) not_equiv
      else if e_tag pa =? ACL_OTHER then equiv_loop acl (mode .| (e_perm pa .& S_IRWXO)) not_equiv
      else if e_tag pa =? ACL_MASK then
        equiv_loop acl ((mode .& Z.lnot S_IRWXG) .| ((e_perm pa .& S_IRWXO) .<< 3)) true
      else if (e_tag pa =? ACL_USER) || (e_tag pa =? ACL_GROUP) then equiv_loop acl mode true
      else None
  end.

(** The return value and the new [*mode_p]. *)
Definition posix_acl_equiv_mode (acl : list posix_acl_entry) (mode_p : Z) : Z * Z :=
  match equiv_loop acl 0 false with
  | None => (- EINVAL, mode_p)
  | Some (mode, not_equiv) => (if not_equiv then 1 else 0, (mode_p .& Z.lnot S_IRWXUGO) .| mode)
  end.

(** [alloc] tells whether [posix_acl_alloc] succeeds. *)
Definition posix_acl_from_mode (mode : Z) (alloc : bool) : Z + list posix_acl_entry :=
  if negb alloc then inl (- ENOMEM)
  else inr [ Entry ACL_USER_OBJ ((mode .& S_IRWXU) .>> 6) ACL_UNDEFINED_ID;
             Entry ACL_GROUP_OBJ ((mode .& S_IRWXG) .>> 3) ACL_UNDEFINED_ID;
             Entry ACL_OTHER (mode .& S_IRWXO) ACL_UNDEFINED_ID ].

(** ** The permission check *)

Abbreviation check_perm pa want := (if e_perm pa .& want =? want then 0 else - EACCES) (only parsing).

(** [for (mask_obj = pa + 1; ...)], then [check_perm]. *)
Fixpoint mask_loop (pa : posix_acl_entry) (rest : list posix_acl_entry) (want : Z) : Z :=
  match rest with
  | [] => check_perm pa want
  | mask_obj :: rest =>
      if e_tag mask_obj =? ACL_MASK then
        if (e_perm pa .& e_perm mask_obj) .& want =? want then 0 else - EACCES
      else mask_loop pa rest want
  end.

Section permission.
Context {C : Type} `{GroupTest C}.
Context (c : C) (fsuid i_uid i_gid want : Z).

Fixpoint permission_loop (acl : list posix_acl_entry) (found : bool) : option Z :=
  match acl with
  | [] => Some (- EIO)
  | pa :: acl =>
      if e_tag pa =? ACL_USER_OBJ then
        if i_uid =? fsuid then Some (check_perm pa want) else permission_loop acl found
      else if e_tag pa =? ACL_USER then
        if e_id pa =? fsuid then Some (mask_loop pa acl want) else permission_loop acl found
      else if e_tag pa =? ACL_GROUP_OBJ then
        m ← member c i_gid;
        if m : bool then
          if e_perm pa .& want =? want then Some (mask_loop pa acl want) else permission_loop acl true
        else permission_loop acl found
      else if e_tag pa =? ACL_GROUP then
        m ← member c (e_id pa);
        if m : bool then
          if e_perm pa .& want =? want then Some (mask_loop pa acl want) else permission_loop acl true
        else permission_loop acl found
      else if e_tag pa =? ACL_MASK then permission_loop acl found
      else if e_tag pa =? ACL_OTHER then
        if found then Some (- EACCES) else Some (check_perm pa want)
      else Some (- EIO)
  end.

Definition posix_acl_permission (acl : list posix_acl_entry) : option Z := permission_loop acl false.
End permission.

(** ** Changes by creat and chmod *)

(** The entries before the cursor, the state of the loop, and its variables:
    [mode], [not_equiv], the indices [group_obj] and [mask_obj]. *)
Record masq := Masq { m_mode : Z; m_not_equiv : bool; m_group_obj : option nat; m_mask_obj : option nat }.

Fixpoint create_loop (done todo : list posix_acl_entry) (m : masq) : list posix_acl_entry * option masq :=
  match todo with
  | [] => (done, Some m)
  | pa :: todo =>
      if e_tag pa =? ACL_USER_OBJ then
        let pa := set_perm pa (e_perm pa .& ((m_mode m .>> 6) .| Z.lnot S_IRWXO)) in
        let mode := m_mode m .& ((e_perm pa .<< 6) .| Z.lnot S_IRWXU) in
        create_loop (done ++ [pa]) todo (Masq mode (m_not_equiv m) (m_group_obj m) (m_mask_obj m))
      else if (e_tag pa =? ACL_USER) || (e_tag pa =? ACL_GROUP) then
        create_loop (done ++ [pa]) todo (Masq (m_mode m) true (m_group_obj m) (m_mask_obj m))
      else if e_tag pa =? ACL_GROUP_OBJ then
        create_loop (done ++ [pa]) todo (Masq (m_mode m) (m_not_equiv m) (Some (length done)) (m_mask_obj m))
      else if e_tag pa =? ACL_OTHER then
        let pa := set_perm pa (e_perm pa .& (m_mode m .| Z.lnot S_IRWXO)) in
        let mode := m_mode m .& (e_perm pa .| Z.lnot S_IRWXO) in
        create_loop (done ++ [pa]) todo (Masq mode (m_not_equiv m) (m_group_obj m) (m_mask_obj m))
      else if e_tag pa =? ACL_MASK then
        create_loop (done ++ [pa]) todo (Masq (m_mode m) true (m_group_obj m) (Some (length done)))
      else (done ++ pa :: todo, None)
  end.

(** Masks the group class entry at index [i] with the mode, and the mode with it. *)
Definition masq_group (acl : list posix_acl_entry) (i : nat) (mode : Z) : list posix_acl_entry * Z :=
  match acl !! i with
  | None => (acl, mode)
  | Some pa =>
      let pa := set_perm pa (e_perm pa .& ((mode .>> 3) .| Z.lnot S_IRWXO)) in
      (<[i := pa]> acl, mode .& ((e_perm pa .<< 3) .| Z.lnot S_IRWXG))
  end.

(** The return value, the changed ACL and the new [*mode_p]. *)
Definition posix_acl_create_masq (acl : list posix_acl_entry) (mode_p : Z) : Z * list posix_acl_entry * Z :=
  match create_loop [] acl (Masq mode_p false None None) with
  | (acl, None) => (- EIO, acl, mode_p)
  | (acl, Some m) =>
      match (match m_mask_obj m with Some i => Some i | None => m_group_obj m end) with
      | None => (- EIO, acl, mode_p)
      | Some i =>
          let '(acl, mode) := masq_group acl i (m_mode m) in
          (if m_not_equiv m then 1 else 0, acl, (mode_p .& Z.lnot S_IRWXUGO) .| mode)
      end
  end.

Fixpoint chmod_loop (mode : Z) (done todo : list posix_acl_entry) (group_obj mask_obj : option nat)
    : list posix_acl_entry * option (option nat * option nat) :=
  match todo with
  | [] => (done, Some (group_obj, mask_obj))
  | pa :: todo =>
      if e_tag pa =? ACL_USER_OBJ then
        chmod_loop mode (done ++ [set_perm pa ((mode .& S_IRWXU) .>> 6)]) todo group_obj mask_obj
      else if (e_tag pa =? ACL_USER) || (e_tag pa =? ACL_GROUP) then
        chmod_loop mode (done ++ [pa]) todo group_obj mask_obj
      else if e_tag pa =? ACL_GROUP_OBJ then
        chmod_loop mode (done ++ [pa]) todo (Some (length done)) mask_obj
      else if e_tag pa =? ACL_MASK then
        chmod_loop mode (done ++ [pa]) todo group_obj (Some (length done))
      else if e_tag pa =? ACL_OTHER then
        chmod_loop mode (done ++ [set_perm pa (mode .& S_IRWXO)]) todo group_obj mask_obj
      else (done ++ pa :: todo, None)
  end.

(** Gives the group class entry at index [i] the permissions [perm]. *)
Definition set_perm_at (acl : list posix_acl_entry) (i : nat) (perm : Z) : list posix_acl_entry :=
  match acl !! i with None => acl | Some pa => <[i := set_perm pa perm]> acl end.

Definition posix_acl_chmod_masq (acl : list posix_acl_entry) (mode : Z) : Z * list posix_acl_entry :=
  match chmod_loop mode [] acl None None with
  | (acl, None) => (- EIO, acl)
  | (acl, Some (group_obj, mask_obj)) =>
      match (match mask_obj with Some i => Some i | None => group_obj end) with
      | None => (- EIO, acl)
      | Some i => (0, set_perm_at acl i ((mode .& S_IRWXG) .>> 3))
      end
  end.

(** ** The grammar of valid ACLs *)

(** The ranges of the fields of an entry. *)
Definition entry_ok (pa : posix_acl_entry) : Prop := 0 <= e_perm pa < 2 ^ 16 /\ 0 <= e_id pa < 2 ^ 32.

Definition perm_ok (pa : posix_acl_entry) : Prop := 0 <= e_perm pa <= 7.
Definition tagged (tag : Z) (pa : posix_acl_entry) : Prop := e_tag pa = tag /\ perm_ok pa.

(** Entries of one tag with strictly ascending ids from [lo] on. *)
Fixpoint named (tag lo : Z) (l : list posix_acl_entry) : Prop :=
  match l with
  | [] => True
  | pa :: l => tagged tag pa /\ lo <= e_id pa < ACL_UNDEFINED_ID /\ named tag (e_id pa + 1) l
  end.

(** What follows the owning group: named groups, an optional mask, others; the
    mask is there when something is named. *)
Definition group_part (lo : Z) (some_named : bool) (acl : list posix_acl_entry) : Prop :=
  exists gs mk ot, acl = gs ++ mk ++ [ot] /\ named ACL_GROUP lo gs /\ tagged ACL_OTHER ot /\
    (mk = [] /\ gs = [] /\ some_named = false \/ exists m, mk = [m] /\ tagged ACL_MASK m).

Definition user_part (lo : Z) (some_named : bool) (acl : list posix_acl_entry) : Prop :=
  exists us go rest, acl = us ++ go :: rest /\ named ACL_USER lo us /\ tagged ACL_GROUP_OBJ go /\
    group_part 0 (some_named || negb (bool_decide (us = []))) rest.

(** An ACL by its parts: owner, named users, owning group, named groups, the
    mask if there is one, and others. *)
Record parts := Parts {
  p_user : posix_acl_entry; p_users : list posix_acl_entry;
  p_group : posix_acl_entry; p_groups : list posix_acl_entry;
  p_mask : option posix_acl_entry; p_other : posix_acl_entry
}.

Definition mask_entries (p : parts) : list posix_acl_entry := match p_mask p with None => [] | Some m => [m] end.

Definition assemble (p : parts) : list posix_acl_entry :=
  p_user p :: p_users p ++ p_group p :: p_groups p ++ mask_entries p ++ [p_other p].

Definition well_formed (p : parts) : Prop :=
  tagged ACL_USER_OBJ (p_user p) /\ named ACL_USER 0 (p_users p) /\
  tagged ACL_GROUP_OBJ (p_group p) /\ named ACL_GROUP 0 (p_groups p) /\ tagged ACL_OTHER (p_other p) /\
  match p_mask p with None => p_users p = [] /\ p_groups p = [] | Some m => tagged ACL_MASK m end.

Definition valid_acl (acl : list posix_acl_entry) : Prop := exists p, acl = assemble p /\ well_formed p.

Lemma perm_bits p : 0 <= p -> (p .& Z.lnot (ACL_READ .| ACL_WRITE .| ACL_EXECUTE) =? 0) = (p <=? 7).
Proof.
  intros Hp. change (ACL_READ .| ACL_WRITE .| ACL_EXECUTE) with (Z.ones 3).
  rewrite <- Z.ldiff_land, Z.ldiff_ones_r, Z.shiftl_mul_pow2, Z.shiftr_div_pow2 by lia. change (2 ^ 3) with 8.
  destruct (Z.leb_spec p 7); [rewrite Z.div_small by lia; done |].
  apply Z.eqb_neq. assert (1 <= p / 8) by (apply Z.div_le_lower_bound; lia). lia.
Qed.

(** How the grammar reads the first entry. *)
Lemma group_part_cons lo nm pa acl :
  group_part lo nm (pa :: acl) <->
  (tagged ACL_GROUP pa /\ lo <= e_id pa < ACL_UNDEFINED_ID /\ group_part (e_id pa + 1) true acl) \/
  (tagged ACL_MASK pa /\ exists ot, acl = [ot] /\ tagged ACL_OTHER ot) \/
  (tagged ACL_OTHER pa /\ nm = false /\ acl = []).
Proof.
  split.
  - intros (gs & mk & ot & E & Hn & Ho & Hm). destruct gs as [|g gs]; simplify_eq/=.
    + destruct Hm as [(-> & _ & ->)|(m & -> & Hm)]; simplify_eq/=; eauto 10.
    + left. destruct Hn as (? & ? & ?). split_and!; try tauto. exists gs, mk, ot. split_and!; try done.
      right. by destruct Hm as [(_ & ? & _)|?].
  - intros [(Ht & Hi & gs & mk & ot & -> & Hn & Ho & Hm)|[(Ht & ot & -> & Ho)|(Ht & -> & ->)]].
    + exists (pa :: gs), mk, ot. split; [done |]. split; [done |]. split; [done |]. right. by destruct Hm as [(_ & _ & ?)|?].
    + exists [], [pa], ot. simpl. eauto 10.
    + exists [], [], pa. simpl. eauto 10.
Qed.

Lemma group_part_nil lo nm : ~ group_part lo nm [].
Proof. intros (gs & mk & ot & E & _). by destruct gs, mk. Qed.

Lemma user_part_cons lo nm pa acl :
  user_part lo nm (pa :: acl) <->
  (tagged ACL_USER pa /\ lo <= e_id pa < ACL_UNDEFINED_ID /\ user_part (e_id pa + 1) true acl) \/
  (tagged ACL_GROUP_OBJ pa /\ group_part 0 nm acl).
Proof.
  split.
  - intros (us & go & rest & E & Hn & Hg & Hr). destruct us as [|u us]; simplify_eq/=.
    + rewrite orb_false_r in Hr. auto.
    + left. destruct Hn as (? & ? & ?). split_and!; try tauto. exists us, go, rest.
      rewrite orb_true_r in Hr. auto.
  - intros [(Ht & Hi & us & go & rest & -> & Hn & Hg & Hr)|(Ht & Hr)].
    + exists (pa :: us), go, rest. rewrite orb_true_r. done.
    + exists [], pa, acl. rewrite orb_false_r. done.
Qed.

Lemma valid_acl_cons pa acl : valid_acl (pa :: acl) <-> tagged ACL_USER_OBJ pa /\ user_part 0 false acl.
Proof.
  split.
  - intros ([uo us go gs mk ot] & E & Hu & Hus & Hg & Hgs & Ho & Hm). unfold assemble, mask_entries in E. simplify_eq/=.
    split; [done |]. exists us, go, (gs ++ match mk with None => [] | Some m => [m] end ++ [ot]).
    split_and!; try apply Hg; try done.
    exists gs, (match mk with None => [] | Some m => [m] end), ot. split_and!; try apply Ho; try done.
    destruct mk as [m|]; [right; eauto |]. destruct Hm as [-> ->]. by left.
  - intros (Hu & us & go & rest & -> & Hus & Hg & gs & mk & ot & -> & Hgs & Ho & Hm).
    destruct Hm as [(-> & -> & Hnm)|(m & -> & Hm)].
    + exists (Parts pa us go [] None ot). split; [done |]. split_and!; try apply Hu; try apply Hg; try apply Ho; try done.
      simpl in *. by destruct us.
    + exists (Parts pa us go gs (Some m) ot). split; [done |]. by split_and!; try apply Hu; try apply Hg; try apply Ho.
Qed.

Lemma user_part_nil lo nm : ~ user_part lo nm [].
Proof. intros (us & go & rest & E & _). by destruct us. Qed.

(** Splits on the tests that [valid_step] makes of an entry [pa]. *)
Ltac valid_cases pa :=
  simpl; unfold valid_step; rewrite perm_bits by lia;
  destruct (Z.leb_spec (e_perm pa) 7); cbn [negb];
  [ destruct (Z.eqb_spec (e_tag pa) ACL_USER_OBJ);
    [| destruct (Z.eqb_spec (e_tag pa) ACL_USER);
    [| destruct (Z.eqb_spec (e_tag pa) ACL_GROUP_OBJ);
    [| destruct (Z.eqb_spec (e_tag pa) ACL_GROUP);
    [| destruct (Z.eqb_spec (e_tag pa) ACL_MASK);
    [| destruct (Z.eqb_spec (e_tag pa) ACL_OTHER)]]]]] |].

(** No entry has two tags, or a permission out of range. *)
Ltac tag_clash :=
  unfold tagged, perm_ok, EINVAL in *;
  solve [intuition (try discriminate; try congruence; try lia)].

Lemma valid_state_0 acl id nm : valid_loop acl 0 id nm = 0 <-> acl = [].
Proof.
  split; [| by intros ->]. destruct acl as [|pa acl]; [done |]. simpl. unfold valid_step.
  repeat case_match; simplify_eq; try discriminate; simpl in *; lia.
Qed.

Lemma valid_state_other acl id nm :
  Forall entry_ok acl -> valid_loop acl ACL_OTHER id nm = 0 <-> exists ot, acl = [ot] /\ tagged ACL_OTHER ot.
Proof.
  intros Hok. destruct acl as [|pa acl]; [split; [done | by intros (? & ? & _)] |].
  apply Forall_cons in Hok as [[Hp Hi] _].
  assert (E : (exists ot, pa :: acl = [ot] /\ tagged ACL_OTHER ot) <-> acl = [] /\ tagged ACL_OTHER pa).
  { split; [intros (ot & ? & ?); by simplify_eq | intros [-> ?]; eauto]. }
  rewrite E. valid_cases pa; simpl; rewrite ?valid_state_0; tag_clash.
Qed.

Lemma valid_state_group acl : forall id nm,
  Forall entry_ok acl -> valid_loop acl ACL_GROUP id nm = 0 <-> group_part id nm acl.
Proof.
  induction acl as [|pa acl IH]; intros id nm Hok; [split; [done | by intros ?%group_part_nil] |].
  apply Forall_cons in Hok as [[Hp Hi] Hok]. rewrite group_part_cons. valid_cases pa; simpl; try tag_clash.
  - destruct (Z.eqb_spec (e_id pa) ACL_UNDEFINED_ID); [tag_clash |].
    destruct (Z.ltb_spec (e_id pa) id); [tag_clash |]. simpl.
    rewrite uwrap_small by lia. rewrite IH by done. tag_clash.
  - rewrite valid_state_other by done. tag_clash.
  - destruct nm; simpl; rewrite ?valid_state_0; tag_clash.
Qed.

Lemma valid_state_user acl : forall id nm,
  Forall entry_ok acl -> valid_loop acl ACL_USER id nm = 0 <-> user_part id nm acl.
Proof.
  induction acl as [|pa acl IH]; intros id nm Hok; [split; [done | by intros ?%user_part_nil] |].
  apply Forall_cons in Hok as [[Hp Hi] Hok]. rewrite user_part_cons. valid_cases pa; simpl; try tag_clash.
  - destruct (Z.eqb_spec (e_id pa) ACL_UNDEFINED_ID); [tag_clash |].
    destruct (Z.ltb_spec (e_id pa) id); [tag_clash |]. simpl.
    rewrite uwrap_small by lia. rewrite IH by done. tag_clash.
  - rewrite valid_state_group by done. tag_clash.
Qed.

Lemma valid_loop_result acl : forall state id nm,
  valid_loop acl state id nm = 0 \/ valid_loop acl state id nm = - EINVAL.
Proof.
  induction acl as [|pa acl IH]; intros state id nm; simpl; [destruct (state =? 0); auto |].
  destruct (valid_step pa state id nm) as [[[st i] n]|]; auto.
Qed.

(** ** The access check *)

Definition entries (tag : Z) (acl : list posix_acl_entry) : list posix_acl_entry :=
  List.filter (fun pa => e_tag pa =? tag) acl.

Definition grants (want : Z) (pa : posix_acl_entry) : bool := e_perm pa .& want =? want.
Definition code (granted : bool) : Z := if granted then 0 else - EACCES.

Lemma entries_app tag l1 l2 : entries tag (l1 ++ l2) = entries tag l1 ++ entries tag l2.
Proof. apply List.filter_app. Qed.

Lemma entries_tag tag tag' l :
  Forall (fun pa => e_tag pa = tag') l -> entries tag l = if tag' =? tag then l else [].
Proof.
  induction 1 as [|pa l H _ IH]; simpl; [by destruct (tag' =? tag) |]. rewrite H, IH. by destruct (tag' =? tag).
Qed.

Lemma named_tags tag l : forall lo, named tag lo l -> Forall (fun pa => e_tag pa = tag) l.
Proof. induction l as [|pa l IH]; intros lo H; [done |]. destruct H as ([? _] & _ & ?). constructor; eauto. Qed.

Lemma mask_entries_short p : (length (mask_entries p) <= 1)%nat.
Proof. unfold mask_entries. destruct (p_mask p); simpl; lia. Qed.

Lemma parts_tags p :
  well_formed p ->
  let tags tag := Forall (fun pa => e_tag pa = tag) in
  tags ACL_USER_OBJ [p_user p] /\ tags ACL_USER (p_users p) /\ tags ACL_GROUP_OBJ [p_group p] /\
  tags ACL_GROUP (p_groups p) /\ tags ACL_MASK (mask_entries p) /\ tags ACL_OTHER [p_other p].
Proof.
  intros ([Tu _] & Nu & [Tg _] & Ng & [To _] & Hm) tags. apply named_tags in Nu, Ng.
  split_and!; subst tags; simpl; rewrite ?Forall_singleton; try done.
  unfold mask_entries. destruct (p_mask p); [| done]. constructor; [apply Hm | done].
Qed.

Lemma entries_parts p :
  well_formed p ->
  let acl := assemble p in
  entries ACL_USER_OBJ acl = [p_user p] /\ entries ACL_USER acl = p_users p /\
  entries ACL_GROUP_OBJ acl = [p_group p] /\ entries ACL_GROUP acl = p_groups p /\
  entries ACL_MASK acl = mask_entries p /\ entries ACL_OTHER acl = [p_other p].
Proof.
  intros Hw acl. destruct (parts_tags p Hw) as (Tu & Nu & Tg & Ng & Tm & To).
  assert (E : forall tag, entries tag acl = entries tag [p_user p] ++ entries tag (p_users p) ++ entries tag [p_group p] ++
    entries tag (p_groups p) ++ entries tag (mask_entries p) ++ entries tag [p_other p]).
  { intros tag. subst acl. rewrite <- !entries_app. done. }
  split_and!; rewrite E, (entries_tag _ _ _ Tu), (entries_tag _ _ _ Nu), (entries_tag _ _ _ Tg), (entries_tag _ _ _ Ng),
    (entries_tag _ _ _ Tm), (entries_tag _ _ _ To); simpl; by rewrite ?app_nil_r.
Qed.

Lemma land_grants a b want : ((a .& b) .& want =? want) = (a .& want =? want) && (b .& want =? want).
Proof.
  apply eq_bool_prop_intro. rewrite !andb_True, !Is_true_true, !Z.eqb_eq. split.
  - intros E. split; rewrite <- E at 2; rewrite <- E at 1.
    + rewrite !Z.land_assoc, Z.land_diag. done.
    + rewrite (Z.land_comm a b), !Z.land_assoc, Z.land_diag. done.
  - intros [Ea Eb]. by rewrite <- Z.land_assoc, Eb.
Qed.

Lemma mask_loop_ok pa rest want :
  mask_loop pa rest want =
  code (grants want pa && match entries ACL_MASK rest with [] => true | m :: _ => grants want m end).
Proof.
  induction rest as [|m rest IH]; simpl; [by rewrite andb_true_r |].
  destruct (e_tag m =? ACL_MASK); [| done]. by rewrite land_grants.
Qed.

Section access.
Context {C : Type} `{GroupTest C}.
Context (c : C) (fsuid i_uid i_gid want : Z).

(** The gid an entry speaks about. *)
Definition entry_gid (pa : posix_acl_entry) : Z := if e_tag pa =? ACL_GROUP_OBJ then i_gid else e_id pa.

(** The entries of the group class that match the process. *)
Definition matching (acl : list posix_acl_entry) : list posix_acl_entry :=
  List.filter (fun pa => bool_decide (entry_gid pa ∈ groups_of c)) (entries ACL_GROUP_OBJ acl ++ entries ACL_GROUP acl).

(** The access check algorithm of POSIX 1003.1e: the owner by the owner's
    entry; a named user by that entry and the mask; a member of a group of the
    ACL if one of the matching entries, and the mask, give all of [want]; others
    by the last entry. *)
Definition access (acl : list posix_acl_entry) : bool :=
  if i_uid =? fsuid then forallb (grants want) (entries ACL_USER_OBJ acl)
  else match List.filter (fun pa => e_id pa =? fsuid) (entries ACL_USER acl) with
  | u :: _ => grants want u && forallb (grants want) (entries ACL_MASK acl)
  | [] =>
      match matching acl with
      | [] => forallb (grants want) (entries ACL_OTHER acl)
      | ms => existsb (grants want) ms && forallb (grants want) (entries ACL_MASK acl)
      end
  end.

#[local] Set Default Proof Using "All".

Lemma permission_others mk ot found :
  Forall (fun pa => e_tag pa = ACL_MASK) mk -> e_tag ot = ACL_OTHER ->
  permission_loop c fsuid i_uid i_gid want (mk ++ [ot]) found = Some (if found then - EACCES else code (grants want ot)).
Proof.
  intros Hm Ho. induction Hm as [|m mk E _ IH]; simpl.
  - rewrite Ho. simpl. by destruct found.
  - by rewrite E.
Qed.

Definition group_class (pa : posix_acl_entry) : Prop := e_tag pa = ACL_GROUP_OBJ \/ e_tag pa = ACL_GROUP.

Lemma permission_groups gs mk ot : forall found,
  Forall group_class gs -> Forall (fun pa => covers c (entry_gid pa)) gs ->
  Forall (fun pa => e_tag pa = ACL_MASK) mk -> (length mk <= 1)%nat -> e_tag ot = ACL_OTHER ->
  let ms := List.filter (fun pa => bool_decide (entry_gid pa ∈ groups_of c)) gs in
  permission_loop c fsuid i_uid i_gid want (gs ++ mk ++ [ot]) found =
  Some (if existsb (grants want) ms then code (forallb (grants want) mk)
        else if found || negb (bool_decide (ms = [])) then - EACCES else code (grants want ot)).
Proof.
  induction gs as [|g gs IH]; intros found Hg Hc Hm Hl Ho ms.
  { subst ms. simpl. rewrite permission_others by done. by destruct found. }
  apply Forall_cons in Hg as [Hg Hgs]. apply Forall_cons in Hc as [Hcg Hc]. specialize (IH true Hgs Hc Hm Hl Ho) as IHt.
  specialize (IH found Hgs Hc Hm Hl Ho).
  assert (Hmask : mask_loop g (gs ++ mk ++ [ot]) want = code (grants want g && forallb (grants want) mk)).
  { rewrite mask_loop_ok, !entries_app, (entries_tag _ ACL_MASK mk) by done.
    assert (entries ACL_MASK gs = []) as ->.
    { clear -Hgs. induction Hgs as [|x l [E|E] _ IH]; [done | |]; simpl; by rewrite E. }
    assert (entries ACL_MASK [ot] = []) as -> by (simpl; by rewrite Ho). rewrite app_nil_r. simpl.
    destruct mk as [|m [|]]; simpl in *; [done | by rewrite andb_true_r | lia]. }
  assert (Hstep : permission_loop c fsuid i_uid i_gid want ((g :: gs) ++ mk ++ [ot]) found =
    if bool_decide (entry_gid g ∈ groups_of c) then
      if grants want g then Some (mask_loop g (gs ++ mk ++ [ot]) want)
      else permission_loop c fsuid i_uid i_gid want (gs ++ mk ++ [ot]) true
    else permission_loop c fsuid i_uid i_gid want (gs ++ mk ++ [ot]) found).
  { rewrite <- app_comm_cons. cbn [permission_loop]. unfold entry_gid in *.
    destruct Hg as [E|E]; rewrite E in *; simpl in *; by rewrite member_spec by done. }
  rewrite Hstep, IH, IHt, Hmask. subst ms. cbn [List.filter].
  destruct (bool_decide (entry_gid g ∈ groups_of c)); [| done]. cbn [existsb].
  destruct (grants want g) eqn:Eg; cbn [orb andb]; [done |].
  rewrite (bool_decide_eq_false_2 (g :: _ = [])) by done. cbn [negb]. by rewrite orb_true_r.
Qed.

Lemma permission_users us rest :
  Forall (fun pa => e_tag pa = ACL_USER) us -> (length (entries ACL_MASK rest) <= 1)%nat ->
  permission_loop c fsuid i_uid i_gid want (us ++ rest) false =
  match List.filter (fun pa => e_id pa =? fsuid) us with
  | u :: _ => Some (code (grants want u && forallb (grants want) (entries ACL_MASK rest)))
  | [] => permission_loop c fsuid i_uid i_gid want rest false
  end.
Proof.
  intros Hu Hl. induction Hu as [|u us E Hu IH]; [done |]. simpl. rewrite E. simpl.
  destruct (e_id u =? fsuid); [| done]. rewrite mask_loop_ok, entries_app, (entries_tag _ ACL_USER us) by done. simpl.
  destruct (entries ACL_MASK rest) as [|m [|]]; simpl in *; [done | by rewrite andb_true_r | lia].
Qed.

Lemma permission_parts p :
  well_formed p -> covers c i_gid -> Forall (fun pa => covers c (e_id pa)) (p_groups p) ->
  posix_acl_permission c fsuid i_uid i_gid want (assemble p) = Some (code (access (assemble p))).
Proof.
  intros Hw Hc Hcs. destruct (entries_parts p Hw) as (Euo & Eus & Ego & Egs & Emk & Eot).
  unfold access, matching. rewrite Euo, Eus, Ego, Egs, Emk, Eot. clear Euo Eus Ego Egs Emk Eot.
  destruct (parts_tags p Hw) as (Tu & Nu & Tg & Ng & Tm & To). rewrite Forall_singleton in Tu, Tg, To. simpl in Tu, Tg, To.
  unfold posix_acl_permission, assemble. cbn [permission_loop forallb]. rewrite Tu, Z.eqb_refl.
  destruct (i_uid =? fsuid); [by rewrite andb_true_r |].
  assert (Em : entries ACL_MASK (p_group p :: p_groups p ++ mask_entries p ++ [p_other p]) = mask_entries p).
  { simpl. rewrite Tg. simpl. rewrite !entries_app, (entries_tag _ ACL_GROUP), (entries_tag _ _ (mask_entries p) Tm) by done.
    simpl. rewrite To. apply app_nil_r. }
  rewrite permission_users; [| done | rewrite Em; apply mask_entries_short]. rewrite Em.
  destruct (List.filter _ (p_users p)); [| done]. rewrite app_comm_cons.
  rewrite (permission_groups (p_group p :: p_groups p) (mask_entries p) (p_other p));
    [| | | done | apply mask_entries_short | done].
  - cbv zeta. change ([p_group p] ++ p_groups p) with (p_group p :: p_groups p).
    rewrite andb_true_r. set (ms := List.filter _ (_ :: _)). destruct ms as [|m ms]; [done |].
    rewrite bool_decide_eq_false_2 by done. by destruct (existsb (grants want) (m :: ms)).
  - constructor; [by left |]. eapply Forall_impl; [exact Ng |]. by right.
  - constructor; [unfold entry_gid; by rewrite Tg |]. apply Forall_lookup_2. intros i g Hg.
    unfold entry_gid. rewrite (Forall_lookup_1 _ _ _ _ Ng Hg). apply (Forall_lookup_1 _ _ _ _ Hcs Hg).
Qed.
End access.

(** ** Modes and the parts of an ACL *)

Definition rwx (u g o : Z) : Z := (u .<< 6) .| (g .<< 3) .| o.

(** The entry that the group bits of the mode stand for: the mask, if any. *)
Definition class_entry (p : parts) : posix_acl_entry := match p_mask p with Some m => m | None => p_group p end.

Definition acl_mode (p : parts) : Z := rwx (e_perm (p_user p)) (e_perm (class_entry p)) (e_perm (p_other p)).
Definition extended (p : parts) : Z := match p_mask p with Some _ => 1 | None => 0 end.

Definition with_mode (p : parts) (u g o : Z) : parts :=
  Parts (set_perm (p_user p) u) (p_users p)
    (match p_mask p with Some _ => p_group p | None => set_perm (p_group p) g end) (p_groups p)
    (option_map (fun m => set_perm m g) (p_mask p)) (set_perm (p_other p) o).

Lemma with_mode_wf p u g o :
  well_formed p -> 0 <= u <= 7 -> 0 <= g <= 7 -> 0 <= o <= 7 -> well_formed (with_mode p u g o).
Proof.
  intros ([Tu _] & Nu & [Tg Pg] & Ng & [To _] & Hm) Hu Hg Ho. unfold with_mode, well_formed, tagged, perm_ok in *. simpl.
  destruct (p_mask p) as [m|]; simpl; [destruct Hm as [Tm _] |]; by split_and!; try tauto; try lia; try apply Hm.
Qed.

Lemma with_mode_acl_mode p u g o : acl_mode (with_mode p u g o) = rwx u g o.
Proof. unfold acl_mode, class_entry, with_mode. simpl. by destruct (p_mask p). Qed.

Lemma triple_high p n : 0 <= p <= 7 -> 3 <= n -> Z.testbit p n = false.
Proof. intros Hp Hn. apply (testbit_high p 3); lia. Qed.

Lemma mask_high p n : 0 <= p < 512 -> 9 <= n -> Z.testbit p n = false.
Proof. intros Hp Hn. apply (testbit_high p 9); lia. Qed.

(** One bit at a known position, or above all masks. *)
Ltac mode_bit x k :=
  let k' := eval vm_compute in k in
  lazymatch k' with
  | Zneg _ => rewrite (Z.testbit_neg_r x k eq_refl)
  | _ =>
      match goal with
      | H : 0 <= x <= 7 |- _ => rewrite (triple_high x k H) by lia
      | _ =>
          let b := eval vm_compute in (Z.testbit x k) in
          lazymatch b with
          | true => change (Z.testbit x k) with true
          | false => change (Z.testbit x k) with false
          | _ => lazymatch k' with
                 | Z0 => progress change (Z.testbit x k) with (Z.testbit x k')
                 | Zpos _ => progress change (Z.testbit x k) with (Z.testbit x k')
                 | _ => rewrite (mask_high x k) by ((vm_compute; split; [intros [=] | reflexivity]) || lia)
                 end
          end
      end
  end.

(** Equality of integers bit by bit, where all masks are below bit 9 and all
    operands but the mode are permission triples. *)
Ltac mode_bits :=
  unfold rwx; apply Z.bits_inj'; intros n Hn;
  destruct (Z.ltb_spec n 9);
  [ assert (n = 0 \/ n = 1 \/ n = 2 \/ n = 3 \/ n = 4 \/ n = 5 \/ n = 6 \/ n = 7 \/ n = 8) as Hcases by lia;
    repeat destruct Hcases as [Hcases | Hcases]; subst n |];
  repeat (rewrite ?Z.land_spec, ?Z.lor_spec, ?Z.lnot_spec, ?Z.shiftl_spec, ?Z.shiftr_spec by lia;
    repeat match goal with |- context [Z.testbit ?x ?k] => mode_bit x k end; rewrite ?andb_false_l, ?andb_false_r);
  repeat match goal with |- context [Z.testbit ?x ?k] => destruct (Z.testbit x k) end;
  reflexivity.

Lemma equiv_bits u g o :
  0 <= u <= 7 -> 0 <= g <= 7 -> 0 <= o <= 7 ->
  ((0 .| ((u .& S_IRWXO) .<< 6)) .| ((g .& S_IRWXO) .<< 3)) .| (o .& S_IRWXO) = rwx u g o.
Proof. intros. mode_bits. Qed.

Lemma equiv_bits_mask u g m o :
  0 <= u <= 7 -> 0 <= g <= 7 -> 0 <= m <= 7 -> 0 <= o <= 7 ->
  ((((0 .| ((u .& S_IRWXO) .<< 6)) .| ((g .& S_IRWXO) .<< 3)) .& Z.lnot S_IRWXG) .| ((m .& S_IRWXO) .<< 3))
    .| (o .& S_IRWXO) = rwx u m o.
Proof. intros. mode_bits. Qed.

Lemma chmod_bits mode : rwx ((mode .& S_IRWXU) .>> 6) ((mode .& S_IRWXG) .>> 3) (mode .& S_IRWXO) = mode .& S_IRWXUGO.
Proof. mode_bits. Qed.

Lemma create_bits_user u mode : 0 <= u <= 7 -> u .& ((mode .>> 6) .| Z.lnot S_IRWXO) = u .& (mode .>> 6).
Proof. intros. mode_bits. Qed.

(** The mode after the owner's entry. *)
Lemma create_bits_other u o mode :
  0 <= u <= 7 -> 0 <= o <= 7 ->
  o .& ((mode .& (((u .& (mode .>> 6)) .<< 6) .| Z.lnot S_IRWXU)) .| Z.lnot S_IRWXO) = o .& mode.
Proof. intros. mode_bits. Qed.

(** The mode after the entries of the owner and of others. *)
Definition masked_uo (u o mode : Z) : Z :=
  (mode .& (((u .& (mode .>> 6)) .<< 6) .| Z.lnot S_IRWXU)) .& ((o .& mode) .| Z.lnot S_IRWXO).

Lemma create_bits_class u g o mode :
  0 <= u <= 7 -> 0 <= g <= 7 -> 0 <= o <= 7 ->
  g .& ((masked_uo u o mode .>> 3) .| Z.lnot S_IRWXO) = g .& (mode .>> 3).
Proof. intros. unfold masked_uo. mode_bits. Qed.

Lemma create_bits_mode u g o mode :
  0 <= u <= 7 -> 0 <= g <= 7 -> 0 <= o <= 7 ->
  (mode .& Z.lnot S_IRWXUGO) .| (masked_uo u o mode .& (((g .& (mode .>> 3)) .<< 3) .| Z.lnot S_IRWXG))
  = mode .& (rwx u g o .| Z.lnot S_IRWXUGO).
Proof. intros. unfold masked_uo. mode_bits. Qed.

Lemma create_bits_acl u g o mode :
  0 <= u <= 7 -> 0 <= g <= 7 -> 0 <= o <= 7 ->
  rwx (u .& (mode .>> 6)) (g .& (mode .>> 3)) (o .& mode) = rwx u g o .& mode.
Proof. intros. mode_bits. Qed.

Lemma land_triple p x : 0 <= p <= 7 -> 0 <= p .& x <= 7.
Proof. intros Hp. pose proof (land_le_l p x). pose proof (proj2 (Z.land_nonneg p x)). lia. Qed.

Lemma mode_triples mode :
  0 <= mode ->
  0 <= (mode .& S_IRWXU) .>> 6 <= 7 /\ 0 <= (mode .& S_IRWXG) .>> 3 <= 7 /\ 0 <= mode .& S_IRWXO <= 7.
Proof.
  intros Hm.
  assert (E : forall k, 0 <= k -> (mode .& (7 .<< k)) .>> k = 7 .& (mode .>> k)).
  { intros k Hk. rewrite Z.shiftr_land, Z.shiftr_shiftl_l, Z.sub_diag by lia. apply Z.land_comm. }
  split; [| split].
  - change S_IRWXU with (7 .<< 6). rewrite (E 6) by lia. apply land_triple. lia.
  - change S_IRWXG with (7 .<< 3). rewrite (E 3) by lia. apply land_triple. lia.
  - rewrite Z.land_comm. apply land_triple. lia.
Qed.

(** ** The mode operations on the parts *)

Definition is_named (pa : posix_acl_entry) : Prop := e_tag pa = ACL_USER \/ e_tag pa = ACL_GROUP.

Lemma equiv_named l rest : forall mode ne,
  Forall is_named l -> equiv_loop (l ++ rest) mode ne = equiv_loop rest mode (ne || negb (bool_decide (l = []))).
Proof.
  intros mode ne Hl. revert ne. induction Hl as [|pa l Hpa _ IH]; intros ne; [simpl; by rewrite orb_false_r |].
  rewrite <- app_comm_cons. cbn [equiv_loop].
  destruct Hpa as [-> | ->]; cbn; rewrite IH; by rewrite orb_true_r.
Qed.

Lemma create_named l : forall pre rest m,
  Forall is_named l ->
  create_loop pre (l ++ rest) m =
  create_loop (pre ++ l) rest
    (Masq (m_mode m) (m_not_equiv m || negb (bool_decide (l = []))) (m_group_obj m) (m_mask_obj m)).
Proof.
  induction l as [|pa l IH]; intros pre rest m Hl.
  { rewrite app_nil_r. simpl. rewrite orb_false_r. by destruct m. }
  apply Forall_cons in Hl as [Hpa Hl]. rewrite <- app_comm_cons. cbn [create_loop].
  destruct Hpa as [-> | ->]; cbn; rewrite IH by done; cbn; by rewrite <- app_assoc, orb_true_r.
Qed.

Lemma chmod_named mode l : forall pre rest g k,
  Forall is_named l -> chmod_loop mode pre (l ++ rest) g k = chmod_loop mode (pre ++ l) rest g k.
Proof.
  induction l as [|pa l IH]; intros pre rest g k Hl; [by rewrite app_nil_r |].
  apply Forall_cons in Hl as [Hpa Hl]. rewrite <- app_comm_cons. cbn [chmod_loop].
  destruct Hpa as [-> | ->]; cbn; rewrite IH by done; by rewrite <- app_assoc.
Qed.

(** The facts about the entries of well-formed parts that the loops use. *)
Lemma parts_facts p :
  well_formed p ->
  (e_tag (p_user p) = ACL_USER_OBJ /\ e_tag (p_group p) = ACL_GROUP_OBJ /\ e_tag (p_other p) = ACL_OTHER) /\
  Forall is_named (p_users p) /\ Forall is_named (p_groups p) /\
  (0 <= e_perm (p_user p) <= 7 /\ 0 <= e_perm (p_group p) <= 7 /\ 0 <= e_perm (p_other p) <= 7) /\
  match p_mask p with None => p_users p = [] /\ p_groups p = [] | Some m => e_tag m = ACL_MASK /\ 0 <= e_perm m <= 7 end.
Proof.
  intros (Hu & Nu & Hg & Ng & Ho & Hm). apply named_tags in Nu, Ng.
  split_and!; try apply Hu; try apply Hg; try apply Ho.
  - eapply Forall_impl; [exact Nu |]. by left.
  - eapply Forall_impl; [exact Ng |]. by right.
  - by destruct (p_mask p).
Qed.

Lemma equiv_parts p mode_p :
  well_formed p ->
  posix_acl_equiv_mode (assemble p) mode_p = (extended p, (mode_p .& Z.lnot S_IRWXUGO) .| acl_mode p).
Proof.
  intros Hw. destruct (parts_facts p Hw) as ((Tu & Tg & To) & Nu & Ng & (Pu & Pg & Po) & Hm).
  unfold posix_acl_equiv_mode, assemble, acl_mode, extended, class_entry, mask_entries.
  cbn [equiv_loop]. rewrite Tu. cbn [Z.eqb Pos.eqb]. rewrite equiv_named by done. cbn [equiv_loop]. rewrite Tg.
  change (ACL_GROUP_OBJ =? ACL_USER_OBJ) with false. rewrite Z.eqb_refl, equiv_named by done. cbn iota.
  destruct (p_mask p) as [m|]; cbn [app equiv_loop]; rewrite ?To.
  - destruct Hm as [-> Pm]. cbn. by rewrite equiv_bits_mask.
  - destruct Hm as [-> ->]. cbn. by rewrite equiv_bits.
Qed.

Lemma masq_group_at uo pre pa post mode :
  masq_group (uo :: pre ++ pa :: post) (S (length pre)) mode =
  (uo :: pre ++ set_perm pa (e_perm pa .& ((mode .>> 3) .| Z.lnot S_IRWXO)) :: post,
   mode .& (((e_perm pa .& ((mode .>> 3) .| Z.lnot S_IRWXO)) .<< 3) .| Z.lnot S_IRWXG)).
Proof. unfold masq_group. simpl. rewrite list_lookup_middle by done. by rewrite insert_middle. Qed.

Lemma set_perm_at_middle uo pre pa post perm :
  set_perm_at (uo :: pre ++ pa :: post) (S (length pre)) perm = uo :: pre ++ set_perm pa perm :: post.
Proof. unfold set_perm_at. simpl. rewrite list_lookup_middle by done. by rewrite insert_middle. Qed.

Lemma create_parts p mode :
  well_formed p ->
  posix_acl_create_masq (assemble p) mode =
  (extended p,
   assemble (with_mode p (e_perm (p_user p) .& (mode .>> 6)) (e_perm (class_entry p) .& (mode .>> 3))
     (e_perm (p_other p) .& mode)),
   mode .& (acl_mode p .| Z.lnot S_IRWXUGO)).
Proof.
  intros Hw. destruct (parts_facts p Hw) as ((Tu & Tg & To) & Nu & Ng & (Pu & Pg & Po) & Hm).
  unfold posix_acl_create_masq, assemble, acl_mode, extended, class_entry, mask_entries, with_mode.
  cbn [create_loop]. rewrite Tu, Z.eqb_refl. cbn iota. rewrite create_named by done. cbn [create_loop]. rewrite Tg.
  cbn -[masq_group]. rewrite create_named by done. cbn -[masq_group]. rewrite create_bits_user by done.
  destruct (p_mask p) as [m|]; cbn -[masq_group]; rewrite ?To; cbn -[masq_group].
  - destruct Hm as [-> Pm]. cbn -[masq_group]. rewrite create_bits_other by done.
    rewrite <- (app_assoc _ [m]). cbn [app]. rewrite masq_group_at.
    fold (masked_uo (e_perm (p_user p)) (e_perm (p_other p)) mode).
    rewrite create_bits_class, create_bits_mode by done. cbn. by rewrite <- !app_assoc.
  - destruct Hm as [-> ->]. cbn -[masq_group]. rewrite create_bits_other by done.
    unfold masq_group. cbn.
    fold (masked_uo (e_perm (p_user p)) (e_perm (p_other p)) mode).
    by rewrite create_bits_class, create_bits_mode by done.
Qed.

Lemma chmod_parts p mode :
  well_formed p ->
  posix_acl_chmod_masq (assemble p) mode =
  (0, assemble (with_mode p ((mode .& S_IRWXU) .>> 6) ((mode .& S_IRWXG) .>> 3) (mode .& S_IRWXO))).
Proof.
  intros Hw. destruct (parts_facts p Hw) as ((Tu & Tg & To) & Nu & Ng & (Pu & Pg & Po) & Hm).
  unfold posix_acl_chmod_masq, assemble, mask_entries, with_mode.
  cbn [chmod_loop]. rewrite Tu, Z.eqb_refl. cbn iota. rewrite chmod_named by done. cbn [chmod_loop]. rewrite Tg.
  cbn -[set_perm_at]. rewrite chmod_named by done. cbn -[set_perm_at].
  destruct (p_mask p) as [m|]; cbn -[set_perm_at]; rewrite ?To; cbn -[set_perm_at].
  - destruct Hm as [-> Pm]. cbn -[set_perm_at].
    rewrite <- (app_assoc _ [m]). cbn [app]. rewrite set_perm_at_middle. by rewrite <- !app_assoc.
  - destruct Hm as [-> ->]. done.
Qed.

Lemma posix_acl_valid_iff acl : Forall entry_ok acl -> posix_acl_valid acl = 0 <-> valid_acl acl.
Proof.
  intros Hok. unfold posix_acl_valid. destruct acl as [|pa acl]; [split; [done | by intros ([] & ? & _)] |].
  apply Forall_cons in Hok as [[Hp Hi] Hok]. rewrite valid_acl_cons.
  valid_cases pa; simpl; rewrite ?valid_state_user by done; tag_clash.
Qed.

Lemma with_mode_valid p u g o :
  Forall entry_ok (assemble p) -> well_formed p -> 0 <= u <= 7 -> 0 <= g <= 7 -> 0 <= o <= 7 ->
  posix_acl_valid (assemble (with_mode p u g o)) = 0.
Proof.
  intros Hok Hw Hu Hg Ho. apply posix_acl_valid_iff; [| exists (with_mode p u g o); split; [done | by apply with_mode_wf]].
  unfold assemble, mask_entries, with_mode in *. simpl.
  repeat first [rewrite Forall_cons in Hok | rewrite Forall_app in Hok].
  repeat first [rewrite Forall_cons | rewrite Forall_app].
  destruct Hok as (Huo & Hus & Hgo & Hgs & Hm & Hot & _). unfold entry_ok in *.
  destruct (p_mask p) as [m|]; simpl in *; rewrite ?Forall_singleton in *; simpl; split_and!; done || lia.
Qed.

(** ** Properties *)

(** C37: [posix_acl_valid] accepts exactly the ACLs of the grammar: owner, named users with ascending ids,
    owning group, named groups with ascending ids, an optional mask, others; with the mask present when anyone
    is named, and no permission beyond read, write and execute.  Everything else gives -EINVAL. *)
Theorem posix_acl_valid_correct acl :
  Forall entry_ok acl ->
  (posix_acl_valid acl = 0 <-> valid_acl acl) /\ (~ valid_acl acl -> posix_acl_valid acl = - EINVAL).
Proof.
  intros Hok. pose proof (posix_acl_valid_iff acl Hok) as E. split; [exact E |].
  rewrite <- E. destruct (valid_loop_result acl ACL_USER_OBJ 0 false); tauto.
Qed.

(** rwx for the owner; users 1000 and 1001, group 50 and a mask r-x. *)
Definition sample_acl : list posix_acl_entry :=
  [ Entry ACL_USER_OBJ 7 ACL_UNDEFINED_ID; Entry ACL_USER 6 1000; Entry ACL_USER 7 1001;
    Entry ACL_GROUP_OBJ 4 ACL_UNDEFINED_ID; Entry ACL_GROUP 7 50; Entry ACL_MASK 5 ACL_UNDEFINED_ID;
    Entry ACL_OTHER 0 ACL_UNDEFINED_ID ].

Lemma sample_acl_ok : Forall entry_ok sample_acl.
Proof. unfold sample_acl. repeat constructor; simpl; lia. Qed.

Lemma posix_acl_valid_correct_witness : valid_acl sample_acl.
Proof. apply (posix_acl_valid_correct sample_acl sample_acl_ok). reflexivity. Defined.

(** C2: on an ACL that [posix_acl_valid] accepts, [posix_acl_permission] is the access check of POSIX 1003.1e,
    and never reports a broken ACL.  It rests on the credential's group test only through its interface, for the
    gids that the ACL speaks about. *)
Theorem posix_acl_permission_correct {C} `{GroupTest C} (c : C) fsuid i_uid i_gid want acl :
  Forall entry_ok acl -> posix_acl_valid acl = 0 ->
  covers c i_gid -> Forall (fun pa => covers c (e_id pa)) (entries ACL_GROUP acl) ->
  posix_acl_permission c fsuid i_uid i_gid want acl = Some (code (access c fsuid i_uid i_gid want acl)).
Proof.
  intros Hok Hv Hc Hcs. apply posix_acl_valid_iff in Hv as (p & -> & Hw); [| done].
  destruct (entries_parts p Hw) as (_ & _ & _ & E & _). rewrite E in Hcs. by apply permission_parts.
Qed.

(** A process of user 2000 in the groups 100, 7 and 50. *)
Definition sample_cred : cred := Cred 2000 100 100 (Some (GroupInfo 1 2 1 true [[7; 50] ++ replicate 30 0])).

Lemma sample_cred_covers g : 0 <= g < 1000 -> covers sample_cred g.
Proof.
  intros Hg. split; [apply layout_wf, layout_small; [lia | reflexivity] |].
  change (gids _) with [7; 50]. split; [repeat constructor; lia |]. repeat (constructor; [lia |]). constructor.
Qed.

(** Group 50 is granted read and execute through the mask, but not write. *)
Lemma posix_acl_permission_correct_witness :
  posix_acl_permission sample_cred 2000 0 0 5 sample_acl = Some (code (access sample_cred 2000 0 0 5 sample_acl)) /\
  access sample_cred 2000 0 0 5 sample_acl = true /\ access sample_cred 2000 0 0 2 sample_acl = false.
Proof.
  split; [| by vm_compute]. apply posix_acl_permission_correct.
  - exact sample_acl_ok.
  - reflexivity.
  - apply sample_cred_covers. lia.
  - constructor; [apply sample_cred_covers; simpl; lia | constructor].
Defined.

(** chmod on a valid ACL succeeds and leaves a valid ACL whose mode is the permission bits given, whichever
    they are; the mode of a fresh ACL is the mode it was made from, exactly. *)
Theorem posix_acl_mode_roundtrip acl mode mode_p :
  Forall entry_ok acl -> posix_acl_valid acl = 0 -> 0 <= mode ->
  (exists acl', posix_acl_chmod_masq acl mode = (0, acl') /\ posix_acl_valid acl' = 0 /\
     entries ACL_USER acl' = entries ACL_USER acl /\ entries ACL_GROUP acl' = entries ACL_GROUP acl /\
     posix_acl_equiv_mode acl' mode_p =
       ((posix_acl_equiv_mode acl mode_p).1, (mode_p .& Z.lnot S_IRWXUGO) .| (mode .& S_IRWXUGO))) /\
  exists fresh, posix_acl_from_mode mode true = inr fresh /\ posix_acl_valid fresh = 0 /\
     posix_acl_equiv_mode fresh mode_p = (0, (mode_p .& Z.lnot S_IRWXUGO) .| (mode .& S_IRWXUGO)).
Proof.
  intros Hok Hv Hmode. apply posix_acl_valid_iff in Hv as (p & -> & Hw); [| done].
  set (u := (mode .& S_IRWXU) .>> 6). set (g := (mode .& S_IRWXG) .>> 3). set (o := mode .& S_IRWXO).
  destruct (mode_triples mode Hmode) as (Hu & Hg & Ho). fold u g o in Hu, Hg, Ho.
  assert (Hw' : well_formed (with_mode p u g o)) by by apply with_mode_wf. split.
  - exists (assemble (with_mode p u g o)). split; [by apply chmod_parts |]. split; [by apply with_mode_valid |].
    destruct (entries_parts p Hw) as (_ & E1 & _ & E2 & _). destruct (entries_parts _ Hw') as (_ & E1' & _ & E2' & _).
    rewrite E1, E1', E2, E2'. split; [done |]. split; [done |]. rewrite !equiv_parts by done.
    rewrite with_mode_acl_mode. unfold u, g, o. rewrite chmod_bits. unfold extended. simpl. by destruct (p_mask p).
  - set (q := Parts (Entry ACL_USER_OBJ u ACL_UNDEFINED_ID) [] (Entry ACL_GROUP_OBJ g ACL_UNDEFINED_ID) [] None
                (Entry ACL_OTHER o ACL_UNDEFINED_ID)).
    assert (Hq : well_formed q) by (unfold q, well_formed, tagged, perm_ok; simpl; split_and!; done || lia).
    exists (assemble q). split; [done |]. split.
    + apply posix_acl_valid_iff; [| by exists q]. unfold assemble, mask_entries, q, entry_ok. simpl.
      rewrite !Forall_cons, Forall_nil. simpl. lia.
    + rewrite equiv_parts by done. unfold acl_mode. simpl. unfold u, g, o. by rewrite chmod_bits.
Qed.

Lemma posix_acl_mode_roundtrip_witness :
  posix_acl_equiv_mode sample_acl 0x8000 = (1, 0x8000 .| 0x1e8) /\
  exists acl', posix_acl_chmod_masq sample_acl 0x1a4 = (0, acl') /\ posix_acl_valid acl' = 0 /\
    posix_acl_equiv_mode acl' 0x8000 = (1, 0x8000 .| 0x1a4).
Proof.
  split; [reflexivity |].
  destruct (posix_acl_mode_roundtrip sample_acl 0x1a4 0x8000 sample_acl_ok) as ((acl' & E & V & _ & _ & M) & _).
  - reflexivity.
  - lia.
  - exists acl'. split; [exact E |]. split; [exact V |]. exact M.
Defined.

(** creating a file under a valid ACL gives the file the requested permissions that the ACL grants and no
    other, and masks the ACL to the same: it stays valid and its mode becomes the intersection. *)
Theorem posix_acl_create_masq_correct acl mode r m :
  Forall entry_ok acl -> posix_acl_valid acl = 0 -> posix_acl_equiv_mode acl 0 = (r, m) ->
  exists acl', posix_acl_create_masq acl mode = (r, acl', mode .& (m .| Z.lnot S_IRWXUGO)) /\
    posix_acl_valid acl' = 0 /\ posix_acl_equiv_mode acl' 0 = (r, m .& mode) /\
    entries ACL_USER acl' = entries ACL_USER acl /\ entries ACL_GROUP acl' = entries ACL_GROUP acl.
Proof.
  intros Hok Hv Em. apply posix_acl_valid_iff in Hv as (p & -> & Hw); [| done].
  rewrite equiv_parts in Em by done. injection Em as <- <-. rewrite Z.land_0_l, Z.lor_0_l.
  destruct (parts_facts p Hw) as (_ & _ & _ & (Pu & Pg & Po) & Hm).
  assert (Pc : 0 <= e_perm (class_entry p) <= 7) by (unfold class_entry; destruct (p_mask p); [apply Hm | done]).
  set (u := e_perm (p_user p) .& (mode .>> 6)). set (g := e_perm (class_entry p) .& (mode .>> 3)).
  set (o := e_perm (p_other p) .& mode).
  assert (Hu : 0 <= u <= 7) by by apply land_triple. assert (Hg : 0 <= g <= 7) by by apply land_triple.
  assert (Ho : 0 <= o <= 7) by by apply land_triple.
  assert (Hw' : well_formed (with_mode p u g o)) by by apply with_mode_wf.
  exists (assemble (with_mode p u g o)). split; [by apply create_parts |]. split; [by apply with_mode_valid |].
  destruct (entries_parts p Hw) as (_ & E1 & _ & E2 & _). destruct (entries_parts _ Hw') as (_ & E1' & _ & E2' & _).
  rewrite E1, E1', E2, E2'. split; [| done]. rewrite equiv_parts, with_mode_acl_mode, Z.land_0_l, Z.lor_0_l by done.
  unfold u, g, o, acl_mode. rewrite create_bits_acl by done. unfold extended. simpl. by destruct (p_mask p).
Qed.

Lemma posix_acl_create_masq_correct_witness :
  exists acl', posix_acl_create_masq sample_acl 0x81b6 = (1, acl', 0x81a0) /\ posix_acl_valid acl' = 0 /\
    posix_acl_equiv_mode acl' 0 = (1, 0x1a0).
Proof.
  destruct (posix_acl_create_masq_correct sample_acl 0x81b6 1 0x1e8 sample_acl_ok) as (acl' & E & V & M & _).
  - reflexivity.
  - reflexivity.
  - exists acl'. split; [exact E |]. split; [exact V |]. exact M.
Defined.

End PosixAcl.
