(* ===== verification/Kfifo.v ===== *)
(** * The byte FIFO (kernel/kfifo.c, include/linux/kfifo.h)

    The ring buffer with free running 32-bit indices, its sequential operations
    as a bounded queue, and its use without locks by one reader and one writer,
    as a step relation in which the bytes are copied one at a time. *)

From S2P Require Import Prelude Bitops.

Module Kfifo.
Import Bitops.

(** ** Powers of two (include/linux/log2.h, asm-generic/bitops/fls64.h) *)

Definition is_power_of_2 (n : Z) : bool := negb (n =? 0) && (n .& u64 (n - 1) =? 0).

Definition fls64 (x : Z) : Z := if x =? 0 then 0 else __fls x + 1.

(** [None]: the shift by 64 that [n = 0] gives is undefined. *)
Definition __roundup_pow_of_two (n : Z) : option Z :=
  let k := fls64 (u64 (n - 1)) in
  if k <? 64 then Some (1 .<< k) else None.

(** ** The FIFO *)

Record kfifo := Fifo { buffer : list Z; size : Z; in_ : Z; out : Z }.

(** [None]: the BUG_ON.  [alloc] tells whether the structure can be had. *)
Definition kfifo_init (buffer : list Z) (size : Z) (alloc : bool) : option (Z + kfifo) :=
  if negb (is_power_of_2 size) then None
  else if negb alloc then Some (inl (- ENOMEM))
  else Some (inr (Fifo buffer size 0 0)).

(** [kmalloc] gives a buffer of the size asked for, or fails.  The result also
    says whether the buffer was freed again. *)
Definition kfifo_alloc (size : Z) (kmalloc : Z -> option (list Z)) (alloc : bool) : option ((Z + kfifo) * bool) :=
  size ← (if negb (is_power_of_2 size) then
            if size >? 0x80000000 then None else u32 <$> __roundup_pow_of_two size
          else Some size);
  match kmalloc size with
  | None => Some (inl (- ENOMEM), false)
  | Some buffer =>
      ret ← kfifo_init buffer size alloc;
      Some (ret, match ret with inl _ => true | inr _ => false end)
  end.

(** [memcpy(dst + d, src + s, n)]. *)
Definition memcpy (dst : list Z) (d : Z) (src : list Z) (s n : Z) : option (list Z) :=
  bs ← mem_read src s n; mem_write dst d bs.

(** The free space and the offset that [__kfifo_put] computes. *)
Definition put_len (f : kfifo) (len : Z) : Z := Z.min len (u32 (size f - in_ f + out f)).
Abbreviation put_first f len := (Z.min len (u32 (size f - (in_ f .& u32 (size f - 1))))) (only parsing).

Definition __kfifo_put (f : kfifo) (data : list Z) (len : Z) : option (Z * kfifo) :=
  let len := put_len f len in
  let l := put_first f len in
  b1 ← memcpy (buffer f) (in_ f .& u32 (size f - 1)) data 0 l;
  b2 ← memcpy b1 0 data l (u32 (len - l));
  Some (len, Fifo b2 (size f) (u32 (in_ f + len)) (out f)).

Abbreviation get_len f len := (Z.min len (u32 (in_ f - out f))) (only parsing).
Abbreviation get_first f len := (Z.min len (u32 (size f - (out f .& u32 (size f - 1))))) (only parsing).

(** The result, what [dst] holds after it, and the FIFO. *)
Definition __kfifo_get (f : kfifo) (dst : list Z) (len : Z) : option (Z * list Z * kfifo) :=
  let len := get_len f len in
  let l := get_first f len in
  d1 ← memcpy dst 0 (buffer f) (out f .& u32 (size f - 1)) l;
  d2 ← memcpy d1 l (buffer f) 0 (u32 (len - l));
  Some (len, d2, Fifo (buffer f) (size f) (in_ f) (u32 (out f + len))).

Definition __kfifo_reset (f : kfifo) : kfifo := Fifo (buffer f) (size f) 0 0.
Definition kfifo_reset (f : kfifo) : kfifo := __kfifo_reset f.

Definition kfifo_put (f : kfifo) (data : list Z) (len : Z) : option (Z * kfifo) := __kfifo_put f data len.

Definition kfifo_get (f : kfifo) (dst : list Z) (len : Z) : option (Z * list Z * kfifo) :=
  '(ret, dst, f) ← __kfifo_get f dst len;
  let f := if in_ f =? out f then Fifo (buffer f) (size f) 0 0 else f in
  Some (ret, dst, f).

Definition __kfifo_len (f : kfifo) : Z := u32 (in_ f - out f).
Definition kfifo_len (f : kfifo) : Z := __kfifo_len f.

(** ** One reader and one writer without a lock

    [__kfifo_put] samples [out] once, copies the bytes and then advances [in];
    [__kfifo_get] samples [in], copies and then advances [out]: the barriers in
    the code keep the three parts in this order.  Here they interleave freely,
    the copies byte by byte.  [put_log] and [got_log] collect the bytes of the
    calls that have returned. *)

Inductive writer := WIdle | WCopy (data : list Z) (len l j : Z).
Inductive reader := RIdle | RCopy (len l : Z) (got : list Z).

Record system := System { fifo : kfifo; wr : writer; rd : reader; put_log : list Z; got_log : list Z }.

(** Where the two calls of memcpy put or find byte [j], [l] bytes being copied by
    the first one. *)
Definition copy_pos (index size l j : Z) : Z := if j <? l then (index .& u32 (size - 1)) + j else j - l.

Inductive step : system -> system -> Prop :=
  | put_start f r pl gl data len :
      0 <= len < 2 ^ 32 -> len <= Z.of_nat (length data) ->
      step (System f WIdle r pl gl)
           (System f (WCopy data (put_len f len) (put_first f (put_len f len)) 0) r pl gl)
  | put_byte f r pl gl data len l j x b :
      j < len -> mem_read data j 1 = Some [x] ->
      mem_write (buffer f) (copy_pos (in_ f) (size f) l j) [x] = Some b ->
      step (System f (WCopy data len l j) r pl gl)
           (System (Fifo b (size f) (in_ f) (out f)) (WCopy data len l (j + 1)) r pl gl)
  | put_end f r pl gl data len l :
      step (System f (WCopy data len l len) r pl gl)
           (System (Fifo (buffer f) (size f) (u32 (in_ f + len)) (out f)) WIdle r (pl ++ take (Z.to_nat len) data) gl)
  | get_start f w pl gl len :
      0 <= len < 2 ^ 32 ->
      step (System f w RIdle pl gl) (System f w (RCopy (get_len f len) (get_first f (get_len f len)) []) pl gl)
  | get_byte f w pl gl len l got x :
      Z.of_nat (length got) < len ->
      mem_read (buffer f) (copy_pos (out f) (size f) l (Z.of_nat (length got))) 1 = Some [x] ->
      step (System f w (RCopy len l got) pl gl) (System f w (RCopy len l (got ++ [x])) pl gl)
  | get_end f w pl gl len l got :
      Z.of_nat (length got) = len ->
      step (System f w (RCopy len l got) pl gl)
           (System (Fifo (buffer f) (size f) (in_ f) (u32 (out f + len))) w RIdle pl (gl ++ got)).

(** A fresh FIFO with nobody using it, and what can come of it. *)
Definition initial (s : system) : Prop :=
  exists b k, 0 <= k <= 31 /\ Z.of_nat (length b) = 2 ^ k /\ s = System (Fifo b (2 ^ k) 0 0) WIdle RIdle [] [].

Inductive reachable : system -> Prop :=
  | reach_init s : initial s -> reachable s
  | reach_step s s' : reachable s -> step s s' -> reachable s'.

(** ** The bounded queue that a FIFO is *)

Definition wf (f : kfifo) : Prop :=
  (exists k, 0 <= k <= 31 /\ size f = 2 ^ k) /\ Z.of_nat (length (buffer f)) = size f /\
  0 <= in_ f < 2 ^ 32 /\ 0 <= out f < 2 ^ 32 /\ __kfifo_len f <= size f.

(** The byte at the free running index [i]. *)
Definition cell (f : kfifo) (i : Z) : Z := default 0 (buffer f !! Z.to_nat (i mod size f)).

Definition contents (f : kfifo) : list Z := (fun i => cell f (out f + i)) <$> seqZ 0 (__kfifo_len f).

Lemma length_contents f : Z.of_nat (length (contents f)) = __kfifo_len f.
Proof.
  unfold contents. rewrite length_fmap, length_seqZ. pose proof (uwrap_range 32 (in_ f - out f)). unfold __kfifo_len. lia.
Qed.

Lemma contents_lookup f i : 0 <= i < __kfifo_len f -> contents f !! Z.to_nat i = Some (cell f (out f + i)).
Proof.
  intros Hi. unfold contents. rewrite list_lookup_fmap, lookup_seqZ_lt by lia. simpl. do 2 f_equal. lia.
Qed.

(** Indices modulo 2^32 and modulo the size agree. *)
Lemma wrap_mod k a : 0 <= k <= 32 -> u32 a mod 2 ^ k = a mod 2 ^ k.
Proof.
  intros Hk. unfold uwrap. replace (2 ^ 32) with (2 ^ k * 2 ^ (32 - k)) by (rewrite <- Z.pow_add_r by lia; f_equal; lia).
  rewrite Z.rem_mul_r by lia. rewrite Z.mul_comm, Z.mod_add by lia. by rewrite Z.mod_mod by lia.
Qed.

Lemma mask_mod a k : 0 <= k <= 31 -> a .& u32 (2 ^ k - 1) = a mod 2 ^ k.
Proof.
  intros Hk. assert (0 < 2 ^ k) by lia. assert (2 ^ k <= 2 ^ 31) by (apply Z.pow_le_mono_r; lia).
  rewrite uwrap_small by lia. replace (2 ^ k - 1) with (Z.ones k) by (rewrite Z.ones_equiv; lia).
  apply Z.land_ones. lia.
Qed.

(** *** Writing into and reading out of the ring *)

Lemma memcpy_ok dst d src s n :
  0 <= d -> 0 <= s -> 0 <= n -> d + n <= Z.of_nat (length dst) -> s + n <= Z.of_nat (length src) ->
  exists dst', memcpy dst d src s n = Some dst' /\ length dst' = length dst /\
    forall i, 0 <= i ->
      dst' !! Z.to_nat i = if (d <=? i) && (i <? d + n) then src !! Z.to_nat (s + (i - d)) else dst !! Z.to_nat i.
Proof.
  intros Hd Hs Hn Ld Ls. unfold memcpy. rewrite mem_read_Some by lia. simpl. unfold mem_write.
  pose proof (length_slice src s n Hs Hn Ls) as Hl. rewrite Hl. zbool. simpl.
  eexists. split; [done |]. split; [len |].
  intros i Hi. destruct (Z.leb_spec d i), (Z.ltb_spec i (d + n)); simpl.
  - rewrite lookup_app_r by len. rewrite lookup_app_l by len.
    rewrite length_take. unfold slice. rewrite lookup_take_lt by lia. rewrite lookup_drop. f_equal. lia.
  - rewrite lookup_app_r by len. rewrite lookup_app_r by len.
    rewrite length_take, lookup_drop. f_equal. lia.
  - rewrite lookup_app_l by len. rewrite lookup_take_lt by lia. done.
  - lia.
Qed.

Lemma ring_pos a d s :
  0 < s -> 0 <= d < s -> (a + d) mod s = if a mod s + d <? s then a mod s + d else a mod s + d - s.
Proof.
  intros Hs Hd. pose proof (Z.mod_pos_bound a s Hs). rewrite <- Z.add_mod_idemp_l by lia.
  destruct (Z.ltb_spec (a mod s + d) s); [apply Z.mod_small; lia |].
  symmetry. apply (Z.mod_unique _ _ 1); lia.
Qed.

(** What [wf] says in terms of the size as a power of two. *)
Lemma wf_inv f :
  wf f -> exists k, 0 <= k <= 31 /\ size f = 2 ^ k /\ 1 <= size f <= 2 ^ 31 /\ Z.of_nat (length (buffer f)) = size f /\
    0 <= __kfifo_len f <= size f /\ (forall a, a .& u32 (size f - 1) = a mod size f) /\
    (forall a, u32 a mod size f = a mod size f).
Proof.
  intros ((k & Hk & Es) & Hl & Hi & Ho & Hq). exists k. rewrite Es in *.
  assert (0 < 2 ^ k) by lia. assert (2 ^ k <= 2 ^ 31) by (apply Z.pow_le_mono_r; lia).
  split_and!; try lia.
  - unfold __kfifo_len in *. apply uwrap_range. lia.
  - intros a. by apply mask_mod.
  - intros a. apply wrap_mod. lia.
Qed.

Lemma free_space f : wf f -> u32 (size f - in_ f + out f) = size f - __kfifo_len f.
Proof.
  intros Hw. destruct (wf_inv f Hw) as (k & _ & _ & Hs & _ & Hq & _).
  rewrite <- (uwrap_small 32 (size f - __kfifo_len f)) by lia. unfold __kfifo_len, uwrap.
  rewrite Zminus_mod_idemp_r. f_equal. lia.
Qed.

Lemma put_buffer f data len :
  wf f -> 0 <= len < 2 ^ 32 -> len <= Z.of_nat (length data) ->
  let n := Z.min len (size f - __kfifo_len f) in
  exists b, __kfifo_put f data len = Some (n, Fifo b (size f) (u32 (in_ f + n)) (out f)) /\
    length b = length (buffer f) /\
    forall d, 0 <= d < size f ->
      b !! Z.to_nat ((in_ f + d) mod size f) =
      if d <? n then data !! Z.to_nat d else buffer f !! Z.to_nat ((in_ f + d) mod size f).
Proof.
  intros Hw Hlen Hdata n. destruct (wf_inv f Hw) as (k & _ & _ & Hs & Hb & Hq & Hmask & _).
  unfold __kfifo_put, put_len. rewrite free_space by done. fold n. rewrite Hmask.
  set (off := in_ f mod size f). assert (Hoff : 0 <= off < size f) by (apply Z.mod_pos_bound; lia).
  rewrite (uwrap_small 32 (size f - off)) by lia. set (l := Z.min n (size f - off)).
  assert (Hn : 0 <= n <= size f) by lia. rewrite (uwrap_small 32 (n - l)) by lia.
  destruct (memcpy_ok (buffer f) off data 0 l) as (b1 & E1 & L1 & H1); try lia.
  destruct (memcpy_ok b1 0 data l (n - l)) as (b2 & E2 & L2 & H2); try lia.
  exists b2. rewrite E1. simpl. rewrite E2. split; [done |]. split; [lia |].
  intros d Hd. rewrite ring_pos by lia. fold off.
  destruct (Z.ltb_spec (off + d) (size f)); rewrite H2, H1 by lia.
  - destruct (Z.ltb_spec d n); zbool; simpl; [f_equal; lia |].
    destruct (Z.ltb_spec (off + d) (n - l)); [lia |]. done.
  - destruct (Z.ltb_spec d n); zbool; simpl; [f_equal; lia | done].
Qed.

Lemma get_buffer f dst len :
  wf f -> 0 <= len < 2 ^ 32 -> len <= Z.of_nat (length dst) ->
  let n := Z.min len (__kfifo_len f) in
  exists d, __kfifo_get f dst len = Some (n, d, Fifo (buffer f) (size f) (in_ f) (u32 (out f + n))) /\
    length d = length dst /\
    forall i, 0 <= i ->
      d !! Z.to_nat i = if i <? n then buffer f !! Z.to_nat ((out f + i) mod size f) else dst !! Z.to_nat i.
Proof.
  intros Hw Hlen Hdst n. destruct (wf_inv f Hw) as (k & _ & _ & Hs & Hb & Hq & Hmask & _).
  unfold __kfifo_get. fold (__kfifo_len f). fold n. rewrite Hmask.
  set (off := out f mod size f). assert (Hoff : 0 <= off < size f) by (apply Z.mod_pos_bound; lia).
  rewrite (uwrap_small 32 (size f - off)) by lia. set (l := Z.min n (size f - off)).
  assert (Hn : 0 <= n <= size f) by lia. rewrite (uwrap_small 32 (n - l)) by lia.
  destruct (memcpy_ok dst 0 (buffer f) off l) as (d1 & E1 & L1 & H1); try lia.
  destruct (memcpy_ok d1 l (buffer f) 0 (n - l)) as (d2 & E2 & L2 & H2); try lia.
  exists d2. rewrite E1. simpl. rewrite E2. split; [done |]. split; [lia |].
  intros i Hi. rewrite H2, H1 by lia. destruct (Z.ltb_spec i n).
  - rewrite ring_pos by lia. fold off. destruct (Z.ltb_spec (off + i) (size f)); zbool; simpl; f_equal; lia.
  - zbool. simpl. by destruct (Z.leb_spec l i).
Qed.

(** *** The lengths after an operation *)

Lemma len_put f n b :
  wf f -> 0 <= n <= size f - __kfifo_len f ->
  __kfifo_len (Fifo b (size f) (u32 (in_ f + n)) (out f)) = __kfifo_len f + n.
Proof.
  intros Hw Hn. destruct (wf_inv f Hw) as (k & _ & _ & Hs & _ & Hq & _).
  rewrite <- (uwrap_small 32 (__kfifo_len f + n)) by lia. unfold __kfifo_len, uwrap. simpl.
  rewrite Zminus_mod_idemp_l, Zplus_mod_idemp_l. f_equal. lia.
Qed.

Lemma len_get f n b :
  wf f -> 0 <= n <= __kfifo_len f ->
  __kfifo_len (Fifo b (size f) (in_ f) (u32 (out f + n))) = __kfifo_len f - n.
Proof.
  intros Hw Hn. destruct (wf_inv f Hw) as (k & _ & _ & Hs & _ & Hq & _).
  rewrite <- (uwrap_small 32 (__kfifo_len f - n)) by lia. unfold __kfifo_len, uwrap. simpl.
  rewrite Zminus_mod_idemp_l, Zminus_mod_idemp_r. f_equal. lia.
Qed.

(** Two lists are equal when their bytes are, below the length. *)
Lemma list_eq_Z (l1 l2 : list Z) :
  length l1 = length l2 -> (forall i, 0 <= i < Z.of_nat (length l1) -> l1 !! Z.to_nat i = l2 !! Z.to_nat i) -> l1 = l2.
Proof.
  intros Hl H. apply list_eq_same_length with (length l1); [done | done |].
  intros i x y Hi Hx Hy. specialize (H (Z.of_nat i) ltac:(lia)). rewrite Nat2Z.id in H. congruence.
Qed.

(** [in] is ahead of [out] by the length, up to multiples of the size. *)
Lemma in_out f : wf f -> exists q, in_ f = out f + __kfifo_len f + q * size f.
Proof.
  intros Hw. destruct (wf_inv f Hw) as (k & Hk & Es & _). rewrite Es.
  exists ((in_ f - out f) / 2 ^ 32 * 2 ^ (32 - k)). unfold __kfifo_len, uwrap.
  rewrite <- Z.mul_assoc, <- Z.pow_add_r by lia. replace (32 - k + k) with 32 by lia.
  pose proof (Z.div_mod (in_ f - out f) (2 ^ 32)). lia.
Qed.

Lemma contents_eq f' l :
  __kfifo_len f' = Z.of_nat (length l) ->
  (forall i, 0 <= i < __kfifo_len f' -> Some (cell f' (out f' + i)) = l !! Z.to_nat i) -> contents f' = l.
Proof.
  intros Hl H. apply list_eq_Z; [apply Nat2Z.inj; rewrite length_contents; lia |].
  intros i. rewrite length_contents. intros Hi. rewrite contents_lookup by done. by apply H.
Qed.

(** A put appends what fits. *)
Lemma put_refines f data len :
  wf f -> 0 <= len < 2 ^ 32 -> len <= Z.of_nat (length data) ->
  let n := Z.min len (size f - __kfifo_len f) in
  exists f', __kfifo_put f data len = Some (n, f') /\ wf f' /\ size f' = size f /\
    contents f' = contents f ++ take (Z.to_nat n) data.
Proof.
  intros Hw Hlen Hdata n. destruct (wf_inv f Hw) as (k & Hk & Es & Hs & Hb & Hq & _ & Hmod).
  destruct (put_buffer f data len Hw Hlen Hdata) as (b & E & Lb & Hcell). fold n in E, Hcell.
  set (f' := Fifo b (size f) (u32 (in_ f + n)) (out f)). exists f'. split; [done |].
  assert (Hl : __kfifo_len f' = __kfifo_len f + n) by (apply len_put; lia || done).
  split.
  { split; [by exists k |]. split; [simpl; lia |]. split; [simpl; auto with kernel lia |].
    split; [apply Hw | rewrite Hl; simpl; lia]. }
  split; [done |]. destruct (in_out f Hw) as (q & Eio). pose proof (length_contents f) as Lc.
  apply contents_eq; [rewrite Hl, length_app, length_take; lia |].
  intros i. rewrite Hl. intros Hi. unfold cell. simpl.
  destruct (Z.ltb_spec i (__kfifo_len f)) as [Hc|Hc].
  - rewrite lookup_app_l by lia. rewrite contents_lookup by lia. unfold cell.
    assert (Ep : (out f + i) mod size f = (in_ f + (size f - __kfifo_len f + i)) mod size f).
    { replace (in_ f + _) with (out f + i + (q + 1) * size f) by lia. by rewrite Z.mod_add by lia. }
    rewrite Ep, Hcell by lia. by zbool.
  - assert (Ep : (out f + i) mod size f = (in_ f + (i - __kfifo_len f)) mod size f).
    { replace (in_ f + _) with (out f + i + q * size f) by lia. by rewrite Z.mod_add by lia. }
    rewrite Ep, Hcell by lia. zbool. rewrite lookup_app_r by lia. rewrite lookup_take_lt by lia.
    replace (Z.to_nat i - length (contents f))%nat with (Z.to_nat (i - __kfifo_len f)) by lia.
    destruct (lookup_lt_is_Some_2 data (Z.to_nat (i - __kfifo_len f))) as [x Hx]; [lia |]. by rewrite Hx.
Qed.

(** A get takes from the front. *)
Lemma get_refines f dst len :
  wf f -> 0 <= len < 2 ^ 32 -> len <= Z.of_nat (length dst) ->
  let n := Z.min len (__kfifo_len f) in
  exists f', __kfifo_get f dst len = Some (n, take (Z.to_nat n) (contents f) ++ drop (Z.to_nat n) dst, f') /\
    wf f' /\ size f' = size f /\ contents f' = drop (Z.to_nat n) (contents f).
Proof.
  intros Hw Hlen Hdst n. destruct (wf_inv f Hw) as (k & Hk & Es & Hs & Hb & Hq & _ & Hmod).
  destruct (get_buffer f dst len Hw Hlen Hdst) as (d & E & Ld & Hcell). fold n in E, Hcell.
  set (f' := Fifo (buffer f) (size f) (in_ f) (u32 (out f + n))). exists f'.
  pose proof (length_contents f) as Lc. split.
  { rewrite E. do 3 f_equal. apply list_eq_Z; [rewrite Ld; len |]. intros i Hi. rewrite Hcell by lia.
    destruct (Z.ltb_spec i n).
    - rewrite lookup_app_l by len. rewrite lookup_take_lt, contents_lookup by lia. unfold cell.
      destruct (lookup_lt_is_Some_2 (buffer f) (Z.to_nat ((out f + i) mod size f))) as [x Hx]; [| by rewrite Hx].
      pose proof (Z.mod_pos_bound (out f + i) (size f)). lia.
    - rewrite lookup_app_r by len. rewrite lookup_drop. f_equal. len. }
  assert (Hl : __kfifo_len f' = __kfifo_len f - n) by (apply len_get; lia || done).
  split.
  { split; [by exists k |]. split; [done |]. split; [apply Hw |]. split; [simpl; auto with kernel lia |]. rewrite Hl.
    simpl. lia. }
  split; [done |]. apply contents_eq; [rewrite Hl; len |]. intros i Hi. rewrite lookup_drop.
  replace (Z.to_nat n + Z.to_nat i)%nat with (Z.to_nat (n + i)) by lia. rewrite contents_lookup by lia.
  unfold cell. simpl. rewrite <- Zplus_mod_idemp_l, Hmod, Zplus_mod_idemp_l. by rewrite Z.add_assoc.
Qed.

(** *** Allocation *)

Lemma is_power_of_2_spec n : 0 <= n < 2 ^ 32 -> is_power_of_2 n = true <-> exists k, 0 <= k <= 31 /\ n = 2 ^ k.
Proof.
  intros Hn. unfold is_power_of_2. destruct (Z.eqb_spec n 0) as [->|Hne]; simpl.
  { split; [done |]. intros (k & Hk & E). pose proof (Z.pow_pos_nonneg 2 k). lia. }
  rewrite uwrap_small by lia. rewrite Z.eqb_eq. pose proof (Z.log2_spec n) as Hl. pose proof (Z.log2_nonneg n).
  assert (Z.log2 n < 32) by (apply Z.log2_lt_pow2; lia). split.
  - intros E. exists (Z.log2 n). split; [lia |].
    destruct (Z.eq_dec n (2 ^ Z.log2 n)) as [|Hn2]; [done |]. exfalso.
    assert (Hb : Z.testbit (n .& (n - 1)) (Z.log2 n) = true); [| by rewrite E, Z.testbit_0_l in Hb].
    rewrite Z.land_spec, Z.bit_log2 by lia. simpl.
    replace (Z.log2 n) with (Z.log2 (n - 1)) at 1; [apply Z.bit_log2; lia |].
    apply Z.log2_unique; lia.
  - intros (k & Hk & ->). replace (2 ^ k - 1) with (Z.ones k) by (rewrite Z.ones_equiv; lia).
    rewrite Z.land_ones by lia. apply Z.mod_same. lia.
Qed.

(** Rounding up gives the least power of two that is large enough. *)
Lemma roundup_spec n :
  2 <= n <= 2 ^ 31 -> exists k, 1 <= k <= 31 /\ __roundup_pow_of_two n = Some (2 ^ k) /\ 2 ^ (k - 1) < n <= 2 ^ k.
Proof.
  intros Hn. unfold __roundup_pow_of_two, fls64. rewrite uwrap_small by lia. zbool.
  rewrite __fls_log2 by lia. pose proof (Z.log2_spec (n - 1)) as Hl. pose proof (Z.log2_nonneg (n - 1)).
  assert (Z.log2 (n - 1) < 31) by (apply Z.log2_lt_pow2; lia).
  exists (Z.log2 (n - 1) + 1). split; [lia |]. rewrite (proj2 (Z.ltb_lt _ _)) by lia. rewrite Z.shiftl_1_l.
  split; [done |]. replace (Z.log2 (n - 1) + 1 - 1) with (Z.log2 (n - 1)) by lia. rewrite <- Z.add_1_r in Hl. lia.
Qed.

Lemma fresh_wf b k : 0 <= k <= 31 -> Z.of_nat (length b) = 2 ^ k -> wf (Fifo b (2 ^ k) 0 0) /\ contents (Fifo b (2 ^ k) 0 0) = [].
Proof.
  intros Hk Hb. split; [| done]. split; [by exists k |]. split; [done |]. simpl. split; [lia |]. split; [lia |].
  unfold __kfifo_len. simpl. change (u32 (0 - 0)) with 0. lia.
Qed.

(** Allocation fails only for want of memory, and then keeps none. *)
Lemma kfifo_alloc_ok n kmalloc alloc :
  1 <= n <= 2 ^ 31 -> (forall m b, kmalloc m = Some b -> Z.of_nat (length b) = m) ->
  exists k r freed, 0 <= k <= 31 /\ n <= 2 ^ k < 2 * n /\ kfifo_alloc n kmalloc alloc = Some (r, freed) /\
    match r with
    | inr f => wf f /\ contents f = [] /\ size f = 2 ^ k /\ freed = false
    | inl e => e = - ENOMEM /\ (kmalloc (2 ^ k) = None /\ freed = false \/ is_Some (kmalloc (2 ^ k)) /\
      alloc = false /\ freed = true)
    end.
Proof.
  intros Hn Hk. unfold kfifo_alloc.
  assert (exists k, 0 <= k <= 31 /\ n <= 2 ^ k < 2 * n /\
    (if negb (is_power_of_2 n) then if n >? 0x80000000 then None else u32 <$> __roundup_pow_of_two n else Some n) = Some (2 ^ k))
    as (k & Hk31 & Hnk & E).
  { destruct (is_power_of_2 n) eqn:Ep; cbn [negb].
    - apply is_power_of_2_spec in Ep as (k & Hk31 & ->); [| lia]. exists k. split; [done |]. split; [lia | done].
    - destruct (Z.eq_dec n 1) as [->|]; [done |]. destruct (roundup_spec n) as (k & Hk31 & E & Hr); [lia |].
      exists k. split; [lia |]. assert (2 ^ k <= 2 ^ 31) by (apply Z.pow_le_mono_r; lia).
      rewrite E. zbool. simpl. rewrite uwrap_small by lia. split; [| done].
      replace k with (Z.succ (k - 1)) at 2 by lia. rewrite Z.pow_succ_r by lia. lia. }
  rewrite E. simpl. unfold kfifo_init.
  assert (2 ^ k <= 2 ^ 31) by (apply Z.pow_le_mono_r; lia).
  rewrite (proj2 (is_power_of_2_spec (2 ^ k) ltac:(lia))) by eauto. cbn [negb].
  destruct (kmalloc (2 ^ k)) as [b|] eqn:Eb; [destruct alloc |]; eexists k, _, _; (split; [done |]; split; [done |];
    split; [done |]); simpl.
  - destruct (fresh_wf b k) as [? ?]; [done | by apply Hk |]. done.
  - rewrite Eb. split; [done |]. right. by split.
  - rewrite Eb. split; [done |]. by left.
Qed.

(** The index reset in [kfifo_get] does not show. *)
Lemma kfifo_get_refines f dst len :
  wf f -> 0 <= len < 2 ^ 32 -> len <= Z.of_nat (length dst) ->
  let n := Z.min len (__kfifo_len f) in
  exists f', kfifo_get f dst len = Some (n, take (Z.to_nat n) (contents f) ++ drop (Z.to_nat n) dst, f') /\
    wf f' /\ size f' = size f /\ contents f' = drop (Z.to_nat n) (contents f).
Proof.
  intros Hw Hlen Hdst n. destruct (get_refines f dst len Hw Hlen Hdst) as (f' & E & Hw' & Es & Ec). fold n in E, Ec.
  unfold kfifo_get. rewrite E. simpl. destruct (Z.eqb_spec (in_ f') (out f')) as [Ei|]; [| eauto].
  eexists. split; [done |]. destruct (wf_inv f' Hw') as (k & Hk & Esk & _ & Hb & _).
  rewrite Esk in *. destruct (fresh_wf (buffer f') k Hk Hb) as [Hf Hc]. split; [done |]. split; [simpl; lia |].
  rewrite Hc, <- Ec. unfold contents, __kfifo_len. by rewrite Ei, Z.sub_diag.
Qed.

(** *** The invariant of the lock-free use *)

Definition IN (s : system) : Z := Z.of_nat (length (put_log s)).
Definition OUT (s : system) : Z := Z.of_nat (length (got_log s)).

(** Slot of the byte with the absolute number [i]. *)
Definition slot (f : kfifo) (i : Z) : option Z := buffer f !! Z.to_nat (i mod size f).

Definition shape_ok (f : kfifo) : Prop :=
  (exists k, 0 <= k <= 31 /\ size f = 2 ^ k) /\ Z.of_nat (length (buffer f)) = size f.

Definition writer_ok (f : kfifo) (room i : Z) (w : writer) : Prop :=
  match w with
  | WIdle => True
  | WCopy data len l j =>
      0 <= j <= len /\ len <= room /\ len <= Z.of_nat (length data) /\ l = Z.min len (size f - i mod size f) /\
      forall d, 0 <= d < j -> slot f (i + d) = data !! Z.to_nat d
  end.

Definition reader_ok (f : kfifo) (avail : list Z) (o : Z) (r : reader) : Prop :=
  match r with
  | RIdle => True
  | RCopy len l got =>
      0 <= len <= Z.of_nat (length avail) /\ Z.of_nat (length got) <= len /\ got = take (length got) avail /\
      l = Z.min len (size f - o mod size f)
  end.

Record inv (s : system) : Prop := Inv {
  inv_shape : shape_ok (fifo s);
  inv_in : in_ (fifo s) = u32 (IN s);
  inv_out : out (fifo s) = u32 (OUT s);
  inv_room : OUT s <= IN s <= OUT s + size (fifo s);
  inv_log : got_log s = take (length (got_log s)) (put_log s);
  inv_slots : forall i, OUT s <= i < IN s -> slot (fifo s) i = put_log s !! Z.to_nat i;
  inv_writer : writer_ok (fifo s) (OUT s + size (fifo s) - IN s) (IN s) (wr s);
  inv_reader : reader_ok (fifo s) (drop (length (got_log s)) (put_log s)) (OUT s) (rd s)
}.

Lemma inv_wf s : inv s -> wf (fifo s) /\ __kfifo_len (fifo s) = IN s - OUT s.
Proof.
  intros I. destruct (inv_shape _ I) as [(k & Hk & Es) Hl]. pose proof (inv_room _ I) as Hr.
  assert (2 ^ k <= 2 ^ 31) by (apply Z.pow_le_mono_r; lia).
  assert (E : __kfifo_len (fifo s) = IN s - OUT s).
  { unfold __kfifo_len. rewrite (inv_in _ I), (inv_out _ I). unfold uwrap.
    rewrite Zminus_mod_idemp_l, Zminus_mod_idemp_r. apply Z.mod_small. lia. }
  split; [| done]. split; [by exists k |]. split; [done |]. rewrite E, (inv_in _ I), (inv_out _ I).
  split; [auto with kernel lia |]. split; [auto with kernel lia | lia].
Qed.

(** Byte [j] of a copy is at the slot with its absolute number. *)
Lemma copy_pos_ok f i len j :
  shape_ok f -> 0 <= j < len -> len <= size f ->
  copy_pos (u32 i) (size f) (Z.min len (size f - i mod size f)) j = (i + j) mod size f.
Proof.
  intros [(k & Hk & Es) Hl] Hj Hlen. unfold copy_pos. rewrite Es in *. rewrite mask_mod, wrap_mod by lia.
  assert (0 < 2 ^ k) by lia. pose proof (Z.mod_pos_bound i (2 ^ k) ltac:(lia)). rewrite ring_pos by lia.
  destruct (Z.ltb_spec (i mod 2 ^ k + j) (2 ^ k)); zbool; lia.
Qed.

Lemma slots_differ f a b : 0 < size f -> a < b < a + size f -> a mod size f <> b mod size f.
Proof.
  intros Hs Hab E. assert (H : (b - a) mod size f = 0) by (rewrite Zminus_mod, E, Z.sub_diag; apply Z.mod_0_l; lia).
  rewrite Z.mod_small in H; lia.
Qed.

Lemma initial_inv s : initial s -> inv s.
Proof.
  intros (b & k & Hk & Hb & ->). split; try done.
  - split; [by exists k | done].
  - unfold IN, OUT. simpl. lia.
  - unfold IN, OUT. simpl. lia.
Qed.

Lemma put_start_inv f r pl gl data len :
  0 <= len < 2 ^ 32 -> len <= Z.of_nat (length data) -> inv (System f WIdle r pl gl) ->
  inv (System f (WCopy data (put_len f len) (put_first f (put_len f len)) 0) r pl gl).
Proof.
  intros Hlen Hd I. destruct (inv_wf _ I) as [Hw Hl]. simpl in Hw, Hl.
  destruct (wf_inv f Hw) as (k & _ & Es & Hs & _ & Hq & Hmask & Hmod).
  assert (Hn : put_len f len = Z.min len (size f - __kfifo_len f)) by (unfold put_len; by rewrite free_space).
  destruct I as [I1 I2 I3 I4 I5 I6 I7 I8]. split; try done. simpl. rewrite Hn.
  set (n := Z.min len (size f - __kfifo_len f)). cbn [fifo] in I2. rewrite Hmask, I2, Hmod.
  pose proof (Z.mod_pos_bound (IN (System f WIdle r pl gl)) (size f) ltac:(lia)).
  unfold IN, OUT in *. simpl in *. rewrite (uwrap_small 32 (size f - _)) by lia.
  split_and!; lia.
Qed.

Lemma get_start_inv f w pl gl len :
  0 <= len < 2 ^ 32 -> inv (System f w RIdle pl gl) ->
  inv (System f w (RCopy (get_len f len) (get_first f (get_len f len)) []) pl gl).
Proof.
  intros Hlen I. destruct (inv_wf _ I) as [Hw Hl]. simpl in Hw, Hl.
  destruct (wf_inv f Hw) as (k & _ & Es & Hs & _ & Hq & Hmask & Hmod).
  destruct I as [I1 I2 I3 I4 I5 I6 I7 I8]. split; try done. simpl. fold (__kfifo_len f).
  set (n := Z.min len (__kfifo_len f)). cbn [fifo] in I3. rewrite Hmask, I3, Hmod.
  pose proof (Z.mod_pos_bound (OUT (System f w RIdle pl gl)) (size f) ltac:(lia)).
  unfold IN, OUT in *. simpl in *. rewrite (uwrap_small 32 (size f - _)) by lia. rewrite length_drop.
  split_and!; try lia; done.
Qed.

Lemma mem_write_1 b i x b' :
  mem_write b i [x] = Some b' -> 0 <= i < Z.of_nat (length b) /\ b' = <[Z.to_nat i := x]> b.
Proof.
  unfold mem_write. intros H. destruct (Z.leb_spec 0 i), (Z.leb_spec (i + Z.of_nat (length [x]))
    (Z.of_nat (length b))); simpl in *; simplify_eq.
  split; [lia |]. rewrite insert_take_drop by lia. do 2 f_equal. f_equal. lia.
Qed.

Lemma mem_read_1 b i x : mem_read b i 1 = Some [x] -> 0 <= i < Z.of_nat (length b) /\ b !! Z.to_nat i = Some x.
Proof.
  intros (H1 & _ & H2 & E)%mem_read_inv. split; [lia |]. unfold slice in E. change (Z.to_nat 1) with 1%nat in E.
  destruct (drop (Z.to_nat i) b) as [|y l] eqn:Ed; simplify_eq/=.
  rewrite <- (Nat.add_0_r (Z.to_nat i)), <- lookup_drop, Ed. done.
Qed.

Lemma put_byte_inv f r pl gl data len l j x b :
  j < len -> mem_read data j 1 = Some [x] -> mem_write (buffer f) (copy_pos (in_ f) (size f) l j) [x] = Some b ->
  inv (System f (WCopy data len l j) r pl gl) ->
  inv (System (Fifo b (size f) (in_ f) (out f)) (WCopy data len l (j + 1)) r pl gl).
Proof.
  intros Hj [_ Hx]%mem_read_1 [_ ->]%mem_write_1 [I1 I2 I3 I4 I5 I6 I7 I8]. simpl in *.
  destruct I7 as (Hj0 & Hroom & Hd & -> & Hc). set (i := IN (System f (WCopy data len _ j) r pl gl)) in *.
  set (o := OUT (System f (WCopy data len _ j) r pl gl)) in *. rewrite I2, (copy_pos_ok f i len j) by (done || lia).
  destruct I1 as [(k & Hk & Es) Hl]. assert (Hs : 0 < size f) by (rewrite Es; lia).
  pose proof (Z.mod_pos_bound (i + j) (size f) Hs) as Hp.
  assert (Hne : forall i', 0 <= i' - o -> i' < i + j -> slot (Fifo (<[Z.to_nat ((i + j) mod size f) := x]> (buffer f))
    (size f) (in_ f) (out f)) i' = slot f i').
  { intros i' H1 H2. unfold slot. simpl. apply list_lookup_insert_ne.
    pose proof (Z.mod_pos_bound i' (size f) Hs). pose proof (slots_differ f i' (i + j) Hs ltac:(lia)). lia. }
  rewrite <- I2. split; try done.
  - split; [by exists k |]. simpl. by rewrite length_insert.
  - simpl. intros i' Hi'. change (IN _) with i in Hi'. change (OUT _) with o in Hi'.
    rewrite <- I6 by done. rewrite I2, <- Hne by lia. by rewrite I2.
  - simpl. change (IN _) with i. change (OUT _) with o. split_and!; try done; try lia.
    intros d Hd'. destruct (Z.eq_dec d j) as [->|].
    + unfold slot. simpl. rewrite Hx. apply list_lookup_insert_eq. lia.
    + rewrite <- Hc by lia. rewrite <- Hne by lia. by rewrite I2.
Qed.

Lemma put_end_inv f r pl gl data len l :
  inv (System f (WCopy data len l len) r pl gl) ->
  inv (System (Fifo (buffer f) (size f) (u32 (in_ f + len)) (out f)) WIdle r (pl ++ take (Z.to_nat len) data) gl).
Proof.
  intros [I1 I2 I3 I4 I5 I6 I7 I8]. simpl in *. destruct I7 as (Hj0 & Hroom & Hd & -> & Hc).
  unfold IN, OUT in *. simpl in *. split; unfold IN, OUT; simpl; rewrite ?length_app, ?length_take; try done.
  - rewrite I2. unfold uwrap. rewrite Zplus_mod_idemp_l. f_equal. lia.
  - lia.
  - rewrite take_app_le by lia. done.
  - intros i Hi. destruct (Z.ltb_spec i (Z.of_nat (length pl))).
    + rewrite lookup_app_l by lia. apply I6. lia.
    + rewrite lookup_app_r by lia. rewrite lookup_take_lt by lia. specialize (Hc (i - Z.of_nat (length pl)) ltac:(lia)).
      replace (Z.of_nat (length pl) + (i - Z.of_nat (length pl))) with i in Hc by lia. unfold slot in *. simpl. rewrite Hc.
      f_equal. lia.
  - rewrite drop_app_le by lia. destruct r as [|rl l' got]; [done |]. destruct I8 as (H1 & H2 & H3 & H4). simpl.
    rewrite length_app. split; [lia |]. split; [done |]. split; [| done]. rewrite take_app_le by lia. done.
Qed.

Lemma get_byte_inv f w pl gl len l got x :
  Z.of_nat (length got) < len ->
  mem_read (buffer f) (copy_pos (out f) (size f) l (Z.of_nat (length got))) 1 = Some [x] ->
  inv (System f w (RCopy len l got) pl gl) -> inv (System f w (RCopy len l (got ++ [x])) pl gl).
Proof.
  intros Hg [_ Hx]%mem_read_1 [I1 I2 I3 I4 I5 I6 I7 I8]. split; try done. unfold IN, OUT in *. simpl in *.
  destruct I8 as (H1 & H2 & H3 & ->). rewrite length_app. simpl. split; [done |]. split; [lia |]. split; [| done].
  rewrite length_drop in H1. rewrite I3, (copy_pos_ok f (Z.of_nat (length gl)) len) in Hx by (done || lia).
  specialize (I6 (Z.of_nat (length gl) + Z.of_nat (length got)) ltac:(lia)). unfold slot in I6. rewrite Hx in I6.
  rewrite Nat.add_1_r, (take_S_r _ _ x); [by rewrite <- H3 |]. rewrite lookup_drop, I6. f_equal. lia.
Qed.

Lemma get_end_inv f w pl gl len l got :
  Z.of_nat (length got) = len -> inv (System f w (RCopy len l got) pl gl) ->
  inv (System (Fifo (buffer f) (size f) (in_ f) (u32 (out f + len))) w RIdle pl (gl ++ got)).
Proof.
  intros Hg [I1 I2 I3 I4 I5 I6 I7 I8]. simpl in *. destruct I8 as (H1 & H2 & H3 & _). rewrite length_drop in H1.
  unfold IN, OUT in *. simpl in *. split; unfold IN, OUT; simpl; rewrite ?length_app; try done.
  - rewrite I3. unfold uwrap. rewrite Zplus_mod_idemp_l. f_equal. lia.
  - lia.
  - rewrite <- take_take_drop, <- I5, <- H3. done.
  - intros i Hi. apply I6. lia.
  - destruct w as [|data wl l' j]; [done |]. simpl in *. destruct I7 as (? & ? & ? & ? & ?). split_and!; done || lia.
Qed.

Lemma kfifo_step_inv s s' : inv s -> step s s' -> inv s'.
Proof.
  intros I H. destruct H.
  - by apply put_start_inv.
  - by eapply put_byte_inv.
  - by eapply put_end_inv.
  - by apply get_start_inv.
  - by eapply get_byte_inv.
  - by eapply get_end_inv.
Qed.

Lemma kfifo_reachable_inv s : reachable s -> inv s.
Proof. induction 1 as [s H | s s' _ IH H]; [by apply initial_inv | by eapply kfifo_step_inv]. Qed.

(** *** What the invariant gives *)

Lemma inv_contents s : inv s -> put_log s = got_log s ++ contents (fifo s).
Proof.
  intros I. destruct (inv_wf s I) as [Hw Hl]. destruct (wf_inv _ Hw) as (k & _ & _ & Hs & _ & _ & _ & Hmod).
  rewrite <- (take_drop (length (got_log s)) (put_log s)) at 1. rewrite <- (inv_log s I). f_equal.
  pose proof (inv_room s I) as Hr. unfold IN, OUT in *. symmetry. apply contents_eq; [rewrite length_drop; lia |].
  intros i Hi. rewrite lookup_drop. replace (length (got_log s) + Z.to_nat i)%nat with (Z.to_nat (OUT s + i))
    by (unfold OUT; lia).
  rewrite <- (inv_slots s I) by (unfold IN, OUT; lia). unfold slot, cell. rewrite (inv_out s I).
  rewrite <- (Zplus_mod_idemp_l (u32 (OUT s))), Hmod, Zplus_mod_idemp_l.
  pose proof (Z.mod_pos_bound (OUT s + i) (size (fifo s)) ltac:(lia)).
  destruct (lookup_lt_is_Some_2 (buffer (fifo s)) (Z.to_nat ((OUT s + i) mod size (fifo s)))) as [x ->]; [| done].
  pose proof (inv_shape s I) as [_ ?]. lia.
Qed.

Lemma mem_write_1_ok b i x : 0 <= i < Z.of_nat (length b) -> is_Some (mem_write b i [x]).
Proof. intros Hi. unfold mem_write. simpl. zbool. simpl. eauto. Qed.

Lemma mem_read_1_ok b i : 0 <= i < Z.of_nat (length b) -> exists x, mem_read b i 1 = Some [x].
Proof.
  intros Hi. rewrite mem_read_Some by lia. pose proof (length_slice b i 1 ltac:(lia) ltac:(lia) ltac:(lia)) as Hl.
  destruct (slice b i 1) as [|x [|]]; simpl in Hl; try lia. eauto.
Qed.

Lemma writer_progress s data len l j :
  inv s -> wr s = WCopy data len l j -> j <> len -> exists s', step s s' /\ wr s' = WCopy data len l (j + 1).
Proof.
  intros [I1 I2 I3 I4 I5 I6 I7 I8] Ew Hj. rewrite Ew in I7. destruct I7 as (Hj0 & Hroom & Hd & El & _).
  destruct s as [f w r pl gl]. simpl in *. subst w.
  destruct (mem_read_1_ok data j) as [x Hx]; [lia |]. destruct I1 as [(k & Hk & Es) Hl].
  destruct (mem_write_1_ok (buffer f) (copy_pos (in_ f) (size f) l j) x) as [b Hb].
  { rewrite I2, El, copy_pos_ok; [| by split; [exists k |] | lia | lia]. rewrite Hl. apply Z.mod_pos_bound. rewrite Es. lia. }
  eexists. split; [eapply put_byte; [lia | exact Hx | exact Hb] | done].
Qed.

Lemma reader_progress s len l got :
  inv s -> rd s = RCopy len l got -> Z.of_nat (length got) <> len ->
  exists s' x, step s s' /\ rd s' = RCopy len l (got ++ [x]).
Proof.
  intros [I1 I2 I3 I4 I5 I6 I7 I8] Er Hg. rewrite Er in I8. destruct I8 as (H1 & H2 & _ & El).
  destruct s as [f w r pl gl]. simpl in *. subst r. rewrite length_drop in H1. unfold IN, OUT in I4. simpl in I4.
  destruct I1 as [(k & Hk & Es) Hl].
  destruct (mem_read_1_ok (buffer f) (copy_pos (out f) (size f) l (Z.of_nat (length got)))) as [x Hx].
  { rewrite I3, El, copy_pos_ok; [| by split; [exists k |] | lia | lia]. rewrite Hl. apply Z.mod_pos_bound. rewrite Es. lia. }
  eexists _, x. split; [eapply get_byte; [lia | exact Hx] | done].
Qed.

(** ** Properties *)

(** a FIFO is a bounded queue of bytes.  Allocation gives an empty one, of the least power of two that holds
    the bytes asked for, or fails and keeps no memory; put appends as many bytes as there is room for; get takes
    bytes off the front, as many as there are; reset empties it; and no access leaves the buffers.  This holds for
    all index values, across their wrap-around at 2^32. *)
Theorem kfifo_queue n kmalloc alloc :
  1 <= n <= 2 ^ 31 -> (forall m b, kmalloc m = Some b -> Z.of_nat (length b) = m) ->
  (exists k r freed, 0 <= k <= 31 /\ n <= 2 ^ k < 2 * n /\ kfifo_alloc n kmalloc alloc = Some (r, freed) /\
     match r with
     | inr f => wf f /\ contents f = [] /\ size f = 2 ^ k /\ freed = false
     | inl e => e = - ENOMEM /\
         (kmalloc (2 ^ k) = None /\ freed = false \/ is_Some (kmalloc (2 ^ k)) /\ alloc = false /\ freed = true)
     end) /\
  forall f, wf f ->
    kfifo_len f = Z.of_nat (length (contents f)) /\ kfifo_len f <= size f /\
    (wf (kfifo_reset f) /\ contents (kfifo_reset f) = []) /\
    (forall data len, 0 <= len < 2 ^ 32 -> len <= Z.of_nat (length data) ->
       let n := Z.min len (size f - kfifo_len f) in
       exists f', kfifo_put f data len = Some (n, f') /\ wf f' /\ size f' = size f /\
         contents f' = contents f ++ take (Z.to_nat n) data) /\
    (forall dst len, 0 <= len < 2 ^ 32 -> len <= Z.of_nat (length dst) ->
       let n := Z.min len (kfifo_len f) in
       exists f', kfifo_get f dst len = Some (n, take (Z.to_nat n) (contents f) ++ drop (Z.to_nat n) dst, f') /\
         wf f' /\ size f' = size f /\ contents f' = drop (Z.to_nat n) (contents f)).
Proof.
  intros Hn Hk. split; [by apply kfifo_alloc_ok |]. intros f Hw. destruct (wf_inv f Hw) as (k & Hk31 & Es & _ & Hb & Hq & _).
  split; [by rewrite length_contents |]. split; [apply Hq |]. split.
  { unfold kfifo_reset, __kfifo_reset. rewrite Es in *. by apply fresh_wf. }
  split; [intros; by apply put_refines | intros; by apply kfifo_get_refines].
Qed.

(** Eight bytes, of which the last two before the wrap-around of the indices hold data. *)
Definition sample_fifo : kfifo := Fifo [0; 0; 0; 0; 0; 0; 11; 22] 8 0 (2 ^ 32 - 2).

Lemma kfifo_queue_witness :
  contents sample_fifo = [11; 22] /\
  exists f', kfifo_put sample_fifo [1; 2; 3; 4; 5; 6; 7] 7 = Some (6, f') /\ contents f' = [11; 22; 1; 2; 3; 4; 5; 6].
Proof.
  split; [by vm_compute |].
  destruct (kfifo_queue 1 (fun m => if 0 <=? m then Some (replicate (Z.to_nat m) 0) else None) true) as [_ H].
  - lia.
  - intros m b E. destruct (Z.leb_spec 0 m); [| done]. injection E as <-. rewrite length_replicate. lia.
  - destruct (H sample_fifo) as (_ & _ & _ & Hput & _).
    + split; [by exists 3 |]. vm_compute. intuition congruence.
    + destruct (Hput [1; 2; 3; 4; 5; 6; 7] 7) as (f' & E & _ & _ & Ec); [lia | simpl; lia |].
      exists f'. split; [exact E |]. exact Ec.
Defined.

(** C26: with one reader and one writer, no lock is needed: in every interleaving of the two, with bytes copied one
    by one, the bytes got are those put, in order and without loss; what is between them is what the FIFO holds;
    and the next byte copied by either side lies inside its buffers, so neither side gets stuck. *)
Theorem kfifo_lock_free s :
  reachable s ->
  put_log s = got_log s ++ contents (fifo s) /\ Z.of_nat (length (contents (fifo s))) <= size (fifo s) /\
  (forall data len l j, wr s = WCopy data len l j -> j <> len ->
     exists s', step s s' /\ wr s' = WCopy data len l (j + 1)) /\
  (forall len l got, rd s = RCopy len l got -> Z.of_nat (length got) <> len ->
     exists s' x, step s s' /\ rd s' = RCopy len l (got ++ [x])).
Proof.
  intros I%kfifo_reachable_inv. destruct (inv_wf s I) as [Hw Hl]. pose proof (inv_room s I) as Hr.
  destruct (wf_inv _ Hw) as (k & Hk & Es & Hs & Hb & Hq & _ & Hmod).
  split; [by apply inv_contents |]. split; [rewrite length_contents; lia |]. split.
  - intros data len l j Ew Hj. by eapply writer_progress.
  - intros len l got Er Hg. by eapply reader_progress.
Qed.

(** A reader that starts while the writer is copying gets nothing yet. *)
Lemma kfifo_lock_free_witness :
  exists s, reachable s /\ rd s = RCopy 0 0 [] /\ put_log s = [9] /\ contents (fifo s) = [9] /\
    put_log s = got_log s ++ contents (fifo s).
Proof.
  assert (R : reachable (System (Fifo [9; 0] 2 1 0) WIdle (RCopy 0 0 []) [9] [])).
  { eapply reach_step; [| apply (put_end (Fifo [9; 0] 2 0 0) (RCopy 0 0 []) [] [] [9] 1 1)].
    eapply reach_step; [| apply (get_start (Fifo [9; 0] 2 0 0) (WCopy [9] 1 1 1) [] [] 5); lia].
    eapply reach_step; [| eapply (put_byte (Fifo [0; 0] 2 0 0) RIdle [] [] [9] 1 1 0 9 [9; 0]);
      [lia | reflexivity | reflexivity]].
    eapply reach_step; [| apply (put_start (Fifo [0; 0] 2 0 0) RIdle [] [] [9] 1); [lia | simpl; lia]].
    apply reach_init. exists [0; 0], 1. by split_and!. }
  eexists. split; [exact R |]. split; [reflexivity |]. split; [reflexivity |]. split; [reflexivity |].
  apply (kfifo_lock_free _ R).
Defined.

End Kfifo.
