(* ===== verification/Tasks.v ===== *)
(** * Counting tasks by their state

    The users of a semaphore are a map from pids to states; the lemmas here say
    how the number of tasks whose state passes a test changes with the map. *)

From S2P Require Import Prelude.

Module Tasks.

Section count.
Context {A : Type} (P : A -> bool).

Definition count (m : gmap Z A) : Z := Z.of_nat (size (filter (fun kv => P kv.2 = true) m)).

Lemma count_insert_new m t st : m !! t = None -> count (<[t := st]> m) = count m + Z.b2z (P st).
Proof.
  intros Hm. unfold count. destruct (P st) eqn:E.
  - rewrite map_filter_insert_True by done. rewrite map_size_insert_None; [simpl; lia |].
    apply map_lookup_filter_None. auto.
  - rewrite map_filter_insert_False, delete_id by (simpl; congruence || done). simpl. lia.
Qed.

Lemma count_delete m t st : m !! t = Some st -> count (delete t m) = count m - Z.b2z (P st).
Proof.
  intros Hm. rewrite <- (insert_delete_id m t st) at 2 by done. rewrite count_insert_new by apply lookup_delete_eq. lia.
Qed.

Lemma count_update m t st st' :
  m !! t = Some st -> count (<[t := st']> m) = count m - Z.b2z (P st) + Z.b2z (P st').
Proof.
  intros Hm. rewrite <- insert_delete_eq, count_insert_new by apply lookup_delete_eq. by rewrite (count_delete _ _ st).
Qed.

Lemma count_nonneg m : 0 <= count m.
Proof. unfold count. lia. Qed.

Lemma count_pos m : 0 < count m -> exists t st, m !! t = Some st /\ P st = true.
Proof.
  intros H. destruct (decide (filter (fun kv => P kv.2 = true) m = ∅)) as [E|E].
  - unfold count in H. rewrite E, map_size_empty in H. lia.
  - apply map_choose in E as (t & st & [H1 H2]%map_lookup_filter_Some). eauto.
Qed.

Lemma count_two m t t' st st' :
  m !! t = Some st -> m !! t' = Some st' -> P st = true -> P st' = true -> t <> t' -> 2 <= count m.
Proof.
  intros H H' HP HP' Hne. pose proof (count_delete m t st H).
  pose proof (count_delete (delete t m) t' st'). rewrite lookup_delete_ne in * by done.
  pose proof (count_nonneg (delete t' (delete t m))). rewrite HP, HP' in *. simpl in *. specialize (H1 H'). lia.
Qed.

Lemma count_bound m n : 0 <= n -> (forall t, is_Some (m !! t) -> 0 < t < n) -> count m < Z.max 1 n.
Proof.
  intros Hn H. unfold count.
  assert (Hs : filter (fun kv => P kv.2 = true) m ⊆ m) by apply map_filter_subseteq.
  apply map_subseteq_size in Hs. rewrite <- (size_dom m) in Hs.
  assert (dom m ⊆ (list_to_set (seqZ 1 (n - 1)) : gset Z)) as Hd.
  { intros t Ht%elem_of_dom. apply elem_of_list_to_set, elem_of_seqZ. specialize (H t Ht). lia. }
  apply subseteq_size in Hd. rewrite size_list_to_set, length_seqZ in Hd by apply NoDup_seqZ. lia.
Qed.
End count.

(** What the tasks of a map have between them. *)
Section total.
Context {A : Type} (w : A -> Z).

Definition total (m : gmap Z A) : Z := map_fold (fun _ a acc => w a + acc) 0 m.

Lemma total_insert_new m t a : m !! t = None -> total (<[t := a]> m) = w a + total m.
Proof. intros Hm. apply (map_fold_insert_L (fun _ a acc => w a + acc)); [intros; lia | done]. Qed.

Lemma total_delete m t a : m !! t = Some a -> total (delete t m) = total m - w a.
Proof.
  intros Hm. rewrite <- (insert_delete_id m t a) at 2 by done. rewrite total_insert_new by apply lookup_delete_eq. lia.
Qed.

Lemma total_update m t a b : m !! t = Some a -> total (<[t := b]> m) = total m - w a + w b.
Proof.
  intros Hm. rewrite <- insert_delete_eq, total_insert_new by apply lookup_delete_eq. rewrite (total_delete _ _ a) by done. lia.
Qed.

Lemma total_nonneg m : (forall t a, m !! t = Some a -> 0 <= w a) -> 0 <= total m.
Proof.
  induction m as [|t a m Hm IH] using map_ind; intros H; [done |]. rewrite total_insert_new by done.
  assert (0 <= w a) by (apply (H t), lookup_insert_eq).
  assert (0 <= total m); [| lia]. apply IH. intros t' b Hb. apply (H t'). rewrite lookup_insert_ne; congruence.
Qed.

Lemma total_fmap m f : (forall a, w (f a) = w a) -> total (f <$> m) = total m.
Proof.
  intros Hf. induction m as [|t a m Hm IH] using map_ind; [done |].
  rewrite fmap_insert, !total_insert_new, IH, Hf by (rewrite ?lookup_fmap, ?Hm; done). done.
Qed.
End total.
End Tasks.
