(* ===== verification/RwSem.v ===== *)
(** * Read-write semaphores (lib/rwsem-spinlock.c)

    The semaphore is a count of active readers, or -1 for a writer, and a queue
    of waiters.  Every operation runs under the semaphore's spinlock, so it is
    one step; the tasks that use the semaphore, asleep or awake, are the state
    of a transition system whose reachable states are shown to exclude readers
    and writers and to leave no waiter without a holder to wake it. *)

From S2P Require Import Prelude Tasks.

Module RwSem.
Import Tasks.

Abbreviation RWSEM_WAITING_FOR_READ := 0x00000001 (only parsing).
Abbreviation RWSEM_WAITING_FOR_WRITE := 0x00000002 (only parsing).

(** Tasks are named by their pid. *)
Record rwsem_waiter := Waiter { task : Z; flags : Z }.
Record rw_semaphore := Sem { activity : Z; wait_list : list rwsem_waiter }.

Definition __init_rwsem : rw_semaphore := Sem 0 [].

Abbreviation for_write w := (negb (flags w .& RWSEM_WAITING_FOR_WRITE =? 0)) (only parsing).
Abbreviation for_read w := (negb (flags w .& RWSEM_WAITING_FOR_READ =? 0)) (only parsing).

Definition list_empty {A} (l : list A) : bool := match l with [] => true | _ => false end.

(** The loop at [dont_wake_writers]: the waiters that stay and the tasks woken. *)
Fixpoint wake_readers (l : list rwsem_waiter) : list rwsem_waiter * list Z :=
  match l with
  | [] => ([], [])
  | w :: l =>
      if for_read w then
        let '(l, woken) := wake_readers l in (l, task w :: woken)
      else (w :: l, [])
  end.

(** The semaphore and the tasks whose [waiter->task] is cleared, in the order in
    which they are woken.  [None]: there is no first waiter. *)
Definition __rwsem_do_wake (sem : rw_semaphore) (wakewrite : bool) : option (rw_semaphore * list Z) :=
  match wait_list sem with
  | [] => None
  | w :: l =>
      if wakewrite && for_write w then Some (Sem (-1) l, [task w])
      else if negb wakewrite && for_write w then Some (sem, [])
      else
        let '(rest, woken) := wake_readers (w :: l) in
        Some (Sem (s32 (activity sem + Z.of_nat (length woken))) rest, woken)
  end.

Definition __rwsem_wake_one_writer (sem : rw_semaphore) : option (rw_semaphore * list Z) :=
  match wait_list sem with
  | [] => None
  | w :: l => Some (Sem (-1) l, [task w])
  end.

(** Up to the loop that waits: [true] if the lock was granted at once. *)
Definition __down_read (sem : rw_semaphore) (tsk : Z) : rw_semaphore * bool :=
  if (activity sem >=? 0) && list_empty (wait_list sem) then
    (Sem (s32 (activity sem + 1)) (wait_list sem), true)
  else (Sem (activity sem) (wait_list sem ++ [Waiter tsk RWSEM_WAITING_FOR_READ]), false).

Definition __down_read_trylock (sem : rw_semaphore) : rw_semaphore * Z :=
  if (activity sem >=? 0) && list_empty (wait_list sem) then
    (Sem (s32 (activity sem + 1)) (wait_list sem), 1)
  else (sem, 0).

Definition __down_write_nested (sem : rw_semaphore) (tsk : Z) : rw_semaphore * bool :=
  if (activity sem =? 0) && list_empty (wait_list sem) then (Sem (-1) (wait_list sem), true)
  else (Sem (activity sem) (wait_list sem ++ [Waiter tsk RWSEM_WAITING_FOR_WRITE]), false).

Definition __down_write (sem : rw_semaphore) (tsk : Z) : rw_semaphore * bool := __down_write_nested sem tsk.

Definition __down_write_trylock (sem : rw_semaphore) : rw_semaphore * Z :=
  if (activity sem =? 0) && list_empty (wait_list sem) then (Sem (-1) (wait_list sem), 1) else (sem, 0).

Definition __up_read (sem : rw_semaphore) : option (rw_semaphore * list Z) :=
  let sem := Sem (s32 (activity sem - 1)) (wait_list sem) in
  if (activity sem =? 0) && negb (list_empty (wait_list sem)) then __rwsem_wake_one_writer sem else Some (sem, []).

Definition __up_write (sem : rw_semaphore) : option (rw_semaphore * list Z) :=
  let sem := Sem 0 (wait_list sem) in
  if negb (list_empty (wait_list sem)) then __rwsem_do_wake sem true else Some (sem, []).

Definition __downgrade_write (sem : rw_semaphore) : option (rw_semaphore * list Z) :=
  let sem := Sem 1 (wait_list sem) in
  if negb (list_empty (wait_list sem)) then __rwsem_do_wake sem false else Some (sem, []).

(** ** The tasks *)

(** A task that uses the semaphore: asleep in the waiting loop, with
    [waiter.task] set; past it, [waiter.task] being clear, but still in the loop; or
    returned from the call with the lock. *)
Inductive tstate := Sleeping (flags : Z) | Woken (flags : Z) | Reading | Writing.

#[export] Instance tstate_eq_dec : EqDecision tstate.
Proof. solve_decision. Defined.

Record system := System { sem : rw_semaphore; tasks : gmap Z tstate }.

Abbreviation PID_MAX_LIMIT := (4 * 1024 * 1024) (only parsing).

(** [waiter->task = NULL] for the waiters of the tasks [woken]. *)
Definition clear_task (st : tstate) : tstate := match st with Sleeping f => Woken f | st => st end.
Definition wake_all (woken : list Z) (m : gmap Z tstate) : gmap Z tstate := foldl (fun m t => alter clear_task t m) m woken.

Inductive step : system -> system -> Prop :=
  | step_down_read s t sem' granted :
      0 < t < PID_MAX_LIMIT -> tasks s !! t = None -> __down_read (sem s) t = (sem', granted) ->
      step s (System sem' (<[t := if granted : bool then Reading else Sleeping RWSEM_WAITING_FOR_READ]> (tasks s)))
  | step_down_write s t sem' granted :
      0 < t < PID_MAX_LIMIT -> tasks s !! t = None -> __down_write (sem s) t = (sem', granted) ->
      step s (System sem' (<[t := if granted : bool then Writing else Sleeping RWSEM_WAITING_FOR_WRITE]> (tasks s)))
  | step_read_trylock s t sem' ret :
      0 < t < PID_MAX_LIMIT -> tasks s !! t = None -> __down_read_trylock (sem s) = (sem', ret) ->
      step s (System sem' (if ret =? 1 then <[t := Reading]> (tasks s) else tasks s))
  | step_write_trylock s t sem' ret :
      0 < t < PID_MAX_LIMIT -> tasks s !! t = None -> __down_write_trylock (sem s) = (sem', ret) ->
      step s (System sem' (if ret =? 1 then <[t := Writing]> (tasks s) else tasks s))
  | step_leave_loop s t f :
      tasks s !! t = Some (Woken f) ->
      step s (System (sem s) (<[t := if f =? RWSEM_WAITING_FOR_READ then Reading else Writing]> (tasks s)))
  | step_up_read s t sem' woken :
      tasks s !! t = Some Reading -> __up_read (sem s) = Some (sem', woken) ->
      step s (System sem' (wake_all woken (delete t (tasks s))))
  | step_up_write s t sem' woken :
      tasks s !! t = Some Writing -> __up_write (sem s) = Some (sem', woken) ->
      step s (System sem' (wake_all woken (delete t (tasks s))))
  | step_downgrade s t sem' woken :
      tasks s !! t = Some Writing -> __downgrade_write (sem s) = Some (sem', woken) ->
      step s (System sem' (wake_all woken (<[t := Reading]> (tasks s)))).

Inductive reachable : system -> Prop :=
  | reach_init : reachable (System __init_rwsem ∅)
  | reach_step s s' : reachable s -> step s s' -> reachable s'.

(** ** The invariant *)

(** Who has the lock: those who returned with it, and those who were given it
    but have not left the loop. *)
Definition holds_read (st : tstate) : bool :=
  match st with Reading => true | Woken f => f =? RWSEM_WAITING_FOR_READ | _ => false end.
Definition holds_write (st : tstate) : bool :=
  match st with Writing => true | Woken f => negb (f =? RWSEM_WAITING_FOR_READ) | _ => false end.
Definition sleeping (st : tstate) : bool := match st with Sleeping _ => true | _ => false end.

Definition readers (m : gmap Z tstate) : Z := count holds_read m.
Definition writers (m : gmap Z tstate) : Z := count holds_write m.

(** The queue has the sleeping tasks, once each. *)
Record queue (m : gmap Z tstate) (l : list rwsem_waiter) : Prop := Queue {
  q_flags : Forall (fun w => flags w = RWSEM_WAITING_FOR_READ \/ flags w = RWSEM_WAITING_FOR_WRITE) l;
  q_nodup : NoDup (task <$> l);
  q_tasks : forall t f, m !! t = Some (Sleeping f) <-> Waiter t f ∈ l
}.

Definition lock_ok (a : Z) (m : gmap Z tstate) : Prop :=
  a = -1 /\ writers m = 1 /\ readers m = 0 \/ a = readers m /\ writers m = 0.

(** Waiters wait behind a writer: behind one that holds the lock, or the first
    waiter is one and readers hold it. *)
Definition head_ok (a : Z) (l : list rwsem_waiter) : Prop :=
  0 <= a -> match l with [] => True | w :: _ => for_write w = true /\ 0 < a end.

Record inv (s : system) : Prop := Inv {
  i_queue : queue (tasks s) (wait_list (sem s));
  i_lock : lock_ok (activity (sem s)) (tasks s);
  i_head : head_ok (activity (sem s)) (wait_list (sem s));
  i_pids : forall t, is_Some (tasks s !! t) -> 0 < t < PID_MAX_LIMIT
}.

Lemma queue_enqueue m l t f :
  queue m l -> m !! t = None -> f = RWSEM_WAITING_FOR_READ \/ f = RWSEM_WAITING_FOR_WRITE ->
  queue (<[t := Sleeping f]> m) (l ++ [Waiter t f]).
Proof.
  intros [Hf Hn Hq] Hm Hfl. split.
  - apply Forall_app. split; [done |]. by constructor.
  - rewrite fmap_app. apply NoDup_app. split; [done |]. split; [| apply NoDup_singleton].
    intros t' Ht' ->%list_elem_of_singleton. simpl in Ht'. apply list_elem_of_fmap in Ht' as ([t0 f0] & -> & Hw).
    apply Hq in Hw. simpl in *. congruence.
  - intros t' f'. rewrite elem_of_app, <- Hq, list_elem_of_singleton.
    destruct (decide (t' = t)) as [->|Hne]; [rewrite lookup_insert_eq | rewrite lookup_insert_ne by done]; rewrite ?Hm;
      naive_solver.
Qed.

Lemma queue_insert m l t st :
  queue m l -> (forall f, m !! t <> Some (Sleeping f)) -> sleeping st = false -> queue (<[t := st]> m) l.
Proof.
  intros [Hf Hn Hq] Hm Hst. split; [done | done |]. intros t' f'. rewrite <- Hq.
  destruct (decide (t' = t)) as [->|Hne]; [rewrite lookup_insert_eq | by rewrite lookup_insert_ne by done].
  split; [intros [= ->]; done | intros H; by destruct (Hm f')].
Qed.

Lemma queue_delete m l t :
  queue m l -> (forall f, m !! t <> Some (Sleeping f)) -> queue (delete t m) l.
Proof.
  intros [Hf Hn Hq] Hm. split; [done | done |]. intros t' f'. rewrite <- Hq.
  destruct (decide (t' = t)) as [->|Hne]; [rewrite lookup_delete_eq | by rewrite lookup_delete_ne by done].
  split; [done | intros H; by destruct (Hm f')].
Qed.

Lemma wake_all_lookup woken : forall m t,
  wake_all woken m !! t = if decide (t ∈ woken) then clear_task <$> m !! t else m !! t.
Proof.
  induction woken as [|t0 woken IH]; intros m t; [done |]. cbn [wake_all foldl]. fold (wake_all woken (alter clear_task t0 m)).
  rewrite IH. destruct (decide (t = t0)) as [->|Hne].
  - rewrite lookup_alter_eq. rewrite (decide_True (P := t0 ∈ t0 :: woken)) by by left.
    destruct (decide (t0 ∈ woken)); [| done]. by destruct (m !! t0) as [[]|].
  - rewrite lookup_alter_ne by done. destruct (decide (t ∈ woken)) as [H|H].
    + rewrite decide_True by by right. done.
    + rewrite decide_False; [done |]. by intros [?|?]%elem_of_cons.
Qed.

Lemma queue_wake m ws rest : queue m (ws ++ rest) -> queue (wake_all (task <$> ws) m) rest.
Proof.
  intros [Hf Hn Hq]. rewrite fmap_app in Hn. apply NoDup_app in Hn as (Hn1 & Hd & Hn2).
  split; [by apply Forall_app in Hf as [_ ?] | done |]. intros t f. rewrite wake_all_lookup.
  assert (Hin : forall w, w ∈ ws -> task w ∈ task <$> ws) by (intros; by apply list_elem_of_fmap_2).
  assert (Hin' : forall w, w ∈ rest -> task w ∈ task <$> rest) by (intros; by apply list_elem_of_fmap_2).
  destruct (decide (t ∈ task <$> ws)) as [Ht|Ht].
  - split; [by destruct (m !! t) as [[]|] |]. intros Hr. destruct (Hd t Ht). by apply (Hin' (Waiter t f)).
  - rewrite Hq, elem_of_app. split; [| by right]. intros [Hw|]; [| done]. destruct Ht. by apply (Hin (Waiter t f)).
Qed.

(** Waking waiters of one kind moves them from asleep to having the lock. *)
Lemma count_wake P f ws : forall m rest,
  queue m (ws ++ rest) -> Forall (fun w => flags w = f) ws ->
  count P (wake_all (task <$> ws) m) = count P m + Z.of_nat (length ws) * (Z.b2z (P (Woken f)) - Z.b2z (P (Sleeping f))).
Proof.
  induction ws as [|w ws IH]; intros m rest Hq Hf; [simpl; lia |]. apply Forall_cons in Hf as [Hw Hf].
  pose proof (queue_wake m [w] (ws ++ rest) Hq) as Hq'. rewrite fmap_cons. cbn [wake_all foldl] in *.
  fold (wake_all (task <$> ws) (alter clear_task (task w) m)). rewrite (IH _ rest) by done.
  assert (Hm : m !! task w = Some (Sleeping f)).
  { apply (q_tasks _ _ Hq). rewrite <- Hw. destruct w. by left. }
  assert (alter clear_task (task w) m = <[task w := Woken f]> m) as ->.
  { apply map_eq. intros t. destruct (decide (t = task w)) as [->|].
    - by rewrite lookup_alter_eq, lookup_insert_eq, Hm.
    - by rewrite lookup_alter_ne, lookup_insert_ne by done. }
  rewrite (count_update _ _ _ _ _ Hm). simpl length. lia.
Qed.

(** ** The steps keep the invariant *)

Definition pids_ok (m : gmap Z tstate) : Prop := forall t, is_Some (m !! t) -> 0 < t < PID_MAX_LIMIT.

Lemma pids_insert m t st : pids_ok m -> 0 < t < PID_MAX_LIMIT -> pids_ok (<[t := st]> m).
Proof. intros H Ht t' [x [[-> _]|[_ ?]]%lookup_insert_Some]; eauto. Qed.

Lemma pids_delete m t : pids_ok m -> pids_ok (delete t m).
Proof. intros H t' [x [_ ?]%lookup_delete_Some]. eauto. Qed.

Lemma pids_wake woken m : pids_ok m -> pids_ok (wake_all woken m).
Proof.
  intros H t. rewrite wake_all_lookup. destruct (decide _); [| apply H]. rewrite fmap_is_Some. apply H.
Qed.

Lemma pids_count P m : pids_ok m -> count P m < PID_MAX_LIMIT.
Proof.
  intros H. pose proof (count_bound P m PID_MAX_LIMIT) as Hb. specialize (Hb ltac:(lia) H). lia.
Qed.

(** The activity count never comes near the range of its type. *)
Lemma s32_readers m : pids_ok m -> s32 (readers m) = readers m.
Proof.
  intros H. pose proof (pids_count holds_read m H). pose proof (count_nonneg holds_read m).
  unfold readers in *. rewrite swrap_small; lia.
Qed.

Definition kind_ok (w : rwsem_waiter) : Prop := flags w = RWSEM_WAITING_FOR_READ \/ flags w = RWSEM_WAITING_FOR_WRITE.

Lemma for_write_spec w : kind_ok w -> for_write w = true <-> flags w = RWSEM_WAITING_FOR_WRITE.
Proof. intros [E|E]; rewrite E; done. Qed.

Lemma for_write_read w : kind_ok w -> for_write w = negb (for_read w).
Proof. intros [E|E]; rewrite E; done. Qed.

Lemma wake_readers_spec l :
  Forall kind_ok l ->
  exists ws rest, wake_readers l = (rest, task <$> ws) /\ l = ws ++ rest /\
    Forall (fun w => flags w = RWSEM_WAITING_FOR_READ) ws /\
    match rest with [] => True | w :: _ => for_write w = true end.
Proof.
  induction 1 as [|w l Hw Hl (ws & rest & E & -> & Hws & Hr)]; [by exists [], [] |]. simpl.
  destruct (for_read w) eqn:Er.
  - rewrite E. exists (w :: ws), rest. split_and!; try done. constructor; [| done].
    destruct Hw as [|E2]; [done |]. by rewrite E2 in Er.
  - exists [], (w :: ws ++ rest). split_and!; try done. by rewrite for_write_read, Er.
Qed.

(** What a release leaves: the tasks woken are those of the first waiters [ws]. *)
Definition handed_over (m : gmap Z tstate) (l : list rwsem_waiter) (res : option (rw_semaphore * list Z)) : Prop :=
  exists ws sem', res = Some (sem', task <$> ws) /\ l = ws ++ wait_list sem' /\
    let m' := wake_all (task <$> ws) m in
    lock_ok (activity sem') m' /\ head_ok (activity sem') (wait_list sem').

Lemma hand_to_writer m w l :
  queue m (w :: l) -> flags w = RWSEM_WAITING_FOR_WRITE -> readers m = 0 -> writers m = 0 ->
  handed_over m (w :: l) (Some (Sem (-1) l, [task w])).
Proof.
  intros Hq Hw Hr Hwr. exists [w], (Sem (-1) l). split; [done |]. split; [done |].
  split; [| intros H; simpl in H; lia]. left.
  assert (Hf : Forall (fun w => flags w = RWSEM_WAITING_FOR_WRITE) [w]) by by constructor.
  unfold readers, writers in *. split; [done |].
  split; [rewrite (count_wake holds_write _ [w] m l Hq Hf), Hwr | rewrite (count_wake holds_read _ [w] m l Hq Hf), Hr]; done.
Qed.

Lemma do_wake_ok m l wakewrite a :
  queue m l -> l <> [] -> pids_ok m -> a = readers m -> writers m = 0 -> wakewrite = (a =? 0) ->
  handed_over m l (__rwsem_do_wake (Sem a l) wakewrite).
Proof.
  intros Hq Hl Hp Ha Hw Hww. pose proof (count_nonneg holds_read m) as Hnn. fold (readers m) in Hnn.
  unfold __rwsem_do_wake. destruct l as [|w l]; [done |]. simpl wait_list.
  pose proof (q_flags _ _ Hq) as Hk. apply Forall_cons in Hk as [Hkw Hkl].
  destruct (for_write w) eqn:Ew.
  - destruct (Z.eqb_spec a 0) as [E0|E0]; subst wakewrite; simpl.
    + apply hand_to_writer; try done; [by apply for_write_spec | lia].
    + exists [], (Sem a (w :: l)). split; [done |]. split; [done |]. simpl. split; [by right |]. red. split; [done | lia].
  - rewrite andb_false_r, andb_false_r.
    destruct (wake_readers_spec (w :: l)) as (ws & rest & E & El & Hws & Hr); [by constructor |].
    rewrite E, El in *. pose proof (queue_wake m ws rest Hq) as Hq'.
    pose proof (count_wake holds_read _ ws m rest Hq Hws) as Cr. pose proof (count_wake holds_write _ ws m rest Hq Hws) as Cw.
    simpl in Cr, Cw. fold (readers m) (readers (wake_all (task <$> ws) m)) in Cr.
    fold (writers m) (writers (wake_all (task <$> ws) m)) in Cw. rewrite Hw in Cw.
    assert (Es : s32 (a + Z.of_nat (length (task <$> ws))) = readers (wake_all (task <$> ws) m)).
    { rewrite <- s32_readers by by apply pids_wake. f_equal. rewrite length_fmap. lia. }
    exists ws, (Sem (s32 (a + Z.of_nat (length (task <$> ws)))) rest). simpl. rewrite Es.
    split; [done |]. split; [done |]. split; [right; split; [done | lia] |].
    intros _. destruct rest as [|w' rest]; [done |]. split; [done |].
    destruct ws as [|w0 ws]; [| rewrite Cr; simpl length; lia]. simpl in El. injection El as <- _. congruence.
Qed.

Lemma handed_over_inv m l res sem' woken :
  queue m l -> pids_ok m -> handed_over m l res -> res = Some (sem', woken) -> inv (System sem' (wake_all woken m)).
Proof.
  intros Hq Hp (ws & s' & E & El & Hlock & Hhead) Hres. rewrite E in Hres. injection Hres as <- <-.
  rewrite El in Hq. split; simpl; try done; [by apply queue_wake | by apply pids_wake].
Qed.

(** A release by a task that has the lock, in a state that is otherwise fine. *)
Lemma up_read_ok s t :
  inv s -> tasks s !! t = Some Reading ->
  queue (delete t (tasks s)) (wait_list (sem s)) /\ pids_ok (delete t (tasks s)) /\
  handed_over (delete t (tasks s)) (wait_list (sem s)) (__up_read (sem s)).
Proof.
  intros [Hq Hl Hh Hp] Ht. destruct s as [[a l] m]. simpl in *.
  assert (Hq' : queue (delete t m) l) by (apply queue_delete; [done | congruence]).
  assert (Hp' : pids_ok (delete t m)) by by apply pids_delete. split; [done |]. split; [done |].
  pose proof (count_delete holds_read m t Reading Ht) as Cr. pose proof (count_delete holds_write m t Reading Ht) as Cw.
  fold (readers m) (readers (delete t m)) in Cr. fold (writers m) (writers (delete t m)) in Cw. simpl in Cr, Cw.
  pose proof (count_nonneg holds_read (delete t m)) as Hnn. fold (readers (delete t m)) in Hnn.
  destruct Hl as [(_ & _ & ?)|[-> Hw]]; [lia |]. unfold __up_read. simpl.
  replace (readers m - 1) with (readers (delete t m)) by lia. rewrite s32_readers by done.
  destruct (Z.eqb_spec (readers (delete t m)) 0) as [E0|E0]; [destruct l as [|w l] |]; simpl.
  - exists [], (Sem (readers (delete t m)) []). do 2 (split; [done |]). simpl. split; [right; lia | done].
  - assert (Hww : for_write w = true) by (apply Hh; lia). apply hand_to_writer; [done | | done | lia].
    apply for_write_spec; [| done]. exact (Forall_inv (q_flags _ _ Hq')).
  - exists [], (Sem (readers (delete t m)) l). do 2 (split; [done |]). simpl. split; [right; lia |].
    intros _. specialize (Hh ltac:(lia)). destruct l; [done |]. split; [apply Hh | lia].
Qed.

Lemma up_write_ok s t :
  inv s -> tasks s !! t = Some Writing ->
  queue (delete t (tasks s)) (wait_list (sem s)) /\ pids_ok (delete t (tasks s)) /\
  handed_over (delete t (tasks s)) (wait_list (sem s)) (__up_write (sem s)).
Proof.
  intros [Hq Hl Hh Hp] Ht. destruct s as [[a l] m]. simpl in *.
  assert (Hq' : queue (delete t m) l) by (apply queue_delete; [done | congruence]).
  assert (Hp' : pids_ok (delete t m)) by by apply pids_delete. split; [done |]. split; [done |].
  pose proof (count_delete holds_read m t Writing Ht) as Cr. pose proof (count_delete holds_write m t Writing Ht) as Cw.
  fold (readers m) (readers (delete t m)) in Cr. fold (writers m) (writers (delete t m)) in Cw. simpl in Cr, Cw.
  pose proof (count_nonneg holds_write (delete t m)) as Hnn. fold (writers (delete t m)) in Hnn.
  destruct Hl as [(_ & Hw & Hr)|[-> Hw]]; [| lia]. unfold __up_write. simpl.
  destruct l as [|w l]; simpl.
  - exists [], (Sem 0 []). do 2 (split; [done |]). simpl. split; [right; lia | done].
  - apply do_wake_ok; try done; lia.
Qed.

Lemma downgrade_ok s t :
  inv s -> tasks s !! t = Some Writing ->
  queue (<[t := Reading]> (tasks s)) (wait_list (sem s)) /\ pids_ok (<[t := Reading]> (tasks s)) /\
  handed_over (<[t := Reading]> (tasks s)) (wait_list (sem s)) (__downgrade_write (sem s)).
Proof.
  intros [Hq Hl Hh Hp] Ht. destruct s as [[a l] m]. simpl in *.
  assert (Hq' : queue (<[t := Reading]> m) l) by (apply queue_insert; [done | congruence | done]).
  assert (Hp' : pids_ok (<[t := Reading]> m)) by (apply pids_insert; [done | by apply Hp; eexists]).
  split; [done |]. split; [done |].
  pose proof (count_update holds_read m t Writing Reading Ht) as Cr.
  pose proof (count_update holds_write m t Writing Reading Ht) as Cw.
  fold (readers m) (readers (<[t := Reading]> m)) in Cr. fold (writers m) (writers (<[t := Reading]> m)) in Cw. simpl in Cr, Cw.
  pose proof (count_nonneg holds_write (<[t := Reading]> m)) as Hnn. fold (writers (<[t := Reading]> m)) in Hnn.
  destruct Hl as [(_ & Hw & Hr)|[-> Hw]]; [| lia]. unfold __downgrade_write. simpl.
  destruct l as [|w l]; simpl.
  - exists [], (Sem 1 []). do 2 (split; [done |]). simpl. split; [right; lia | done].
  - apply do_wake_ok; try done; lia.
Qed.

(** A new user of the lock, granted or queued. *)
Lemma down_read_inv s t sem' granted :
  inv s -> 0 < t < PID_MAX_LIMIT -> tasks s !! t = None -> __down_read (sem s) t = (sem', granted) ->
  inv (System sem' (<[t := if granted : bool then Reading else Sleeping RWSEM_WAITING_FOR_READ]> (tasks s))).
Proof.
  intros [Hq Hl Hh Hp] Htp Ht E. destruct s as [[a l] m]. unfold __down_read in E. simpl in *.
  pose proof (count_nonneg holds_read m) as Hnn. fold (readers m) in Hnn.
  destruct (Z.geb_spec a 0) as [Ha|Ha]; [destruct l as [|w l] |]; simpl in E; simplify_eq; simpl.
  - assert (Hp' : pids_ok (<[t := Reading]> m)) by by apply pids_insert.
    assert (Cr : readers (<[t := Reading]> m) = readers m + 1) by (unfold readers; by rewrite count_insert_new).
    assert (Cw : writers (<[t := Reading]> m) = writers m + 0) by (unfold writers; by rewrite count_insert_new).
    split; simpl; try done.
    + apply queue_insert; [done | congruence | done].
    + destruct Hl as [?|[-> Hw]]; [lia |]. rewrite <- Cr, s32_readers by done. right. split; [done | lia].
  - destruct Hl as [?|[-> Hw]]; [lia |]. split; simpl.
    + apply (queue_enqueue m (w :: l)); auto.
    + right. unfold readers, writers in *. rewrite !count_insert_new by done. simpl. lia.
    + red. intros _. apply Hh. lia.
    + by apply pids_insert.
  - destruct Hl as [(-> & Hw & Hr)|[-> Hw]]; [| lia]. split; simpl.
    + apply queue_enqueue; auto.
    + left. unfold readers, writers in *. rewrite !count_insert_new by done. simpl. lia.
    + intros H. simpl in H. lia.
    + by apply pids_insert.
Qed.

Lemma down_write_inv s t sem' granted :
  inv s -> 0 < t < PID_MAX_LIMIT -> tasks s !! t = None -> __down_write (sem s) t = (sem', granted) ->
  inv (System sem' (<[t := if granted : bool then Writing else Sleeping RWSEM_WAITING_FOR_WRITE]> (tasks s))).
Proof.
  intros [Hq Hl Hh Hp] Htp Ht E. destruct s as [[a l] m]. unfold __down_write, __down_write_nested in E. simpl in *.
  pose proof (count_nonneg holds_read m) as Hnn. fold (readers m) in Hnn.
  destruct ((a =? 0) && list_empty l) eqn:Eg; simplify_eq; simpl.
  - apply andb_prop in Eg as [->%Z.eqb_eq El]. destruct l; [| done].
    destruct Hl as [?|[Ha Hw]]; [lia |]. split; simpl.
    + apply queue_insert; [done | congruence | done].
    + left. unfold readers, writers in *. rewrite !count_insert_new by done. simpl. lia.
    + intros H. simpl in H. lia.
    + by apply pids_insert.
  - split; simpl.
    + apply queue_enqueue; auto.
    + unfold lock_ok, readers, writers in *. rewrite !count_insert_new by done. simpl. rewrite !Z.add_0_r. done.
    + intros H0. specialize (Hh H0). destruct l as [|w l]; [| done]. simpl. split; [done |].
      simpl in Eg. rewrite andb_true_r in Eg. apply Z.eqb_neq in Eg. lia.
    + by apply pids_insert.
Qed.

Lemma leave_loop_inv s t f :
  inv s -> tasks s !! t = Some (Woken f) ->
  inv (System (sem s) (<[t := if f =? RWSEM_WAITING_FOR_READ then Reading else Writing]> (tasks s))).
Proof.
  intros [Hq Hl Hh Hp] Ht. split; simpl; try done.
  - apply queue_insert; [done | congruence | by destruct (f =? _)].
  - unfold lock_ok, readers, writers in *. rewrite !(count_update _ _ _ _ _ Ht). simpl.
    destruct (f =? RWSEM_WAITING_FOR_READ); simpl; rewrite !Z.sub_add, ?Z.sub_0_r, ?Z.add_0_r; done.
  - apply pids_insert; [done |]. apply Hp. by eexists.
Qed.

Lemma rwsem_step_inv s s' : inv s -> step s s' -> inv s'.
Proof.
  intros I H. destruct H as [s t sem' g Hp Ht E|s t sem' g Hp Ht E|s t sem' r Hp Ht E|s t sem' r Hp Ht E|s t f Ht|
    s t sem' woken Ht E|s t sem' woken Ht E|s t sem' woken Ht E].
  - by eapply down_read_inv.
  - by eapply down_write_inv.
  - pose proof (down_read_inv s t sem' true I Hp Ht) as Hd. unfold __down_read_trylock, __down_read in *.
    destruct ((activity (sem s) >=? 0) && list_empty (wait_list (sem s))); simplify_eq; [by apply Hd | by destruct s].
  - pose proof (down_write_inv s t sem' true I Hp Ht) as Hd. unfold __down_write_trylock, __down_write, __down_write_nested in *.
    destruct ((activity (sem s) =? 0) && list_empty (wait_list (sem s))); simplify_eq; [by apply Hd | by destruct s].
  - by apply leave_loop_inv.
  - destruct (up_read_ok s t I Ht) as (? & ? & ?). by eapply handed_over_inv.
  - destruct (up_write_ok s t I Ht) as (? & ? & ?). by eapply handed_over_inv.
  - destruct (downgrade_ok s t I Ht) as (? & ? & ?). by eapply handed_over_inv.
Qed.

Lemma rwsem_reachable_inv s : reachable s -> inv s.
Proof.
  induction 1 as [|s s' _ IH H]; [| by eapply rwsem_step_inv]. split; simpl.
  - split; [constructor | constructor |]. intros t f. rewrite lookup_empty. split; [done | by intros ?%not_elem_of_nil].
  - by right.
  - done.
  - intros t [x Hx]. by rewrite lookup_empty in Hx.
Qed.

(** ** Properties *)

Definition holds (st : tstate) : bool := holds_read st || holds_write st.

(** C25: readers and writers exclude each other: in every state that the tasks can reach by the semaphore's
    operations in any order, a task that has the lock for writing, or was just given it, is the only one that has
    it.  The activity count is -1 exactly then, and else the number of readers; it cannot overflow. *)
Theorem rwsem_exclusion s :
  reachable s ->
  (forall t t' st st', tasks s !! t = Some st -> tasks s !! t' = Some st' ->
     holds_write st = true -> holds st' = true -> t = t') /\
  (activity (sem s) = -1 <-> exists t st, tasks s !! t = Some st /\ holds_write st = true) /\
  (activity (sem s) <> -1 -> activity (sem s) = readers (tasks s)) /\
  -1 <= activity (sem s) < PID_MAX_LIMIT.
Proof.
  intros I%rwsem_reachable_inv. pose proof (i_lock s I) as Hl. pose proof (pids_count holds_read _ (i_pids s I)) as Hb.
  pose proof (count_nonneg holds_read (tasks s)) as Hn. fold (readers (tasks s)) in Hb, Hn.
  assert (Hzero : forall P t st, tasks s !! t = Some st -> P st = true -> count P (tasks s) <> 0).
  { intros P t st Ht HP. pose proof (count_delete P _ _ _ Ht) as C. rewrite HP in C.
    pose proof (count_nonneg P (delete t (tasks s))). simpl in C. lia. }
  split_and!.
  - intros t t' st st' Ht Ht' Hw Hh. pose proof (Hzero _ _ _ Ht Hw) as Hnw.
    destruct Hl as [(_ & Hw1 & Hr0)|(_ & Hw0)]; [| done].
    destruct (decide (t = t')) as [|Hne]; [done |]. apply orb_prop in Hh as [Hr|Hw'].
    + by destruct (Hzero _ _ _ Ht' Hr).
    + pose proof (count_two holds_write _ _ _ _ _ Ht Ht' Hw Hw' Hne). unfold writers in *. lia.
  - split.
    + intros E. destruct Hl as [(_ & Hw1 & _)|(E' & _)]; [| lia]. apply count_pos. unfold writers in *. lia.
    + intros (t & st & Ht & Hw). destruct Hl as [(E & _)|(_ & Hw0)]; [done |]. by destruct (Hzero _ _ _ Ht Hw).
  - intros E. destruct Hl as [(E' & _)|(E' & _)]; lia.
  - destruct Hl as [(-> & _)|(-> & _)]; lia.
  - destruct Hl as [(-> & _)|(-> & _)]; lia.
Qed.

(** Task 7 reads and 8 waits to write; a second reader, 9, queues behind it. *)
Definition queued : system :=
  System (Sem 1 [Waiter 8 2; Waiter 9 1]) (<[9 := Sleeping 1]> (<[8 := Sleeping 2]> {[7 := Reading]})).

Lemma queued_reachable : reachable queued.
Proof.
  assert (R1 : reachable (System (Sem 1 []) {[7 := Reading]})).
  { refine (reach_step _ _ reach_init (step_down_read _ 7 _ true _ _ _)); [lia | done | done]. }
  assert (R2 : reachable (System (Sem 1 [Waiter 8 2]) (<[8 := Sleeping 2]> {[7 := Reading]}))).
  { refine (reach_step _ _ R1 (step_down_write _ 8 _ false _ _ _)); [lia | done | done]. }
  refine (reach_step _ _ R2 (step_down_read _ 9 _ false _ _ _)); [lia | done | done].
Qed.

Lemma rwsem_exclusion_witness :
  reachable queued /\ (activity (sem queued) <> -1 -> activity (sem queued) = readers (tasks queued)) /\
  readers (tasks queued) = 1.
Proof.
  split; [exact queued_reachable |]. split; [| by vm_compute]. apply (rwsem_exclusion queued queued_reachable).
Defined.

(** The waiters that a free lock is given to: a writer at the front of the queue,
    or all readers up to the first writer. *)
Definition batch (l ws rest : list rwsem_waiter) : Prop :=
  l = ws ++ rest /\
  ((exists w, ws = [w] /\ for_write w = true) \/
   (ws <> [] /\ Forall (fun w => for_write w = false) ws /\ match rest with [] => True | w :: _ => for_write w = true end)).

(** The readers before the first writer. *)
Definition front_readers (l ws rest : list rwsem_waiter) : Prop :=
  l = ws ++ rest /\ Forall (fun w => for_write w = false) ws /\ match rest with [] => True | w :: _ => for_write w = true end.

Lemma wake_front_readers l :
  Forall kind_ok l -> exists ws rest, wake_readers l = (rest, task <$> ws) /\ front_readers l ws rest.
Proof.
  intros Hk. destruct (wake_readers_spec l Hk) as (ws & rest & E & El & Hws & Hr). exists ws, rest.
  split; [done |]. split; [done |]. split; [| done]. eapply Forall_impl; [exact Hws |]. intros w Ew.
  by rewrite Ew.
Qed.

Lemma do_wake_batch l a :
  Forall kind_ok l -> l <> [] ->
  exists ws sem', __rwsem_do_wake (Sem a l) true = Some (sem', task <$> ws) /\ batch l ws (wait_list sem').
Proof.
  intros Hk Hl. unfold __rwsem_do_wake. destruct l as [|w l]; [done |]. cbn -[for_write wake_readers].
  destruct (for_write w) eqn:Ew.
  - exists [w], (Sem (-1) l). split; [done |]. split; [done |]. left. eauto.
  - destruct (wake_front_readers (w :: l) Hk) as (ws & rest & E & El & Hws & Hr). rewrite E.
    eexists ws, (Sem _ rest). split; [reflexivity |]. split; [done |]. right. split; [| by split].
    intros ->. simpl in El. subst rest. congruence.
Qed.

Lemma do_wake_front l a :
  Forall kind_ok l -> l <> [] ->
  exists ws sem', __rwsem_do_wake (Sem a l) false = Some (sem', task <$> ws) /\ front_readers l ws (wait_list sem').
Proof.
  intros Hk Hl. unfold __rwsem_do_wake. destruct l as [|w l]; [done |]. cbn -[for_write wake_readers].
  destruct (for_write w) eqn:Ew.
  - exists [], (Sem a (w :: l)). split; [done |]. split; [done |]. split; [constructor | done].
  - destruct (wake_front_readers (w :: l) Hk) as (ws & rest & E & Hf). rewrite E.
    eexists ws, (Sem _ rest). split; [reflexivity | done].
Qed.

(** C40: no wake-up is lost.  A task that sleeps on the semaphore is in its queue, and some task has the lock; the
    task that gives the lock back as the last one hands it to the front of the queue, to one writer or to all readers
    that are before the next writer, and a downgrade lets the readers at the front in. *)
Theorem rwsem_handover s t :
  reachable s ->
  match tasks s !! t with
  | Some (Sleeping f) =>
      Waiter t f ∈ wait_list (sem s) /\ exists h st, tasks s !! h = Some st /\ holds st = true
  | Some Reading =>
      exists ws sem', __up_read (sem s) = Some (sem', task <$> ws) /\
        if (readers (tasks s) =? 1) && negb (list_empty (wait_list (sem s)))
        then batch (wait_list (sem s)) ws (wait_list sem') else ws = [] /\ wait_list sem' = wait_list (sem s)
  | Some Writing =>
      (exists ws sem', __downgrade_write (sem s) = Some (sem', task <$> ws) /\
        front_readers (wait_list (sem s)) ws (wait_list sem')) /\
      exists ws sem', __up_write (sem s) = Some (sem', task <$> ws) /\
        if negb (list_empty (wait_list (sem s)))
        then batch (wait_list (sem s)) ws (wait_list sem') else ws = [] /\ wait_list sem' = []
  | _ => True
  end.
Proof.
  intros I%rwsem_reachable_inv. destruct I as [Hq Hl Hh Hp]. destruct (tasks s !! t) as [[f| | |]|] eqn:Ht; try done.
  - split; [by apply (q_tasks _ _ Hq) |]. apply (q_tasks _ _ Hq) in Ht.
    assert (Hpos : 0 < readers (tasks s) \/ 0 < writers (tasks s)).
    { destruct Hl as [(_ & Hw & _)|[Ha Hw]]; [lia |]. destruct (wait_list (sem s)); [by apply not_elem_of_nil in Ht |].
      pose proof (count_nonneg holds_read (tasks s)). unfold readers, head_ok in *. destruct Hh; lia. }
    destruct Hpos as [Hpos|Hpos]; apply count_pos in Hpos as (h & st & ? & E); exists h, st; unfold holds; rewrite E;
      auto using orb_true_r.
  - destruct s as [[a l] m]. simpl in *. pose proof (count_delete holds_read m t Reading Ht) as Cr. simpl in Cr.
    pose proof (count_nonneg holds_read (delete t m)). fold (readers m) in Cr.
    destruct Hl as [(_ & _ & ?)|[-> Hw]]; [lia |]. unfold __up_read. simpl.
    assert (Es : s32 (readers m - 1) = readers m - 1).
    { pose proof (pids_count holds_read m Hp). unfold readers in *. rewrite swrap_small; lia. }
    rewrite Es. assert ((readers m - 1 =? 0) = (readers m =? 1)) as -> by (destruct (Z.eqb_spec (readers m) 1); zbool; done).
    destruct (readers m =? 1); simpl; [| by exists [], (Sem (readers m - 1) l)].
    destruct l as [|w l]; simpl; [by exists [], (Sem (readers m - 1) []) |].
    exists [w], (Sem (-1) l). split; [done |]. split; [done |]. left. exists w. split; [done |]. apply Hh. lia.
  - unfold __up_write, __downgrade_write. simpl. destruct (wait_list (sem s)) as [|w l] eqn:El; simpl.
    { split; [exists [], (Sem 1 []) | exists [], (Sem 0 [])]; done. }
    split; [apply do_wake_front; [apply Hq | done] |].
    destruct (do_wake_batch (w :: l) 0) as (ws & sem' & E & Hb); [apply Hq | done |]. exists ws, sem'. by rewrite E.
Qed.

Lemma rwsem_handover_witness :
  exists ws sem', __up_read (sem queued) = Some (sem', task <$> ws) /\
    batch [Waiter 8 2; Waiter 9 1] ws (wait_list sem') /\ wait_list sem' = [Waiter 9 1].
Proof.
  destruct (rwsem_handover queued 7 queued_reachable) as (ws & sem' & E & Hb).
  exists ws, sem'. split; [exact E |]. split; [exact Hb |]. vm_compute in E. injection E as <- _. reflexivity.
Defined.

End RwSem.
