(* ===== verification/Semaphore.v ===== *)
(** * Counting semaphores (kernel/semaphore.c, include/linux/semaphore.h)

    A task that has to wait drops the semaphore's spinlock while it sleeps, so a
    call is several steps: the fast path or the entry into the queue, one step
    for each time the task is back in the loop, and the [up] of others in
    between.  The reachable states are shown to conserve the count. *)

From S2P Require Import Prelude Tasks.

Module Semaphore.
Import Tasks.

Abbreviation EINTR := 4 (only parsing).
Abbreviation ETIME := 62 (only parsing).

(** ** What the wait depends on (include/linux/sched.h, kernel/timer.c) *)

Abbreviation TASK_INTERRUPTIBLE := 1 (only parsing).
Abbreviation TASK_UNINTERRUPTIBLE := 2 (only parsing).
Abbreviation TASK_WAKEKILL := 128 (only parsing).
Abbreviation TASK_KILLABLE := (TASK_WAKEKILL .| TASK_UNINTERRUPTIBLE) (only parsing).
Abbreviation MAX_SCHEDULE_TIMEOUT := (2 ^ 63 - 1) (only parsing).

(** The signals of a task: whether one is pending, and whether a fatal one is. *)
Record signals := Signals { pending : bool; fatal : bool }.

Definition signal_pending_state (state : Z) (p : signals) : bool :=
  if state .& (TASK_INTERRUPTIBLE .| TASK_WAKEKILL) =? 0 then false
  else if negb (pending p) then false
  else negb (state .& TASK_INTERRUPTIBLE =? 0) || fatal p.

(** [jiffies] advances by [elapsed] while the task sleeps. *)
Definition schedule_timeout (timeout elapsed : Z) : Z :=
  if timeout =? MAX_SCHEDULE_TIMEOUT then timeout
  else if timeout <? 0 then 0
  else let timeout := s64 (timeout - elapsed) in if timeout <? 0 then 0 else timeout.

(** ** The semaphore *)

(** The waiters by their tasks, named by pid; their [up] flags are with the tasks. *)
Record semaphore := Sem { count : Z; wait_list : list Z }.

Definition sema_init (val : Z) : semaphore := Sem (u32 val) [].

Definition list_del (t : Z) (l : list Z) : list Z := filter (fun x => x <> t) l.

(** How far a call gets before it returns or sleeps. *)
Inductive outcome := Returns (ret : Z) | Sleeps (state timeout : Z).

(** The head of the loop in [__down_common]. *)
Definition down_loop (sem : semaphore) (task state timeout : Z) (sig : signals) : semaphore * outcome :=
  if signal_pending_state state sig then (Sem (count sem) (list_del task (wait_list sem)), Returns (- EINTR))
  else if timeout <=? 0 then (Sem (count sem) (list_del task (wait_list sem)), Returns (- ETIME))
  else (sem, Sleeps state timeout).

Definition __down_common (sem : semaphore) (task state timeout : Z) (sig : signals) : semaphore * outcome :=
  down_loop (Sem (count sem) (wait_list sem ++ [task])) task state timeout sig.

(** The loop after [schedule_timeout] came back, with the waiter's [up]. *)
Definition resume (sem : semaphore) (task state timeout : Z) (up : bool) (elapsed : Z) (sig : signals)
    : semaphore * outcome :=
  let timeout := schedule_timeout timeout elapsed in
  if up then (sem, Returns 0) else down_loop sem task state timeout sig.

Abbreviation __down sem task sig :=
  (__down_common sem task TASK_UNINTERRUPTIBLE MAX_SCHEDULE_TIMEOUT sig) (only parsing).
Abbreviation __down_interruptible sem task sig :=
  (__down_common sem task TASK_INTERRUPTIBLE MAX_SCHEDULE_TIMEOUT sig) (only parsing).
Abbreviation __down_killable sem task sig :=
  (__down_common sem task TASK_KILLABLE MAX_SCHEDULE_TIMEOUT sig) (only parsing).
Abbreviation __down_timeout sem task jiffies sig :=
  (__down_common sem task TASK_UNINTERRUPTIBLE jiffies sig) (only parsing).

Definition down (sem : semaphore) (task : Z) (sig : signals) : semaphore * outcome :=
  if count sem >? 0 then (Sem (u32 (count sem - 1)) (wait_list sem), Returns 0) else __down sem task sig.
Definition down_interruptible (sem : semaphore) (task : Z) (sig : signals) : semaphore * outcome :=
  if count sem >? 0 then (Sem (u32 (count sem - 1)) (wait_list sem), Returns 0) else __down_interruptible sem task sig.
Definition down_killable (sem : semaphore) (task : Z) (sig : signals) : semaphore * outcome :=
  if count sem >? 0 then (Sem (u32 (count sem - 1)) (wait_list sem), Returns 0) else __down_killable sem task sig.
Definition down_timeout (sem : semaphore) (task jiffies : Z) (sig : signals) : semaphore * outcome :=
  if count sem >? 0 then (Sem (u32 (count sem - 1)) (wait_list sem), Returns 0) else __down_timeout sem task jiffies sig.

Definition down_trylock (sem : semaphore) : semaphore * Z :=
  let c := s32 (count sem - 1) in
  (if c >=? 0 then Sem (u32 c) (wait_list sem) else sem, if c <? 0 then 1 else 0).

(** The semaphore and the task whose waiter gets [up = 1]. *)
Definition __up (sem : semaphore) : semaphore * option Z :=
  match wait_list sem with
  | [] => (sem, None)
  | t :: l => (Sem (count sem) l, Some t)
  end.

Definition up (sem : semaphore) : semaphore * option Z :=
  match wait_list sem with [] => (Sem (u32 (count sem + 1)) [], None) | _ => __up sem end.

(** ** The tasks *)

(** A task in [schedule_timeout], or one that was granted the semaphore. *)
Inductive tstate := Sleeping (state timeout : Z) (up : bool) | Holding.

(** [total]: what the count would be with nobody holding the semaphore. *)
Record system := System { sem : semaphore; tasks : gmap Z tstate; total : Z }.

Inductive call := Down | Down_interruptible | Down_killable | Down_timeout (jiffies : Z).

Definition call_down (c : call) (sem : semaphore) (t : Z) (sig : signals) : semaphore * outcome :=
  match c with
  | Down => down sem t sig
  | Down_interruptible => down_interruptible sem t sig
  | Down_killable => down_killable sem t sig
  | Down_timeout jiffies => down_timeout sem t jiffies sig
  end.

Definition after (t : Z) (o : outcome) (m : gmap Z tstate) : gmap Z tstate :=
  match o with
  | Returns 0 => <[t := Holding]> m
  | Returns _ => delete t m
  | Sleeps state timeout => <[t := Sleeping state timeout false]> m
  end.

Definition set_up (st : tstate) : tstate := match st with Sleeping state timeout _ => Sleeping state timeout true | st => st end.
Definition wake (w : option Z) (m : gmap Z tstate) : gmap Z tstate :=
  match w with None => m | Some t => alter set_up t m end.

(** [up] is called by a task that holds the semaphore, or by anybody else, which
    adds to what can be held. *)
Inductive step : system -> system -> Prop :=
  | step_down s t c sig sem' o :
      tasks s !! t = None -> call_down c (sem s) t sig = (sem', o) ->
      step s (System sem' (after t o (tasks s)) (total s))
  | step_trylock s t sem' ret :
      tasks s !! t = None -> down_trylock (sem s) = (sem', ret) ->
      step s (System sem' (if ret =? 0 then <[t := Holding]> (tasks s) else tasks s) (total s))
  | step_resume s t state timeout u elapsed sig sem' o :
      0 <= elapsed < 2 ^ 63 ->
      tasks s !! t = Some (Sleeping state timeout u) -> resume (sem s) t state timeout u elapsed sig = (sem', o) ->
      step s (System sem' (after t o (tasks s)) (total s))
  | step_up_holder s t sem' w :
      tasks s !! t = Some Holding -> up (sem s) = (sem', w) ->
      step s (System sem' (wake w (delete t (tasks s))) (total s))
  | step_up_other s sem' w :
      total s < 2 ^ 31 -> up (sem s) = (sem', w) -> step s (System sem' (wake w (tasks s)) (total s + 1)).

Inductive reachable : system -> Prop :=
  | reach_init val : 0 <= val < 2 ^ 31 -> reachable (System (sema_init val) ∅ val)
  | reach_step s s' : reachable s -> step s s' -> reachable s'.

(** ** The invariant *)

Definition holds (st : tstate) : bool := match st with Holding => true | Sleeping _ _ u => u end.
Definition holders (m : gmap Z tstate) : Z := Tasks.count holds m.
Definition waits (m : gmap Z tstate) (t : Z) : Prop := exists state timeout, m !! t = Some (Sleeping state timeout false).

Record inv (s : system) : Prop := Inv {
  i_nodup : NoDup (wait_list (sem s));
  i_queue : forall t, t ∈ wait_list (sem s) <-> waits (tasks s) t;
  i_count : count (sem s) + holders (tasks s) = total s;
  i_range : 0 <= count (sem s) /\ total s <= 2 ^ 31;
  i_free : 0 < count (sem s) -> wait_list (sem s) = []
}.

Lemma waits_insert m t st t' :
  waits (<[t := st]> m) t' <-> if decide (t' = t) then exists state timeout, st = Sleeping state timeout false else waits m t'.
Proof.
  unfold waits. destruct (decide (t' = t)) as [->|]; [rewrite lookup_insert_eq | rewrite lookup_insert_ne by done]; naive_solver.
Qed.

Lemma waits_delete m t t' : waits (delete t m) t' <-> t' <> t /\ waits m t'.
Proof. unfold waits. setoid_rewrite lookup_delete_Some. naive_solver. Qed.

Lemma elem_list_del t t' l : t' ∈ list_del t l <-> t' <> t /\ t' ∈ l.
Proof. unfold list_del. by rewrite list_elem_of_filter. Qed.

Lemma list_del_app t l : t ∉ l -> list_del t (l ++ [t]) = l.
Proof.
  intros H. unfold list_del. rewrite filter_app, filter_cons_False, filter_nil, app_nil_r by auto.
  induction l as [|x l IH]; [done |]. apply not_elem_of_cons in H as [H1 H2]. rewrite filter_cons_True by auto. by rewrite IH.
Qed.

(** Getting the semaphore with the count positive. *)
Lemma take_inv s t :
  inv s -> tasks s !! t = None -> 0 < count (sem s) ->
  inv (System (Sem (count (sem s) - 1) (wait_list (sem s))) (<[t := Holding]> (tasks s)) (total s)).
Proof.
  intros [I1 I2 I3 I4 I5] Ht Hc. split; simpl; try done; try lia.
  - intros t'. rewrite I2, waits_insert. destruct (decide (t' = t)) as [->|]; [| done].
    split; [intros (? & ? & ?); congruence | intros (? & ? & ?); congruence].
  - unfold holders in *. rewrite count_insert_new by done. simpl. lia.
  - intros _. by apply I5.
Qed.

(** A waiter, queued and with its own [Sleeping] state, goes through the head of
    the loop. *)
Lemma down_loop_inv s t state timeout st0 to0 sig sem' o :
  inv s -> tasks s !! t = Some (Sleeping st0 to0 false) -> down_loop (sem s) t state timeout sig = (sem', o) ->
  inv (System sem' (after t o (tasks s)) (total s)).
Proof.
  intros [I1 I2 I3 I4 I5] Ht E. unfold down_loop in E.
  assert (Hdel : inv (System (Sem (count (sem s)) (list_del t (wait_list (sem s)))) (delete t (tasks s)) (total s))).
  { split; simpl; try done.
    - by apply NoDup_filter.
    - intros t'. by rewrite elem_list_del, waits_delete, I2.
    - unfold holders in *. rewrite (count_delete _ _ _ _ Ht). simpl. lia.
    - intros H. by rewrite I5. }
  destruct (signal_pending_state state sig); [by simplify_eq |].
  destruct (timeout <=? 0); simplify_eq; [done |]. split; simpl; try done.
  - intros t'. rewrite I2, waits_insert. destruct (decide (t' = t)) as [->|]; [| done].
    split; [eauto | intros _; by exists st0, to0].
  - unfold holders in *. rewrite (count_update _ _ _ _ _ Ht). simpl. lia.
Qed.

(** Queueing, before the first pass through the loop. *)
Lemma enqueue_inv s t state timeout :
  inv s -> tasks s !! t = None -> count (sem s) <= 0 ->
  inv (System (Sem (count (sem s)) (wait_list (sem s) ++ [t])) (<[t := Sleeping state timeout false]> (tasks s)) (total s)).
Proof.
  intros [I1 I2 I3 I4 I5] Ht Hc.
  assert (Hn : t ∉ wait_list (sem s)) by (intros (? & ? & ?)%I2; congruence). split; simpl; try done.
  - apply NoDup_app. split; [done |]. split; [| apply NoDup_singleton]. by intros x Hx ->%list_elem_of_singleton.
  - intros t'. rewrite elem_of_app, list_elem_of_singleton, I2, waits_insert.
    destruct (decide (t' = t)) as [->|]; [| naive_solver]. split; [eauto | by right].
  - unfold holders in *. rewrite count_insert_new by done. simpl. lia.
  - intros ?. lia.
Qed.

Lemma down_common_inv s t state timeout sig sem' o :
  inv s -> tasks s !! t = None -> count (sem s) <= 0 -> __down_common (sem s) t state timeout sig = (sem', o) ->
  inv (System sem' (after t o (tasks s)) (total s)).
Proof.
  intros I Ht Hc E. pose proof (enqueue_inv s t state timeout I Ht Hc) as Iq.
  unfold __down_common in E. pose proof (down_loop_inv _ t state timeout state timeout sig sem' o Iq) as Il. simpl in Il.
  rewrite lookup_insert_eq in Il. specialize (Il eq_refl E).
  destruct o as [[]|]; simpl in *; rewrite ?insert_insert_eq in Il; try done;
    rewrite delete_insert_id in Il by done; by rewrite delete_id.
Qed.

Lemma count_u32 s : inv s -> 0 < count (sem s) -> u32 (count (sem s) - 1) = count (sem s) - 1.
Proof.
  intros I Hc. destruct (i_range s I). pose proof (i_count s I). pose proof (count_nonneg holds (tasks s)).
  unfold holders in *. apply uwrap_small. lia.
Qed.

Lemma call_down_inv s t c sig sem' o :
  inv s -> tasks s !! t = None -> call_down c (sem s) t sig = (sem', o) ->
  inv (System sem' (after t o (tasks s)) (total s)).
Proof.
  intros I Ht E.
  destruct (Z.gtb_spec (count (sem s)) 0) as [Hc|Hc].
  - assert (E' : (Sem (count (sem s) - 1) (wait_list (sem s)), Returns 0) = (sem', o)).
    { rewrite <- (count_u32 s) by done.
      destruct c; simpl in E; unfold down, down_interruptible, down_killable, down_timeout in E;
        rewrite (proj2 (Z.gtb_gt _ _)) in E by lia; done. }
    simplify_eq. by apply take_inv.
  - destruct c; simpl in E; unfold down, down_interruptible, down_killable, down_timeout in E;
      rewrite Z.gtb_ltb, (proj2 (Z.ltb_ge _ _)) in E by lia; by eapply down_common_inv.
Qed.

Lemma up_inv sm m tot sem' w :
  NoDup (wait_list sm) -> (forall t, t ∈ wait_list sm <-> waits m t) ->
  count sm + holders m + 1 = tot -> 0 <= count sm -> tot <= 2 ^ 31 -> (0 < count sm -> wait_list sm = []) ->
  up sm = (sem', w) -> inv (System sem' (wake w m) tot).
Proof.
  intros I1 I2 I3 I4 I5 I6 E. pose proof (count_nonneg holds m) as Hn. unfold holders in *.
  unfold up, __up in E. destruct (wait_list sm) as [|t l] eqn:El; simplify_eq; simpl.
  - split; simpl; try done; rewrite uwrap_small by lia; unfold holders; lia.
  - assert (waits m t) as (st & to & Hm) by (apply I2; by left). apply NoDup_cons in I1 as [Hni Hnd].
    assert (Ea : alter set_up t m = <[t := Sleeping st to true]> m).
    { apply map_eq. intros t'. destruct (decide (t' = t)) as [->|].
      - by rewrite lookup_alter_eq, lookup_insert_eq, Hm.
      - by rewrite lookup_alter_ne, lookup_insert_ne by done. }
    rewrite Ea. split; simpl; try done; try lia.
    + intros t'. rewrite waits_insert. destruct (decide (t' = t)) as [->|Hne]; [naive_solver |].
      rewrite <- I2, elem_of_cons. naive_solver.
    + unfold holders. rewrite (count_update _ _ _ _ _ Hm). simpl. lia.
    + intros Hc. by specialize (I6 Hc).
Qed.

Lemma sem_step_inv s s' : inv s -> step s s' -> inv s'.
Proof.
  intros I H. destruct H as [s t c sig sem' o Ht E|s t sem' ret Ht E|s t state timeout u el sig sem' o Hel Ht E|
    s t sem' w Ht E|s sem' w Htot E].
  - by eapply call_down_inv.
  - unfold down_trylock in E. pose proof I as [I1 I2 I3 I4 I5]. pose proof (count_nonneg holds (tasks s)) as Hn.
    unfold holders in *. rewrite swrap_small in E by lia.
    destruct (Z.geb_spec (count (sem s) - 1) 0), (Z.ltb_spec (count (sem s) - 1) 0); try lia; simplify_eq; simpl.
    + rewrite uwrap_small by lia. apply take_inv; [done | done | lia].
    + by destruct s.
  - unfold resume in E. destruct u; [| by eapply down_loop_inv]. simplify_eq. simpl. destruct I as [I1 I2 I3 I4 I5].
    split; simpl; try done.
    + intros t'. rewrite I2, waits_insert. destruct (decide (t' = t)) as [->|]; [| done]. unfold waits. rewrite Ht. naive_solver.
    + unfold holders in *. rewrite (count_update _ _ _ _ _ Ht). simpl. lia.
  - destruct I as [I1 I2 I3 I4 I5]. eapply up_inv; try done; try lia.
    + intros t'. rewrite I2, waits_delete. unfold waits. naive_solver.
    + unfold holders in *. rewrite (count_delete _ _ _ _ Ht). simpl. lia.
  - destruct I as [I1 I2 I3 I4 I5]. eapply up_inv; try done; lia.
Qed.

Lemma sem_reachable_inv s : reachable s -> inv s.
Proof.
  induction 1 as [val Hv|s s' _ IH H]; [| by eapply sem_step_inv]. split; simpl; try done; rewrite ?uwrap_small by lia; try lia.
  - constructor.
  - intros t. unfold waits. rewrite lookup_empty. split; [by intros ?%not_elem_of_nil | naive_solver].
  - unfold holders, Tasks.count. rewrite map_filter_empty, map_size_empty. lia.
Qed.

(** ** What one step does to the queue and to another task *)

(** The queue grows at the end, loses a waiter that gave up, or its first one,
    which was given the semaphore. *)
Definition queue_change (s s' : system) : Prop :=
  let l := wait_list (sem s) in let l' := wait_list (sem s') in
  l' = l \/ (exists x, l' = l ++ [x]) \/ (exists x, ~ waits (tasks s') x /\ l' = list_del x l) \/
  (exists x, l = x :: l' /\ ~ waits (tasks s') x).

Lemma down_loop_queue sm t state timeout sig sem' o m :
  down_loop sm t state timeout sig = (sem', o) ->
  wait_list sem' = wait_list sm /\ o = Sleeps state timeout \/
  (wait_list sem' = list_del t (wait_list sm) /\ ~ waits (after t o m) t /\ exists e, o = Returns e /\ e <> 0).
Proof.
  unfold down_loop. intros E.
  assert (Hd : ~ waits (delete t m) t) by (unfold waits; rewrite lookup_delete_eq; naive_solver).
  destruct (signal_pending_state state sig); [| destruct (timeout <=? 0)]; simplify_eq; simpl; [right | right | by left];
    (split; [done |]; split; [done |]; by eexists).
Qed.

Lemma call_down_queue s t c sig sem' o :
  inv s -> tasks s !! t = None -> call_down c (sem s) t sig = (sem', o) ->
  queue_change s (System sem' (after t o (tasks s)) (total s)).
Proof.
  intros I Ht E. assert (Hn : t ∉ wait_list (sem s)) by (intros (? & ? & ?)%(i_queue s I); congruence).
  assert (Hcase : wait_list sem' = wait_list (sem s) \/
    exists state timeout, __down_common (sem s) t state timeout sig = (sem', o)).
  { destruct c; simpl in E; unfold down, down_interruptible, down_killable, down_timeout in E;
      (destruct (count (sem s) >? 0); [simplify_eq; by left | right; by eexists _, _]). }
  destruct Hcase as [?|(state & timeout & Ec)]; [by left |]. unfold __down_common in Ec.
  apply (down_loop_queue _ _ _ _ _ _ _ (tasks s)) in Ec as [[Ew _]|(Ew & _ & _)]; simpl in Ew.
  - right. left. eauto.
  - left. simpl. rewrite Ew. by apply list_del_app.
Qed.

Lemma up_queue sm sem' w m :
  up sm = (sem', w) ->
  wait_list sem' = wait_list sm /\ w = None \/
  exists x, wait_list sm = x :: wait_list sem' /\ w = Some x /\ ~ waits (wake w m) x.
Proof.
  unfold up, __up. intros E. destruct (wait_list sm) as [|x l]; simplify_eq; [by left |]. right. exists x.
  split; [done |]. split; [done |]. unfold waits. simpl. rewrite lookup_alter_eq. destruct (m !! x) as [[]|]; naive_solver.
Qed.

Lemma step_queue s s' : inv s -> step s s' -> queue_change s s'.
Proof.
  intros I H. destruct H as [s t c sig sem' o Ht E|s t sem' ret Ht E|s t state timeout u el sig sem' o Hel Ht E|
    s t sem' w Ht E|s sem' w Htot E].
  - by eapply call_down_queue.
  - left. unfold down_trylock in E. injection E as <- _. simpl. by destruct (_ >=? _).
  - unfold resume in E. destruct u; [simplify_eq; by left |].
    apply (down_loop_queue _ _ _ _ _ _ _ (tasks s)) in E as [[Ew _]|(Ew & Hw & _)]; [by left | right; right; left; eauto].
  - destruct (up_queue _ _ _ (delete t (tasks s)) E) as [[Ew _]|(x & Ew & _ & Hw)]; [by left | right; right; right; eauto].
  - destruct (up_queue _ _ _ (tasks s) E) as [[Ew _]|(x & Ew & _ & Hw)]; [by left | right; right; right; eauto].
Qed.

(** A task that is not the one that acts. *)
Lemma after_other t t' o m : t <> t' -> after t' o m !! t = m !! t.
Proof. intros Hne. destruct o as [[]|]; simpl; rewrite ?lookup_insert_ne, ?lookup_delete_ne by done; done. Qed.

Lemma wake_sleeping w m t state timeout u :
  m !! t = Some (Sleeping state timeout u) -> exists u', wake w m !! t = Some (Sleeping state timeout u') /\
    (u = true -> u' = true).
Proof.
  intros Ht. destruct w as [x|]; simpl; [| eauto]. destruct (decide (x = t)) as [->|].
  - rewrite lookup_alter_eq, Ht. simpl. eauto.
  - rewrite lookup_alter_ne by done. eauto.
Qed.

(** A sleeping task stays so unless it acts itself. *)
Lemma step_sleeping s s' t state timeout u :
  inv s -> step s s' -> tasks s !! t = Some (Sleeping state timeout u) ->
  (exists u', tasks s' !! t = Some (Sleeping state timeout u') /\ (u = true -> u' = true)) \/
  exists el sig sem' o, 0 <= el < 2 ^ 63 /\ resume (sem s) t state timeout u el sig = (sem', o) /\ tasks s' = after t o (tasks s).
Proof.
  intros I H Hs. destruct H as [s t' c sig sem' o Ht E|s t' sem' ret Ht E|s t' state' timeout' u' el sig sem' o Hel Ht E|
    s t' sem' w Ht E|s sem' w Htot E]; simpl.
  - left. rewrite after_other by congruence. eauto.
  - left. destruct (ret =? 0); rewrite ?lookup_insert_ne by congruence; eauto.
  - destruct (decide (t' = t)) as [->|Hne]; [| left; rewrite after_other by done; eauto].
    right. rewrite Hs in Ht. simplify_eq. by exists el, sig, sem', o.
  - left. apply wake_sleeping. by rewrite lookup_delete_ne by congruence.
  - left. by apply wake_sleeping.
Qed.

(** ** Properties *)

(** C30: the semaphore conserves its count: in every reachable state the count and the tasks that were granted it add
    up to the initial value plus the ups of others, whatever signals and timeouts ended the waits of others in
    between; a task waits only while the count is zero, in the queue, once; and so a semaphore that starts at one and
    is released by its holders excludes. *)
Theorem semaphore_conservation s :
  reachable s ->
  count (sem s) + holders (tasks s) = total s /\ 0 <= count (sem s) /\ NoDup (wait_list (sem s)) /\
  (forall t state timeout, tasks s !! t = Some (Sleeping state timeout false) ->
     t ∈ wait_list (sem s) /\ count (sem s) = 0 /\ holders (tasks s) = total s) /\
  (total s = 1 -> forall t t' st st', tasks s !! t = Some st -> tasks s !! t' = Some st' ->
     holds st = true -> holds st' = true -> t = t').
Proof.
  intros I%sem_reachable_inv. pose proof I as [I1 I2 I3 [I4 _] I5]. split_and!; try done.
  - intros t state timeout Ht. assert (Hq : t ∈ wait_list (sem s)) by (apply I2; by exists state, timeout).
    split; [done |]. assert (count (sem s) = 0); [| lia].
    destruct (Z.ltb_spec 0 (count (sem s))) as [Hc|]; [| lia]. rewrite (I5 Hc) in Hq. by apply not_elem_of_nil in Hq.
  - intros Htot t t' st st' Ht Ht' Hh Hh'. destruct (decide (t = t')) as [|Hne]; [done |].
    pose proof (count_two holds _ _ _ _ _ Ht Ht' Hh Hh' Hne). unfold holders in *. lia.
Qed.

(** A mutex held by task 7 that 8 and 9 wait for. *)
Definition contended : system :=
  System (Sem 0 [8; 9]) (<[9 := Sleeping TASK_UNINTERRUPTIBLE 50 false]>
    (<[8 := Sleeping TASK_UNINTERRUPTIBLE MAX_SCHEDULE_TIMEOUT false]> {[7 := Holding]})) 1.

Lemma contended_reachable : reachable contended.
Proof.
  set (quiet := Signals false false).
  assert (R1 : reachable (System (Sem 0 []) {[7 := Holding]} 1)).
  { refine (reach_step _ _ (reach_init 1 _) (step_down _ 7 Down quiet _ (Returns 0) _ _)); [lia | done | done]. }
  assert (R2 : reachable (System (Sem 0 [8]) (<[8 := Sleeping TASK_UNINTERRUPTIBLE MAX_SCHEDULE_TIMEOUT false]> {[7 :=
    Holding]}) 1)).
  { refine (reach_step _ _ R1 (step_down _ 8 Down quiet _ (Sleeps _ _) _ _)); done. }
  refine (reach_step _ _ R2 (step_down _ 9 (Down_timeout 50) quiet _ (Sleeps _ _) _ _)); done.
Qed.

Lemma semaphore_conservation_witness :
  reachable contended /\ count (sem contended) + holders (tasks contended) = total contended /\ total contended = 1.
Proof.
  split; [exact contended_reachable |]. split; [| reflexivity]. apply (semaphore_conservation contended contended_reachable).
Defined.

(** grants are first come, first served, and are not lost.  In any step, a waiter that was granted the semaphore
    keeps it until its call returns 0, even if a signal is pending or its time is over; a waiter in [down] never gives
    up; nobody overtakes a waiter in the queue; and an [up] with waiters grants the semaphore to the first. *)
Theorem semaphore_fifo s s' t state timeout u :
  reachable s -> step s s' -> tasks s !! t = Some (Sleeping state timeout u) ->
  (u = true -> tasks s' !! t = Some (Sleeping state timeout true) \/ tasks s' !! t = Some Holding) /\
  (state = TASK_UNINTERRUPTIBLE -> timeout = MAX_SCHEDULE_TIMEOUT -> u = false ->
     exists u', tasks s' !! t = Some (Sleeping state timeout u')) /\
  (forall pre post, wait_list (sem s) = pre ++ t :: post -> waits (tasks s') t ->
     exists pre' post', wait_list (sem s') = pre' ++ t :: post' /\ pre' `sublist_of` pre) /\
  (forall x l, wait_list (sem s) = x :: l -> up (sem s) = (Sem (count (sem s)) l, Some x)).
Proof.
  intros I%sem_reachable_inv H Ht. pose proof (step_sleeping s s' t state timeout u I H Ht) as Hsl.
  split; [| split; [| split]].
  - intros ->. destruct Hsl as [(u' & E & Hu)|(el & sig & sem' & o & _ & E & ->)]; [left; by rewrite E, (Hu eq_refl) |].
    right. unfold resume in E. simplify_eq. simpl. apply lookup_insert_eq.
  - intros -> -> ->. destruct Hsl as [(u' & E & _)|(el & sig & sem' & o & _ & E & ->)]; [eauto |].
    unfold resume, down_loop, schedule_timeout in E. rewrite Z.eqb_refl in E. simpl in E. simplify_eq. simpl.
    exists false. apply lookup_insert_eq.
  - intros pre post El Hw. destruct (step_queue s s' I H) as [E|[(x & E)|[(x & Hx & E)|(x & E & Hx)]]]; rewrite El in E.
    + exists pre, post. by rewrite E.
    + exists pre, (post ++ [x]). rewrite E. by rewrite <- app_assoc.
    + assert (t <> x) by (intros ->; done). exists (list_del x pre), (list_del x post). rewrite E. unfold list_del.
      rewrite filter_app, filter_cons_True by done. split; [done |]. apply sublist_filter.
    + destruct pre as [|y pre]; simplify_eq/=; [by destruct Hx |]. exists pre, post. split; [done |]. by apply sublist_cons.
  - intros x l E. unfold up, __up. by rewrite E.
Qed.

(** Task 7 releases the mutex; 8 gets it, and 9 is next. *)
Lemma semaphore_fifo_witness :
  exists s', step contended s' /\ (exists pre' post', wait_list (sem s') = pre' ++ 9 :: post' /\ pre' `sublist_of` [8]) /\
    wait_list (sem s') = [9].
Proof.
  eexists. split; [apply (step_up_holder contended 7); [reflexivity | reflexivity] |]. split; [| reflexivity].
  eapply (semaphore_fifo contended _ 9 TASK_UNINTERRUPTIBLE 50 false contended_reachable).
  - apply (step_up_holder contended 7); reflexivity.
  - reflexivity.
  - reflexivity.
  - exists TASK_UNINTERRUPTIBLE, 50. reflexivity.
Defined.

End Semaphore.
