(* ===== verification/ResCounter.v ===== *)
(** * Resource counters (kernel/res_counter.c, include/linux/res_counter.h)

    The counters of a hierarchy are a heap of structures linked by their parent
    pointers; charging walks from a counter to the root and takes back what it
    charged when a limit is hit on the way.  The source locks the counters of the
    way one after the other; here a whole walk is one operation, so the theorems
    are about walks that no other one overlaps. *)

From S2P Require Import Prelude.

Module ResCounter.

Record res_counter := Counter {
  usage : Z; max_usage : Z; limit : Z; soft_limit : Z; failcnt : Z; parent : option Z
}.

Abbreviation RESOURCE_MAX := (2 ^ 63 - 1) (only parsing).

(** Counters by address. *)
Abbreviation heap := (gmap Z res_counter).

Definition res_counter_init (counter : res_counter) (p : option Z) : res_counter :=
  Counter (usage counter) (max_usage counter) RESOURCE_MAX RESOURCE_MAX (failcnt counter) p.

Definition set_usage (c : res_counter) (u : Z) : res_counter :=
  Counter u (max_usage c) (limit c) (soft_limit c) (failcnt c) (parent c).
Definition set_max_usage (c : res_counter) (m : Z) : res_counter :=
  Counter (usage c) m (limit c) (soft_limit c) (failcnt c) (parent c).
Definition set_failcnt (c : res_counter) (n : Z) : res_counter :=
  Counter (usage c) (max_usage c) (limit c) (soft_limit c) n (parent c).

(** ** One counter *)

Definition res_counter_charge_locked (counter : res_counter) (val : Z) : res_counter * Z :=
  if u64 (usage counter + val) >? limit counter then (set_failcnt counter (u64 (failcnt counter + 1)), - ENOMEM)
  else
    let counter := set_usage counter (u64 (usage counter + val)) in
    (if usage counter >? max_usage counter then set_max_usage counter (usage counter) else counter, 0).

Definition res_counter_uncharge_locked (counter : res_counter) (val : Z) : res_counter :=
  let val := if usage counter <? val then usage counter else val in
  set_usage counter (u64 (usage counter - val)).

Inductive member := RES_USAGE | RES_MAX_USAGE | RES_LIMIT | RES_FAILCNT | RES_SOFT_LIMIT.

Definition res_counter_read_u64 (counter : res_counter) (m : member) : Z :=
  match m with
  | RES_USAGE => usage counter | RES_MAX_USAGE => max_usage counter | RES_LIMIT => limit counter
  | RES_FAILCNT => failcnt counter | RES_SOFT_LIMIT => soft_limit counter
  end.

(** [parsed]: what the write strategy, or simple_strtoull, makes of the text;
    [None] if that fails or leaves a rest. *)
Definition res_counter_write (counter : res_counter) (m : member) (parsed : option Z) : res_counter * Z :=
  match parsed with
  | None => (counter, - EINVAL)
  | Some tmp =>
      (match m with
       | RES_USAGE => set_usage counter tmp
       | RES_MAX_USAGE => set_max_usage counter tmp
       | RES_LIMIT => Counter (usage counter) (max_usage counter) tmp (soft_limit counter) (failcnt counter) (parent counter)
       | RES_FAILCNT => set_failcnt counter tmp
       | RES_SOFT_LIMIT => Counter (usage counter) (max_usage counter) (limit counter) tmp (failcnt counter) (parent counter)
       end, 0)
  end.

Abbreviation res_counter_limit_check_locked cnt := (usage cnt <? limit cnt) (only parsing).
Abbreviation res_counter_soft_limit_check_locked cnt := (usage cnt <? soft_limit cnt) (only parsing).

Definition res_counter_soft_limit_excess (cnt : res_counter) : Z :=
  if usage cnt <=? soft_limit cnt then 0 else u64 (usage cnt - soft_limit cnt).

Definition res_counter_check_under_limit (cnt : res_counter) : bool := res_counter_limit_check_locked cnt.
Definition res_counter_check_under_soft_limit (cnt : res_counter) : bool := res_counter_soft_limit_check_locked cnt.
Definition res_counter_reset_max (cnt : res_counter) : res_counter := set_max_usage cnt (usage cnt).
Definition res_counter_reset_failcnt (cnt : res_counter) : res_counter := set_failcnt cnt 0.

Definition res_counter_set_limit (cnt : res_counter) (lim : Z) : res_counter * Z :=
  if usage cnt <=? lim then
    (Counter (usage cnt) (max_usage cnt) lim (soft_limit cnt) (failcnt cnt) (parent cnt), 0)
  else (cnt, - EBUSY).

Definition res_counter_set_soft_limit (cnt : res_counter) (lim : Z) : res_counter * Z :=
  (Counter (usage cnt) (max_usage cnt) (limit cnt) lim (failcnt cnt) (parent cnt), 0).

(** ** The hierarchy *)

(** [Err tt]: a pointer to no counter is followed. *)
Fixpoint charge_loop (fuel : nat) (h : heap) (c : option Z) (val : Z) : run unit (heap * option Z) :=
  match fuel with
  | O => Diverge
  | S fuel =>
      match c with
      | None => Ret (h, None)
      | Some p =>
          r ← of_option tt (h !! p);
          let '(r', ret) := res_counter_charge_locked r val in
          let h := <[p := r']> h in
          if ret <? 0 then Ret (h, Some p) else charge_loop fuel h (parent r') val
      end
  end.

Fixpoint undo_loop (fuel : nat) (h : heap) (u : option Z) (c : Z) (val : Z) : run unit heap :=
  match fuel with
  | O => Diverge
  | S fuel =>
      if decide (u = Some c) then Ret h
      else
        p ← of_option tt u;
        r ← of_option tt (h !! p);
        let r' := res_counter_uncharge_locked r val in
        undo_loop fuel (<[p := r']> h) (parent r') c val
  end.

(** The heap, the result and [*limit_fail_at]. *)
Definition res_counter_charge (h : heap) (counter : Z) (val : Z) : run unit (heap * Z * option Z) :=
  '(h, fail) ← charge_loop (S (size h)) h (Some counter) val;
  match fail with
  | None => Ret (h, 0, None)
  | Some c => h ← undo_loop (S (size h)) h (Some counter) c val; Ret (h, - ENOMEM, Some c)
  end.

Fixpoint uncharge_loop (fuel : nat) (h : heap) (c : option Z) (val : Z) : run unit heap :=
  match fuel with
  | O => Diverge
  | S fuel =>
      match c with
      | None => Ret h
      | Some p =>
          r ← of_option tt (h !! p);
          let r' := res_counter_uncharge_locked r val in
          uncharge_loop fuel (<[p := r']> h) (parent r') val
      end
  end.

Definition res_counter_uncharge (h : heap) (counter : Z) (val : Z) : run unit heap :=
  uncharge_loop (S (size h)) h (Some counter) val.

(** ** The path to the root *)

(** [path h c l]: [l] has the counters from [c] up to the root, and no cycle. *)
Inductive path (h : heap) : option Z -> list Z -> Prop :=
  | path_root : path h None []
  | path_up p r l : h !! p = Some r -> p ∉ l -> path h (parent r) l -> path h (Some p) (p :: l).

Definition counter_ok (r : res_counter) : Prop := 0 <= usage r < 2 ^ 64.

(** Changes one counter by [f], which keeps its parent. *)
Definition changed (f : res_counter -> res_counter) (l : list Z) (h h' : heap) : Prop :=
  forall p, h' !! p = if decide (p ∈ l) then f <$> h !! p else h !! p.

Definition keeps_parent (f : res_counter -> res_counter) : Prop := forall r, parent (f r) = parent r.

Lemma changed_nil f h : changed f [] h h.
Proof. intros p. rewrite decide_False by by apply not_elem_of_nil. done. Qed.

Lemma changed_cons f p l h h' r :
  h !! p = Some r -> p ∉ l -> changed f l (<[p := f r]> h) h' -> changed f (p :: l) h h'.
Proof.
  intros Hr Hp H q. rewrite H. destruct (decide (q = p)) as [->|Hne].
  - rewrite (decide_False (P := p ∈ l)), (decide_True (P := p ∈ p :: l)) by (done || by left). by rewrite lookup_insert_eq, Hr.
  - rewrite lookup_insert_ne by done. destruct (decide (q ∈ l)).
    + by rewrite decide_True by by right.
    + rewrite decide_False; [done |]. by intros [?|?]%elem_of_cons.
Qed.

Lemma path_nil_inv h c : path h c [] -> c = None.
Proof. by inversion 1. Qed.

Lemma path_cons_inv h c p l :
  path h c (p :: l) -> c = Some p /\ exists r, h !! p = Some r /\ p ∉ l /\ path h (parent r) l.
Proof. inversion 1; subst. split; [done |]. eauto. Qed.

(** Changes elsewhere do not matter to a path. *)
Lemma path_insert h c l p r : path h c l -> p ∉ l -> path (<[p := r]> h) c l.
Proof.
  induction 1 as [|q rq l Hq Hn Hpath IH]; intros Hp; [constructor |]. apply not_elem_of_cons in Hp as [Hne Hp].
  econstructor; [by rewrite lookup_insert_ne | done | by apply IH].
Qed.

Lemma path_length h c l : path h c l -> (length l <= size h)%nat.
Proof.
  intros Hp. assert (Hn : NoDup l /\ forall p, p ∈ l -> p ∈ dom h).
  { induction Hp as [|p r l Hr Hn _ [IH1 IH2]]; [split; [constructor | by intros ? ?%not_elem_of_nil] |].
    split; [by constructor |]. intros q [->|Hq]%elem_of_cons; [by apply elem_of_dom_2 in Hr | auto]. }
  destruct Hn as [Hn Hd]. rewrite <- size_dom, <- (size_list_to_set (C := gset Z) l Hn).
  apply subseteq_size. intros p Hp'%elem_of_list_to_set. auto.
Qed.

Lemma uncharge_loop_ok val l : forall fuel h c,
  path h c l -> (length l < fuel)%nat ->
  exists h', uncharge_loop fuel h c val = Ret h' /\ changed (fun r => res_counter_uncharge_locked r val) l h h'.
Proof.
  induction l as [|p l IH]; intros fuel h c Hp Hf; (destruct fuel as [|fuel]; [simpl in Hf; lia |]).
  - apply path_nil_inv in Hp as ->. exists h. split; [done | apply changed_nil].
  - apply path_cons_inv in Hp as (-> & r & H1 & H2 & Hp). cbn [uncharge_loop]. rewrite H1. cbn.
    destruct (IH fuel (<[p := res_counter_uncharge_locked r val]> h) (parent r)) as (h' & E & Hc).
    + by apply path_insert.
    + simpl in Hf. lia.
    + exists h'. split; [exact E | by eapply changed_cons].
Qed.

Lemma undo_loop_ok val pre p post : forall fuel h c,
  path h c (pre ++ p :: post) -> (length pre < fuel)%nat ->
  exists h', undo_loop fuel h c p val = Ret h' /\ changed (fun r => res_counter_uncharge_locked r val) pre h h'.
Proof.
  induction pre as [|q pre IH]; intros fuel h c Hp Hf; (destruct fuel as [|fuel]; [simpl in Hf; lia |]).
  - apply path_cons_inv in Hp as (-> & _). exists h. cbn [undo_loop]. rewrite decide_True by done.
    split; [done | apply changed_nil].
  - apply path_cons_inv in Hp as (-> & r & H1 & H2 & Hp). cbn [undo_loop]. rewrite decide_False.
    2: { intros [= ->]. apply H2. rewrite elem_of_app. right. by left. }
    cbn. rewrite H1. cbn.
    destruct (IH fuel (<[q := res_counter_uncharge_locked r val]> h) (parent r)) as (h' & E & Hc).
    + by apply path_insert.
    + simpl in Hf. lia.
    + exists h'. split; [exact E |]. eapply changed_cons; [done | | exact Hc].
      intros Hin. apply H2. apply elem_of_app. by left.
Qed.

(** Whether a counter has room, and what a charge makes of it. *)
Definition fits (val : Z) (r : res_counter) : bool := u64 (usage r + val) <=? limit r.
Definition charged (val : Z) (r : res_counter) : res_counter := (res_counter_charge_locked r val).1.

Lemma charge_locked_fits r val :
  res_counter_charge_locked r val = (charged val r, if fits val r then 0 else - ENOMEM) /\ parent (charged val r) = parent r.
Proof.
  unfold charged, fits, res_counter_charge_locked. rewrite Z.gtb_ltb.
  destruct (Z.ltb_spec (limit r) (u64 (usage r + val))); zbool; simpl; [done |]. split; [done |]. by case_match.
Qed.

Lemma charge_loop_ok val l : forall fuel h c,
  path h c l -> (length l < fuel)%nat ->
  (exists h', charge_loop fuel h c val = Ret (h', None) /\ changed (charged val) l h h' /\
     forall p r, p ∈ l -> h !! p = Some r -> fits val r = true) \/
  (exists pre p post h' r, l = pre ++ p :: post /\ charge_loop fuel h c val = Ret (h', Some p) /\
     changed (charged val) (pre ++ [p]) h h' /\ (forall q rq, q ∈ pre -> h !! q = Some rq -> fits val rq = true) /\
     h !! p = Some r /\ fits val r = false).
Proof.
  induction l as [|p l IH]; intros fuel h c Hp Hf; (destruct fuel as [|fuel]; [simpl in Hf; lia |]).
  { apply path_nil_inv in Hp as ->. left. exists h. split; [done |]. split; [apply changed_nil |].
    by intros p r ?%not_elem_of_nil. }
  apply path_cons_inv in Hp as (-> & r & H1 & H2 & Hp). cbn [charge_loop]. rewrite H1. cbn [of_option mbind run_bind].
  destruct (charge_locked_fits r val) as [E Ep]. rewrite E. destruct (fits val r) eqn:Ef.
  - change (0 <? 0) with false. rewrite Ep.
    assert (Hold : forall q rq, q ∈ l -> h !! q = Some rq -> <[p := charged val r]> h !! q = Some rq).
    { intros q rq Hq Hrq. rewrite lookup_insert_ne; [done |]. by intros ->. }
    destruct (IH fuel (<[p := charged val r]> h) (parent r)) as [(h' & El & Hc & Hfit)|(pre & q & post & h' & rq & ->
      & El & Hc & Hfit & Hq & Hov)].
    + by apply path_insert.
    + simpl in Hf. lia.
    + left. exists h'. split; [done |]. split; [by eapply changed_cons |].
      intros q rq [->|Hq]%elem_of_cons Hrq; [by simplify_eq | eauto].
    + right. exists (p :: pre), q, post, h', rq. split; [done |]. split; [done |].
      split; [eapply changed_cons; [done | | done] |].
      { intros Hin. apply H2. rewrite elem_of_app in *. rewrite list_elem_of_singleton in Hin. rewrite elem_of_cons. tauto. }
      split; [intros q' rq' [->|Hq']%elem_of_cons Hrq'; [by simplify_eq |] |].
      { eapply Hfit; [exact Hq' |]. apply Hold; [| done]. apply elem_of_app. by left. }
      split; [| done]. rewrite lookup_insert_ne in Hq; [done |]. intros ->. apply H2. rewrite elem_of_app. right. by left.
  - change (- ENOMEM <? 0) with true. right. exists [], p, l, (<[p := charged val r]> h), r. split; [done |]. split; [done |].
    split; [eapply changed_cons; [done | apply not_elem_of_nil | apply changed_nil] |].
    split; [by intros ? ? ?%not_elem_of_nil | done].
Qed.

Lemma path_changed f l' h h' c l : keeps_parent f -> changed f l' h h' -> path h c l -> path h' c l.
Proof.
  intros Hf Hc. induction 1 as [|p r l Hr Hn _ IH]; [constructor |].
  pose proof (Hc p) as E. rewrite Hr in E. destruct (decide (p ∈ l')); simpl in E.
  - econstructor; [exact E | done |]. by rewrite Hf.
  - by econstructor.
Qed.

Lemma charged_parent val : keeps_parent (charged val).
Proof. intros r. apply charge_locked_fits. Qed.

Lemma uncharged_parent val : keeps_parent (fun r => res_counter_uncharge_locked r val).
Proof. intros r. unfold res_counter_uncharge_locked. by case_match. Qed.

(** No sum wraps around. *)
Definition small (val : Z) (h : heap) (l : list Z) : Prop :=
  0 <= val /\ forall p r, p ∈ l -> h !! p = Some r -> 0 <= usage r /\ usage r + val < 2 ^ 64.

Lemma charged_eq val r :
  0 <= val -> 0 <= usage r -> usage r + val < 2 ^ 64 -> fits val r = true ->
  usage r + val <= limit r /\
  charged val r = Counter (usage r + val) (Z.max (max_usage r) (usage r + val)) (limit r) (soft_limit r) (failcnt r) (parent r).
Proof.
  intros Hv Hu Hs Hf. unfold fits, charged, res_counter_charge_locked in *. rewrite uwrap_small in * by lia.
  apply Z.leb_le in Hf. split; [done |]. zbool. cbn [fst usage set_usage max_usage].
  destruct (Z.ltb_spec (max_usage r) (usage r + val)); unfold set_usage, set_max_usage; simpl; f_equal; lia.
Qed.

Lemma charged_over val r :
  0 <= val -> 0 <= usage r -> usage r + val < 2 ^ 64 -> fits val r = false ->
  limit r < usage r + val /\ charged val r = set_failcnt r (u64 (failcnt r + 1)).
Proof.
  intros Hv Hu Hs Hf. unfold fits, charged, res_counter_charge_locked in *. rewrite uwrap_small in * by lia.
  apply Z.leb_gt in Hf. split; [done |]. by zbool.
Qed.

(** Taking a charge back leaves the usage as it was. *)
Lemma uncharge_charged val r :
  0 <= val -> 0 <= usage r -> usage r + val < 2 ^ 64 -> fits val r = true ->
  let r' := res_counter_uncharge_locked (charged val r) val in
  usage r' = usage r /\ limit r' = limit r /\ failcnt r' = failcnt r /\ max_usage r' = Z.max (max_usage r) (usage r + val).
Proof.
  intros Hv Hu Hs Hf r'. subst r'. destruct (charged_eq val r) as [_ ->]; try done.
  unfold res_counter_uncharge_locked. simpl. rewrite (proj2 (Z.ltb_ge _ _)) by lia. simpl.
  rewrite Z.add_simpl_r, uwrap_small by lia. done.
Qed.

(** What a charge leaves where it fails: usages and limits are as before, and only
    the counter that had no room counts a failure. *)
Definition refused (c : Z) (h h' : heap) : Prop :=
  forall p r, h !! p = Some r -> exists r', h' !! p = Some r' /\ usage r' = usage r /\ limit r' = limit r /\
    failcnt r' = if decide (p = c) then u64 (failcnt r + 1) else failcnt r.

Lemma charge_refused val pre c post h h1 h2 r :
  small val h (pre ++ c :: post) -> c ∉ pre -> h !! c = Some r -> fits val r = false ->
  (forall q rq, q ∈ pre -> h !! q = Some rq -> fits val rq = true) ->
  changed (charged val) (pre ++ [c]) h h1 -> changed (fun r => res_counter_uncharge_locked r val) pre h1 h2 -> refused c h h2.
Proof.
  intros [Hv Hs] Hc Hr Hf Hfit H1 H2 p rp Hp. rewrite (H2 p), (H1 p).
  destruct (decide (p = c)) as [->|Hne].
  - rewrite decide_False by done. rewrite decide_True by (apply elem_of_app; right; by left). rewrite Hr. simplify_eq. simpl.
    destruct (Hs c r) as [? ?]; [apply elem_of_app; right; by left | done |].
    destruct (charged_over val r) as [_ ->]; try done. by eexists.
  - destruct (decide (p ∈ pre)) as [Hin|Hin].
    + rewrite decide_True by (apply elem_of_app; by left). rewrite Hp. simpl.
      destruct (Hs p rp) as [? ?]; [apply elem_of_app; by left | done |].
      destruct (uncharge_charged val rp) as (E1 & E2 & E3 & _); eauto.
    + rewrite decide_False; [eauto |]. rewrite elem_of_app, list_elem_of_singleton. naive_solver.
Qed.

Lemma path_nodup h c l : path h c l -> NoDup l.
Proof. induction 1; by constructor. Qed.

(** ** Properties *)

(** C36: charging a counter charges it and all its ancestors, or none of them.  If all have room it returns 0, and an
    uncharge of the same amount restores every usage.  Otherwise it returns -ENOMEM and names the nearest counter
    without room, whose failure count it bumps; every usage is as before, also below that counter.  Counters off the path are not
    touched, and the walk ends. *)
Theorem res_counter_charge_correct h counter val l :
  path h (Some counter) l -> small val h l ->
  exists h' ret fail, res_counter_charge h counter val = Ret (h', ret, fail) /\ (forall p, p ∉ l -> h' !! p = h !! p) /\
  match fail with
  | None =>
      ret = 0 /\
      (forall p r, p ∈ l -> h !! p = Some r -> usage r + val <= limit r /\
         h' !! p = Some (Counter (usage r + val) (Z.max (max_usage r) (usage r + val)) (limit r) (soft_limit r)
           (failcnt r) (parent r))) /\
      exists h'', res_counter_uncharge h' counter val = Ret h'' /\
        forall p r, h !! p = Some r -> exists r', h'' !! p = Some r' /\ usage r' = usage r
  | Some c =>
      ret = - ENOMEM /\ refused c h h' /\
      exists pre post, l = pre ++ c :: post /\ (exists r, h !! c = Some r /\ limit r < usage r + val) /\
        forall q r, q ∈ pre -> h !! q = Some r -> usage r + val <= limit r
  end.
Proof.
  intros Hp Hsm. pose proof Hsm as [Hv Hs]. pose proof (path_length _ _ _ Hp) as Hlen. unfold res_counter_charge.
  destruct (charge_loop_ok val l (S (size h)) h (Some counter) Hp ltac:(lia))
    as [(h' & E & Hc & Hfit)|(pre & c & post & h1 & r & -> & E & Hc & Hfit & Hr & Hov)]; rewrite E; cbn [mbind run_bind].
  - exists h', 0, None. split; [done |]. split; [intros p Hn; rewrite (Hc p); by rewrite decide_False |].
    split; [done |]. split.
    + intros p r Hin Hr. destruct (Hs p r Hin Hr) as [? ?]. rewrite (Hc p), decide_True, Hr by done. simpl.
      destruct (charged_eq val r) as [? ->]; eauto.
    + assert (Hp' : path h' (Some counter) l) by (eapply path_changed; [apply charged_parent | done | done]).
      pose proof (path_length _ _ _ Hp'). destruct (uncharge_loop_ok val l (S (size h')) h' (Some counter) Hp'
        ltac:(lia)) as (h2 & E2 & H2).
      exists h2. split; [done |]. intros p r Hr. rewrite (H2 p), (Hc p). destruct (decide (p ∈ l)) as [Hin|]; [| eauto].
      destruct (Hs p r Hin Hr) as [? ?]. rewrite Hr. simpl. destruct (uncharge_charged val r) as [? _]; eauto.
  - pose proof (path_nodup _ _ _ Hp) as Hn. apply NoDup_app in Hn as (_ & Hd & _).
    assert (Hcp : c ∉ pre) by (intros Hin; apply (Hd c Hin); by left).
    assert (Hp' : path h1 (Some counter) (pre ++ c :: post)) by (eapply path_changed; [apply charged_parent | done | done]).
    pose proof (path_length _ _ _ Hp') as Hlen'. rewrite length_app in Hlen'.
    destruct (undo_loop_ok val pre c post (S (size h1)) h1 (Some counter) Hp' ltac:(lia)) as (h2 & E2 & H2). rewrite E2. cbn.
    exists h2, (- ENOMEM), (Some c). split; [done |]. split.
    { intros p Hn. rewrite elem_of_app, elem_of_cons in Hn. rewrite (H2 p), (Hc p).
      rewrite !decide_False; [done | rewrite elem_of_app, list_elem_of_singleton; tauto | tauto]. }
    split; [done |]. split; [by eapply charge_refused |]. exists pre, post. split; [done |]. split.
    + exists r. split; [done |]. destruct (Hs c r) as [? ?]; [apply elem_of_app; right; by left | done |]. by apply charged_over.
    + intros q rq Hq Hrq. destruct (Hs q rq) as [? ?]; [apply elem_of_app; by left | done |]. apply charged_eq; eauto.
Qed.

(** A group with room below one that has too little. *)
Definition two_groups : heap :=
  <[1 := Counter 10 10 100 RESOURCE_MAX 0 (Some 2)]> {[2 := Counter 30 35 40 RESOURCE_MAX 4 None]}.

Lemma two_groups_path : path two_groups (Some 1) [1; 2].
Proof.
  eapply path_up; [reflexivity | by intros [?|?%not_elem_of_nil]%elem_of_cons |].
  eapply path_up; [reflexivity | apply not_elem_of_nil | constructor].
Qed.

Lemma res_counter_charge_correct_witness :
  exists h', res_counter_charge two_groups 1 20 = Ret (h', - ENOMEM, Some 2) /\ refused 2 two_groups h' /\
    (exists r, h' !! 1 = Some r /\ usage r = 10 /\ max_usage r = 30).
Proof.
  destruct (res_counter_charge_correct two_groups 1 20 [1; 2] two_groups_path) as (h' & ret & fail & E & _ & H).
  - split; [lia |]. intros p r [->|[->|?%not_elem_of_nil]%elem_of_cons]%elem_of_cons Hr; vm_compute in Hr; simplify_eq;
      simpl; lia.
  - assert (E' : (ret, fail) = (- ENOMEM, Some 2)) by (vm_compute in E; by simplify_eq). injection E' as -> ->.
    exists h'. split; [exact E |]. destruct H as (_ & H & _). split; [exact H |].
    exists (Counter 10 30 100 RESOURCE_MAX 0 (Some 2)). split; [| split; reflexivity]. vm_compute in E.
    injection E as <-. reflexivity.
Defined.
End ResCounter.
