(* ===== verification/Resource.v ===== *)
(** * The resource tree (kernel/resource.c): requests and releases

    The resources are structures on a heap, linked by parent, sibling and child
    pointers; the operations walk and change these links, through a pointer to
    the link where the code has one.  The invariant says that the children of
    every resource are linked in the order of their ranges, do not overlap and
    lie inside it; here are the operations that link and unlink one resource. *)

From stdpp Require Import sorting.
From S2P Require Import Prelude.

Module Resource.

(** [resource_size_t] is 64 bit. *)
Record resource := Res {
  start : Z; end_ : Z; flags : Z;
  parent : option Z; sibling : option Z; child : option Z
}.

(** Resources by address. *)
Abbreviation heap := (gmap Z resource).

Definition set_range (s e : Z) (r : resource) : resource := Res s e (flags r) (parent r) (sibling r) (child r).
Definition set_parent (p : option Z) (r : resource) : resource := Res (start r) (end_ r) (flags r) p (sibling r) (child r).
Definition set_sibling (p : option Z) (r : resource) : resource := Res (start r) (end_ r) (flags r) (parent r) p (child r).
Definition set_child (p : option Z) (r : resource) : resource := Res (start r) (end_ r) (flags r) (parent r) (sibling r) p.

(** ** Memory accesses

    [Err tt]: a pointer to no resource is followed. *)

Definition deref (h : heap) (p : Z) : run unit resource := of_option tt (h !! p).
Definition update (h : heap) (p : Z) (f : resource -> resource) : run unit heap :=
  r ← deref h p; Ret (<[p := f r]> h).

(** What a [struct resource **] points to: the child or the sibling field. *)
Inductive cell := Child (p : Z) | Sibling (p : Z).

Definition load (h : heap) (c : cell) : run unit (option Z) :=
  match c with Child p => r ← deref h p; Ret (child r) | Sibling p => r ← deref h p; Ret (sibling r) end.
Definition store (h : heap) (c : cell) (v : option Z) : run unit heap :=
  match c with Child p => update h p (set_child v) | Sibling p => update h p (set_sibling v) end.

(** ** Requests *)

(** [new->sibling = tmp; *p = new; new->parent = root]. *)
Definition link (h : heap) (p : cell) (tmp : option Z) (root new : Z) : run unit heap :=
  h ← update h new (set_sibling tmp);
  h ← store h p (Some new);
  update h new (set_parent (Some root)).

Fixpoint request_loop (fuel : nat) (h : heap) (p : cell) (root new s e : Z) : run unit (heap * option Z) :=
  match fuel with
  | O => Diverge
  | S fuel =>
      tmp ← load h p;
      match tmp with
      | None => h ← link h p tmp root new; Ret (h, None)
      | Some t =>
          rt ← deref h t;
          if start rt >? e then h ← link h p tmp root new; Ret (h, None)
          else if end_ rt <? s then request_loop fuel h (Sibling t) root new s e
          else Ret (h, Some t)
      end
  end.

(** The heap and the conflicting resource, if any. *)
Definition __request_resource (h : heap) (root new : Z) : run unit (heap * option Z) :=
  rn ← deref h new;
  rr ← deref h root;
  if end_ rn <? start rn then Ret (h, Some root)
  else if start rn <? start rr then Ret (h, Some root)
  else if end_ rn >? end_ rr then Ret (h, Some root)
  else request_loop (S (size h)) h (Child root) root new (start rn) (end_ rn).

Definition request_resource (h : heap) (root new : Z) : run unit (heap * Z) :=
  '(h, conflict) ← __request_resource h root new;
  Ret (h, match conflict with Some _ => - EBUSY | None => 0 end).

(** ** Releases *)

Fixpoint release_loop (fuel : nat) (h : heap) (p : cell) (old : Z) : run unit (heap * Z) :=
  match fuel with
  | O => Diverge
  | S fuel =>
      tmp ← load h p;
      match tmp with
      | None => Ret (h, - EINVAL)
      | Some t =>
          if t =? old then
            rt ← deref h t;
            h ← store h p (sibling rt);
            h ← update h old (set_parent None);
            Ret (h, 0)
          else release_loop fuel h (Sibling t) old
      end
  end.

Definition __release_resource (h : heap) (old : Z) : run unit (heap * Z) :=
  ro ← deref h old;
  p ← of_option tt (parent ro);
  release_loop (S (size h)) h (Child p) old.

Definition release_resource (h : heap) (old : Z) : run unit (heap * Z) := __release_resource h old.

(** ** The tree *)

(** A field of the resource at an address. *)
Definition field {A} (f : resource -> A) (d : A) (h : heap) (p : Z) : A := match h !! p with Some r => f r | None => d end.
Abbreviation start_at := (field start 0).
Abbreviation end_at := (field end_ 0).
Abbreviation parent_at := (field parent None).
Abbreviation sibling_at := (field sibling None).
Abbreviation child_at := (field child None).

Definition first (l : list Z) (nxt : option Z) : option Z := match l with [] => nxt | q :: _ => Some q end.

(** The sibling pointers run through [l] and on to [nxt]. *)
Fixpoint seg (h : heap) (l : list Z) (nxt : option Z) : Prop :=
  match l with
  | [] => True
  | q :: l => is_Some (h !! q) /\ sibling_at h q = first l nxt /\ seg h l nxt
  end.

(** [q] may be a child of [p]. *)
Definition member (h : heap) (rk : Z -> nat) (p lo hi q : Z) : Prop :=
  parent_at h q = Some p /\ lo <= start_at h q /\ start_at h q <= end_at h q <= hi /\ (rk q < rk p)%nat.

Definition before (h : heap) (a b : Z) : Prop := end_at h a < start_at h b.

(** The children of [p], in order. *)
Record children (h : heap) (rk : Z -> nat) (p : Z) (l : list Z) : Prop := Children {
  ch_first : child_at h p = first l None;
  ch_seg : seg h l None;
  ch_member : Forall (member h rk p (start_at h p) (end_at h p)) l;
  ch_order : StronglySorted (before h) l
}.

(** Every resource has its children; [rk] falls from parent to child, so the
    links have no cycle. *)
Definition tree (h : heap) (rk : Z -> nat) : Prop := forall p, is_Some (h !! p) -> exists l, children h rk p l.

(** *** Segments *)

Lemma first_app l1 l2 nxt : first (l1 ++ l2) nxt = first l1 (first l2 nxt).
Proof. by destruct l1. Qed.

Lemma seg_app h l1 l2 nxt : seg h (l1 ++ l2) nxt <-> seg h l1 (first l2 nxt) /\ seg h l2 nxt.
Proof. induction l1 as [|q l1 IH]; simpl; [tauto |]. rewrite first_app, IH. tauto. Qed.

Lemma seg_agree h h' l nxt :
  (forall q, q ∈ l -> is_Some (h' !! q) /\ sibling_at h' q = sibling_at h q) -> seg h l nxt -> seg h' l nxt.
Proof.
  induction l as [|q l IH]; intros Ha Hs; [done |]. destruct Hs as (_ & Hsib & Hs). destruct (Ha q) as [? E]; [by left |].
  split; [done |]. rewrite E. split; [done |]. apply IH; [| done]. intros x Hx. apply Ha. by right.
Qed.

Lemma seg_elem h l nxt q : seg h l nxt -> q ∈ l -> is_Some (h !! q).
Proof.
  induction l as [|x l IH]; intros Hs; [by intros ?%not_elem_of_nil |]. destruct Hs as (? & _ & ?).
  intros [->|?]%elem_of_cons; auto.
Qed.

(** *** Ranges *)

Lemma member_agree h h' rk p lo hi q :
  parent_at h' q = parent_at h q -> start_at h' q = start_at h q -> end_at h' q = end_at h q ->
  member h rk p lo hi q -> member h' rk p lo hi q.
Proof. unfold member. by intros -> -> ->. Qed.

Lemma order_agree h h' l :
  (forall q, q ∈ l -> start_at h' q = start_at h q /\ end_at h' q = end_at h q) ->
  StronglySorted (before h) l -> StronglySorted (before h') l.
Proof.
  intros Ha Hs. induction Hs as [|q l Hs IH Hf]; [constructor |]. constructor; [apply IH; intros x Hx; apply Ha; by right |].
  apply Forall_forall. intros x Hx. rewrite Forall_forall in Hf. unfold before in *.
  destruct (Ha q) as [_ ->]; [by left |]. destruct (Ha x) as [-> _]; [by right |]. by apply Hf.
Qed.

Lemma children_nodup h rk p l : children h rk p l -> NoDup l.
Proof.
  intros [_ _ Hm Ho]. induction Ho as [|q l Ho IH Hf]; [constructor |]. apply Forall_cons in Hm as [Hq Hm].
  constructor; [| auto]. intros Hin. rewrite Forall_forall in Hf. specialize (Hf q Hin). unfold before in Hf.
  destruct Hq as (_ & _ & ? & _). lia.
Qed.

Lemma children_parent h rk p l q : children h rk p l -> q ∈ l -> parent_at h q = Some p /\ is_Some (h !! q).
Proof.
  intros [_ Hs Hm _] Hq. rewrite Forall_forall in Hm. split; [by apply Hm | by eapply seg_elem].
Qed.

Lemma seg_unique h l1 : forall l2 o, seg h l1 None -> seg h l2 None -> o = first l1 None -> o = first l2 None -> l1 = l2.
Proof.
  induction l1 as [|q l1 IH]; intros l2 o H1 H2 E1 E2; subst o; destruct l2 as [|q2 l2]; simplify_eq/=; [done |].
  destruct H1 as (_ & S1 & H1), H2 as (_ & S2 & H2). f_equal. eapply IH; [done | done | done |]. congruence.
Qed.

Lemma children_unique h rk rk' p l l' : children h rk p l -> children h rk' p l' -> l = l'.
Proof. intros [F1 S1 _ _] [F2 S2 _ _]. by eapply seg_unique. Qed.

Lemma nodup_size h (l : list Z) : NoDup l -> (forall q, q ∈ l -> is_Some (h !! q)) -> (length l <= size (h : heap))%nat.
Proof.
  intros Hn Hd. rewrite <- size_dom, <- (size_list_to_set (C := gset Z) l Hn). apply subseteq_size.
  intros p Hp%elem_of_list_to_set. apply elem_of_dom. auto.
Qed.

Lemma children_length h rk p l : children h rk p l -> (length l <= size h)%nat.
Proof. intros Hc. apply nodup_size; [by eapply children_nodup |]. intros q Hq. by eapply children_parent. Qed.

(** The links of a resource that a change does not touch. *)
Definition same_links (h h' : heap) (q : Z) : Prop :=
  is_Some (h' !! q) /\ sibling_at h' q = sibling_at h q /\ parent_at h' q = parent_at h q /\
  start_at h' q = start_at h q /\ end_at h' q = end_at h q.

Lemma children_agree h h' rk rk' p l :
  (forall q, q ∈ l -> same_links h h' q /\ (rk' q < rk' p)%nat) ->
  child_at h' p = child_at h p -> start_at h' p = start_at h p -> end_at h' p = end_at h p ->
  children h rk p l -> children h' rk' p l.
Proof.
  intros Ha Ec Es Ee [F S M O]. split.
  - by rewrite Ec.
  - eapply seg_agree; [| exact S]. intros q Hq. destruct (Ha q Hq) as [(? & ? & _) _]. done.
  - rewrite Es, Ee. rewrite Forall_forall in *. intros q Hq. destruct (Ha q Hq) as [(_ & _ & E1 & E2 & E3) Hr].
    destruct (M q Hq) as (M1 & M2 & M3 & _). unfold member. by rewrite E1, E2, E3.
  - eapply order_agree; [| exact O]. intros q Hq. destruct (Ha q Hq) as [(_ & _ & _ & E2 & E3) _]. done.
Qed.

(** ** Linking a resource *)

Definition owner (c : cell) : Z := match c with Child p => p | Sibling p => p end.
Definition set_cell (c : cell) (v : option Z) (r : resource) : resource :=
  match c with Child _ => set_child v r | Sibling _ => set_sibling v r end.

(** The link that points behind [l1], among the children of [p]. *)
Definition cell_after (p : Z) (l1 : list Z) : cell := match last l1 with None => Child p | Some q => Sibling q end.

Lemma store_ok h c v r : h !! owner c = Some r -> store h c v = Ret (<[owner c := set_cell c v r]> h).
Proof. intros Hr. destruct c; simpl in *; unfold update, deref; by rewrite Hr. Qed.

Lemma load_ok h c r : h !! owner c = Some r -> load h c = Ret (match c with Child _ => child r | Sibling _ => sibling r end).
Proof. intros Hr. destruct c; simpl in *; unfold deref; by rewrite Hr. Qed.

Lemma update_ok h p f r : h !! p = Some r -> update h p f = Ret (<[p := f r]> h).
Proof. intros Hr. unfold update, deref. by rewrite Hr. Qed.

Definition linked (h : heap) (c : cell) (tmp : option Z) (root new : Z) (ro rn : resource) : heap :=
  <[new := set_parent (Some root) (set_sibling tmp rn)]> (<[owner c := set_cell c (Some new) ro]> h).

Lemma link_ok h c tmp root new ro rn :
  owner c <> new -> h !! new = Some rn -> h !! owner c = Some ro ->
  link h c tmp root new = Ret (linked h c tmp root new ro rn).
Proof.
  intros Hne Hn Ho. unfold link. rewrite (update_ok _ _ _ _ Hn). cbn [mbind run_bind].
  rewrite (store_ok _ _ _ ro) by by rewrite lookup_insert_ne. cbn [mbind run_bind].
  rewrite (update_ok _ _ _ (set_sibling tmp rn)) by by rewrite lookup_insert_ne, lookup_insert_eq.
  f_equal. unfold linked. rewrite (insert_insert_ne h) by done. by rewrite insert_insert_eq.
Qed.

Lemma field_insert_eq {A} (f : resource -> A) d h p r : field f d (<[p := r]> h) p = f r.
Proof. unfold field. by rewrite lookup_insert_eq. Qed.

Lemma field_insert_ne {A} (f : resource -> A) d h p q r : p <> q -> field f d (<[p := r]> h) q = field f d h q.
Proof. intros. unfold field. by rewrite lookup_insert_ne. Qed.

Lemma field_some {A} (f : resource -> A) d h p r : h !! p = Some r -> field f d h p = f r.
Proof. intros E. unfold field. by rewrite E. Qed.

(** A change at [p] that keeps the field. *)
Lemma field_insert_same {A} (f : resource -> A) d h p q r r' :
  h !! p = Some r -> f r' = f r -> field f d (<[p := r']> h) q = field f d h q.
Proof.
  intros Hr E. destruct (decide (p = q)) as [->|]; [| by apply field_insert_ne].
  by rewrite field_insert_eq, (field_some _ _ _ _ _ Hr).
Qed.

Lemma sorted_insert {A} (R : A -> A -> Prop) l1 l2 x :
  StronglySorted R (l1 ++ l2) -> Forall (fun a => R a x) l1 -> Forall (R x) l2 -> StronglySorted R (l1 ++ x :: l2).
Proof.
  induction l1 as [|a l1 IH]; simpl; intros Hs H1 H2; [by constructor |].
  apply StronglySorted_inv in Hs as [Hs Ha]. apply Forall_cons in H1 as [Hax H1]. constructor; [auto |].
  rewrite Forall_app in *. destruct Ha. split; [done |]. by constructor.
Qed.

(** [new] gets the lowest rank. *)
Definition bump (rk : Z -> nat) (new : Z) : Z -> nat := fun p => if decide (p = new) then 0%nat else S (rk p).

(** A resource that is not linked anywhere is nobody's child. *)
Lemma not_new h rk p l new q : parent_at h new = None -> children h rk p l -> q ∈ l -> q <> new.
Proof. intros Hp Hl Hq ->. destruct (children_parent _ _ _ _ _ Hl Hq) as [E _]. congruence. Qed.

Lemma rank_child h rk p l q : children h rk p l -> q ∈ l -> (rk q < rk p)%nat.
Proof.
  intros Hl Hq. pose proof (ch_member _ _ _ _ Hl) as Hm. rewrite Forall_forall in Hm. by destruct (Hm q Hq) as (_ & _ & _ & ?).
Qed.

Lemma cell_after_cases p l1 :
  l1 = [] /\ cell_after p l1 = Child p \/ exists l t, l1 = l ++ [t] /\ cell_after p l1 = Sibling t.
Proof.
  unfold cell_after. induction l1 as [|t l _] using rev_ind; [by left |]. right. exists l, t. by rewrite last_snoc.
Qed.

Lemma owner_some h rk root l1 l2 new :
  is_Some (h !! root) -> children h rk root (l1 ++ l2) -> parent_at h new = None -> new <> root ->
  exists ro, h !! owner (cell_after root l1) = Some ro /\ owner (cell_after root l1) <> new.
Proof.
  intros [rr Hr] Hc Hp Hnr. destruct (cell_after_cases root l1) as [(-> & ->)|(l & t & -> & ->)]; simpl; [eauto |].
  assert (Hin : t ∈ (l ++ [t]) ++ l2) by (rewrite !elem_of_app; left; right; by left).
  destruct (children_parent _ _ _ _ _ Hc Hin) as [_ [ro Hro]]. exists ro. split; [done |]. by eapply not_new.
Qed.

(** What a change of one link and of one resource [x] leaves alone. *)
Definition relinked (h : heap) (c : cell) (v : option Z) (x : Z) (ro rx : resource) : heap :=
  <[x := rx]> (<[owner c := set_cell c v ro]> h).

Lemma relinked_fields h c v x ro rx q :
  h !! owner c = Some ro -> q <> x ->
  let h' := relinked h c v x ro rx in
  (is_Some (h !! q) -> is_Some (h' !! q)) /\ start_at h' q = start_at h q /\ end_at h' q = end_at h q /\
  parent_at h' q = parent_at h q /\
  (c = Sibling q \/ sibling_at h' q = sibling_at h q) /\ (c = Child q \/ child_at h' q = child_at h q).
Proof.
  intros Ho Hq h'. subst h'. unfold relinked. rewrite !(field_insert_ne _ _ _ x) by congruence. rewrite lookup_insert_ne by done.
  split; [destruct (decide (owner c = q)) as [->|]; [by rewrite lookup_insert_eq | by rewrite lookup_insert_ne] |].
  split; [by apply (field_insert_same _ _ _ _ _ ro); destruct c |].
  split; [by apply (field_insert_same _ _ _ _ _ ro); destruct c |].
  split; [by apply (field_insert_same _ _ _ _ _ ro); destruct c |].
  destruct (decide (owner c = q)) as [<-|]; [| split; right; by apply field_insert_ne].
  destruct c; simpl; split; auto; right; by apply (field_insert_same _ _ _ _ _ ro).
Qed.

Lemma linked_fields h c tmp root new ro rn q :
  h !! owner c = Some ro -> q <> new ->
  let h' := linked h c tmp root new ro rn in
  (is_Some (h !! q) -> is_Some (h' !! q)) /\ start_at h' q = start_at h q /\ end_at h' q = end_at h q /\
  parent_at h' q = parent_at h q /\
  (c = Sibling q \/ sibling_at h' q = sibling_at h q) /\ (c = Child q \/ child_at h' q = child_at h q).
Proof. apply relinked_fields. Qed.

Lemma linked_new h c tmp root new ro rn :
  let h' := linked h c tmp root new ro rn in
  h' !! new = Some (set_parent (Some root) (set_sibling tmp rn)).
Proof. apply lookup_insert_eq. Qed.

(** The conditions under which [new] goes between [l1] and [l2]. *)
Record linkable (h : heap) (rk : Z -> nat) (root new : Z) (rn : resource) (l1 l2 : list Z) : Prop := Linkable {
  lk_tree : tree h rk;
  lk_children : children h rk root (l1 ++ l2);
  lk_new : h !! new = Some rn;
  lk_parent : parent rn = None;
  lk_child : child rn = None;
  lk_ne : new <> root;
  lk_root : is_Some (h !! root);
  lk_range : start_at h root <= start rn /\ start rn <= end_ rn <= end_at h root;
  lk_before : Forall (fun q => end_at h q < start rn) l1;
  lk_after : Forall (fun q => end_ rn < start_at h q) l2
}.

Section linking.
Context (h : heap) (rk : Z -> nat) (root new : Z) (ro rn : resource) (l1 l2 : list Z).
Context (L : linkable h rk root new rn l1 l2).
#[local] Abbreviation c := (cell_after root l1).
Context (Ho : h !! owner c = Some ro).
#[local] Abbreviation h' := (linked h c (first l2 None) root new ro rn).

#[local] Set Default Proof Using "All".

Lemma new_parent : parent_at h new = None.
Proof. rewrite (field_some _ _ _ _ _ (lk_new _ _ _ _ _ _ _ L)). apply L. Qed.

(** The children of others. *)
Lemma linked_same p l q : p <> root -> children h rk p l -> q ∈ l -> same_links h h' q /\
  (bump rk new q < bump rk new p)%nat \/ p = new.
Proof.
  intros Hp Hl Hq. destruct (decide (p = new)) as [->|Hpn]; [by right | left].
  pose proof (not_new _ _ _ _ _ _ new_parent Hl Hq) as Hqn.
  destruct (linked_fields h c (first l2 None) root new ro rn q Ho Hqn) as (F1 & F2 & F3 & F4 & F5 & _).
  destruct (children_parent _ _ _ _ _ Hl Hq) as [Epar Hs].
  split.
  - split_and!; auto. destruct F5 as [Ec|]; [| done].
    destruct (cell_after_cases root l1) as [(_ & Ec')|(l0 & t & El & Ec')]; [congruence |].
    assert (t = q) as -> by congruence. assert (Hin : q ∈ l1 ++ l2) by (rewrite El, !elem_of_app; left; right; by left).
    destruct (children_parent _ _ _ _ _ (lk_children _ _ _ _ _ _ _ L) Hin). congruence.
  - unfold bump. rewrite !decide_False by done. pose proof (rank_child _ _ _ _ _ Hl Hq). lia.
Qed.

Lemma linked_other p l : p <> root -> children h rk p l -> children h' (bump rk new) p l.
Proof.
  intros Hp Hl. destruct (decide (p = new)) as [->|Hpn].
  - assert (l = []) as ->.
    { pose proof (ch_first _ _ _ _ Hl) as E.
      rewrite (field_some _ _ _ _ _ (lk_new _ _ _ _ _ _ _ L)), (lk_child _ _ _ _ _ _ _ L) in E.
      by destruct l. }
    split; [| done | constructor | constructor]. rewrite (field_some _ _ _ _ _ (linked_new _ _ _ _ _ _ _)). simpl. apply L.
  - destruct (linked_fields h c (first l2 None) root new ro rn p Ho Hpn) as (_ & F2 & F3 & _ & _ & F6).
    apply (children_agree h _ rk); try done.
    + intros q Hq. by destruct (linked_same p l q Hp Hl Hq).
    + destruct F6 as [Ec|]; [| done]. destruct (cell_after_cases root l1) as [(_ & Ec')|(l0 & t & El & Ec')]; congruence.
Qed.
(** The links of the children of [root], but for the one that now leads to [new]. *)
Lemma linked_child q : q ∈ l1 ++ l2 -> c <> Sibling q -> same_links h h' q.
Proof.
  intros Hq Hc. pose proof (not_new _ _ _ _ _ _ new_parent (lk_children _ _ _ _ _ _ _ L) Hq) as Hqn.
  destruct (linked_fields h c (first l2 None) root new ro rn q Ho Hqn) as (F1 & F2 & F3 & F4 & F5 & _).
  split_and!; try done; [| by destruct F5]. apply F1. by eapply children_parent; [apply L |].
Qed.

Lemma linked_seg : child_at h' root = first (l1 ++ new :: l2) None /\ seg h' (l1 ++ new :: l2) None.
Proof.
  pose proof (lk_children _ _ _ _ _ _ _ L) as Hc. pose proof (children_nodup _ _ _ _ Hc) as Hnd.
  destruct (linked_fields h c (first l2 None) root new ro rn root Ho ltac:(apply not_eq_sym, L)) as (_ & _ & _ & _ & _ & Froot).
  pose proof (ch_seg _ _ _ _ Hc) as Hs. apply seg_app in Hs as [S1 S2].
  assert (Snew : seg h' (new :: l2) None).
  { simpl. rewrite (linked_new h c (first l2 None) root new ro rn), (field_some _ _ _ _ _ (linked_new _ _ _ _ _ _ _)).
    split; [eauto |]. split; [done |]. eapply seg_agree; [| exact S2]. intros q Hq.
    destruct (linked_child q) as (? & ? & _); [by apply elem_of_app; right | | done].
    intros Ec. destruct (cell_after_cases root l1) as [(_ & Ec')|(l & t & El & Ec')]; [congruence |].
    assert (t = q) as -> by congruence. rewrite El in Hnd. apply NoDup_app in Hnd as (_ & Hd & _).
    apply (Hd q); [apply elem_of_app; right; by left | done]. }
  destruct (cell_after_cases root l1) as [(El & Ec)|(l & t & El & Ec)].
  - rewrite El in *. split; [| exact Snew]. unfold linked. rewrite Ec. simpl. rewrite field_insert_ne by apply L.
    by rewrite field_insert_eq.
  - assert (Hct : child_at h' root = child_at h root) by (destruct Froot as [Ec'|]; [congruence | done]).
    split; [rewrite Hct, (ch_first _ _ _ _ Hc), El; by destruct l |]. apply seg_app. split; [| done].
    rewrite El in S1. apply seg_app in S1 as [S0 St]. rewrite El in Hnd.
    enough (Hseg : seg h' (l ++ [t]) (Some new)) by by rewrite <- El in Hseg. apply seg_app. split.
    + eapply seg_agree; [| exact S0]. intros q Hq. destruct (linked_child q) as (? & ? & _);
        [rewrite El, !elem_of_app; auto | | done].
      intros Ec'. assert (t = q) as -> by congruence. rewrite <- app_assoc in Hnd. apply NoDup_app in Hnd as (_ & Hd & _).
      apply (Hd q Hq). by left.
    + simpl. assert (t <> new) by (eapply not_new; [exact new_parent | exact Hc | rewrite El, !elem_of_app; left;
        right; by left]).
      unfold linked. rewrite Ec. simpl. rewrite lookup_insert_ne, lookup_insert_eq by done.
      rewrite field_insert_ne, field_insert_eq by done. simpl. eauto.
Qed.

Lemma linked_root : children h' (bump rk new) root (l1 ++ new :: l2).
Proof.
  pose proof (lk_children _ _ _ _ _ _ _ L) as Hc. destruct linked_seg as [Hf Hs]. split; [exact Hf | exact Hs | |].
  - pose proof (ch_member _ _ _ _ Hc) as Hm. rewrite Forall_forall in *. intros q Hq.
    destruct (linked_fields h c (first l2 None) root new ro rn root Ho ltac:(apply not_eq_sym, L)) as (_ & -> & -> & _).
    destruct (decide (q = new)) as [->|Hqn].
    + unfold member. rewrite !(field_some _ _ _ _ _ (linked_new _ _ _ _ _ _ _)). simpl.
      split; [done |]. destruct (lk_range _ _ _ _ _ _ _ L). split; [done |]. split; [done |].
      unfold bump. rewrite decide_True by done. rewrite decide_False by (apply not_eq_sym, L). lia.
    + assert (Hq' : q ∈ l1 ++ l2) by (rewrite elem_of_app, elem_of_cons in Hq; rewrite elem_of_app; tauto).
      destruct (linked_fields h c (first l2 None) root new ro rn q Ho Hqn) as (_ & F2 & F3 & F4 & _).
      destruct (Hm q Hq') as (M1 & M2 & M3 & M4). unfold member. rewrite F2, F3, F4.
      split_and!; try done; [apply M3 | apply M3 |].
      unfold bump. rewrite !decide_False; [lia | apply not_eq_sym, L | done].
  - assert (Ha : forall q, q ∈ l1 ++ l2 -> start_at h' q = start_at h q /\ end_at h' q = end_at h q).
    { intros q Hq. pose proof (not_new _ _ _ _ _ _ new_parent Hc Hq) as Hqn.
      by destruct (linked_fields h c (first l2 None) root new ro rn q Ho Hqn) as (_ & F2 & F3 & _). }
    assert (En : start_at h' new = start rn /\ end_at h' new = end_ rn)
      by (by rewrite !(field_some _ _ _ _ _ (linked_new _ _ _ _ _ _ _))). destruct En as [Es Ee].
    apply sorted_insert.
    + eapply order_agree; [exact Ha | apply Hc].
    + pose proof (lk_before _ _ _ _ _ _ _ L) as Hb. rewrite Forall_forall in *. intros q Hq. unfold before.
      destruct (Ha q) as [_ ->]; [apply elem_of_app; by left |]. rewrite Es. by apply Hb.
    + pose proof (lk_after _ _ _ _ _ _ _ L) as Hb. rewrite Forall_forall in *. intros q Hq. unfold before.
      destruct (Ha q) as [-> _]; [apply elem_of_app; by right |]. rewrite Ee. by apply Hb.
Qed.

Lemma linked_tree : tree h' (bump rk new).
Proof.
  intros p Hp. destruct (decide (p = root)) as [->|Hpr]; [eexists; apply linked_root |].
  assert (Hp' : is_Some (h !! p)).
  { unfold linked in Hp. destruct (decide (p = new)) as [->|]; [rewrite (lk_new _ _ _ _ _ _ _ L); eauto |].
    rewrite lookup_insert_ne in Hp by done. destruct (decide (p = owner c)) as [->|]; [eauto |].
    by rewrite lookup_insert_ne in Hp. }
  destruct (lk_tree _ _ _ _ _ _ _ L p Hp') as [l Hl]. exists l. by apply linked_other.
Qed.
End linking.
(** ** The request *)

Lemma load_after h rk root l1 l2 :
  is_Some (h !! root) -> children h rk root (l1 ++ l2) -> load h (cell_after root l1) = Ret (first l2 None).
Proof.
  intros [rr Hr] Hc. pose proof (ch_seg _ _ _ _ Hc) as Hs. apply seg_app in Hs as [S1 S2].
  destruct (cell_after_cases root l1) as [(-> & ->)|(l & t & -> & ->)].
  - rewrite (load_ok _ _ rr) by done. pose proof (ch_first _ _ _ _ Hc) as E. rewrite (field_some _ _ _ _ _ Hr) in E. by rewrite E.
  - apply seg_app in S1 as [_ [[rt Ht] [E _]]]. rewrite (load_ok _ _ rt) by done.
    rewrite (field_some _ _ _ _ _ Ht) in E. by rewrite E.
Qed.

Lemma cell_after_snoc p l t : cell_after p (l ++ [t]) = Sibling t.
Proof. unfold cell_after. by rewrite last_snoc. Qed.

(** The children from the first one that starts above [e] on all do. *)
Lemma starts_above h rk p l1 t l2 e :
  children h rk p (l1 ++ t :: l2) -> e < start_at h t -> Forall (fun q => e < start_at h q) (t :: l2).
Proof.
  intros Hc He. pose proof (ch_order _ _ _ _ Hc) as Ho. pose proof (ch_member _ _ _ _ Hc) as Hm.
  apply Forall_app in Hm as [_ [Ht _]%Forall_cons]. destruct Ht as (_ & _ & Ht & _).
  apply StronglySorted_app_1_r in Ho. apply StronglySorted_inv in Ho as [_ Ho]. constructor; [done |].
  eapply Forall_impl; [exact Ho |]. unfold before. intros q Hq. lia.
Qed.

Lemma request_loop_ok h rk root new s e l2 : forall fuel l1,
  is_Some (h !! root) -> children h rk root (l1 ++ l2) -> (length l2 < fuel)%nat ->
  (exists a b, l2 = a ++ b /\ Forall (fun q => end_at h q < s) a /\ Forall (fun q => e < start_at h q) b /\
     request_loop fuel h (cell_after root l1) root new s e =
       (h ← link h (cell_after root (l1 ++ a)) (first b None) root new; Ret (h, None))) \/
  (exists a t b, l2 = a ++ t :: b /\ Forall (fun q => end_at h q < s) a /\ start_at h t <= e /\ s <= end_at h t /\
     request_loop fuel h (cell_after root l1) root new s e = Ret (h, Some t)).
Proof.
  induction l2 as [|t l2 IH]; intros fuel l1 Hr Hc Hf; (destruct fuel as [|fuel]; [simpl in Hf; lia |]);
    cbn [request_loop]; rewrite (load_after _ rk _ _ _ Hr Hc); cbn [first mbind run_bind].
  { left. exists [], []. rewrite (app_nil_r l1). do 3 (split; [done || constructor |]). done. }
  assert (Hin : t ∈ l1 ++ t :: l2) by (apply elem_of_app; right; by left).
  destruct (children_parent _ _ _ _ _ Hc Hin) as [_ [rt Ht]]. unfold deref. rewrite Ht. cbn [of_option mbind run_bind].
  rewrite Z.gtb_ltb. destruct (Z.ltb_spec e (start rt)) as [He|He].
  { left. exists [], (t :: l2). rewrite (app_nil_r l1). split; [done |]. split; [constructor |]. split; [| done].
    eapply starts_above; [done |]. by rewrite (field_some _ _ _ _ _ Ht). }
  destruct (Z.ltb_spec (end_ rt) s) as [Hs|Hs].
  - rewrite <- (cell_after_snoc root l1 t). rewrite cons_middle, app_assoc in Hc.
    assert (Et : end_at h t < s) by by rewrite (field_some _ _ _ _ _ Ht).
    destruct (IH fuel (l1 ++ [t]) Hr Hc ltac:(simpl in Hf; lia)) as [(a & b & -> & Ha & Hb & E)|(a & t' & b & ->
      & Ha & H1 & H2 & E)]; rewrite E.
    + left. exists (t :: a), b. split; [done |]. split; [by constructor |]. split; [done |]. by rewrite <- app_assoc.
    + right. exists (t :: a), t', b. split; [done |]. split; [by constructor | done].
  - right. exists [], t, l2. rewrite !(field_some _ _ _ _ _ Ht). split; [done |]. split; [constructor | done].
Qed.

(** A resource that can be requested: its structure is not in use. *)
Definition unlinked (h : heap) (new : Z) (rn : resource) : Prop := h !! new = Some rn /\ parent rn = None /\ child rn = None.

Definition overlaps (h : heap) (p : Z) (rn : resource) : Prop := start_at h p <= end_ rn /\ start rn <= end_at h p.

(** The request links [new] at its place, or reports the root if the range is not
    inside it, or the first child in the way; then nothing changes. *)
Lemma request_ok h rk root new rn l :
  tree h rk -> is_Some (h !! root) -> children h rk root l -> unlinked h new rn -> new <> root ->
  (exists l1 l2 h', l = l1 ++ l2 /\ __request_resource h root new = Ret (h', None) /\
     linkable h rk root new rn l1 l2 /\
     exists ro, h !! owner (cell_after root l1) = Some ro /\ h' = linked h (cell_after root l1) (first l2 None) root new ro rn) \/
  (exists c, __request_resource h root new = Ret (h, Some c) /\
     (c = root /\ ~ (start_at h root <= start rn /\ start rn <= end_ rn <= end_at h root) \/
      start_at h root <= start rn /\ start rn <= end_ rn <= end_at h root /\ overlaps h c rn /\
      exists l1 l2, l = l1 ++ c :: l2 /\ Forall (fun q => end_at h q < start rn) l1)).
Proof.
  intros Ht Hr Hc (Hn & Hp & Hch) Hne. pose proof Hr as [rr Err]. unfold __request_resource, deref.
  rewrite Hn, Err. cbn [of_option mbind run_bind]. rewrite !(field_some _ _ _ _ _ Err).
  destruct (Z.ltb_spec (end_ rn) (start rn)); [right; eexists; split; [done | left; split; [done | lia]] |].
  destruct (Z.ltb_spec (start rn) (start rr)); [right; eexists; split; [done | left; split; [done | lia]] |].
  rewrite Z.gtb_ltb. destruct (Z.ltb_spec (end_ rr) (end_ rn)); [right; eexists; split; [done | left; split; [done | lia]] |].
  pose proof (children_length _ _ _ _ Hc) as Hlen. change (Child root) with (cell_after root []).
  destruct (request_loop_ok h rk root new (start rn) (end_ rn) l (S (size h)) [] Hr Hc ltac:(lia))
    as [(a & b & -> & Ha & Hb & E)|(a & t & b & -> & Ha & H1' & H2' & E)]; rewrite E; simpl app.
  - left. destruct (owner_some h rk root a b new Hr Hc) as (ro & Ho & Hon); [by rewrite (field_some _ _ _ _ _ Hn) | done |].
    rewrite (link_ok _ _ _ _ _ ro rn) by done. cbn [mbind run_bind]. eexists a, b, _. split; [done |]. split; [done |].
    split; [| by exists ro]. split; try done. rewrite !(field_some _ _ _ _ _ Err). lia.
  - right. exists t. split; [done |]. right. split; [lia |]. split; [lia |]. split; [done |]. by exists a, b.
Qed.

(** ** The release *)

(** [old] taken out of the children [l1 ++ old :: l2] of [root]. *)
Definition removed (h : heap) (root old : Z) (l1 : list Z) (ro rold : resource) : heap :=
  relinked h (cell_after root l1) (sibling rold) old ro (set_parent None rold).

Lemma release_loop_ok h rk root old rold l2 : forall fuel l1,
  is_Some (h !! root) -> children h rk root (l1 ++ l2) -> h !! old = Some rold -> (length l2 < fuel)%nat ->
  (exists a b ro, l2 = a ++ old :: b /\ h !! owner (cell_after root (l1 ++ a)) = Some ro /\
     owner (cell_after root (l1 ++ a)) <> old /\
     release_loop fuel h (cell_after root l1) old = Ret (removed h root old (l1 ++ a) ro rold, 0)) \/
  (old ∉ l2 /\ release_loop fuel h (cell_after root l1) old = Ret (h, - EINVAL)).
Proof.
  induction l2 as [|t l2 IH]; intros fuel l1 Hr Hc Hold Hf; (destruct fuel as [|fuel]; [simpl in Hf; lia |]);
    cbn [release_loop]; rewrite (load_after _ rk _ _ _ Hr Hc); cbn [first mbind run_bind].
  { right. split; [apply not_elem_of_nil | done]. }
  pose proof (children_nodup _ _ _ _ Hc) as Hnd.
  assert (Hin : t ∈ l1 ++ t :: l2) by (apply elem_of_app; right; by left).
  destruct (Z.eqb_spec t old) as [->|Hne].
  - left. exists [], l2. rewrite (app_nil_r l1).
    assert (exists ro, h !! owner (cell_after root l1) = Some ro /\ owner (cell_after root l1) <> old) as (ro & Ho & Hon).
    { destruct (cell_after_cases root l1) as [(-> & ->)|(l & x & -> & ->)]; simpl.
      - destruct Hr as [ro ?]. exists ro. split; [done |]. intros <-. pose proof (rank_child _ _ _ _ _ Hc Hin). lia.
      - assert (Hx : x ∈ (l ++ [x]) ++ old :: l2) by (rewrite !elem_of_app; left; right; by left).
        destruct (children_parent _ _ _ _ _ Hc Hx) as [_ [rx ?]]. exists rx. split; [done |]. intros ->.
        apply NoDup_app in Hnd as (_ & Hd & _). apply (Hd old); [apply elem_of_app; right; by left | by left]. }
    exists ro. split; [done |]. split; [done |]. split; [done |]. unfold deref. rewrite Hold. cbn [of_option mbind run_bind].
    rewrite (store_ok _ _ _ ro) by done. cbn [mbind run_bind]. by rewrite (update_ok _ _ _ rold) by by rewrite lookup_insert_ne.
  - rewrite <- (cell_after_snoc root l1 t). rewrite cons_middle, app_assoc in Hc.
    destruct (IH fuel (l1 ++ [t]) Hr Hc Hold ltac:(simpl in Hf; lia)) as [(a & b & ro & -> & Ho & Hon & E)|(Hni & E)]; rewrite E.
    + left. exists (t :: a), b, ro. rewrite <- app_assoc in *. done.
    + right. split; [| done]. intros [?|?]%elem_of_cons; [by apply Hne | done].
Qed.

Lemma sorted_delete {A} (R : A -> A -> Prop) l1 x l2 : StronglySorted R (l1 ++ x :: l2) -> StronglySorted R (l1 ++ l2).
Proof.
  induction l1 as [|a l1 IH]; simpl; intros Hs; apply StronglySorted_inv in Hs as [Hs Ha]; [done |].
  constructor; [auto |]. rewrite Forall_app, Forall_cons in Ha. rewrite Forall_app. tauto.
Qed.

Section removing.
Context (h : heap) (rk : Z -> nat) (root old : Z) (ro rold : resource) (l1 l2 : list Z).
Context (Ht : tree h rk) (Hr : is_Some (h !! root)) (Hc : children h rk root (l1 ++ old :: l2)) (Hold : h !! old = Some rold).
#[local] Abbreviation c := (cell_after root l1).
Context (Ho : h !! owner c = Some ro) (Hon : owner c <> old).
#[local] Abbreviation h' := (removed h root old l1 ro rold).

#[local] Set Default Proof Using "All".

Lemma removed_fields q :
  q <> old ->
  (is_Some (h !! q) -> is_Some (h' !! q)) /\ start_at h' q = start_at h q /\ end_at h' q = end_at h q /\
  parent_at h' q = parent_at h q /\
  (c = Sibling q \/ sibling_at h' q = sibling_at h q) /\ (c = Child q \/ child_at h' q = child_at h q).
Proof. intros Hq. by apply relinked_fields. Qed.

Lemma removed_ne q : q ∈ l1 ++ l2 -> q <> old.
Proof.
  intros Hq ->. pose proof (children_nodup _ _ _ _ Hc) as Hnd. rewrite NoDup_app, NoDup_cons in Hnd.
  destruct Hnd as (_ & Hd & Hn & _).
  apply elem_of_app in Hq as [Hq|Hq]; [apply (Hd old Hq); by left | done].
Qed.

Lemma removed_child q : q ∈ l1 ++ l2 -> c <> Sibling q -> same_links h h' q.
Proof.
  intros Hq Hcq. pose proof (removed_ne q Hq) as Hqo. destruct (removed_fields q Hqo) as (F1 & F2 & F3 & F4 & F5 & _).
  split_and!; try done; [| by destruct F5].
  apply F1. eapply (children_parent h rk root); [exact Hc |]. rewrite elem_of_app in *. rewrite elem_of_cons. tauto.
Qed.

Lemma root_ne_old : root <> old.
Proof.
  intros E. pose proof (rank_child h rk root _ old Hc). rewrite E in H.
  specialize (H ltac:(apply elem_of_app; right; by left)). lia.
Qed.

Lemma removed_seg : child_at h' root = first (l1 ++ l2) None /\ seg h' (l1 ++ l2) None.
Proof.
  pose proof (children_nodup _ _ _ _ Hc) as Hnd. pose proof (ch_seg _ _ _ _ Hc) as Hs.
  apply seg_app in Hs as [S1 (_ & So & S2)]. rewrite (field_some _ _ _ _ _ Hold) in So. pose proof root_ne_old as Hro.
  destruct (removed_fields root Hro) as (_ & _ & _ & _ & _ & Froot).
  assert (S2' : seg h' l2 None).
  { eapply seg_agree; [| exact S2]. intros q Hq. destruct (removed_child q) as (? & ? & _);
      [by apply elem_of_app; right | | done].
    intros Ec. destruct (cell_after_cases root l1) as [(_ & Ec')|(l & t & El & Ec')]; [congruence |].
    assert (t = q) as -> by congruence. rewrite El in Hnd. apply NoDup_app in Hnd as (_ & Hd & _).
    apply (Hd q); [apply elem_of_app; right; by left | by right]. }
  destruct (cell_after_cases root l1) as [(El & Ec)|(l & t & El & Ec)].
  - rewrite El in *. split; [| done]. unfold removed, relinked. rewrite Ec. simpl. rewrite field_insert_ne by done.
    rewrite field_insert_eq. by rewrite So.
  - assert (Hct : child_at h' root = child_at h root) by (destruct Froot as [Ec'|]; [congruence | done]).
    split; [rewrite Hct, (ch_first _ _ _ _ Hc), El; by destruct l |]. apply seg_app. split; [| done].
    rewrite El in S1, Hnd. apply seg_app in S1 as [S0 St].
    enough (Hseg : seg h' (l ++ [t]) (first l2 None)) by by rewrite <- El in Hseg. apply seg_app. split.
    + eapply seg_agree; [| exact S0]. intros q Hq. destruct (removed_child q) as (? & ? & _);
        [rewrite El, !elem_of_app; auto | | done].
      intros Ec'. assert (t = q) as -> by congruence. rewrite <- app_assoc in Hnd. apply NoDup_app in Hnd as (_ & Hd & _).
      apply (Hd q Hq). by left.
    + assert (t <> old) by (rewrite Ec in Hon; done). simpl. unfold removed, relinked. rewrite Ec. simpl.
      rewrite lookup_insert_ne, lookup_insert_eq by done. rewrite field_insert_ne, field_insert_eq by done. simpl.
      rewrite So. eauto.
Qed.

Lemma removed_root : children h' rk root (l1 ++ l2).
Proof.
  destruct removed_seg as [Hf Hs]. split; [exact Hf | exact Hs | |].
  - pose proof (ch_member _ _ _ _ Hc) as Hm. rewrite Forall_app, Forall_cons in Hm. destruct Hm as (M1 & _ & M2).
    assert (Hm : Forall (member h rk root (start_at h root) (end_at h root)) (l1 ++ l2)) by by apply Forall_app.
    destruct (removed_fields root root_ne_old) as (_ & -> & -> & _). clear M1 M2. rewrite Forall_forall in *. intros q Hq.
    destruct (removed_fields q (removed_ne q Hq)) as (_ & F2 & F3 & F4 & _).
    eapply member_agree; [exact F4 | exact F2 | exact F3 | by apply Hm].
  - eapply order_agree; [| eapply sorted_delete, Hc]. intros q Hq.
    by destruct (removed_fields q (removed_ne q Hq)) as (_ & F2 & F3 & _).
Qed.

Lemma removed_other p l : p <> root -> children h rk p l -> children h' rk p l.
Proof.
  intros Hp Hl. assert (Hlinks : forall q, q ∈ l -> same_links h h' q /\ (rk q < rk p)%nat).
  { intros q Hq. split; [| by eapply rank_child]. destruct (children_parent _ _ _ _ _ Hl Hq) as [Epar Hs].
    assert (Hqc : q ∉ l1 ++ old :: l2) by (intros Hin; destruct (children_parent _ _ _ _ _ Hc Hin); congruence).
    destruct (removed_fields q) as (F1 & F2 & F3 & F4 & F5 & _); [intros ->; apply Hqc, elem_of_app; right; by left |].
    split_and!; auto. destruct F5 as [Ec|]; [| done].
    destruct (cell_after_cases root l1) as [(_ & Ec')|(l0 & t & El & Ec')]; [congruence |].
    destruct Hqc. rewrite El, !elem_of_app. left. right. assert (t = q) as -> by congruence. by left. }
  destruct (decide (p = old)) as [->|Hpo].
  - apply (children_agree h _ rk); try done; unfold removed, relinked; rewrite field_insert_eq; simpl; symmetry;
      by apply field_some.
  - destruct (removed_fields p Hpo) as (_ & F2 & F3 & _ & _ & F6). apply (children_agree h _ rk); try done.
    destruct F6 as [Ec|]; [| done]. destruct (cell_after_cases root l1) as [(_ & Ec')|(l0 & t & El & Ec')]; congruence.
Qed.

Lemma removed_tree : tree h' rk.
Proof.
  intros p Hp. destruct (decide (p = root)) as [->|Hpr]; [eexists; apply removed_root |].
  assert (Hp' : is_Some (h !! p)).
  { unfold removed, relinked in Hp. destruct (decide (p = old)) as [->|]; [eauto |].
    rewrite lookup_insert_ne in Hp by done. destruct (decide (p = owner c)) as [->|]; [eauto |].
    by rewrite lookup_insert_ne in Hp. }
  destruct (Ht p Hp') as [l Hl]. exists l. by apply removed_other.
Qed.
End removing.

Lemma release_resource_ok h rk root old rold l :
  tree h rk -> is_Some (h !! root) -> children h rk root l -> h !! old = Some rold -> parent rold = Some root ->
  (exists l1 l2 ro, l = l1 ++ old :: l2 /\ h !! owner (cell_after root l1) = Some ro /\ owner (cell_after root l1) <> old /\
     __release_resource h old = Ret (removed h root old l1 ro rold, 0)) \/
  (old ∉ l /\ __release_resource h old = Ret (h, - EINVAL)).
Proof.
  intros Ht Hr Hc Ho Hp. unfold __release_resource, deref. rewrite Ho. cbn [of_option mbind run_bind]. rewrite Hp.
  cbn [of_option mbind run_bind].
  pose proof (children_length _ _ _ _ Hc) as Hlen. change (Child root) with (cell_after root []).
  destruct (release_loop_ok h rk root old rold l (S (size h)) [] Hr Hc Ho ltac:(lia))
    as [(a & b & ro & -> & H1 & H2 & E)|(Hn & E)].
  - left. by exists a, b, ro.
  - by right.
Qed.
(** ** Properties *)

Definition tree_ok (h : heap) : Prop := exists rk, tree h rk.
Definition child_list (h : heap) (p : Z) (l : list Z) : Prop := child_at h p = first l None /\ seg h l None.
Definition inside (h : heap) (p : Z) (rn : resource) : Prop := start_at h p <= start rn /\ start rn <= end_ rn <= end_at h p.

Lemma child_list_children h rk p l : tree h rk -> is_Some (h !! p) -> child_list h p l -> children h rk p l.
Proof. intros Ht Hp [F S]. destruct (Ht p Hp) as [l' Hl]. rewrite (seg_unique h l l' (child_at h p)); auto; apply Hl. Qed.

Lemma children_child_list h rk p l : children h rk p l -> child_list h p l.
Proof. intros [F S _ _]. by split. Qed.

Lemma linkable_disjoint h rk root new rn l1 l2 q : linkable h rk root new rn l1 l2 -> q ∈ l1 ++ l2 -> ~ overlaps h q rn.
Proof.
  intros L Hq [H1 H2]. pose proof (lk_before _ _ _ _ _ _ _ L) as Hb. pose proof (lk_after _ _ _ _ _ _ _ L) as Ha.
  rewrite Forall_forall in Hb, Ha. apply elem_of_app in Hq as [Hq|Hq]; [specialize (Hb q Hq) | specialize (Ha q Hq)];
    simpl in *; lia.
Qed.

Lemma split_unique {A} (x : A) l1 : forall l2 a b, x ∉ l1 -> x ∉ a -> l1 ++ x :: l2 = a ++ x :: b -> l1 = a /\ l2 = b.
Proof.
  induction l1 as [|y l1 IH]; intros l2 [|z a] b H1 Ha E; simplify_eq/=; try set_solver.
  destruct (IH l2 a b) as [-> ->]; set_solver.
Qed.

(** Releasing a child. *)
Lemma release_child h rk root old l1 l2 :
  tree h rk -> is_Some (h !! root) -> children h rk root (l1 ++ old :: l2) ->
  exists h', __release_resource h old = Ret (h', 0) /\ tree h' rk /\ child_list h' root (l1 ++ l2).
Proof.
  intros Ht Hr Hc. assert (Hin : old ∈ l1 ++ old :: l2) by (apply elem_of_app; right; by left).
  destruct (children_parent _ _ _ _ _ Hc Hin) as [Ep [rold Ho]]. rewrite (field_some _ _ _ _ _ Ho) in Ep.
  destruct (release_resource_ok h rk root old rold _ Ht Hr Hc Ho Ep) as [(a & b & ro & El & Hro & Hon & E)|[? _]]; [| done].
  assert (Hnot : forall x y, NoDup (x ++ old :: y) -> old ∉ x).
  { intros x y (_ & Hd & _)%NoDup_app Hin'. apply (Hd old Hin'). by left. }
  pose proof (children_nodup _ _ _ _ Hc) as Hnd. destruct (split_unique old l1 l2 a b) as [<- <-]; [eauto | | done |].
  { rewrite El in Hnd. eauto. }
  eexists. split; [exact E |]. split; [by eapply removed_tree |]. by eapply children_child_list, removed_root.
Qed.

(** C35: a request succeeds exactly when the range lies inside the root and meets none of its children; then the new
    resource is linked among them in order, the tree stays well formed, and releasing the resource restores the list
    of children.  Otherwise the result is -EBUSY and nothing changes.  The walks end and follow valid pointers only. *)
Theorem request_release_resource h root new rn l :
  tree_ok h -> is_Some (h !! root) -> child_list h root l -> unlinked h new rn -> new <> root ->
  (inside h root rn /\ (forall q, q ∈ l -> ~ overlaps h q rn) /\
   exists h' l1 l2, request_resource h root new = Ret (h', 0) /\ l = l1 ++ l2 /\ tree_ok h' /\
     child_list h' root (l1 ++ new :: l2) /\
     exists h'', release_resource h' new = Ret (h'', 0) /\ tree_ok h'' /\ child_list h'' root l) \/
  ((~ inside h root rn \/ exists q, q ∈ l /\ overlaps h q rn) /\ request_resource h root new = Ret (h, - EBUSY)).
Proof.
  intros [rk Ht] Hr Hcl Hn Hne. pose proof (child_list_children _ _ _ _ Ht Hr Hcl) as Hc. unfold request_resource.
  destruct (request_ok h rk root new rn l Ht Hr Hc Hn Hne)
    as [(l1 & l2 & h' & -> & E & L & ro & Ho & ->)|(c & E & Hcase)]; rewrite E; cbn [mbind run_bind].
  - left. split; [apply L |]. split; [intros q Hq; by eapply linkable_disjoint |]. eexists _, l1, l2. split; [done |].
    split; [done |].
    pose proof (linked_tree h rk root new ro rn l1 l2 L Ho) as Ht'.
    pose proof (linked_root h rk root new ro rn l1 l2 L Ho) as Hc'.
    split; [by eexists |]. split; [by eapply children_child_list |].
    assert (Hr' : is_Some (linked h (cell_after root l1) (first l2 None) root new ro rn !! root)).
    { apply (linked_fields h (cell_after root l1) (first l2 None) root new ro rn root Ho); [by apply not_eq_sym | done]. }
    destruct (release_child _ _ _ _ _ _ Ht' Hr' Hc') as (h'' & E' & Ht'' & Hc''). exists h''. split; [done |].
    split; [by eexists | done].
  - right. split; [| done]. destruct Hcase as [(-> & ?)|(? & ? & ? & l1 & l2 & -> & _)]; [by left | right].
    exists c. split; [apply elem_of_app; right; by left | done].
Qed.

(** A root with two children and a resource for the gap between them. *)
Definition small_tree : heap :=
  <[1 := Res 0 0xffff 0 None None (Some 2)]> (<[2 := Res 0x100 0x1ff 0 (Some 1) (Some 3) None]>
  (<[3 := Res 0x400 0x4ff 0 (Some 1) None None]> {[4 := Res 0x200 0x2ff 0 None None None]})).

Lemma small_tree_ok : tree_ok small_tree.
Proof.
  exists (fun p => if decide (p = 1) then 1%nat else 0%nat). intros p Hp.
  assert (Hcases : p = 1 \/ p = 2 \/ p = 3 \/ p = 4).
  { unfold small_tree in Hp. destruct (decide (p = 1)), (decide (p = 2)), (decide (p = 3)), (decide (p = 4)); auto.
    rewrite !lookup_insert_ne, lookup_singleton_ne in Hp by done. by destruct Hp. }
  destruct Hcases as [->|[->|[->| ->]]]; [exists [2; 3] | exists [] | exists [] | exists []];
    (split; [done | vm_compute; eauto 10 | repeat constructor; vm_compute; congruence || lia | repeat constructor]).
Qed.

Lemma request_release_resource_witness :
  exists h', request_resource small_tree 1 4 = Ret (h', 0) /\ child_list h' 1 [2; 4; 3].
Proof.
  destruct (request_release_resource small_tree 1 4 (Res 0x200 0x2ff 0 None None None) [2; 3]) as [(_ & _ & H)|[H _]].
  - exact small_tree_ok.
  - by eexists.
  - split; [reflexivity |]. repeat (split; [by eexists | split; [reflexivity |]]). done.
  - done.
  - done.
  - destruct H as (h' & l1 & l2 & E & _ & _ & Hc & _). exists h'. split; [exact E |].
    assert (h' = (match request_resource small_tree 1 4 with Ret (x, _) => x | _ => ∅ end)) as -> by by rewrite E.
    split; [reflexivity |]. repeat (split; [by eexists | split; [reflexivity |]]). done.
  - exfalso. destruct H as [H|(q & Hq & H)].
    + apply H. vm_compute. intuition congruence.
    + apply elem_of_cons in Hq as [->|[->|?%not_elem_of_nil]%elem_of_cons]; [| | done]; vm_compute in H; intuition congruence.
Defined.
End Resource.
