(* ===== verification/ResourceAlloc.v ===== *)
(** * The resource tree (kernel/resource.c): finding free ranges and regions

    The allocation of a free, aligned range among the children of a resource, the
    adjustment of a range, and the busy regions that drivers request and release,
    on the tree of [Resource]. *)

From stdpp Require Import sorting.
From S2P Require Import Prelude Resource.

Module ResourceAlloc.
Import Resource.

(** ** Free ranges *)

Abbreviation ALIGN x a := (u64 (x + u64 (a - 1)) .& Z.lnot (u64 (a - 1))) (only parsing).

Section find.
(** The arguments of [find_resource]; [alignf] may move the range it is given. *)
Context (size_ min max align : Z) (alignf : option (Z * Z -> Z -> Z -> Z * Z)).

(** The loop; [s] is [new->start].  The result has [new->start], [new->end] and the
    return value; [new] is not in the tree, so that writing it does not change
    what the loop reads. *)
Fixpoint find_loop (fuel : nat) (h : heap) (rr : resource) (this : option Z) (s : Z) : run unit (Z * Z * Z) :=
  match fuel with
  | O => Diverge
  | S fuel =>
      e ← match this with
          | Some t => rt ← deref h t; Ret (u64 (start rt - 1))
          | None => Ret (end_ rr)
          end;
      let s := if s <? min then min else s in
      let e := if e >? max then max else e in
      let s := ALIGN s align in
      let '(s, e) := match alignf with Some f => f (s, e) size_ align | None => (s, e) end in
      if (s <? e) && (u64 (e - s) >=? u64 (size_ - 1)) then Ret (s, u64 (s + size_ - 1), 0)
      else match this with
           | None => Ret (s, e, - EBUSY)
           | Some t => rt ← deref h t; find_loop fuel h rr (sibling rt) (u64 (end_ rt + 1))
           end
  end.

Definition find_resource (h : heap) (root new : Z) : run unit (heap * Z) :=
  rr ← deref h root;
  '(this, s) ← match child rr with
                | Some t => rt ← deref h t; Ret (if start rt =? 0 then (sibling rt, u64 (end_ rt + 1)) else (child rr, start rr))
                | None => Ret (None, start rr)
                end;
  '(s, e, ret) ← find_loop (S (size h)) h rr this s;
  h ← update h new (set_range s e);
  Ret (h, ret).

Definition allocate_resource (h : heap) (root new : Z) : run unit (heap * Z) :=
  '(h, err) ← find_resource h root new;
  if err >=? 0 then
    '(h, conflict) ← __request_resource h root new;
    Ret (h, match conflict with Some _ => - EBUSY | None => err end)
  else Ret (h, err).
End find.

(** ** Adjusting a range *)

Fixpoint child_check (fuel : nat) (h : heap) (tmp : option Z) (s e : Z) : run unit bool :=
  match fuel with
  | O => Diverge
  | S fuel =>
      match tmp with
      | None => Ret true
      | Some t =>
          rt ← deref h t;
          if (start rt <? s) || (end_ rt >? e) then Ret false else child_check fuel h (sibling rt) s e
      end
  end.

(** [while (tmp->sibling != res) tmp = tmp->sibling]. *)
Fixpoint find_previous (fuel : nat) (h : heap) (tmp res : Z) : run unit Z :=
  match fuel with
  | O => Diverge
  | S fuel =>
      rt ← deref h tmp;
      if decide (sibling rt = Some res) then Ret tmp
      else t ← of_option tt (sibling rt); find_previous fuel h t res
  end.

Definition adjust_resource (h : heap) (res s size_ : Z) : run unit (heap * Z) :=
  rs ← deref h res;
  p ← of_option tt (parent rs);
  rp ← deref h p;
  let e := u64 (s + size_ - 1) in
  if (s <? start rp) || (e >? end_ rp) then Ret (h, - EBUSY)
  else
    ok ← child_check (S (size h)) h (child rs) s e;
    if negb ok then Ret (h, - EBUSY)
    else
      clear ← match sibling rs with None => Ret true | Some n => rn ← deref h n; Ret (negb (start rn <=? e)) end;
      if negb clear then Ret (h, - EBUSY)
      else
        first_child ← of_option tt (child rp);
        clear ← (if first_child =? res then Ret true
                 else t ← find_previous (S (size h)) h first_child res; rt ← deref h t; Ret (negb (s <=? end_ rt)));
        if negb clear then Ret (h, - EBUSY)
        else h ← update h res (set_range s e); Ret (h, 0).

(** ** Regions *)

Abbreviation IORESOURCE_BUSY := 0x80000000 (only parsing).
Abbreviation IORESOURCE_SIZEALIGN := 0x00020000 (only parsing).
Abbreviation IORESOURCE_STARTALIGN := 0x00040000 (only parsing).

Abbreviation resource_size r := (u64 (end_ r - start r + 1)) (only parsing).

Definition resource_alignment (r : resource) : Z :=
  let f := flags r .& (IORESOURCE_SIZEALIGN .| IORESOURCE_STARTALIGN) in
  if f =? IORESOURCE_SIZEALIGN then resource_size r
  else if f =? IORESOURCE_STARTALIGN then start r
  else 0.

Fixpoint region_loop (fuel : nat) (h : heap) (parent_ res : Z) : run unit (heap * bool) :=
  match fuel with
  | O => Diverge
  | S fuel =>
      '(h, conflict) ← __request_resource h parent_ res;
      match conflict with
      | None => Ret (h, true)
      | Some c =>
          if c =? parent_ then Ret (h, false)
          else
            rc ← deref h c;
            if flags rc .& IORESOURCE_BUSY =? 0 then region_loop fuel h c res else Ret (h, false)
      end
  end.

(** [kzalloc]: the address of a new structure.  The result is that address, or
    [None] for NULL; in that case the structure is freed again. *)
Definition __request_region (h : heap) (parent_ s n flags_ : Z) (kzalloc : option Z) : run unit (heap * option Z) :=
  match kzalloc with
  | None => Ret (h, None)
  | Some res =>
      let h := <[res := Res s (u64 (s + n - 1)) (IORESOURCE_BUSY .| flags_) None None None]> h in
      '(h, ok) ← region_loop (S (size h)) h parent_ res;
      Ret (if ok : bool then (h, Some res) else (delete res h, None))
  end.

Definition __check_region (h : heap) (parent_ s n : Z) (kzalloc : option Z) : run unit (heap * Z) :=
  '(h, res) ← __request_region h parent_ s n 0 kzalloc;
  match res with
  | None => Ret (h, - EBUSY)
  | Some res => '(h, _) ← release_resource h res; Ret (delete res h, 0)
  end.

(** [true] if a region was freed. *)
Fixpoint release_region_loop (fuel : nat) (h : heap) (p : cell) (s e : Z) : run unit (heap * bool) :=
  match fuel with
  | O => Diverge
  | S fuel =>
      res ← load h p;
      match res with
      | None => Ret (h, false)
      | Some t =>
          rt ← deref h t;
          if (start rt <=? s) && (end_ rt >=? e) then
            if flags rt .& IORESOURCE_BUSY =? 0 then release_region_loop fuel h (Child t) s e
            else if negb (start rt =? s) || negb (end_ rt =? e) then Ret (h, false)
            else h ← store h p (sibling rt); Ret (delete t h, true)
          else release_region_loop fuel h (Sibling t) s e
      end
  end.

Definition __release_region (h : heap) (parent_ s n : Z) : run unit (heap * bool) :=
  release_region_loop (S (size h)) h (Child parent_) s (u64 (s + n - 1)).

(** ** Alignment *)

(** [ALIGN] rounds up to the next multiple, if that does not wrap around. *)
Lemma ALIGN_ok x k :
  0 <= k < 64 -> 0 <= x -> x + 2 ^ k <= 2 ^ 64 ->
  let y := ALIGN x (2 ^ k) in
  x <= y < x + 2 ^ k /\ (2 ^ k | y) /\ forall z, x <= z -> (2 ^ k | z) -> y <= z.
Proof.
  intros Hk Hx Hb y. assert (Hp : 0 < 2 ^ k) by lia. assert (Hp64 : 2 ^ k <= 2 ^ 63) by (apply Z.pow_le_mono_r; lia).
  assert (Ey : y = (x + 2 ^ k - 1) / 2 ^ k * 2 ^ k).
  { subst y. rewrite (uwrap_small 64 (2 ^ k - 1)), uwrap_small by lia.
    replace (2 ^ k - 1) with (Z.ones k) by (rewrite Z.ones_equiv; lia).
    rewrite <- Z.ldiff_land, Z.ldiff_ones_r, Z.shiftl_mul_pow2, Z.shiftr_div_pow2 by lia.
    rewrite Z.ones_equiv. do 2 f_equal. lia. }
  clearbody y. subst y. pose proof (Z.div_mod (x + 2 ^ k - 1) (2 ^ k) ltac:(lia)) as Hd.
  pose proof (Z.mod_pos_bound (x + 2 ^ k - 1) (2 ^ k) Hp) as Hm. set (q := (x + 2 ^ k - 1) / 2 ^ k) in *.
  split; [lia |]. split; [by exists q |]. intros z Hz [m ->]. assert (q <= m); [| nia].
  apply Z.lt_succ_r. apply (Z.mul_lt_mono_pos_r (2 ^ k)); [lia |]. rewrite Z.mul_succ_l. lia.
Qed.

(** ** The search *)

Section search.
Context (size_ min max k : Z).
Context (Hk : 0 <= k < 64) (Hsize : 1 <= size_ < 2 ^ 64) (Hmin : 0 <= min /\ min + 2 ^ k <= 2 ^ 64) (Hmax : 0 <= max < 2 ^ 64).

(** A range of the right size, alignment and bounds at [z]. *)
Definition suits (top z : Z) : Prop := (2 ^ k | z) /\ min <= z /\ z + size_ - 1 <= max /\ z + size_ - 1 <= top.
Definition clear_of (h : heap) (l : list Z) (z : Z) : Prop := forall q, q ∈ l -> z + size_ - 1 < start_at h q \/ end_at h q < z.

#[local] Set Default Proof Using "All".

(** One gap, from [s] up to [e]. *)
Lemma gap_ok s e top :
  0 <= s -> s + 2 ^ k <= 2 ^ 64 -> 0 <= e < 2 ^ 64 -> e <= top ->
  let s' := ALIGN (if s <? min then min else s) (2 ^ k) in
  let e' := if e >? max then max else e in
  if (s' <? e') && (u64 (e' - s') >=? u64 (size_ - 1))
  then s <= s' /\ suits top s' /\ s' + size_ - 1 <= e /\ u64 (s' + size_ - 1) = s' + size_ - 1 /\
       forall z, s <= z -> suits top z -> s' <= z
  else 2 <= size_ -> forall z, s <= z -> suits top z -> e < z + size_ - 1.
Proof.
  intros Hs Hs64 He Htop s' e'.
  destruct (ALIGN_ok (if s <? min then min else s) k) as (A1 & A2 & A3);
    [lia | destruct (s <? min); lia | destruct (s <? min); lia |].
  fold s' in A1, A2, A3. assert (Hlo : s <= (if s <? min then min else s) /\ min <= (if s <? min then min else s))
    by (destruct (Z.ltb_spec s min); lia).
  assert (He' : e' <= e /\ e' <= max /\ (e' = e \/ e' = max)) by (unfold e'; destruct (Z.gtb_spec e max); lia).
  assert (Hmin' : forall z, s <= z -> suits top z -> s' <= z).
  { intros z Hz (Z1 & Z2 & _). apply A3; [destruct (Z.ltb_spec s min); lia | done]. }
  rewrite (uwrap_small 64 (size_ - 1)) by lia.
  destruct (Z.ltb_spec s' e') as [Hlt|Hge]; cbn [andb].
  - rewrite (uwrap_small 64 (e' - s')) by lia. rewrite Z.geb_leb. destruct (Z.leb_spec (size_ - 1) (e' - s')).
    + rewrite uwrap_small by lia. unfold suits. split_and!; done || lia.
    + intros _ z Hz Hsu. specialize (Hmin' z Hz Hsu). destruct Hsu as (_ & _ & ? & ?). lia.
  - intros H2 z Hz Hsu. specialize (Hmin' z Hz Hsu). destruct Hsu as (_ & _ & ? & ?). lia.
Qed.

(** What the loop needs of the children that are left. *)
Definition ahead (h : heap) (top s q : Z) : Prop :=
  s <= start_at h q /\ 1 <= start_at h q /\ start_at h q <= end_at h q <= top /\ end_at h q + 2 ^ k < 2 ^ 64.

Lemma find_loop_ok h rr l : forall fuel s,
  seg h l None -> StronglySorted (before h) l -> Forall (ahead h (end_ rr) s) l -> (length l < fuel)%nat ->
  0 <= s -> s + 2 ^ k <= 2 ^ 64 -> 0 <= end_ rr < 2 ^ 64 ->
  exists s' e' ret, find_loop size_ min max (2 ^ k) None fuel h rr (first l None) s = Ret (s', e', ret) /\
    (ret = 0 /\ e' = s' + size_ - 1 /\ s <= s' /\ suits (end_ rr) s' /\ clear_of h l s' /\
       (2 <= size_ -> forall z, s <= z -> suits (end_ rr) z -> clear_of h l z -> s' <= z) \/
     ret = - EBUSY /\ (2 <= size_ -> forall z, s <= z -> suits (end_ rr) z -> ~ clear_of h l z)).
Proof.
  induction l as [|q l IH]; intros fuel s Hs Ho Ha Hf H0 H64 Hend; (destruct fuel as [|fuel]; [simpl in Hf; lia |]);
    cbn [find_loop first].
  - cbn [mbind run_bind]. pose proof (gap_ok s (end_ rr) (end_ rr) H0 H64 Hend ltac:(lia)) as G. cbv zeta in G.
    destruct (_ && _); eexists _, _, _; (split; [done |]).
    + destruct G as (G1 & G2 & _ & G4 & G5). left. split_and!; auto. by intros q ?%not_elem_of_nil.
    + right. split; [done |]. intros H2 z Hz Hsu _. specialize (G H2 z Hz Hsu). destruct Hsu as (_ & _ & _ & ?). lia.
  - destruct Hs as ([rq Hq] & Hsib & Hs). apply Forall_cons in Ha as [Haq Ha]. apply StronglySorted_inv in Ho as [Ho Hqo].
    unfold deref. rewrite Hq. cbn [of_option mbind run_bind]. unfold ahead in Haq. rewrite !(field_some _ _ _ _ _ Hq) in Haq.
    rewrite (field_some _ _ _ _ _ Hq) in Hsib. rewrite (uwrap_small 64 (start rq - 1)) by lia.
    pose proof (gap_ok s (start rq - 1) (end_ rr) H0 H64 ltac:(lia) ltac:(lia)) as G. cbv zeta in G.
    rewrite Forall_forall in Hqo, Ha. unfold before in Hqo.
    destruct (_ && _).
    + eexists _, _, _. split; [done |]. left. destruct G as (G1 & G2 & G3 & G4 & G5). split_and!; auto.
      intros x [->|Hx]%elem_of_cons; [rewrite (field_some _ _ _ _ _ Hq); lia |].
      specialize (Hqo x Hx). rewrite (field_some _ _ _ _ _ Hq) in Hqo. lia.
    + rewrite Hsib. rewrite (uwrap_small 64 (end_ rq + 1)) by lia.
      destruct (IH fuel (end_ rq + 1)) as (s' & e' & ret & E & Hres); try done; try lia.
      { apply Forall_forall. intros x Hx. specialize (Ha x Hx). specialize (Hqo x Hx). rewrite (field_some _ _ _ _ _ Hq) in Hqo.
        unfold ahead in *. lia. }
      { simpl in Hf. lia. }
      exists s', e', ret. split; [done |].
      assert (Hnext : 2 <= size_ -> forall z, s <= z -> suits (end_ rr) z -> clear_of h (q :: l) z ->
        end_ rq + 1 <= z /\ clear_of h l z).
      { intros H2 z Hz Hsu Hcl. specialize (G H2 z Hz Hsu). split; [| intros x Hx; apply Hcl; by right].
        specialize (Hcl q ltac:(by left)). rewrite !(field_some _ _ _ _ _ Hq) in Hcl. lia. }
      destruct Hres as [(R1 & R2 & R3 & R4 & R5 & R6)|(R1 & R2)]; [left | right].
      * split_and!; auto; [lia | |].
        -- intros x [->|Hx]%elem_of_cons; [rewrite !(field_some _ _ _ _ _ Hq); lia | auto].
        -- intros H2 z Hz Hsu Hcl. destruct (Hnext H2 z Hz Hsu Hcl). auto.
      * split; [done |]. intros H2 z Hz Hsu Hcl. destruct (Hnext H2 z Hz Hsu Hcl) as [? Hcl']. by apply (R2 H2 z).
Qed.

(** A free range for [new] among the children [l] of [root]. *)
Definition free_at (h : heap) (root : Z) (l : list Z) (z : Z) : Prop :=
  start_at h root <= z /\ suits (end_at h root) z /\ clear_of h l z.

Lemma find_ok h rk root l :
  is_Some (h !! root) -> children h rk root l -> 0 <= start_at h root -> start_at h root + 2 ^ k <= 2 ^ 64 ->
  0 <= end_at h root < 2 ^ 64 -> Forall (fun q => end_at h q + 2 ^ k < 2 ^ 64) l ->
  forall new, exists s' e' ret,
    find_resource size_ min max (2 ^ k) None h root new = (h ← update h new (set_range s' e'); Ret (h, ret)) /\
    (ret = 0 /\ e' = s' + size_ - 1 /\ free_at h root l s' /\ (2 <= size_ -> forall z, free_at h root l z -> s' <= z) \/
     ret = - EBUSY /\ (2 <= size_ -> forall z, ~ free_at h root l z)).
Proof.
  intros [rr Hr] Hc H0 H64 Hend Hl new. pose proof (children_length _ _ _ _ Hc) as Hlen.
  unfold find_resource, deref. rewrite Hr. cbn [of_option mbind run_bind]. pose proof (ch_first _ _ _ _ Hc) as Hf.
  unfold free_at. rewrite !(field_some _ _ _ _ _ Hr) in *. destruct Hc as [_ Hs Hm Ho]. rewrite !(field_some _ _ _ _ _ Hr) in Hm.
  rewrite Forall_forall in Hm, Hl. destruct l as [|q l]; cbn [first] in Hf; rewrite Hf.
  - cbn [mbind run_bind]. destruct (find_loop_ok h rr [] (S (size h)) (start rr)) as (s' & e' & ret & E & Hres);
      try done; [lia |].
    cbn [first] in E. rewrite E. cbn [mbind run_bind]. exists s', e', ret. split; [done |]. naive_solver.
  - pose proof Hs as ([rq Hq] & Hsib & Hs'). rewrite Hq. cbn [of_option mbind run_bind].
    pose proof (StronglySorted_inv Ho) as [Ho' Hqo]. rewrite Forall_forall in Hqo. unfold before in Hqo.
    rewrite (field_some _ _ _ _ _ Hq) in Hsib.
    pose proof (Hm q ltac:(by left)) as (_ & Mq1 & Mq2 & _). pose proof (Hl q ltac:(by left)) as Lq.
    rewrite !(field_some _ _ _ _ _ Hq) in *.
    destruct (Z.eqb_spec (start rq) 0) as [E0|E0]; cbn [mbind run_bind].
    + rewrite (uwrap_small 64 (end_ rq + 1)) by lia. rewrite Hsib.
      destruct (find_loop_ok h rr l (S (size h)) (end_ rq + 1)) as (s' & e' & ret & E & Hres); try done; try (simpl in Hlen; lia).
      { apply Forall_forall. intros x Hx. destruct (Hm x ltac:(by right)) as (_ & M1 & M2 & _). specialize (Hl x ltac:(by right)).
        specialize (Hqo x Hx). unfold ahead. lia. }
      rewrite E. cbn [mbind run_bind]. exists s', e', ret. split; [done |].
      assert (Hnext : forall z, start rr <= z -> clear_of h (q :: l) z -> end_ rq + 1 <= z /\ clear_of h l z).
      { intros z Hz Hcl. split; [| intros x Hx; apply Hcl; by right]. specialize (Hcl q ltac:(by left)).
        rewrite !(field_some _ _ _ _ _ Hq) in Hcl. lia. }
      destruct Hres as [(R1 & R2 & R3 & R4 & R5 & R6)|(R1 & R2)]; [left | right].
      * split_and!; auto; [lia | |].
        -- intros x [->|Hx]%elem_of_cons; [rewrite !(field_some _ _ _ _ _ Hq); lia | auto].
        -- intros H2 z (Z1 & Z2 & Z3). destruct (Hnext z Z1 Z3). auto.
      * split; [done |]. intros H2 z (Z1 & Z2 & Z3). destruct (Hnext z Z1 Z3) as [? Hcl']. by apply (R2 H2 z).
    + destruct (find_loop_ok h rr (q :: l) (S (size h)) (start rr)) as (s' & e' & ret & E & Hres); try done;
        try (simpl in *; lia).
      { apply Forall_forall. intros x Hx. destruct (Hm x Hx) as (_ & M1 & M2 & _). specialize (Hl x Hx).
        unfold ahead. apply elem_of_cons in Hx as [->|Hx]; [rewrite !(field_some _ _ _ _ _ Hq) in *; lia |].
        specialize (Hqo x Hx). lia. }
      cbn [first] in E. rewrite E. cbn [mbind run_bind]. exists s', e', ret. split; [done |]. naive_solver.
Qed.
End search.

(** Writing the range of a resource that is not linked. *)
Lemma set_range_tree h rk new rn s e :
  tree h rk -> unlinked h new rn ->
  let h' := <[new := set_range s e rn]> h in
  tree h' rk /\ unlinked h' new (set_range s e rn) /\ (forall p, is_Some (h !! p) -> is_Some (h' !! p)) /\
  (forall p l, p <> new -> children h rk p l -> children h' rk p l) /\
  forall q, q <> new -> start_at h' q = start_at h q /\ end_at h' q = end_at h q.
Proof.
  intros Ht (Hn & Hp & Hc) h'.
  assert (Hother : forall p l, p <> new -> children h rk p l -> children h' rk p l).
  { intros p l Hpn Hl. apply (children_agree h _ rk); try done; try (apply field_insert_ne; congruence).
    intros q Hq. split; [| by eapply rank_child].
    assert (q <> new) by (eapply not_new; [| done | done]; by rewrite (field_some _ _ _ _ _ Hn)).
    subst h'. split; [rewrite lookup_insert_ne by done; by eapply children_parent |]. by rewrite !field_insert_ne. }
  assert (Hsome : forall p, is_Some (h !! p) -> is_Some (h' !! p)).
  { intros p Hp'. subst h'. destruct (decide (new = p)) as [->|];
      [by rewrite lookup_insert_eq; eexists | by rewrite lookup_insert_ne]. }
  split; [| split; [| split; [done | split; [done |]]]].
  - intros p Hp'. destruct (decide (p = new)) as [->|Hpn].
    + exists []. split; [| done | constructor | constructor]. subst h'. rewrite field_insert_eq. done.
    + destruct (Ht p) as [l Hl]; [subst h'; by rewrite lookup_insert_ne in Hp' by congruence | eauto].
  - split; [apply lookup_insert_eq | done].
  - intros q Hq. subst h'. by rewrite !field_insert_ne by congruence.
Qed.

(** ** The adjustment *)

Lemma child_check_ok h s e l : forall fuel,
  seg h l None -> (length l < fuel)%nat ->
  child_check fuel h (first l None) s e = Ret (forallb (fun q => (s <=? start_at h q) && (end_at h q <=? e)) l).
Proof.
  induction l as [|q l IH]; intros fuel Hs Hf; (destruct fuel as [|fuel]; [simpl in Hf; lia |]); [done |].
  destruct Hs as ([rq Hq] & Hsib & Hs). cbn [child_check first forallb]. unfold deref. rewrite Hq. cbn [of_option mbind run_bind].
  rewrite (field_some _ _ _ _ _ Hq) in Hsib. rewrite !(field_some _ _ _ _ _ Hq), Hsib, Z.gtb_ltb.
  destruct (Z.ltb_spec (start rq) s), (Z.ltb_spec e (end_ rq)); zbool; cbn [orb andb]; try done.
  apply IH; [done | simpl in Hf; lia].
Qed.

Lemma find_previous_ok h res l2 l : forall fuel t,
  seg h (t :: l ++ res :: l2) None -> NoDup (t :: l ++ res :: l2) -> (length l < fuel)%nat ->
  exists t', find_previous fuel h t res = Ret t' /\ last (t :: l) = Some t'.
Proof.
  induction l as [|q l IH]; intros fuel t Hs Hn Hf; (destruct fuel as [|fuel]; [simpl in Hf; lia |]);
    destruct Hs as ([rt Ht] & Hsib & Hs); rewrite (field_some _ _ _ _ _ Ht) in Hsib; simpl in Hsib;
    cbn [find_previous]; unfold deref; rewrite Ht; cbn [of_option mbind run_bind]; rewrite Hsib.
  - rewrite decide_True by done. eauto.
  - rewrite decide_False.
    2: { intros [= ->]. apply NoDup_cons in Hn as [_ [Hni _]%NoDup_cons]. apply Hni, elem_of_app. right. by left. }
    cbn [of_option mbind run_bind]. apply NoDup_cons in Hn as [_ Hn]. destruct (IH fuel q Hs Hn) as (t' & E & Hl);
      [simpl in Hf; lia |].
    exists t'. split; [done |]. by rewrite last_cons_cons.
Qed.

(** A new range for a linked resource. *)
Section adjusting.
Context (h : heap) (rk : Z -> nat) (p res : Z) (rs : resource) (l1 l2 lc : list Z) (s e : Z).
Context (Ht : tree h rk) (Hc : children h rk p (l1 ++ res :: l2)) (Hk : children h rk res lc) (Hs : h !! res = Some rs).
Context (Hse : s <= e) (Hin : start_at h p <= s /\ e <= end_at h p).
Context (H1 : Forall (fun q => end_at h q < s) l1) (H2 : Forall (fun q => e < start_at h q) l2).
Context (Hkids : Forall (fun q => s <= start_at h q /\ end_at h q <= e) lc).
#[local] Abbreviation h' := (<[res := set_range s e rs]> h).

#[local] Set Default Proof Using "All".

Lemma res_in : res ∈ l1 ++ res :: l2.
Proof using Type. apply elem_of_app. right. by left. Qed.

Lemma res_ne_p : p <> res.
Proof using Hc. intros E. pose proof (rank_child _ _ _ _ _ Hc res_in) as Hr. rewrite E in Hr. lia. Qed.

Lemma adjusted_links q : is_Some (h !! q) -> is_Some (h' !! q) /\ sibling_at h' q = sibling_at h q /\
  parent_at h' q = parent_at h q /\ child_at h' q = child_at h q.
Proof using Hs.
  intros Hq. split; [destruct (decide (q = res)) as [->|];
    [rewrite lookup_insert_eq; eauto | by rewrite lookup_insert_ne by congruence] |].
  split; [by apply (field_insert_same _ _ _ _ _ rs) |]. split; by apply (field_insert_same _ _ _ _ _ rs).
Qed.

Lemma adjusted_parent : children h' rk p (l1 ++ res :: l2).
Proof.
  pose proof res_ne_p as Hne. pose proof (children_nodup _ _ _ _ Hc) as Hnd.
  assert (Hq : forall q, q ∈ l1 ++ res :: l2 -> is_Some (h !! q)) by (intros q Hq;
    exact (proj2 (children_parent _ _ _ _ _ Hc Hq))).
  assert (Hsame : forall q, q ∈ l1 ++ l2 -> start_at h' q = start_at h q /\ end_at h' q = end_at h q).
  { intros q Hq'. rewrite !field_insert_ne; [done | |]; intros <-; rewrite NoDup_app, NoDup_cons in Hnd;
      destruct Hnd as (_ & Hd & Hn & _);
      (apply elem_of_app in Hq' as [Hq'|Hq']; [apply (Hd res Hq'); by left | done]). }
  destruct Hc as [F S M O]. split.
  - rewrite field_insert_ne by congruence. done.
  - eapply seg_agree; [| exact S]. intros q Hq'. destruct (adjusted_links q (Hq q Hq')) as (? & ? & _). done.
  - rewrite !(field_insert_ne _ _ _ res p) by congruence. rewrite Forall_forall in *. intros q Hq'.
    destruct (M q Hq') as (M1 & M2 & M3 & M4).
    unfold member. destruct (adjusted_links q (Hq q Hq')) as (_ & _ & -> & _). split; [done |].
    destruct (decide (q = res)) as [->|Hqr]; [rewrite !field_insert_eq; simpl; lia |].
    rewrite !field_insert_ne by congruence. done.
  - apply sorted_insert.
    + eapply order_agree; [exact Hsame |]. by eapply sorted_delete.
    + rewrite Forall_forall in *. intros q Hq'. unfold before. rewrite field_insert_eq. simpl.
      destruct (Hsame q) as [_ ->]; [apply elem_of_app; by left | by apply H1].
    + rewrite Forall_forall in *. intros q Hq'. unfold before. rewrite field_insert_eq. simpl.
      destruct (Hsame q) as [-> _]; [apply elem_of_app; by right | by apply H2].
Qed.

Lemma adjusted_res : children h' rk res lc.
Proof.
  assert (Hq : forall q, q ∈ lc -> is_Some (h !! q) /\ q <> res).
  { intros q Hq. split; [exact (proj2 (children_parent _ _ _ _ _ Hk Hq)) |]. intros ->.
    pose proof (rank_child _ _ _ _ _ Hk Hq). lia. }
  destruct Hk as [F S M O]. split.
  - rewrite (field_insert_same _ _ _ _ _ rs) by done. done.
  - eapply seg_agree; [| exact S]. intros q Hq'. destruct (adjusted_links q) as (? & ? & _); [by apply Hq | done].
  - rewrite !field_insert_eq. simpl. rewrite Forall_forall in *. intros q Hq'. destruct (Hq q Hq') as [Hsome Hne].
    destruct (M q Hq') as (M1 & _ & M3 & M4). specialize (Hkids q Hq'). unfold member.
    rewrite !field_insert_ne by congruence. split_and!; done || lia.
  - eapply order_agree; [| exact O]. intros q Hq'. destruct (Hq q Hq') as [_ Hne]. by rewrite !field_insert_ne by congruence.
Qed.

Lemma adjusted_tree : tree h' rk.
Proof.
  intros q Hq. destruct (decide (q = p)) as [->|Hqp]; [eexists; apply adjusted_parent |].
  destruct (decide (q = res)) as [->|Hqr]; [eexists; apply adjusted_res |].
  rewrite lookup_insert_ne in Hq by congruence. destruct (Ht q Hq) as [l Hl]. exists l.
  apply (children_agree h _ rk); try done; try (apply field_insert_ne; congruence).
  intros x Hx. split; [| by eapply rank_child]. destruct (children_parent _ _ _ _ _ Hl Hx) as [Ep Hxs].
  assert (x <> res) by (intros ->; destruct (children_parent _ _ _ _ _ Hc res_in); congruence).
  destruct (adjusted_links x Hxs) as (? & ? & ? & _). split_and!; try done; by apply field_insert_ne.
Qed.
End adjusting.
(** The children up to the last one that ends below [s] all do. *)
Lemma ends_below h rk p l t l2 s :
  children h rk p (l ++ t :: l2) -> end_at h t < s -> Forall (fun q => end_at h q < s) (l ++ [t]).
Proof.
  intros Hc He. pose proof (ch_order _ _ _ _ Hc) as Ho. pose proof (ch_member _ _ _ _ Hc) as Hm.
  apply Forall_app in Hm as [_ [Ht _]%Forall_cons]. destruct Ht as (_ & _ & Ht & _).
  apply Forall_app. split; [| by constructor]. apply Forall_forall. intros q Hq.
  pose proof (StronglySorted_app_1_elem_of (before h) l (t :: l2) q t Ho Hq ltac:(by left)) as Hqt. unfold before in Hqt. lia.
Qed.

(** The neighbours decide for all siblings. *)
Definition adjustable (h : heap) (p : Z) (l1 l2 lc : list Z) (s e : Z) : Prop :=
  start_at h p <= s /\ e <= end_at h p /\ (forall q, q ∈ l1 -> end_at h q < s) /\ (forall q, q ∈ l2 -> e < start_at h q) /\
  forall q, q ∈ lc -> s <= start_at h q /\ end_at h q <= e.

Lemma next_clear h rk p res l1 l2 e :
  children h rk p (l1 ++ res :: l2) ->
  exists clear, (match first l2 None with None => Ret true | Some n => rn ← deref h n;
    Ret (negb (start rn <=? e)) end : run unit bool) = Ret clear /\
    (clear = true <-> forall q, q ∈ l2 -> e < start_at h q).
Proof.
  intros Hc. destruct l2 as [|n l2]; cbn [first]; [exists true; split; [done |]; split;
    [by intros _ q ?%not_elem_of_nil | done] |].
  assert (Hin : n ∈ l1 ++ res :: n :: l2) by (apply elem_of_app; right; right; by left).
  destruct (children_parent _ _ _ _ _ Hc Hin) as [_ [rn Hn]]. unfold deref. rewrite Hn. cbn [of_option mbind run_bind].
  eexists. split; [done |]. destruct (Z.leb_spec (start rn) e) as [Hle|Hgt]; cbn [negb];
    (split; [intros Hq | intros Hq; try done]).
  - done.
  - specialize (Hq n ltac:(by left)). rewrite (field_some _ _ _ _ _ Hn) in Hq. lia.
  - rewrite <- Forall_forall. eapply (starts_above h rk p (l1 ++ [res]));
      [by rewrite <- app_assoc | by rewrite (field_some _ _ _ _ _ Hn)].
Qed.

Lemma previous_clear h rk p res l1 l2 s f :
  children h rk p (l1 ++ res :: l2) -> first (l1 ++ res :: l2) None = Some f ->
  exists clear, ((if f =? res then Ret true
                  else t ← find_previous (S (size h)) h f res; rt ← deref h t;
                    Ret (negb (s <=? end_ rt))) : run unit bool) = Ret clear /\
    (clear = true <-> forall q, q ∈ l1 -> end_at h q < s).
Proof.
  intros Hc Hf. pose proof (children_nodup _ _ _ _ Hc) as Hnd. pose proof (children_length _ _ _ _ Hc) as Hlen.
  destruct l1 as [|f' l1]; simpl in Hf; injection Hf as ->.
  { rewrite Z.eqb_refl. exists true. split; [done |]. split; [by intros _ q ?%not_elem_of_nil | done]. }
  destruct (Z.eqb_spec f res) as [->|_].
  { exfalso. simpl in Hnd. apply NoDup_cons in Hnd as [Hn _]. apply Hn, elem_of_app. right. by left. }
  destruct (find_previous_ok h res l2 l1 (S (size h)) f (ch_seg _ _ _ _ Hc) Hnd) as (t & E & Hl).
  { simpl in Hlen. rewrite length_app in Hlen. lia. }
  rewrite E. cbn [mbind run_bind]. apply last_Some in Hl as [l0 El]. rewrite El in *.
  assert (Hin : t ∈ (l0 ++ [t]) ++ res :: l2) by (rewrite !elem_of_app; left; right; by left).
  destruct (children_parent _ _ _ _ _ Hc Hin) as [_ [rt Ht]]. unfold deref. rewrite Ht. cbn [of_option mbind run_bind].
  eexists. split; [done |]. destruct (Z.leb_spec s (end_ rt)) as [Hle|Hgt]; cbn [negb];
    (split; [intros Hq | intros Hq; try done]).
  - done.
  - specialize (Hq t ltac:(apply elem_of_app; right; by left)). rewrite (field_some _ _ _ _ _ Ht) in Hq. lia.
  - rewrite <- Forall_forall. eapply ends_below; [by rewrite <- app_assoc in Hc | by rewrite (field_some _ _ _ _ _ Ht)].
Qed.

(** ** Properties *)

(** C27: without an [alignf] function, for an alignment that is a power of two, and as long as rounding up [min], the
    start of the root and the addresses behind its children does not exceed 64 bits, [allocate_resource] returns: either
    it links, in order, a free range of the requested size that is aligned, lies inside the root and between [min] and
    [max], and meets no child, or it fails with -EBUSY and the children stay as they are.  For sizes of two and more the
    range is the lowest one and it fails only if there is none; a free range of one address may be overlooked, as the
    code wants its start below its end. *)
Theorem allocate_resource_correct size_ min max k h root new rn l :
  0 <= k < 64 -> 1 <= size_ < 2 ^ 64 -> 0 <= min /\ min + 2 ^ k <= 2 ^ 64 -> 0 <= max < 2 ^ 64 ->
  tree_ok h -> is_Some (h !! root) -> child_list h root l -> unlinked h new rn -> new <> root ->
  0 <= start_at h root -> start_at h root + 2 ^ k <= 2 ^ 64 -> 0 <= end_at h root < 2 ^ 64 ->
  Forall (fun q => end_at h q + 2 ^ k < 2 ^ 64) l ->
  exists h' ret, allocate_resource size_ min max (2 ^ k) None h root new = Ret (h', ret) /\ tree_ok h' /\
  ((ret = 0 /\ exists z l1 l2, free_at size_ min max k h root l z /\
     (2 <= size_ -> forall z', free_at size_ min max k h root l z' -> z <= z') /\
     l = l1 ++ l2 /\ child_list h' root (l1 ++ new :: l2) /\ start_at h' new = z /\ end_at h' new = z + size_ - 1) \/
   ret = - EBUSY /\ (2 <= size_ -> forall z, ~ free_at size_ min max k h root l z) /\ child_list h' root l).
Proof.
  intros Hk Hsz Hmin Hmax [rk Ht] Hr Hcl Hn Hne H0 H64 Hend Hl.
  pose proof (child_list_children _ _ _ _ Ht Hr Hcl) as Hc. unfold allocate_resource.
  destruct (find_ok size_ min max k Hk Hsz Hmin Hmax h rk root l Hr Hc H0 H64 Hend Hl new)
    as (s' & e' & ret & E & Hres). rewrite E.
  pose proof Hn as (Hnew & _). rewrite (update_ok _ _ _ _ Hnew). cbn [mbind run_bind].
  destruct (set_range_tree h rk new rn s' e' Ht Hn) as (Ht1 & Hn1 & Hsome & Hother & Hsame).
  set (h1 := <[new := set_range s' e' rn]> h) in *.
  destruct Hres as [(-> & -> & (F1 & F2 & F3) & Hlow)|(-> & Hnone)].
  2: { change (- EBUSY >=? 0) with false. exists h1, (- EBUSY). split; [done |]. split; [by exists rk |]. right.
       split; [done |]. split; [done |]. eapply children_child_list, Hother; [by apply not_eq_sym | exact Hc]. }
  change (0 >=? 0) with true. cbn iota. pose proof (Hother root l ltac:(by apply not_eq_sym) Hc) as Hc1.
  destruct (Hsame root ltac:(by apply not_eq_sym)) as [Es Ee].
  destruct (request_ok h1 rk root new (set_range s' (s' + size_ - 1) rn) l Ht1 (Hsome root Hr) Hc1 Hn1 Hne)
    as [(l1 & l2 & h' & -> & E' & L & ro & Ho & ->)|(c & _ & Hcase)].
  - rewrite E'. cbn [mbind run_bind]. eexists _, 0. split; [done |]. split; [eexists; by apply (linked_tree h1 rk) |].
    left. split; [done |].
    exists s', l1, l2. split; [done |]. split; [done |]. split; [done |].
    split; [by eapply children_child_list, (linked_root h1 rk) |].
    by rewrite !(field_some _ _ _ _ _ (linked_new _ _ _ _ _ _ _)).
  - exfalso. destruct F2 as (_ & _ & _ & Ftop). destruct Hcase as [(_ & Hout)|(_ & _ & [O1 O2] & l1 & l2 & -> & _)].
    + apply Hout. rewrite Es, Ee. simpl. lia.
    + assert (Hin : c ∈ l1 ++ c :: l2) by (apply elem_of_app; right; by left). specialize (F3 c Hin).
      destruct (Hsame c) as [Ecs Ece]; [eapply not_new; [| exact Hc | exact Hin];
        by rewrite (field_some _ _ _ _ _ Hnew); apply Hn |].
      rewrite Ecs, Ece in *. simpl in *. lia.
Qed.

Lemma allocate_resource_correct_witness :
  exists h', allocate_resource 0x80 0x180 0xfff (2 ^ 8) None small_tree 1 4 = Ret (h', 0) /\ start_at h' 4 = 0x200 /\
    end_at h' 4 = 0x27f.
Proof.
  destruct (allocate_resource_correct 0x80 0x180 0xfff 8 small_tree 1 4 (Res 0x200 0x2ff 0 None None None) [2; 3])
    as (h' & ret & E & _ & _).
  - lia.
  - lia.
  - lia.
  - lia.
  - exact small_tree_ok.
  - by eexists.
  - split; [reflexivity |]. repeat (split; [by eexists | split; [reflexivity |]]). done.
  - done.
  - done.
  - by vm_compute.
  - by vm_compute.
  - by vm_compute.
  - repeat constructor; by vm_compute.
  - assert (ret = 0) as -> by (vm_compute in E; congruence). exists h'. split; [exact E |].
    assert (h' = (match allocate_resource 0x80 0x180 0xfff (2 ^ 8) None small_tree 1 4 with Ret (x, _) => x
      | _ => ∅ end)) as -> by by rewrite E.
    by vm_compute.
Defined.

(** [adjust_resource] gives a resource a new range exactly when that range lies inside the parent, covers the
    children and stays clear of all siblings, although only the neighbours are looked at; then the tree stays well
    formed with the same
    links.  Otherwise it returns -EBUSY and nothing changes. *)
Theorem adjust_resource_correct h p res rs l1 l2 lc s size_ :
  tree_ok h -> is_Some (h !! p) -> child_list h p (l1 ++ res :: l2) -> h !! res = Some rs -> child_list h res lc ->
  0 <= s -> 1 <= size_ -> s + size_ <= 2 ^ 64 ->
  let e := s + size_ - 1 in
  (adjustable h p l1 l2 lc s e /\
   exists h', adjust_resource h res s size_ = Ret (h', 0) /\ tree_ok h' /\ child_list h' p (l1 ++ res :: l2) /\
     child_list h' res lc /\ start_at h' res = s /\ end_at h' res = e) \/
  (~ adjustable h p l1 l2 lc s e /\ adjust_resource h res s size_ = Ret (h, - EBUSY)).
Proof.
  intros [rk Ht] Hp Hcl Hrs Hkl H0 H1 H64 e. pose proof (child_list_children _ _ _ _ Ht Hp Hcl) as Hc.
  pose proof (child_list_children _ _ _ _ Ht ltac:(by eexists) Hkl) as Hk. pose proof Hp as [rp Erp].
  pose proof (proj1 (children_parent _ _ _ _ _ Hc (res_in res l1 l2))) as Hpar. rewrite (field_some _ _ _ _ _ Hrs) in Hpar.
  unfold adjust_resource, deref. rewrite Hrs. cbn [of_option mbind run_bind]. rewrite Hpar. cbn [of_option mbind run_bind].
  rewrite Erp. cbn [of_option mbind run_bind]. rewrite (uwrap_small 64 (s + size_ - 1)) by lia. fold e. unfold adjustable.
  rewrite !(field_some _ _ _ _ _ Erp). rewrite Z.gtb_ltb.
  destruct (Z.ltb_spec s (start rp)); [right; split; [lia | done] |].
  destruct (Z.ltb_spec (end_ rp) e); [right; split; [lia | done] |]. cbn [orb].
  pose proof (ch_first _ _ _ _ Hk) as Hfk. rewrite (field_some _ _ _ _ _ Hrs) in Hfk. rewrite Hfk.
  rewrite child_check_ok; [| apply Hk | pose proof (children_length _ _ _ _ Hk); lia]. cbn [mbind run_bind].
  pose proof (ch_seg _ _ _ _ Hc) as Hsg. apply seg_app in Hsg as [_ (_ & Hsib & _)].
  rewrite (field_some _ _ _ _ _ Hrs) in Hsib. rewrite Hsib.
  destruct (forallb _ lc) eqn:Ek; cbn [negb].
  2: { right. split; [| done]. intros (_ & _ & _ & _ & Hall).
    enough (E : forallb (fun q => (s <=? start_at h q) && (end_at h q <=? e)) lc = true) by congruence.
       apply forallb_forall. intros q Hq%list_elem_of_In. specialize (Hall q Hq). zbool. done. }
  rewrite forallb_forall in Ek.
  destruct (next_clear h rk p res l1 l2 e Hc) as (cn & En & Hcn). unfold deref in En. rewrite En. cbn [mbind run_bind].
  destruct cn; cbn [negb]; [| right; split; [| done]; intros (_ & _ & _ & Hn & _); by apply Hcn in Hn].
  pose proof (ch_first _ _ _ _ Hc) as Hf. rewrite (field_some _ _ _ _ _ Erp) in Hf. rewrite Hf.
  destruct (first (l1 ++ res :: l2) None) as [f|] eqn:Ef; [| by destruct l1]. cbn [of_option mbind run_bind].
  destruct (previous_clear h rk p res l1 l2 s f Hc Ef) as (cp & Ep & Hcp). unfold deref in Ep. rewrite Ep. cbn [mbind run_bind].
  destruct cp; cbn [negb]; [| right; split; [| done]; intros (_ & _ & Hn & _); by apply Hcp in Hn].
  rewrite (update_ok _ _ _ _ Hrs). cbn [mbind run_bind]. left.
  assert (Hkids : Forall (fun q => s <= start_at h q /\ end_at h q <= e) lc).
  { apply Forall_forall. intros q Hq%list_elem_of_In. specialize (Ek q Hq). lia. }
  assert (A1 : Forall (fun q => end_at h q < s) l1) by (apply Forall_forall; by apply Hcp).
  assert (A2 : Forall (fun q => e < start_at h q) l2) by (apply Forall_forall; by apply Hcn).
  assert (Hin : start_at h p <= s /\ e <= end_at h p) by (rewrite !(field_some _ _ _ _ _ Erp); lia).
  assert (Hse : s <= e) by (unfold e; lia).
  split; [rewrite Forall_forall in Hkids; split_and!; try done; [by apply Hcp | by apply Hcn] |].
  eexists. split; [done |]. split; [exists rk; by eapply (adjusted_tree h rk p res rs l1 l2 lc) |].
  split; [by eapply children_child_list, (adjusted_parent h rk p res rs l1 l2 lc) |].
  split; [by eapply children_child_list, (adjusted_res h rk p res rs l1 l2 lc) |]. by rewrite !field_insert_eq.
Qed.

Lemma adjust_resource_correct_witness :
  exists h', adjust_resource small_tree 2 0x180 0x100 = Ret (h', 0) /\ tree_ok h'.
Proof.
  destruct (adjust_resource_correct small_tree 1 2 (Res 0x100 0x1ff 0 (Some 1) (Some 3) None) [] [3] [] 0x180 0x100)
    as [(_ & h' & E & H & _)|[_ E]].
  - exact small_tree_ok.
  - by eexists.
  - split; [reflexivity |]. repeat (split; [by eexists | split; [reflexivity |]]). done.
  - reflexivity.
  - done.
  - lia.
  - lia.
  - lia.
  - exists h'. split; [exact E | exact H].
  - exfalso. vm_compute in E. congruence.
Defined.

(** Without the bound on the alignment, rounding up can wrap around to 0, and the range found lies below [min]. *)
Definition high_tree : heap :=
  <[1 := Res 0 (2 ^ 64 - 1) 0 None None (Some 2)]> (<[2 := Res 0x1000 (2 ^ 64 - 0x10001) 0 (Some 1) None None]>
  {[3 := Res 0 0 0 None None None]}).

Lemma allocate_below_min :
  exists h', allocate_resource 0x800 0x1000 (2 ^ 64 - 1) (2 ^ 20) None high_tree 1 3 = Ret (h', 0) /\
    start_at h' 3 = 0 /\ end_at h' 3 = 0x7ff.
Proof. eexists. split; [vm_compute; reflexivity |]. by vm_compute. Qed.

(** A free range of one address is not taken. *)
Lemma allocate_one_address :
  exists h', allocate_resource 1 0 0xffff 1 None
    (<[1 := Res 0x60 0x60 0 None None None]> {[3 := Res 0 0 0 None None None]}) 1 3 = Ret (h', - EBUSY).
Proof. eexists. vm_compute. reflexivity. Qed.

End ResourceAlloc.
