(* ===== verification/FileLock.v ===== *)
(** * POSIX record locks and flock locks (fs/locks.c)

    Locks live in a map from addresses to records.  The chain of [fl_next]
    pointers that starts at [inode->i_flock] is a list of addresses, and a
    position [before] in it is the split of that list into what lies before and
    what follows; a lock that waits has its blocker in [fl_next].  The big
    kernel lock makes each operation one step. *)

From S2P Require Import Prelude.

Module FileLock.

Abbreviation FL_POSIX := 1 (only parsing).
Abbreviation FL_FLOCK := 2 (only parsing).
Abbreviation FL_ACCESS := 8 (only parsing).
Abbreviation FL_EXISTS := 16 (only parsing).
Abbreviation FL_LEASE := 32 (only parsing).
Abbreviation FL_SLEEP := 128 (only parsing).
Abbreviation FILE_LOCK_DEFERRED := 1 (only parsing).
Abbreviation F_RDLCK := 0 (only parsing).
Abbreviation F_WRLCK := 1 (only parsing).
Abbreviation F_UNLCK := 2 (only parsing).
Abbreviation LOCK_SH := 1 (only parsing).
Abbreviation LOCK_EX := 2 (only parsing).
Abbreviation LOCK_UN := 8 (only parsing).
Abbreviation LOCK_MAND := 32 (only parsing).
Abbreviation LOCK_RW := 192 (only parsing).
Abbreviation SEEK_SET := 0 (only parsing).
Abbreviation SEEK_CUR := 1 (only parsing).
Abbreviation SEEK_END := 2 (only parsing).
Abbreviation OFFSET_MAX := (2 ^ 63 - 1) (only parsing).
Abbreviation EDEADLK := 45 (only parsing).
Abbreviation ENOLCK := 46 (only parsing).
Abbreviation EOVERFLOW := 79 (only parsing).

(** The operations of a lock manager: only those of the NFS lock daemon have
    [fl_compare_owner]. *)
Inductive lock_manager := nlmsvc_lock_operations | other_operations (p : Z).
#[export] Instance lock_manager_eq_dec : EqDecision lock_manager.
Proof. solve_decision. Defined.

(** [fl_next] is the blocker of a lock that waits; [fl_block] has the locks that
    wait for this one, in the order in which they came. *)
Record file_lock := FileLock {
  fl_next : option Z;
  fl_block : list Z;
  fl_owner : Z;
  fl_flags : Z;
  fl_type : Z;
  fl_pid : Z;
  fl_nspid : option Z;
  fl_file : option Z;
  fl_start : Z;
  fl_end : Z;
  fl_ops : option Z;
  fl_lmops : option lock_manager
}.

Definition set_links (next : option Z) (block : list Z) (fl : file_lock) : file_lock :=
  FileLock next block (fl_owner fl) (fl_flags fl) (fl_type fl) (fl_pid fl) (fl_nspid fl) (fl_file fl)
    (fl_start fl) (fl_end fl) (fl_ops fl) (fl_lmops fl).
Definition set_range (start end_ : Z) (fl : file_lock) : file_lock :=
  FileLock (fl_next fl) (fl_block fl) (fl_owner fl) (fl_flags fl) (fl_type fl) (fl_pid fl) (fl_nspid fl) (fl_file fl)
    start end_ (fl_ops fl) (fl_lmops fl).
Definition set_type (type : Z) (fl : file_lock) : file_lock :=
  FileLock (fl_next fl) (fl_block fl) (fl_owner fl) (fl_flags fl) type (fl_pid fl) (fl_nspid fl) (fl_file fl)
    (fl_start fl) (fl_end fl) (fl_ops fl) (fl_lmops fl).
Definition set_private (ops : option Z) (lmops : option lock_manager) (fl : file_lock) : file_lock :=
  FileLock (fl_next fl) (fl_block fl) (fl_owner fl) (fl_flags fl) (fl_type fl) (fl_pid fl) (fl_nspid fl) (fl_file fl)
    (fl_start fl) (fl_end fl) ops lmops.
Definition set_nspid (pid : option Z) (fl : file_lock) : file_lock :=
  FileLock (fl_next fl) (fl_block fl) (fl_owner fl) (fl_flags fl) (fl_type fl) (fl_pid fl) pid (fl_file fl)
    (fl_start fl) (fl_end fl) (fl_ops fl) (fl_lmops fl).

Abbreviation heap := (gmap Z file_lock).

(** The locks, the chain of the inode at hand, the global lists, and the waiters
    that were woken or notified, oldest first. *)
Record locks := Locks {
  fls : heap;
  i_flock : list Z;
  file_lock_list : list Z;
  blocked_list : list Z;
  woken : list Z
}.

Definition set_fls (h : heap) (st : locks) : locks := Locks h (i_flock st) (file_lock_list st) (blocked_list st) (woken st).
Definition set_chain (l : list Z) (st : locks) : locks := Locks (fls st) l (file_lock_list st) (blocked_list st) (woken st).

(** [None]: the pointer does not point to a lock. *)
Definition get (st : locks) (p : Z) : option file_lock := fls st !! p.
Definition modify (f : file_lock -> file_lock) (p : Z) (st : locks) : option locks :=
  fl ← get st p; Some (set_fls (<[p := f fl]> (fls st)) st).

Definition list_del (x : Z) (l : list Z) : list Z := filter (fun y => y <> x) l.

(** ** Making locks *)

Definition IS_POSIX (fl : file_lock) : bool := negb (fl_flags fl .& FL_POSIX =? 0).
Abbreviation IS_FLOCK fl := (negb (fl_flags fl .& FL_FLOCK =? 0)) (only parsing).
Abbreviation IS_LEASE fl := (negb (fl_flags fl .& FL_LEASE =? 0)) (only parsing).

Definition locks_init_lock : file_lock := FileLock None [] 0 0 0 0 None None 0 0 None None.

(** [kmem_cache_alloc] returns nothing, or an address with what the object there
    was left with. *)
Definition locks_alloc_lock (obj : option (Z * file_lock)) (st : locks) : option Z * locks :=
  match obj with Some (p, fl) => (Some p, set_fls (<[p := fl]> (fls st)) st) | None => (None, st) end.

Definition locks_release_private (fl : file_lock) : file_lock := set_private None None fl.

Definition locks_copy_private (new fl : file_lock) : file_lock :=
  set_private (if fl_ops fl then fl_ops fl else fl_ops new) (if fl_lmops fl then fl_lmops fl else fl_lmops new) new.

Definition __locks_copy_lock (new fl : file_lock) : file_lock :=
  FileLock (fl_next new) (fl_block new) (fl_owner fl) (fl_flags fl) (fl_type fl) (fl_pid fl) (fl_nspid new) None
    (fl_start fl) (fl_end fl) None None.

Definition set_file (f : option Z) (fl : file_lock) : file_lock :=
  FileLock (fl_next fl) (fl_block fl) (fl_owner fl) (fl_flags fl) (fl_type fl) (fl_pid fl) (fl_nspid fl) f
    (fl_start fl) (fl_end fl) (fl_ops fl) (fl_lmops fl).

Definition locks_copy_lock (new fl : file_lock) : file_lock :=
  let new := locks_release_private new in
  let new := __locks_copy_lock new fl in
  let new := set_file (fl_file fl) new in
  let new := set_private (fl_ops fl) (fl_lmops fl) new in
  locks_copy_private new fl.

(** A lock in use is a BUG. *)
Definition locks_free_lock (p : Z) (st : locks) : option locks :=
  fl ← get st p;
  if bool_decide (fl_next fl = None /\ fl_block fl = [] /\ p ∉ file_lock_list st /\ p ∉ blocked_list st)
  then Some (set_fls (delete p (fls st)) st) else None.

Definition flock_translate_cmd (cmd : Z) : Z :=
  if negb (cmd .& LOCK_MAND =? 0) then cmd .& (LOCK_MAND .| LOCK_RW)
  else if cmd =? LOCK_SH then F_RDLCK
  else if cmd =? LOCK_EX then F_WRLCK
  else if cmd =? LOCK_UN then F_UNLCK
  else - EINVAL.

Definition assign_type (fl : file_lock) (type : Z) : Z + file_lock :=
  if (type =? F_RDLCK) || (type =? F_WRLCK) || (type =? F_UNLCK) then inr (set_type type fl) else inl (- EINVAL).

(** The file's position and size, the caller's file table and process. *)
Record context := Context_ { f_pos : Z; i_size : Z; files : Z; tgid : Z; filp : Z }.
Record flock := Flock { l_type : Z; l_whence : Z; l_start : Z; l_len : Z }.

Definition flock_to_posix_lock (c : context) (fl : file_lock) (l : flock) : Z + file_lock :=
  match (if l_whence l =? SEEK_SET then Some 0 else if l_whence l =? SEEK_CUR then Some (f_pos c)
         else if l_whence l =? SEEK_END then Some (i_size c) else None) with
  | None => inl (- EINVAL)
  | Some start =>
      let start := s64 (start + l_start l) in
      if start <? 0 then inl (- EINVAL)
      else
        let '(start, end_) :=
          if l_len l >? 0 then (start, s64 (s64 (start + l_len l) - 1))
          else if l_len l <? 0 then (s64 (start + l_len l), s64 (start - 1))
          else (start, OFFSET_MAX) in
        if start <? 0 then inl (- EINVAL)
        else if end_ <? start then inl (- EOVERFLOW)
        else
          assign_type (FileLock (fl_next fl) (fl_block fl) (files c) FL_POSIX (fl_type fl) (tgid c) (fl_nspid fl)
            (Some (filp c)) start end_ None None) (l_type l)
  end.

Definition flock_make_lock (c : context) (obj : option (Z * file_lock)) (cmd : Z) (st : locks) : option (Z + Z * locks) :=
  let type := flock_translate_cmd cmd in
  if type <? 0 then Some (inl type)
  else match locks_alloc_lock obj st with
       | (None, _) => Some (inl (- ENOMEM))
       | (Some p, st) =>
           st ← modify (fun fl => FileLock (fl_next fl) (fl_block fl) (fl_owner fl) FL_FLOCK type (tgid c) (fl_nspid fl)
             (Some (filp c)) (fl_start fl) OFFSET_MAX (fl_ops fl) (fl_lmops fl)) p st;
           Some (inr (p, st))
       end.

(** ** Comparing locks *)

Definition locks_overlap (fl1 fl2 : file_lock) : bool :=
  (fl_end fl1 >=? fl_start fl2) && (fl_end fl2 >=? fl_start fl1).

Definition locks_conflict (caller_fl sys_fl : file_lock) : bool :=
  (fl_type sys_fl =? F_WRLCK) || (fl_type caller_fl =? F_WRLCK).

Definition flock_locks_conflict (caller_fl sys_fl : file_lock) : bool :=
  if negb (IS_FLOCK sys_fl) || bool_decide (fl_file caller_fl = fl_file sys_fl) then false
  else if negb (fl_type caller_fl .& LOCK_MAND =? 0) || negb (fl_type sys_fl .& LOCK_MAND =? 0) then false
  else locks_conflict caller_fl sys_fl.

(** ** Blocking and waking *)

Definition __locks_delete_block (waiter : Z) (st : locks) : option locks :=
  fw ← get st waiter;
  let h := match fl_next fw with
           | Some b => alter (fun fb => set_links (fl_next fb) (list_del waiter (fl_block fb)) fb) b (fls st)
           | None => fls st
           end in
  let h := alter (fun fw => set_links None (fl_block fw) fw) waiter h in
  Some (Locks h (i_flock st) (file_lock_list st) (list_del waiter (blocked_list st)) (woken st)).

Definition locks_insert_block (blocker waiter : Z) (st : locks) : option locks :=
  fb ← get st blocker;
  fw ← get st waiter;
  if bool_decide (fl_next fw = None /\ fl_block fw = []) then
    st ← modify (fun fb => set_links (fl_next fb) (fl_block fb ++ [waiter]) fb) blocker st;
    st ← modify (fun fw => set_links (Some blocker) (fl_block fw) fw) waiter st;
    Some (if IS_POSIX fb then Locks (fls st) (i_flock st) (file_lock_list st) (waiter :: blocked_list st) (woken st) else st)
  else None.

(** [while (!list_empty(&blocker->fl_block))]: the list read once, each round
    takes its first entry off. *)
Fixpoint wake_loop (ws : list Z) (st : locks) : option locks :=
  match ws with
  | [] => Some st
  | w :: ws =>
      st ← __locks_delete_block w st;
      wake_loop ws (Locks (fls st) (i_flock st) (file_lock_list st) (blocked_list st) (woken st ++ [w]))
  end.

Definition locks_wake_up_blocks (blocker : Z) (st : locks) : option locks :=
  fb ← get st blocker; wake_loop (fl_block fb) st.

(** The chain is [pre ++ post] and [before] points between them; [pid] is the
    caller's process. *)
Definition locks_insert_lock (pid : Z) (pre : list Z) (fl : Z) (post : list Z) (st : locks) : option locks :=
  st ← modify (set_nspid (Some pid)) fl st;
  Some (Locks (fls st) (pre ++ fl :: post) (fl :: file_lock_list st) (blocked_list st) (woken st)).

(** Takes [fl] out of the chain [pre ++ fl :: post]. *)
Definition locks_delete_lock (pre : list Z) (fl : Z) (post : list Z) (st : locks) : option locks :=
  let st := Locks (fls st) (pre ++ post) (list_del fl (file_lock_list st)) (blocked_list st) (woken st) in
  st ← modify (fun f => set_nspid None (set_links None (fl_block f) f)) fl st;
  st ← locks_wake_up_blocks fl st;
  locks_free_lock fl st.

Definition nlmsvc_same_owner (fl1 fl2 : file_lock) : bool := (fl_owner fl1 =? fl_owner fl2) && (fl_pid fl1 =? fl_pid fl2).

Definition posix_same_owner (fl1 fl2 : file_lock) : bool :=
  match fl_lmops fl1 with
  | Some nlmsvc_lock_operations => bool_decide (fl_lmops fl2 = fl_lmops fl1) && nlmsvc_same_owner fl1 fl2
  | _ => fl_owner fl1 =? fl_owner fl2
  end.

Definition posix_locks_conflict (caller_fl sys_fl : file_lock) : bool :=
  if negb (IS_POSIX sys_fl) || posix_same_owner caller_fl sys_fl then false
  else if negb (locks_overlap caller_fl sys_fl) then false
  else locks_conflict caller_fl sys_fl.

(** ** Testing, and deadlocks *)

Fixpoint test_loop (st : locks) (fl : file_lock) (l : list Z) : option (option file_lock) :=
  match l with
  | [] => Some None
  | c :: l =>
      cfl ← get st c;
      if IS_POSIX cfl && posix_locks_conflict fl cfl then Some (Some cfl) else test_loop st fl l
  end.

(** [pid_vnr] numbers a process in the caller's name space. *)
Definition posix_test_lock (pid_vnr : Z -> Z) (st : locks) (fl : file_lock) : option file_lock :=
  r ← test_loop st fl (i_flock st);
  Some (match r with
        | Some cfl =>
            let fl := __locks_copy_lock fl cfl in
            match fl_nspid cfl with
            | Some pid =>
                FileLock (fl_next fl) (fl_block fl) (fl_owner fl) (fl_flags fl) (fl_type fl) (pid_vnr pid)
                  (fl_nspid fl) (fl_file fl)
                  (fl_start fl) (fl_end fl) (fl_ops fl) (fl_lmops fl)
            | None => fl
            end
        | None => set_type F_UNLCK fl
        end).

Abbreviation MAX_DEADLK_ITERATIONS := 10 (only parsing).

Fixpoint waiting_loop (st : locks) (l : list Z) (block_fl : file_lock) : option (option Z) :=
  match l with
  | [] => Some None
  | w :: l =>
      fl ← get st w;
      if posix_same_owner fl block_fl then Some (fl_next fl) else waiting_loop st l block_fl
  end.

Definition what_owner_is_waiting_for (st : locks) (block_fl : file_lock) : option (option Z) :=
  waiting_loop st (blocked_list st) block_fl.

Fixpoint deadlock_loop (fuel : nat) (st : locks) (i : Z) (caller_fl block_fl : file_lock) : option bool :=
  match fuel with
  | O => None
  | S fuel =>
      b ← what_owner_is_waiting_for st block_fl;
      match b with
      | None => Some false
      | Some b =>
          block_fl ← get st b;
          if i >? MAX_DEADLK_ITERATIONS then Some false
          else if posix_same_owner caller_fl block_fl then Some true
          else deadlock_loop fuel st (i + 1) caller_fl block_fl
      end
  end.

Definition posix_locks_deadlock (st : locks) (caller_fl block_fl : file_lock) : option bool :=
  deadlock_loop 13 st 0 caller_fl block_fl.

(** ** POSIX locks *)

(** The search for a conflict; [None] inside: there is none. *)
Fixpoint conflict_loop (st : locks) (request : file_lock) (l : list Z) : option (option Z) :=
  match l with
  | [] => Some None
  | a :: l =>
      fl ← get st a;
      if negb (IS_POSIX fl) then conflict_loop st request l
      else if negb (posix_locks_conflict request fl) then conflict_loop st request l
      else Some (Some a)
  end.

(** [while ((fl = *before) && (!IS_POSIX(fl) || !posix_same_owner(request, fl)))] *)
Fixpoint skip_loop (st : locks) (request : file_lock) (pre rest : list Z) : option (list Z * list Z) :=
  match rest with
  | [] => Some (pre, [])
  | a :: rest' =>
      fl ← get st a;
      if negb (IS_POSIX fl) || negb (posix_same_owner request fl) then skip_loop st request (pre ++ [a]) rest'
      else Some (pre, rest)
  end.

(** What the loop over the owner's locks leaves: the chain is [c_pre ++ c_post],
    [before] in between. *)
Record cursor := Cursor {
  c_st : locks;
  c_pre : list Z;
  c_post : list Z;
  c_request : Z;
  c_left : option Z;
  c_right : option Z;
  c_added : bool
}.

(** The larger range of both, written to both. *)
Definition merge (a request : Z) (st : locks) : option locks :=
  fl ← get st a; req ← get st request;
  st ← (if fl_start fl >? fl_start req then modify (set_range (fl_start req) (fl_end fl)) a st
        else modify (set_range (fl_start fl) (fl_end req)) request st);
  fl ← get st a; req ← get st request;
  if fl_end fl <? fl_end req then modify (set_range (fl_start fl) (fl_end req)) a st
  else modify (set_range (fl_start req) (fl_end fl)) request st.

(** The new lock replaces an old one of another type. *)
Definition replace (a request : Z) (st : locks) : option locks :=
  st ← locks_wake_up_blocks a st;
  req ← get st request;
  modify (fun fl => locks_copy_private (locks_release_private
    (set_type (fl_type req) (set_range (fl_start req) (fl_end req) fl))) req) a st.

Fixpoint own_loop (post : list Z) (st : locks) (pre : list Z) (request : Z) (left right : option Z) (added : bool) :
  option cursor :=
  match post with
  | [] => Some (Cursor st pre [] request left right added)
  | a :: post' =>
      fl ← get st a;
      req ← get st request;
      if negb (posix_same_owner req fl) then Some (Cursor st pre post request left right added)
      else if fl_type req =? fl_type fl then
        if fl_end fl <? s64 (fl_start req - 1) then own_loop post' st (pre ++ [a]) request left right added
        else if s64 (fl_start fl - 1) >? fl_end req then Some (Cursor st pre post request left right added)
        else
          st ← merge a request st;
          if added then
            st ← locks_delete_lock pre a post' st;
            own_loop post' st pre request left right added
          else own_loop post' st (pre ++ [a]) a left right true
      else
        if fl_end fl <? fl_start req then own_loop post' st (pre ++ [a]) request left right added
        else if fl_start fl >? fl_end req then Some (Cursor st pre post request left right added)
        else
          let added := (fl_type req =? F_UNLCK) || added in
          let left := if fl_start fl <? fl_start req then Some a else left in
          if fl_end fl >? fl_end req then Some (Cursor st pre post request left (Some a) added)
          else if fl_start fl >=? fl_start req then
            if added then
              st ← locks_delete_lock pre a post' st;
              own_loop post' st pre request left right added
            else
              st ← replace a request st;
              own_loop post' st (pre ++ [a]) a left right true
          else own_loop post' st (pre ++ [a]) request left right added
  end.

(** From the end of the loop to [out].  The result has the error and those of
    [new_fl] and [new_fl2] that are left over. *)
Definition insert_new (pid : Z) (c : cursor) (new_fl : option Z) : option (Z + cursor * option Z) :=
  req ← get (c_st c) (c_request c);
  if c_added c then Some (inr (c, new_fl))
  else if fl_type req =? F_UNLCK then
    Some (inl (if negb (fl_flags req .& FL_EXISTS =? 0) then - ENOENT else 0))
  else
    match new_fl with
    | None => Some (inl (- ENOLCK))
    | Some n =>
        st ← modify (fun new => locks_copy_lock new req) n (c_st c);
        st ← locks_insert_lock pid (c_pre c) n (c_post c) st;
        Some (inr (Cursor st (c_pre c) (n :: c_post c) (c_request c) (c_left c) (c_right c) (c_added c), None))
    end.

(** [left = new_fl2], when the new lock lies inside an old one. *)
Definition split_right (pid : Z) (c : cursor) (right : Z) (new_fl2 : option Z) : option (cursor * option Z) :=
  if bool_decide (c_left c = Some right) then
    n ← new_fl2;
    fr ← get (c_st c) right;
    st ← modify (fun new => locks_copy_lock new fr) n (c_st c);
    st ← locks_insert_lock pid (c_pre c) n (c_post c) st;
    Some (Cursor st (c_pre c) (n :: c_post c) (c_request c) (Some n) (c_right c) (c_added c), None)
  else Some (c, new_fl2).

Definition clip_right (pid : Z) (c : cursor) (new_fl2 : option Z) : option (cursor * option Z) :=
  match c_right c with
  | None => Some (c, new_fl2)
  | Some r =>
      '(c, new_fl2) ← split_right pid c r new_fl2;
      req ← get (c_st c) (c_request c);
      st ← modify (fun fl => set_range (s64 (fl_end req + 1)) (fl_end fl) fl) r (c_st c);
      st ← locks_wake_up_blocks r st;
      Some (Cursor st (c_pre c) (c_post c) (c_request c) (c_left c) (c_right c) (c_added c), new_fl2)
  end.

Definition clip_left (c : cursor) : option locks :=
  match c_left c with
  | None => Some (c_st c)
  | Some l =>
      req ← get (c_st c) (c_request c);
      st ← modify (fun fl => set_range (fl_start fl) (s64 (fl_start req - 1)) fl) l (c_st c);
      locks_wake_up_blocks l st
  end.

Definition finish (pid : Z) (c : cursor) (new_fl new_fl2 : option Z) : option (locks * Z * option Z * option Z) :=
  if bool_decide (is_Some (c_right c) /\ c_left c = c_right c /\ new_fl2 = None)
  then Some (c_st c, - ENOLCK, new_fl, new_fl2)
  else
    r ← insert_new pid c new_fl;
    match r with
    | inl error => Some (c_st c, error, new_fl, new_fl2)
    | inr (c, new_fl) =>
        '(c, new_fl2) ← clip_right pid c new_fl2;
        st ← clip_left c;
        Some (st, 0, new_fl, new_fl2)
    end.

Definition free_unused (p : option Z) (st : locks) : option locks :=
  match p with Some p => locks_free_lock p st | None => Some st end.

(** [request] blocked by the lock [a]: the error. *)
Definition blocked (st : locks) (request a : Z) : option (locks * Z) :=
  req ← get st request; fl ← get st a;
  if fl_flags req .& FL_SLEEP =? 0 then Some (st, - EAGAIN)
  else
    dead ← posix_locks_deadlock st req fl;
    if dead : bool then Some (st, - EDEADLK)
    else st ← locks_insert_block a request st; Some (st, FILE_LOCK_DEFERRED).

(** The state, the error, and [conflock] with a copy of the conflicting lock. *)
Definition __posix_lock_file (pid : Z) (st : locks) (request : Z) (conflock : option file_lock)
    (obj obj2 : option (Z * file_lock)) : option (locks * Z * option file_lock) :=
  req ← get st request;
  let '(new_fl, new_fl2, st) :=
    if (fl_flags req .& FL_ACCESS =? 0)
       && (negb (fl_type req =? F_UNLCK) || negb (fl_start req =? 0) || negb (fl_end req =? OFFSET_MAX))
    then let '(new_fl, st) := locks_alloc_lock obj st in
         let '(new_fl2, st) := locks_alloc_lock obj2 st in (new_fl, new_fl2, st)
    else (None, None, st) in
  conflict ← (if fl_type req =? F_UNLCK then Some None else conflict_loop st req (i_flock st));
  let conflock := match conflict ≫= get st, conflock with
                  | Some fl, Some c => Some (__locks_copy_lock c fl)
                  | _, _ => conflock
                  end in
  '(st, error, new_fl, new_fl2) ←
    match conflict with
    | Some a => '(st, error) ← blocked st request a; Some (st, error, new_fl, new_fl2)
    | None =>
        if negb (fl_flags req .& FL_ACCESS =? 0) then Some (st, 0, new_fl, new_fl2)
        else
          '(pre, post) ← skip_loop st req [] (i_flock st);
          c ← own_loop post st pre request None None false;
          finish pid c new_fl new_fl2
    end;
  st ← free_unused new_fl st;
  st ← free_unused new_fl2 st;
  Some (st, error, conflock).

(** ** flock locks *)

(** The first loop: the caller's old lock, if it has one of another type, is
    deleted.  [inl]: there is one of the same type. *)
Fixpoint flock_drop (st : locks) (file : option Z) (type : Z) (pre post : list Z) : option (unit + locks * bool) :=
  match post with
  | [] => Some (inr (st, false))
  | a :: post' =>
      fl ← get st a;
      if IS_POSIX fl then Some (inr (st, false))
      else if IS_LEASE fl then flock_drop st file type (pre ++ [a]) post'
      else if negb (bool_decide (file = fl_file fl)) then flock_drop st file type (pre ++ [a]) post'
      else if type =? fl_type fl then Some (inl tt)
      else st ← locks_delete_lock pre a post' st; Some (inr (st, true))
  end.

(** The second loop: the first conflicting lock, or the place behind the last
    lock that is not a POSIX lock. *)
Fixpoint flock_conflict (st : locks) (request : file_lock) (pre post : list Z) : option (Z + list Z * list Z) :=
  match post with
  | [] => Some (inr (pre, []))
  | a :: post' =>
      fl ← get st a;
      if IS_POSIX fl then Some (inr (pre, post))
      else if IS_LEASE fl then flock_conflict st request (pre ++ [a]) post'
      else if negb (flock_locks_conflict request fl) then flock_conflict st request (pre ++ [a]) post'
      else Some (inl a)
  end.

(** From [find_conflict] on. *)
Definition flock_insert (pid : Z) (st : locks) (request : Z) (new_fl : option Z) : option (locks * Z * option Z) :=
  req ← get st request;
  r ← flock_conflict st req [] (i_flock st);
  match r with
  | inl a =>
      if fl_flags req .& FL_SLEEP =? 0 then Some (st, - EAGAIN, new_fl)
      else st ← locks_insert_block a request st; Some (st, FILE_LOCK_DEFERRED, new_fl)
  | inr (pre, post) =>
      if negb (fl_flags req .& FL_ACCESS =? 0) then Some (st, 0, new_fl)
      else
        n ← new_fl;
        st ← modify (fun new => locks_copy_lock new req) n st;
        st ← locks_insert_lock pid pre n post st;
        Some (st, 0, None)
  end.

(** [cond_resched] is what others do to the locks while the big kernel lock is
    dropped. *)
Definition flock_lock_file (pid : Z) (filp : Z) (cond_resched : locks -> locks) (st : locks) (request : Z)
    (obj : option (Z * file_lock)) : option (locks * Z) :=
  req ← get st request;
  '(st, error, new_fl) ←
    if negb (fl_flags req .& FL_ACCESS =? 0) then flock_insert pid st request None
    else
      let '(new_fl, st) := if fl_type req =? F_UNLCK then (None, st) else locks_alloc_lock obj st in
      if negb (fl_type req =? F_UNLCK) && bool_decide (new_fl = None) then Some (st, - ENOMEM, new_fl)
      else
        r ← flock_drop st (Some filp) (fl_type req) [] (i_flock st);
        match r with
        | inl _ => Some (st, 0, new_fl)
        | inr (st, found) =>
            if fl_type req =? F_UNLCK then
              Some (st, if negb (fl_flags req .& FL_EXISTS =? 0) && negb found then - ENOENT else 0, new_fl)
            else flock_insert pid (if found : bool then cond_resched st else st) request new_fl
        end;
  st ← free_unused new_fl st;
  Some (st, error).

(** ** Waiters and blockers

    [links]: the lists of waiters and the [fl_next] of waiters agree, the locks of
    the chain are there and do not wait, and who waits for a POSIX lock
    conflicts with it; the last only for blockers other than [exc]. *)

Record links (exc : option Z) (st : locks) : Prop := Links {
  l_block : forall b fb w, fls st !! b = Some fb ->
    (w ∈ fl_block fb <-> exists fw, fls st !! w = Some fw /\ fl_next fw = Some b);
  l_nodup : forall b fb, fls st !! b = Some fb -> NoDup (fl_block fb);
  l_next : forall w fw b, fls st !! w = Some fw -> fl_next fw = Some b -> is_Some (fls st !! b);
  l_chain : forall a, a ∈ i_flock st -> exists fl, fls st !! a = Some fl /\ fl_next fl = None;
  l_once : NoDup (i_flock st);
  l_blocked : forall w, w ∈ blocked_list st -> exists fw b, fls st !! w = Some fw /\ fl_next fw = Some b;
  l_list : forall a, a ∈ file_lock_list st -> is_Some (fls st !! a);
  l_waits : forall w fw b fb, fls st !! w = Some fw -> fl_next fw = Some b -> fls st !! b = Some fb ->
    exc <> Some b -> IS_POSIX fb = true -> posix_locks_conflict fw fb = true
}.

(** What a lock is apart from its place in the lists. *)
Definition strip (fl : file_lock) : file_lock := set_nspid None (set_links None [] fl).
Definition cores (st : locks) : heap := strip <$> fls st.

(** Locks that do not wait are as before, except those in [X], and no others came
    into the lists. *)
Record frame (X : list Z) (st st' : locks) : Prop := Frame {
  f_locks : forall p fl, p ∉ X -> fls st !! p = Some fl -> fl_next fl = None -> fls st' !! p = Some fl;
  f_chain : forall p, p ∉ X -> p ∈ i_flock st' -> p ∈ i_flock st;
  f_list : forall p, p ∉ X -> p ∈ file_lock_list st' -> p ∈ file_lock_list st
}.

#[export] Instance frame_preorder X : PreOrder (frame X).
Proof. split; [by intros st; split |]. intros s1 s2 s3 [L1 C1 T1] [L2 C2 T2]. split; auto. Qed.

Lemma frame_mono X Y st st' : X ⊆ Y -> frame X st st' -> frame Y st st'.
Proof. intros HX [H1 H2 H3]. split; intros p; intros; [apply H1 | apply H2 | apply H3]; set_solver. Qed.

Lemma cores_lookup st p fl : fls st !! p = Some fl -> cores st !! p = Some (strip fl).
Proof. intros H. unfold cores. by rewrite lookup_fmap, H. Qed.

Lemma cores_inv st p c : cores st !! p = Some c -> exists fl, fls st !! p = Some fl /\ strip fl = c.
Proof. unfold cores. rewrite lookup_fmap. destruct (fls st !! p) as [fl|]; [| done]. intros [= <-]. by exists fl. Qed.

(** A lock that does not wait changes, but not its place in the lists; its waiters
    still conflict with it, or it is the exception. *)
Lemma links_insert exc st p fl fl' :
  links exc st -> fls st !! p = Some fl -> fl_next fl = None -> fl_next fl' = None -> fl_block fl' = fl_block fl ->
  (exc = Some p \/ fl_block fl = [] \/
   IS_POSIX fl = IS_POSIX fl' /\ forall fw, posix_locks_conflict fw fl = true -> posix_locks_conflict fw fl' = true) ->
  links exc (set_fls (<[p := fl']> (fls st)) st).
Proof.
  intros L Hp Hn Hn' Hb Hw.
  assert (Hwait : forall w fw b, <[p := fl']> (fls st) !! w = Some fw -> fl_next fw = Some b -> fls st !! w = Some fw).
  { intros w fw b [[-> <-]|[_ E]]%lookup_insert_Some Hb'; [congruence | done]. }
  split; simpl.
  - intros b fb w [[-> <-]|[Hne E]]%lookup_insert_Some.
    + rewrite Hb, (l_block _ _ L _ _ w Hp). split; intros (fw & E & Hx); exists fw; split; try done; [| by eapply Hwait].
      rewrite lookup_insert_ne; [done | congruence].
    + rewrite (l_block _ _ L _ _ w E). split; intros (fw & E' & Hx); exists fw; split; try done; [| by eapply Hwait].
      rewrite lookup_insert_ne; [done | congruence].
  - intros b fb [[-> <-]|[Hne E]]%lookup_insert_Some; [rewrite Hb |]; by eapply l_nodup.
  - intros w fw b E Hx. apply Hwait with (b := b) in E; [| done]. apply lookup_insert_is_Some'. right. by eapply l_next.
  - intros a Ha. destruct (decide (a = p)) as [->|Hne]; [exists fl'; by rewrite lookup_insert_eq |].
    rewrite lookup_insert_ne by done. by eapply l_chain.
  - apply L.
  - intros w (fw & b & E & Hx)%(l_blocked _ _ L). exists fw, b. rewrite lookup_insert_ne; [done | congruence].
  - intros a Ha. apply lookup_insert_is_Some'. right. by eapply l_list.
  - intros w fw b fb E Hx. pose proof (Hwait _ _ _ E Hx) as E'.
    intros [[-> <-]|[_ Eb]]%lookup_insert_Some He Hpos; [| by eapply l_waits].
    destruct Hw as [?|[Hw|[Hpx Hw]]]; [done | | apply Hw; eapply l_waits; eauto; congruence].
    assert (w ∈ fl_block fl) as Hin by (apply (l_block _ _ L _ _ w Hp); eauto). rewrite Hw in Hin.
    by apply not_elem_of_nil in Hin.
Qed.

Lemma frame_insert st p fl : frame [p] st (set_fls (<[p := fl]> (fls st)) st).
Proof. split; try done. intros q fq Hq Hf _. simpl. rewrite lookup_insert_ne; [done | set_solver]. Qed.

(** A new lock, which is in no list. *)
Lemma links_fresh exc st p fl :
  links exc st -> fls st !! p = None -> fl_next fl = None -> fl_block fl = [] -> links exc (set_fls (<[p := fl]> (fls st)) st).
Proof.
  intros L Hp Hn Hb.
  assert (Hold : forall q fq, fls st !! q = Some fq -> <[p := fl]> (fls st) !! q = Some fq).
  { intros q fq E. rewrite lookup_insert_ne; [done | congruence]. }
  assert (Hwait : forall w fw b, <[p := fl]> (fls st) !! w = Some fw -> fl_next fw = Some b -> fls st !! w = Some fw).
  { intros w fw b [[-> <-]|[_ E]]%lookup_insert_Some Hb'; [congruence | done]. }
  split; simpl.
  - intros b fb w [[-> <-]|[Hne E]]%lookup_insert_Some.
    + rewrite Hb. split; [by intros ?%not_elem_of_nil |]. intros (fw & E & Hx). apply Hwait with (b := b) in E; [| done].
      destruct (l_next _ _ L _ _ _ E Hx). congruence.
    + rewrite (l_block _ _ L _ _ w E). split; intros (fw & E' & Hx); exists fw; split; eauto.
  - intros b fb [[-> <-]|[Hne E]]%lookup_insert_Some; [rewrite Hb; constructor |]; by eapply l_nodup.
  - intros w fw b E Hx. apply Hwait with (b := b) in E; [| done]. destruct (l_next _ _ L _ _ _ E Hx). eauto.
  - intros a (f & E & Hf)%(l_chain _ _ L). eauto.
  - apply L.
  - intros w (fw & b & E & Hx)%(l_blocked _ _ L). eauto.
  - intros a [f E]%(l_list _ _ L). eauto.
  - intros w fw b fb E Hx Hfb He Hpos. apply Hwait with (b := b) in E; [| done].
    destruct (l_next _ _ L _ _ _ E Hx) as [fb' Eb]. pose proof (Hold _ _ Eb). eapply l_waits; eauto; congruence.
Qed.

Lemma elem_of_list_del x y l : x ∈ list_del y l <-> x ∈ l /\ x <> y.
Proof. unfold list_del. rewrite list_elem_of_filter. tauto. Qed.

Lemma strip_links next block fl : strip (set_links next block fl) = strip fl.
Proof. done. Qed.

Lemma conflict_links next block fw fb : posix_locks_conflict (set_links next block fw) fb = posix_locks_conflict fw fb.
Proof. done. Qed.

(** A waiter that is taken off the list of its blocker. *)
Definition unlinked (w b : Z) (fw fb : file_lock) (st : locks) : locks :=
  Locks (<[w := set_links None (fl_block fw) fw]> (<[b := set_links (fl_next fb) (list_del w (fl_block fb)) fb]> (fls st)))
    (i_flock st) (file_lock_list st) (list_del w (blocked_list st)) (woken st).

Lemma delete_block_ok w b fw fb st :
  fls st !! w = Some fw -> fl_next fw = Some b -> fls st !! b = Some fb -> w <> b ->
  __locks_delete_block w st = Some (unlinked w b fw fb st).
Proof.
  intros Hw Hn Hb Hne. unfold __locks_delete_block, unlinked, get. rewrite Hw. cbn [mbind option_bind]. rewrite Hn.
  do 2 f_equal. apply map_eq. intros q.
  destruct (decide (q = w)) as [->|Hq]; [by rewrite lookup_alter_eq, lookup_alter_ne, lookup_insert_eq, Hw by done |].
  rewrite lookup_alter_ne, lookup_insert_ne by done.
  destruct (decide (q = b)) as [->|Hq']; [by rewrite lookup_alter_eq, lookup_insert_eq, Hb
    | by rewrite lookup_alter_ne, lookup_insert_ne].
Qed.

Lemma unlinked_lookup w b fw fb st q f :
  fls st !! w = Some fw -> fls st !! b = Some fb -> fls (unlinked w b fw fb st) !! q = Some f ->
  exists f0, fls st !! q = Some f0 /\ strip f = strip f0 /\ IS_POSIX f = IS_POSIX f0 /\
    fl_next f = (if decide (q = w) then None else fl_next f0) /\
    fl_block f = (if decide (q = b /\ q <> w) then list_del w (fl_block f0) else fl_block f0).
Proof.
  intros Hw Hb. simpl. destruct (decide (q = w)) as [->|Hq].
  - rewrite lookup_insert_eq. intros [= <-]. exists fw. rewrite decide_False by tauto. done.
  - rewrite lookup_insert_ne by done. destruct (decide (q = b)) as [->|Hq'].
    + rewrite lookup_insert_eq. intros [= <-]. exists fb. rewrite decide_True by done. done.
    + rewrite lookup_insert_ne by done. intros E. exists f. rewrite decide_False by tauto. done.
Qed.

Lemma unlinked_lookup_iff w b fw fb st q f0 :
  fls st !! w = Some fw -> fls st !! b = Some fb -> fls st !! q = Some f0 ->
  exists f, fls (unlinked w b fw fb st) !! q = Some f /\ fl_next f = (if decide (q = w) then None else fl_next f0).
Proof.
  intros Hw Hb Hq. simpl. destruct (decide (q = w)) as [->|Hqw]; [rewrite lookup_insert_eq; eauto |].
  rewrite lookup_insert_ne by done. destruct (decide (q = b)) as [->|Hqb]; [| rewrite lookup_insert_ne by done; eauto].
  rewrite lookup_insert_eq. eexists. split; [done |]. simpl. congruence.
Qed.

Lemma conflict_strip fw fw' fb fb' :
  strip fw = strip fw' -> strip fb = strip fb' -> posix_locks_conflict fw fb = posix_locks_conflict fw' fb'.
Proof.
  intros Ew Eb. change (posix_locks_conflict (strip fw) (strip fb) = posix_locks_conflict (strip fw') (strip fb')).
  by rewrite Ew, Eb.
Qed.

Lemma unlinked_links exc w b fw fb st :
  links exc st -> fls st !! w = Some fw -> fl_next fw = Some b -> fls st !! b = Some fb -> w <> b ->
  links exc (unlinked w b fw fb st).
Proof.
  intros L Hw Hn Hb Hne.
  pose proof (fun q f => unlinked_lookup w b fw fb st q f Hw Hb) as Hdown.
  pose proof (fun q f => unlinked_lookup_iff w b fw fb st q f Hw Hb) as Hup.
  split.
  - intros c fc v Ec. destruct (Hdown _ _ Ec) as (f0 & E0 & _ & _ & _ & Hblk). rewrite Hblk.
    assert (Hv : (exists fv, fls (unlinked w b fw fb st) !! v = Some fv /\ fl_next fv = Some c) <->
                 v <> w /\ exists fv, fls st !! v = Some fv /\ fl_next fv = Some c).
    { split.
      - intros (fv & Ev & Hnv). destruct (Hdown _ _ Ev) as (f1 & E1 & _ & _ & Hn1 & _). destruct (decide (v = w)); [congruence |].
        split; [done |]. exists f1. split; congruence.
      - intros (Hvw & fv & Ev & Hnv). destruct (Hup _ _ Ev) as (f1 & E1 & Hn1). rewrite decide_False in Hn1 by done.
        exists f1. split; congruence. }
    rewrite Hv, <- (l_block _ _ L _ _ v E0). destruct (decide (c = b /\ c <> w)) as [[-> _]|Hc].
    + rewrite elem_of_list_del. tauto.
    + split; [| tauto]. intros Hin. split; [| done]. intros ->.
      apply (l_block _ _ L _ _ w E0) in Hin as (fw' & Ew' & Hnw). assert (c = b) as -> by congruence. by apply Hc.
  - intros c fc Ec. destruct (Hdown _ _ Ec) as (f0 & E0 & _ & _ & _ & ->). pose proof (l_nodup _ _ L _ _ E0).
    destruct (decide _); [by apply NoDup_filter | done].
  - intros v fv c Ev Hnv. destruct (Hdown _ _ Ev) as (f0 & E0 & _ & _ & Hn0 & _). destruct (decide (v = w)); [congruence |].
    destruct (l_next _ _ L v f0 c) as [fc Ec]; [done | congruence |]. destruct (Hup _ _ Ec) as (f1 & E1 & _). eauto.
  - intros a (fl & Ea & Hna)%(l_chain _ _ L). destruct (Hup _ _ Ea) as (f1 & E1 & Hn1). exists f1. split; [done |].
    destruct (decide (a = w)); congruence.
  - apply L.
  - intros v [Hv Hvw]%elem_of_list_del. destruct (l_blocked _ _ L v Hv) as (fv & c & Ev & Hnv).
    destruct (Hup _ _ Ev) as (f1 & E1 & Hn1). rewrite decide_False in Hn1 by done. exists f1, c. split; congruence.
  - intros a [fl Ea]%(l_list _ _ L). destruct (Hup _ _ Ea) as (f1 & E1 & _). eauto.
  - intros v fv c fc Ev Hnv Ec Hx Hpos. destruct (Hdown _ _ Ev) as (f0 & E0 & Es0 & _ & Hn0 & _).
    destruct (Hdown _ _ Ec) as (f1 & E1 & Es1 & Hp1 & _ & _). destruct (decide (v = w)); [congruence |].
    rewrite (conflict_strip _ _ _ _ Es0 Es1). eapply l_waits; eauto; congruence.
Qed.

Lemma list_del_notin w ws : w ∉ ws -> list_del w ws = ws.
Proof.
  induction ws as [|x ws IH]; [done |]. intros [Hne Hn]%not_elem_of_cons. unfold list_del in *.
  rewrite filter_cons_True by congruence. by rewrite IH.
Qed.

Lemma list_del_cons w ws : NoDup (w :: ws) -> list_del w (w :: ws) = ws.
Proof.
  intros [Hw Hn]%NoDup_cons. pose proof (list_del_notin w ws Hw) as E. unfold list_del in *.
  by rewrite filter_cons_False by tauto.
Qed.

Lemma cores_unlinked w b fw fb st :
  fls st !! w = Some fw -> fls st !! b = Some fb -> cores (unlinked w b fw fb st) = cores st.
Proof.
  intros Hw Hb. unfold cores, unlinked. cbn [fls]. rewrite !fmap_insert, !strip_links, (insert_id _ b), (insert_id _ w);
    rewrite ?lookup_fmap, ?Hw, ?Hb; done.
Qed.

(** What [locks_wake_up_blocks] does to the blocker [b] and its waiters [ws]. *)
Record woke (exc : option Z) (b : Z) (fb : file_lock) (st st' : locks) : Prop := Woke {
  w_links : links exc st';
  w_cores : cores st' = cores st;
  w_chain : i_flock st' = i_flock st;
  w_list : file_lock_list st' = file_lock_list st;
  w_woken : woken st' = woken st ++ fl_block fb;
  w_blocker : fls st' !! b = Some (set_links None [] fb);
  w_frame : frame [b] st st'
}.

Lemma links_woken exc h l fl bl wk wk' : links exc (Locks h l fl bl wk) -> links exc (Locks h l fl bl wk').
Proof. intros []. by split. Qed.

Lemma wake_loop_ok ws : forall exc st b fb,
  links exc st -> fls st !! b = Some fb -> fl_next fb = None -> fl_block fb = ws ->
  exists st', wake_loop ws st = Some st' /\ woke exc b fb st st'.
Proof.
  induction ws as [|w ws IH]; intros exc st b fb L Hb Hn Hws.
  - exists st. split; [done |]. split; try done; [by rewrite Hws, app_nil_r |].
    destruct fb; simpl in *; by subst.
  - assert (w ∈ fl_block fb) as Hin by (rewrite Hws; left).
    pose proof (l_nodup _ _ L _ _ Hb) as Hnd. apply (l_block _ _ L _ _ w Hb) in Hin as (fw & Hw & Hnw).
    assert (w <> b) as Hne by congruence. cbn [wake_loop]. rewrite (delete_block_ok w b fw fb st) by done.
    cbn [mbind option_bind].
    set (fb' := set_links (fl_next fb) (list_del w (fl_block fb)) fb).
    assert (Hb' : fl_block fb' = ws) by (unfold fb'; simpl; rewrite Hws in *; by apply list_del_cons).
    destruct (IH exc (Locks (fls (unlinked w b fw fb st)) (i_flock st) (file_lock_list st)
      (list_del w (blocked_list st)) (woken st ++ [w])) b fb')
      as (st' & E & [Wl Wc Wh Wt Ww Wb Wf]); try done.
    { eapply links_woken. by apply (unlinked_links exc w b fw fb st). }
    { cbn [fls unlinked]. by rewrite lookup_insert_ne, lookup_insert_eq by done. }
    exists st'. split; [exact E |]. split; try done.
    + rewrite Wc. by apply (cores_unlinked w b fw fb st).
    + rewrite Ww, Hb', Hws. simpl. by rewrite <- app_assoc.
    + destruct Wf as [F1 F2 F3]. split; try done. intros q f Hq Ef Hnf. apply F1; try done. cbn [fls unlinked].
      rewrite lookup_insert_ne by congruence. rewrite lookup_insert_ne by set_solver. done.
Qed.

Lemma wake_up_ok exc st b fb :
  links exc st -> fls st !! b = Some fb -> fl_next fb = None ->
  exists st', locks_wake_up_blocks b st = Some st' /\ woke exc b fb st st'.
Proof. intros L Hb Hn. unfold locks_wake_up_blocks, get. rewrite Hb. by apply wake_loop_ok. Qed.

(** Without waiters the exception is none. *)
Lemma links_idle b st fb : links (Some b) st -> fls st !! b = Some fb -> fl_block fb = [] -> links None st.
Proof.
  intros L Hb Hidle. destruct L as [L1 L2 L3 L4 L5 L6 L7 L8]. split; try done. intros w fw c fc Ew Hn Ec _ Hpos.
  destruct (decide (c = b)) as [->|Hne]; [| eapply L8; eauto; congruence].
  assert (w ∈ fl_block fb) as Hin by (apply (L1 _ _ w Hb); eauto). rewrite Hidle in Hin. by apply not_elem_of_nil in Hin.
Qed.

Lemma links_delete exc st p fl :
  links exc st -> fls st !! p = Some fl -> fl_next fl = None -> fl_block fl = [] -> p ∉ i_flock st -> p ∉ file_lock_list st ->
  links exc (set_fls (delete p (fls st)) st).
Proof.
  intros L Hp Hn Hb Hc Hl.
  assert (Hkeep : forall w fw b, fls st !! w = Some fw -> fl_next fw = Some b -> delete p (fls st) !! w = Some fw).
  { intros w fw b E Hx. rewrite lookup_delete_ne; [done | congruence]. }
  assert (Hnone : forall w fw, fls st !! w = Some fw -> fl_next fw <> Some p).
  { intros w fw E Hx. assert (w ∈ fl_block fl) as Hin by (apply (l_block _ _ L _ _ w Hp); eauto).
    rewrite Hb in Hin. by apply not_elem_of_nil in Hin. }
  split; simpl.
  - intros b fb w [Hne E]%lookup_delete_Some. rewrite (l_block _ _ L _ _ w E). split; intros (fw & E' & Hx); exists fw;
      split; eauto.
    by apply lookup_delete_Some in E' as [_ ?].
  - intros b fb [Hne E]%lookup_delete_Some. by eapply l_nodup.
  - intros w fw b [Hne E]%lookup_delete_Some Hx. destruct (l_next _ _ L _ _ _ E Hx) as [fb Eb].
    exists fb. rewrite lookup_delete_ne; [done |]. intros ->. exact (Hnone _ _ E Hx).
  - intros a Ha. destruct (l_chain _ _ L a Ha) as (f & E & Hf). exists f. rewrite lookup_delete_ne; [done | congruence].
  - apply L.
  - intros w (fw & b & E & Hx)%(l_blocked _ _ L). eauto.
  - intros a Ha. destruct (l_list _ _ L a Ha) as [f E]. exists f. rewrite lookup_delete_ne; [done | congruence].
  - intros w fw b fb [_ E]%lookup_delete_Some Hx [_ Eb]%lookup_delete_Some. by eapply l_waits.
Qed.

Lemma not_blocked exc st p fl : links exc st -> fls st !! p = Some fl -> fl_next fl = None -> p ∉ blocked_list st.
Proof. intros L Hp Hn (fw & b & E & Hx)%(l_blocked _ _ L). congruence. Qed.

Lemma free_lock_ok exc st p fl :
  links exc st -> fls st !! p = Some fl -> fl_next fl = None -> fl_block fl = [] -> p ∉ file_lock_list st ->
  locks_free_lock p st = Some (set_fls (delete p (fls st)) st).
Proof.
  intros L Hp Hn Hb Hl. unfold locks_free_lock, get. rewrite Hp. cbn [mbind option_bind].
  rewrite bool_decide_eq_true_2; [done |]. split_and!; try done. by eapply not_blocked.
Qed.

Lemma frame_delete st p : frame [p] st (set_fls (delete p (fls st)) st).
Proof. split; try done. intros q fq Hq Hf _. simpl. rewrite lookup_delete_ne; [done | set_solver]. Qed.

Lemma links_removed exc st pre a post :
  links exc st -> i_flock st = pre ++ a :: post ->
  links exc (Locks (fls st) (pre ++ post) (list_del a (file_lock_list st)) (blocked_list st) (woken st)).
Proof.
  intros [L1 L2 L3 L4 L5 L6 L7 L8] Hc. split; simpl; try done.
  - intros b Hb. apply L4. rewrite Hc. set_solver.
  - rewrite Hc in L5. apply NoDup_app in L5 as (? & ? & [? ?]%NoDup_cons). apply NoDup_app.
    split_and!; [done | set_solver | done].
  - intros b [Hb _]%elem_of_list_del. by apply L7.
Qed.

Lemma delete_lock_ok exc st pre a post :
  links exc st -> i_flock st = pre ++ a :: post ->
  exists st', locks_delete_lock pre a post st = Some st' /\ links exc st' /\ i_flock st' = pre ++ post /\
    cores st' = delete a (cores st) /\ frame [a] st st'.
Proof.
  intros L Hc. destruct (l_chain _ _ L a) as (fl & Ha & Hn); [rewrite Hc; set_solver |].
  assert (Hout : a ∉ pre ++ post).
  { pose proof (l_once _ _ L) as Hnd. rewrite Hc in Hnd. apply NoDup_app in Hnd as (_ & H1 & [H2 _]%NoDup_cons). set_solver. }
  pose proof (links_removed _ _ _ _ _ L Hc) as L1. unfold locks_delete_lock, modify, get. cbn [fls]. rewrite Ha.
  cbn [mbind option_bind].
  set (fl1 := set_nspid None (set_links None (fl_block fl) fl)).
  pose proof (links_insert _ _ a fl fl1 L1 Ha Hn eq_refl eq_refl (or_intror (or_intror (conj eq_refl (fun _ H => H))))) as L2.
  set (st2 := set_fls _ _) in L2 |- *.
  destruct (wake_up_ok exc st2 a fl1 L2) as (st3 & E3 & [W1 W2 W3 W4 _ W5 W6]); [apply lookup_insert_eq | done |].
  rewrite E3. cbn [mbind option_bind]. assert (Hl : a ∉ file_lock_list st3) by (rewrite W4; cbn; rewrite elem_of_list_del; tauto).
  rewrite (free_lock_ok exc st3 a (set_links None [] fl1)) by done. eexists. split; [done |]. split_and!.
  - eapply links_delete; eauto. by rewrite W3.
  - simpl. by rewrite W3.
  - unfold cores in *. simpl. rewrite fmap_delete, W2. unfold st2. simpl. rewrite fmap_insert. by rewrite delete_insert_eq.
  - trans st3; [| apply frame_delete]. trans st2; [| done]. etrans; [| apply frame_insert]. split; simpl; try done.
    + intros p _ Hp. rewrite Hc. set_solver.
    + by intros p _ [? _]%elem_of_list_del.
Qed.

Lemma insert_lock_ok exc st pid pre n post fl :
  links exc st -> fls st !! n = Some fl -> fl_next fl = None -> n ∉ i_flock st -> i_flock st = pre ++ post ->
  exists st', locks_insert_lock pid pre n post st = Some st' /\ links exc st' /\ i_flock st' = pre ++ n :: post /\
    cores st' = cores st /\ frame [n] st st'.
Proof.
  intros L Hn Hx Hout Hc. unfold locks_insert_lock, modify, get. rewrite Hn. cbn [mbind option_bind]. eexists. split; [done |].
  pose proof (links_insert _ _ n fl (set_nspid (Some pid) fl) L Hn Hx Hx eq_refl
    (or_intror (or_intror (conj eq_refl (fun _ H => H))))) as L2.
  split_and!; [| done | |].
  - destruct L2 as [M1 M2 M3 M4 M5 M6 M7 M8]. split; simpl in *; try done.
    + intros a Ha. destruct (decide (a = n)) as [->|Hne]; [exists (set_nspid (Some pid) fl); by rewrite lookup_insert_eq |].
      apply M4. rewrite Hc. set_solver.
    + rewrite Hc in M5, Hout. apply NoDup_app in M5 as (? & ? & ?). apply NoDup_app. split_and!; [done | set_solver |].
      apply NoDup_cons. set_solver.
    + intros a [->|Ha]%elem_of_cons; [rewrite lookup_insert_eq; eauto | by apply M7].
  - unfold cores. simpl. rewrite fmap_insert. apply insert_id. by rewrite lookup_fmap, Hn.
  - etrans; [apply frame_insert |]. split; simpl; try done; intros p; rewrite ?Hc; set_solver.
Qed.

Lemma modify_Some f p st fl : fls st !! p = Some fl -> modify f p st = Some (set_fls (<[p := f fl]> (fls st)) st).
Proof. intros Hp. unfold modify, get. by rewrite Hp. Qed.

(** A lock that starts to wait. *)
Lemma insert_block_ok st b w fb fw :
  links None st -> fls st !! b = Some fb -> fls st !! w = Some fw -> fl_next fb = None -> fl_next fw = None -> fl_block fw = [] ->
  b <> w -> w ∉ i_flock st -> (IS_POSIX fb = true -> posix_locks_conflict fw fb = true) ->
  exists st', locks_insert_block b w st = Some st' /\ links None st' /\ cores st' = cores st /\ i_flock st' = i_flock st /\
    fls st' = <[w := set_links (Some b) [] fw]> (<[b := set_links None (fl_block fb ++ [w]) fb]> (fls st)).
Proof.
  intros L Hb Hw Hnb Hnw Hbw Hne Hc Hconf. unfold locks_insert_block, get. rewrite Hb, Hw. cbn [mbind option_bind].
  rewrite bool_decide_eq_true_2 by done. rewrite (modify_Some _ _ _ _ Hb). cbn [mbind option_bind].
  rewrite (modify_Some _ w _ fw) by (cbn; by rewrite lookup_insert_ne). cbn [mbind option_bind]. rewrite Hnb, Hbw.
  set (h := <[w := _]> _). set (st' := if IS_POSIX fb then _ else _).
  assert (Hh : forall q f, h !! q = Some f -> exists f0, fls st !! q = Some f0 /\ strip f = strip f0 /\
    IS_POSIX f = IS_POSIX f0 /\
    fl_next f = (if decide (q = w) then Some b else fl_next f0) /\
      fl_block f = (if decide (q = b) then fl_block f0 ++ [w] else fl_block f0)).
  { intros q f. unfold h. destruct (decide (q = w)) as [->|]; [rewrite lookup_insert_eq; intros [= <-]; exists fw;
      by rewrite decide_False by done |].
    rewrite lookup_insert_ne by done. cbn [fls set_fls].
    destruct (decide (q = b)) as [->|]; [| rewrite lookup_insert_ne by done; intros E; by exists f].
    rewrite lookup_insert_eq. intros [= <-]. exists fb. by rewrite Hnb. }
  assert (Hup : forall q f0, fls st !! q = Some f0 -> exists f, h !! q = Some f /\
    fl_next f = (if decide (q = w) then Some b else fl_next f0)).
  { intros q f0 Hq. unfold h. destruct (decide (q = w)) as [->|]; [rewrite lookup_insert_eq; eauto |].
    rewrite lookup_insert_ne by done. cbn [fls set_fls].
    destruct (decide (q = b)) as [->|]; [rewrite lookup_insert_eq; eexists; split; [done |]; simpl;
      congruence | rewrite lookup_insert_ne by done; eauto]. }
  assert (Efls : fls st' = h) by (unfold st'; by destruct (IS_POSIX fb)).
  assert (Echain : i_flock st' = i_flock st) by (unfold st'; by destruct (IS_POSIX fb)).
  assert (Elist : file_lock_list st' = file_lock_list st) by (unfold st'; by destruct (IS_POSIX fb)).
  assert (Hwb : w ∉ fl_block fb) by (intros (f & E & Hx)%(l_block _ _ L _ _ w Hb); congruence).
  exists st'. split; [done |]. split_and!; try done.
  - split; rewrite ?Efls, ?Echain, ?Elist; try exact (l_once _ _ L).
    + intros c fc v Ec. destruct (Hh _ _ Ec) as (f0 & E0 & _ & _ & _ & ->).
      assert (Hv : (exists fv, h !! v = Some fv /\ fl_next fv = Some c) <-> v = w /\ c = b \/
        exists fv, fls st !! v = Some fv /\ fl_next fv = Some c).
      { split.
        - intros (fv & Ev & Hx). destruct (Hh _ _ Ev) as (f1 & E1 & _ & _ & Hn1 & _).
          destruct (decide (v = w)); [left; split; congruence |].
          right. exists f1. split; congruence.
        - intros [[-> ->]|(fv & Ev & Hx)].
          + destruct (Hup w fw Hw) as (f1 & E1 & Hn1). rewrite decide_True in Hn1 by done. eauto.
          + destruct (Hup v fv Ev) as (f1 & E1 & Hn1). rewrite decide_False in Hn1 by congruence. exists f1. split; congruence. }
      rewrite Hv, <- (l_block _ _ L _ _ v E0).
      destruct (decide (c = b)) as [->|]; [rewrite elem_of_app, list_elem_of_singleton |]; tauto.
    + intros c fc Ec. destruct (Hh _ _ Ec) as (f0 & E0 & _ & _ & _ & ->). pose proof (l_nodup _ _ L _ _ E0).
      destruct (decide (c = b)) as [->|]; [| done].
      assert (f0 = fb) as -> by congruence. apply NoDup_app. split_and!; [done | set_solver | apply NoDup_singleton].
    + intros v fv c Ev Hx. destruct (Hh _ _ Ev) as (f0 & E0 & _ & _ & Hn0 & _).
      assert (is_Some (fls st !! c)) as [fc Ec]; [| destruct (Hup c fc Ec) as (f1 & E1 & _); eauto].
      destruct (decide (v = w)); [assert (c = b) as -> by congruence; eauto | eapply (l_next _ _ L); [exact E0 | congruence]].
    + intros a Ha. destruct (l_chain _ _ L a Ha) as (f & E & Hf). destruct (Hup a f E) as (f1 & E1 & Hn1).
      exists f1. rewrite decide_False in Hn1 by (intros ->; done). split; congruence.
    + intros v Hv. assert (v = w \/ v ∈ blocked_list st) as [->|Hv'] by (unfold st' in Hv; destruct (IS_POSIX fb);
        cbn in Hv; set_solver).
      * destruct (Hup w fw Hw) as (f1 & E1 & Hn1). rewrite decide_True in Hn1 by done. eauto.
      * destruct (l_blocked _ _ L v Hv') as (fv & c & Ev & Hx). destruct (Hup v fv Ev) as (f1 & E1 & Hn1).
        rewrite decide_False in Hn1 by congruence. exists f1, c. split; congruence.
    + intros a [f E]%(l_list _ _ L). destruct (Hup a f E) as (f1 & E1 & _). eauto.
    + intros v fv c fc Ev Hx Ec _ Hpos. destruct (Hh _ _ Ev) as (f0 & E0 & Es0 & _ & Hn0 & _).
      destruct (Hh _ _ Ec) as (f1 & E1 & Es1 & Hp1 & _ & _).
      rewrite (conflict_strip _ _ _ _ Es0 Es1). destruct (decide (v = w)) as [->|].
      * assert (c = b) as -> by congruence. assert (f0 = fw) as -> by congruence. assert (f1 = fb) as -> by congruence.
        apply Hconf. congruence.
      * apply (l_waits _ _ L v f0 c f1); [exact E0 | congruence | exact E1 | done | congruence].
  - unfold cores. rewrite Efls. unfold h. rewrite !fmap_insert. cbn [fls set_fls]. rewrite !fmap_insert, !strip_links.
    rewrite (insert_id _ b), insert_id; rewrite ?lookup_fmap, ?Hw, ?Hb; done.
Qed.

(** ** The pieces of [__posix_lock_file] *)

Lemma set_range_id fl : set_range (fl_start fl) (fl_end fl) fl = fl.
Proof. by destruct fl. Qed.

Lemma copy_private_released new fl : locks_copy_private (locks_release_private new) fl = set_private (fl_ops fl)
  (fl_lmops fl) new.
Proof. unfold locks_copy_private. simpl. by destruct (fl_ops fl), (fl_lmops fl). Qed.

(** A blocker that grows still blocks. *)
Lemma conflict_grows fw fl s e :
  s <= fl_start fl -> fl_end fl <= e -> posix_locks_conflict fw fl = true -> posix_locks_conflict fw (set_range s e fl) = true.
Proof.
  intros Hs He. unfold posix_locks_conflict, locks_overlap, IS_POSIX, locks_conflict, posix_same_owner, nlmsvc_same_owner. simpl.
  destruct (negb _ || _); [done |]. repeat (zcase; simpl; try done; try lia).
Qed.

Lemma merge_ok exc st a q fl req :
  links exc st -> fls st !! a = Some fl -> fls st !! q = Some req -> a <> q -> fl_next fl = None -> fl_next req = None ->
  let S := Z.min (fl_start fl) (fl_start req) in
  let E := Z.max (fl_end fl) (fl_end req) in
  exists st', merge a q st = Some st' /\ links exc st' /\ i_flock st' = i_flock st /\ frame [a; q] st st' /\
    fls st' = <[q := set_range S E req]> (<[a := set_range S E fl]> (fls st)).
Proof.
  intros L Ha Hq Hne Hn Hn' S E.
  set (st' := set_fls (<[q := set_range S E req]> (<[a := set_range S E fl]> (fls st))) st).
  assert (L' : links exc st').
  { assert (L1 : links exc (set_fls (<[a := set_range S E fl]> (fls st)) st)).
    { eapply links_insert; eauto. right. right. split; [done |]. intros fw. apply conflict_grows; lia. }
    refine (links_insert _ _ q req _ L1 _ _ _ _ _); try done; [cbn [fls set_fls]; by rewrite lookup_insert_ne |].
    right. right. split; [done |]. intros fw. apply conflict_grows; lia. }
  exists st'. split_and!; try done.
  - unfold merge, get. rewrite Ha, Hq. cbn [mbind option_bind]. unfold st'. destruct (Z.gtb_spec (fl_start fl) (fl_start req)).
    + rewrite (modify_Some _ _ _ _ Ha). cbn [mbind option_bind fls set_fls].
      rewrite lookup_insert_eq, lookup_insert_ne, Hq by done.
      cbn [mbind option_bind fl_end fl_start set_range]. unfold S, E. destruct (Z.ltb_spec (fl_end fl) (fl_end req)).
      * rewrite (modify_Some _ _ _ (set_range (fl_start req) (fl_end fl) fl)) by apply lookup_insert_eq.
        rewrite Z.min_r, Z.max_r, set_range_id by lia. unfold set_fls. simpl. rewrite insert_insert_eq.
        rewrite (insert_id _ q req) by by rewrite lookup_insert_ne. done.
      * rewrite (modify_Some _ _ _ req) by (simpl; by rewrite lookup_insert_ne).
        rewrite Z.min_r, Z.max_l by lia. done.
    + rewrite (modify_Some _ _ _ _ Hq). cbn [mbind option_bind fls set_fls].
      rewrite lookup_insert_eq, lookup_insert_ne, Ha by done.
      cbn [mbind option_bind fl_end fl_start set_range]. unfold S, E. destruct (Z.ltb_spec (fl_end fl) (fl_end req)).
      * rewrite (modify_Some _ _ _ fl) by (simpl; by rewrite lookup_insert_ne).
        rewrite Z.min_l, Z.max_r by lia. unfold set_fls. simpl. by rewrite insert_insert_ne.
      * rewrite (modify_Some _ _ _ (set_range (fl_start fl) (fl_end req) req)) by apply lookup_insert_eq.
        rewrite Z.min_l, Z.max_l, set_range_id by lia. unfold set_fls. simpl. rewrite insert_insert_eq.
        rewrite (insert_id _ a fl) by done. done.
  - split; try done. intros p fp Hp Ef _. simpl. rewrite !lookup_insert_ne by set_solver. done.
Qed.

(** A lock [fl] that takes range, type and owner data of the request. *)
Definition taken (fl req : file_lock) : file_lock :=
  set_private (fl_ops req) (fl_lmops req) (set_type (fl_type req) (set_range (fl_start req) (fl_end req) fl)).

Lemma replace_ok exc st a q fl req :
  links exc st -> fls st !! a = Some fl -> fls st !! q = Some req -> a <> q -> fl_next fl = None -> fl_next req = None ->
  exists st', replace a q st = Some st' /\ links exc st' /\ i_flock st' = i_flock st /\ frame [a] st st' /\
    cores st' = <[a := taken (strip fl) req]> (cores st) /\ fls st' !! a = Some (set_links None [] (taken fl req)).
Proof.
  intros L Ha Hq Hne Hn Hn'. unfold replace. destruct (wake_up_ok exc st a fl L Ha Hn) as (st1 & E1 & [W1 W2 W3 W4 _ W5 W6]).
  rewrite E1. cbn [mbind option_bind]. unfold get. rewrite (f_locks _ _ _ W6 q req) by set_solver. cbn [mbind option_bind].
  rewrite (modify_Some _ _ _ _ W5), copy_private_released. eexists. split; [done |]. split_and!.
  - eapply links_insert; eauto.
  - done.
  - etrans; [exact W6 | apply frame_insert].
  - unfold cores in *. simpl. rewrite fmap_insert, W2. done.
  - simpl. by rewrite lookup_insert_eq.
Qed.

(** A lock that shrinks and wakes its waiters. *)
Lemma clip_ok f st p fl :
  links None st -> fls st !! p = Some fl -> fl_next fl = None -> fl_next (f fl) = None -> fl_block (f fl) = fl_block fl ->
  exists st', (st ← modify f p st; locks_wake_up_blocks p st) = Some st' /\ links None st' /\ i_flock st' = i_flock st /\
    frame [p] st st' /\ cores st' = <[p := strip (f fl)]> (cores st).
Proof.
  intros L Hp Hn Hn' Hb. rewrite (modify_Some _ _ _ _ Hp). cbn [mbind option_bind].
  assert (L1 : links (Some p) (set_fls (<[p := f fl]> (fls st)) st)).
  { eapply links_insert; eauto. destruct L as [L1 L2 L3 L4 L5 L6 L7 L8]. split; try done. intros. by eapply L8. }
  destruct (wake_up_ok _ _ p (f fl) L1) as (st' & E & [W1 W2 W3 W4 _ W5 W6]); [apply lookup_insert_eq | done |].
  exists st'. split_and!; try done.
  - by eapply links_idle.
  - etrans; [apply frame_insert | exact W6].
  - rewrite W2. unfold cores. simpl. by rewrite fmap_insert.
Qed.
End FileLock.
