(* ===== verification/FileLockRange.v ===== *)
(** * What a POSIX lock request does to the ranges of its owner

    The locks of one owner are sorted, disjoint, and two of the same type do not
    touch.  [held] reads off them which type of lock covers a byte; the theorems say that
    [__posix_lock_file] sets it on the range of the request and nowhere else. *)

From stdpp Require Import sorting.
From S2P Require Import Prelude FileLock.

Module FileLockRange.
Import FileLock.

Definition covers (f : file_lock) (x : Z) : Prop := fl_start f <= x <= fl_end f.

Fixpoint held (ls : list file_lock) (x : Z) : option Z :=
  match ls with
  | [] => None
  | f :: ls => if (fl_start f <=? x) && (x <=? fl_end f) then Some (fl_type f) else held ls x
  end.

Definition apart (f g : file_lock) : Prop :=
  fl_end f < fl_start g /\ (fl_type f = fl_type g -> fl_end f + 1 < fl_start g).

(** The NFS lock daemon compares owners by owner and process, all others by
    owner; the owners of the two kinds are different objects. *)
Section owners.
Context (nlm_owner : Z -> bool).

Definition owner_ok (f : file_lock) : Prop := bool_decide (fl_lmops f = Some nlmsvc_lock_operations) = nlm_owner (fl_owner f).
Definition key (f : file_lock) : Z * Z := (fl_owner f, if nlm_owner (fl_owner f) then fl_pid f else 0).

Lemma same_owner_key a b : owner_ok a -> owner_ok b -> posix_same_owner a b = bool_decide (key a = key b).
Proof.
  unfold owner_ok, key, posix_same_owner, nlmsvc_same_owner. intros Ha Hb.
  destruct (decide (fl_owner a = fl_owner b)) as [E|E].
  - rewrite E in *. rewrite <- Hb in Ha. rewrite <- Hb, Z.eqb_refl.
    destruct (bool_decide_reflect (fl_lmops b = Some nlmsvc_lock_operations)) as [->|Hl].
    + apply bool_decide_eq_true in Ha. rewrite Ha, (bool_decide_eq_true_2 (Some _ = Some _)) by done. simpl.
      destruct (Z.eqb_spec (fl_pid a) (fl_pid b)) as [->|Hp];
        [by rewrite bool_decide_eq_true_2 | rewrite bool_decide_eq_false_2; congruence].
    + apply bool_decide_eq_false in Ha. rewrite (bool_decide_eq_true_2 ((fl_owner b, 0) = (fl_owner b, 0))) by done.
      by destruct (fl_lmops a) as [[|p]|].
  - rewrite (bool_decide_eq_false_2 (_ = (fl_owner b, _))) by congruence.
    destruct (fl_lmops a) as [[|p]|]; apply Z.eqb_neq in E; rewrite E; simpl; by rewrite ?andb_false_r.
Qed.

(** A lock of the owner [k] that may be in the chain; a request may also unlock. *)
Definition owned (k : Z * Z) (f : file_lock) : Prop :=
  IS_POSIX f = true /\ owner_ok f /\ key f = k /\ 0 <= fl_start f <= fl_end f /\ fl_end f <= OFFSET_MAX.
Definition good (k : Z * Z) (f : file_lock) : Prop := owned k f /\ (fl_type f = F_RDLCK \/ fl_type f = F_WRLCK).

Definition segment (k : Z * Z) (ls : list file_lock) : Prop := StronglySorted apart ls /\ Forall (good k) ls.
End owners.

(** ** Reading the ranges *)

Lemma held_None ls x : held ls x = None <-> forall f, f ∈ ls -> ~ covers f x.
Proof.
  unfold covers. induction ls as [|g ls IH]; simpl; [split; [by intros _ f ?%not_elem_of_nil | done] |]. split.
  - destruct (Z.leb_spec (fl_start g) x), (Z.leb_spec x (fl_end g)); simpl; [done | | |];
      intros Hh f [->|Hf]%elem_of_cons; (lia || by apply IH).
  - intros Hn. pose proof (Hn g ltac:(left)).
    rewrite (proj2 IH); [repeat zcase; simpl; try done; lia | intros f Hf; apply Hn; by right].
Qed.

Lemma held_Some ls x t :
  StronglySorted apart ls -> held ls x = Some t <-> exists f, f ∈ ls /\ covers f x /\ fl_type f = t.
Proof.
  unfold covers. induction 1 as [|g ls Hs IH Hg]; simpl; [split; [done | by intros (f & ?%not_elem_of_nil & _)] |].
  rewrite Forall_forall in Hg. split.
  - destruct (Z.leb_spec (fl_start g) x), (Z.leb_spec x (fl_end g)); simpl; intros E;
      try (apply IH in E as (f & Hf & Hx); exists f; split; [by right | done]).
    simplify_eq. exists g. split; [left | done].
  - intros (f & [->|Hf]%elem_of_cons & Hx & <-); [by zbool |].
    destruct (Hg f Hf) as [? _]. rewrite (proj2 (Z.leb_gt x (fl_end g))), andb_false_r by lia. apply IH. eauto.
Qed.

Lemma held_skip P f Q x : ~ covers f x -> held (P ++ f :: Q) x = held (P ++ Q) x.
Proof.
  unfold covers. intros Hf. induction P as [|p P IH]; simpl; [repeat zcase; simpl; done || lia |]. by rewrite IH.
Qed.

Lemma held_hit P f Q x : StronglySorted apart (P ++ f :: Q) -> covers f x -> held (P ++ f :: Q) x = Some (fl_type f).
Proof. intros Hs Hx. apply held_Some; [done |]. exists f. split; [set_solver | done]. Qed.

Lemma sorted_skip P f Q : StronglySorted apart (P ++ f :: Q) -> StronglySorted apart (P ++ Q).
Proof.
  induction P as [|p P IH]; simpl; [by inversion 1 |]. inversion 1 as [|? ? Hs Hf]; subst. constructor; [by apply IH |].
  rewrite Forall_app, Forall_cons in Hf. apply Forall_app. tauto.
Qed.

Lemma sorted_middle P f Q :
  StronglySorted apart (P ++ f :: Q) -> Forall (fun p => apart p f) P /\ Forall (apart f) Q.
Proof.
  induction P as [|p P IH]; simpl; inversion 1 as [|? ? Hs Hf]; subst; [done |]. destruct (IH Hs) as [HP HQ]. split; [| done].
  constructor; [| done]. rewrite Forall_app, Forall_cons in Hf. tauto.
Qed.

(** ** The loop over the owner's locks

    [P] and [Q] are the locks that were passed and those to come, [r] is the
    request with the range it grew to, [s], [e] and [T] are what was asked for, and
    [L0] is where the loop started.  [hl]: the last lock of [P] is [left]; [inl]:
    [r] is a lock of the chain, between [P] and [Q]. *)
Section loop.
Context (nlm_owner : Z -> bool) (k : Z * Z) (L0 : list file_lock) (s e T : Z).

Definition before (r p : file_lock) : Prop := fl_end p < fl_start r /\ (fl_type p = T -> fl_end p + 1 < fl_start r).
Definition after (r q : file_lock) : Prop := fl_end r < fl_start q /\ (fl_type q = T -> fl_end r + 1 < fl_start q).

Record ranges (P Q : list file_lock) (r : file_lock) (inl hl added : bool) : Prop := Ranges {
  r_segment : segment nlm_owner k (P ++ Q);
  r_owned : owned nlm_owner k r;
  r_type : fl_type r = T;
  r_bounds : fl_start r <= s /\ s <= e /\ e <= fl_end r;
  r_out : forall x, ~ covers r x -> held (P ++ Q) x = held L0 x;
  r_in : forall x, covers r x -> s <= x <= e \/ held L0 x = Some T;
  r_before : hl = false -> Forall (before r) P;
  r_left : hl = true -> exists P1 l, P = P1 ++ [l] /\ Forall (before r) P1 /\ fl_type l <> T /\
    fl_start l < fl_start r <= fl_end l /\ fl_end l <= fl_end r;
  r_after : inl || hl || added = true -> Forall (fun q => fl_start r < fl_start q) Q;
  r_inl : inl = true -> added = true /\ T <> F_UNLCK;
  r_ext : inl = false -> fl_start r = s /\ fl_end r = e /\ (added = true -> T = F_UNLCK);
  r_unlock : hl = true -> T = F_UNLCK -> added = true;
  r_initial : added = false -> P ++ Q = L0
}.

Lemma ranges_fresh P f Q r inl hl added :
  ranges P (f :: Q) r inl hl added -> fl_start f <= fl_start r -> inl = false /\ hl = false /\ added = false.
Proof.
  intros R Hf. destruct (inl || hl || added) eqn:E; [| by destruct inl, hl, added].
  pose proof (r_after _ _ _ _ _ _ R E) as Ha. apply Forall_cons in Ha as [? _]. lia.
Qed.

Lemma ranges_head P f Q r inl hl added :
  ranges P (f :: Q) r inl hl added ->
  good nlm_owner k f /\ Forall (fun p => apart p f) P /\ Forall (apart f) Q /\ segment nlm_owner k (P ++ Q).
Proof.
  intros R. destruct (r_segment _ _ _ _ _ _ R) as [Hs Hg]. destruct (sorted_middle _ _ _ Hs) as [H1 H2].
  rewrite Forall_app, Forall_cons in Hg. destruct Hg as (G1 & G2 & G3). split_and!; try done.
  split; [by eapply sorted_skip | by apply Forall_app].
Qed.

(** A lock that lies before the request is passed. *)
Lemma ranges_pass P f Q r inl hl added :
  ranges P (f :: Q) r inl hl added -> before r f -> ranges (P ++ [f]) Q r inl hl added.
Proof.
  intros R Hb. destruct (ranges_head _ _ _ _ _ _ _ R) as ([(_ & _ & _ & Hf & _) _] & _).
  destruct (ranges_fresh _ _ _ _ _ _ _ R) as (-> & -> & ->); [unfold before in Hb; lia |].
  destruct R as [R1 R2 R3 R4 R5 R6 R7 R8 R9 R10 R11 R12 R13]. split; rewrite <- ?app_assoc; try done.
  intros _. apply Forall_app. split; [by apply R7 | by constructor].
Qed.

(** A lock of another type that the request covers only in part becomes [left]. *)
Lemma ranges_left P f Q r inl hl added :
  ranges P (f :: Q) r inl hl added -> fl_type f <> T -> fl_start f < fl_start r <= fl_end f -> fl_end f <= fl_end r ->
  ranges (P ++ [f]) Q r inl true ((T =? F_UNLCK) || added).
Proof.
  intros R Ht Hs He. destruct (ranges_head _ _ _ _ _ _ _ R) as (_ & _ & Hq & _).
  destruct (ranges_fresh _ _ _ _ _ _ _ R) as (-> & -> & ->); [lia |].
  destruct R as [R1 R2 R3 R4 R5 R6 R7 R8 R9 R10 R11 R12 R13]. split; rewrite <- ?app_assoc; try done.
  - intros _. exists P, f. auto.
  - intros _. eapply Forall_impl; [exact Hq |]. intros q [? _]. lia.
  - intros _. destruct (R11 eq_refl) as (? & ? & _). split_and!; try done. rewrite orb_false_r. apply Z.eqb_eq.
  - intros _ ->. done.
  - intros _. by apply R13.
Qed.

(** The request and a lock become one, either because they are of one type and
    touch, or because the request covers the lock. *)
Lemma ranges_absorb P f Q r r' inl hl added :
  ranges P (f :: Q) r inl hl added -> T <> F_UNLCK -> owned nlm_owner k r' -> fl_type r' = T ->
  fl_start r' = Z.min (fl_start f) (fl_start r) -> fl_end r' = Z.max (fl_end f) (fl_end r) ->
  (fl_type f = T /\ fl_start r <= fl_end f + 1 /\ fl_start f <= fl_end r + 1 \/ fl_start r <= fl_start f /\
    fl_end f <= fl_end r) ->
  ranges P Q r' true hl true.
Proof.
  intros R HT Ho Ht Es Ee Hcase. destruct (ranges_head _ _ _ _ _ _ _ R) as (Hf & HP & HQ & Hseg).
  pose proof (r_segment _ _ _ _ _ _ R) as [Hsort _].
  destruct R as [R1 R2 R3 R4 R5 R6 R7 R8 R9 R10 R11 R12 R13]. split; try done.
  - lia.
  - intros x Hx. rewrite <- R5, held_skip; unfold covers in *; try done; lia.
  - intros x Hx. destruct (decide (covers r x)) as [Hr|Hr]; [by apply R6 |]. right. rewrite <- R5 by done.
    destruct Hcase as [(<- & H1 & H2)|[H1 H2]]; [apply held_hit; [done |] |]; unfold covers in *; lia.
  - intros ->. rewrite Forall_forall in HP |- *. intros p Hp. specialize (R7 eq_refl). rewrite Forall_forall in R7.
    destruct (R7 p Hp) as [? Hb]. destruct (HP p Hp) as [? Ha]. split; [lia |]. intros Et. specialize (Hb Et).
    destruct Hcase as [(E & _)|[? ?]]; [rewrite E in Ha |]; lia.
  - intros ->. destruct (R8 eq_refl) as (P1 & l & -> & HP1 & Hl & ? & ?). exists P1, l.
    assert (fl_start r < fl_start f) as Hlt by (rewrite orb_true_r in R9; specialize (R9 eq_refl);
      by apply Forall_cons in R9 as [? _]).
    split_and!; try done; try lia. eapply Forall_impl; [exact HP1 |]. intros p [? Hb].
    split; [lia | intros Et; specialize (Hb Et); lia].
  - intros _. eapply Forall_impl; [exact HQ |]. intros q [? _]. destruct Hf as [(_ & _ & _ & ? & _) _]. lia.
Qed.

(** An unlock request passes over a lock that it covers, which goes. *)
Lemma ranges_unlock P f Q r inl hl added :
  ranges P (f :: Q) r inl hl added -> T = F_UNLCK -> fl_start r <= fl_start f -> fl_end f <= fl_end r ->
  ranges P Q r inl hl true.
Proof.
  intros R HT Hs He. destruct (ranges_head _ _ _ _ _ _ _ R) as ([(_ & _ & _ & Hf & _) _] & _ & HQ & Hseg).
  destruct R as [R1 R2 R3 R4 R5 R6 R7 R8 R9 R10 R11 R12 R13]. split; try done.
  - intros x Hx. rewrite <- R5, held_skip; unfold covers in *; try done; lia.
  - intros _. eapply Forall_impl; [exact HQ |]. intros q [? _]. lia.
  - intros Hi. by destruct (R10 Hi).
  - intros Hi. destruct (R11 Hi) as (? & ? & _). done.
Qed.

(** ** After the loop *)

Definition clip_l (r f : file_lock) : file_lock := set_range (fl_start f) (fl_start r - 1) f.
Definition clip_r (r f : file_lock) : file_lock := set_range (fl_end r + 1) (fl_end f) f.

(** The loop stopped behind the last lock that matters, or at [right]. *)
Definition stopped (Q : list file_lock) (r : file_lock) (right_ : bool) : Prop :=
  if right_ then exists f Q1, Q = f :: Q1 /\ fl_type f <> T /\ fl_start f <= fl_end r < fl_end f else Forall (after r) Q.

(** What comes before and after the request in the end. *)
Definition lefts (r : file_lock) (hl both : bool) (P Q A : list file_lock) : Prop :=
  if hl then exists P1 l, P = P1 ++ [l] /\ A = P1 ++ [clip_l r l]
  else if both then exists f Q1, Q = f :: Q1 /\ fl_type f <> T /\ fl_start f < fl_start r <= fl_end f /\ A = P ++ [clip_l r f]
  else A = P /\ Forall (fun q => fl_start r <= fl_start q) Q.
Definition rights (r : file_lock) (right_ : bool) (Q B : list file_lock) : Prop :=
  if right_ then exists f Q1, Q = f :: Q1 /\ B = clip_r r f :: Q1 else B = Q.

Lemma good_range f a b :
  good nlm_owner k f -> 0 <= a <= b -> b <= OFFSET_MAX -> good nlm_owner k (set_range a b f).
Proof. intros [(H1 & H2 & H3 & H4 & H5) H6] Ha Hb. split; [| done]. unfold owned. split_and!; done || apply Ha. Qed.

Lemma held_app A B x : held (A ++ B) x = match held A x with Some t => Some t | None => held B x end.
Proof. induction A as [|a A IH]; simpl; [done |]. by destruct (_ && _). Qed.

Lemma segment_app A B :
  segment nlm_owner k A -> segment nlm_owner k B -> (forall a b, a ∈ A -> b ∈ B -> apart a b) -> segment nlm_owner k (A ++ B).
Proof.
  intros [S1 G1] [S2 G2] H. split; [| by apply Forall_app]. induction S1 as [|a A S1 IH Ha]; simpl; [done |].
  apply Forall_cons in G1 as [_ G1]. constructor; [apply IH; [done | intros; apply H; [by right | done]] |].
  apply Forall_app. split; [done |]. apply Forall_forall. intros b Hb. apply H; [left | done].
Qed.

Lemma segment_nil : segment nlm_owner k [].
Proof. split; [apply SSorted_nil | by constructor]. Qed.

Lemma segment_one f : good nlm_owner k f -> segment nlm_owner k [f].
Proof. intros Hf. split; [apply SSorted_cons; [apply SSorted_nil | by constructor] | by constructor]. Qed.

Lemma segment_split A B :
  segment nlm_owner k (A ++ B) -> segment nlm_owner k A /\ segment nlm_owner k B /\ forall a b, a ∈ A -> b ∈ B -> apart a b.
Proof.
  intros [Hs Hg]. apply Forall_app in Hg as [G1 G2]. split_and!.
  - split; [by apply StronglySorted_app_1_l in Hs | done].
  - split; [by apply StronglySorted_app_1_r in Hs | done].
  - intros a b. by apply StronglySorted_app_1_elem_of.
Qed.

Lemma held_far_left Q x : Forall (fun q => x < fl_start q) Q -> held Q x = None.
Proof. rewrite Forall_forall. intros H. apply held_None. intros q Hq. specialize (H q Hq). unfold covers. lia. Qed.

Lemma held_far_right P x : Forall (fun p => fl_end p < x) P -> held P x = None.
Proof. rewrite Forall_forall. intros H. apply held_None. intros q Hq. specialize (H q Hq). unfold covers. lia. Qed.

Lemma ranges_lefts P Q r inl hl added both A :
  ranges P Q r inl hl added -> lefts r hl both P Q A -> (hl = true -> Forall (fun q => fl_start r <= fl_start q) Q) ->
  segment nlm_owner k A /\ Forall (before r) A /\ forall x, x < fl_start r -> held A x = held (P ++ Q) x.
Proof.
  intros R HA Hhl. pose proof (r_owned _ _ _ _ _ _ R) as (_ & _ & _ & Hr & Hr').
  destruct R as [R1 R2 R3 R4 R5 R6 R7 R8 R9 R10 R11 R12 R13].
  destruct hl; simpl in HA.
  - destruct HA as (P1 & l & -> & ->). destruct (R8 eq_refl) as (P1' & l' & [-> ->]%app_inj_tail & HP & Hl & Hl1 & Hl2).
    rewrite <- app_assoc in R1. destruct (segment_split _ _ R1) as (SP & [_ SQ]%segment_split & Hap).
    assert (good nlm_owner k l') as Gl by (destruct R1 as [_ G]; rewrite !Forall_app in G;
      destruct G as (_ & [G _]%Forall_cons & _); done).
    split_and!.
    + apply segment_app; [done | apply segment_one, good_range; [done | | ]; destruct Gl as [(_ & _ & _ & ? & ?) _]; lia |].
      intros a b Ha ->%list_elem_of_singleton. destruct (Hap a l' Ha) as [? ?]; [set_solver |]. done.
    + apply Forall_app. split; [done |]. constructor; [| constructor]. split; simpl; [lia | done].
    + intros x Hx. rewrite !held_app. rewrite (held_far_left Q x) by (eapply Forall_impl; [by apply Hhl | intros q; simpl; lia]).
      destruct (held P1' x); [done |]. simpl. destruct (Z.leb_spec (fl_start l') x); simpl; [zbool; done |]. done.
  - specialize (R7 eq_refl). destruct both.
    + destruct HA as (f & Q1 & -> & Hft & Hf & ->). destruct (segment_split _ _ R1) as (SP & SQ & Hap).
      assert (good nlm_owner k f) as Gf by (destruct SQ as [_ G]; by apply Forall_cons in G as [? _]). split_and!.
      * apply segment_app; [done | apply segment_one, good_range; [done | |]; destruct Gf as [(_ & _ & _ & ? & ?) _]; lia |].
        intros a b Ha ->%list_elem_of_singleton. destruct (Hap a f Ha) as [? ?]; [left | done].
      * apply Forall_app. split; [done |]. constructor; [| constructor]. split; simpl; [lia | done].
      * intros x Hx. rewrite !held_app. destruct (held P x); [done |]. simpl. destruct SQ as [SQ _].
        apply StronglySorted_inv in SQ as [_ Hq].
        rewrite (held_far_left Q1 x) by (eapply Forall_impl; [exact Hq | intros q [? _]; simpl; lia]).
        destruct (Z.leb_spec (fl_start f) x); simpl; [zbool; done |]. done.
    + destruct HA as [-> HQ]. destruct (segment_split _ _ R1) as (SP & _ & _). split_and!; try done.
      intros x Hx. rewrite held_app, (held_far_left Q x) by (eapply Forall_impl; [exact HQ | intros q; simpl; lia]).
      by destruct (held P x).
Qed.

Lemma ranges_rights P Q r inl hl added right_ B :
  ranges P Q r inl hl added -> stopped Q r right_ -> rights r right_ Q B ->
  segment nlm_owner k B /\ Forall (after r) B /\ forall x, fl_end r < x -> held B x = held (P ++ Q) x.
Proof.
  intros R Hst HB. pose proof (r_owned _ _ _ _ _ _ R) as (_ & _ & _ & Hr & Hr').
  destruct R as [R1 R2 R3 R4 R5 R6 R7 R8 R9 R10 R11 R12 R13].
  destruct (segment_split _ _ R1) as (SP & SQ & Hap).
  assert (HP : forall x, fl_end r < x -> held P x = None).
  { intros x Hx. apply held_far_right. destruct hl.
    - destruct (R8 eq_refl) as (P1 & l & -> & HP & _ & ? & ?). apply Forall_app.
      split; [| constructor; [simpl; lia | constructor]].
      eapply Forall_impl; [exact HP | intros p [? _]; simpl; lia].
    - eapply Forall_impl; [by apply R7 | intros p [? _]; simpl; lia]. }
  destruct right_; simpl in Hst, HB.
  - destruct HB as (f & Q1 & -> & ->). destruct Hst as (f' & Q1' & [= <- <-] & Hft & Hf).
    pose proof SQ as [S G]. apply StronglySorted_inv in S as [S Hq]. apply Forall_cons in G as [Gf G]. split_and!.
    + change (clip_r r f :: Q1) with ([clip_r r f] ++ Q1).
      apply segment_app; [apply segment_one, good_range; [done | |] | done |].
      * lia.
      * destruct Gf as [(_ & _ & _ & ? & ?) _]. lia.
      * intros a b ->%list_elem_of_singleton Hb. rewrite Forall_forall in Hq. by apply Hq.
    + constructor; [split; simpl; [lia | done] |]. eapply Forall_impl; [exact Hq |]. intros q [? ?]. split; lia.
    + intros x Hx. rewrite held_app, HP by done. simpl. zbool. simpl.
      by destruct (x <=? fl_end f).
  - subst B. split_and!; try done. intros x Hx. by rewrite held_app, HP.
Qed.

(** The locks of the owner in the end: the request's range is held as asked for,
    all else is as at the start. *)
Lemma ranges_final P Q r inl hl added A mid B :
  ranges P Q r inl hl added ->
  segment nlm_owner k A /\ Forall (before r) A /\ (forall x, x < fl_start r -> held A x = held (P ++ Q) x) ->
  segment nlm_owner k B /\ Forall (after r) B /\ (forall x, fl_end r < x -> held B x = held (P ++ Q) x) ->
  (if T =? F_UNLCK then mid = []
   else exists m, mid = [m] /\ good nlm_owner k m /\ fl_type m = T /\ fl_start m = fl_start r /\ fl_end m = fl_end r) ->
  segment nlm_owner k (A ++ mid ++ B) /\
  forall x, held (A ++ mid ++ B) x =
    if bool_decide (s <= x <= e) then (if T =? F_UNLCK then None else Some T) else held L0 x.
Proof.
  intros R (SA & HA & EA) (SB & HB & EB) Hmid. pose proof (r_owned _ _ _ _ _ _ R) as (_ & _ & _ & Hr & _).
  rewrite Forall_forall in HA, HB.
  assert (HAB : forall a b, a ∈ A -> b ∈ B -> apart a b).
  { intros a b Ha Hb. destruct (HA a Ha) as [? _], (HB b Hb) as [? _]. split; lia. }
  assert (Hgap : forall x, held (A ++ mid ++ B) x =
    if decide (covers r x) then (if T =? F_UNLCK then None else Some T) else held (P ++ Q) x).
  { intros x. rewrite (held_app A), (held_app mid). destruct (decide (covers r x)) as [Hc|Hc]; unfold covers in Hc.
    - rewrite (held_far_right A x) by (apply Forall_forall; intros a Ha; destruct (HA a Ha); lia).
      rewrite (held_far_left B x) by (apply Forall_forall; intros b Hb; destruct (HB b Hb); lia).
      destruct (T =? F_UNLCK); [by subst | destruct Hmid as (m & -> & _ & <- & E1 & E2)]. simpl. zbool. done.
    - assert (held mid x = None) as ->.
      { destruct (T =? F_UNLCK); [by subst | destruct Hmid as (m & -> & _ & _ & E1 & E2)]. simpl. rewrite E1, E2.
        destruct (Z.leb_spec (fl_start r) x); simpl; [zbool |]; done. }
      destruct (Z.lt_ge_cases x (fl_start r)).
      + rewrite EA by done. rewrite (held_far_left B x) by (apply Forall_forall; intros b Hb; destruct (HB b Hb); lia).
        by destruct (held (P ++ Q) x).
      + rewrite (held_far_right A x) by (apply Forall_forall; intros a Ha; destruct (HA a Ha); lia). apply EB. lia. }
  split.
  - apply segment_app; [done | apply segment_app; [| done |] |].
    + destruct (T =? F_UNLCK); [subst; apply segment_nil | destruct Hmid as (m & -> & Hm & _); by apply segment_one].
    + intros a b Ha Hb. destruct (T =? F_UNLCK);
        [by subst; apply not_elem_of_nil in Ha | destruct Hmid as (m & -> & _ & Et & _ & Ee)].
      apply list_elem_of_singleton in Ha as ->. destruct (HB b Hb) as [? Hty]. split; [lia |]. rewrite Et, Ee.
      intros Eb. by apply Hty.
    + intros a b Ha [Hb|Hb]%elem_of_app; [| by apply HAB].
      destruct (T =? F_UNLCK); [by subst; apply not_elem_of_nil in Hb | destruct Hmid as (m & -> & _ & Et & Es & _)].
      apply list_elem_of_singleton in Hb as ->. destruct (HA a Ha) as [? Hty]. split; [lia |]. rewrite Et, Es. apply Hty.
  - intros x. rewrite Hgap. destruct R as [_ _ _ R4 R5 R6 _ _ _ R10 R11 _ _]. destruct (decide (covers r x)) as [Hc|Hc].
    + case_bool_decide as Hx; [done |]. destruct (R6 x Hc) as [?|E]; [done |].
      destruct (Z.eqb_spec T F_UNLCK) as [HT|]; [| done]. destruct inl; [by destruct (R10 eq_refl) |].
      destruct (R11 eq_refl) as (? & ? & _). unfold covers in Hc. lia.
    + rewrite R5 by done. rewrite bool_decide_eq_false_2; [done |]. unfold covers in Hc. lia.
Qed.
End loop.
End FileLockRange.
