(* ===== verification/PosixLock.v ===== *)
(** * [__posix_lock_file] keeps the locks of each owner in order

    The loop over the owner's locks, followed on the heap, is the one on ranges
    of [FileLockRange]; what the function returns and leaves is proved from it. *)

From stdpp Require Import sorting.
From S2P Require Import Prelude FileLock FileLockRange.

Module PosixLock.
Import FileLock FileLockRange.

(** The locks at the addresses [l]. *)
Definition has (st : locks) (l : list Z) (R : list file_lock) : Prop := Forall2 (fun a f => cores st !! a = Some f) l R.

Lemma has_ext st st' l R : (forall a, a ∈ l -> cores st' !! a = cores st !! a) -> has st l R -> has st' l R.
Proof.
  intros H HR. unfold has in *. induction HR as [|a f l R Ha HR IH]; constructor; [rewrite H; [done | left] |].
  apply IH. intros b Hb. apply H. by right.
Qed.

Lemma has_app st l1 l2 R1 R2 : has st l1 R1 -> has st l2 R2 -> has st (l1 ++ l2) (R1 ++ R2).
Proof. apply Forall2_app. Qed.

Section posix.
Context (nlm_owner : Z -> bool) (k : Z * Z).

Definition stranger (st : locks) (b : Z) : Prop :=
  exists f, cores st !! b = Some f /\ owner_ok nlm_owner f /\ key nlm_owner f <> k.

(** The loop at the request [q]: [A] and [B] are what lies before and after the
    owner's locks, [Pa] and [Qa] the addresses of [P] and [Q]. *)
Record loop_at (st : locks) (A Pa Qa B : list Z) (q : Z) (P Q : list file_lock) (r : file_lock) (inl : bool) : Prop := LoopAt {
  s_links : links None st;
  s_chain : i_flock st = (A ++ Pa ++ if inl then [q] else []) ++ Qa ++ B;
  s_P : has st Pa P;
  s_Q : has st Qa Q;
  s_req : exists rq, fls st !! q = Some rq /\ strip rq = r /\ fl_next rq = None;
  s_ext : inl = false -> q ∉ i_flock st;
  s_B : Forall (stranger st) B
}.

(** What the addresses of the chain are not. *)
Lemma loop_distinct st A Pa a Qa B q P Q r inl :
  loop_at st A Pa (a :: Qa) B q P Q r inl ->
  a <> q /\ a ∉ Pa /\ a ∉ Qa /\ a ∉ B /\ a ∉ A /\ q ∉ Pa /\ q ∉ Qa /\ q ∉ B.
Proof.
  intros [L C _ _ _ X _]. pose proof (l_once _ _ L) as Hn. rewrite C in Hn, X.
  apply NoDup_app in Hn as (Hn1 & Hn2 & [Hn3 Hn4]%NoDup_cons).
  assert (a ∉ A ++ Pa ++ if inl then [q] else []) as Ha by (intros Ha; apply (Hn2 a Ha); left).
  rewrite !not_elem_of_app in Ha. rewrite not_elem_of_app in Hn3. destruct Ha as (Ha1 & Ha2 & Ha3), Hn3 as [Ha4 Ha5].
  destruct inl.
  - assert (Hq : q ∉ a :: Qa ++ B) by (apply Hn2; set_solver).
    rewrite not_elem_of_cons, not_elem_of_app in Hq. apply NoDup_app in Hn1 as (_ & _ & Hn1).
    apply NoDup_app in Hn1 as (_ & Hp & _).
    split_and!; try tauto; [congruence || (intros ->; tauto) |]. intros Hin. apply (Hp q Hin). left.
  - specialize (X eq_refl). rewrite !not_elem_of_app, not_elem_of_cons in X. split_and!; try tauto. intros ->. tauto.
Qed.

Lemma loop_head st A Pa a Qa B q P f Q r inl :
  loop_at st A Pa (a :: Qa) B q P (f :: Q) r inl -> exists fl, fls st !! a = Some fl /\ strip fl = f /\ fl_next fl = None.
Proof.
  intros [L C _ Hq _ _ _]. apply Forall2_cons in Hq as [(fl & Ef & <-)%cores_inv _]. exists fl. split_and!; try done.
  destruct (l_chain _ _ L a) as (fl' & E & Hn); [rewrite C; set_solver | congruence].
Qed.

Lemma step_pass st A Pa a Qa B q P f Q r :
  loop_at st A Pa (a :: Qa) B q P (f :: Q) r false -> loop_at st A (Pa ++ [a]) Qa B q (P ++ [f]) Q r false.
Proof.
  intros [L C HP HQ R X HB]. apply Forall2_cons in HQ as [Ha HQ]. split; try done.
  - rewrite C, !app_nil_r, <- !app_assoc. done.
  - apply has_app; [done | by constructor].
Qed.

(** The lock at hand takes the place of the request. *)
Lemma step_take st A Pa a Qa B q P f Q r :
  loop_at st A Pa (a :: Qa) B q P (f :: Q) r false -> loop_at st A Pa Qa B a P Q f true.
Proof.
  intros S. destruct (loop_head _ _ _ _ _ _ _ _ _ _ _ _ S) as (fl & Ef & <- & Hn). destruct S as [L C HP HQ R X HB].
  apply Forall2_cons in HQ as [Ha HQ]. split; try done; [| by exists fl].
  rewrite C, app_nil_r, <- !app_assoc. done.
Qed.

Lemma stranger_ext st st' B : (forall b, b ∈ B -> cores st' !! b = cores st !! b) -> Forall (stranger st) B ->
  Forall (stranger st') B.
Proof.
  rewrite !Forall_forall. intros H HB b Hb. destruct (HB b Hb) as (f & E & Hf). exists f. by rewrite H.
Qed.

Lemma step_delete st A Pa a Qa B q P f Q r inl :
  loop_at st A Pa (a :: Qa) B q P (f :: Q) r inl ->
  exists st', locks_delete_lock (A ++ Pa ++ if inl then [q] else []) a (Qa ++ B) st = Some st' /\
    loop_at st' A Pa Qa B q P Q r inl /\ frame [a] st st'.
Proof.
  intros S. destruct (loop_distinct _ _ _ _ _ _ _ _ _ _ _ S) as (D1 & D2 & D3 & D4 & _). destruct S as [L C HP HQ R X HB].
  destruct (delete_lock_ok None st _ a (Qa ++ B) L C) as (st' & E & L' & C' & Hc & Hf). exists st'. split; [done |].
  split; [| done].
  assert (Hkeep : forall b, b <> a -> cores st' !! b = cores st !! b) by (intros b Hb; rewrite Hc; by rewrite lookup_delete_ne).
  apply Forall2_cons in HQ as [_ HQ]. split; try done.
  - eapply has_ext; [| exact HP]. intros b Hb. apply Hkeep. congruence.
  - eapply has_ext; [| exact HQ]. intros b Hb. apply Hkeep. congruence.
  - destruct R as (rq & Eq & Hr & Hn). exists rq. split_and!; try done. apply (f_locks _ _ _ Hf); [set_solver | done | done].
  - intros Hi. specialize (X Hi). rewrite C in X. rewrite C'. rewrite !not_elem_of_app, not_elem_of_cons in X.
    rewrite !not_elem_of_app. tauto.
  - eapply stranger_ext; [| exact HB]. intros b Hb. apply Hkeep. congruence.
Qed.

(** A step that changes the locks [a] and [q] only, and not the chain. *)
Lemma step_update st st' A Pa a Qa B q P f f' Q r r' inl :
  loop_at st A Pa (a :: Qa) B q P (f :: Q) r inl -> links None st' -> i_flock st' = i_flock st ->
  (forall b, b <> a -> b <> q -> cores st' !! b = cores st !! b) -> cores st' !! a = Some f' ->
  (exists rq, fls st' !! q = Some rq /\ strip rq = r' /\ fl_next rq = None) ->
  loop_at st' A Pa (a :: Qa) B q P (f' :: Q) r' inl.
Proof.
  intros S L' C' Hkeep Ha Hq. destruct (loop_distinct _ _ _ _ _ _ _ _ _ _ _ S) as (D1 & D2 & D3 & D4 & _ & D6 & D7 & D8).
  destruct S as [L C HP HQ R X HB]. apply Forall2_cons in HQ as [_ HQ]. split; rewrite ?C'; try done.
  - eapply has_ext; [| exact HP]. intros b Hb. apply Hkeep; congruence.
  - constructor; [done |]. eapply has_ext; [| exact HQ]. intros b Hb. apply Hkeep; congruence.
  - eapply stranger_ext; [| exact HB]. intros b Hb. apply Hkeep; congruence.
Qed.

Lemma step_merge st A Pa a Qa B q P f Q r inl :
  loop_at st A Pa (a :: Qa) B q P (f :: Q) r inl ->
  let S := Z.min (fl_start f) (fl_start r) in
  let E := Z.max (fl_end f) (fl_end r) in
  exists st', merge a q st = Some st' /\ loop_at st' A Pa (a :: Qa) B q P (set_range S E f :: Q) (set_range S E r) inl
    /\ frame [a; q] st st'.
Proof.
  intros S0 S E. destruct (loop_distinct _ _ _ _ _ _ _ _ _ _ _ S0) as (D1 & _).
  destruct (loop_head _ _ _ _ _ _ _ _ _ _ _ _ S0) as (fl & Ef & Hfl & Hn).
  destruct (s_req _ _ _ _ _ _ _ _ _ _ S0) as (rq & Eq & Hr & Hn').
  destruct (merge_ok None st a q fl rq (s_links _ _ _ _ _ _ _ _ _ _ S0) Ef Eq D1 Hn Hn') as (st' & Em & L' & C' & Hf & Eh).
  exists st'. split; [done |]. split; [| done]. subst f r. eapply step_update; eauto.
  - intros b Hb Hb'. unfold cores. by rewrite Eh, !lookup_fmap, !lookup_insert_ne by done.
  - unfold cores. rewrite Eh, lookup_fmap, lookup_insert_ne, lookup_insert_eq by done. done.
  - exists (set_range S E rq). rewrite Eh, lookup_insert_eq. done.
Qed.

Lemma step_replace st A Pa a Qa B q P f Q r inl :
  loop_at st A Pa (a :: Qa) B q P (f :: Q) r inl ->
  exists st', replace a q st = Some st' /\ loop_at st' A Pa (a :: Qa) B q P (taken f r :: Q) r inl /\ frame [a] st st'.
Proof.
  intros S0. destruct (loop_distinct _ _ _ _ _ _ _ _ _ _ _ S0) as (D1 & _).
  destruct (loop_head _ _ _ _ _ _ _ _ _ _ _ _ S0) as (fl & Ef & Hfl & Hn).
  destruct (s_req _ _ _ _ _ _ _ _ _ _ S0) as (rq & Eq & Hr & Hn').
  destruct (replace_ok None st a q fl rq (s_links _ _ _ _ _ _ _ _ _ _ S0) Ef Eq D1 Hn Hn') as (st' & Em & L' & C' & Hf & Ec & _).
  exists st'. split; [done |]. split; [| done]. subst f r. eapply step_update; eauto.
  - intros b Hb Hb'. by rewrite Ec, lookup_insert_ne.
  - by rewrite Ec, lookup_insert_eq.
  - exists rq. split_and!; try done. apply (f_locks _ _ _ Hf); [set_solver | done | done].
Qed.

(** ** The loop *)

Section loop.
Context (L0 : list file_lock) (s e T : Z) (X A B : list Z).

(** Where the loop ends: [right_] and [both] tell whether it found [right], and
    whether that is [left] as well. *)
Record loop_end (st : locks) (q : Z) (added : bool) (c : cursor) (Pa Qa : list Z) (P Q : list file_lock) (r : file_lock)
    (inl hl added' right_ both : bool) : Prop := LoopEnd {
  e_at : loop_at (c_st c) A Pa Qa B (c_request c) P Q r inl;
  e_ranges : ranges nlm_owner k L0 s e T P Q r inl hl added';
  e_stopped : stopped T Q r right_;
  e_pre : c_pre c = A ++ Pa ++ if inl then [c_request c] else [];
  e_post : c_post c = Qa ++ B;
  e_left : c_left c = if both then head Qa else if hl then last Pa else None;
  e_right : c_right c = if right_ then head Qa else None;
  e_added : c_added c = (right_ && (T =? F_UNLCK)) || added';
  e_frame : frame X st (c_st c);
  e_touched : c_request c ∈ X /\ Pa ⊆ X /\ Qa ⊆ X;
  e_same : added' = false -> c_st c = st /\ c_request c = q;
  e_mono : added = true -> added' = true;
  e_both : if both then right_ = true /\ exists f Q1, Q = f :: Q1 /\ fl_start f < fl_start r <= fl_end f
           else Forall (fun g => fl_start r <= fl_start g) Q
}.

Definition loop_ends (st : locks) (q : Z) (added : bool) (res : option cursor) : Prop :=
  exists c Pa Qa P Q r inl hl added' right_ both, res = Some c /\ loop_end st q added c Pa Qa P Q r inl hl added' right_ both.

(** The loop goes on from a state that a step led to. *)
Lemma loop_ends_step st st1 q q1 added res :
  frame X st st1 -> loop_ends st1 q1 true res -> loop_ends st q added res.
Proof.
  intros Hf (c & Pa & Qa & P & Q & r & inl & hl & added' & right_ & both & E & []).
  exists c, Pa, Qa, P, Q, r, inl, hl, added', right_, both.
  split; [done |]. split; try done.
  - by etrans.
  - intros ->. by specialize (e_mono0 eq_refl).
  - intros _. by apply e_mono0.
Qed.

Lemma loop_ends_pass st q added added1 res :
  (added = true -> added1 = true) -> loop_ends st q added1 res -> loop_ends st q added res.
Proof.
  intros Ha (c & Pa & Qa & P & Q & r & inl & hl & added' & right_ & both & E & []).
  exists c, Pa, Qa, P, Q, r, inl, hl, added', right_, both.
  split; [done |]. split; auto.
Qed.

Lemma same_owner_in r f : owned nlm_owner k r -> owned nlm_owner k f -> posix_same_owner r f = true.
Proof.
  intros (_ & Hr & Kr & _) (_ & Hf & Kf & _). rewrite (same_owner_key nlm_owner) by done. apply bool_decide_eq_true_2. congruence.
Qed.

Lemma same_owner_out st r b : owned nlm_owner k r -> stranger st b -> exists f, cores st !! b = Some f /\
  posix_same_owner r f = false.
Proof.
  intros (_ & Hr & Kr & _) (f & E & Hf & Kf). exists f. split; [done |]. rewrite (same_owner_key nlm_owner) by done.
  apply bool_decide_eq_false_2. congruence.
Qed.

Lemma owned_taken f r : owned nlm_owner k f -> owned nlm_owner k r -> owned nlm_owner k (taken f r).
Proof.
  intros (H1 & H2 & H3 & H4 & H5) (G1 & G2 & G3 & G4 & G5). split; [exact H1 |]. split; [| by split].
  assert (fl_owner f = fl_owner r) as E by (unfold key in *; congruence).
  unfold owner_ok in *. simpl. by rewrite G2, E.
Qed.

(** Stopping without [right]. *)
Lemma loop_stops st Pa Qa q P Q r inl hl added :
  loop_at st A Pa Qa B q P Q r inl -> ranges nlm_owner k L0 s e T P Q r inl hl added -> Forall (after T r) Q ->
  q ∈ X -> Pa ⊆ X -> Qa ⊆ X ->
  loop_ends st q added (Some (Cursor st (A ++ Pa ++ if inl then [q] else []) (Qa ++ B) q (if hl then last Pa else None)
    None added)).
Proof.
  intros S R Hq HX HPX HQX. exists (Cursor st (A ++ Pa ++ if inl then [q] else []) (Qa ++ B) q
    (if hl then last Pa else None) None added).
  exists Pa, Qa, P, Q, r, inl, hl, added, false, false. split; [done |]. split; try done.
  eapply Forall_impl; [exact Hq |]. intros g [? _]. destruct (r_owned _ _ _ _ _ _ _ _ _ _ _ _ R) as (_ & _ & _ & ? & _). lia.
Qed.

Lemma after_head r f Q :
  Forall (apart f) Q -> after T r f -> fl_start f <= fl_end f -> Forall (after T r) (f :: Q).
Proof.
  intros HQ [H1 H2] Hf. constructor; [by split |]. eapply Forall_impl; [exact HQ |]. intros g [? _]. split; lia.
Qed.

Lemma s64_pred f : owned nlm_owner k f -> s64 (fl_start f - 1) = fl_start f - 1.
Proof. intros (_ & _ & _ & ? & ?). apply swrap_small; lia. Qed.

(** Locks of the type of the request: pass, stop, or merge. *)
Lemma loop_same_type Qa st Pa a q P f Q r inl hl added :
  (forall st Pa q P Q r inl hl added,
     loop_at st A Pa Qa B q P Q r inl -> ranges nlm_owner k L0 s e T P Q r inl hl added -> q ∈ X -> Pa ⊆ X ->
     loop_ends st q added (own_loop (Qa ++ B) st (A ++ Pa ++ if inl then [q] else []) q (if hl then last Pa else None)
       None added)) ->
  loop_at st A Pa (a :: Qa) B q P (f :: Q) r inl -> ranges nlm_owner k L0 s e T P (f :: Q) r inl hl added -> q ∈ X ->
    Pa ⊆ X -> a :: Qa ⊆ X ->
  fl_type f = T ->
  loop_ends st q added (own_loop ((a :: Qa) ++ B) st (A ++ Pa ++ if inl then [q] else []) q
    (if hl then last Pa else None) None added).
Proof.
  intros IH S R HqX HPX HQX Ht. assert (HaX : a ∈ X) by set_solver.
  destruct (ranges_head _ _ _ _ _ _ _ _ _ _ _ _ _ R) as (Gf & _ & Hap & _).
  pose proof (r_owned _ _ _ _ _ _ _ _ _ _ _ _ R) as Or. pose proof Gf as [Of Tf].
  destruct (loop_head _ _ _ _ _ _ _ _ _ _ _ _ S) as (fl & Ef & <- & Hn).
  destruct (s_req _ _ _ _ _ _ _ _ _ _ S) as (rq & Eq & <- & Hn').
  assert (HT : T <> F_UNLCK) by (rewrite <- Ht; destruct Tf as [->| ->]; done).
  cbn [own_loop app]. unfold get. rewrite Ef, Eq. cbn [mbind option_bind].
  change (posix_same_owner rq fl) with (posix_same_owner (strip rq) (strip fl)). rewrite same_owner_in by done. cbn [negb].
  change (fl_type rq) with (fl_type (strip rq)). rewrite (r_type _ _ _ _ _ _ _ _ _ _ _ _ R).
  change (fl_type fl) with (fl_type (strip fl)). rewrite Ht, Z.eqb_refl.
  change (s64 (fl_start rq - 1)) with (s64 (fl_start (strip rq) - 1)).
  change (s64 (fl_start fl - 1)) with (s64 (fl_start (strip fl) - 1)).
  rewrite !s64_pred by done. set (f := strip fl) in *. set (r := strip rq) in *. change (fl_end fl) with (fl_end f).
  change (fl_end rq) with (fl_end r).
  pose proof Of as (_ & _ & _ & Of1 & _). pose proof Or as (_ & _ & _ & Or1 & _).
  destruct (Z.ltb_spec (fl_end f) (fl_start r - 1)) as [H1|H1]; [| destruct (Z.gtb_spec (fl_start f - 1) (fl_end r)) as [H2|H2]].
  - destruct (ranges_fresh _ _ _ _ _ _ _ _ _ _ _ _ _ R) as (-> & -> & ->); [lia |].
    specialize (IH st (Pa ++ [a]) q (P ++ [f]) Q r false false false). rewrite app_nil_r in IH. rewrite app_nil_r, <- app_assoc.
    apply IH; [by apply step_pass | | done | set_solver]. eapply ranges_pass; [exact R | split; [lia |]; lia].
  - change (a :: Qa ++ B) with ((a :: Qa) ++ B). eapply loop_stops; eauto. apply after_head; [done | split; [lia |]; lia | lia].
  - destruct (step_merge _ _ _ _ _ _ _ _ _ _ _ _ S) as (st1 & E1 & S1 & F1). rewrite E1. cbn [mbind option_bind].
    set (st_ := Z.min _ _) in S1. set (en_ := Z.max _ _) in S1.
    assert (Of' : forall g, owned nlm_owner k g -> owned nlm_owner k (set_range st_ en_ g)).
    { intros g (? & ? & ? & ? & ?). unfold owned. split_and!; try done; simpl; unfold st_, en_;
        destruct Of as (_ & _ & _ & ? & ?), Or as (_ & _ & _ & ? & ?); lia. }
    assert (Hf : frame X st st1) by (eapply frame_mono; [| exact F1]; set_solver).
    destruct added.
    + assert (inl = true) as ->.
      { destruct inl; [done |]. by destruct (HT (proj2 (proj2 (r_ext _ _ _ _ _ _ _ _ _ _ _ _ R eq_refl)) eq_refl)). }
      destruct (step_delete _ _ _ _ _ _ _ _ _ _ _ _ S1) as (st2 & E2 & S2 & F2). rewrite E2. cbn [mbind option_bind].
      eapply loop_ends_step; [| refine (IH st2 Pa q P Q _ true hl true S2 _ HqX HPX)].
      * etrans; [exact Hf |]. eapply frame_mono; [| exact F2]. set_solver.
      * eapply ranges_absorb; [exact R | done | by apply Of' | apply R | done | done |]. left. split_and!; [done | lia | lia].
    + assert (inl = false) as ->.
      { destruct inl; [| done]. by destruct (r_inl _ _ _ _ _ _ _ _ _ _ _ _ R eq_refl). }
      rewrite app_nil_r, <- app_assoc. eapply loop_ends_step; [exact Hf |].
      eapply (IH st1 Pa a P Q (set_range st_ en_ f) true hl true); [by eapply step_take | | done | done].
      eapply ranges_absorb; [exact R | done | by apply Of' | done | done | done |]. left. split_and!; [done | lia | lia].
Qed.

(** Locks of another type: pass, stop, become [left] or [right], go, or be replaced. *)
Lemma loop_other_type Qa st Pa a q P f Q r inl hl added :
  (forall st Pa q P Q r inl hl added,
     loop_at st A Pa Qa B q P Q r inl -> ranges nlm_owner k L0 s e T P Q r inl hl added -> q ∈ X -> Pa ⊆ X ->
     loop_ends st q added (own_loop (Qa ++ B) st (A ++ Pa ++ if inl then [q] else []) q (if hl then last Pa else None)
       None added)) ->
  loop_at st A Pa (a :: Qa) B q P (f :: Q) r inl -> ranges nlm_owner k L0 s e T P (f :: Q) r inl hl added -> q ∈ X ->
    Pa ⊆ X -> a :: Qa ⊆ X ->
  fl_type f <> T ->
  loop_ends st q added (own_loop ((a :: Qa) ++ B) st (A ++ Pa ++ if inl then [q] else []) q
    (if hl then last Pa else None) None added).
Proof.
  intros IH S R HqX HPX HQX Ht. assert (HaX : a ∈ X) by set_solver.
  destruct (ranges_head _ _ _ _ _ _ _ _ _ _ _ _ _ R) as (Gf & _ & Hap & _).
  pose proof (r_owned _ _ _ _ _ _ _ _ _ _ _ _ R) as Or. pose proof Gf as [Of Tf].
  destruct (loop_head _ _ _ _ _ _ _ _ _ _ _ _ S) as (fl & Ef & <- & Hn).
  destruct (s_req _ _ _ _ _ _ _ _ _ _ S) as (rq & Eq & <- & Hn').
  cbn [own_loop app]. unfold get. rewrite Ef, Eq. cbn [mbind option_bind].
  change (posix_same_owner rq fl) with (posix_same_owner (strip rq) (strip fl)). rewrite same_owner_in by done. cbn [negb].
  change (fl_type rq) with (fl_type (strip rq)). rewrite (r_type _ _ _ _ _ _ _ _ _ _ _ _ R).
  change (fl_type fl) with (fl_type (strip fl)). rewrite (proj2 (Z.eqb_neq T (fl_type (strip fl)))) by congruence.
  set (f := strip fl) in *. set (r := strip rq) in *. change (fl_end fl) with (fl_end f). change (fl_end rq) with (fl_end r).
  change (fl_start fl) with (fl_start f). change (fl_start rq) with (fl_start r).
  pose proof Of as (_ & _ & _ & Of1 & _). pose proof Or as (_ & _ & _ & Or1 & _).
  destruct (Z.ltb_spec (fl_end f) (fl_start r)) as [H1|H1]; [| destruct (Z.gtb_spec (fl_start f) (fl_end r)) as [H2|H2];
    [| destruct (Z.gtb_spec (fl_end f) (fl_end r)) as [H3|H3]; [| destruct (Z.geb_spec (fl_start f) (fl_start r)) as [H4|H4]]]].
  - destruct (ranges_fresh _ _ _ _ _ _ _ _ _ _ _ _ _ R) as (-> & -> & ->); [lia |].
    specialize (IH st (Pa ++ [a]) q (P ++ [f]) Q r false false false). rewrite app_nil_r in IH. rewrite app_nil_r, <- app_assoc.
    apply IH; [by apply step_pass | | done | set_solver]. eapply ranges_pass; [exact R | split; [lia | done]].
  - change (a :: Qa ++ B) with ((a :: Qa) ++ B). eapply loop_stops; eauto. apply after_head; [done | split; [lia | done] | lia].
  - eexists _, Pa, (a :: Qa), P, (f :: Q), r, inl, hl, added, true, (fl_start f <? fl_start r). split; [done |]. split; try done.
    + exists f, Q. split_and!; try done; lia.
    + destruct (Z.ltb_spec (fl_start f) (fl_start r)); [split; [done |]; exists f, Q; split_and!; try done; lia |].
      constructor; [done |]. eapply Forall_impl; [exact Hap |]. intros g [? _]. lia.
  - rewrite (proj2 (Z.ltb_ge (fl_start f) (fl_start r))) by lia. destruct (Z.eqb_spec T F_UNLCK) as [HT|HT]; cbn [orb].
    + destruct (step_delete _ _ _ _ _ _ _ _ _ _ _ _ S) as (st2 & E2 & S2 & F2). rewrite E2. cbn [mbind option_bind].
      eapply loop_ends_step; [| refine (IH st2 Pa q P Q r inl hl true S2 _ HqX HPX)].
      * eapply frame_mono; [| exact F2]. set_solver.
      * eapply ranges_unlock; [exact R | done | lia | lia].
    + destruct added.
      * destruct (step_delete _ _ _ _ _ _ _ _ _ _ _ _ S) as (st2 & E2 & S2 & F2). rewrite E2. cbn [mbind option_bind].
        assert (inl = true) as ->.
        { destruct inl; [done |]. by destruct (HT (proj2 (proj2 (r_ext _ _ _ _ _ _ _ _ _ _ _ _ R eq_refl)) eq_refl)). }
        eapply loop_ends_step; [| refine (IH st2 Pa q P Q r true hl true S2 _ HqX HPX)].
        -- eapply frame_mono; [| exact F2]. set_solver.
        -- eapply ranges_absorb; [exact R | done | done | apply R | lia | lia |]. right. lia.
      * assert (inl = false) as ->.
        { destruct inl; [| done]. by destruct (r_inl _ _ _ _ _ _ _ _ _ _ _ _ R eq_refl). }
        destruct (step_replace _ _ _ _ _ _ _ _ _ _ _ _ S) as (st2 & E2 & S2 & F2). rewrite E2. cbn [mbind option_bind].
        rewrite app_nil_r, <- app_assoc. eapply loop_ends_step; [| refine (IH st2 Pa a P Q (taken f r) true hl true _ _ HaX HPX)].
        -- eapply frame_mono; [| exact F2]. set_solver.
        -- by eapply step_take.
        -- eapply ranges_absorb; [exact R | done | by apply owned_taken | apply R
            | change (fl_start (taken f r)) with (fl_start r); lia | change (fl_end (taken f r)) with (fl_end r);
            lia |]. right. lia.
  - rewrite (proj2 (Z.ltb_lt (fl_start f) (fl_start r))) by lia.
    destruct (ranges_fresh _ _ _ _ _ _ _ _ _ _ _ _ _ R) as (-> & -> & ->); [lia |].
    rewrite orb_false_r. eapply (loop_ends_pass _ _ _ (T =? F_UNLCK)); [done |].
    specialize (IH st (Pa ++ [a]) q (P ++ [f]) Q r false true (T =? F_UNLCK)). rewrite app_nil_r, last_snoc in IH.
    rewrite app_nil_r, <- app_assoc.
    apply IH; [by apply step_pass | | done | set_solver]. rewrite <- (orb_false_r (T =? F_UNLCK)).
    eapply ranges_left; [exact R | done | lia | lia].
Qed.

Lemma own_loop_ok Qa : forall st Pa q P Q r inl hl added,
  loop_at st A Pa Qa B q P Q r inl -> ranges nlm_owner k L0 s e T P Q r inl hl added -> q ∈ X -> Pa ⊆ X -> Qa ⊆ X ->
  loop_ends st q added (own_loop (Qa ++ B) st (A ++ Pa ++ if inl then [q] else []) q (if hl then last Pa else None) None added).
Proof.
  induction Qa as [|a Qa IH]; intros st Pa q P Q r inl hl added S R Hq HPX HX.
  - pose proof (s_Q _ _ _ _ _ _ _ _ _ _ S) as HQ. apply Forall2_nil_inv_l in HQ as ->.
    assert (own_loop ([] ++ B) st (A ++ Pa ++ if inl then [q] else []) q (if hl then last Pa else None) None added =
      Some (Cursor st (A ++ Pa ++ if inl then [q] else []) ([] ++ B) q (if hl then last Pa else None) None added)) as ->;
      [| by eapply loop_stops; eauto].
    pose proof (s_B _ _ _ _ _ _ _ _ _ _ S) as HB. destruct (s_req _ _ _ _ _ _ _ _ _ _ S) as (rq & Eq & Hr & _).
    destruct B as [|b B']; [done |].
    apply Forall_cons in HB as [Hb _]. destruct (same_owner_out st r b (r_owned _ _ _ _ _ _ _ _ _ _ _ _ R) Hb)
      as (f & (fl & Ef & <-)%cores_inv & Ho).
    cbn [own_loop app]. unfold get. rewrite Ef, Eq. cbn [mbind option_bind]. subst r.
    change (posix_same_owner rq fl) with (posix_same_owner (strip rq) (strip fl)). by rewrite Ho.
  - pose proof (s_Q _ _ _ _ _ _ _ _ _ _ S) as HQ. destruct Q as [|f Q]; [by apply Forall2_nil_inv_r in HQ |].
    assert (Qa ⊆ X) as HX' by set_solver.
    destruct (decide (fl_type f = T)) as [Ht|Ht]; [eapply loop_same_type | eapply loop_other_type]; eauto.
Qed.
End loop.

(** ** After the loop *)

(** A new object, not yet in use. *)
Record idle (st : locks) (n : Z) : Prop := Idle {
  i_lock : exists fn, fls st !! n = Some fn /\ fl_next fn = None /\ fl_block fn = [];
  i_chain : n ∉ i_flock st;
  i_list : n ∉ file_lock_list st
}.

Lemma idle_frame X st st' n : frame X st st' -> n ∉ X -> idle st n -> idle st' n.
Proof.
  intros [F1 F2 F3] Hn [(fn & E & H1 & H2) H3 H4]. split; [exists fn; auto | |]; intros H; [apply H3; auto | apply H4; auto].
Qed.

(** The owner's locks [R] at [Sa] in the chain. *)
Record seg_at (st : locks) (A Sa B : list Z) (R : list file_lock) : Prop := SegAt {
  g_links : links None st;
  g_chain : i_flock st = A ++ Sa ++ B;
  g_has : has st Sa R;
  g_B : Forall (stranger st) B
}.

Lemma has_split st l1 l2 R : has st (l1 ++ l2) R -> exists R1 R2, R = R1 ++ R2 /\ has st l1 R1 /\ has st l2 R2.
Proof. intros (R1 & R2 & ? & ? & ->)%Forall2_app_inv_l. eauto. Qed.

Lemma seg_distinct st A S1 x S2 B R : seg_at st A (S1 ++ x :: S2) B R -> x ∉ A /\ x ∉ S1 /\ x ∉ S2 /\ x ∉ B.
Proof.
  intros [L C _ _]. pose proof (l_once _ _ L) as Hn. rewrite C, <- app_assoc, (app_assoc A) in Hn.
  apply NoDup_app in Hn as (_ & H1 & H2). cbn [app] in H2. apply NoDup_cons in H2 as [H2 _].
  assert (x ∉ A ++ S1) as H3 by (intros H; apply (H1 x H); set_solver). rewrite not_elem_of_app in H2, H3. tauto.
Qed.

Lemma seg_clip g st A S1 x S2 B R1 f R2 :
  seg_at st A (S1 ++ x :: S2) B (R1 ++ f :: R2) -> has st S1 R1 ->
  (forall h, fl_next (g h) = fl_next h /\ fl_block (g h) = fl_block h /\ strip (g h) = g (strip h)) ->
  exists st', (st ← modify g x st; locks_wake_up_blocks x st) = Some st' /\
    seg_at st' A (S1 ++ x :: S2) B (R1 ++ g f :: R2) /\ frame [x] st st'.
Proof.
  intros S H1 Hg. destruct (seg_distinct _ _ _ _ _ _ _ S) as (_ & D1 & D2 & D3). destruct S as [L C HR HB].
  apply has_split in HR as (R1' & R2' & E & H1' & H2').
  pose proof (Forall2_length _ _ _ H1) as El. pose proof (Forall2_length _ _ _ H1') as El'.
  apply app_inj_1 in E as [-> <-]; [| congruence].
  apply Forall2_cons in H2' as [(fl & Ex & <-)%cores_inv H2].
  destruct (l_chain _ _ L x) as (fl' & Ex' & Hn); [rewrite C; set_solver |]. assert (fl' = fl) as -> by congruence.
  destruct (Hg fl) as (G1 & G2 & G3).
  destruct (clip_ok g st x fl L Ex Hn) as (st' & E & L' & C' & F' & Ec); [congruence | done |]. exists st'.
  split; [exact E |]. split; [| done].
  assert (Hkeep : forall b, b <> x -> cores st' !! b = cores st !! b) by (intros b Hb; rewrite Ec; by rewrite lookup_insert_ne).
  split; [done | congruence | |].
  - apply has_app; [eapply has_ext; [| exact H1]; intros b Hb; apply Hkeep; congruence |].
    constructor; [rewrite Ec, lookup_insert_eq; congruence |]. eapply has_ext; [| exact H2]. intros b Hb. apply Hkeep. congruence.
  - eapply stranger_ext; [| exact HB]. intros b Hb. apply Hkeep. congruence.
Qed.

Lemma copy_strip new fl : strip (locks_copy_lock new fl) = strip fl.
Proof. destruct fl as [? ? ? ? ? ? ? ? ? ? [] []]; reflexivity. Qed.

(** A copy of [fl] enters the chain. *)
Lemma seg_insert pid fl st A S1 n S2 B R1 R2 :
  seg_at st A (S1 ++ S2) B (R1 ++ R2) -> has st S1 R1 -> idle st n ->
  exists st', (st ← modify (fun new => locks_copy_lock new fl) n st; locks_insert_lock pid (A ++ S1) n (S2 ++ B) st) = Some st' /\
    seg_at st' A (S1 ++ n :: S2) B (R1 ++ strip fl :: R2) /\ frame [n] st st'.
Proof.
  intros [L C HR HB] H1 [(fn & En & Hn & Hb) Hc Hl]. rewrite (modify_Some _ _ _ _ En). cbn [mbind option_bind].
  set (st1 := set_fls _ _).
  assert (L1 : links None st1) by (eapply links_insert; eauto).
  destruct (insert_lock_ok None st1 pid (A ++ S1) n (S2 ++ B) (locks_copy_lock fn fl)) as (st' & E & L' & C' & Ec & F'); try done.
  { apply lookup_insert_eq. }
  { cbn. by rewrite C, <- !app_assoc. }
  exists st'. split; [exact E |]. split; [| etrans; [apply frame_insert | exact F']].
  assert (Hkeep : forall b, b <> n -> cores st' !! b = cores st !! b).
  { intros b Hb'. rewrite Ec. unfold st1, cores. cbn [fls set_fls]. by rewrite !lookup_fmap, lookup_insert_ne. }
  apply has_split in HR as (R1' & R2' & ER & H1' & H2').
  pose proof (Forall2_length _ _ _ H1) as El. pose proof (Forall2_length _ _ _ H1') as El'.
  apply app_inj_1 in ER as [-> <-]; [| congruence].
  rewrite C in Hc. rewrite !not_elem_of_app in Hc. split; [done | by rewrite C', <- !app_assoc | |].
  - apply has_app; [eapply has_ext; [| exact H1]; intros b Hb'; apply Hkeep; intros ->; tauto |].
    constructor; [| eapply has_ext; [| exact H2']; intros b Hb'; apply Hkeep; intros ->; tauto].
    rewrite Ec. unfold st1, cores. cbn [fls set_fls]. by rewrite lookup_fmap, lookup_insert_eq, <- copy_strip with (new := fn).
  - eapply stranger_ext; [| exact HB]. intros b Hb'. apply Hkeep. intros ->. tauto.
Qed.

Definition reads (st : locks) (q : Z) (r : file_lock) : Prop := exists rq, fls st !! q = Some rq /\ strip rq = r /\
  fl_next rq = None.

Lemma reads_frame X st st' q r : frame X st st' -> q ∉ X -> reads st q r -> reads st' q r.
Proof. intros F Hq (rq & E & Hr & Hn). exists rq. split_and!; try done. by apply (f_locks _ _ _ F). Qed.

Lemma has_parts st S1 S2 R1 R2 : has st (S1 ++ S2) (R1 ++ R2) -> length S1 = length R1 -> has st S1 R1 /\ has st S2 R2.
Proof.
  intros (R1' & R2' & E & H1 & H2)%has_split Hl. pose proof (Forall2_length _ _ _ H1).
  apply app_inj_1 in E as [-> ->]; [done | congruence].
Qed.

(** The right end of the owner's locks, and the copy that becomes [left] when the
    request lies inside one lock. *)
Lemma clip_right_ok pid r c (right_ both : bool) new_fl2 Pa Ma Qa P mid Q A B :
  seg_at (c_st c) A (Pa ++ Ma ++ Qa) B (P ++ mid ++ Q) -> has (c_st c) Pa P -> has (c_st c) Ma mid -> has (c_st c) Qa Q ->
  reads (c_st c) (c_request c) r -> c_request c ∉ Qa -> c_right c = (if right_ then head Qa else None) ->
  (right_ = true -> exists f Q1, Q = f :: Q1 /\ fl_end r < fl_end f) -> 0 <= fl_end r ->
    Forall (fun f => fl_end f <= OFFSET_MAX) Q ->
  (if both then right_ = true /\ c_left c = head Qa /\ c_pre c = A ++ Pa /\ c_post c = Ma ++ Qa ++ B
   else right_ = true -> c_left c <> head Qa) ->
  (both = true -> new_fl2 <> None) -> (forall n, new_fl2 = Some n -> idle (c_st c) n /\ n <> c_request c) ->
  exists c' nf2 La L Bq, clip_right pid c new_fl2 = Some (c', nf2) /\
    seg_at (c_st c') A (Pa ++ La ++ Ma ++ Qa) B (P ++ L ++ mid ++ Bq) /\ has (c_st c') (Pa ++ La) (P ++ L) /\
    rights r right_ Q Bq /\ reads (c_st c') (c_request c') r /\ c_request c' = c_request c /\
    frame (Qa ++ La) (c_st c) (c_st c') /\
    (if both then exists n f Q1, new_fl2 = Some n /\ nf2 = None /\ La = [n] /\ Q = f :: Q1 /\ L = [f] /\ c_left c' = Some n
     else La = [] /\ L = [] /\ nf2 = new_fl2 /\ c_left c' = c_left c).
Proof.
  intros S HP HM HQ Hrd Hq Er Hr Hr0 Hmax Hboth Hnew Hidle. unfold clip_right. rewrite Er. destruct right_.
  2:{ destruct both; [by destruct Hboth |]. exists c, new_fl2, [], [], Q. rewrite !app_nil_r. cbn [app]. by split_and!. }
  destruct (Hr eq_refl) as (f & Q1 & -> & Hf). destruct Qa as [|a Qa]; [by apply Forall2_nil_inv_l in HQ |]. cbn [head].
  assert (Hend : s64 (fl_end r + 1) = fl_end r + 1).
  { apply Forall_cons in Hmax as [Hm _]. apply swrap_small; lia. }
  assert (Hclip : forall st La L, seg_at st A (Pa ++ La ++ Ma ++ a :: Qa) B (P ++ L ++ mid ++ f :: Q1) ->
    has st (Pa ++ La) (P ++ L) -> has st Ma mid ->
    reads st (c_request c) r -> exists st', (req ← get st (c_request c);
      st ← modify (fun fl => set_range (s64 (fl_end req + 1)) (fl_end fl) fl) a st; locks_wake_up_blocks a st) = Some st' /\
    seg_at st' A (Pa ++ La ++ Ma ++ a :: Qa) B (P ++ L ++ mid ++ clip_r r f :: Q1) /\ frame [a] st st').
  { intros st La L S1 H1 H2 (rq & Eq & <- & _). unfold get. rewrite Eq. cbn [mbind option_bind].
    change (fl_end rq) with (fl_end (strip rq)). rewrite Hend.
    destruct (seg_clip (fun fl => set_range (fl_end (strip rq) + 1) (fl_end fl) fl) st A (Pa ++ La ++ Ma) a Qa B
      (P ++ L ++ mid) f Q1)
      as (st' & E & S' & F'); [by rewrite <- !app_assoc | rewrite !app_assoc; by apply has_app | done |].
    exists st'. split; [exact E |]. split; [| done]. rewrite <- !app_assoc in S'. exact S'. }
  destruct both.
  - destruct Hboth as (_ & El & Epre & Epost). unfold split_right. rewrite bool_decide_eq_true_2 by done.
    destruct new_fl2 as [n|]; [| by destruct (Hnew eq_refl)]. cbn [mbind option_bind]. destruct (Hidle n eq_refl) as [Hn Hnq].
    apply Forall2_cons in HQ as [(fr & Ef & Hfr)%cores_inv HQ]. assert (get (c_st c) a = Some fr) as -> by done.
    cbn [mbind option_bind].
    destruct (seg_insert pid fr (c_st c) A Pa n (Ma ++ a :: Qa) B P (mid ++ f :: Q1)) as (st1 & E1 & S1 & F1);
      try done. rewrite Hfr in S1.
    apply bind_Some in E1 as (st0 & E0 & E1). rewrite E0. cbn [mbind option_bind]. rewrite Epre, Epost.
    rewrite <- app_assoc in E1. rewrite E1. cbn [mbind option_bind c_st c_request].
    assert (n ∉ Pa /\ n ∉ Ma /\ n ∉ a :: Qa) as (N1 & N2 & N3).
    { destruct Hn as [_ Hn _]. rewrite (g_chain _ _ _ _ _ S), !not_elem_of_app in Hn. tauto. }
    destruct (Hclip st1 [n] [f]) as (st2 & E2 & S2 & F2).
    { exact S1. }
    { pose proof (g_has _ _ _ _ _ S1) as H1. apply Forall2_length in HP as Hlen.
      change (n :: Ma ++ a :: Qa) with ([n] ++ Ma ++ a :: Qa) in H1.
      change (f :: mid ++ f :: Q1) with ([f] ++ mid ++ f :: Q1) in H1.
      rewrite app_assoc, (app_assoc P) in H1. apply has_parts in H1 as [H1 _]; [done | rewrite !length_app; simpl; lia]. }
    { pose proof (g_has _ _ _ _ _ S1) as H1. apply Forall2_length in HP as Hlen. apply Forall2_length in HM as Hlen'.
      apply has_parts in H1 as [_ [_ H1]%Forall2_cons]; [| done]. by apply has_parts in H1 as [H1 _]. }
    { eapply reads_frame; [exact F1 | set_solver | done]. }
    destruct (get st1 (c_request c)) as [req|]; [| done]. cbn [mbind option_bind] in E2 |- *.
    apply bind_Some in E2 as (st3 & E3 & E2). rewrite E3. cbn [mbind option_bind]. rewrite E2. cbn [mbind option_bind].
    eexists _, None, [n], [f], (clip_r r f :: Q1). split; [done |]. cbn [c_st c_request c_left].
    split_and!; try done.
    + pose proof (g_has _ _ _ _ _ S2) as H2. rewrite app_assoc, (app_assoc P) in H2. apply Forall2_length in HP as Hlen.
      apply has_parts in H2 as [H2 _]; [done | rewrite !length_app; simpl; lia].
    + by exists f, Q1.
    + eapply reads_frame; [exact F2 | set_solver |]. eapply reads_frame; [exact F1 | set_solver | done].
    + etrans; [eapply frame_mono; [| exact F1]; set_solver | eapply frame_mono; [| exact F2]; set_solver].
    + by exists n, f, Q1.
  - unfold split_right. rewrite bool_decide_eq_false_2 by by apply Hboth. cbn [mbind option_bind].
    destruct (Hclip (c_st c) [] []) as (st2 & E2 & S2 & F2); try done; [by rewrite !app_nil_r |].
    destruct (get (c_st c) (c_request c)) as [req|]; [| done]. cbn [mbind option_bind] in E2 |- *.
    apply bind_Some in E2 as (st3 & E3 & E2). rewrite E3. cbn [mbind option_bind]. rewrite E2. cbn [mbind option_bind].
    eexists _, new_fl2, [], [], (clip_r r f :: Q1). split; [done |]. cbn [c_st c_request c_left]. split_and!; try done.
    + pose proof (g_has _ _ _ _ _ S2) as H2. apply Forall2_length in HP as Hlen. rewrite !app_nil_r.
      by apply has_parts in H2 as [H2 _].
    + by exists f, Q1.
    + eapply reads_frame; [exact F2 | set_solver | done].
    + eapply frame_mono; [| exact F2]. set_solver.
Qed.

(** The left end. *)
Lemma clip_left_ok r c (hl both : bool) Pa La Sa P L R A B :
  seg_at (c_st c) A (Pa ++ La ++ Sa) B (P ++ L ++ R) -> has (c_st c) (Pa ++ La) (P ++ L) -> length Pa = length P ->
  reads (c_st c) (c_request c) r -> 0 <= fl_start r <= OFFSET_MAX ->
  (if both then exists n f, La = [n] /\ L = [f] /\ c_left c = Some n
   else La = [] /\ L = [] /\ c_left c = if hl then last Pa else None) ->
  (hl = true -> exists P1 l, P = P1 ++ [l]) ->
  exists st' Pl, clip_left c = Some st' /\ seg_at st' A (Pa ++ La ++ Sa) B (Pl ++ R) /\ frame (Pa ++ La) (c_st c) st' /\
    if both then exists f, L = [f] /\ Pl = P ++ [clip_l r f]
    else if hl then exists P1 l, P = P1 ++ [l] /\ Pl = P1 ++ [clip_l r l] else Pl = P.
Proof.
  intros S Hh Hlen (rq & Eq & Hr & _) Hr0 Hcase Hhl. unfold clip_left.
  assert (Hs : s64 (fl_start rq - 1) = fl_start r - 1).
  { rewrite <- Hr. change (fl_start (strip rq)) with (fl_start rq) in *. subst r.
    apply swrap_small; simpl in *; lia. }
  destruct both.
  - destruct Hcase as (n & f & -> & -> & ->). unfold get. rewrite Eq. cbn [mbind option_bind]. rewrite Hs.
    apply has_parts in Hh as [Hp _]; [| done].
    destruct (seg_clip (fun fl => set_range (fl_start fl) (fl_start r - 1) fl) (c_st c) A Pa n Sa B P f R)
      as (st' & E & S' & F'); try done.
    exists st', (P ++ [clip_l r f]). rewrite <- app_assoc.
    split_and!; try done; [eapply frame_mono; [| exact F']; set_solver | by exists f].
  - destruct Hcase as (-> & -> & ->). rewrite !app_nil_r in *. cbn [app] in S |- *. destruct hl; [| by exists (c_st c), P].
    destruct (Hhl eq_refl) as (P1 & l & ->). destruct (exists_last (l := Pa)) as (Pa1 & x & ->).
    { intros ->. rewrite length_app in Hlen. simpl in Hlen. lia. }
    rewrite last_snoc. unfold get. rewrite Eq. cbn [mbind option_bind]. rewrite Hs. rewrite !length_app in Hlen. simpl in Hlen.
    apply has_parts in Hh as [Hp _]; [| lia]. rewrite <- !app_assoc in S. rewrite <- !app_assoc.
    destruct (seg_clip (fun fl => set_range (fl_start fl) (fl_start r - 1) fl) (c_st c) A Pa1 x Sa B P1 l R)
      as (st' & E & S' & F'); try done.
    exists st', (P1 ++ [clip_l r l]). rewrite <- app_assoc.
    split_and!; try done; [eapply frame_mono; [| exact F']; set_solver | by exists P1, l].
Qed.

(** What [insert_new] leaves: [Ma] is where the request is in the chain, unless it
    unlocks; [Na] is what was used of [new_fl]. *)
Record inserted (c c' : cursor) (A Pa Ma Na Qa B : list Z) (P mid Q : list file_lock) (r : file_lock) (inl : bool)
  (T : Z) : Prop := Inserted {
  n_seg : seg_at (c_st c') A (Pa ++ Ma ++ Qa) B (P ++ mid ++ Q);
  n_P : has (c_st c') Pa P;
  n_M : has (c_st c') Ma mid;
  n_Q : has (c_st c') Qa Q;
  n_reads : reads (c_st c') (c_request c') r;
  n_request : c_request c' = c_request c;
  n_left : c_left c' = c_left c;
  n_right : c_right c' = c_right c;
  n_places : inl = false -> c_pre c' = A ++ Pa /\ c_post c' = Ma ++ Qa ++ B;
  n_mid : mid = if T =? F_UNLCK then [] else [r];
  n_frame : frame Na (c_st c) (c_st c')
}.

Lemma insert_new_ok pid L0 s e T X A B st q c Pa Qa P Q r inl hl added' right_ both new_fl :
  loop_end L0 s e T X A B st q false c Pa Qa P Q r inl hl added' right_ both ->
  (forall n, new_fl = Some n -> idle (c_st c) n /\ n <> c_request c) ->
  (exists c' nf Ma Na mid, insert_new pid c new_fl = Some (inr (c', nf)) /\ inserted c c' A Pa Ma Na Qa B P mid Q r inl T /\
     (Na = [] /\ nf = new_fl \/ exists n, Na = [n] /\ new_fl = Some n /\ nf = None)) \/
  (c_added c = false /\ exists err, insert_new pid c new_fl = Some (Datatypes.inl err) /\
     (T = F_UNLCK /\ (err = 0 \/ err = - ENOENT /\ fl_flags r .& FL_EXISTS <> 0) \/ T <> F_UNLCK /\ new_fl = None /\
       err = - ENOLCK)).
Proof.
  intros [S R St Epre Epost El Er Ea F EX Es Em Eb] Hidle. pose proof S as [L C HP HQ (rq & Eq & Hr & Hn) Hx HB].
  assert (Hseg : seg_at (c_st c) A (Pa ++ (if inl then [c_request c] else []) ++ Qa) B (P ++ (if inl then [r] else []) ++ Q)).
  { split; try done; [rewrite C, <- !app_assoc; by destruct inl |]. apply has_app; [done |]. apply has_app; [| done].
    destruct inl; constructor; [| constructor]. rewrite <- Hr. by apply cores_lookup. }
  unfold insert_new. unfold get. rewrite Eq. cbn [mbind option_bind].
  assert (Ht : fl_type rq = T) by (rewrite <- (r_type _ _ _ _ _ _ _ _ _ _ _ _ R), <- Hr; done). rewrite Ht.
  destruct (c_added c) eqn:Eadd.
  - left. eexists c, new_fl, (if inl then [c_request c] else []), [], (if T =? F_UNLCK then [] else [r]).
    split; [done |]. split; [| by left].
    assert (E : (if T =? F_UNLCK then [] else [r]) = if inl then [r] else []).
    { destruct inl; [destruct (r_inl _ _ _ _ _ _ _ _ _ _ _ _ R eq_refl) as [_ HT]; by rewrite (proj2 (Z.eqb_neq _ _) HT) |].
      destruct (r_ext _ _ _ _ _ _ _ _ _ _ _ _ R eq_refl) as (_ & _ & HT). destruct (Z.eqb_spec T F_UNLCK); [done |].
      rewrite andb_false_r in Ea. cbn [orb] in Ea. by destruct n; apply HT. }
    rewrite E. split; try done.
    + destruct inl; constructor; [| constructor]. rewrite <- Hr. by apply cores_lookup.
    + by exists rq.
    + intros ->. rewrite Epre, Epost, app_nil_r. done.
  - assert (inl = false) as ->.
    { destruct inl; [| done]. destruct (r_inl _ _ _ _ _ _ _ _ _ _ _ _ R eq_refl) as [-> _]. by rewrite orb_true_r in Ea. }
    cbn [app] in Hseg. destruct (Z.eqb_spec T F_UNLCK) as [HT|HT].
    + right. split; [done |]. eexists. split; [done |]. left. split; [done |].
      destruct (Z.eqb_spec (fl_flags rq .& FL_EXISTS) 0); [by left |].
      right. split; [done |]. by rewrite <- Hr.
    + destruct new_fl as [n|]; [| right; split; [done |]; eexists; split; [done |]; right; done].
      left. destruct (Hidle n eq_refl) as [Hi Hne].
      destruct (seg_insert pid rq (c_st c) A Pa n Qa B P Q Hseg HP Hi) as (st' & E & S' & F').
      apply bind_Some in E as (st0 & E0 & E). rewrite E0. cbn [mbind option_bind]. rewrite app_nil_r in Epre.
      rewrite Epre, Epost, E. cbn [mbind option_bind].
      eexists _, None, [n], [n], [r]. split; [done |]. split; [| right; by exists n].
      pose proof (g_has _ _ _ _ _ S') as Hh. apply Forall2_length in HP as Hlen.
      apply has_parts in Hh as [Hh1 [Hh2 Hh3]%Forall2_cons]; [| done].
      rewrite Hr in S', Hh2. split; cbn [c_st c_request c_left c_right c_pre c_post]; try done.
      * constructor; [done | constructor].
      * eapply reads_frame; [exact F' | set_solver | by exists rq].
      * by rewrite (proj2 (Z.eqb_neq _ _) HT).
Qed.

Lemma loop_request_out st A Pa Qa B q P Q r inl : loop_at st A Pa Qa B q P Q r inl -> q ∉ Pa /\ q ∉ Qa.
Proof.
  intros [L C _ _ _ X _]. pose proof (l_once _ _ L) as Hn. rewrite C in Hn, X. destruct inl.
  - apply NoDup_app in Hn as (Hn1 & Hn2 & _). assert (Hq : q ∉ Qa ++ B) by (apply Hn2; set_solver). rewrite not_elem_of_app in Hq.
    apply NoDup_app in Hn1 as (_ & _ & (_ & Hp & _)%NoDup_app). split; [| tauto]. intros Hin. apply (Hp q Hin). left.
  - specialize (X eq_refl). rewrite !not_elem_of_app in X. tauto.
Qed.

Lemma loop_disjoint st A Pa Qa B q P Q r inl x : loop_at st A Pa Qa B q P Q r inl -> x ∈ Pa -> x ∉ Qa.
Proof.
  intros [L C _ _ _ _ _] Hx Hx'. pose proof (l_once _ _ L) as Hn. rewrite C in Hn. apply NoDup_app in Hn as (_ & Hn & _).
  apply (Hn x); set_solver.
Qed.

(** The bytes of the request as asked for, all others as before. *)
Definition updated (L0 : list file_lock) (s e T : Z) (R : list file_lock) : Prop :=
  forall x, held R x = if bool_decide (s <= x <= e) then (if T =? F_UNLCK then None else Some T) else held L0 x.

Definition leftover (new nf : option Z) (Na : list Z) : Prop :=
  Na = [] /\ nf = new \/ exists n, Na = [n] /\ new = Some n /\ nf = None.

(** Nothing of the owner's was in the way of the request. *)
Lemma ranges_clear L0 s e T P Q r inl hl added' right_ (both : bool) :
  ranges nlm_owner k L0 s e T P Q r inl hl added' -> stopped T Q r right_ -> T = F_UNLCK ->
  (right_ && (T =? F_UNLCK)) || added' = false ->
  (if both then right_ = true /\ exists f Q1, Q = f :: Q1 /\ fl_start f < fl_start r <= fl_end f
   else Forall (fun g => fl_start r <= fl_start g) Q) ->
  segment nlm_owner k (P ++ Q) /\ updated L0 s e T (P ++ Q).
Proof.
  intros R St HT Ha Hb. rewrite (proj2 (Z.eqb_eq _ _) HT), andb_true_r in Ha. apply orb_false_iff in Ha as [-> ->].
  destruct both; [by destruct Hb |]. destruct hl; [by pose proof (r_unlock _ _ _ _ _ _ _ _ _ _ _ _ R eq_refl HT) |].
  pose proof (ranges_lefts _ _ _ _ _ _ _ _ _ _ _ _ false P R (conj eq_refl Hb) ltac:(done)) as HA.
  pose proof (ranges_rights _ _ _ _ _ _ _ _ _ _ _ _ false Q R St eq_refl) as HB.
  apply (ranges_final _ _ _ _ _ _ _ _ _ _ _ _ P [] Q R HA HB). by rewrite (proj2 (Z.eqb_eq _ _) HT).
Qed.

Lemma finish_ok pid L0 s e T X A B st q c Pa Qa P Q r inl hl added' right_ both new_fl new_fl2 :
  loop_end L0 s e T X A B st q false c Pa Qa P Q r inl hl added' right_ both ->
  T = F_RDLCK \/ T = F_WRLCK \/ T = F_UNLCK ->
  (forall n, new_fl = Some n -> idle (c_st c) n /\ n <> c_request c) ->
  (forall n, new_fl2 = Some n -> idle (c_st c) n /\ n <> c_request c) -> (forall n, new_fl = Some n -> new_fl2 <> Some n) ->
  exists st' err nf nf2, finish pid c new_fl new_fl2 = Some (st', err, nf, nf2) /\
  ((err = 0 /\ exists Sa R N1 N2, seg_at st' A Sa B R /\ segment nlm_owner k R /\ updated L0 s e T R /\
      frame (X ++ N1 ++ N2) (c_st c) st' /\ leftover new_fl nf N1 /\ leftover new_fl2 nf2 N2) \/
   (st' = st /\ nf = new_fl /\ nf2 = new_fl2 /\
     (err = - ENOLCK /\ (new_fl = None /\ T <> F_UNLCK \/ new_fl2 = None /\ 0 < s) \/
      err = - ENOENT /\ T = F_UNLCK /\ reads st q r /\ fl_flags r .& FL_EXISTS <> 0 /\ forall x, s <= x <= e ->
        held L0 x = None))).
Proof.
  intros LE HT Hn1 Hn2 Hn12. pose proof LE as [S R St Epre Epost El Er Ea F EX Es Em Eb]. unfold finish.
  assert (Hsame : added' = false -> c_st c = st) by (intros E; apply Es, E).
  assert (Hfresh : both = true -> inl = false /\ hl = false /\ added' = false).
  { intros ->. destruct Eb as (-> & f & Q1 & -> & Hf). eapply ranges_fresh; [exact R | lia]. }
  destruct (bool_decide_reflect (is_Some (c_right c) /\ c_left c = c_right c /\ new_fl2 = None)) as [(Hr & Hlr & ->)|Hnot].
  { assert (both = true) as Hb.
    { rewrite Er in Hr, Hlr. rewrite El in Hlr. destruct right_; [| by destruct Hr]. destruct both; [done |].
      destruct hl; [| by rewrite <- Hlr in Hr; destruct Hr].
      exfalso. destruct Qa as [|a Qa]; [by destruct Hr |]. cbn [head] in Hlr. apply last_Some in Hlr as (Pa1 & ->).
      destruct (loop_distinct _ _ _ _ _ _ _ _ _ _ _ S) as (_ & D & _). set_solver. }
    destruct (Hfresh Hb) as (Hi & _ & ->). eexists _, _, _, _. split; [done |]. right. split_and!; auto. left.
    split; [done |]. right. split; [done |].
    destruct (r_ext _ _ _ _ _ _ _ _ _ _ _ _ R Hi) as (<- & _ & _). rewrite Hb in Eb. destruct Eb as (_ & f & Q1 & -> & Hf).
    destruct (r_segment _ _ _ _ _ _ _ _ _ _ _ _ R) as [_ Hg].
    apply Forall_app in Hg as [_ [[(_ & _ & _ & ? & _) _] _]%Forall_cons]. lia. }
  destruct (insert_new_ok pid _ _ _ _ _ _ _ _ _ _ _ _ _ _ _ _ _ _ _ _ _ LE Hn1)
    as [(c' & nf & Ma & Na & mid & E & I & HNa)|(Hadd & err & E & Herr)]; rewrite E; cbn [mbind option_bind].
  2:{ assert (added' = false) as Ha by (rewrite Hadd in Ea; symmetry in Ea; by apply orb_false_iff in Ea as [_ ?]).
      eexists _, _, _, _. split; [done |]. destruct Herr as [[HU Herr]|(HU & -> & ->)].
      - rewrite Hadd in Ea. destruct (ranges_clear _ _ _ _ _ _ _ _ _ _ _ both R St HU (eq_sym Ea) Eb) as [Hseg Hup].
        destruct Herr as [->|[-> Hex]].
        + left. split; [done |]. assert (inl = false) as -> by (destruct inl;
            [by destruct (r_inl _ _ _ _ _ _ _ _ _ _ _ _ R eq_refl) | done]).
          exists (Pa ++ Qa), (P ++ Q), [], []. destruct S as [L C HP HQ _ _ HB]. split_and!; try done; try (by left).
          split; try done; [by rewrite C, app_nil_r, <- !app_assoc | by apply has_app].
        + right. split_and!; auto. right. destruct (Es Ha) as [<- <-]. split_and!; try done; [apply S |]. intros x Hx.
          specialize (Hup x).
          rewrite bool_decide_eq_true_2, (proj2 (Z.eqb_eq _ _) HU) in Hup by done.
          by rewrite <- (r_initial _ _ _ _ _ _ _ _ _ _ _ _ R Ha).
      - right. split_and!; auto. }
  destruct I as [I1 I2 I3 I4 I5 I6 I7 I8 I9 I10 I11]. destruct (loop_request_out _ _ _ _ _ _ _ _ _ _ S) as [_ Hq].
  destruct (r_owned _ _ _ _ _ _ _ _ _ _ _ _ R) as (Hr1 & Hr2 & Hr3 & Hr4 & Hr5).
  pose proof (r_segment _ _ _ _ _ _ _ _ _ _ _ _ R) as [_ Hg].
  assert (Hhead : right_ = true -> exists a f Q1, head Qa = Some a /\ a ∈ Qa /\ Q = f :: Q1 /\ fl_type f <> T /\
    fl_start f <= fl_end r < fl_end f).
  { intros ->. destruct St as (f & Q1 & -> & H1 & H2). destruct Qa as [|a Qa]; [by apply Forall2_nil_inv_l in I4 |].
    exists a, f, Q1. split_and!; try done; [left | lia | lia]. }
  destruct (clip_right_ok pid r c' right_ both new_fl2 Pa Ma Qa P mid Q A B)
    as (c2 & nf2 & La & L & Bq & E2 & S2 & H2 & Hri & Hre & Hrq & F2 & Hb2); try done.
  { by rewrite I6. }
  { by rewrite I8. }
  { intros Hrt. destruct (Hhead Hrt) as (a & f & Q1 & _ & _ & -> & _ & ?). exists f, Q1. split; [done | lia]. }
  { lia. }
  { apply Forall_app in Hg as [_ Hg]. eapply Forall_impl; [exact Hg |]. by intros f [(_ & _ & _ & _ & ?) _]. }
  { rewrite I7, El. destruct both.
    - destruct (Hfresh eq_refl) as (Hi & _). destruct (I9 Hi). by destruct Eb as [-> _].
    - intros Hrt. destruct (Hhead Hrt) as (a & f & Q1 & -> & Ha & _). destruct hl; [| done]. intros (Pa1 & ->)%last_Some.
      by eapply (loop_disjoint _ _ _ _ _ _ _ _ _ _ a S); [set_solver |]. }
  { intros -> ->. apply Hnot. rewrite Er, El. destruct Eb as [-> _]. destruct (Hhead eq_refl) as (a & f & Q1 & -> & _). done. }
  { intros n Hn. destruct (Hn2 n Hn) as [Hi Hne]. split; [| by rewrite I6]. eapply idle_frame; [exact I11 | | done].
    destruct HNa as [[-> _]|(m & -> & Hm & _)]; [apply not_elem_of_nil |]. intros ->%list_elem_of_singleton. by eapply Hn12. }
  rewrite E2. cbn [mbind option_bind].
  destruct (clip_left_ok r c2 hl both Pa La (Ma ++ Qa) P L (mid ++ Bq) A B) as (st' & Pl & E3 & S3 & F3 & HPl); try done.
  { by eapply Forall2_length. }
  { lia. }
  { destruct both; [destruct Hb2 as (n & f & Q1 & _ & _ & -> & _ & -> & ->); by exists n, f |].
    destruct Hb2 as (-> & -> & _ & ->). by rewrite I7, El. }
  { intros Hh. destruct (r_left _ _ _ _ _ _ _ _ _ _ _ _ R Hh) as (P1 & l & -> & _). by exists P1, l. }
  rewrite E3. cbn [mbind option_bind]. eexists _, _, _, _. split; [done |]. left. split; [done |].
  exists (Pa ++ La ++ Ma ++ Qa), (Pl ++ mid ++ Bq), Na, La.
  assert (Hlefts : lefts T r hl both P Q Pl).
  { unfold lefts. destruct both.
    - destruct (Hfresh eq_refl) as (_ & -> & _). destruct HPl as (f & -> & ->).
      destruct Hb2 as (n & f' & Q1 & _ & _ & _ & -> & [= ->] & _).
      destruct Eb as (-> & f0 & Q0 & [= <- <-] & ?). destruct St as (f1 & Q2 & [= <- <-] & ? & _). by exists f', Q1.
    - destruct hl; [done | by split]. }
  pose proof (ranges_lefts _ _ _ _ _ _ _ _ _ _ _ _ both Pl R Hlefts) as HA.
  pose proof (ranges_rights _ _ _ _ _ _ _ _ _ _ _ _ right_ Bq R St Hri) as HB.
  destruct (ranges_final _ _ _ _ _ _ _ _ _ _ _ _ Pl mid Bq R) as [Hfin1 Hfin2].
  { apply HA. intros ->. destruct both; [by destruct (Hfresh eq_refl) as (_ & ? & _) | done]. }
  { apply HB. }
  { rewrite I10. destruct (Z.eqb_spec T F_UNLCK); [done |]. exists r. pose proof (r_type _ _ _ _ _ _ _ _ _ _ _ _ R) as Et.
    split_and!; try done. split; [done |]. rewrite Et. tauto. }
  split_and!; try done.
  - destruct EX as (_ & HPX & HQX). trans (c_st c'); [eapply frame_mono; [| exact I11]; set_solver |].
    trans (c_st c2); eapply frame_mono; [| exact F2 | | exact F3]; set_solver.
  - unfold leftover. destruct both; [destruct Hb2 as (n & f & Q1 & -> & -> & -> & _); right;
      by exists n | destruct Hb2 as (-> & _ & -> & _); by left].
Qed.
End posix.
End PosixLock.
