(* ===== verification/PosixLockFile.v ===== *)
(** * POSIX locks on a file: what each owner holds

    The chain of an inode has the other kinds of locks first, then the POSIX locks,
    owner by owner.  [holds] is what an owner holds on a byte; the theorems say
    what [__posix_lock_file] makes of it, and that owners exclude each other. *)

From stdpp Require Import sorting.
From S2P Require Import Prelude FileLock FileLockRange PosixLock.

Module PosixLockFile.
Import FileLock FileLockRange PosixLock.

Section owners.
Context (nlm_owner : Z -> bool).

Fixpoint locks_of (st : locks) (l : list Z) : list file_lock :=
  match l with
  | [] => []
  | a :: l => match cores st !! a with Some f => f :: locks_of st l | None => locks_of st l end
  end.

(** The POSIX locks of one owner. *)
Definition mine (st : locks) (k : Z * Z) : list file_lock :=
  filter (fun f => IS_POSIX f = true /\ key nlm_owner f = k) (locks_of st (i_flock st)).
Definition holds (st : locks) (k : Z * Z) (x : Z) : option Z := held (mine st k) x.

Definition block_ok (st : locks) (b : (Z * Z) * list Z) : Prop := b.2 <> [] /\ exists R, has st b.2 R /\ segment nlm_owner b.1 R.
Definition other_kind (st : locks) (a : Z) : Prop := exists f, cores st !! a = Some f /\ IS_POSIX f = false.

Record grouped (st : locks) (np : list Z) (bs : list ((Z * Z) * list Z)) : Prop := Grouped {
  c_chain : i_flock st = np ++ concat (bs.*2);
  c_np : Forall (other_kind st) np;
  c_once : NoDup (bs.*1);
  c_blocks : Forall (block_ok st) bs
}.

Definition chain_ok (st : locks) : Prop := links None st /\ exists np bs, grouped st np bs.

Lemma has_locks_of st l R : has st l R -> locks_of st l = R.
Proof. induction 1 as [|a f l R Ha _ IH]; simpl; [done |]. by rewrite Ha, IH. Qed.

Lemma locks_of_app st l1 l2 : locks_of st (l1 ++ l2) = locks_of st l1 ++ locks_of st l2.
Proof. induction l1 as [|a l1 IH]; simpl; [done |]. rewrite IH. by destruct (cores st !! a). Qed.

Lemma locks_of_ext st st' l : (forall a, a ∈ l -> cores st' !! a = cores st !! a) -> locks_of st' l = locks_of st l.
Proof.
  intros H. induction l as [|a l IH]; simpl; [done |]. rewrite H by left. rewrite IH; [done |].
  intros b Hb. apply H. by right.
Qed.

Lemma filter_none {A} (P : A -> Prop) `{forall x, Decision (P x)} l : Forall (fun x => ~ P x) l -> filter P l = [].
Proof. induction 1 as [|x l Hx _ IH]; [done |]. by rewrite filter_cons_False. Qed.

Lemma filter_all {A} (P : A -> Prop) `{forall x, Decision (P x)} l : Forall P l -> filter P l = l.
Proof. induction 1 as [|x l Hx _ IH]; [done |]. by rewrite filter_cons_True, IH. Qed.

Abbreviation is_mine k := (fun f => IS_POSIX f = true /\ key nlm_owner f = k).

(** What is not of the owner [k]. *)
Definition foreign (k : Z * Z) (st : locks) (a : Z) : Prop :=
  exists f, cores st !! a = Some f /\ (IS_POSIX f = false \/ owner_ok nlm_owner f /\ key nlm_owner f <> k).

Lemma foreign_filter k st l : Forall (foreign k st) l -> filter (is_mine k) (locks_of st l) = [].
Proof.
  intros H. apply filter_none. induction H as [|a l (f & E & Hf) _ IH]; simpl; [constructor |]. rewrite E. constructor; [| done].
  intros [Hp Hk]. destruct Hf as [?|[_ ?]]; congruence.
Qed.

Lemma block_foreign k st b : block_ok st b -> b.1 <> k -> Forall (stranger nlm_owner k st) b.2.
Proof.
  destruct b as [k' l]. intros (_ & R & HR & [_ Hg]) Hk. simpl in *. induction HR as [|a f l R Ha _ IH]; [constructor |].
  apply Forall_cons in Hg as [[(_ & Ho & Hkey & _) _] Hg]. constructor; [| by apply IH]. exists f.
  split_and!; try done. congruence.
Qed.

Lemma stranger_foreign k st l : Forall (stranger nlm_owner k st) l -> Forall (foreign k st) l.
Proof. intros H. eapply Forall_impl; [exact H |]. intros a (f & E & H1 & H2). exists f. auto. Qed.

Lemma other_kind_foreign k st l : Forall (other_kind st) l -> Forall (foreign k st) l.
Proof. intros H. eapply Forall_impl; [exact H |]. intros a (f & E & H1). exists f. auto. Qed.

Lemma blocks_foreign k st bs : Forall (block_ok st) bs -> k ∉ bs.*1 -> Forall (stranger nlm_owner k st) (concat (bs.*2)).
Proof.
  induction 1 as [|b bs Hb _ IH]; intros Hk; simpl; [constructor |]. apply not_elem_of_cons in Hk as [Hk1 Hk2].
  apply Forall_app. split; [by apply block_foreign | by apply IH].
Qed.

Lemma segment_mine k st l R : has st l R -> segment nlm_owner k R -> filter (is_mine k) (locks_of st l) = R.
Proof.
  intros HR [_ Hg]. rewrite (has_locks_of _ _ _ HR). apply filter_all. eapply Forall_impl; [exact Hg |].
  by intros f [(? & _ & ? & _) _].
Qed.

(** The chain seen from the owner [k]: its locks [Sa] between [A] and [B]. *)
Record view (k : Z * Z) (st : locks) (A Sa B : list Z) (R : list file_lock) : Prop := View {
  v_chain : i_flock st = A ++ Sa ++ B;
  v_has : has st Sa R;
  v_segment : segment nlm_owner k R;
  v_A : Forall (foreign k st) A;
  v_B : Forall (stranger nlm_owner k st) B;
  v_end : Sa = [] -> B = []
}.

Lemma mine_parts k st A Sa B R :
  i_flock st = A ++ Sa ++ B -> has st Sa R -> segment nlm_owner k R -> Forall (foreign k st) A ->
    Forall (foreign k st) B -> mine st k = R.
Proof.
  intros C HR HS HA HB. unfold mine. rewrite C, !locks_of_app, !filter_app.
  rewrite (foreign_filter k st A HA), (foreign_filter k st B HB), app_nil_r. by apply segment_mine.
Qed.

Lemma segment_other k k' st l R : has st l R -> segment nlm_owner k R -> k' <> k -> filter (is_mine k') (locks_of st l) = [].
Proof.
  intros HR [_ Hg] Hne. rewrite (has_locks_of _ _ _ HR). apply filter_none. eapply Forall_impl; [exact Hg |].
  intros f [(_ & _ & Hk & _) _] [_ Hk']. congruence.
Qed.

Lemma foreign_ext k st st' l : (forall a, a ∈ l -> cores st' !! a = cores st !! a) -> Forall (foreign k st) l ->
  Forall (foreign k st') l.
Proof. rewrite !Forall_forall. intros H Hl a Ha. destruct (Hl a Ha) as (f & E & Hf). exists f. by rewrite H. Qed.

Lemma elem_of_blocks (bs : list ((Z * Z) * list Z)) b a : b ∈ bs -> a ∈ b.2 -> a ∈ concat (bs.*2).
Proof.
  induction bs as [|c bs IH]; [by intros ?%not_elem_of_nil |]. intros [->|Hb]%elem_of_cons Ha; simpl; apply elem_of_app; auto.
Qed.

(** Around the locks of [k] lie the blocks [bs1] and [bs2] of others. *)
Record around (k : Z * Z) (st : locks) (np : list Z) (bs1 bs2 : list ((Z * Z) * list Z)) : Prop := Around {
  a_np : Forall (other_kind st) np;
  a_once : NoDup (k :: bs1.*1 ++ bs2.*1);
  a_blocks : Forall (block_ok st) (bs1 ++ bs2)
}.

Lemma grouped_view k st np bs :
  grouped st np bs -> exists bs1 Sa bs2 R, around k st np bs1 bs2 /\ view k st (np ++ concat (bs1.*2)) Sa (concat (bs2.*2)) R.
Proof.
  intros [C Hnp Hn Hb]. destruct (decide (k ∈ bs.*1)) as [Hk|Hk].
  - apply list_elem_of_fmap in Hk as ([k' Sa] & -> & (bs1 & bs2 & ->)%list_elem_of_split). cbn [fst].
    rewrite fmap_app, fmap_cons in Hn. cbn [fst] in Hn. rewrite Forall_app, Forall_cons in Hb.
    destruct Hb as (Hb1 & (Hne & R & HR & HS) & Hb2).
    assert (Hn' : NoDup (k' :: bs1.*1 ++ bs2.*1)) by (by rewrite Permutation_middle).
    pose proof Hn' as [Hk' _]%NoDup_cons. rewrite not_elem_of_app in Hk'. destruct Hk' as [Hk1 Hk2].
    exists bs1, Sa, bs2, R. split; [split; [done | done | by apply Forall_app] |]. split; try done.
    + by rewrite C, fmap_app, fmap_cons, concat_app, <- app_assoc.
    + apply Forall_app. split; [by apply other_kind_foreign | by apply stranger_foreign, blocks_foreign].
    + by apply blocks_foreign.
  - exists bs, [], [], []. split; [split; rewrite ?app_nil_r; [done | by apply NoDup_cons | done] |]. split; try done.
    + by rewrite C, app_nil_r.
    + constructor.
    + apply segment_nil.
    + apply Forall_app. split; [by apply other_kind_foreign | by apply stranger_foreign, blocks_foreign].
Qed.

Lemma block_ok_ext st st' b : (forall a, a ∈ b.2 -> cores st' !! a = cores st !! a) -> block_ok st b -> block_ok st' b.
Proof. intros H (Hne & R & HR & HS). split; [done |]. exists R. split; [by eapply has_ext | done]. Qed.

(** The locks of [k] change, all others stay. *)
Lemma view_rebuild k st st' np bs1 bs2 Sa R Sa' R' :
  around k st np bs1 bs2 -> view k st (np ++ concat (bs1.*2)) Sa (concat (bs2.*2)) R ->
  i_flock st' = (np ++ concat (bs1.*2)) ++ Sa' ++ concat (bs2.*2) -> has st' Sa' R' -> segment nlm_owner k R' ->
  (forall a, a ∈ (np ++ concat (bs1.*2)) ++ concat (bs2.*2) -> cores st' !! a = cores st !! a) ->
  (exists bs, grouped st' np bs) /\ mine st' k = R' /\ forall k', k' <> k -> mine st' k' = mine st k'.
Proof.
  intros [Hnp Hn Hb] V C' HR' HS' Hsame.
  assert (Hblocks : Forall (block_ok st') (bs1 ++ bs2)).
  { apply Forall_forall. intros b Hb'. rewrite Forall_forall in Hb. eapply block_ok_ext; [| by apply Hb]. intros a Ha.
    apply Hsame.
    rewrite !elem_of_app. apply elem_of_app in Hb' as [Hb'|Hb']; pose proof (elem_of_blocks _ _ _ Hb' Ha); auto. }
  assert (Hnp' : Forall (other_kind st') np).
  { apply Forall_forall. intros a Ha. rewrite Forall_forall in Hnp. destruct (Hnp a Ha) as (f & E & Hf). exists f.
    rewrite Hsame; [done | set_solver]. }
  split_and!.
  - exists (bs1 ++ (if decide (Sa' = []) then [] else [(k, Sa')]) ++ bs2).
    apply Forall_app in Hblocks as [Hb1 Hb2]. apply NoDup_cons in Hn as [Hk Hn]. split; try done.
    + rewrite C', !fmap_app, !concat_app. destruct (decide (Sa' = [])) as [->|]; simpl; by rewrite ?app_nil_r, <- ?app_assoc.
    + rewrite !fmap_app. destruct (decide (Sa' = [])) as [->|]; [done |]. simpl. rewrite <- Permutation_middle.
      by apply NoDup_cons.
    + rewrite !Forall_app. split_and!; try done. destruct (decide (Sa' = [])); [constructor |].
      constructor; [| constructor]. split; [done |]. by exists R'.
  - eapply mine_parts; [exact C' | exact HR' | done | |].
    + eapply foreign_ext; [| apply V]. intros a Ha. apply Hsame. apply elem_of_app. by left.
    + eapply foreign_ext; [| by apply stranger_foreign, V]. intros a Ha. apply Hsame. apply elem_of_app. by right.
  - intros k' Hne. unfold mine. rewrite C', (v_chain _ _ _ _ _ _ V).
    set (A := np ++ _) in *. set (B := concat (bs2.*2)) in *. rewrite !locks_of_app, !filter_app.
    rewrite (segment_other k k' st' Sa' R'), (segment_other k k' st Sa R) by (done || apply V). cbn [app].
    rewrite (locks_of_ext st st' A), (locks_of_ext st st' B); [done | |]; intros a Ha; apply Hsame, elem_of_app; auto.
Qed.

(** ** The searches *)

Lemma skip_loop_ok k st req Sa B R A : forall pre,
  Forall (foreign k st) A -> owned nlm_owner k (strip req) -> has st Sa R -> segment nlm_owner k R -> (Sa = [] -> B = []) ->
  skip_loop st req pre (A ++ Sa ++ B) = Some (pre ++ A, Sa ++ B).
Proof.
  induction A as [|a A IH]; intros pre HA Ho HR HS Hend.
  - rewrite app_nil_r. cbn [app]. destruct HR as [|a f Sa R Ha HR]; [by rewrite (Hend eq_refl) |]. cbn [skip_loop app].
    apply cores_inv in Ha as (fl & E & <-). unfold get. rewrite E. cbn [mbind option_bind].
    destruct HS as [_ Hg]. apply Forall_cons in Hg as [[Hf _] _]. pose proof Hf as (Hp & _).
    change (IS_POSIX fl) with (IS_POSIX (strip fl)).
    change (posix_same_owner req fl) with (posix_same_owner (strip req) (strip fl)).
    by rewrite Hp, (same_owner_in nlm_owner k).
  - apply Forall_cons in HA as [(f & (fl & E & <-)%cores_inv & Hf) HA]. cbn [skip_loop app]. unfold get. rewrite E.
    cbn [mbind option_bind].
    change (IS_POSIX fl) with (IS_POSIX (strip fl)).
    change (posix_same_owner req fl) with (posix_same_owner (strip req) (strip fl)).
    assert (negb (IS_POSIX (strip fl)) || negb (posix_same_owner (strip req) (strip fl)) = true) as ->.
    { destruct Hf as [->|[Hown Hk]]; [done |]. destruct Ho as (_ & Ho & Hk' & _). rewrite (same_owner_key nlm_owner) by done.
      rewrite bool_decide_eq_false_2 by congruence. apply orb_true_r. }
    rewrite IH by done. by rewrite <- app_assoc.
Qed.

Lemma conflict_loop_ok st req l :
  (forall a, a ∈ l -> is_Some (fls st !! a)) ->
  exists c, conflict_loop st req l = Some c /\
  match c with
  | None => forall f, f ∈ locks_of st l -> IS_POSIX f = true -> posix_locks_conflict req f = false
  | Some a => a ∈ l /\ exists fl, fls st !! a = Some fl /\ IS_POSIX fl = true /\ posix_locks_conflict req fl = true
  end.
Proof.
  induction l as [|a l IH]; intros Hl; [exists None; split; [done |]; by intros f ?%not_elem_of_nil |].
  destruct (Hl a) as [fl Ea]; [left |]. destruct IH as (c & E & Hc); [intros b Hb; apply Hl; by right |].
  cbn [conflict_loop]. unfold get. rewrite Ea. cbn [mbind option_bind]. cbn [locks_of]. rewrite (cores_lookup _ _ _ Ea).
  assert (Hskip : (IS_POSIX fl = true -> posix_locks_conflict req fl = false) -> exists c, conflict_loop st req l = Some c /\
    match c with
    | None => forall f, f ∈ strip fl :: locks_of st l -> IS_POSIX f = true -> posix_locks_conflict req f = false
    | Some a0 => a0 ∈ a :: l /\ exists fl0, fls st !! a0 = Some fl0 /\ IS_POSIX fl0 = true /\ posix_locks_conflict req fl0 = true
    end).
  { intros Hfl. exists c. split; [done |]. destruct c as [b|]; [destruct Hc as [Hb Hc]; split; [by right | done] |].
    intros f [->|Hf]%elem_of_cons Hp; [by apply Hfl | by apply Hc]. }
  destruct (IS_POSIX fl) eqn:Ep; cbn [negb]; [| by apply Hskip]. destruct (posix_locks_conflict req fl) eqn:Econf;
    cbn [negb]; [| by apply Hskip].
  exists (Some a). split; [done |]. split; [left | by exists fl].
Qed.

Lemma waiting_loop_ok st l f : links None st -> l ⊆ blocked_list st ->
  exists c, waiting_loop st l f = Some c /\ match c with Some b => is_Some (fls st !! b) | None => True end.
Proof.
  intros L. induction l as [|w l IH]; intros Hl; [by exists None |]. destruct (l_blocked _ _ L w) as (fw & b & E & Hb);
    [set_solver |].
  cbn [waiting_loop]. unfold get. rewrite E. cbn [mbind option_bind]. destruct (posix_same_owner fw f); [| apply IH; set_solver].
  exists (fl_next fw). split; [done |]. rewrite Hb. by eapply (l_next _ _ L).
Qed.

(** More locks in the heap do not matter. *)
Lemma waiting_loop_ext st st1 l f :
  links None st -> l ⊆ blocked_list st -> (forall p g, fls st !! p = Some g -> fls st1 !! p = Some g) ->
    waiting_loop st1 l f = waiting_loop st l f.
Proof.
  intros L Hl Hext. induction l as [|w l IH]; [done |]. destruct (l_blocked _ _ L w) as (fw & b & E & Hb); [set_solver |].
  cbn [waiting_loop]. unfold get. rewrite E, (Hext _ _ E). cbn [mbind option_bind].
  destruct (posix_same_owner fw f); [done |]. apply IH. set_solver.
Qed.

Lemma deadlock_loop_ext st st1 caller fuel : forall i f,
  links None st -> blocked_list st1 = blocked_list st -> (forall p g, fls st !! p = Some g -> fls st1 !! p = Some g) ->
  deadlock_loop fuel st1 i caller f = deadlock_loop fuel st i caller f.
Proof.
  induction fuel as [|fuel IH]; intros i f L Hbl Hext; [done |]. cbn [deadlock_loop]. unfold what_owner_is_waiting_for.
  rewrite Hbl.
  rewrite (waiting_loop_ext st st1) by done. destruct (waiting_loop_ok st (blocked_list st) f L) as (c & E & Hc); [done |].
  rewrite E. cbn [mbind option_bind]. destruct c as [b|]; [| done]. destruct Hc as [fb Eb]. unfold get.
  rewrite Eb, (Hext _ _ Eb). cbn [mbind option_bind].
  destruct (i >? _); [done |]. destruct (posix_same_owner caller fb); [done |]. by apply IH.
Qed.

Lemma deadlock_loop_ok st caller fuel : forall i f, links None st -> i <= 11 -> 12 - i <= Z.of_nat fuel ->
  exists d, deadlock_loop fuel st i caller f = Some d.
Proof.
  induction fuel as [|fuel IH]; intros i f L Hi Hf; [lia |]. cbn [deadlock_loop].
  destruct (waiting_loop_ok st (blocked_list st) f L) as (c & E & Hc); [done |].
  unfold what_owner_is_waiting_for. rewrite E. cbn [mbind option_bind]. destruct c as [b|]; [| eauto]. destruct Hc as [fb Eb].
  unfold get. rewrite Eb. cbn [mbind option_bind]. destruct (Z.gtb_spec i 10); [eauto |].
  destruct (posix_same_owner caller fb); [eauto |]. apply IH; [done | lia | lia].
Qed.

(** ** Conflicts, in terms of what is held *)

(** Nobody else holds anything on [s..e] that excludes a lock of type [T]. *)
Definition free_for (st : locks) (k : Z * Z) (s e T : Z) : Prop :=
  forall k' x t, k' <> k -> s <= x <= e -> holds st k' x = Some t -> T = F_RDLCK /\ t = F_RDLCK.

Definition exclusive (st : locks) : Prop :=
  forall k k' x, k <> k' -> holds st k x = Some F_WRLCK -> holds st k' x = None.

Lemma elem_of_mine st k f : f ∈ mine st k <-> f ∈ locks_of st (i_flock st) /\ IS_POSIX f = true /\ key nlm_owner f = k.
Proof. unfold mine. rewrite list_elem_of_filter. tauto. Qed.

Lemma mine_segment st k : chain_ok st -> segment nlm_owner k (mine st k).
Proof.
  intros [_ (np & bs & G)]. destruct (grouped_view k st np bs G) as (bs1 & Sa & bs2 & R & _ & V).
  rewrite (mine_parts k st (np ++ concat (bs1.*2)) Sa (concat (bs2.*2)) R); try apply V. by apply stranger_foreign, V.
Qed.

Lemma holds_Some st k x t : chain_ok st -> holds st k x = Some t <-> exists f, f ∈ mine st k /\ covers f x /\ fl_type f = t.
Proof. intros H. apply held_Some, mine_segment, H. Qed.

Lemma mine_good st k f : chain_ok st -> f ∈ mine st k -> good nlm_owner k f.
Proof. intros H Hf. destruct (mine_segment st k H) as [_ G]. rewrite Forall_forall in G. by apply G. Qed.

Lemma conflict_iff st k req :
  chain_ok st -> owned nlm_owner k req -> fl_type req = F_RDLCK \/ fl_type req = F_WRLCK ->
  (forall f, f ∈ locks_of st (i_flock st) -> IS_POSIX f = true -> posix_locks_conflict req f = false) <->
  free_for st k (fl_start req) (fl_end req) (fl_type req).
Proof.
  intros Hc Ho HT. pose proof Ho as (_ & Oo & Ok & Or & _). split.
  - intros H k' x t Hk Hx (f & Hf & Hfx & <-)%holds_Some; [| done]. pose proof (mine_good _ _ _ Hc Hf) as [(Fp & Fo & Fk & _) Ft].
    pose proof Hf as (Hin & _)%elem_of_mine. specialize (H f Hin Fp). unfold posix_locks_conflict in H.
    rewrite Fp, (same_owner_key nlm_owner), bool_decide_eq_false_2 in H by (done || congruence).
    unfold locks_overlap, locks_conflict in H. cbn [negb orb] in H.
    unfold covers in Hfx. rewrite !(proj2 (Z.geb_le _ _)) in H by lia. cbn in H. apply orb_false_iff in H as [H1 H2].
    apply Z.eqb_neq in H1, H2. tauto.
  - intros H f Hf Fp. assert (f ∈ mine st (key nlm_owner f)) as Hm by (by apply elem_of_mine).
    pose proof (mine_good _ _ _ Hc Hm) as [(_ & Fo & _ & Fr & _) Ft]. unfold posix_locks_conflict.
    rewrite Fp, (same_owner_key nlm_owner) by done. cbn [negb orb]. case_bool_decide as Hk; [done |].
    destruct (locks_overlap req f) eqn:Eo; [| done]. cbn [negb]. unfold locks_overlap in Eo.
    apply andb_prop in Eo as [E1%Z.geb_le E2%Z.geb_le].
    destruct (H (key nlm_owner f) (Z.max (fl_start req) (fl_start f)) (fl_type f)) as [H1 H2]; [congruence | lia | |].
    { apply holds_Some; [done |]. exists f. split_and!; try done. unfold covers. lia. }
    unfold locks_conflict. by rewrite H1, H2.
Qed.

(** ** The whole function *)

(** Nothing changes on the chain. *)
Lemma chain_ok_ext st st' :
  chain_ok st -> links None st' -> i_flock st' = i_flock st -> (forall a, a ∈ i_flock st -> cores st' !! a = cores st !! a) ->
  chain_ok st' /\ forall k, mine st' k = mine st k.
Proof.
  intros [_ (np & bs & [C Hnp Hn Hb])] L' C' Hsame. split.
  - split; [done |]. exists np, bs. split; [congruence | | done |].
    + apply Forall_forall. intros a Ha. rewrite Forall_forall in Hnp. destruct (Hnp a Ha) as (f & E & Hf). exists f.
      rewrite Hsame; [done |].
      rewrite C. set_solver.
    + apply Forall_forall. intros b Hb'. rewrite Forall_forall in Hb. eapply block_ok_ext; [| by apply Hb].
      intros a Ha. apply Hsame.
      rewrite C, elem_of_app. right. by eapply elem_of_blocks.
  - intros k. unfold mine. rewrite C'. by rewrite (locks_of_ext st st').
Qed.

Definition same_locks (st st' : locks) : Prop := chain_ok st' /\ forall k, mine st' k = mine st k.

(** The objects that the allocator hands out are not in use. *)
Definition fresh (st : locks) (request : Z) (obj : option (Z * file_lock)) : Prop :=
  match obj with
  | Some (n, fl) => fls st !! n = None /\ n <> request /\ fl_next fl = None /\ fl_block fl = []
  | None => True
  end.

Lemma chain_lookup st a : chain_ok st -> a ∈ i_flock st -> exists fl, fls st !! a = Some fl /\ fl_next fl = None.
Proof. intros [L _]. by apply (l_chain _ _ L). Qed.

Lemma lock_alloc_ok st request obj :
  chain_ok st -> fresh st request obj ->
  exists st' new, locks_alloc_lock obj st = (new, st') /\ same_locks st st' /\ i_flock st' = i_flock st /\ new = fst <$> obj /\
    (forall n, new = Some n -> idle st' n /\ n <> request) /\ (forall p f, fls st !! p = Some f -> fls st' !! p = Some f) /\
    (forall p, fls st' !! p = None <-> fls st !! p = None /\ new <> Some p) /\
      file_lock_list st' = file_lock_list st /\ blocked_list st' = blocked_list st.
Proof.
  intros Hc Hf. destruct obj as [[n fl]|]; simpl in *.
  2:{ exists st, None. split_and!; try done. intros p. split; [by split | tauto]. }
  destruct Hf as (Hn & Hne & Hx & Hb). eexists _, (Some n). split; [done |]. pose proof Hc as [L _].
  assert (Hold : forall p f, fls st !! p = Some f -> <[n := fl]> (fls st) !! p = Some f) by (intros p f E;
    rewrite lookup_insert_ne; [done | congruence]).
  split_and!; try done.
  - eapply chain_ok_ext; [done | by eapply links_fresh | done |]. intros a Ha. destruct (chain_lookup _ _ Hc Ha) as (f & E & _).
    unfold cores. cbn [fls set_fls]. by rewrite !lookup_fmap, (Hold _ _ E), E.
  - intros m [= <-]. split; [| done]. split; cbn.
    + exists fl. by rewrite lookup_insert_eq.
    + intros Ha. destruct (chain_lookup _ _ Hc Ha) as (f & E & _). congruence.
    + intros Ha. destruct (l_list _ _ L n Ha). congruence.
  - intros p. cbn. rewrite lookup_insert_None. split; [intros [? ?]; split; congruence | intros [? ?]; split; congruence].
Qed.

Lemma free_unused_ok st p :
  chain_ok st -> (forall n, p = Some n -> idle st n) ->
  exists st', free_unused p st = Some st' /\ same_locks st st' /\ (forall n, p <> Some n -> idle st n -> idle st' n) /\
    (forall q, p <> Some q -> fls st' !! q = fls st !! q).
Proof.
  intros Hc Hp. destruct p as [n|]; [| exists st; by split_and!].
  destruct (Hp n eq_refl) as [(fn & E & H1 & H2) H3 H4]. pose proof Hc as [L _].
  cbn [free_unused]. rewrite (free_lock_ok None st n fn) by done. eexists. split; [done |]. split_and!.
  - eapply chain_ok_ext; [done | by eapply links_delete | done |]. intros a Ha. unfold cores. cbn [fls set_fls].
    rewrite !lookup_fmap, lookup_delete_ne by congruence. done.
  - intros m Hm. eapply idle_frame; [apply frame_delete |]. intros ->%list_elem_of_singleton. done.
  - intros q Hq. cbn. rewrite lookup_delete_ne; [done | congruence].
Qed.

Lemma ranges_start k R req :
  segment nlm_owner k R -> owned nlm_owner k (strip req) ->
  ranges nlm_owner k R (fl_start req) (fl_end req) (fl_type req) [] R (strip req) false false false.
Proof.
  intros HS Ho. pose proof Ho as (_ & _ & _ & Hr & _). split; try done; try (by constructor); cbn in *; lia.
Qed.

(** What the lock request does when nothing is in its way. *)
Lemma apply_ok pid st request req k new_fl new_fl2 :
  chain_ok st -> fls st !! request = Some req -> fl_next req = None -> request ∉ i_flock st -> owned nlm_owner k (strip req) ->
  fl_type req = F_RDLCK \/ fl_type req = F_WRLCK \/ fl_type req = F_UNLCK ->
  (forall n, new_fl = Some n -> idle st n /\ n <> request) -> (forall n, new_fl2 = Some n -> idle st n /\ n <> request) ->
  (forall n, new_fl = Some n -> new_fl2 <> Some n) ->
  exists st' err nf nf2, ('(pre, post) ← skip_loop st req [] (i_flock st); c ← own_loop post st pre request None None false;
    finish pid c new_fl new_fl2) = Some (st', err, nf, nf2) /\ chain_ok st' /\
  (forall n, nf = Some n -> idle st' n) /\ (forall n, nf2 = Some n -> idle st' n) /\ (forall n, nf = Some n -> nf2 <> Some n) /\
  (forall k', k' <> k -> mine st' k' = mine st k') /\
  ((err = 0 /\ forall x, holds st' k x = if bool_decide (fl_start req <= x <= fl_end req)
                                        then (if fl_type req =? F_UNLCK then None else Some (fl_type req)) else holds st k x) \/
   (mine st' k = mine st k /\
     (err = - ENOLCK /\ (new_fl = None /\ fl_type req <> F_UNLCK \/ new_fl2 = None /\ 0 < fl_start req) \/
      err = - ENOENT /\ fl_type req = F_UNLCK /\ fl_flags req .& FL_EXISTS <> 0 /\
      forall x, fl_start req <= x <= fl_end req -> holds st k x = None))).
Proof.
  intros Hc Hreq Hn Hout Ho HT Hn1 Hn2 Hn12. pose proof Hc as [L (np & bs & G)].
  destruct (grouped_view k st np bs G) as (bs1 & Sa & bs2 & R & Hard & V). pose proof V as [C HR HS HA HB Hend].
  set (A := np ++ concat (bs1.*2)) in *. set (B := concat (bs2.*2)) in *.
  assert (Emine : mine st k = R) by (eapply mine_parts; eauto; by apply stranger_foreign).
  rewrite C, (skip_loop_ok k st req Sa B R A []) by done. cbn [mbind option_bind app].
  assert (Hat : loop_at nlm_owner k st A [] Sa B request [] R (strip req) false).
  { split; try done; [by rewrite app_nil_r | constructor | by exists req]. }
  destruct (own_loop_ok nlm_owner k R (fl_start req) (fl_end req) (fl_type req) (request :: Sa) A B Sa st [] request []
    R (strip req) false false false Hat)
    as (c & Pa & Qa & P & Q & r & inl & hl & added' & right_ & both & Eloop & LE);
      [by apply ranges_start | set_solver | set_solver | set_solver |].
  rewrite app_nil_r in Eloop. rewrite Eloop. cbn [mbind option_bind].
  assert (Hfr : forall n, idle st n /\ n <> request -> n ∉ request :: Sa).
  { intros n [[_ Hi _] Hne]. rewrite not_elem_of_cons. split; [done |]. intros Hin. apply Hi. rewrite C. set_solver. }
  destruct (e_touched _ _ _ _ _ _ _ _ _ _ _ _ _ _ _ _ _ _ _ _ _ _ _ LE) as (HreqX & _ & _).
  pose proof (e_frame _ _ _ _ _ _ _ _ _ _ _ _ _ _ _ _ _ _ _ _ _ _ _ LE) as F.
  assert (Hidle : forall n, idle st n /\ n <> request -> idle (c_st c) n /\ n <> c_request c).
  { intros n Hi. pose proof (Hfr n Hi) as Hx. split; [by eapply idle_frame; [exact F | | apply Hi] |]. intros ->. done. }
  destruct (finish_ok nlm_owner k pid _ _ _ _ _ _ _ _ _ _ _ _ _ _ _ _ _ _ _ _ new_fl new_fl2 LE)
    as (st' & err & nf & nf2 & E & Hres);
    [tauto | by intros n Hn'; apply Hidle, Hn1 | by intros n Hn'; apply Hidle, Hn2 | done |].
  exists st', err, nf, nf2. split; [done |].
  destruct Hres as [(-> & Sa' & R' & N1 & N2 & Hseg & HS' & Hup & F' & HN1 & HN2)|(-> & -> & -> & Herr)].
  2:{ split_and!; try done; [by intros n Hn'; apply Hn1 | by intros n Hn'; apply Hn2 |]. right. split; [done |].
    unfold holds. rewrite Emine.
      destruct Herr as [?|(? & ? & (rq & Erq & Hrq & _) & He & ?)]; [by left | right]. split_and!; try done.
      assert (rq = req) as -> by congruence. by rewrite <- Hrq in He. }
  assert (Hused : forall new nf N, leftover new nf N -> (forall n, n ∈ N -> new = Some n) /\
    (forall n, nf = Some n -> new = Some n /\ N = [])).
  { intros new nf0 N [[-> ->]|(n & -> & -> & ->)]; split; try done;
      [by intros n ?%not_elem_of_nil | by intros m ->%list_elem_of_singleton]. }
  destruct (Hused _ _ _ HN1) as [Hu1 Hl1], (Hused _ _ _ HN2) as [Hu2 Hl2].
  assert (Ftot : frame ((request :: Sa) ++ N1 ++ N2) st st') by (trans (c_st c);
    [eapply frame_mono; [| exact F]; set_solver | done]).
  assert (Hsame : forall a, a ∈ A ++ B -> cores st' !! a = cores st !! a).
  { intros a Ha. assert (a ∈ i_flock st) as Hin by (rewrite C; set_solver). destruct (chain_lookup _ _ Hc Hin) as (f & Ef & Hnf).
    pose proof (l_once _ _ L) as Hnd. rewrite C in Hnd. unfold cores. rewrite !lookup_fmap, Ef.
    rewrite (f_locks _ _ _ Ftot a f); [done | | done | done].
    rewrite not_elem_of_app, not_elem_of_cons, not_elem_of_app. split_and!.
    - congruence.
    - intros HSa. apply NoDup_app in Hnd as (_ & Hd1 & (_ & Hd2 & _)%NoDup_app).
      apply elem_of_app in Ha as [Ha|Ha]; [apply (Hd1 a Ha); set_solver | by apply (Hd2 a)].
    - intros Hin1%Hu1. by destruct (Hn1 _ Hin1) as [[_ ? _] _].
    - intros Hin2%Hu2. by destruct (Hn2 _ Hin2) as [[_ ? _] _]. }
  destruct Hseg as [L' C' HR' HB']. destruct (view_rebuild k st st' np bs1 bs2 Sa R Sa' R' Hard V C' HR' HS' Hsame)
    as ([bs' G'] & Emine' & Hothers).
  split_and!; try done.
  - split; [done |]. by exists np, bs'.
  - intros n Hn'. destruct (Hl1 n Hn') as [Hnew ->]. pose proof (Hn1 n Hnew) as Hi. eapply idle_frame; [exact Ftot | | apply Hi].
    rewrite !not_elem_of_app. split_and!; [by apply Hfr | apply not_elem_of_nil | intros Hin%Hu2; by eapply Hn12].
  - intros n Hn'. destruct (Hl2 n Hn') as [Hnew ->]. pose proof (Hn2 n Hnew) as Hi. eapply idle_frame; [exact Ftot | | apply Hi].
    rewrite !not_elem_of_app. split_and!; [by apply Hfr | intros Hin%Hu1; by eapply Hn12 | apply not_elem_of_nil].
  - intros n Hn' Hn''. destruct (Hl1 n Hn'), (Hl2 n Hn''). by eapply Hn12.
  - left. split; [done |]. intros x. unfold holds. rewrite Emine', Emine. apply Hup.
Qed.

(** The request is refused, or waits for the lock [a]. *)
Definition refused (st st' : locks) (request a : Z) (req fl : file_lock) (err : Z) : Prop :=
  (fl_flags req .& FL_SLEEP = 0 /\ err = - EAGAIN) \/
  (fl_flags req .& FL_SLEEP <> 0 /\ posix_locks_deadlock st req fl = Some true /\ err = - EDEADLK) \/
  (fl_flags req .& FL_SLEEP <> 0 /\ posix_locks_deadlock st req fl = Some false /\ err = FILE_LOCK_DEFERRED /\
   (fl_next <$> fls st' !! request) = Some (Some a) /\ (fl_block <$> fls st' !! a) = Some (fl_block fl ++ [request])).

Lemma blocked_ok st request req a fl :
  chain_ok st -> fls st !! request = Some req -> fl_next req = None -> fl_block req = [] -> request ∉ i_flock st ->
  a ∈ i_flock st -> fls st !! a = Some fl -> posix_locks_conflict req fl = true ->
  exists st' err, blocked st request a = Some (st', err) /\ same_locks st st' /\
    (forall n, idle st n -> n <> request -> idle st' n) /\
    refused st st' request a req fl err.
Proof.
  intros Hc Hreq Hn Hb Hout Ha Hfl Hconf. pose proof Hc as [L _]. unfold blocked, get, refused. rewrite Hreq, Hfl.
  cbn [mbind option_bind].
  destruct (Z.eqb_spec (fl_flags req .& FL_SLEEP) 0) as [Hs|Hs]; [exists st, (- EAGAIN); split_and!; try done; by left |].
  destruct (deadlock_loop_ok st req 13 0 fl L) as [d Ed]; [lia | lia |]. fold (posix_locks_deadlock st req fl) in Ed.
  rewrite Ed. cbn [mbind option_bind].
  destruct d; [exists st, (- EDEADLK); split_and!; try done; right; by left |].
  destruct (chain_lookup _ _ Hc Ha) as (fl' & E & Hnf). assert (fl' = fl) as -> by congruence.
  destruct (insert_block_ok st a request fl req L Hfl Hreq Hnf Hn Hb) as (st' & Ei & L' & Ec & Ech & Eh); try done;
    [congruence |].
  rewrite Ei. cbn [mbind option_bind]. exists st', FILE_LOCK_DEFERRED. split; [done |]. split_and!.
  - apply chain_ok_ext; try done. intros b Hb'. by rewrite Ec.
  - intros n [(fn & En & H1 & H2) H3 H4] Hne. split; [| by rewrite Ech |].
    + exists fn. rewrite Eh, lookup_insert_ne, lookup_insert_ne by (congruence || (intros ->; done)). done.
    + assert (file_lock_list st' = file_lock_list st) as ->; [| done]. revert Ei. unfold locks_insert_block, get.
      rewrite Hfl, Hreq. cbn [mbind option_bind].
      rewrite bool_decide_eq_true_2, (modify_Some _ _ _ _ Hfl) by done. cbn [mbind option_bind].
      rewrite (modify_Some _ _ _ req) by (cbn; rewrite lookup_insert_ne by congruence; done). cbn [mbind option_bind].
      intros [= <-]. by destruct (IS_POSIX fl).
  - right. right. split_and!; try done.
    + by rewrite Eh, lookup_insert_eq.
    + rewrite Eh, lookup_insert_ne, lookup_insert_eq by congruence. done.
Qed.

Lemma free_both_ok st nf nf2 :
  chain_ok st -> (forall n, nf = Some n -> idle st n) -> (forall n, nf2 = Some n -> idle st n) ->
    (forall n, nf = Some n -> nf2 <> Some n) ->
  exists st1 st', free_unused nf st = Some st1 /\ free_unused nf2 st1 = Some st' /\ same_locks st st' /\
    (forall q, nf <> Some q -> nf2 <> Some q -> fls st' !! q = fls st !! q).
Proof.
  intros Hc H1 H2 H12. destruct (free_unused_ok st nf Hc H1) as (st1 & E1 & [C1 S1] & I1 & F1).
  destruct (free_unused_ok st1 nf2 C1) as (st2 & E2 & [C2 S2] & I2 & F2).
  { intros n Hn. apply I1; [| by apply H2]. intros Hn'. by eapply H12. }
  exists st1, st2. split_and!; try done.
  - split; [done |]. intros k. by rewrite S2, S1.
  - intros q Hq1 Hq2. by rewrite F2, F1.
Qed.

Lemma refused_ext st st1 st2 st' request a req fl err :
  refused st1 st2 request a req fl err -> posix_locks_deadlock st1 req fl = posix_locks_deadlock st req fl ->
  fls st' !! request = fls st2 !! request -> fls st' !! a = fls st2 !! a -> refused st st' request a req fl err.
Proof. unfold refused. intros H E1 E2 E3. rewrite E2, E3, <- E1. exact H. Qed.

(** A request as the callers make it: a lock of its own, not in use. *)
Record request_ok (st : locks) (request : Z) (req : file_lock) : Prop := RequestOk {
  q_lock : fls st !! request = Some req;
  q_next : fl_next req = None;
  q_block : fl_block req = [];
  q_out : request ∉ i_flock st;
  q_owned : owned nlm_owner (key nlm_owner req) req;
  q_type : fl_type req = F_RDLCK \/ fl_type req = F_WRLCK \/ fl_type req = F_UNLCK
}.

Definition fresh_pair (st : locks) (request : Z) (obj obj2 : option (Z * file_lock)) : Prop :=
  fresh st request obj /\ fresh st request obj2 /\ forall n f f2, obj = Some (n, f) -> obj2 <> Some (n, f2).

(** The objects that [__posix_lock_file] allocates at its start. *)
Lemma prepare_ok st request req obj obj2 :
  chain_ok st -> request_ok st request req -> fresh_pair st request obj obj2 ->
  exists st1 new_fl new_fl2,
    (if (fl_flags req .& FL_ACCESS =? 0)
        && (negb (fl_type req =? F_UNLCK) || negb (fl_start req =? 0) || negb (fl_end req =? OFFSET_MAX))
     then let '(new_fl, st) := locks_alloc_lock obj st in
          let '(new_fl2, st) := locks_alloc_lock obj2 st in (new_fl, new_fl2, st)
     else (None, None, st)) = (new_fl, new_fl2, st1) /\
    same_locks st st1 /\ i_flock st1 = i_flock st /\ blocked_list st1 = blocked_list st /\ request_ok st1 request req /\
    (forall p f, fls st !! p = Some f -> fls st1 !! p = Some f) /\
    (forall n, new_fl = Some n -> idle st1 n /\ n <> request) /\ (forall n, new_fl2 = Some n -> idle st1 n /\ n <> request) /\
    (forall n, new_fl = Some n -> new_fl2 <> Some n) /\
    (fl_flags req .& FL_ACCESS = 0 -> new_fl = None /\ fl_type req <> F_UNLCK \/ new_fl2 = None /\ 0 < fl_start req ->
      obj = None \/ obj2 = None).
Proof.
  intros Hc [Q1 Q2 Q3 Q4 Q5 Q6] (F1 & F2 & F12). destruct (fl_flags req .& FL_ACCESS =? 0) eqn:Eacc;
    [destruct (negb (fl_type req =? F_UNLCK) || negb (fl_start req =? 0) || negb (fl_end req =? OFFSET_MAX)) eqn:Eneed
      |]; cbn [andb].
  - destruct (lock_alloc_ok st request obj Hc F1) as (st1 & new & E1 & [C1 S1] & A1 & N1 & I1 & O1 & D1 & L1 & B1). rewrite E1.
    assert (F2' : fresh st1 request obj2).
    { destruct obj2 as [[n2 f2]|]; [| done]. destruct F2 as (Hn & ? & ? & ?). split_and!; try done. apply D1. split; [done |].
      rewrite N1. destruct obj as [[n f]|]; [| done]. intros [= ->]. by eapply F12. }
    destruct (lock_alloc_ok st1 request obj2 C1 F2') as (st2 & new2 & E2 & [C2 S2] & A2 & N2 & I2 & O2 & D2 & L2 & B2).
    rewrite E2.
    exists st2, new, new2. split; [done |]. split_and!; try done.
    + split; [done |]. intros k. by rewrite S2, S1.
    + by rewrite A2, A1.
    + by rewrite B2, B1.
    + split; try done; [by apply O2, O1 | by rewrite A2, A1].
    + auto.
    + intros n Hn. destruct (I1 n Hn) as [[(fn & En & ? & ?) ? ?] Hne]. split; [| done].
      split; [exists fn; split_and!; auto | by rewrite A2 | by rewrite L2].
    + intros n Hn Hn2. rewrite N1 in Hn. rewrite N2 in Hn2. destruct obj as [[n1 f1]|], obj2 as [[n2 f2]|];
        simplify_eq/=. by eapply F12.
    + intros _ H. rewrite N1, N2 in H. destruct obj, obj2; cbn in H; destruct H as [[? _]|[? _]]; simplify_eq; auto.
  - exists st, None, None. split_and!; try done. intros _ H. rewrite !orb_false_iff, !negb_false_iff, !Z.eqb_eq in Eneed.
    destruct Eneed as [[? ?] _]. destruct H as [[_ ?]|[_ ?]]; [done | lia].
  - exists st, None, None. split_and!; try done. apply Z.eqb_neq in Eacc. done.
Qed.

(** Granting a lock that nobody else is in the way of keeps the owners apart. *)
Lemma exclusive_granted st st' k s e T :
  exclusive st -> (T = F_UNLCK \/ free_for st k s e T) -> (forall k' x, k' <> k -> holds st' k' x = holds st k' x) ->
  (forall x, holds st' k x = if bool_decide (s <= x <= e) then (if T =? F_UNLCK then None else Some T) else holds st k x) ->
  exclusive st'.
Proof.
  intros Hex Hfree Hothers Hown k1 k2 x Hne H1. destruct (decide (k1 = k)) as [->|Hk1].
  - rewrite Hothers by done. rewrite Hown in H1. case_bool_decide as Hx; [| by eapply Hex].
    destruct (Z.eqb_spec T F_UNLCK); [done |]. destruct Hfree as [?|Hfree]; [done |]. injection H1 as ->.
    destruct (holds st k2 x) as [t|] eqn:E; [| done]. by destruct (Hfree k2 x t (not_eq_sym Hne) Hx E).
  - rewrite Hothers in H1 by done. destruct (decide (k2 = k)) as [->|Hk2]; [| rewrite Hothers by done; by eapply Hex].
    rewrite Hown. case_bool_decide as Hx; [| by eapply Hex]. destruct (Z.eqb_spec T F_UNLCK); [done |].
    destruct Hfree as [?|Hfree]; [done |].
    by destruct (Hfree k1 x F_WRLCK Hk1 Hx H1).
Qed.

(** The search for a conflict, among the locks that [st] and [st1] have. *)
Lemma conflict_ok st st1 request req :
  chain_ok st -> request_ok st request req -> i_flock st1 = i_flock st -> (forall p f, fls st !! p = Some f ->
    fls st1 !! p = Some f) ->
  exists c, (if fl_type req =? F_UNLCK then Some None else conflict_loop st1 req (i_flock st1)) = Some c /\
  match c with
  | None => fl_type req = F_UNLCK \/ free_for st (key nlm_owner req) (fl_start req) (fl_end req) (fl_type req)
  | Some a => fl_type req <> F_UNLCK /\ ~ free_for st (key nlm_owner req) (fl_start req) (fl_end req) (fl_type req) /\
    a ∈ i_flock st /\
      exists fl, fls st !! a = Some fl /\ posix_locks_conflict req fl = true
  end.
Proof.
  intros Hc Hq Ech Hext. pose proof (q_owned _ _ _ Hq) as Ho. pose proof (q_type _ _ _ Hq) as HT.
  destruct (Z.eqb_spec (fl_type req) F_UNLCK) as [|Hne]; [exists None; auto |].
  assert (Hcores : forall a, a ∈ i_flock st -> cores st1 !! a = cores st !! a).
  { intros a Ha. destruct (chain_lookup _ _ Hc Ha) as (f & E & _). unfold cores. by rewrite !lookup_fmap, E, (Hext _ _ E). }
  destruct (conflict_loop_ok st1 req (i_flock st1)) as (c & E & Hres).
  { intros a Ha. rewrite Ech in Ha. destruct (chain_lookup _ _ Hc Ha) as (f & E & _). eauto. }
  exists c. split; [done |]. rewrite Ech in Hres. pose proof (conflict_iff st _ req Hc Ho ltac:(tauto)) as Hiff.
  destruct c as [a|].
  - destruct Hres as (Ha & fl & E1 & Hp & Hconf). destruct (chain_lookup _ _ Hc Ha) as (f & E0 & _).
    assert (f = fl) as -> by (rewrite (Hext _ _ E0) in E1; congruence). split_and!; try done; [| by exists fl].
    intros Hfree. apply Hiff with (f := strip fl) in Hfree; [| | done].
    + change (posix_locks_conflict req (strip fl)) with (posix_locks_conflict req fl) in Hfree. congruence.
    + apply list_elem_of_split in Ha as (l1 & l2 & ->). rewrite locks_of_app. cbn [locks_of].
      rewrite (cores_lookup _ _ _ E0). set_solver.
  - right. apply Hiff. by rewrite (locks_of_ext st st1) in Hres.
Qed.

(** C3: [__posix_lock_file] does what fcntl(2) says.  If no other owner holds a conflicting lock, the bytes of the
    request become locked as asked for (or unlocked), every other byte and every other owner is left alone,
    and the chain stays grouped by owner, sorted and merged; it fails only for lack of memory, or when asked to
    unlock what is not locked, and then changes nothing.  Otherwise the request is refused,
    or waits in the queue of a lock that conflicts with it.  Owners that exclude each other
    before do so after, whoever waits for a lock still conflicts with it, and no pointer is followed that does not
    point to a lock. *)
Theorem posix_lock_file_correct pid st request req conflock obj obj2 :
  let k := key nlm_owner req in
  chain_ok st -> request_ok st request req -> fresh_pair st request obj obj2 ->
  exists st' err conf, __posix_lock_file pid st request conflock obj obj2 = Some (st', err, conf) /\ chain_ok st' /\
    (exclusive st -> exclusive st') /\ (forall k' x, k' <> k -> holds st' k' x = holds st k' x) /\
    (((fl_type req = F_UNLCK \/ free_for st k (fl_start req) (fl_end req) (fl_type req)) /\ conf = conflock /\
      ((err = 0 /\ fl_flags req .& FL_ACCESS = 0 /\
        forall x, holds st' k x = if bool_decide (fl_start req <= x <= fl_end req)
                                  then (if fl_type req =? F_UNLCK then None else Some (fl_type req)) else holds st k x) \/
       (forall x, holds st' k x = holds st k x) /\
       (err = 0 /\ fl_flags req .& FL_ACCESS <> 0 \/ err = - ENOLCK /\ (obj = None \/ obj2 = None) \/
        err = - ENOENT /\ fl_type req = F_UNLCK /\ fl_flags req .& FL_EXISTS <> 0 /\
        forall x, fl_start req <= x <= fl_end req -> holds st k x = None))) \/
     (fl_type req <> F_UNLCK /\ ~ free_for st k (fl_start req) (fl_end req) (fl_type req) /\
       (forall x, holds st' k x = holds st k x) /\
      exists a fl, a ∈ i_flock st /\ fls st !! a = Some fl /\ posix_locks_conflict req fl = true /\
        conf = ((fun c => __locks_copy_lock c fl) <$> conflock) /\ refused st st' request a req fl err)).
Proof.
  intros k Hc Hq Hf. destruct (prepare_ok st request req obj obj2 Hc Hq Hf)
    as (st1 & new_fl & new_fl2 & E1 & [C1 S1] & A1 & B1 & Q1 & O1 & N1 & N2 & N12 & Hmem).
  pose proof (q_lock _ _ _ Hq) as Hreq. pose proof (q_owned _ _ _ Hq) as Ho. pose proof (q_type _ _ _ Hq) as HT.
  assert (Hsame1 : forall k x, holds st1 k x = holds st k x) by (intros k' x; unfold holds; by rewrite S1).
  destruct (conflict_ok st st1 request req Hc Hq A1 O1) as (c & Ec & Hconf).
  unfold __posix_lock_file. assert (get st request = Some req) as -> by done. cbn [mbind option_bind]. rewrite E1, Ec.
  cbn [mbind option_bind].
  destruct Q1 as [q1 q2 q3 q4 q5 q6]. destruct c as [a|]; cbn [mbind option_bind].
  - destruct Hconf as (HTn & Hnf & Ha & fl & Hfl & Hcf). assert (get st1 a = Some fl) as -> by by apply O1.
    destruct (blocked_ok st1 request req a fl C1 q1 q2 q3 q4) as (st2 & err & Eb & [C2 S2] & I2 & Href);
      [by rewrite A1 | by apply O1 | done |].
    rewrite Eb. cbn [mbind option_bind].
    destruct (free_both_ok st2 new_fl new_fl2 C2) as (st3 & st4 & E3 & E4 & [C4 S4] & F4); try done;
      [by intros n Hn; destruct (N1 n Hn); apply I2 | by intros n Hn; destruct (N2 n Hn); apply I2 |].
    rewrite E3. cbn [mbind option_bind]. rewrite E4. cbn [mbind option_bind].
    assert (Hh : forall k x, holds st4 k x = holds st k x) by (intros k' x; unfold holds; by rewrite S4, S2, S1).
    eexists _, _, _. split; [done |]. split_and!; try done.
    + intros Hex k1 k2 x. rewrite !Hh. apply Hex.
    + right. split_and!; try done. exists a, fl. split_and!; try done; [by destruct conflock |].
      rewrite <- A1 in Ha. eapply refused_ext; [exact Href | | |].
      * apply deadlock_loop_ext; [apply Hc | done | done].
      * apply F4; intros Hn; [by destruct (N1 _ Hn) | by destruct (N2 _ Hn)].
      * apply F4; intros Hn; [by destruct (N1 _ Hn) as [[] _] | by destruct (N2 _ Hn) as [[] _]].
  - destruct (Z.eqb_spec (fl_flags req .& FL_ACCESS) 0) as [Hacc|Hacc]; cbn [negb].
    + destruct (apply_ok pid st1 request req k new_fl new_fl2 C1 q1 q2 q4 q5 q6 N1 N2 N12)
        as (st2 & err & nf & nf2 & Ea & C2 & I1 & I2 & I12 & Ho2 & Hres).
      rewrite Ea. cbn [mbind option_bind]. destruct (free_both_ok st2 nf nf2 C2 I1 I2 I12) as (st3 & st4 & E3 & E4 & [C4 S4] & _).
      rewrite E3. cbn [mbind option_bind]. rewrite E4. cbn [mbind option_bind].
      assert (Hothers : forall k' x, k' <> k -> holds st4 k' x = holds st k' x) by (intros k' x Hk; unfold holds;
        by rewrite S4, Ho2, S1).
      eexists _, _, _. split; [done |]. split; [done |]. destruct Hres as [[-> Hup]|[Hun Herr]].
      * assert (Hup' : forall x, holds st4 k x = if bool_decide (fl_start req <= x <= fl_end req)
          then (if fl_type req =? F_UNLCK then None else Some (fl_type req)) else holds st k x).
        { intros x. rewrite <- Hsame1, <- Hup. unfold holds. by rewrite S4. }
        split_and!; [by intros Hex; eapply exclusive_granted | done |]. left.
        split_and!; [done | by destruct conflock |]. left. by split_and!.
      * assert (Hh : forall k' x, holds st4 k' x = holds st k' x).
        { intros k' x. destruct (decide (k' = k)) as [->|]; [| by apply Hothers]. unfold holds. by rewrite S4, Hun, S1. }
        split_and!; [intros Hex k1 k2 x; rewrite !Hh; apply Hex | done |]. left.
        split_and!; [done | by destruct conflock |]. right. split; [by intros |].
        destruct Herr as [[-> Hm]|(-> & ? & ? & Hx)]; [right; left; by split; [| apply Hmem] | right; right].
        split_and!; try done.
        intros x Hx'. rewrite <- Hsame1. by apply Hx.
    + destruct (free_both_ok st1 new_fl new_fl2 C1) as (st3 & st4 & E3 & E4 & [C4 S4] & _);
        [by intros n Hn; apply N1 | by intros n Hn; apply N2 | done |].
      cbn [mbind option_bind]. rewrite E3. cbn [mbind option_bind]. rewrite E4. cbn [mbind option_bind].
      assert (Hh : forall k x, holds st4 k x = holds st k x) by (intros k' x; unfold holds; by rewrite S4, S1).
      eexists _, _, _. split; [done |]. split_and!; [done | intros Hex k1 k2 x; rewrite !Hh; apply Hex | by intros |].
      left. split_and!; [done | by destruct conflock |]. right. split; [by intros |]. left. done.
Qed.

(** ** Asking for a conflict, and deadlocks *)

(** [posix_test_lock] and [__posix_lock_file] look for the same lock. *)
Lemma test_conflict_loop st fl l :
  test_loop st fl l = (c ← conflict_loop st fl l; match c with Some a => f ← get st a; Some (Some f) | None => Some None end).
Proof.
  induction l as [|a l IH]; [done |]. cbn [test_loop conflict_loop]. unfold get.
  destruct (fls st !! a) as [f|] eqn:E; [| done]. cbn [mbind option_bind].
  destruct (IS_POSIX f); cbn [andb negb]; [| exact IH]. destruct (posix_locks_conflict fl f); cbn [negb]; [| exact IH].
  cbn [mbind option_bind]. by rewrite E.
Qed.

(** The lock [g] is [n] hops away from [f]: its owner is waited for by the owner of
    the one before. *)
Inductive hops (st : locks) (f : file_lock) : nat -> file_lock -> Prop :=
  | hops_first b g : what_owner_is_waiting_for st f = Some (Some b) -> fls st !! b = Some g -> hops st f 1 g
  | hops_next n b g h : hops st f n g -> what_owner_is_waiting_for st g = Some (Some b) -> fls st !! b = Some h ->
    hops st f (S n) h.

Lemma hops_shift st f b g n h :
  what_owner_is_waiting_for st f = Some (Some b) -> fls st !! b = Some g -> hops st f (S n) h <-> n = 0%nat /\ h = g \/
    hops st g n h.
Proof.
  intros Hb Hg. split.
  - revert h. induction n as [|n IH]; intros h Hh.
    + inversion Hh as [b' g' Hb' Hg'|n' b' g' h' Hbad]; subst; [left; split; congruence | inversion Hbad].
    + inversion Hh as [|n' b' g' h' Hn Hb' Hh']; subst. right. destruct (IH _ Hn) as [[En Eg]|Hr]; subst; by econstructor.
  - intros [[En Eh]|Hh]; [subst; by econstructor |]. induction Hh as [b' g' Hb' Hg'|n b' g' h' Hn IH Hb' Hh'];
      [| by econstructor].
    eapply hops_next; [by econstructor | done | done].
Qed.

Lemma deadlock_loop_spec st caller fuel : forall i f d,
  i <= 11 -> 12 - i <= Z.of_nat fuel -> deadlock_loop fuel st i caller f = Some d ->
  d = true <-> exists n g, (Z.of_nat n <= 11 - i) /\ hops st f n g /\ posix_same_owner caller g = true.
Proof.
  induction fuel as [|fuel IH]; intros i f d Hi Hf; [done |]. cbn [deadlock_loop].
  destruct (what_owner_is_waiting_for st f) as [[b|]|] eqn:Ew; cbn [mbind option_bind]; [| | done].
  - unfold get. destruct (fls st !! b) as [g|] eqn:Eg; cbn [mbind option_bind]; [| done].
    destruct (Z.gtb_spec i 10) as [Hbig|Hsmall].
    + intros [= <-]. split; [done |]. intros (n & h & Hn & Hh & _). destruct Hh; lia.
    + destruct (posix_same_owner caller g) eqn:Eo.
      * intros [= <-]. split; [| done]. intros _. exists 1%nat, g. split_and!; try done; [lia | by econstructor].
      * intros E. rewrite (IH (i + 1) g d) by (lia || done). split.
        -- intros (n & h & Hn & Hh & Hs). exists (S n), h. split_and!; try done; [lia |]. eapply hops_shift; eauto.
        -- intros (n & h & Hn & Hh & Hs). destruct n as [|n]; [inversion Hh |].
          eapply hops_shift in Hh as [[En Eh]|Hh]; eauto; [congruence |].
           exists n, h. split_and!; try done. lia.
  - intros [= <-]. split; [done |]. intros (n & h & Hn & Hh & _). exfalso. induction Hh as [b g Hb|]; [congruence |].
    apply IHHh. lia.
Qed.

(** F_GETLK tells the truth: [posix_test_lock] says F_UNLCK exactly when nobody else holds a conflicting lock, and
    else describes a lock of the file that conflicts with the request.  A request that would wait for a lock [b] is a
    deadlock, to [posix_locks_deadlock], exactly when at most eleven steps from owner to the lock the owner waits for, starting
    at [b], lead to a lock of the caller. *)
Theorem posix_test_lock_correct pid_vnr st request req b fb :
  chain_ok st -> request_ok st request req -> fl_type req <> F_UNLCK -> fls st !! b = Some fb ->
  (exists r, posix_test_lock pid_vnr st req = Some r /\
     ((free_for st (key nlm_owner req) (fl_start req) (fl_end req) (fl_type req) /\ r = set_type F_UNLCK req) \/
      (~ free_for st (key nlm_owner req) (fl_start req) (fl_end req) (fl_type req) /\
       exists a fl, a ∈ i_flock st /\ fls st !! a = Some fl /\ posix_locks_conflict req fl = true /\ fl_type r = fl_type fl /\
         fl_start r = fl_start fl /\ fl_end r = fl_end fl /\ fl_pid r = match fl_nspid fl with Some p => pid_vnr p
           | None => fl_pid fl end))) /\
  exists d, posix_locks_deadlock st req fb = Some d /\
    (d = true <-> exists n g, (n <= 11)%nat /\ hops st fb n g /\ posix_same_owner req g = true).
Proof.
  intros Hc Hq HT Hb. split.
  - unfold posix_test_lock. rewrite test_conflict_loop.
    destruct (conflict_ok st st request req Hc Hq eq_refl ltac:(auto)) as (c & Ec & Hres).
    rewrite (proj2 (Z.eqb_neq _ _) HT) in Ec. rewrite Ec. cbn [mbind option_bind]. destruct c as [a|].
    + destruct Hres as (_ & Hnf & Ha & fl & Hfl & Hconf). unfold get. rewrite Hfl. cbn [mbind option_bind]. eexists.
      split; [done |]. right. split; [done |].
      exists a, fl. by destruct (fl_nspid fl).
    + eexists. split; [done |]. left. split; [| done]. by destruct Hres.
  - pose proof Hc as [L _]. destruct (deadlock_loop_ok st req 13 0 fb L) as [d Ed]; [lia | lia |]. exists d. split; [exact Ed |].
    rewrite (deadlock_loop_spec st req 13 0 fb d) by (lia || done). split; intros (n & g & Hn & Hh & Hs); exists n, g;
      split_and!; try done; lia.
Qed.
End owners.

(** Owner 7 has a read lock on the first 101 bytes and asks for a write lock inside it. *)
Definition read_lock : file_lock := FileLock None [] 7 FL_POSIX F_RDLCK 7 (Some 7) (Some 3) 0 100 None None.
Definition write_request : file_lock := FileLock None [] 7 FL_POSIX F_WRLCK 7 None (Some 3) 20 30 None None.
Definition one_lock (req : file_lock) : locks := Locks {[ 1 := read_lock; 100 := req ]} [1] [1] [] [].
Definition blank : file_lock := FileLock None [] 0 0 0 0 None None 0 0 None None.

Lemma one_lock_lookup req p f : fls (one_lock req) !! p = Some f -> p = 1 /\ f = read_lock \/ p = 100 /\ f = req.
Proof. unfold one_lock. cbn [fls]. intros [[<- <-]|[_ [<- <-]%lookup_singleton_Some]]%lookup_insert_Some; auto. Qed.

Lemma one_lock_ok req : fl_next req = None -> fl_block req = [] -> chain_ok (fun _ => false) (one_lock req).
Proof.
  intros Hn Hb. assert (Hidle : forall p f, fls (one_lock req) !! p = Some f -> fl_next f = None /\ fl_block f = []).
  { intros p f [[_ ->]|[_ ->]]%one_lock_lookup; done. }
  split.
  - split.
    + intros b fb w E. destruct (Hidle _ _ E) as [_ ->]. split; [by intros ?%not_elem_of_nil |]. intros (fw & Ew & Hx).
      destruct (Hidle _ _ Ew). congruence.
    + intros b fb E. destruct (Hidle _ _ E) as [_ ->]. constructor.
    + intros w fw b Ew Hx. destruct (Hidle _ _ Ew). congruence.
    + intros a ->%list_elem_of_singleton. by exists read_lock.
    + apply NoDup_singleton.
    + by intros w ?%not_elem_of_nil.
    + intros a ->%list_elem_of_singleton. by exists read_lock.
    + intros w fw b fb Ew Hx. destruct (Hidle _ _ Ew). congruence.
  - exists [], [((7, 0), [1])]. split; [done | constructor | apply NoDup_singleton |]. constructor; [| constructor].
    split; [done |].
    exists [strip read_lock]. split; [constructor; [done | constructor] |]. apply segment_one. split; [| by left].
    unfold owned. by split_and!.
Qed.

Lemma posix_lock_file_correct_witness :
  (exists st', __posix_lock_file 7 (one_lock write_request) 100 None (Some (2, blank)) (Some (3, blank)) = Some (st', 0, None) /\
     ((fun a => (fun f => (fl_type f, fl_start f, fl_end f)) <$> fls st' !! a) <$> i_flock st') =
       [Some (F_RDLCK, 0, 19); Some (F_WRLCK, 20, 30); Some (F_RDLCK, 31, 100)]) /\
  exists st' err conf, __posix_lock_file 7 (one_lock write_request) 100 None (Some (2, blank)) (Some (3, blank)) = Some
    (st', err, conf) /\
    chain_ok (fun _ => false) st'.
Proof.
  split; [eexists; split; vm_compute; reflexivity |].
  destruct (posix_lock_file_correct (fun _ => false) 7 (one_lock write_request) 100 write_request None
    (Some (2, blank)) (Some (3, blank)))
    as (st' & err & conf & E & Hc & _).
  - by apply one_lock_ok.
  - split; try done; [by intros ?%list_elem_of_singleton | by right; left].
  - split; [by split_and! |]. split; [by split_and! |]. intros n f f2 [= <- <-]. done.
  - exists st', err, conf. split; [exact E | exact Hc].
Defined.

(** Another owner asks about bytes of it. *)
Definition test_request : file_lock := FileLock None [] 8 FL_POSIX F_WRLCK 8 None (Some 4) 50 60 None None.

Lemma posix_test_lock_correct_witness :
  (fl_pid <$> posix_test_lock (fun p => p + 1000) (one_lock test_request) test_request) = Some 1007 /\
  exists d, posix_locks_deadlock (one_lock test_request) test_request read_lock = Some d /\
    (d = true <-> exists n g, (n <= 11)%nat /\ hops (one_lock test_request) read_lock n g /\
      posix_same_owner test_request g = true).
Proof.
  split; [reflexivity |]. apply (posix_test_lock_correct (fun _ => false) (fun p => p) (one_lock test_request) 100
    test_request 1 read_lock); try done.
  - by apply one_lock_ok.
  - split; try done; [by intros ?%list_elem_of_singleton | by right; left].
Defined.

(** ** The range of a request *)

(** Where [l_whence] counts from. *)
Definition base (c : context) (l : flock) : option Z :=
  if l_whence l =? SEEK_SET then Some 0 else if l_whence l =? SEEK_CUR then Some (f_pos c)
  else if l_whence l =? SEEK_END then Some (i_size c) else None.

(** The first and the last byte that POSIX gives a request that counts from [b]. *)
Definition first_byte (b : Z) (l : flock) : Z := if l_len l <? 0 then b + l_start l + l_len l else b + l_start l.
Definition last_byte (b : Z) (l : flock) : Z :=
  if l_len l =? 0 then OFFSET_MAX else if l_len l <? 0 then b + l_start l - 1 else b + l_start l + l_len l - 1.

Lemma swrap_over w x : 1 <= w -> 2 ^ (w - 1) <= x < 2 ^ w + 2 ^ (w - 1) -> swrap w x = x - 2 ^ w.
Proof.
  intros Hw Hx. unfold swrap. assert (2 ^ w = 2 * 2 ^ (w - 1)) as E by (rewrite <- Z.pow_succ_r by lia; f_equal; lia).
  rewrite <- (Z.mod_add _ (-1)), Z.mod_small by lia. lia.
Qed.

Lemma assign_type_ok nlm_owner c fl l start end_ :
  0 <= start <= end_ -> end_ <= OFFSET_MAX -> nlm_owner (files c) = false ->
  match assign_type (FileLock (fl_next fl) (fl_block fl) (files c) FL_POSIX (fl_type fl) (tgid c) (fl_nspid fl)
    (Some (filp c)) start end_ None None) (l_type l) with
  | inr req => fl_start req = start /\ fl_end req = end_ /\ fl_type req = l_type l /\ owned nlm_owner (files c, 0) req /\
      (l_type l = F_RDLCK \/ l_type l = F_WRLCK \/ l_type l = F_UNLCK)
  | inl err => err = - EINVAL /\ ~ (l_type l = F_RDLCK \/ l_type l = F_WRLCK \/ l_type l = F_UNLCK)
  end.
Proof.
  intros H1 H2 Hn. unfold assign_type. destruct (_ || _) eqn:Et.
  - rewrite !orb_true_iff, !Z.eqb_eq in Et. split_and!; try done; [| tauto]. split; [done |]. unfold owner_ok, key.
    cbn. by rewrite Hn.
  - rewrite !orb_false_iff, !Z.eqb_neq in Et. split; [done | tauto].
Qed.

(** [flock_to_posix_lock] makes of every struct flock, with any 64-bit offset and length, the request for exactly the
    bytes that POSIX says, within the file offsets, owned by the caller and ready for [__posix_lock_file]; or it
    reports EINVAL for a bad whence or type or a range that starts outside the offsets, and EOVERFLOW for one that ends
    outside.  The wrap-around of the sums does not let any range through. *)
Theorem flock_to_posix_lock_correct nlm_owner c fl l :
  0 <= f_pos c < 2 ^ 63 -> 0 <= i_size c < 2 ^ 63 -> - 2 ^ 63 <= l_start l < 2 ^ 63 -> - 2 ^ 63 <= l_len l < 2 ^ 63 ->
    nlm_owner (files c) = false ->
  match base c l, flock_to_posix_lock c fl l with
  | None, r => r = inl (- EINVAL)
  | Some b, inr req =>
      fl_start req = first_byte b l /\ fl_end req = last_byte b l /\ fl_type req = l_type l /\
      owned nlm_owner (files c, 0) req /\ (l_type l = F_RDLCK \/ l_type l = F_WRLCK \/ l_type l = F_UNLCK)
  | Some b, inl err =>
      (err = - EINVAL /\ (b + l_start l < 0 \/ first_byte b l < 0 \/ 2 ^ 63 <= b + l_start l \/
         ~ (l_type l = F_RDLCK \/ l_type l = F_WRLCK \/ l_type l = F_UNLCK))) \/
      err = - EOVERFLOW /\ 2 ^ 63 <= last_byte b l
  end.
Proof.
  intros Hp Hi Hs Hl Hn. unfold flock_to_posix_lock. fold (base c l). destruct (base c l) as [b|] eqn:Eb; [| done].
  assert (Hb : 0 <= b < 2 ^ 63).
  { unfold base in Eb. destruct (_ =? _) in Eb; [injection Eb as <-; lia |]. destruct (_ =? _) in Eb; [injection Eb as <-; lia |].
    destruct (_ =? _) in Eb; [injection Eb as <-; lia | done]. }
  destruct (Z.le_gt_cases (2 ^ 63) (b + l_start l)) as [Hbig|Hsmall].
  { rewrite (swrap_over 64) by lia. zbool. left. auto. }
  rewrite (swrap_small 64 (b + l_start l)) by lia. destruct (Z.ltb_spec (b + l_start l) 0); [left; auto |].
  assert (Hfin : forall start end_, 0 <= start <= end_ -> end_ <= OFFSET_MAX -> start = first_byte b l -> end_ = last_byte b l ->
    match assign_type (FileLock (fl_next fl) (fl_block fl) (files c) FL_POSIX (fl_type fl) (tgid c) (fl_nspid fl)
      (Some (filp c)) start end_ None None) (l_type l) with
    | inr req => fl_start req = first_byte b l /\ fl_end req = last_byte b l /\ fl_type req = l_type l /\
      owned nlm_owner (files c, 0) req /\
        (l_type l = F_RDLCK \/ l_type l = F_WRLCK \/ l_type l = F_UNLCK)
    | inl err => (err = - EINVAL /\ (b + l_start l < 0 \/ first_byte b l < 0 \/ 2 ^ 63 <= b + l_start l \/
        ~ (l_type l = F_RDLCK \/ l_type l = F_WRLCK \/ l_type l = F_UNLCK))) \/ err = - EOVERFLOW /\ 2 ^ 63 <= last_byte b l
    end).
  { intros st en H1 H2 Hst Hen. pose proof (assign_type_ok nlm_owner c fl l st en H1 H2 Hn) as Ha. rewrite <- Hst, <- Hen.
    destruct (assign_type _ _); [left | done]. destruct Ha as [-> Ht]. auto. }
  unfold first_byte, last_byte in *. destruct (Z.gtb_spec (l_len l) 0) as [Hpos|Hneg].
  - destruct (Z.le_gt_cases (2 ^ 63) (b + l_start l + l_len l - 1)) as [Hend|Hend].
    + rewrite (swrap_over 64 (b + l_start l + l_len l)) by lia. rewrite (swrap_small 64) by lia.
      rewrite (proj2 (Z.ltb_ge (b + l_start l) 0)), (proj2 (Z.ltb_lt _ (b + l_start l))) by lia.
      right. split; [done |]. by zbool.
    + assert (s64 (s64 (b + l_start l + l_len l) - 1) = b + l_start l + l_len l - 1) as ->.
      { destruct (Z.eq_dec (b + l_start l + l_len l) (2 ^ 63)) as [->|]; [done |].
        rewrite (swrap_small 64 (b + l_start l + l_len l)) by lia. by rewrite (swrap_small 64) by lia. }
      rewrite (proj2 (Z.ltb_ge (b + l_start l) 0)), (proj2 (Z.ltb_ge (b + l_start l + l_len l - 1) _)) by lia.
      apply Hfin; [lia | lia | |]; by zbool.
  - destruct (Z.ltb_spec (l_len l) 0) as [Hneg'|Hzero].
    + rewrite !(swrap_small 64) by lia. destruct (Z.ltb_spec (b + l_start l + l_len l) 0); [left; auto |].
      rewrite (proj2 (Z.ltb_ge (b + l_start l - 1) _)) by lia. apply Hfin; [lia | lia | done |]. by zbool.
    + rewrite (proj2 (Z.ltb_ge (b + l_start l) 0)), (proj2 (Z.ltb_ge (2 ^ 63 - 1) _)) by lia.
      apply Hfin; [lia | lia | done |]. by zbool.
Qed.

Lemma flock_to_posix_lock_correct_witness :
  let c := Context_ 1000 5000 7 7 3 in
  flock_to_posix_lock c read_lock (Flock F_WRLCK SEEK_END (-100) 50) = inr (FileLock None [] 7 FL_POSIX F_WRLCK 7
    (Some 7) (Some 3) 4900 4949 None None) /\
  match base c (Flock F_WRLCK SEEK_CUR (2 ^ 63 - 1500) 2000), flock_to_posix_lock c read_lock
    (Flock F_WRLCK SEEK_CUR (2 ^ 63 - 1500) 2000) with
  | Some b, inl err => err = - EOVERFLOW /\ 2 ^ 63 <= last_byte b (Flock F_WRLCK SEEK_CUR (2 ^ 63 - 1500) 2000)
  | _, _ => False
  end.
Proof.
  split; [reflexivity |].
  pose proof (flock_to_posix_lock_correct (fun _ => false) (Context_ 1000 5000 7 7 3) read_lock
    (Flock F_WRLCK SEEK_CUR (2 ^ 63 - 1500) 2000)
    ltac:(simpl; lia) ltac:(simpl; lia) ltac:(simpl; lia) ltac:(simpl; lia) eq_refl) as H.
  vm_compute in H |- *. destruct H as [[? _]|H]; [discriminate | exact H].
Defined.
End PosixLockFile.
