(* ===== verification/Timer.v ===== *)
(** * Timers

    kernel/timer.c: the timer wheel of each CPU, setting and deleting timers,
    running the expired ones, the next event for an idle CPU, and rounding to
    whole seconds.  The heap has the timers, whose [base] pointer carries the
    deferrable flag in its low bit as in the source; the lists of a base are
    lists of timer addresses, and unlinking an entry takes it out of the list
    it is in.  Code between a lock and an unlock of a base is one step;
    [__mod_timer] is two, because it releases the old base before it takes the
    new one. *)
From S2P Require Import Prelude.

Module Timer.

(** ** Times *)

Abbreviation time_after a b := (s64 (s64 b - s64 a) <? 0) (only parsing).
Abbreviation time_before a b := (time_after b a) (only parsing).
Abbreviation time_after_eq a b := (s64 (s64 a - s64 b) >=? 0) (only parsing).
Abbreviation time_before_eq a b := (time_after_eq b a) (only parsing).

(** CONFIG_HZ of the OCTEON configuration. *)
Abbreviation HZ := 100 (only parsing).

Definition round_jiffies_common (jiffies j cpu : Z) (force_up : bool) : Z :=
  let original := j in
  let j := u64 (j + s32 (cpu * 3)) in
  let rem := s32 (j mod HZ) in
  let j := if (rem <? HZ / 4) && negb force_up then u64 (j - rem) else u64 (u64 (j - rem) + HZ) in
  let j := u64 (j - s32 (cpu * 3)) in
  if j <=? jiffies then original else j.

Abbreviation __round_jiffies jiffies j cpu := (round_jiffies_common jiffies j cpu false) (only parsing).
Abbreviation __round_jiffies_up jiffies j cpu := (round_jiffies_common jiffies j cpu true) (only parsing).

(** [j0] is the first reading of [jiffies], [jiffies] the second. *)
Definition __round_jiffies_relative (j0 jiffies j cpu : Z) : Z :=
  u64 (round_jiffies_common jiffies (u64 (j + j0)) cpu false - j0).
Definition __round_jiffies_up_relative (j0 jiffies j cpu : Z) : Z :=
  u64 (round_jiffies_common jiffies (u64 (j + j0)) cpu true - j0).

(** ** State *)

Abbreviation TVN_BITS := 6 (only parsing).
Abbreviation TVR_BITS := 8 (only parsing).
Abbreviation TVN_SIZE := (1 .<< TVN_BITS) (only parsing).
Abbreviation TVR_SIZE := (1 .<< TVR_BITS) (only parsing).
Abbreviation TVN_MASK := (TVN_SIZE - 1) (only parsing).
Abbreviation TVR_MASK := (TVR_SIZE - 1) (only parsing).
Abbreviation TBASE_DEFERRABLE_FLAG := 1 (only parsing).
Abbreviation NEXT_TIMER_MAX_DELTA := ((1 .<< 30) - 1) (only parsing).

Inductive vector := tv1 | tv2 | tv3 | tv4 | tv5.
#[export] Instance vector_eq_dec : EqDecision vector.
Proof. solve_decision. Defined.

(** [entry_next] says whether [entry.next] is not NULL. *)
Record timer_list := TimerList {
  entry_next : bool;
  expires : Z;
  function : Z;
  base : Z
}.

(** [work_list] is the local variable of the [__run_timers] that runs on this base. *)
Record tvec_base := TvecBase {
  running_timer : Z;
  timer_jiffies : Z;
  next_timer : Z;
  tv : vector -> list (list Z);
  work_list : list Z
}.

(** [tvec_bases] is the per-CPU variable.  [moving] has the calls of
    [__mod_timer] between two bases: their [new_base] and [expires]. *)
Record timers := Timers {
  heap : gmap Z timer_list;
  bases : gmap Z tvec_base;
  tvec_bases : Z -> Z;
  moving : gmap Z (Z * Z)
}.

Inductive fault := BUG | bad_pointer.
Abbreviation M := (run fault).

Definition get_timer (t : Z) (st : timers) : M timer_list := of_option bad_pointer (heap st !! t).
Definition get_base (b : Z) (st : timers) : M tvec_base := of_option bad_pointer (bases st !! b).
Definition put_timer (f : timer_list -> timer_list) (t : Z) (st : timers) : timers :=
  Timers (alter f t (heap st)) (bases st) (tvec_bases st) (moving st).
Definition put_base (f : tvec_base -> tvec_base) (b : Z) (st : timers) : timers :=
  Timers (heap st) (alter f b (bases st)) (tvec_bases st) (moving st).
Definition set_moving (m : gmap Z (Z * Z)) (st : timers) : timers := Timers (heap st) (bases st) (tvec_bases st) m.

Definition set_entry (e : bool) (tl : timer_list) : timer_list := TimerList e (expires tl) (function tl) (base tl).
Definition set_expires (e : Z) (tl : timer_list) : timer_list := TimerList (entry_next tl) e (function tl) (base tl).
Definition set_base (p : Z) (tl : timer_list) : timer_list := TimerList (entry_next tl) (expires tl) (function tl) p.
Definition set_running (t : Z) (bs : tvec_base) : tvec_base :=
  TvecBase t (timer_jiffies bs) (next_timer bs) (tv bs) (work_list bs).
Definition set_next (e : Z) (bs : tvec_base) : tvec_base :=
  TvecBase (running_timer bs) (timer_jiffies bs) e (tv bs) (work_list bs).
Definition set_jiffies (j : Z) (bs : tvec_base) : tvec_base :=
  TvecBase (running_timer bs) j (next_timer bs) (tv bs) (work_list bs).
Definition set_work (l : list Z) (bs : tvec_base) : tvec_base :=
  TvecBase (running_timer bs) (timer_jiffies bs) (next_timer bs) (tv bs) l.

(** The list [vec[i]] of a vector, and changing it. *)
Definition bucket (bs : tvec_base) (v : vector) (i : nat) : list Z := default [] (tv bs v !! i).
Definition set_bucket (f : list Z -> list Z) (v : vector) (i : nat) (bs : tvec_base) : tvec_base :=
  TvecBase (running_timer bs) (timer_jiffies bs) (next_timer bs)
    (fun w => if decide (w = v) then alter f i (tv bs w) else tv bs w) (work_list bs).

Definition tbase_get_deferrable (p : Z) : Z := u32 p .& TBASE_DEFERRABLE_FLAG.
Definition tbase_get_base (p : Z) : Z := p .& Z.lnot TBASE_DEFERRABLE_FLAG.
Definition timer_set_deferrable (t : Z) (st : timers) : timers :=
  put_timer (fun tl => set_base (base tl .| TBASE_DEFERRABLE_FLAG) tl) t st.
Definition timer_set_base (t new_base : Z) (st : timers) : timers :=
  put_timer (fun tl => set_base (new_base .| tbase_get_deferrable (base tl)) tl) t st.
Definition set_running_timer (b t : Z) (st : timers) : timers := put_base (set_running t) b st.

Definition timer_pending (tl : timer_list) : bool := entry_next tl.

(** The base of CPU [cpu] and a wheel with empty lists. *)
Definition per_cpu (st : timers) (cpu : Z) : Z := tvec_bases st cpu.
Definition empty_tv (v : vector) : list (list Z) :=
  replicate (Z.to_nat (if decide (v = tv1) then TVR_SIZE else TVN_SIZE)) [].

(** A base after [init_timers_cpu]; [running_timer] is not written, and 0 in new memory. *)
Definition init_base (jiffies b : Z) (st : timers) : timers :=
  let running := from_option running_timer 0 (bases st !! b) in
  Timers (heap st) (<[b := TvecBase running jiffies jiffies empty_tv []]> (bases st)) (tvec_bases st) (moving st).

(** [kmalloc] is what [kmalloc_node] returns, [boot] the address of
    [boot_tvec_bases]; the two flags are the static variables. *)
Definition init_timers_cpu (jiffies cpu : Z) (tvec_base_done boot_done : bool) (boot : Z) (kmalloc : option Z)
  (st : timers) : Z * timers :=
  if tvec_base_done then (0, init_base jiffies (per_cpu st cpu) st)
  else if boot_done then
    match kmalloc with
    | None => (- ENOMEM, st)
    | Some b =>
        if negb (tbase_get_deferrable b =? 0) then (- ENOMEM, st)
        else (0, init_base jiffies b (Timers (heap st) (bases st) (fun c => if c =? cpu then b else tvec_bases st c) (moving st)))
    end
  else (0, init_base jiffies boot st).

(** [mem] is what the memory of the timer held. *)
Definition init_timer_key (cpu t : Z) (mem : timer_list) (st : timers) : timers :=
  Timers (<[t := TimerList false (expires mem) (function mem) (per_cpu st cpu)]> (heap st)) (bases st) (tvec_bases st)
    (moving st).
Definition init_timer_deferrable_key (cpu t : Z) (mem : timer_list) (st : timers) : timers :=
  timer_set_deferrable t (init_timer_key cpu t mem st).

(** ** The wheel *)

(** The list a timer goes to. *)
Definition timer_vec (timer_jiffies expires : Z) : vector * Z :=
  let idx := u64 (expires - timer_jiffies) in
  if idx <? TVR_SIZE then (tv1, expires .& TVR_MASK)
  else if idx <? 1 .<< (TVR_BITS + TVN_BITS) then (tv2, (expires .>> TVR_BITS) .& TVN_MASK)
  else if idx <? 1 .<< (TVR_BITS + 2 * TVN_BITS) then (tv3, (expires .>> (TVR_BITS + TVN_BITS)) .& TVN_MASK)
  else if idx <? 1 .<< (TVR_BITS + 3 * TVN_BITS) then (tv4, (expires .>> (TVR_BITS + 2 * TVN_BITS)) .& TVN_MASK)
  else if s64 idx <? 0 then (tv1, timer_jiffies .& TVR_MASK)
  else
    let expires := if idx >? 4294967295 then u64 (4294967295 + timer_jiffies) else expires in
    (tv5, (expires .>> (TVR_BITS + 3 * TVN_BITS)) .& TVN_MASK).

Definition internal_add_timer (b t : Z) (st : timers) : M timers :=
  tl ← get_timer t st; bs ← get_base b st;
  let '(v, i) := timer_vec (timer_jiffies bs) (expires tl) in
  Ret (put_timer (set_entry true) t (put_base (set_bucket (fun l => l ++ [t]) v (Z.to_nat i)) b st)).

Definition list_del (t : Z) (l : list Z) : list Z := filter (fun u => u <> t) l.
Definition unlink (t : Z) (bs : tvec_base) : tvec_base :=
  TvecBase (running_timer bs) (timer_jiffies bs) (next_timer bs) (fun v => map (list_del t) (tv bs v))
    (list_del t (work_list bs)).

Definition detach_timer (t : Z) (clear_pending : bool) (st : timers) : timers :=
  let st := Timers (heap st) (unlink t <$> bases st) (tvec_bases st) (moving st) in
  if clear_pending then put_timer (set_entry false) t st else st.

(** Spins while the timer is between two bases. *)
Definition lock_timer_base (t : Z) (st : timers) : M Z :=
  tl ← get_timer t st;
  let b := tbase_get_base (base tl) in
  if b =? 0 then Diverge else Ret b.

(** Taking a pending timer off its list, as [__mod_timer], [del_timer] and
    [try_to_del_timer_sync] do it: 1 if it was pending. *)
Definition detach_pending (b t : Z) (clear_pending : bool) (st : timers) : M (Z * timers) :=
  tl ← get_timer t st;
  if timer_pending tl then
    let st := detach_timer t clear_pending st in
    tl ← get_timer t st; bs ← get_base b st;
    let st := if (expires tl =? next_timer bs) && (tbase_get_deferrable (base tl) =? 0)
              then put_base (set_next (timer_jiffies bs)) b st else st in
    Ret (1, st)
  else Ret (0, st).

(** [next_timer] and the wheel of the base a timer is added to. *)
Definition enqueue (b t : Z) (st : timers) : M timers :=
  tl ← get_timer t st; bs ← get_base b st;
  let st := if time_before (expires tl) (next_timer bs) && (tbase_get_deferrable (base tl) =? 0)
            then put_base (set_next (expires tl)) b st else st in
  internal_add_timer b t st.

(** ** Setting timers *)

Record cpu_state := CpuState {
  smp_processor_id : Z;
  get_sysctl_timer_migration : bool;
  idle_cpu : bool;
  get_nohz_load_balancer : Z
}.

Definition timer_cpu (c : cpu_state) (pinned : bool) : Z :=
  if negb pinned && get_sysctl_timer_migration c && idle_cpu c then
    let preferred_cpu := get_nohz_load_balancer c in
    if preferred_cpu >=? 0 then preferred_cpu else smp_processor_id c
  else smp_processor_id c.

Definition mod_finish (b t e : Z) (st : timers) : M timers := enqueue b t (put_timer (set_expires e) t st).

(** Up to the release of the old base.  [inl ret]: the call is over.  [inr ret]:
    the timer has no base and the new base is to be locked. *)
Definition mod_begin (cpu t e : Z) (pending_only : bool) (st : timers) : M (timers * (Z + Z)) :=
  tl ← get_timer t st;
  if function tl =? 0 then Err BUG else
  b ← lock_timer_base t st;
  '(ret, st) ← detach_pending b t false st;
  if (ret =? 0) && pending_only then Ret (st, inl 0) else
  let new_base := per_cpu st cpu in
  bs ← get_base b st;
  if negb (b =? new_base) && negb (running_timer bs =? t)
  then Ret (set_moving (<[t := (new_base, e)]> (moving st)) (timer_set_base t 0 st), inr ret)
  else st ← mod_finish b t e st; Ret (st, inl ret).

(** From the lock of the new base on. *)
Definition mod_end (t : Z) (st : timers) : M timers :=
  '(new_base, e) ← of_option bad_pointer (moving st !! t);
  mod_finish new_base t e (timer_set_base t new_base (set_moving (delete t (moving st)) st)).

Definition __mod_timer (c : cpu_state) (t e : Z) (pending_only pinned : bool) (st : timers) : M (timers * Z) :=
  '(st, r) ← mod_begin (timer_cpu c pinned) t e pending_only st;
  match r with
  | inl ret => Ret (st, ret)
  | inr ret => st ← mod_end t st; Ret (st, ret)
  end.

Abbreviation mod_timer_pending c t e st := (__mod_timer c t e true false st) (only parsing).

Definition mod_timer (c : cpu_state) (t e : Z) (st : timers) : M (timers * Z) :=
  tl ← get_timer t st;
  if timer_pending tl && (expires tl =? e) then Ret (st, 1) else __mod_timer c t e false false st.

Definition mod_timer_pinned (c : cpu_state) (t e : Z) (st : timers) : M (timers * Z) :=
  tl ← get_timer t st;
  if (expires tl =? e) && timer_pending tl then Ret (st, 1) else __mod_timer c t e false true st.

Definition add_timer (c : cpu_state) (t : Z) (st : timers) : M timers :=
  tl ← get_timer t st;
  if timer_pending tl then Err BUG else
  '(st, _) ← mod_timer c t (expires tl) st; Ret st.

Definition add_timer_on (t cpu : Z) (st : timers) : M timers :=
  let b := per_cpu st cpu in
  tl ← get_timer t st;
  if timer_pending tl || (function tl =? 0) then Err BUG else
  enqueue b t (timer_set_base t b st).

(** ** Deleting timers *)

Definition del_timer (t : Z) (st : timers) : M (Z * timers) :=
  tl ← get_timer t st;
  if timer_pending tl then b ← lock_timer_base t st; detach_pending b t true st
  else Ret (0, st).

Definition try_to_del_timer_sync (t : Z) (st : timers) : M (Z * timers) :=
  b ← lock_timer_base t st;
  bs ← get_base b st;
  if running_timer bs =? t then Ret (-1, st) else detach_pending b t true st.

(** [cpu_relax] is what happens on other CPUs between two attempts. *)
Fixpoint del_timer_sync (fuel : nat) (cpu_relax : timers -> timers) (t : Z) (st : timers) : M (Z * timers) :=
  match fuel with
  | O => Diverge
  | S fuel =>
      '(ret, st) ← try_to_del_timer_sync t st;
      if ret >=? 0 then Ret (ret, st) else del_timer_sync fuel cpu_relax t (cpu_relax st)
  end.

(** ** Running timers *)

Fixpoint cascade_loop (b : Z) (l : list Z) (st : timers) : M timers :=
  match l with
  | [] => Ret st
  | t :: l =>
      tl ← get_timer t st;
      if negb (tbase_get_base (base tl) =? b) then Err BUG else
      st ← internal_add_timer b t st;
      cascade_loop b l st
  end.

Definition cascade (b : Z) (v : vector) (index : Z) (st : timers) : M (Z * timers) :=
  bs ← get_base b st;
  st ← cascade_loop b (bucket bs v (Z.to_nat index)) (put_base (set_bucket (fun _ => []) v (Z.to_nat index)) b st);
  Ret (index, st).

Abbreviation INDEX j n := ((j .>> (TVR_BITS + n * TVN_BITS)) .& TVN_MASK) (only parsing).

(** The condition of the cascade: each vector only if the index before it is 0. *)
Fixpoint cascades (b : Z) (vs : list vector) (n : Z) (st : timers) : M timers :=
  match vs with
  | [] => Ret st
  | v :: vs =>
      bs ← get_base b st;
      '(index, st) ← cascade b v (INDEX (timer_jiffies bs) n) st;
      if index =? 0 then cascades b vs (n + 1) st else Ret st
  end.

(** One pass of the outer loop up to the inner one. *)
Definition run_tick (b : Z) (st : timers) : M timers :=
  bs ← get_base b st;
  let index := timer_jiffies bs .& TVR_MASK in
  st ← (if index =? 0 then cascades b [tv2; tv3; tv4; tv5] 0 st else Ret st);
  bs ← get_base b st;
  Ret (put_base (fun bs => set_bucket (fun _ => []) tv1 (Z.to_nat index)
         (set_work (bucket bs tv1 (Z.to_nat index)) (set_jiffies (u64 (timer_jiffies bs + 1)) bs))) b st).

(** The inner loop up to the call of the handler. *)
Definition run_first (b t : Z) (st : timers) : timers := detach_timer t true (set_running_timer b t st).

(** [fn t] is all that happens while the base is unlocked for the handler of
    [t].  The result lists the handlers called. *)
Fixpoint run_list (fuel : nat) (b : Z) (fn : Z -> timers -> timers) (st : timers) : M (list Z * timers) :=
  bs ← get_base b st;
  match work_list bs with
  | [] => Ret ([], st)
  | t :: _ =>
      match fuel with
      | O => Diverge
      | S fuel =>
          _ ← get_timer t st;
          '(called, st) ← run_list fuel b fn (fn t (run_first b t st));
          Ret (t :: called, st)
      end
  end.

(** The outer loop.  The tick counter is read anew in each turn: the turn [k]
    reads [jiffies k].  The result has for each turn the handlers called. *)
Fixpoint run_loop (fuel k : nat) (b : Z) (jiffies : nat -> Z) (fn : Z -> timers -> timers) (st : timers)
  : M (list (list Z) * timers) :=
  bs ← get_base b st;
  if time_after_eq (jiffies k) (timer_jiffies bs) then
    match fuel with
    | O => Diverge
    | S fuel =>
        st ← run_tick b st;
        bs ← get_base b st;
        '(called, st) ← run_list (length (work_list bs)) b fn st;
        '(rest, st) ← run_loop fuel (S k) b jiffies fn st;
        Ret (called :: rest, st)
    end
  else Ret ([], set_running_timer b 0 st).

Definition __run_timers (fuel : nat) (b : Z) (jiffies : nat -> Z) (fn : Z -> timers -> timers) (st : timers)
  : M (list (list Z) * timers) := run_loop fuel 0 b jiffies fn st.

Definition run_timer_softirq (fuel : nat) (cpu : Z) (jiffies : nat -> Z) (fn : Z -> timers -> timers) (st : timers)
  : M (list (list Z) * timers) :=
  let b := per_cpu st cpu in
  bs ← get_base b st;
  if time_after_eq (jiffies 0%nat) (timer_jiffies bs) then __run_timers fuel b (fun k => jiffies (S k)) fn st
  else Ret ([], st).

(** ** The next event *)

Abbreviation deferrable st t :=
  (from_option (fun tl => negb (tbase_get_deferrable (base tl) =? 0)) false (heap st !! t)) (only parsing).
Definition expires_of (st : timers) (t : Z) : Z := from_option expires 0 (heap st !! t).

(** The first timer of a list that counts. *)
Fixpoint first_active (st : timers) (l : list Z) : option Z :=
  match l with
  | [] => None
  | t :: l => if deferrable st t then first_active st l else Some (expires_of st t)
  end.

(** The scan of tv1: the slot and the expiry found. *)
Fixpoint scan_tv1 (fuel : nat) (st : timers) (bs : tvec_base) (index slot : Z) : option (Z * Z) :=
  match first_active st (bucket bs tv1 (Z.to_nat slot)) with
  | Some e => Some (slot, e)
  | None =>
      let slot := (slot + 1) .& TVR_MASK in
      match fuel with
      | S fuel => if slot =? index then None else scan_tv1 fuel st bs index slot
      | O => None
      end
  end.

(** One list of tv2 to tv5. *)
Fixpoint scan_list (st : timers) (l : list Z) (found : bool) (e : Z) : bool * Z :=
  match l with
  | [] => (found, e)
  | t :: l =>
      if deferrable st t then scan_list st l found e
      else scan_list st l true (if time_before (expires_of st t) e then expires_of st t else e)
  end.

(** The slots of one vector.  [inl e]: return [e]. *)
Fixpoint scan_tvn (fuel : nat) (st : timers) (bs : tvec_base) (v : vector) (index slot : Z) (found : bool) (e : Z) : Z
  + bool * Z :=
  let '(found, e) := scan_list st (bucket bs v (Z.to_nat slot)) found e in
  if found then if (index =? 0) || (slot <? index) then inr (found, e) else inl e
  else
    let slot := (slot + 1) .& TVN_MASK in
    match fuel with
    | S fuel => if slot =? index then inr (found, e) else scan_tvn fuel st bs v index slot found e
    | O => inr (found, e)
    end.

Fixpoint scan_vectors (vs : list vector) (st : timers) (bs : tvec_base) (j : Z) (found : bool) (e : Z) : Z :=
  match vs with
  | [] => e
  | v :: vs =>
      let index := j .& TVN_MASK in
      match scan_tvn 63 st bs v index index found e with
      | inl e => e
      | inr (found, e) =>
          let j := if index =? 0 then j else u64 (j + (TVN_SIZE - index)) in
          scan_vectors vs st bs (j .>> TVN_BITS) found e
      end
  end.

Definition __next_timer_interrupt (b : Z) (st : timers) : M Z :=
  bs ← get_base b st;
  let j := timer_jiffies bs in
  let index := j .& TVR_MASK in
  let cascade found e :=
    let j := if index =? 0 then j else u64 (j + (TVR_SIZE - index)) in
    Ret (scan_vectors [tv2; tv3; tv4; tv5] st bs (j .>> TVR_BITS) found e) in
  match scan_tv1 255 st bs index index with
  | Some (slot, e) => if (index =? 0) || (slot <? index) then cascade true e else Ret e
  | None => cascade false (u64 (j + NEXT_TIMER_MAX_DELTA))
  end.

(** ** Moving the timers of a dead CPU *)

Fixpoint migrate_timer_list (fuel : nat) (old_base new_base : Z) (v : vector) (i : nat) (st : timers) : M timers :=
  bs ← get_base old_base st;
  match bucket bs v i with
  | [] => Ret st
  | t :: _ =>
      match fuel with
      | O => Diverge
      | S fuel =>
          st ← enqueue new_base t (timer_set_base t new_base (detach_timer t false st));
          migrate_timer_list fuel old_base new_base v i st
      end
  end.

Fixpoint migrate_vecs (old_base new_base : Z) (vs : list (vector * nat)) (st : timers) : M timers :=
  match vs with
  | [] => Ret st
  | (v, i) :: vs =>
      bs ← get_base old_base st;
      st ← migrate_timer_list (length (bucket bs v i)) old_base new_base v i st;
      migrate_vecs old_base new_base vs st
  end.

Definition migrate_timers (cpu this_cpu : Z) (cpu_online : bool) (st : timers) : M timers :=
  if cpu_online then Err BUG else
  let old_base := per_cpu st cpu in
  let new_base := per_cpu st this_cpu in
  bs ← get_base old_base st;
  if negb (running_timer bs =? 0) then Err BUG else
  migrate_vecs old_base new_base
    (((fun i => (tv1, i)) <$> seq 0 (Z.to_nat TVR_SIZE)) ++
     (i ← seq 0 (Z.to_nat TVN_SIZE); [(tv2, i); (tv3, i); (tv4, i); (tv5, i)])) st.

End Timer.
