(* ===== verification/TimerWheel.v ===== *)
(** * The timer wheel, one base

    Where a timer of a given expiry may be in the wheel ([placed]), that
    [timer_vec] chooses such a place, how places age with the ticks, and what
    the cascade and a tick do to the lists of one base. *)
From S2P Require Import Prelude Timer.

Module TimerWheel.
Import Timer.

(** ** Places *)

Definition shift (v : vector) : Z := match v with tv1 => 0 | tv2 => 8 | tv3 => 14 | tv4 => 20 | tv5 => 26 end.
Definition width (v : vector) : Z := match v with tv1 => 8 | tv2 => 14 | tv3 => 20 | tv4 => 26 | tv5 => 32 end.

(** The number of ticks until list [i] of vector [v] is run or cascaded. *)
Definition ticks_to (j : Z) (v : vector) (i : nat) : Z := (Z.of_nat i * 2 ^ shift v - j) mod 2 ^ width v.

(** The time left, negative for a timer set to the past. *)
Definition left_ (j e : Z) : Z := s64 (e - j).

Definition placed (j : Z) (v : vector) (i : nat) (e : Z) : Prop :=
  match v with
  | tv1 => ticks_to j v i = Z.max 0 (left_ j e)
  | tv5 => ticks_to j v i <= left_ j e
  | _ => ticks_to j v i <= left_ j e < ticks_to j v i + 2 ^ shift v
  end.

Lemma ticks_to_range j v i : 0 <= ticks_to j v i < 2 ^ width v.
Proof. apply Z.mod_pos_bound. by destruct v. Qed.

Lemma mod_pow_mod a s w : 0 <= s <= w -> (a mod 2 ^ w) mod 2 ^ s = a mod 2 ^ s.
Proof.
  intros H. replace w with (s + (w - s)) by lia. rewrite Z.pow_add_r by lia. rewrite Z.rem_mul_r; [| lia | lia].
  rewrite Z.mul_comm, Z.mod_add by lia. apply Z.mod_mod. lia.
Qed.

(** The list that the bits of [e] from [s] on name comes up when [e], without its lower bits, does. *)
Lemma slot_ticks j idx s w :
  0 <= s <= w -> w <= 64 ->
  (Z.of_nat (Z.to_nat ((u64 (j + idx) .>> s) .& Z.ones (w - s))) * 2 ^ s - j) mod 2 ^ w = (idx - (j + idx) mod 2 ^ s) mod 2 ^ w.
Proof.
  intros Hs Hw. rewrite Z.land_ones, Z.shiftr_div_pow2 by lia.
  assert (0 <= (u64 (j + idx) / 2 ^ s) mod 2 ^ (w - s)) by (apply Z.mod_pos_bound; lia).
  rewrite Z2Nat.id by done. rewrite <- Zminus_mod_idemp_l.
  rewrite <- Zmult_mod_distr_r, <- Z.pow_add_r by lia. replace (w - s + s) with w by lia.
  rewrite Z.mod_mod, Zminus_mod_idemp_l by lia.
  assert (u64 (j + idx) / 2 ^ s * 2 ^ s = u64 (j + idx) - (j + idx) mod 2 ^ s) as ->.
  { unfold uwrap. rewrite <- (mod_pow_mod (j + idx) s 64) by lia. pose proof (Z.div_mod (u64 (j + idx)) (2 ^ s)).
    unfold uwrap in *. lia. }
  replace (u64 (j + idx) - (j + idx) mod 2 ^ s - j) with (u64 (j + idx) - ((j + idx) mod 2 ^ s + j)) by lia.
  rewrite <- Zminus_mod_idemp_l. unfold uwrap. rewrite mod_pow_mod by lia. rewrite Zminus_mod_idemp_l. f_equal. lia.
Qed.

Lemma ticks_slot j v e :
  ticks_to j v (Z.to_nat ((u64 e .>> shift v) .& Z.ones (width v - shift v))) = (e - j - e mod 2 ^ shift v) mod 2 ^ width v.
Proof.
  unfold ticks_to. pose proof (slot_ticks j (e - j) (shift v) (width v)) as E.
  replace (j + (e - j)) with e in E by lia. apply E; by destruct v.
Qed.

(** In range of the vector, the list of [e] comes up at most [2 ^ shift v] ticks before [e]. *)
Lemma ticks_near j v e :
  0 <= e - j < 2 ^ width v -> (v <> tv1 -> 2 ^ shift v <= e - j) ->
  let k := ticks_to j v (Z.to_nat ((u64 e .>> shift v) .& Z.ones (width v - shift v))) in
  k <= e - j < k + 2 ^ shift v /\ (v <> tv1 -> 1 <= k).
Proof.
  intros H1 H2. cbn zeta. rewrite ticks_slot.
  assert (0 <= e mod 2 ^ shift v < 2 ^ shift v) by (apply Z.mod_pos_bound; by destruct v).
  destruct (decide (v = tv1)) as [->|Hv].
  - simpl shift. change (2 ^ 0) with 1 in *. rewrite Z.mod_1_r, Z.mod_small by (simpl width in *; lia). split; [lia | done].
  - specialize (H2 Hv). rewrite Z.mod_small by lia. split; [lia | lia].
Qed.

Lemma left_eq j e : 0 <= j < 2 ^ 64 -> 0 <= e < 2 ^ 64 ->
  (u64 (e - j) < 2 ^ 63 /\ left_ j e = u64 (e - j) /\ e = u64 (j + u64 (e - j))) \/
  (2 ^ 63 <= u64 (e - j) /\ left_ j e = u64 (e - j) - 2 ^ 64).
Proof.
  intros Hj He. unfold left_, swrap, uwrap. change (2 ^ (64 - 1)) with (2 ^ 63). change (2 ^ 64) with (2 * 2 ^ 63) in *.
  set (h := 2 ^ 63) in *. assert (0 < h) by done. clearbody h. rewrite Zplus_mod_idemp_r. replace (j + (e - j)) with e by lia.
  rewrite (Z.mod_small e) by lia.
  assert (forall x, - (2 * h) <= x < 4 * h ->
    x mod (2 * h) = if x <? 0 then x + 2 * h else if x <? 2 * h then x else x - 2 * h) as E.
  { intros x Hx. zcase; [| zcase].
    - rewrite <- (Z.mod_add _ 1), Z.mod_small by lia. lia.
    - apply Z.mod_small. lia.
    - rewrite <- (Z.mod_add _ (-1)), Z.mod_small by lia. lia. }
  rewrite !E by lia. repeat zcase; lia.
Qed.

Definition slot_of (v : vector) (e : Z) : Z := (e .>> shift v) .& Z.ones (width v - shift v).

Lemma slot_of_lt v e : (Z.to_nat (slot_of v e) < Z.to_nat (2 ^ (width v - shift v)))%nat.
Proof.
  unfold slot_of. rewrite Z.land_ones by (by destruct v).
  pose proof (Z.mod_pos_bound (e .>> shift v) (2 ^ (width v - shift v))). destruct v; simpl in *; lia.
Qed.

Lemma placed_near j e v :
  0 <= j < 2 ^ 64 -> 0 <= e < 2 ^ 64 ->
  0 <= u64 (e - j) < 2 ^ width v -> (v <> tv1 -> 2 ^ shift v <= u64 (e - j)) ->
  placed j v (Z.to_nat (slot_of v e)) e /\ (v <> tv1 -> 1 <= ticks_to j v (Z.to_nat (slot_of v e))).
Proof.
  intros Hj He H1 H2. unfold slot_of. destruct (left_eq j e Hj He) as [(Hs & Hl & Ee) | [Hs _]].
  2: { assert (2 ^ width v <= 2 ^ 32) by (by destruct v). lia. }
  rewrite Ee at 1 3. replace (u64 (e - j)) with (j + u64 (e - j) - j) in H1, H2 by lia.
  destruct (ticks_near j v (j + u64 (e - j)) H1 H2) as [H3 H4]. split; [| done].
  destruct v; unfold placed; rewrite Hl; simpl in *; lia.
Qed.

(** A timer set to the past comes up with the current list. *)
Lemma placed_past j e : left_ j e < 0 -> placed j tv1 (Z.to_nat (j .& TVR_MASK)) e.
Proof.
  intros H. unfold placed, ticks_to. change TVR_MASK with (Z.ones 8). rewrite Z.land_ones by lia.
  pose proof (Z.mod_pos_bound j (2 ^ 8)). rewrite Z2Nat.id by lia. simpl shift. simpl width.
  rewrite Z.mul_1_r, Zminus_mod_idemp_l, Z.sub_diag. change (0 mod 2 ^ 8) with 0. lia.
Qed.

(** A timer further away than the wheel reaches goes to the last list, which comes up before it. *)
Lemma placed_far j e :
  0 <= j < 2 ^ 64 -> 2 ^ 32 <= left_ j e ->
  let i := Z.to_nat (slot_of tv5 (u64 (4294967295 + j))) in placed j tv5 i e /\ 1 <= ticks_to j tv5 i.
Proof.
  intros Hj H. cbn zeta. destruct (ticks_near j tv5 (4294967295 + j)) as [H1 H2]; [simpl; lia | simpl; lia |].
  unfold placed, slot_of. split; [lia | by apply H2].
Qed.

(** [timer_vec] finds a place, and one that comes up only after the current tick unless in tv1. *)
Lemma timer_vec_placed j e v i :
  0 <= j < 2 ^ 64 -> 0 <= e < 2 ^ 64 -> timer_vec j e = (v, i) ->
  (Z.to_nat i < Z.to_nat (2 ^ (width v - shift v)))%nat /\ placed j v (Z.to_nat i) e /\
    (v <> tv1 -> 1 <= ticks_to j v (Z.to_nat i)).
Proof.
  intros Hj He. unfold timer_vec. pose proof (uwrap_range 64 (e - j)).
  replace (e .& TVR_MASK) with (slot_of tv1 e) by (unfold slot_of; by rewrite Z.shiftr_0_r).
  change ((e .>> TVR_BITS) .& TVN_MASK) with (slot_of tv2 e).
  change ((e .>> (TVR_BITS + TVN_BITS)) .& TVN_MASK) with (slot_of tv3 e).
  change ((e .>> (TVR_BITS + 2 * TVN_BITS)) .& TVN_MASK) with (slot_of tv4 e).
  change (1 .<< (TVR_BITS + TVN_BITS)) with (2 ^ 14). change (1 .<< (TVR_BITS + 2 * TVN_BITS)) with (2 ^ 20).
  change (1 .<< (TVR_BITS + 3 * TVN_BITS)) with (2 ^ 26). change TVR_SIZE with (2 ^ 8).
  destruct (Z.ltb_spec (u64 (e - j)) (2 ^ 8)).
  { intros [= <- <-]. split; [apply slot_of_lt | apply placed_near; try done; intros; simpl; lia]. }
  destruct (Z.ltb_spec (u64 (e - j)) (2 ^ 14)).
  { intros [= <- <-]. split; [apply slot_of_lt | apply placed_near; try done; intros; simpl; lia]. }
  destruct (Z.ltb_spec (u64 (e - j)) (2 ^ 20)).
  { intros [= <- <-]. split; [apply slot_of_lt | apply placed_near; try done; intros; simpl; lia]. }
  destruct (Z.ltb_spec (u64 (e - j)) (2 ^ 26)).
  { intros [= <- <-]. split; [apply slot_of_lt | apply placed_near; try done; intros; simpl; lia]. }
  destruct (left_eq j e Hj He) as [(Hs & Hl & _) | [Hs Hl]].
  - assert (s64 (u64 (e - j)) = u64 (e - j)) as -> by (apply swrap_small; lia). destruct (Z.ltb_spec (u64 (e - j)) 0); [lia |].
    destruct (Z.gtb_spec (u64 (e - j)) 4294967295); intros [= <- <-].
    + split; [apply (slot_of_lt tv5) |]. by destruct (placed_far j e); [done | lia |].
    + split; [apply (slot_of_lt tv5) |]. apply (placed_near j e tv5); try done; intros; simpl; lia.
  - assert (s64 (u64 (e - j)) < 0) as E.
    { unfold swrap. change (2 ^ (64 - 1)) with (2 ^ 63). rewrite <- (Z.mod_add _ (-1)), Z.mod_small by lia. lia. }
    apply Z.ltb_lt in E as ->. intros [= <- <-]. split; [| split; [apply placed_past; lia | done]].
    change TVR_MASK with (Z.ones (width tv1 - shift tv1)). rewrite <- (Z.shiftr_0_r j). apply (slot_of_lt tv1).
Qed.

(** ** Time passes *)

Lemma swrap_sub a b : s64 (s64 a - s64 b) = s64 (a - b).
Proof.
  unfold swrap. f_equal. change (2 ^ (64 - 1)) with (2 ^ 63).
  replace ((a + 2 ^ 63) mod 2 ^ 64 - 2 ^ 63 - ((b + 2 ^ 63) mod 2 ^ 64 - 2 ^ 63) + 2 ^ 63)
    with ((a + 2 ^ 63) mod 2 ^ 64 - (b + 2 ^ 63) mod 2 ^ 64 + 2 ^ 63) by lia.
  rewrite <- Zplus_mod_idemp_l, <- Zminus_mod, Zplus_mod_idemp_l. f_equal. lia.
Qed.

(** The comparisons of times are comparisons of the time left. *)
Lemma time_after_eq_left a b : time_after_eq a b = (0 <=? left_ b a).
Proof. unfold left_. by rewrite swrap_sub, Z.geb_leb. Qed.
Lemma time_before_left a b : time_before a b = (left_ b a <? 0).
Proof. unfold left_. by rewrite swrap_sub. Qed.

Lemma left_tick j e : - 2 ^ 63 < left_ j e -> left_ (u64 (j + 1)) e = left_ j e - 1.
Proof.
  unfold left_, swrap, uwrap. change (2 ^ (64 - 1)) with (2 ^ 63). intros H.
  assert ((e - (j + 1) mod 2 ^ 64 + 2 ^ 63) mod 2 ^ 64 = ((e - j + 2 ^ 63) mod 2 ^ 64 - 1) mod 2 ^ 64) as ->.
  { rewrite Zminus_mod_idemp_l. rewrite <- (Zplus_mod_idemp_l (e - _)), Zminus_mod_idemp_r, Zplus_mod_idemp_l. f_equal. lia. }
  rewrite (Z.mod_small (_ - 1)); [lia |]. pose proof (Z.mod_pos_bound (e - j + 2 ^ 63) (2 ^ 64)). lia.
Qed.

Lemma ticks_tick j v i : 1 <= ticks_to j v i -> ticks_to (u64 (j + 1)) v i = ticks_to j v i - 1.
Proof.
  unfold ticks_to, uwrap. intros H.
  assert (forall x, (x - (j + 1) mod 2 ^ 64) mod 2 ^ width v = ((x - j) mod 2 ^ width v - 1) mod 2 ^ width v) as ->.
  { intros x. rewrite Zminus_mod_idemp_l, <- Zminus_mod_idemp_r, mod_pow_mod, Zminus_mod_idemp_r by (by destruct v).
    f_equal. lia. }
  apply Z.mod_small. pose proof (Z.mod_pos_bound (Z.of_nat i * 2 ^ shift v - j) (2 ^ width v)). destruct v; simpl in *; lia.
Qed.

Lemma placed_tick j v i e : 0 <= j < 2 ^ 64 -> placed j v i e -> 1 <= ticks_to j v i -> placed (u64 (j + 1)) v i e.
Proof.
  intros Hj Hp Hk. pose proof (ticks_tick j v i Hk) as Et.
  assert (1 <= left_ j e) as Hl by (destruct v; simpl in Hp; lia).
  pose proof (left_tick j e ltac:(lia)) as El. unfold placed in *. destruct v; rewrite Et, El; lia.
Qed.

(** A list comes up exactly when the time is a multiple of its period and the index of the time names it. *)
Lemma ticks_now j v i :
  0 <= j -> (i < Z.to_nat (2 ^ (width v - shift v)))%nat -> ticks_to j v i = 0 <-> j mod 2 ^ shift v = 0 /\
    i = Z.to_nat (slot_of v j).
Proof.
  intros Hj Hi. unfold ticks_to, slot_of. assert (0 <= shift v <= width v) as Hs by (by destruct v).
  rewrite Z.land_ones, Z.shiftr_div_pow2 by lia. set (s := shift v) in *. set (w := width v) in *.
  assert (2 ^ w = 2 ^ (w - s) * 2 ^ s) as Ew by (rewrite <- Z.pow_add_r by lia; f_equal; lia).
  assert (0 < 2 ^ s /\ 0 < 2 ^ (w - s)) as [Hs0 Hw0] by (split; apply Z.pow_pos_nonneg; lia).
  rewrite Z.mod_divide by lia. split.
  - intros [q Hq]. rewrite Ew in Hq. assert (j = (Z.of_nat i - q * 2 ^ (w - s)) * 2 ^ s) as Ej by lia. rewrite Ej.
    rewrite Z.mod_mul, Z.div_mul by lia. split; [done |].
    replace (Z.of_nat i - q * 2 ^ (w - s)) with (Z.of_nat i + (- q) * 2 ^ (w - s)) by lia. rewrite Z.mod_add, Z.mod_small; lia.
  - intros [Hj0 ->]. rewrite Z2Nat.id by (apply Z.mod_pos_bound; lia). exists (- (j / 2 ^ s / 2 ^ (w - s))).
    pose proof (Z.div_mod j (2 ^ s)). pose proof (Z.div_mod (j / 2 ^ s) (2 ^ (w - s))). rewrite Ew. nia.
Qed.

(** ** The lists of a base *)

Definition vectors : list vector := [tv1; tv2; tv3; tv4; tv5].
Definition queued (bs : tvec_base) : list Z := v ← vectors; mjoin (tv bs v).

Lemma elem_of_vectors v : v ∈ vectors.
Proof. destruct v; set_solver. Qed.

Lemma elem_of_queued bs t : t ∈ queued bs <-> exists v i, t ∈ bucket bs v i.
Proof.
  unfold queued, bucket. rewrite list_elem_of_bind. split.
  - intros (v & Ht & _). apply list_elem_of_join in Ht as (l & Ht & Hl). apply list_elem_of_lookup in Hl as [i Hi].
    exists v, i. by rewrite Hi.
  - intros (v & i & Ht). exists v. split; [| apply elem_of_vectors].
    destruct (tv bs v !! i) as [l|] eqn:E; [| by apply not_elem_of_nil in Ht].
    apply list_elem_of_join. exists l. split; [done |]. by eapply list_elem_of_lookup_2.
Qed.

Lemma join_alter (f : list Z -> list Z) (i : nat) (L : list (list Z)) l :
  L !! i = Some l -> mjoin (alter f i L) ++ l ≡ₚ mjoin L ++ f l.
Proof.
  intros H. apply list_elem_of_split_length in H as (L1 & L2 & -> & ->).
  rewrite alter_app_r_alt, Nat.sub_diag by done. simpl. rewrite !join_app. simpl. solve_Permutation.
Qed.

Lemma perm_front (a a' b c c' : list Z) : a' ++ c ≡ₚ a ++ c' -> (a' ++ b) ++ c ≡ₚ (a ++ b) ++ c'.
Proof. intros H. rewrite <- !app_assoc, (Permutation_app_comm b c), (Permutation_app_comm b c'), !app_assoc. by f_equiv. Qed.

Lemma queued_set (f : list Z -> list Z) v i bs :
  (i < length (tv bs v))%nat -> queued (set_bucket f v i bs) ++ bucket bs v i ≡ₚ queued bs ++ f (bucket bs v i).
Proof.
  intros Hi. apply lookup_lt_is_Some in Hi as [l Hl]. unfold bucket. rewrite Hl. simpl.
  pose proof (join_alter f i _ _ Hl) as H. unfold queued. pose proof (elem_of_vectors v) as Hv.
  assert (NoDup vectors) as Hn by (repeat constructor; set_solver). revert Hv Hn. generalize vectors as vs.
  assert (forall vs, v ∉ vs -> (w ← vs; mjoin (tv (set_bucket f v i bs) w)) = (w ← vs; mjoin (tv bs w))) as Hout.
  { induction vs as [|w vs IH]; intros Hw; [done |]. apply not_elem_of_cons in Hw as [Hw Hw']. cbn. rewrite decide_False by done.
    f_equal. by apply IH. }
  induction vs as [|w vs IH]; intros Hv Hn; [by apply not_elem_of_nil in Hv |]. apply NoDup_cons in Hn as [Hw Hn].
  cbn [mbind list_bind]. apply elem_of_cons in Hv as [-> | Hv].
  - change (list_bind _ _ (λ w, mjoin (tv ?b w)) ?l) with (w ← l; mjoin (tv b w)). rewrite Hout by done. cbn [set_bucket tv].
    rewrite decide_True by done. by apply perm_front.
  - cbn [set_bucket tv]. rewrite decide_False by (by intros ->).
    rewrite <- !app_assoc. f_equiv. exact (IH Hv Hn).
Qed.

Lemma queued_add v i t bs : (i < length (tv bs v))%nat -> queued (set_bucket (fun l => l ++ [t]) v i bs) ≡ₚ t :: queued bs.
Proof.
  intros Hi. pose proof (queued_set (fun l => l ++ [t]) v i bs Hi) as H.
  apply (Permutation_app_inv_r (bucket bs v i)). rewrite H. solve_Permutation.
Qed.

Lemma queued_clear v i bs : (i < length (tv bs v))%nat -> queued bs ≡ₚ bucket bs v i ++ queued (set_bucket (fun _ => []) v i bs).
Proof.
  intros Hi. pose proof (queued_set (fun _ => []) v i bs Hi) as H. rewrite app_nil_r in H. rewrite <- H.
  apply Permutation_app_comm.
Qed.

Lemma bucket_set f v i bs w k :
  (i < length (tv bs v))%nat -> bucket (set_bucket f v i bs) w k = if decide (w = v /\
    k = i) then f (bucket bs w k) else bucket bs w k.
Proof.
  intros Hi. unfold bucket, set_bucket. cbn. destruct (decide (w = v)) as [->|Hw].
  - destruct (decide (k = i)) as [->|Hk].
    + rewrite decide_True by done. rewrite list_lookup_alter_eq. by apply lookup_lt_is_Some in Hi as [l ->].
    + rewrite decide_False by naive_solver. by rewrite list_lookup_alter_ne.
  - by rewrite decide_False by naive_solver.
Qed.

(** The state of a base between two steps. *)
Record wheel_ok (exp : Z -> Z) (bs : tvec_base) : Prop := WheelOk {
  w_len v : length (tv bs v) = Z.to_nat (2 ^ (width v - shift v));
  w_now : 0 <= timer_jiffies bs < 2 ^ 64;
  w_exp t : t ∈ queued bs -> 0 <= exp t < 2 ^ 64;
  w_placed v i t : t ∈ bucket bs v i -> placed (timer_jiffies bs) v i (exp t);
  w_nodup : NoDup (queued bs ++ work_list bs)
}.

(** The fields of a base outside of the wheel. *)
Definition rest (bs : tvec_base) : Z * Z * Z * list Z := (running_timer bs, timer_jiffies bs, next_timer bs, work_list bs).

Lemma bucket_lt bs v i t : t ∈ bucket bs v i -> (i < length (tv bs v))%nat.
Proof.
  intros Ht. unfold bucket in Ht. destruct (tv bs v !! i) eqn:E; [by eapply lookup_lt_Some | by apply not_elem_of_nil in Ht].
Qed.

(** ** Adding *)

Definition w_add (exp : Z -> Z) (bs : tvec_base) (t : Z) : tvec_base :=
  let '(v, i) := timer_vec (timer_jiffies bs) (exp t) in set_bucket (fun l => l ++ [t]) v (Z.to_nat i) bs.

(** Timers of [bs'] that are not where they were in [bs] come up later than now. *)
Definition moved (bs bs' : tvec_base) : Prop :=
  forall v i t, t ∈ bucket bs' v i -> t ∈ bucket bs v i \/ (v <> tv1 -> 1 <= ticks_to (timer_jiffies bs) v i).

Record grew (exp : Z -> Z) (bs : tvec_base) (l : list Z) (bs' : tvec_base) : Prop := Grew {
  g_ok : wheel_ok exp bs';
  g_queued : queued bs' ≡ₚ l ++ queued bs;
  g_rest : rest bs' = rest bs;
  g_moved : moved bs bs'
}.

Lemma w_add_ok exp bs t :
  wheel_ok exp bs -> 0 <= exp t < 2 ^ 64 -> t ∉ queued bs -> t ∉ work_list bs -> grew exp bs [t] (w_add exp bs t).
Proof.
  intros [Hl Hj He Hp Hn] Ht Hq Hw. unfold w_add. destruct (timer_vec _ _) as [v i] eqn:Ev.
  apply timer_vec_placed in Ev as (Hi & Hpl & Hk); [| done | done]. rewrite <- Hl in Hi.
  pose proof (queued_add v (Z.to_nat i) t bs Hi) as Hperm.
  assert (forall w k u, u ∈ bucket (set_bucket (fun l => l ++ [t]) v (Z.to_nat i) bs) w k -> u ∈ bucket bs w k \/
    (u = t /\ w = v /\ k = Z.to_nat i)) as Hb.
  { intros w k u. rewrite bucket_set by done. destruct (decide _) as [[-> ->]|]; [| by left].
    rewrite elem_of_app, list_elem_of_singleton. naive_solver. }
  split; [split | done | done |].
  - intros w. cbn. destruct (decide (w = v)); [rewrite length_alter |]; apply Hl.
  - done.
  - intros u. rewrite Hperm, elem_of_cons. intros [-> | Hu]; [done | by apply He].
  - intros w k u [Hu | (-> & -> & ->)]%Hb; [by apply Hp | done].
  - cbn. rewrite Hperm. simpl. constructor; [| done]. rewrite elem_of_app. tauto.
  - intros w k u [Hu | (-> & -> & ->)]%Hb; [by left | by right].
Qed.

Lemma grew_trans exp bs1 bs2 bs3 l1 l2 : grew exp bs1 l1 bs2 -> grew exp bs2 l2 bs3 -> grew exp bs1 (l1 ++ l2) bs3.
Proof.
  intros [H1 H2 H3 H4] [H5 H6 H7 H8]. split; [done | | congruence |].
  - rewrite H6, H2. solve_Permutation.
  - intros v i t [Ht|Ht]%H8; [by apply H4 |]. right.
    by replace (timer_jiffies bs1) with (timer_jiffies bs2) by (unfold rest in H3; congruence).
Qed.

Lemma w_adds_ok exp l : forall bs,
  wheel_ok exp bs -> (forall t, t ∈ l -> 0 <= exp t < 2 ^ 64) -> NoDup (l ++ queued bs ++ work_list bs) ->
    grew exp bs l (foldl (w_add exp) bs l).
Proof.
  induction l as [|t l IH]; intros bs Hok He Hn; simpl; [by split; [| | | left] |].
  simpl in Hn. apply NoDup_cons in Hn as [Ht Hn]. rewrite !elem_of_app in Ht.
  assert (grew exp bs [t] (w_add exp bs t)) as G by (apply w_add_ok; [done | apply He; set_solver | tauto | tauto]).
  apply (grew_trans exp bs (w_add exp bs t) _ [t] l); [done |]. destruct G as [G1 G2 G3 G4].
  apply IH; [done | intros u Hu; apply He; set_solver |]. rewrite G2.
  replace (work_list (w_add exp bs t)) with (work_list bs) by (unfold rest in G3; congruence).
  simpl. rewrite <- Permutation_middle. constructor; [by rewrite !elem_of_app | done].
Qed.

(** ** The cascade *)

Definition w_cascade (exp : Z -> Z) (bs : tvec_base) (v : vector) (index : Z) : tvec_base :=
  foldl (w_add exp) (set_bucket (fun _ => []) v (Z.to_nat index) bs) (bucket bs v (Z.to_nat index)).

(** No list of the vector comes up now. *)
Definition cleared (bs : tvec_base) (v : vector) : Prop := forall i t, t ∈ bucket bs v i -> 1 <= ticks_to (timer_jiffies bs) v i.

Record shuffled (exp : Z -> Z) (bs bs' : tvec_base) : Prop := Shuffled {
  s_ok : wheel_ok exp bs';
  s_queued : queued bs' ≡ₚ queued bs;
  s_rest : rest bs' = rest bs;
  s_cleared v : v <> tv1 -> cleared bs v -> cleared bs' v
}.

Lemma w_clear_ok exp bs v i :
  wheel_ok exp bs -> (i < length (tv bs v))%nat -> wheel_ok exp (set_bucket (fun _ => []) v i bs).
Proof.
  intros [Hl Hj He Hp Hn] Hi. pose proof (queued_clear v i bs Hi) as Hq. split; [| done | | |].
  - intros w. cbn. destruct (decide (w = v)); [rewrite length_alter |]; apply Hl.
  - intros t Ht. apply He. rewrite Hq. set_solver.
  - intros w k t. rewrite bucket_set by done. destruct (decide _); [by intros ?%not_elem_of_nil | apply Hp].
  - cbn. rewrite Hq, <- app_assoc in Hn. by apply NoDup_app in Hn as (_ & _ & Hn).
Qed.

Lemma w_cascade_ok exp bs v :
  wheel_ok exp bs -> v <> tv1 -> timer_jiffies bs mod 2 ^ shift v = 0 ->
  let bs' := w_cascade exp bs v (slot_of v (timer_jiffies bs)) in shuffled exp bs bs' /\ cleared bs' v.
Proof.
  intros Hok Hv Hj. cbn zeta. unfold w_cascade. set (i := Z.to_nat (slot_of v (timer_jiffies bs))).
  assert (i < length (tv bs v))%nat as Hi by (rewrite (w_len _ _ Hok); apply slot_of_lt).
  pose proof (queued_clear v i bs Hi) as Hq. pose proof (w_clear_ok exp bs v i Hok Hi) as Hok'.
  destruct (w_adds_ok exp (bucket bs v i) (set_bucket (fun _ => []) v i bs) Hok') as [G1 G2 G3 G4].
  { intros t Ht. apply (w_exp _ _ Hok), elem_of_queued. by exists v, i. }
  { rewrite app_assoc, <- Hq. apply (w_nodup _ _ Hok). }
  set (bs' := foldl _ _ _) in *. assert (timer_jiffies bs' = timer_jiffies bs) as Ej by (unfold rest in G3; cbn in G3;
    congruence).
  split; [split; [done | by rewrite G2, Hq | done |] |].
  - intros w Hw Hc k t Ht. rewrite Ej. apply G4 in Ht as [Ht|Ht]; [| by apply Ht]. rewrite bucket_set in Ht by done.
    destruct (decide _); [by apply not_elem_of_nil in Ht | by eapply Hc].
  - intros k t Ht. rewrite Ej. apply G4 in Ht as [Ht|Ht]; [| by apply Ht]. rewrite bucket_set in Ht by done.
    destruct (decide _) as [|Hk]; [by apply not_elem_of_nil in Ht |]. pose proof (ticks_to_range (timer_jiffies bs) v k).
    assert (ticks_to (timer_jiffies bs) v k <> 0); [| lia]. pose proof (w_now _ _ Hok).
    rewrite ticks_now; [naive_solver | lia |]. rewrite <- (w_len _ _ Hok). by eapply bucket_lt.
Qed.

(** Vectors whose period does not divide the time have nothing that comes up. *)
Lemma cleared_other exp bs v : wheel_ok exp bs -> timer_jiffies bs mod 2 ^ shift v <> 0 -> cleared bs v.
Proof.
  intros Hok Hj i t Ht. pose proof (ticks_to_range (timer_jiffies bs) v i). pose proof (w_now _ _ Hok).
  assert (ticks_to (timer_jiffies bs) v i <> 0); [| lia]. rewrite ticks_now; [naive_solver | lia |].
  rewrite <- (w_len _ _ Hok). by eapply bucket_lt.
Qed.

#[export] Instance shuffled_trans exp : Transitive (shuffled exp).
Proof.
  intros bs1 bs2 bs3 [H1 H2 H3 H4] [H5 H6 H7 H8]. split; [done | by rewrite H6 | congruence |].
  intros v Hv Hc. by apply H8, H4.
Qed.

Fixpoint w_cascades (exp : Z -> Z) (vs : list vector) (bs : tvec_base) : tvec_base :=
  match vs with
  | [] => bs
  | v :: vs =>
      let index := slot_of v (timer_jiffies bs) in
      let bs' := w_cascade exp bs v index in if index =? 0 then w_cascades exp vs bs' else bs'
  end.

Lemma slot_zero v j : 0 <= j -> j mod 2 ^ shift v = 0 -> (slot_of v j = 0 <-> j mod 2 ^ width v = 0).
Proof.
  intros Hj H0. unfold slot_of. assert (0 <= shift v <= width v) as Hs by (by destruct v).
  rewrite Z.land_ones, Z.shiftr_div_pow2 by lia. replace (width v) with (shift v + (width v - shift v)) at 2 by lia.
  rewrite Z.pow_add_r, Z.rem_mul_r by lia. rewrite H0. nia.
Qed.

Definition cascade_ok (exp : Z -> Z) (vs : list vector) : Prop :=
  forall bs, wheel_ok exp bs -> (forall u, head vs = Some u -> timer_jiffies bs mod 2 ^ shift u = 0) ->
  let bs' := w_cascades exp vs bs in shuffled exp bs bs' /\ forall u, u ∈ vs -> cleared bs' u.

(** The cascade stops at the first index that is not 0: no later list comes up then. *)
Lemma w_cascades_cons exp v vs :
  v <> tv1 -> (forall u, head vs = Some u -> shift u = width v) -> Forall (fun u => width v <= shift u) vs ->
  cascade_ok exp vs -> cascade_ok exp (v :: vs).
Proof.
  intros Hv Hh Hs IH bs Hok Hj. specialize (Hj v eq_refl). cbn zeta. cbn [w_cascades]. pose proof (w_now _ _ Hok) as Hnow.
  destruct (w_cascade_ok exp bs v Hok Hv Hj) as [S1 C1]. set (bs1 := w_cascade _ _ _ _) in *.
  assert (timer_jiffies bs1 = timer_jiffies bs) as Ej by (pose proof (s_rest _ _ _ S1) as E; unfold rest in E; congruence).
  pose proof (slot_zero v (timer_jiffies bs) ltac:(lia) Hj) as Hz.
  destruct (Z.eqb_spec (slot_of v (timer_jiffies bs)) 0) as [E0|E0].
  - apply Hz in E0. destruct (IH bs1 (s_ok _ _ _ S1)) as [S2 C2].
    { intros u Hu. by rewrite Ej, (Hh u Hu). }
    split; [by etrans |]. intros u [-> | Hu]%elem_of_cons; [| by apply C2]. by apply (s_cleared _ _ _ S2).
  - split; [done |]. intros u [-> | Hu]%elem_of_cons; [done |]. apply (cleared_other exp); [apply S1 |]. rewrite Ej.
    intros E. apply E0, Hz.
    pose proof (proj1 (Forall_forall _ _) Hs u Hu). cbn beta in *. assert (0 <= width v) by (by destruct v).
    rewrite <- (mod_pow_mod _ (width v) (shift u)), E by lia. apply Z.mod_0_l. lia.
Qed.

Lemma w_cascades_ok exp : cascade_ok exp [tv2; tv3; tv4; tv5].
Proof.
  do 4 (apply w_cascades_cons; [done | by intros ? [= <-] | by rewrite ?Forall_cons, Forall_nil |]).
  intros bs Hok _. split; [by split | by intros ? ?%not_elem_of_nil].
Qed.

Lemma high_vector v : v <> tv1 -> v ∈ [tv2; tv3; tv4; tv5].
Proof. destruct v; set_solver. Qed.

(** ** A tick *)

Definition w_tick (exp : Z -> Z) (bs : tvec_base) : tvec_base :=
  let index := timer_jiffies bs .& TVR_MASK in
  let bs := if index =? 0 then w_cascades exp [tv2; tv3; tv4; tv5] bs else bs in
  set_bucket (fun _ => []) tv1 (Z.to_nat index)
    (set_work (bucket bs tv1 (Z.to_nat index)) (set_jiffies (u64 (timer_jiffies bs + 1)) bs)).

(** How many ticks a timer has left. *)
Definition remaining (j e : Z) : Z := Z.max 0 (left_ j e).

Record ticked (exp : Z -> Z) (bs bs' : tvec_base) : Prop := Ticked {
  k_ok : wheel_ok exp bs';
  k_now : timer_jiffies bs' = u64 (timer_jiffies bs + 1);
  k_running : running_timer bs' = running_timer bs /\ next_timer bs' = next_timer bs;
  k_queued : work_list bs' ++ queued bs' ≡ₚ queued bs;
  k_due t : t ∈ queued bs -> t ∈ work_list bs' <-> remaining (timer_jiffies bs) (exp t) = 0;
  k_later t : t ∈ queued bs' -> remaining (timer_jiffies bs') (exp t) = remaining (timer_jiffies bs) (exp t) - 1
}.

Lemma w_cascade_phase exp bs :
  wheel_ok exp bs -> let bs1 := if timer_jiffies bs .& TVR_MASK =? 0 then w_cascades exp [tv2; tv3; tv4; tv5] bs else bs in
  shuffled exp bs bs1 /\ forall v, v <> tv1 -> cleared bs1 v.
Proof.
  intros Hok. cbn zeta. change TVR_MASK with (Z.ones 8). rewrite Z.land_ones by lia.
  destruct (Z.eqb_spec (timer_jiffies bs mod 2 ^ 8) 0) as [E|E].
  - destruct (w_cascades_ok exp bs Hok) as [S C]; [by intros ? [= <-] |]. split; [done |]. intros v Hv. by apply C, high_vector.
  - split; [by split |]. intros v Hv. apply (cleared_other exp); [done |]. intros E'. apply E.
    rewrite <- (mod_pow_mod _ 8 (shift v)), E' by (by destruct v). done.
Qed.

Lemma placed_ticks j v i e : placed j v i e -> ticks_to j v i <= remaining j e.
Proof. unfold placed, remaining. destruct v; lia. Qed.

Lemma slot_tv1 j : j .& TVR_MASK = slot_of tv1 j.
Proof. unfold slot_of. by rewrite Z.shiftr_0_r. Qed.

Lemma w_tick_ok exp bs : wheel_ok exp bs -> work_list bs = [] -> ticked exp bs (w_tick exp bs).
Proof.
  intros Hok Hw. destruct (w_cascade_phase exp bs Hok) as [S C]. cbn zeta in S, C. unfold w_tick. cbn zeta.
  set (bs1 := if timer_jiffies bs .& TVR_MASK =? 0 then w_cascades exp [tv2; tv3; tv4; tv5] bs else bs) in *.
  destruct S as [[Hl Hj He Hp Hn] Hq Hr _].
  assert (timer_jiffies bs1 = timer_jiffies bs /\ work_list bs1 = []) as [Ej Ew] by (unfold rest in Hr; split;
    congruence).
  unfold cleared in C. rewrite Ej in *. rewrite slot_tv1. set (j := timer_jiffies bs) in *. set (i := Z.to_nat (slot_of tv1 j)).
  set (bs2 := set_work (bucket bs1 tv1 i) (set_jiffies (u64 (j + 1)) bs1)).
  assert (i < length (tv bs2 tv1))%nat as Hi by (cbn; rewrite Hl; apply slot_of_lt).
  pose proof (queued_clear tv1 i bs2 Hi) as Hc. change (bucket bs2 tv1 i) with (bucket bs1 tv1 i) in Hc.
  change (queued bs2) with (queued bs1) in Hc.
  set (bs' := set_bucket (fun _ => []) tv1 i bs2) in *.
  assert (forall v k t, t ∈ bucket bs' v k -> t ∈ bucket bs1 v k /\ 1 <= ticks_to j v k) as Hb.
  { intros v k t. unfold bs'. rewrite bucket_set by done.
    destruct (decide _) as [|Hk]; [by intros ?%not_elem_of_nil |]. intros Ht. split; [done |].
    destruct (decide (v = tv1)) as [->|Hv]; [| by eapply C]. pose proof (ticks_to_range j tv1 k).
    assert (ticks_to j tv1 k <> 0); [| lia]. rewrite ticks_now; [by intros [_ ->]; apply Hk | lia |]. rewrite <- Hl.
    change (bucket bs2 tv1 k) with (bucket bs1 tv1 k) in Ht. by apply (bucket_lt bs1 tv1 k t). }
  assert (forall t, t ∈ bucket bs1 tv1 i -> remaining j (exp t) = 0) as Hd.
  { intros t Ht. apply Hp in Ht. unfold placed in Ht. unfold remaining. rewrite <- Ht.
    apply ticks_now; [lia | by rewrite <- Hl |].
    by rewrite Z.mod_1_r. }
  assert (forall t, t ∈ queued bs' -> 1 <= left_ j (exp t)) as Hs.
  { intros t (v & k & Ht)%elem_of_queued. apply Hb in Ht as [Ht Hk]. apply Hp, placed_ticks in Ht. unfold remaining in Ht. lia. }
  split; [split; [| by apply uwrap_range | | |] | done | by injection Hr; intros; split | by rewrite <- Hq, Hc | |].
  - intros v. unfold bs'. cbn. destruct (decide (v = tv1)); [rewrite length_alter |]; apply Hl.
  - intros t Ht. apply He. rewrite Hc, elem_of_app. by right.
  - intros v k t [Ht Hk]%Hb. apply placed_tick; [done | by apply Hp | done].
  - change (work_list bs') with (bucket bs1 tv1 i). rewrite (Permutation_app_comm (queued bs')), <- Hc.
    rewrite Ew, app_nil_r in Hn. done.
  - intros t Ht. change (work_list bs') with (bucket bs1 tv1 i). split; [apply Hd |]. intros Hr0.
    rewrite <- Hq, Hc, elem_of_app in Ht.
    destruct Ht as [Ht|Ht]; [done |]. apply Hs in Ht. unfold remaining in Hr0. fold j in Hr0. lia.
  - intros t Ht. apply Hs in Ht. change (timer_jiffies bs') with (u64 (j + 1)). fold j. unfold remaining.
    rewrite left_tick by lia. lia.
Qed.

End TimerWheel.
