(* ===== verification/TimerSystem.v ===== *)
(** * Timers of all CPUs

    The invariant of the timers and bases of the whole system, that every
    operation of kernel/timer.c keeps it whatever runs in between, and what
    the operations do to the timers that they do and do not name. *)
From stdpp Require Import relations.
From S2P Require Import Prelude Timer TimerWheel.

Module TimerSystem.
Import Timer TimerWheel.

(** ** Base pointers *)

Lemma deferrable_mod p : tbase_get_deferrable p = p mod 2.
Proof.
  unfold tbase_get_deferrable, uwrap. change 1 with (Z.ones 1). rewrite Z.land_ones by lia.
  by apply (mod_pow_mod p 1 32).
Qed.

Lemma flag_range p : tbase_get_deferrable p = 0 \/ tbase_get_deferrable p = 1.
Proof. rewrite deferrable_mod. pose proof (Z.mod_pos_bound p 2). lia. Qed.

Lemma even_bit b : b mod 2 = 0 -> Z.testbit b 0 = false.
Proof. intros H. rewrite Z.bit0_odd. rewrite Zmod_odd in H. by destruct (Z.odd b). Qed.

Lemma get_base_lor b f : b mod 2 = 0 -> f = 0 \/ f = 1 -> tbase_get_base (b .| f) = b.
Proof.
  intros Hb Hf. unfold tbase_get_base. apply Z.bits_inj'. intros n Hn.
  rewrite Z.land_spec, Z.lor_spec, Z.lnot_spec by lia.
  destruct (decide (n = 0)) as [->|Hn0]; [by rewrite (even_bit b Hb), andb_false_r |].
  assert (Z.testbit f n = false /\ Z.testbit 1 n = false) as [-> ->].
  { destruct Hf as [-> | ->]; rewrite ?Z.testbit_0_l; split; try done; apply (testbit_high 1 1); lia. }
  by rewrite orb_false_r, andb_true_r.
Qed.

Lemma get_base_even b : b mod 2 = 0 -> tbase_get_base b = b.
Proof. intros Hb. rewrite <- (Z.lor_0_r b) at 1. apply get_base_lor; auto. Qed.

Lemma get_base_set p b : b mod 2 = 0 -> tbase_get_base (b .| tbase_get_deferrable p) = b.
Proof. intros Hb. apply get_base_lor; [done | apply flag_range]. Qed.

Lemma deferrable_set p b : b mod 2 = 0 -> tbase_get_deferrable (b .| tbase_get_deferrable p) = tbase_get_deferrable p.
Proof.
  intros Hb. rewrite (deferrable_mod (_ .| _)). destruct (flag_range p) as [-> | ->].
  - by rewrite Z.lor_0_r.
  - rewrite Zmod_odd, <- Z.bit0_odd, Z.lor_spec. by rewrite orb_true_r.
Qed.

(** ** The invariant *)

Definition lists (bs : tvec_base) : list Z := queued bs ++ work_list bs.

(** The base of a timer. *)
Definition of_base (tl : timer_list) : Z := tbase_get_base (base tl).

(** [exc] is a timer that is in no list while its owner changes it. *)
Record sys_ok (exc : option Z) (st : timers) : Prop := SysOk {
  t_base b bs : bases st !! b = Some bs -> 0 < b /\ b mod 2 = 0 /\ wheel_ok (expires_of st) bs;
  t_listed b bs t : bases st !! b = Some bs -> t ∈ lists bs ->
    exists tl, heap st !! t = Some tl /\ entry_next tl = true /\ of_base tl = b /\ exc <> Some t;
  t_expires t tl : heap st !! t = Some tl -> 0 <= expires tl < 2 ^ 64 /\ t <> 0;
  t_queued t tl : heap st !! t = Some tl -> exc <> Some t -> entry_next tl = true -> of_base tl <> 0 ->
    exists bs, bases st !! of_base tl = Some bs /\ t ∈ lists bs;
  t_moving t tl : heap st !! t = Some tl -> exc <> Some t -> of_base tl = 0 <-> is_Some (moving st !! t);
  t_target t b e : moving st !! t = Some (b, e) -> is_Some (heap st !! t) /\ is_Some (bases st !! b) /\ 0 <= e < 2 ^ 64;
  t_home t tl : heap st !! t = Some tl -> of_base tl = 0 \/ is_Some (bases st !! of_base tl);
  t_running b bs tl : bases st !! b = Some bs -> heap st !! running_timer bs = Some tl -> of_base tl = b;
  t_cpu cpu : is_Some (bases st !! tvec_bases st cpu)
}.
Abbreviation timers_ok := (sys_ok None).

Lemma wheel_ok_ext exp exp' bs : (forall t, t ∈ queued bs -> exp t = exp' t) -> wheel_ok exp bs -> wheel_ok exp' bs.
Proof.
  intros He [H1 H2 H3 H4 H5]. split; [done | done | | | done].
  - intros t Ht. rewrite <- He by done. by apply H3.
  - intros v i t Ht. rewrite <- He; [by apply H4 |]. apply elem_of_queued. by exists v, i.
Qed.

Lemma wheel_ok_rest exp bs bs' :
  tv bs' = tv bs -> timer_jiffies bs' = timer_jiffies bs -> work_list bs' = work_list bs -> wheel_ok exp bs -> wheel_ok exp bs'.
Proof.
  intros E1 E2 E3 [H1 H2 H3 H4 H5]. assert (queued bs' = queued bs) as Eq by (unfold queued; by rewrite E1).
  split; rewrite ?E1, ?E2, ?Eq, ?E3; try done. intros v i t. unfold bucket. rewrite E1. apply H4.
Qed.

Lemma get_timer_Ret t tl st : heap st !! t = Some tl -> get_timer t st = Ret tl.
Proof. unfold get_timer. by intros ->. Qed.
Lemma get_base_Ret b bs st : bases st !! b = Some bs -> get_base b st = Ret bs.
Proof. unfold get_base. by intros ->. Qed.

Lemma set_entry_id e tl : entry_next tl = e -> set_entry e tl = tl.
Proof. intros <-. by destruct tl. Qed.

(** ** Unlinking *)

Lemma list_del_id t l : t ∉ l -> list_del t l = l.
Proof.
  induction l as [|u l IH]; intros Hn; [done |]. apply not_elem_of_cons in Hn as [Hn Hn']. unfold list_del.
  rewrite filter_cons_True by done.
  f_equal. by apply IH.
Qed.

Lemma elem_of_timer_del t u l : u ∈ list_del t l <-> u <> t /\ u ∈ l.
Proof. unfold list_del. by rewrite list_elem_of_filter. Qed.

Lemma bucket_unlink t bs v i : bucket (unlink t bs) v i = list_del t (bucket bs v i).
Proof.
  unfold bucket, unlink. cbn. change (map (list_del t) (tv bs v)) with (list_del t <$> tv bs v).
  rewrite list_lookup_fmap. by destruct (_ !! _).
Qed.

Lemma queued_unlink t bs : queued (unlink t bs) = list_del t (queued bs).
Proof.
  unfold queued. generalize vectors as vs. assert (forall L, mjoin (map (list_del t) L) = list_del t (mjoin L)) as Hj.
  { induction L as [|l L IH]; [done |]. simpl. rewrite IH. unfold list_del. by rewrite filter_app. }
  induction vs as [|v vs IH]; [done |]. cbn [mbind list_bind]. unfold list_del. rewrite filter_app.
  f_equal; [apply Hj | apply IH].
Qed.

Lemma elem_of_unlink t bs u : u ∈ lists (unlink t bs) <-> u <> t /\ u ∈ lists bs.
Proof.
  unfold lists. rewrite queued_unlink. change (work_list (unlink t bs)) with (list_del t (work_list bs)).
  rewrite !elem_of_app, !elem_of_timer_del. tauto.
Qed.

Lemma unlink_ok exp t bs : wheel_ok exp bs -> wheel_ok exp (unlink t bs).
Proof.
  intros [H1 H2 H3 H4 H5]. split; [| done | | |].
  - intros v. cbn. rewrite length_map. apply H1.
  - intros u. rewrite queued_unlink. intros [_ Hu]%elem_of_timer_del. by apply H3.
  - intros v i u. rewrite bucket_unlink. intros [_ Hu]%elem_of_timer_del. by apply H4.
  - rewrite queued_unlink. cbn. unfold list_del. rewrite <- filter_app. by apply NoDup_filter.
Qed.

(** ** What an operation on one timer leaves alone *)

Record kept (t : Z) (bs bs' : tvec_base) : Prop := Kept {
  p_running : running_timer bs' = running_timer bs;
  p_now : timer_jiffies bs' = timer_jiffies bs;
  p_work : work_list bs' = work_list bs \/ work_list bs' = list_del t (work_list bs);
  p_queued u : u <> t -> u ∈ queued bs' <-> u ∈ queued bs
}.

Record touched (t : Z) (st st' : timers) : Prop := Touched {
  f_heap u : u <> t -> heap st' !! u = heap st !! u;
  f_moving u : u <> t -> moving st' !! u = moving st !! u;
  f_cpu : tvec_bases st' = tvec_bases st;
  f_base b bs : bases st !! b = Some bs -> exists bs', bases st' !! b = Some bs' /\ kept t bs bs';
  f_none b : bases st !! b = None -> bases st' !! b = None
}.

#[export] Instance kept_preorder t : PreOrder (kept t).
Proof.
  split; [by split; [| | left |] |]. intros bs1 bs2 bs3 [A1 A2 A3 A4] [B1 B2 B3 B4]. split; [congruence | congruence | |].
  - assert (list_del t (list_del t (work_list bs1)) = list_del t (work_list bs1)) as E.
    { apply list_del_id. by intros [? _]%elem_of_timer_del. }
    destruct A3 as [A3|A3], B3 as [B3|B3]; rewrite B3, A3, ?E; auto.
  - intros u Hu. by rewrite B4, A4.
Qed.

#[export] Instance touched_preorder t : PreOrder (touched t).
Proof.
  split; [split; try done; intros b bs ->; by exists bs |]. intros st1 st2 st3 [A1 A2 A3 A4 A5] [B1 B2 B3 B4 B5]. split.
  - intros u Hu. by rewrite B1, A1.
  - intros u Hu. by rewrite B2, A2.
  - congruence.
  - intros b bs (bs2 & Hb & K)%A4. apply B4 in Hb as (bs3 & Hb & K'). exists bs3. split; [done | by etrans].
  - intros b Hb. by apply B5, A5.
Qed.

Lemma touched_put_timer f t st : touched t st (put_timer f t st).
Proof. split; try done; cbn; [intros u Hu; by rewrite lookup_alter_ne | intros b bs ->; by exists bs]. Qed.

Lemma touched_moving t o st : touched t st (set_moving (partial_alter (fun _ => o) t (moving st)) st).
Proof. split; try done; cbn; [intros u Hu; by rewrite lookup_partial_alter_ne | intros b bs ->; by exists bs]. Qed.

Lemma touched_put_base f b t st : (forall bs, bases st !! b = Some bs -> kept t bs (f bs)) -> touched t st (put_base f b st).
Proof.
  intros Hf. split; try done; cbn.
  - intros b' bs Hb. destruct (decide (b' = b)) as [->|Hn]; [rewrite lookup_alter_eq, Hb; exists (f bs); auto |].
    rewrite lookup_alter_ne by done. by exists bs.
  - intros b' Hb. destruct (decide (b' = b)) as [->|Hn]; [by rewrite lookup_alter_eq, Hb | by rewrite lookup_alter_ne].
Qed.

Definition unlink_all (t : Z) (st : timers) : timers := Timers (heap st) (unlink t <$> bases st) (tvec_bases st) (moving st).

Lemma touched_unlink t st : touched t st (unlink_all t st).
Proof.
  split; try done; cbn; [| intros b Hb; by rewrite lookup_fmap, Hb]. intros b bs Hb. rewrite lookup_fmap, Hb.
  exists (unlink t bs). split; [done |].
  split; [done | done | by right |]. intros u Hu. rewrite queued_unlink, elem_of_timer_del. tauto.
Qed.

(** ** Steps that keep the invariant *)

Lemma unlink_all_ok t tl st : timers_ok st -> heap st !! t = Some tl -> sys_ok (Some t) (unlink_all t st).
Proof.
  intros [H1 H2 H3 H4 H5 H6 H7 H8 H9] Ht.
  assert (forall b bs, bases (unlink_all t st) !! b = Some bs -> exists bs0, bases st !! b = Some bs0 /\ bs = unlink t bs0) as Hb.
  { intros b bs. cbn. rewrite lookup_fmap. destruct (bases st !! b) as [bs0|]; [intros [= <-]; by exists bs0 | done]. }
  split; try done.
  - intros b bs (bs0 & E & ->)%Hb. destruct (H1 _ _ E) as (? & ? & ?). split_and!; try done. by apply unlink_ok.
  - intros b bs u (bs0 & E & ->)%Hb. intros [Hu Hl]%elem_of_unlink. destruct (H2 _ _ _ E Hl) as (ul & ? & ? & ? & _).
    exists ul. split_and!; try done. congruence.
  - intros u ul Eu Hu He Hz. destruct (H4 u ul) as (bs & Eb & Hl); try done. exists (unlink t bs). cbn.
    rewrite lookup_fmap, Eb. split; [done |].
    apply elem_of_unlink. split; [congruence | done].
  - intros u ul Eu Hu. exact (H5 u ul Eu ltac:(done)).
  - intros u b e Em. cbn. rewrite lookup_fmap, fmap_is_Some. exact (H6 _ _ _ Em).
  - intros u ul Eu. cbn. rewrite lookup_fmap, fmap_is_Some. exact (H7 _ _ Eu).
  - intros b bs ul (bs0 & E & ->)%Hb. cbn. exact (H8 _ _ _ E).
  - intros cpu. cbn. rewrite lookup_fmap, fmap_is_Some. apply H9.
Qed.

(** Writing fields of the timer that is in no list. *)
Lemma exc_put f t tl st :
  sys_ok (Some t) st -> heap st !! t = Some tl -> 0 <= expires (f tl) < 2 ^ 64 ->
  (of_base (f tl) = 0 \/ is_Some (bases st !! of_base (f tl))) ->
  (forall b bs, bases st !! b = Some bs -> running_timer bs = t -> of_base (f tl) = b) ->
  sys_ok (Some t) (put_timer f t st).
Proof.
  intros [H1 H2 H3 H4 H5 H6 H7 H8 H9] Ht He Hh Hr.
  assert (forall u ul, u <> t -> heap (put_timer f t st) !! u = Some ul -> heap st !! u = Some ul) as Hu
    by (intros u ul Hn; cbn; by rewrite lookup_alter_ne).
  assert (forall u ul, u <> t -> heap st !! u = Some ul -> heap (put_timer f t st) !! u = Some ul) as Hu'
    by (intros u ul Hn; cbn; by rewrite lookup_alter_ne).
  assert (heap (put_timer f t st) !! t = Some (f tl)) as Et by (cbn; by rewrite lookup_alter_eq, Ht).
  split; cbn [put_timer bases moving tvec_bases].
  - intros b bs Eb. destruct (H1 _ _ Eb) as (? & ? & Hw). split_and!; try done. eapply wheel_ok_ext; [| done].
    intros u Hq. unfold expires_of.
    assert (u <> t) as Hn by (destruct (H2 b bs u Eb) as (? & _ & _ & _ & ?);
      [apply elem_of_app; by left | congruence]). cbn. by rewrite lookup_alter_ne.
  - intros b bs u Eb Hl. destruct (H2 _ _ _ Eb Hl) as (ul & ? & ? & ? & ?). exists ul. split_and!; try done.
    apply Hu'; [congruence | done].
  - intros u ul Eu. destruct (decide (u = t)) as [->|Hn]; [| by apply H3, Hu]. rewrite Et in Eu. simplify_eq.
    split; [done |]. by apply (H3 t tl).
  - intros u ul Eu Hn. apply H4; [apply Hu; [congruence | done] | done].
  - intros u ul Eu Hn. apply H5; [apply Hu; [congruence | done] | done].
  - intros u b e Em. destruct (H6 _ _ _ Em) as [Hs ?]. split; [| done].
    destruct (decide (u = t)) as [->|Hn]; [by rewrite Et |]. destruct Hs as [ul Es].
    rewrite (Hu' _ _ Hn Es). done.
  - intros u ul Eu. destruct (decide (u = t)) as [->|Hn]; [rewrite Et in Eu; by simplify_eq |]. by apply (H7 u), Hu.
  - intros b bs ul Eb Er. destruct (decide (running_timer bs = t)) as [E|Hn]; [rewrite E, Et in Er; simplify_eq;
      by eapply Hr |]. eapply H8; [done | by apply Hu].
  - done.
Qed.

Lemma exc_moving (o : option (Z * Z)) t st :
  sys_ok (Some t) st -> (forall b e, o = Some (b, e) -> is_Some (heap st !! t) /\ is_Some (bases st !! b) /\ 0 <= e < 2 ^ 64) ->
  sys_ok (Some t) (set_moving (partial_alter (fun _ => o) t (moving st)) st).
Proof.
  intros [H1 H2 H3 H4 H5 H6 H7 H8 H9] Ho. split; try done; cbn.
  - intros u ul Eu Hn. rewrite lookup_partial_alter_ne by congruence. by apply H5.
  - intros u b e. destruct (decide (u = t)) as [->|Hn]; [rewrite lookup_partial_alter_eq;
      apply Ho | rewrite lookup_partial_alter_ne by done; apply H6].
Qed.

(** Writing [next_timer] or [running_timer]. *)
Lemma base_put exc f b st :
  sys_ok exc st ->
  (forall bs, bases st !! b = Some bs -> tv (f bs) = tv bs /\ timer_jiffies (f bs) = timer_jiffies bs /\
    work_list (f bs) = work_list bs /\
     forall tl, heap st !! running_timer (f bs) = Some tl -> of_base tl = b) ->
  sys_ok exc (put_base f b st).
Proof.
  intros [H1 H2 H3 H4 H5 H6 H7 H8 H9] Hf.
  assert (forall c bs, bases (put_base f b st) !! c = Some bs -> (c <> b /\ bases st !! c = Some bs) \/
    exists bs0, c = b /\ bases st !! b = Some bs0 /\ bs = f bs0) as Hb.
  { intros c bs. cbn. destruct (decide (c = b)) as [->|Hn]; [| rewrite lookup_alter_ne by done; by left].
    rewrite lookup_alter_eq. intros (bs0 & ? & ->)%fmap_Some. right. by exists bs0. }
  assert (forall c, is_Some (bases (put_base f b st) !! c) <-> is_Some (bases st !! c)) as Hs.
  { intros c. cbn. destruct (decide (c = b)) as [->|Hn];
      [by rewrite lookup_alter_eq, fmap_is_Some | by rewrite lookup_alter_ne]. }
  assert (forall bs, bases st !! b = Some bs -> lists (f bs) = lists bs) as El.
  { intros bs Eb. destruct (Hf _ Eb) as (E1 & _ & E3 & _). unfold lists, queued. by rewrite E1, E3. }
  split; try done.
  - intros c bs [[Hn Eb] | (bs0 & -> & Eb & ->)]%Hb; [by apply H1 |]. destruct (H1 _ _ Eb) as (? & ? & Hw). split_and!; try done.
    destruct (Hf _ Eb) as (E1 & E2 & E3 & _). by eapply wheel_ok_rest.
  - intros c bs u [[Hn Eb] | (bs0 & -> & Eb & ->)]%Hb; [by apply H2 |]. rewrite (El _ Eb). by apply H2.
  - intros u ul Eu Hu He Hz. destruct (H4 _ _ Eu Hu He Hz) as (bs & Eb & Hl). cbn [put_base bases].
    destruct (decide (of_base ul = b)) as [E|Hn].
    + rewrite E in *. exists (f bs). rewrite lookup_alter_eq, Eb, (El _ Eb). done.
    + exists bs. by rewrite lookup_alter_ne.
  - intros u c e Em. rewrite Hs. exact (H6 _ _ _ Em).
  - intros u ul Eu. rewrite Hs. exact (H7 _ _ Eu).
  - intros c bs ul [[Hn Eb] | (bs0 & -> & Eb & ->)]%Hb; [exact (H8 _ _ _ Eb) |]. apply Hf, Eb.
  - intros cpu. rewrite Hs. apply H9.
Qed.

Lemma set_next_ok exc b e st : sys_ok exc st -> sys_ok exc (put_base (set_next e) b st).
Proof. intros H. apply base_put; [done |]. intros bs Eb. split_and!; try done. intros tl. exact (t_running _ _ H _ _ _ Eb). Qed.

(** A timer that is in no list may be changed. *)
Lemma sys_open t st : timers_ok st -> (forall b bs, bases st !! b = Some bs -> t ∉ lists bs) -> sys_ok (Some t) st.
Proof.
  intros [H1 H2 H3 H4 H5 H6 H7 H8 H9] Hn. split; try done.
  - intros b bs u Eb Hl. destruct (H2 _ _ _ Eb Hl) as (ul & ? & ? & ? & _). exists ul. split_and!; try done.
    intros [= ->]. by eapply Hn.
  - intros u ul Eu _. by apply H4.
  - intros u ul Eu _. by apply H5.
Qed.

Lemma sys_close t tl st :
  sys_ok (Some t) st -> heap st !! t = Some tl -> (entry_next tl = true -> of_base tl = 0) ->
    (of_base tl = 0 <-> is_Some (moving st !! t)) -> timers_ok st.
Proof.
  intros [H1 H2 H3 H4 H5 H6 H7 H8 H9] Ht Hz Hm. split; try done.
  - intros b bs u Eb Hl. destruct (H2 _ _ _ Eb Hl) as (ul & ? & ? & ? & _). by exists ul.
  - intros u ul Eu _ He Hb. destruct (decide (u = t)) as [->|Hn]; [simplify_eq; tauto |]. apply H4; try done. congruence.
  - intros u ul Eu _. destruct (decide (u = t)) as [->|Hn]; [by simplify_eq |]. apply H5; [done | congruence].
Qed.

Lemma not_listed t tl st : timers_ok st -> heap st !! t = Some tl -> entry_next tl = false \/ of_base tl = 0 ->
  forall b bs, bases st !! b = Some bs -> t ∉ lists bs.
Proof.
  intros H Ht Hz b bs Eb Hl. destruct (t_listed _ _ H _ _ _ Eb Hl) as (ul & E & He & Hb & _). simplify_eq.
  destruct (t_base _ _ H _ _ Eb) as [? _]. destruct Hz; [congruence | lia].
Qed.

(** ** Adding a timer *)

Definition added (t b : Z) (bs' : tvec_base) (st : timers) : timers :=
  put_timer (set_entry true) t (put_base (fun _ => bs') b st).

Lemma added_ok t tl b bs bs' st :
  sys_ok (Some t) st -> heap st !! t = Some tl -> of_base tl = b -> bases st !! b = Some bs -> moving st !! t = None ->
  grew (expires_of st) bs [t] bs' -> timers_ok (added t b bs' st).
Proof.
  intros [H1 H2 H3 H4 H5 H6 H7 H8 H9] Ht Hb Eb Hm [G1 G2 G3 _]. pose proof (H1 _ _ Eb) as (Hb0 & Hbe & _).
  assert (heap (added t b bs' st) !! t = Some (set_entry true tl)) as Et by (cbn; by rewrite lookup_alter_eq, Ht).
  assert (forall u, u <> t -> heap (added t b bs' st) !! u = heap st !! u) as Eu by (intros u Hn; cbn;
    by rewrite lookup_alter_ne).
  assert (bases (added t b bs' st) !! b = Some bs') as Ebb by (cbn; by rewrite lookup_alter_eq, Eb).
  assert (forall c, c <> b -> bases (added t b bs' st) !! c = bases st !! c) as Ec by (intros c Hn; cbn;
    by rewrite lookup_alter_ne).
  assert (forall c, is_Some (bases (added t b bs' st) !! c) <-> is_Some (bases st !! c)) as Hs.
  { intros c. destruct (decide (c = b)) as [->|Hn]; [by rewrite Ebb, Eb | by rewrite Ec]. }
  assert (forall u, expires_of (added t b bs' st) u = expires_of st u) as Ee.
  { intros u. unfold expires_of. destruct (decide (u = t)) as [->|Hn]; [by rewrite Et, Ht | by rewrite Eu]. }
  injection G3 as Er _ _ Ew.
  assert (forall u, u ∈ lists bs' <-> u = t \/ u ∈ lists bs) as Hl.
  { intros u. unfold lists. rewrite Ew, !elem_of_app, G2, elem_of_app, list_elem_of_singleton. tauto. }
  assert (forall u ul, heap (added t b bs' st) !! u = Some ul -> exists ul0, heap st !! u = Some ul0 /\
    of_base ul = of_base ul0 /\ expires ul = expires ul0 /\
    (u <> t -> ul = ul0)) as Hh.
  { intros u ul. destruct (decide (u = t)) as [->|Hn]; [rewrite Et; intros [= <-]; by exists tl | rewrite Eu by done;
      intros E; by exists ul]. }
  split.
  - intros c cs Hc. destruct (decide (c = b)) as [->|Hn].
    + rewrite Ebb in Hc. simplify_eq. split_and!; try done. by apply (wheel_ok_ext (expires_of st)).
    + rewrite Ec in Hc by done. destruct (H1 _ _ Hc) as (? & ? & ?). split_and!; try done.
      by apply (wheel_ok_ext (expires_of st)).
  - intros c cs u Hc Hu. destruct (decide (u = t)) as [->|Hn].
    { exists (set_entry true tl). split_and!; try done. destruct (decide (c = b)) as [->|Hcb]; [done |]. rewrite Ec in Hc by done.
      by destruct (H2 _ _ _ Hc Hu) as (? & ? & ? & ? & []). }
    assert (exists cs0, bases st !! c = Some cs0 /\ u ∈ lists cs0) as (cs0 & Hc0 & Hu0).
    { destruct (decide (c = b)) as [->|Hcb]; [| rewrite Ec in Hc by done; by exists cs]. exists bs. rewrite Ebb in Hc.
      simplify_eq.
      apply Hl in Hu as [|]; done. }
    destruct (H2 _ _ _ Hc0 Hu0) as (ul & ? & ? & ? & ?). exists ul. rewrite Eu by done. done.
  - intros u ul (ul0 & E0 & _ & -> & _)%Hh. by apply H3.
  - intros u ul Hu _ He Hz. destruct (decide (u = t)) as [->|Hn].
    + rewrite Et in Hu. simplify_eq. exists bs'. split; [done |]. apply Hl. by left.
    + rewrite Eu in Hu by done. destruct (H4 u ul) as (cs & Hc & Hu'); try done; [congruence |].
      destruct (decide (of_base ul = b)) as [E|Hcb]; [| exists cs; by rewrite Ec]. rewrite E in *. exists bs'.
      split; [done |]. apply Hl. right. congruence.
  - intros u ul Hu _. destruct (decide (u = t)) as [->|Hn].
    + rewrite Et in Hu. simplify_eq. change (moving (added _ _ _ _)) with (moving st). rewrite Hm.
      split; [| by intros []]. intros E. unfold of_base in *. cbn in E. lia.
    + rewrite Eu in Hu by done. apply H5; [done | congruence].
  - intros u c e Em. rewrite Hs. destruct (decide (u = t)) as [->|Hn]; [| rewrite Eu by done; exact (H6 _ _ _ Em)].
    cbn in Em. congruence.
  - intros u ul (ul0 & E0 & -> & _)%Hh. rewrite Hs. exact (H7 _ _ E0).
  - intros c cs ul Hc Hr. apply Hh in Hr as (ul0 & E0 & -> & _). destruct (decide (c = b)) as [->|Hn].
    + rewrite Ebb in Hc. simplify_eq. rewrite Er in E0. exact (H8 _ _ _ Eb E0).
    + rewrite Ec in Hc by done. exact (H8 _ _ _ Hc E0).
  - intros cpu. rewrite Hs. apply H9.
Qed.

Lemma exc_not_listed t st b bs : sys_ok (Some t) st -> bases st !! b = Some bs -> t ∉ lists bs.
Proof. intros H Eb Hl. by destruct (t_listed _ _ H _ _ _ Eb Hl) as (? & _ & _ & _ & []). Qed.

Lemma internal_add_ok t tl b bs st :
  sys_ok (Some t) st -> heap st !! t = Some tl -> of_base tl = b -> bases st !! b = Some bs -> moving st !! t = None ->
  exists st', internal_add_timer b t st = Ret st' /\ timers_ok st' /\ touched t st st' /\
    heap st' !! t = Some (set_entry true tl) /\
    exists bs', bases st' !! b = Some bs' /\ t ∈ queued bs'.
Proof.
  intros H Ht Hb Eb Hm. unfold internal_add_timer, get_timer, get_base. rewrite Ht, Eb. simpl.
  destruct (timer_vec (timer_jiffies bs) (expires tl)) as [v i] eqn:Ev. eexists. split; [reflexivity |].
  set (f := set_bucket _ _ _). pose proof (exc_not_listed _ _ _ _ H Eb) as Hn. unfold lists in Hn. rewrite elem_of_app in Hn.
  assert (grew (expires_of st) bs [t] (f bs)) as G.
  { assert (expires_of st t = expires tl) as Ee by (unfold expires_of; by rewrite Ht).
    assert (f bs = w_add (expires_of st) bs t) as -> by (unfold w_add; by rewrite Ee, Ev).
    apply w_add_ok; [by apply (t_base _ _ H b) | rewrite Ee; by apply (t_expires _ _ H t) | tauto | tauto]. }
  assert (put_base f b st = put_base (fun _ => f bs) b st) as ->.
  { unfold put_base. f_equal. apply map_eq. intros c.
    destruct (decide (c = b)) as [->|Hc]; [by rewrite !lookup_alter_eq, Eb | by rewrite !lookup_alter_ne]. }
  split; [by apply (added_ok t tl b bs) |].
  split; [| split; [cbn; by rewrite lookup_alter_eq, Ht | exists (f bs); split;
    [cbn; by rewrite lookup_alter_eq, Eb |]]].
  - etrans; [apply touched_put_base | apply touched_put_timer]. intros bs0 E. simplify_eq. destruct G as [_ G2 _ _].
    split; [done | done | by left |]. intros u Hu. rewrite G2, elem_of_app, list_elem_of_singleton. tauto.
  - rewrite (g_queued _ _ _ _ G). set_solver.
Qed.

Lemma kept_set_next t e bs : kept t bs (set_next e bs).
Proof. by split; [| | left |]. Qed.

Lemma enqueue_ok t tl b st :
  sys_ok (Some t) st -> heap st !! t = Some tl -> of_base tl = b -> is_Some (bases st !! b) -> moving st !! t = None ->
  exists st', enqueue b t st = Ret st' /\ timers_ok st' /\ touched t st st' /\ heap st' !! t = Some (set_entry true tl) /\
    exists bs', bases st' !! b = Some bs' /\ t ∈ queued bs'.
Proof.
  intros H Ht Hb [bs Eb] Hm. unfold enqueue. rewrite (get_timer_Ret _ _ _ Ht), (get_base_Ret _ _ _ Eb), !run_bind_Ret.
  set (st1 := if time_before (expires tl) (next_timer bs) && (tbase_get_deferrable (base tl) =? 0) then put_base
    (set_next (expires tl)) b st else st).
  assert (sys_ok (Some t) st1 /\ touched t st st1 /\ heap st1 = heap st /\ moving st1 = moving st /\
    is_Some (bases st1 !! b)) as (S1 & T1 & E1 & E2 & [bs1 Eb1]).
  { unfold st1. destruct (_ && _); [| by rewrite Eb]. split_and!; try done.
    - by apply set_next_ok.
    - apply touched_put_base. intros. apply kept_set_next.
    - cbn. by rewrite lookup_alter_eq, Eb. }
  destruct (internal_add_ok t tl b bs1 st1) as (st' & -> & ? & ? & ? & ?); try congruence.
  exists st'. split_and!; try done. by etrans.
Qed.

(** ** Taking a timer off its list *)

Lemma detach_ok t tl b clear st :
  timers_ok st -> heap st !! t = Some tl -> of_base tl = b -> b <> 0 ->
  exists ret st', detach_pending b t clear st = Ret (ret, st') /\ sys_ok (Some t) st' /\ touched t st st' /\
    ret = Z.b2z (entry_next tl) /\ heap st' !! t = Some (set_entry (entry_next tl && negb clear) tl) /\
      moving st' = moving st /\ (entry_next tl = false -> st' = st).
Proof.
  intros H Ht Hb Hz. unfold detach_pending. rewrite (get_timer_Ret _ _ _ Ht), run_bind_Ret. unfold timer_pending.
  destruct (entry_next tl) eqn:En.
  2: { exists 0, st. split_and!; try done; [by apply sys_open; [| eapply not_listed; eauto] |]. cbn. by rewrite set_entry_id. }
  destruct (t_home _ _ H _ _ Ht) as [|[bs Eb]]; [congruence |]. rewrite Hb in Eb.
  set (st1 := detach_timer t clear st).
  assert (sys_ok (Some t) st1 /\ touched t st st1 /\ heap st1 !! t = Some (set_entry (negb clear) tl) /\
    moving st1 = moving st /\ bases st1 !! b = Some (unlink t bs))
    as (S1 & T1 & E1 & E2 & Eb1).
  { pose proof (unlink_all_ok t tl st H Ht) as Hu. pose proof (touched_unlink t st) as Tu. unfold st1, detach_timer.
    fold (unlink_all t st).
    assert (bases (unlink_all t st) !! b = Some (unlink t bs)) as Eu by (cbn; by rewrite lookup_fmap, Eb). destruct clear.
    - split_and!; try done; [| by etrans; [| apply touched_put_timer] | cbn; by rewrite lookup_alter_eq, Ht].
      apply (exc_put _ t tl); try done; [exact (proj1 (t_expires _ _ H _ _ Ht)) | right;
        change (is_Some (bases (unlink_all t st) !! of_base tl)); by rewrite Hb, Eu |].
      intros c cs Ec Er. apply (t_running _ _ Hu c cs tl); [done | by rewrite Er].
    - split_and!; try done. cbn. by rewrite set_entry_id. }
  cbn zeta. fold st1. rewrite (get_timer_Ret _ _ _ E1), run_bind_Ret, (get_base_Ret _ _ _ Eb1), run_bind_Ret.
  eexists _, _. split; [reflexivity |].
  set (c := _ && _). destruct c.
  - split_and!; try done; [by apply set_next_ok | etrans; [exact T1 |]; apply touched_put_base; intros; apply kept_set_next].
  - by split_and!.
Qed.

(** ** The operations on timers *)

(** Timer [t] is in the wheel of [b] and expires at [e]. *)
Definition armed (t b e : Z) (st : timers) : Prop :=
  exists tl bs, heap st !! t = Some tl /\ expires tl = e /\ of_base tl = b /\ bases st !! b = Some bs /\ t ∈ queued bs.

Lemma mod_finish_ok t tl b e st :
  sys_ok (Some t) st -> heap st !! t = Some tl -> of_base tl = b -> is_Some (bases st !! b) -> moving st !! t = None ->
    0 <= e < 2 ^ 64 ->
  exists st', mod_finish b t e st = Ret st' /\ timers_ok st' /\ touched t st st' /\ armed t b e st'.
Proof.
  intros H Ht Hb Hs Hm He. unfold mod_finish. set (st1 := put_timer (set_expires e) t st).
  assert (heap st1 !! t = Some (set_expires e tl)) as E1 by (cbn; by rewrite lookup_alter_eq, Ht).
  assert (sys_ok (Some t) st1) as S1.
  { apply (exc_put _ t tl); try done; [right; change (of_base (set_expires e tl)) with (of_base tl); by rewrite Hb |].
    intros c cs Ec Er. apply (t_running _ _ H c cs tl); [done | by rewrite Er]. }
  destruct (enqueue_ok t (set_expires e tl) b st1) as (st' & -> & ? & T & Et & bs' & Eb & Hq); try done.
  exists st'. split_and!; try done; [by etrans; [apply touched_put_timer |] |]. eexists _, bs'. by split_and!.
Qed.

Lemma set_base_ok t tl b st :
  sys_ok (Some t) st -> heap st !! t = Some tl -> b mod 2 = 0 -> b = 0 \/ is_Some (bases st !! b) ->
  (forall c cs, bases st !! c = Some cs -> running_timer cs = t -> c = b) ->
  sys_ok (Some t) (timer_set_base t b st) /\ touched t st (timer_set_base t b st) /\
  exists tl', heap (timer_set_base t b st) !! t = Some tl' /\ of_base tl' = b /\ entry_next tl' = entry_next tl.
Proof.
  intros H Ht Hb Hs Hr. assert (of_base (set_base (b .| tbase_get_deferrable (base tl)) tl) = b) as E by (by apply get_base_set).
  split_and!; [| apply touched_put_timer | eexists; split; [cbn; by rewrite lookup_alter_eq, Ht | done]].
  apply (exc_put _ t tl); try done; [exact (proj1 (t_expires _ _ H _ _ Ht)) | by rewrite E |]. intros c cs Ec Er.
  rewrite E. symmetry. by eapply Hr.
Qed.

(** The call of [__mod_timer] either is over or has left the timer to its second part. *)
Definition mod_result (cpu t e : Z) (tl : timer_list) (pending_only : bool) (st st' : timers) (r : Z + Z) : Prop :=
  match r with
  | inl ret => ret = Z.b2z (entry_next tl) /\ (if negb (entry_next tl) && pending_only then st' = st
      else armed t (of_base tl) e st' /\ (of_base tl = per_cpu st cpu \/ exists bs, bases st !! of_base tl = Some bs /\
        running_timer bs = t))
  | inr ret => ret = Z.b2z (entry_next tl) /\ negb (entry_next tl) && pending_only = false /\
    moving st' !! t = Some (per_cpu st cpu, e)
  end.

Lemma mod_begin_ok cpu t e pending_only tl st :
  timers_ok st -> heap st !! t = Some tl -> function tl <> 0 -> 0 <= e < 2 ^ 64 -> of_base tl <> 0 ->
  exists st' r, mod_begin cpu t e pending_only st = Ret (st', r) /\ timers_ok st' /\ touched t st st' /\
    mod_result cpu t e tl pending_only st st' r.
Proof.
  intros H Ht Hf He Hz. unfold mod_begin, lock_timer_base.
  rewrite (get_timer_Ret _ _ _ Ht), !run_bind_Ret, (proj2 (Z.eqb_neq _ _) Hf).
  fold (of_base tl). rewrite (proj2 (Z.eqb_neq _ _) Hz), run_bind_Ret.
  destruct (detach_ok t tl (of_base tl) false st) as (ret & st1 & -> & S1 & T1 & -> & Et & Em & Hsame); try done.
  rewrite run_bind_Ret.
  assert (moving st1 !! t = None) as Hm.
  { rewrite Em. destruct (moving st !! t) eqn:E; [| done]. exfalso.
    apply Hz, (t_moving _ _ H _ _ Ht); [done | rewrite E; eauto]. }
  destruct (t_home _ _ S1 _ _ Et) as [|[bs Eb]]; [done |]. change (of_base (set_entry _ tl)) with (of_base tl) in Eb.
  destruct ((Z.b2z (entry_next tl) =? 0) && pending_only) eqn:Ep.
  { apply andb_true_iff in Ep as [Ep ->]. destruct (entry_next tl) eqn:En; [done |]. rewrite Hsame by done. exists st, (inl 0).
    unfold mod_result. rewrite En. by split_and!. }
  assert (negb (entry_next tl) && pending_only = false) as Ep' by (destruct (entry_next tl), pending_only; done).
  rewrite (get_base_Ret _ _ _ Eb), run_bind_Ret. destruct (negb (of_base tl =? _) && negb (running_timer bs =? t)) eqn:Eg.
  - apply andb_true_iff in Eg as [_ Er]. apply negb_true_iff, Z.eqb_neq in Er.
    destruct (set_base_ok t _ 0 st1 S1 Et) as (S2 & T2 & tl2 & E2 & Eb2 & _); [done | by left | |].
    { intros c cs Ec Ers. pose proof (t_running _ _ S1 c cs _ Ec ltac:(rewrite Ers; exact Et)) as E.
      change (of_base tl = c) in E. congruence. }
    eexists _, _. split; [reflexivity |]. unfold mod_result. cbn [set_moving moving].
    assert (tvec_bases st1 = tvec_bases st) as Ec by apply T1. unfold per_cpu. rewrite Ec. split_and!.
    + apply (sys_close t tl2); try done; [| cbn; rewrite lookup_insert_eq; split; eauto].
      refine (exc_moving (Some (tvec_bases st cpu, e)) t (timer_set_base t 0 st1) S2 _).
      intros b' e' [= <- <-]. split_and!; try lia; [rewrite E2; eauto |].
      change (is_Some (bases st1 !! tvec_bases st cpu)). rewrite <- Ec. apply (t_cpu _ _ S1).
    + etrans; [exact T1 | etrans; [exact T2 |]]. exact (touched_moving t (Some (tvec_bases st cpu, e)) (timer_set_base t 0 st1)).
    + done.
    + done.
    + apply lookup_insert_eq.
  - destruct (mod_finish_ok t _ (of_base tl) e st1 S1 Et) as (st' & -> & ? & T2 & Ha); try done. rewrite run_bind_Ret.
    eexists _, _. split; [reflexivity |]. unfold mod_result. rewrite Ep'. split_and!; try done; [by etrans |].
    assert (per_cpu st1 cpu = per_cpu st cpu) as Ec by (unfold per_cpu; by rewrite (f_cpu _ _ _ T1)). rewrite Ec in Eg.
    apply andb_false_iff in Eg as [E%negb_false_iff%Z.eqb_eq | E%negb_false_iff%Z.eqb_eq]; [by left |]. right.
    destruct (t_home _ _ H _ _ Ht) as [|[bs0 Eb0]]; [done |]. exists bs0. split; [done |].
    destruct (f_base _ _ _ T1 _ _ Eb0) as (bs1 & Eb1 & K). rewrite Eb in Eb1. injection Eb1 as <-.
    by rewrite <- (p_running _ _ _ K).
Qed.

Lemma mod_end_ok t b e st :
  timers_ok st -> moving st !! t = Some (b, e) -> exists st', mod_end t st = Ret st' /\ timers_ok st' /\
    touched t st st' /\ armed t b e st'.
Proof.
  intros H Hm. unfold mod_end. rewrite Hm. cbn [of_option]. rewrite run_bind_Ret.
  destruct (t_target _ _ H _ _ _ Hm) as ([tl Ht] & [bs Eb] & He).
  assert (of_base tl = 0) as Hz by (apply (t_moving _ _ H _ _ Ht); [done | rewrite Hm; eauto]).
  set (st1 := set_moving (delete t (moving st)) st).
  assert (sys_ok (Some t) st1) as S1 by (apply (exc_moving None t); [apply sys_open; [done |]; eapply not_listed; eauto | done]).
  destruct (t_base _ _ H _ _ Eb) as (Hb0 & Hbe & _).
  destruct (set_base_ok t tl b st1 S1 Ht Hbe) as (S2 & T2 & tl2 & E2 & Eb2 & _); [right; cbn; rewrite Eb; eauto | |].
  { intros c cs Ec Er. pose proof (t_running _ _ S1 c cs tl Ec ltac:(by rewrite Er)). destruct (t_base _ _ H _ _ Ec). lia. }
  destruct (mod_finish_ok t tl2 b e (timer_set_base t b st1)) as (st' & -> & ? & T3 & ?);
    [exact S2 | exact E2 | done | exists bs; exact Eb | apply lookup_delete_eq | done |].
  exists st'. split_and!; try done. etrans; [exact (touched_moving t None st) |]. by etrans.
Qed.

Lemma add_timer_on_ok t cpu tl st :
  timers_ok st -> heap st !! t = Some tl -> entry_next tl = false -> function tl <> 0 -> of_base tl <> 0 ->
  (forall b bs, bases st !! b = Some bs -> running_timer bs <> t) ->
  exists st', add_timer_on t cpu st = Ret st' /\ timers_ok st' /\ touched t st st' /\ armed t (per_cpu st cpu) (expires tl) st'.
Proof.
  intros H Ht Hn Hf Hz Hr. unfold add_timer_on. rewrite (get_timer_Ret _ _ _ Ht), run_bind_Ret. unfold timer_pending.
  rewrite Hn, (proj2 (Z.eqb_neq _ _) Hf).
  cbn [orb]. destruct (t_cpu _ _ H cpu) as [bs Eb]. fold (per_cpu st cpu) in *. set (b := per_cpu st cpu) in *.
  destruct (t_base _ _ H _ _ Eb) as (Hb0 & Hbe & _).
  assert (sys_ok (Some t) st) as S1 by (apply sys_open; [done | eapply not_listed; eauto]).
  destruct (set_base_ok t tl b st S1 Ht Hbe) as (S2 & T2 & tl2 & E2 & Eb2 & _);
    [right; cbn; rewrite Eb; eauto | by intros c cs Ec Er; destruct (Hr c cs Ec) |].
  destruct (enqueue_ok t tl2 b (timer_set_base t b st)) as (st' & -> & ? & T3 & E3 & bs' & ? & ?);
    [exact S2 | exact E2 | done | exists bs; exact Eb | |].
  { cbn. destruct (moving st !! t) eqn:E; [| done]. exfalso. apply Hz, (t_moving _ _ H _ _ Ht); [done | rewrite E; eauto]. }
  exists st'. split_and!; try done; [by etrans |]. eexists _, bs'. split_and!; try done.
  cbn in E2. rewrite lookup_alter_eq, Ht in E2. by injection E2 as <-.
Qed.

(** ** Deleting *)

Lemma detach_clear_ok t tl st :
  timers_ok st -> heap st !! t = Some tl -> of_base tl <> 0 ->
  exists st', detach_pending (of_base tl) t true st = Ret (Z.b2z (entry_next tl), st') /\ timers_ok st' /\ touched t st st' /\
    heap st' !! t = Some (set_entry false tl).
Proof.
  intros H Ht Hz. destruct (detach_ok t tl (of_base tl) true st) as (ret & st' & -> & S1 & T1 & -> & Et & Em & _); try done.
  rewrite andb_false_r in Et. exists st'. split_and!; try done. apply (sys_close t (set_entry false tl)); try done.
  rewrite Em. by apply (t_moving _ _ H _ _ Ht).
Qed.

Lemma del_timer_ok t tl st :
  timers_ok st -> heap st !! t = Some tl -> of_base tl <> 0 ->
  exists st', del_timer t st = Ret (Z.b2z (entry_next tl), st') /\ timers_ok st' /\ touched t st st' /\
    heap st' !! t = Some (set_entry false tl).
Proof.
  intros H Ht Hz. unfold del_timer, lock_timer_base. rewrite (get_timer_Ret _ _ _ Ht), !run_bind_Ret.
  unfold timer_pending. destruct (entry_next tl) eqn:E.
  - fold (of_base tl). rewrite (proj2 (Z.eqb_neq _ _) Hz), run_bind_Ret.
    destruct (detach_clear_ok t tl st) as (st' & -> & ? & ? & ?); try done.
    rewrite E. by exists st'.
  - exists st. split_and!; try done. by rewrite set_entry_id.
Qed.

(** If [try_to_del_timer_sync] succeeds, the timer is off the lists and no base runs it. *)
Lemma try_to_del_ok t tl st :
  timers_ok st -> heap st !! t = Some tl -> of_base tl <> 0 ->
  (exists b bs, bases st !! b = Some bs /\ running_timer bs = t /\ try_to_del_timer_sync t st = Ret (-1, st)) \/
  ((forall b bs, bases st !! b = Some bs -> running_timer bs <> t) /\
   exists st', try_to_del_timer_sync t st = Ret (Z.b2z (entry_next tl), st') /\ timers_ok st' /\ touched t st st' /\
     heap st' !! t = Some (set_entry false tl)).
Proof.
  intros H Ht Hz. unfold try_to_del_timer_sync, lock_timer_base. rewrite (get_timer_Ret _ _ _ Ht), !run_bind_Ret.
  fold (of_base tl).
  rewrite (proj2 (Z.eqb_neq _ _) Hz), run_bind_Ret. destruct (t_home _ _ H _ _ Ht) as [|[bs Eb]]; [done |].
  rewrite (get_base_Ret _ _ _ Eb), run_bind_Ret.
  destruct (Z.eqb_spec (running_timer bs) t) as [Er|Er]; [left; by exists (of_base tl), bs |]. right.
  split; [| by apply detach_clear_ok].
  intros c cs Ec Erc. pose proof (t_running _ _ H c cs tl Ec ltac:(by rewrite Erc)) as E. congruence.
Qed.

(** ** A tick of one base *)

Definition setb (b : Z) (bs : tvec_base) (st : timers) : timers :=
  Timers (heap st) (<[b := bs]> (bases st)) (tvec_bases st) (moving st).

Lemma put_base_setb f b bs st : bases st !! b = Some bs -> put_base f b st = setb b (f bs) st.
Proof.
  intros Eb. unfold put_base, setb. f_equal. apply map_eq. intros c.
  destruct (decide (c = b)) as [->|Hc]; [by rewrite lookup_alter_eq, lookup_insert_eq, Eb
    | by rewrite lookup_alter_ne, lookup_insert_ne].
Qed.

Lemma setb_setb b bs1 bs2 st : setb b bs2 (setb b bs1 st) = setb b bs2 st.
Proof. unfold setb. cbn. by rewrite insert_insert_eq. Qed.

Lemma setb_ok b bs bs' st :
  timers_ok st -> bases st !! b = Some bs -> wheel_ok (expires_of st) bs' -> (forall u, u ∈ lists bs' <-> u ∈ lists bs) ->
  running_timer bs' = running_timer bs -> timers_ok (setb b bs' st).
Proof.
  intros [H1 H2 H3 H4 H5 H6 H7 H8 H9] Eb Hw Hl Hr.
  assert (forall c, is_Some (bases (setb b bs' st) !! c) <-> is_Some (bases st !! c)) as Hs.
  { intros c. cbn. destruct (decide (c = b)) as [->|Hn]; [rewrite lookup_insert_eq, Eb; split;
      eauto | by rewrite lookup_insert_ne]. }
  assert (forall c cs, bases (setb b bs' st) !! c = Some cs -> (c = b /\ cs = bs') \/ (c <> b /\ bases st !! c = Some cs)) as Hb.
  { intros c cs. cbn. destruct (decide (c = b)) as [->|Hn]; [rewrite lookup_insert_eq; intros [= <-];
      by left | rewrite lookup_insert_ne by done; by right]. }
  split; try done.
  - intros c cs [[-> ->] | [_ Ec]]%Hb; [| by apply H1]. destruct (H1 _ _ Eb) as (? & ? & _). by split_and!.
  - intros c cs u [[-> ->] | [_ Ec]]%Hb; [| by apply H2]. rewrite Hl. by apply H2.
  - intros u ul Eu Hu He Hz. destruct (H4 _ _ Eu Hu He Hz) as (cs & Ec & Hin). cbn [setb bases].
    destruct (decide (of_base ul = b)) as [E|Hn].
    + rewrite E in *. exists bs'. rewrite lookup_insert_eq. split; [done |]. apply Hl. congruence.
    + exists cs. by rewrite lookup_insert_ne.
  - intros u c e Em. rewrite Hs. exact (H6 _ _ _ Em).
  - intros u ul Eu. rewrite Hs. exact (H7 _ _ Eu).
  - intros c cs ul [[-> ->] | [_ Ec]]%Hb; [rewrite Hr; exact (H8 _ _ _ Eb) | exact (H8 _ _ _ Ec)].
  - intros cpu. rewrite Hs. apply H9.
Qed.

(** The timers of a list that belongs to base [b]. *)
Definition ready (b : Z) (st : timers) (t : Z) : Prop := exists tl, heap st !! t = Some tl /\ entry_next tl = true /\
  of_base tl = b.

Lemma cascade_loop_eq b l : forall bs st,
  bases st !! b = Some bs -> Forall (ready b st) l -> cascade_loop b l st = Ret (setb b (foldl (w_add (expires_of st)) bs l) st).
Proof.
  induction l as [|t l IH]; intros bs st Eb Hl; cbn [cascade_loop foldl].
  - f_equal. unfold setb. rewrite insert_id by done. by destruct st.
  - apply Forall_cons in Hl as [(tl & Ht & He & Hb) Hl]. rewrite (get_timer_Ret _ _ _ Ht), run_bind_Ret.
    fold (of_base tl). rewrite Hb, Z.eqb_refl. cbn [negb].
    unfold internal_add_timer. rewrite (get_timer_Ret _ _ _ Ht), (get_base_Ret _ _ _ Eb), !run_bind_Ret.
    unfold w_add at 2. assert (expires_of st t = expires tl) as -> by (unfold expires_of; by rewrite Ht).
    destruct (timer_vec _ _) as [v i]. rewrite run_bind_Ret, (put_base_setb _ _ _ _ Eb). set (bs1 := set_bucket _ _ _ _).
    assert (put_timer (set_entry true) t (setb b bs1 st) = setb b bs1 st) as ->.
    { unfold put_timer. cbn [setb heap bases tvec_bases moving]. unfold setb. f_equal. apply alter_id. intros x E.
      rewrite Ht in E. injection E as <-. by apply set_entry_id. }
    rewrite (IH bs1); [by rewrite setb_setb | cbn; apply lookup_insert_eq | done].
Qed.

Lemma set_bucket_sub f v i bs w k u :
  u ∈ bucket (set_bucket f v i bs) w k -> u ∈ bucket bs w k \/ (w = v /\ k = i /\ u ∈ f (bucket bs w k)).
Proof.
  unfold bucket, set_bucket. cbn. destruct (decide (w = v)) as [->|]; [| by left].
  destruct (decide (k = i)) as [->|]; [| rewrite list_lookup_alter_ne by done; by left].
  rewrite list_lookup_alter_eq. destruct (tv bs v !! i); cbn; [by right | by left].
Qed.

Lemma w_add_sub exp bs t u : u ∈ queued (w_add exp bs t) -> u = t \/ u ∈ queued bs.
Proof.
  unfold w_add. destruct (timer_vec _ _) as [v i]. rewrite !elem_of_queued. intros (w & k & Hu).
  apply set_bucket_sub in Hu as [Hu | (-> & -> & Hu)]; [right; eauto |].
  apply elem_of_app in Hu as [Hu | ->%list_elem_of_singleton]; [right; eauto | by left].
Qed.

Lemma w_adds_sub exp l u : forall bs, u ∈ queued (foldl (w_add exp) bs l) -> u ∈ l \/ u ∈ queued bs.
Proof. induction l as [|t l IH]; intros bs; simpl; [by right |]. intros [Hu | [-> | Hu]%w_add_sub]%IH; set_solver. Qed.

Lemma w_cascade_sub exp bs v i u : u ∈ queued (w_cascade exp bs v i) -> u ∈ queued bs.
Proof.
  unfold w_cascade. intros [Hu | Hu]%w_adds_sub; rewrite elem_of_queued in *; [eauto |]. destruct Hu as (w & k & Hu).
  apply set_bucket_sub in Hu as [Hu | (_ & _ & Hu)]; [eauto | by apply not_elem_of_nil in Hu].
Qed.

Lemma cascade_eq b v index bs st :
  bases st !! b = Some bs -> (forall t, t ∈ queued bs -> ready b st t) ->
  cascade b v index st = Ret (index, setb b (w_cascade (expires_of st) bs v index) st).
Proof.
  intros Eb Hq. unfold cascade. rewrite (get_base_Ret _ _ _ Eb), run_bind_Ret, (put_base_setb _ _ _ _ Eb).
  rewrite (cascade_loop_eq _ _ (set_bucket (fun _ => []) v (Z.to_nat index) bs));
    [by rewrite run_bind_Ret, setb_setb | cbn; apply lookup_insert_eq |].
  apply Forall_forall. intros t Ht. apply Hq, elem_of_queued. eauto.
Qed.

Lemma w_cascade_now exp bs v i : timer_jiffies (w_cascade exp bs v i) = timer_jiffies bs.
Proof.
  unfold w_cascade. generalize (bucket bs v (Z.to_nat i)) as l.
  change (timer_jiffies bs) with (timer_jiffies (set_bucket (fun _ => []) v (Z.to_nat i) bs)).
  generalize (set_bucket (fun _ => []) v (Z.to_nat i) bs) as bs0. intros bs0 l. revert bs0.
  induction l as [|t l IH]; intros bs0; simpl; [done |]. rewrite IH. unfold w_add. by destruct (timer_vec _ _).
Qed.

Lemma cascades_eq b vs : forall n bs st,
  (forall k v, vs !! k = Some v -> forall j, INDEX j (n + Z.of_nat k) = slot_of v j) ->
  bases st !! b = Some bs -> (forall t, t ∈ queued bs -> ready b st t) ->
  cascades b vs n st = Ret (setb b (w_cascades (expires_of st) vs bs) st).
Proof.
  induction vs as [|v vs IH]; intros n bs st Hi Eb Hq; cbn [cascades w_cascades].
  - f_equal. unfold setb. rewrite insert_id by done. by destruct st.
  - rewrite (get_base_Ret _ _ _ Eb), run_bind_Ret, (cascade_eq b v _ bs st Eb Hq), run_bind_Ret.
    pose proof (Hi 0%nat v eq_refl (timer_jiffies bs)) as E0. rewrite Z.add_0_r in E0. rewrite E0.
    destruct (_ =? 0) eqn:E; [| done].
    rewrite (IH (n + 1) (w_cascade (expires_of st) bs v (slot_of v (timer_jiffies bs)))).
    + by rewrite setb_setb.
    + intros k u Hu j. replace (n + 1 + Z.of_nat k) with (n + Z.of_nat (S k)) by lia. by apply (Hi (S k)).
    + cbn. apply lookup_insert_eq.
    + intros t Ht. exact (Hq t (w_cascade_sub _ _ _ _ _ Ht)).
Qed.

Lemma run_tick_eq b bs st :
  timers_ok st -> bases st !! b = Some bs -> run_tick b st = Ret (setb b (w_tick (expires_of st) bs) st).
Proof.
  intros H Eb. unfold run_tick, w_tick. rewrite (get_base_Ret _ _ _ Eb), run_bind_Ret. cbn zeta.
  set (index := timer_jiffies bs .& TVR_MASK). set (bs1 := if index =? 0 then w_cascades _ _ bs else bs).
  assert ((if index =? 0 then cascades b [tv2; tv3; tv4; tv5] 0 st else Ret st) = Ret (setb b bs1 st)) as ->.
  { unfold bs1. destruct (index =? 0).
    - apply cascades_eq; [| done |].
      + intros [|[|[|[|]]]] v; simpl; intros [= <-] j; reflexivity.
      + intros t Ht. destruct (t_listed _ _ H b bs t Eb) as (tl & ? & ? & ? & _); [apply elem_of_app; by left | by exists tl].
    - f_equal. unfold setb. rewrite insert_id by done. by destruct st. }
  rewrite run_bind_Ret. assert (bases (setb b bs1 st) !! b = Some bs1) as E1 by (cbn; apply lookup_insert_eq).
  rewrite (get_base_Ret _ _ _ E1), run_bind_Ret, (put_base_setb _ _ _ _ E1), setb_setb. done.
Qed.

Lemma run_tick_ok b bs st :
  timers_ok st -> bases st !! b = Some bs -> work_list bs = [] ->
  exists bs', run_tick b st = Ret (setb b bs' st) /\ ticked (expires_of st) bs bs' /\ timers_ok (setb b bs' st).
Proof.
  intros H Eb Hw. exists (w_tick (expires_of st) bs). split; [by apply run_tick_eq |].
  assert (ticked (expires_of st) bs (w_tick (expires_of st) bs)) as T by (apply w_tick_ok;
    [by apply (t_base _ _ H b) | done]). split; [done |].
  apply (setb_ok b bs); [done | done | apply T | | apply T]. intros u. unfold lists.
  rewrite Hw, app_nil_r, <- (k_queued _ _ _ T). rewrite !elem_of_app. tauto.
Qed.

(** ** The start of a handler *)

Lemma run_first_ok b bs t st :
  timers_ok st -> bases st !! b = Some bs -> t ∈ work_list bs ->
  exists tl, heap st !! t = Some tl /\ timers_ok (run_first b t st) /\ touched t (set_running_timer b t st) (run_first b t st) /\
    heap (run_first b t st) !! t = Some (set_entry false tl) /\
      bases (run_first b t st) !! b = Some (unlink t (set_running t bs)).
Proof.
  intros H Eb Hw. destruct (t_listed _ _ H b bs t Eb) as (tl & Ht & He & Hb & _); [apply elem_of_app; by right |].
  exists tl. split; [done |].
  assert (timers_ok (set_running_timer b t st)) as H1.
  { apply base_put; [done |]. intros bs' E. split_and!; try done. intros tl' E'. cbn in E'. congruence. }
  pose proof (unlink_all_ok t tl _ H1 Ht) as H2. unfold run_first, detach_timer. fold (unlink_all t (set_running_timer b t st)).
  assert (bases (unlink_all t (set_running_timer b t st)) !! b = Some (unlink t (set_running t bs))) as Eb2 by (cbn;
    by rewrite lookup_fmap, lookup_alter_eq, Eb).
  assert (heap (put_timer (set_entry false) t (unlink_all t (set_running_timer b t st))) !! t = Some
    (set_entry false tl)) as Et by (cbn; by rewrite lookup_alter_eq, Ht).
  destruct (t_base _ _ H _ _ Eb) as [Hb0 _]. split_and!; try done.
  - apply (sys_close t (set_entry false tl)); try done; [| exact (t_moving _ _ H _ _ Ht ltac:(done))].
    apply (exc_put _ t tl); try done; [exact (proj1 (t_expires _ _ H _ _ Ht)) | right;
      change (of_base (set_entry false tl)) with (of_base tl); rewrite Hb; eauto |].
    intros c cs Ec Er. apply (t_running _ _ H2 c cs tl); [done | by rewrite Er].
  - etrans; [apply touched_unlink | apply touched_put_timer].
Qed.

(** ** Initialising and writing an idle timer *)

Lemma insert_ok t tl st :
  timers_ok st -> t <> 0 -> 0 <= expires tl < 2 ^ 64 -> entry_next tl = false -> is_Some (bases st !! of_base tl) ->
  moving st !! t = None -> (forall b bs, bases st !! b = Some bs -> t ∉ lists bs) ->
  (forall b bs, bases st !! b = Some bs -> running_timer bs = t -> of_base tl = b) ->
  timers_ok (Timers (<[t := tl]> (heap st)) (bases st) (tvec_bases st) (moving st)).
Proof.
  intros [H1 H2 H3 H4 H5 H6 H7 H8 H9] Ht He Hn Hh Hm Hl Hr. split; cbn [heap bases tvec_bases moving].
  - intros b bs Eb. destruct (H1 _ _ Eb) as (? & ? & Hw). split_and!; try done. eapply wheel_ok_ext; [| done].
    intros u Hu. unfold expires_of. cbn.
    rewrite lookup_insert_ne; [done |]. intros <-. apply (Hl _ _ Eb), elem_of_app. by left.
  - intros b bs u Eb Hu. destruct (H2 _ _ _ Eb Hu) as (ul & ?). exists ul. rewrite lookup_insert_ne; [done |].
    intros <-. by apply (Hl _ _ Eb).
  - intros u ul. destruct (decide (u = t)) as [->|];
      [rewrite lookup_insert_eq; by intros [= <-] | rewrite lookup_insert_ne by done; apply H3].
  - intros u ul. destruct (decide (u = t)) as [->|]; [rewrite lookup_insert_eq; intros [= <-];
      congruence | rewrite lookup_insert_ne by done; apply H4].
  - intros u ul. destruct (decide (u = t)) as [->|]; [| rewrite lookup_insert_ne by done; apply H5].
    rewrite lookup_insert_eq. intros [= <-] _. rewrite Hm.
    split; [| by intros []]. intros E. destruct Hh as [bs Eb]. destruct (H1 _ _ Eb). lia.
  - intros u b e Em. destruct (H6 _ _ _ Em) as [Hs ?]. split; [| done]. rewrite lookup_insert_ne; [done | congruence].
  - intros u ul. destruct (decide (u = t)) as [->|]; [rewrite lookup_insert_eq; intros [= <-];
      by right | rewrite lookup_insert_ne by done; apply H7].
  - intros b bs ul Eb. destruct (decide (running_timer bs = t)) as [E|]; [rewrite E, lookup_insert_eq; intros [= <-];
      by eapply Hr |].
    rewrite lookup_insert_ne by done. by apply H8.
  - done.
Qed.

End TimerSystem.
