(* ===== verification/TimerRun.v ===== *)
(** * The timers as a system

    Any interleaving of the operations on any number of CPUs as a step
    relation, the invariant of its reachable states, and the wheel seen as a
    table of deadlines: [__run_timers] calls each handler at its tick. *)
From stdpp Require Import relations.
From S2P Require Import Prelude Timer TimerWheel TimerSystem.

Module TimerRun.
Import Timer TimerWheel TimerSystem.

(** ** Steps *)

(** No base runs the handler of [t], and no [__mod_timer] moves it. *)
Definition idle (t : Z) (st : timers) : Prop :=
  moving st !! t = None /\ forall b bs, bases st !! b = Some bs -> running_timer bs <> t.

(** An operation on timer [t].  As the source demands, a timer is initialised
    only while nothing uses it, [add_timer_on] is not called for a timer whose
    handler runs, and a pending timer is not written to by hand. *)
Inductive op (t : Z) (st : timers) : timers -> Prop :=
  | Op_mod_begin cpu e pending_only st' r : 0 <= e < 2 ^ 64 -> mod_begin cpu t e pending_only st = Ret (st', r) -> op t st st'
  | Op_mod_end st' : mod_end t st = Ret st' -> op t st st'
  | Op_add_on cpu st' : idle t st -> add_timer_on t cpu st = Ret st' -> op t st st'
  | Op_del r st' : del_timer t st = Ret (r, st') -> op t st st'
  | Op_try_del r st' : try_to_del_timer_sync t st = Ret (r, st') -> op t st st'
  | Op_init cpu mem : t <> 0 -> 0 <= expires mem < 2 ^ 64 -> idle t st -> (forall tl, heap st !! t = Some tl ->
    entry_next tl = false) ->
      op t st (init_timer_key cpu t mem st)
  | Op_init_deferrable cpu mem : t <> 0 -> 0 <= expires mem < 2 ^ 64 -> idle t st ->
    (forall tl, heap st !! t = Some tl -> entry_next tl = false) ->
      op t st (init_timer_deferrable_key cpu t mem st)
  | Op_write tl e fn : heap st !! t = Some tl -> entry_next tl = false -> moving st !! t = None -> 0 <= e < 2 ^ 64 ->
      op t st (Timers (<[t := TimerList false e fn (base tl)]> (heap st)) (bases st) (tvec_bases st) (moving st)).

(** A step of [__run_timers] on base [b]. *)
Inductive run_op (b : Z) (st : timers) : timers -> Prop :=
  | Run_tick bs st' : bases st !! b = Some bs -> work_list bs = [] -> run_tick b st = Ret st' -> run_op b st st'
  | Run_first bs t l : bases st !! b = Some bs -> work_list bs = t :: l -> run_op b st (run_first b t st)
  | Run_stop : run_op b st (set_running_timer b 0 st).

(** A CPU comes up: its base is new memory. *)
Inductive cpu_op (st : timers) : timers -> Prop :=
  | Cpu_up jiffies cpu boot kmalloc r st' :
      0 <= jiffies < 2 ^ 64 -> (forall b, kmalloc = Some b -> 0 < b /\ bases st !! b = None) ->
      init_timers_cpu jiffies cpu false true boot kmalloc st = (r, st') -> cpu_op st st'.

Inductive step (st st' : timers) : Prop :=
  | Step_op t : op t st st' -> step st st'
  | Step_run b : run_op b st st' -> step st st'
  | Step_cpu : cpu_op st st' -> step st st'.

(** The state after [init_timers] on the boot CPU. *)
Definition booted (jiffies boot : Z) : timers :=
  (init_timers_cpu jiffies 0 false false boot None (Timers ∅ ∅ (fun _ => boot) ∅)).2.
Definition reachable (st : timers) : Prop :=
  exists jiffies boot, 0 <= jiffies < 2 ^ 64 /\ 0 < boot /\ boot mod 2 = 0 /\ rtc step (booted jiffies boot) st.

(** ** The steps keep the invariant *)

Lemma init_base_wheel exp jiffies running next : 0 <= jiffies < 2 ^ 64 ->
  wheel_ok exp (TvecBase running jiffies next empty_tv []).
Proof.
  intros Hj. assert (forall v i, bucket (TvecBase running jiffies next empty_tv []) v i = []) as Hb.
  { intros v i. unfold bucket. cbn [tv]. unfold empty_tv. destruct (_ !! i) as [l|] eqn:E; [| done].
    by apply lookup_replicate in E as [-> _]. }
  assert (queued (TvecBase running jiffies next empty_tv []) = []) as Hq.
  { destruct (queued _) as [|t l] eqn:E; [done |]. exfalso.
    assert (t ∈ queued (TvecBase running jiffies next empty_tv [])) as (v & i & Ht)%elem_of_queued by (rewrite E;
      set_solver).
    rewrite Hb in Ht. by apply not_elem_of_nil in Ht. }
  split; rewrite ?Hq; try done.
  - intros v. cbn. unfold empty_tv. rewrite length_replicate. by destruct v.
  - by intros t ?%not_elem_of_nil.
  - intros v i t. rewrite Hb. by intros ?%not_elem_of_nil.
  - constructor.
Qed.

Lemma idle_base t tl st : timers_ok st -> heap st !! t = Some tl -> moving st !! t = None -> of_base tl <> 0.
Proof. intros H Ht Hm Hz. apply (t_moving _ _ H _ _ Ht) in Hz as [? ?]; [congruence | done]. Qed.

Lemma op_init_ok t cpu mem p st :
  timers_ok st -> t <> 0 -> 0 <= expires mem < 2 ^ 64 -> idle t st -> (forall tl, heap st !! t = Some tl ->
    entry_next tl = false) ->
  tbase_get_base p = per_cpu st cpu ->
  let st' := Timers (<[t := TimerList false (expires mem) (function mem) p]> (heap st)) (bases st) (tvec_bases st) (moving st) in
  timers_ok st' /\ touched t st st'.
Proof.
  intros H Ht He [Hm Hr] Hn Hp. cbn zeta. split.
  - apply insert_ok; try done; [unfold of_base; cbn; rewrite Hp; apply (t_cpu _ _ H) | | intros b bs Eb Er;
      by destruct (Hr _ _ Eb)].
    destruct (heap st !! t) as [tl|] eqn:E; [by eapply not_listed; eauto |]. intros b bs Eb Hl.
    destruct (t_listed _ _ H _ _ _ Eb Hl) as (? & ? & _). congruence.
  - split; try done; cbn; [intros u Hu; by rewrite lookup_insert_ne | intros b bs Eb; by exists bs].
Qed.

Lemma bind_Ret_inv {A B} (m : M A) (f : A -> M B) y : (m ≫= f) = Ret y -> exists x, m = Ret x /\ f x = Ret y.
Proof. destruct m as [x| |]; try done. intros E. by exists x. Qed.

Lemma get_timer_inv t st tl : get_timer t st = Ret tl -> heap st !! t = Some tl.
Proof. unfold get_timer. destruct (heap st !! t); [by intros [= ->] | done]. Qed.

Lemma lock_inv t st b : lock_timer_base t st = Ret b -> exists tl, heap st !! t = Some tl /\ of_base tl = b /\ b <> 0.
Proof.
  unfold lock_timer_base. intros (tl & Ht%get_timer_inv & E)%bind_Ret_inv. fold (of_base tl) in E.
  destruct (Z.eqb_spec (of_base tl) 0); [done |]. injection E as <-. by exists tl.
Qed.

Lemma op_ok t st st' : timers_ok st -> op t st st' -> timers_ok st' /\ touched t st st'.
Proof.
  intros H Hop. destruct Hop as [cpu e po st' r He E | st' E | cpu st' Hi E | r st' E | r st' E | cpu mem H0 He Hi Hn
    | cpu mem H0 He Hi Hn | tl e fn Ht Hn Hm He].
  - assert (exists tl, heap st !! t = Some tl /\ function tl <> 0 /\ of_base tl <> 0) as (tl & Ht & Hf & Hz).
    { unfold mod_begin in E. apply bind_Ret_inv in E as (tl & Ht%get_timer_inv & E). exists tl.
      destruct (Z.eqb_spec (function tl) 0); [done |].
      apply bind_Ret_inv in E as (b & Hl & _). apply lock_inv in Hl as (tl' & ? & <- & ?). by simplify_eq. }
    destruct (mod_begin_ok cpu t e po tl st) as (st1 & r1 & E1 & ? & ? & _); try done. rewrite E in E1. by simplify_eq.
  - assert (exists b e, moving st !! t = Some (b, e)) as (b & e & Hm).
    { unfold mod_end in E. apply bind_Ret_inv in E as ([b e] & E & _). exists b, e. by destruct (moving st !! t); simplify_eq/=. }
    destruct (mod_end_ok t b e st) as (st1 & E1 & ? & ? & _); try done. rewrite E in E1. by simplify_eq.
  - unfold add_timer_on in E. pose proof E as E0. apply bind_Ret_inv in E as (tl & Ht%get_timer_inv & E).
    unfold timer_pending in E.
    destruct (entry_next tl) eqn:En; [done |]. destruct (Z.eqb_spec (function tl) 0); [done |]. destruct Hi as [Hm Hr].
    destruct (add_timer_on_ok t cpu tl st) as (st1 & E1 & ? & ? & _); try done; [by eapply idle_base |].
    unfold add_timer_on in E1. rewrite E0 in E1. by simplify_eq.
  - unfold del_timer in E. pose proof E as E0. apply bind_Ret_inv in E as (tl & Ht%get_timer_inv & E). unfold timer_pending in E.
    destruct (entry_next tl) eqn:En; [| by simplify_eq].
    apply bind_Ret_inv in E as (b & (tl' & Ht' & <- & Hz)%lock_inv & _). rewrite Ht in Ht'. injection Ht' as <-.
    destruct (del_timer_ok t tl st) as (st1 & E1 & ? & ? & _); try done. unfold del_timer in E1. rewrite E0 in E1. by simplify_eq.
  - pose proof E as E0. unfold try_to_del_timer_sync in E. apply bind_Ret_inv in E as (b & (tl & Ht & <- & Hz)%lock_inv & _).
    destruct (try_to_del_ok t tl st) as [(b & bs & _ & _ & E1) | (_ & st1 & E1 & ? & ? & _)]; try done;
      rewrite E0 in E1; by simplify_eq.
  - unfold init_timer_key. apply op_init_ok with (cpu := cpu); try done. destruct (t_cpu _ _ H cpu) as [bs Eb].
    destruct (t_base _ _ H _ _ Eb) as (? & ? & _). by apply get_base_even.
  - destruct (t_cpu _ _ H cpu) as [bs Eb]. destruct (t_base _ _ H _ _ Eb) as (? & ? & _).
    destruct (op_init_ok t cpu mem (per_cpu st cpu .| TBASE_DEFERRABLE_FLAG) st) as [Hok Hto]; try done;
      [apply get_base_lor; auto |].
    assert (init_timer_deferrable_key cpu t mem st = Timers (<[t :=
      TimerList false (expires mem) (function mem) (per_cpu st cpu .| TBASE_DEFERRABLE_FLAG)]> (heap st))
      (bases st) (tvec_bases st) (moving st)) as ->; [| done].
    unfold init_timer_deferrable_key, timer_set_deferrable, put_timer, init_timer_key. cbn. f_equal. by rewrite alter_insert_eq.
  - split; [apply insert_ok; try done |].
    + by apply (t_expires _ _ H t tl).
    + destruct (t_home _ _ H _ _ Ht) as [E|]; [| done]. by eapply idle_base in E.
    + by eapply not_listed; eauto.
    + intros b bs Eb Er. apply (t_running _ _ H b bs tl); [done | by rewrite Er].
    + split; try done; cbn; [intros u Hu; by rewrite lookup_insert_ne | intros b bs Eb; by exists bs].
Qed.

Lemma run_op_ok b st st' : timers_ok st -> run_op b st st' -> timers_ok st'.
Proof.
  intros H [bs st1 Eb Hw E | bs t l Eb Hw |].
  - destruct (run_tick_ok b bs st H Eb Hw) as (bs' & E1 & _ & ?). rewrite E in E1. by simplify_eq.
  - destruct (run_first_ok b bs t st H Eb) as (tl & _ & ? & _); [rewrite Hw; set_solver | done].
  - apply base_put; [done |]. intros bs Eb. split_and!; try done. intros tl Ht. cbn in Ht. by destruct (t_expires _ _ H _ _ Ht).
Qed.

Lemma init_base_ok jiffies cpu b st :
  timers_ok st -> 0 <= jiffies < 2 ^ 64 -> 0 < b -> b mod 2 = 0 -> bases st !! b = None ->
  timers_ok (init_base jiffies b (Timers (heap st) (bases st) (fun c => if c =? cpu then b else tvec_bases st c) (moving st))).
Proof.
  intros [H1 H2 H3 H4 H5 H6 H7 H8 H9] Hj Hb He Hn. unfold init_base. cbn. rewrite Hn. cbn.
  assert (forall c, is_Some (bases st !! c) -> is_Some (<[b := TvecBase 0 jiffies jiffies empty_tv []]> (bases st) !! c)) as Hs.
  { intros c Hc. destruct (decide (c = b)) as [->|]; [rewrite lookup_insert_eq; eauto | by rewrite lookup_insert_ne]. }
  pose proof (init_base_wheel (expires_of st) jiffies 0 jiffies Hj) as Hw.
  assert (lists (TvecBase 0 jiffies jiffies empty_tv []) = []) as Hl by reflexivity.
  split; cbn [heap bases tvec_bases moving]; try done.
  - intros c cs. destruct (decide (c = b)) as [->|]; [rewrite lookup_insert_eq; intros [= <-];
      by split_and! | rewrite lookup_insert_ne by done; apply H1].
  - intros c cs t. destruct (decide (c = b)) as [->|]; [rewrite lookup_insert_eq; intros [= <-]; rewrite Hl;
      by intros ?%not_elem_of_nil |].
    rewrite lookup_insert_ne by done. apply H2.
  - intros t tl Ht _ Hp Hz. destruct (H4 t tl) as (bs & Eb & ?); try done. exists bs.
    rewrite lookup_insert_ne; [done | congruence].
  - intros t c e Em. destruct (H6 _ _ _ Em) as (? & ? & ?). split_and!; try done; auto; lia.
  - intros t tl Ht. destruct (H7 _ _ Ht); auto.
  - intros c cs tl. destruct (decide (c = b)) as [->|]; [| rewrite lookup_insert_ne by done; apply H8].
    rewrite lookup_insert_eq. intros [= <-] Ht.
    by destruct (H3 _ _ Ht).
  - intros c. destruct (c =? cpu); [rewrite lookup_insert_eq; eauto | auto].
Qed.

Lemma cpu_op_ok st st' : timers_ok st -> cpu_op st st' -> timers_ok st'.
Proof.
  intros H [jiffies cpu boot [b|] r st1 Hj Hk E]; unfold init_timers_cpu in E; [| by simplify_eq].
  destruct (Hk b eq_refl) as [Hb Hn].
  destruct (Z.eqb_spec (tbase_get_deferrable b) 0) as [E0|]; simplify_eq/=; [| done]. apply init_base_ok; try done.
  by rewrite <- deferrable_mod.
Qed.

Lemma booted_ok jiffies boot : 0 <= jiffies < 2 ^ 64 -> 0 < boot -> boot mod 2 = 0 -> timers_ok (booted jiffies boot).
Proof.
  intros Hj Hb He. unfold booted, init_timers_cpu, init_base. cbn. rewrite lookup_empty. cbn.
  assert (lists (TvecBase 0 jiffies jiffies empty_tv []) = []) as Hl by reflexivity.
  split; cbn [heap bases tvec_bases moving]; try done.
  - intros c cs. rewrite insert_empty. intros [<- <-]%lookup_singleton_Some. split_and!; try done. by apply init_base_wheel.
  - intros c cs t. rewrite insert_empty. intros [<- <-]%lookup_singleton_Some. rewrite Hl. by intros ?%not_elem_of_nil.
  - intros _. rewrite lookup_insert_eq. eauto.
Qed.

Lemma reachable_ok st : reachable st -> timers_ok st.
Proof.
  intros (jiffies & boot & Hj & Hb & He & Hst). pose proof (booted_ok _ _ Hj Hb He) as H. clear Hb Hj He.
  induction Hst as [|st1 st2 st3 [] _ IH]; [done | ..]; apply IH.
  - by eapply op_ok.
  - by eapply run_op_ok.
  - by eapply cpu_op_ok.
Qed.

(** ** Deadlines *)

(** How many ticks of base [b] it will take until timer [t] is run by it. *)
Definition deadline (st : timers) (b t : Z) : option Z :=
  bs ← bases st !! b; if decide (t ∈ queued bs) then Some (remaining (timer_jiffies bs) (expires_of st t)) else None.

(** The list of the tick that base [b] is running. *)
Definition working (st : timers) (b : Z) : list Z := from_option work_list [] (bases st !! b).

Lemma touched_deadline t st st' b u : touched t st st' -> u <> t -> deadline st' b u = deadline st b u.
Proof.
  intros [F1 _ _ F4 F5] Hu. unfold deadline. destruct (bases st !! b) as [bs|] eqn:Eb; [| by rewrite (F5 _ Eb)].
  destruct (F4 _ _ Eb) as (bs' & -> & [_ Kn _ Kq]). cbn [mbind option_bind]. rewrite Kn.
  assert (expires_of st' u = expires_of st u) as -> by (unfold expires_of; by rewrite F1).
  pose proof (Kq u Hu). destruct (decide (u ∈ queued bs')), (decide (u ∈ queued bs)); try done; tauto.
Qed.

Lemma armed_deadline t b e st st' bs : armed t b e st' -> touched t st st' -> bases st !! b = Some bs ->
  deadline st' b t = Some (remaining (timer_jiffies bs) e).
Proof.
  intros (tl & bs' & Ht & <- & _ & Eb' & Hq) [_ _ _ F4 _] Eb. unfold deadline.
  destruct (F4 _ _ Eb) as (bs2 & E2 & [_ Kn _ _]). rewrite Eb' in *. simplify_eq/=.
  rewrite decide_True, Kn by done. unfold expires_of. by rewrite Ht.
Qed.

Lemma idle_deadline t tl b st : timers_ok st -> heap st !! t = Some tl -> entry_next tl = false -> deadline st b t = None.
Proof.
  intros H Ht He. unfold deadline. destruct (bases st !! b) as [bs|] eqn:Eb; [| done]. cbn [mbind option_bind].
  rewrite decide_False; [done |]. intros Hq.
  apply (not_listed t tl st H Ht (or_introl He) b bs Eb), elem_of_app. by left.
Qed.

(** A timer is in the lists of one base only, so it has one deadline. *)
Lemma deadline_base t b r st : timers_ok st -> deadline st b t = Some r -> exists tl, heap st !! t = Some tl /\
  of_base tl = b /\ entry_next tl = true.
Proof.
  intros H Hd. unfold deadline in Hd. apply bind_Some in Hd as (bs & Eb & Hd). destruct (decide (t ∈ queued bs)); [| done].
  destruct (t_listed _ _ H b bs t Eb) as (tl & ? & ? & ? & _); [apply elem_of_app; by left |]. by exists tl.
Qed.

Lemma mod_timer_deadline c t e pending_only pinned tl st :
  timers_ok st -> heap st !! t = Some tl -> function tl <> 0 -> of_base tl <> 0 -> 0 <= e < 2 ^ 64 ->
  exists st', __mod_timer c t e pending_only pinned st = Ret (st', Z.b2z (entry_next tl)) /\ timers_ok st' /\
    (if negb (entry_next tl) && pending_only then st' = st
     else (exists b bs, bases st !! b = Some bs /\ deadline st' b t = Some (remaining (timer_jiffies bs) e) /\
             (b = per_cpu st (timer_cpu c pinned) \/ (b = of_base tl /\ running_timer bs = t))) /\
          forall b u, u <> t -> deadline st' b u = deadline st b u).
Proof.
  intros H Ht Hf Hz He. unfold __mod_timer.
  destruct (mod_begin_ok (timer_cpu c pinned) t e pending_only tl st) as (st1 & r & -> & H1 & T1 & R); try done.
  rewrite run_bind_Ret. destruct r as [ret|ret]; [destruct R as [-> R] | destruct R as (-> & Hp & R)].
  - exists st1. split_and!; try done. destruct (negb _ && _); [done |]. split; [| intros b u Hu; by apply (touched_deadline t)].
    destruct (t_home _ _ H _ _ Ht) as [|[bs Eb]]; [done |]. exists (of_base tl), bs. destruct R as [Ha Hb].
    split_and!; try done; [by eapply armed_deadline |].
    destruct Hb as [|(bs' & E & Er)]; [by left | right]. split; [done | congruence].
  - destruct (mod_end_ok t (per_cpu st (timer_cpu c pinned)) e st1) as (st2 & -> & H2 & T2 & Ha); try done.
    rewrite run_bind_Ret. exists st2. split_and!; try done.
    assert (touched t st st2) as T by (by etrans).
    rewrite Hp. split; [| intros b u Hu; by apply (touched_deadline t)]. destruct (t_cpu _ _ H (timer_cpu c pinned)) as [bs Eb].
    exists (per_cpu st (timer_cpu c pinned)), bs. split_and!; try done; [by eapply armed_deadline | by left].
Qed.

Lemma tick_deadline b bs st :
  timers_ok st -> bases st !! b = Some bs -> work_list bs = [] ->
  exists st', run_tick b st = Ret st' /\ timers_ok st' /\
    (forall t, t ∈ working st' b <-> deadline st b t = Some 0) /\
    (forall t, deadline st' b t = match deadline st b t with Some r => if r =? 0 then None else Some (r - 1)
      | None => None end) /\
    (forall c t, c <> b -> deadline st' c t = deadline st c t /\ working st' c = working st c).
Proof.
  intros H Eb Hw. destruct (run_tick_ok b bs st H Eb Hw) as (bs' & E & T & H'). exists (setb b bs' st). split_and!; try done.
  all: assert (bases (setb b bs' st) !! b = Some bs') as Eb' by (cbn; apply lookup_insert_eq).
  all: destruct T as [Tok Tn Tr Tq Td Tl].
  all: assert (forall t, t ∈ queued bs <-> t ∈ work_list bs' \/ t ∈ queued bs') as Hq by (intros t;
    by rewrite <- Tq, elem_of_app).
  - intros t. unfold working, deadline. rewrite Eb', Eb. cbn [from_option mbind option_bind].
    destruct (decide (t ∈ queued bs)) as [Ht|Ht].
    + rewrite Td by done. split; [by intros -> | by intros [= ->]].
    + split; [| done]. intros Hin. destruct Ht. apply Hq. by left.
  - intros t. unfold deadline. rewrite Eb', Eb. cbn [mbind option_bind].
    change (expires_of (setb b bs' st) t) with (expires_of st t).
    pose proof (w_nodup _ _ Tok) as Hn. apply NoDup_app in Hn as (_ & Hn & _).
    destruct (decide (t ∈ queued bs')) as [Ht'|Ht'].
    + rewrite decide_True by (apply Hq; by right). pose proof (Tl t Ht') as El. rewrite El.
      assert (remaining (timer_jiffies bs) (expires_of st t) <> 0) as Hnz.
      { intros E0. apply (Hn t Ht'), Td; [apply Hq; by right | done]. }
      by rewrite (proj2 (Z.eqb_neq _ _) Hnz).
    + destruct (decide (t ∈ queued bs)) as [Ht|Ht]; [| done]. pose proof Ht as Ht2.
      apply Hq in Ht2 as [Hin|]; [| done]. apply Td in Hin; [| done]. by rewrite Hin.
  - intros c t Hc. unfold deadline, working. cbn [setb bases]. rewrite lookup_insert_ne by done. done.
Qed.

(** ** Running the timers of a base *)

Lemma reachable_step st st' : reachable st -> step st st' -> reachable st'.
Proof. intros (j & boot & ? & ? & ? & Hst) Hs. exists j, boot. do 3 (split; [done |]). by eapply rtc_r. Qed.

Lemma reachable_steps st st' : reachable st -> rtc step st st' -> reachable st'.
Proof. intros (j & boot & ? & ? & ? & Hst) Hs. exists j, boot. do 3 (split; [done |]). by etrans. Qed.

(** What can happen while [__run_timers] has released base [b]. *)
Inductive other (b : Z) (st st' : timers) : Prop :=
  | Other_op t : op t st st' -> other b st st'
  | Other_run c : c <> b -> run_op c st st' -> other b st st'
  | Other_cpu : cpu_op st st' -> other b st st'.

(** The work of the base shrinks at most. *)
Definition shrunk (b : Z) (st st' : timers) : Prop :=
  forall bs, bases st !! b = Some bs -> exists bs', bases st' !! b = Some bs' /\
    timer_jiffies bs' = timer_jiffies bs /\ work_list bs' `sublist_of` work_list bs.

#[export] Instance shrunk_trans b : Transitive (shrunk b).
Proof.
  intros st1 st2 st3 H1 H2 bs Eb. destruct (H1 _ Eb) as (bs2 & Eb2 & E2 & S2). destruct (H2 _ Eb2) as (bs3 & Eb3 & E3 & S3).
  exists bs3. split_and!; [done | congruence | by etrans].
Qed.

Lemma kept_shrunk t bs bs' : kept t bs bs' -> timer_jiffies bs' = timer_jiffies bs /\ work_list bs' `sublist_of` work_list bs.
Proof. intros [_ K2 K3 _]. split; [done |]. destruct K3 as [-> | ->]; [done | apply sublist_filter]. Qed.

Lemma other_shrunk b st st' : timers_ok st -> other b st st' -> shrunk b st st' /\ step st st'.
Proof.
  intros H [t Ho | c Hc Hr | [jiffies cpu boot k r st1 Hj Hk E]].
  - split; [| by apply (Step_op _ _ t)]. intros bs Eb. destruct (op_ok t st st' H Ho) as [_ T].
    destruct (f_base _ _ _ T _ _ Eb) as (bs' & ? & K).
    exists bs'. split; [done | by apply (kept_shrunk t)].
  - split; [| by apply (Step_run _ _ c)]. intros bs Eb. destruct Hr as [cs st1 Ec Hw E | cs t l Ec Hw |].
    + destruct (run_tick_ok c cs st H Ec Hw) as (cs' & E1 & _). rewrite E in E1. simplify_eq. exists bs. cbn.
      by rewrite lookup_insert_ne.
    + exists (unlink t bs). cbn. rewrite lookup_fmap, lookup_alter_ne, Eb by done. split_and!; try done. apply sublist_filter.
    + exists bs. cbn. by rewrite lookup_alter_ne.
  - split; [| by eapply Step_cpu, Cpu_up]. intros bs Eb. exists bs. unfold init_timers_cpu in E.
    destruct k as [k|]; [| by simplify_eq].
    destruct (Hk k eq_refl) as [_ Hn]. destruct (negb _); simplify_eq/=; [done |]. by rewrite lookup_insert_ne by congruence.
Qed.

Lemma others_ok b st st' : reachable st -> rtc (other b) st st' -> reachable st' /\ shrunk b st st'.
Proof.
  intros H Hst. induction Hst as [st|st1 st2 st3 Ho _ IH]; [split; [done |]; intros bs Eb; by exists bs |].
  destruct (other_shrunk b st1 st2 (reachable_ok _ H) Ho) as [S1 Hs].
  destruct IH as [R S2]; [by eapply reachable_step |]. split; [done | by etrans].
Qed.

Section run.
Context (b : Z) (fn : Z -> timers -> timers).

(** While the base is unlocked, everybody else takes steps. *)
Hypothesis fn_others : forall t st, reachable st -> rtc (other b) st (fn t st).

(** Nobody touches timer [t] meanwhile. *)
Definition alone (t : Z) : Prop :=
  forall u st, reachable st -> deadline (fn u st) b t = deadline st b t /\ (t ∈ working (fn u st) b <-> t ∈ working st b).

Definition times (t : Z) (l : list Z) : nat := length (filter (fun u => u = t) l).

Lemma working_eq st bs : bases st !! b = Some bs -> working st b = work_list bs.
Proof. unfold working. by intros ->. Qed.

Lemma work_deadline t st bs : timers_ok st -> bases st !! b = Some bs -> t ∈ work_list bs -> deadline st b t = None.
Proof.
  intros H Eb Ht. unfold deadline. rewrite Eb. cbn [mbind option_bind]. rewrite decide_False; [done |]. intros Hq.
  destruct (t_base _ _ H _ _ Eb) as (_ & _ & Hw).
  pose proof (w_nodup _ _ Hw) as Hn. apply NoDup_app in Hn as (_ & Hn & _). by apply (Hn t).
Qed.

Lemma first_deadline u t st bs :
  timers_ok st -> bases st !! b = Some bs -> u ∈ work_list bs -> deadline (run_first b u st) b t = deadline st b t.
Proof.
  intros H Eb Hu. destruct (run_first_ok b bs u st H Eb Hu) as (tl & Ht & H1 & T & Et & _). destruct (decide (t = u)) as [->|Hn].
  - rewrite (work_deadline u st bs) by done. by apply (idle_deadline u (set_entry false tl)).
  - rewrite (touched_deadline _ _ _ _ _ T Hn). unfold deadline. cbn [set_running_timer put_base bases].
    rewrite lookup_alter_eq, Eb. done.
Qed.

Lemma run_list_ok n : forall st bs,
  reachable st -> bases st !! b = Some bs -> (length (work_list bs) <= n)%nat ->
  exists called st' bs', run_list n b fn st = Ret (called, st') /\ reachable st' /\ bases st' !! b = Some bs' /\
    work_list bs' = [] /\
    timer_jiffies bs' = timer_jiffies bs /\
    forall t, alone t -> times t called = (if decide (t ∈ work_list bs) then 1 else 0)%nat /\ deadline st' b t = deadline st b t.
Proof.
  induction n as [|n IH]; intros st bs H Eb Hn; cbn [run_list]; rewrite (get_base_Ret _ _ _ Eb), run_bind_Ret;
    (destruct (work_list bs) as [|u l] eqn:Ew; [by exists [], st, bs |]); [simpl in Hn; lia |].
  pose proof (reachable_ok _ H) as Hok.
  destruct (run_first_ok b bs u st Hok Eb) as (tl & Ht & _ & T & Et & Eb1); [rewrite Ew; set_solver |].
  rewrite (get_timer_Ret _ _ _ Ht), run_bind_Ret.
  set (st1 := run_first b u st) in *. assert (reachable st1) as H1 by (eapply reachable_step; [done |];
    eapply Step_run, Run_first; done).
  destruct (others_ok b st1 (fn u st1) H1 (fn_others u st1 H1)) as [H2 S2]. destruct (S2 _ Eb1) as (bs2 & Eb2 & E2 & Sub).
  assert (NoDup (u :: l)) as Hnd.
  { rewrite <- Ew. destruct (t_base _ _ Hok _ _ Eb) as (_ & _ & Hw). pose proof (w_nodup _ _ Hw) as Hnd.
    by apply NoDup_app in Hnd as (_ & _ & ?). }
  apply NoDup_cons in Hnd as [Hul Hnl].
  assert (work_list (unlink u (set_running u bs)) = l) as Ewl.
  { cbn. rewrite Ew. unfold list_del. rewrite filter_cons_False by tauto. by apply list_del_id. }
  rewrite Ewl in Sub. apply sublist_length in Sub as Hlen. simpl in Hn.
  destruct (IH (fn u st1) bs2 H2 Eb2) as (called & st' & bs' & -> & H' & Eb' & Hw' & Ej' & Ha); [lia |]. rewrite run_bind_Ret.
  exists (u :: called), st', bs'. split_and!; try done; [by rewrite Ej', E2 |]. intros t Hal.
  destruct (Ha t Hal) as [Hc Hd]. destruct (Hal u st1 H1) as [Hd1 Hw1].
  rewrite (working_eq _ _ Eb2), (working_eq _ _ Eb1), Ewl in Hw1. unfold times in *. destruct (decide (t = u)) as [->|Htu].
  - rewrite filter_cons_True by done. simpl. rewrite Hc, Hd, Hd1.
    rewrite (decide_False (P := u ∈ work_list bs2)) by tauto. rewrite decide_True by set_solver. split; [done |].
    unfold st1. apply (first_deadline u u st bs); [done | done | rewrite Ew; set_solver].
  - rewrite filter_cons_False by done. rewrite Hc, Hd, Hd1.
    split; [| apply (first_deadline u t st bs); [done | done | rewrite Ew; set_solver]].
    destruct (decide (t ∈ work_list bs2)) as [Hb2|Hb2], (decide (t ∈ u :: l)) as [Hl|Hl]; try done;
      rewrite elem_of_cons in Hl; tauto.
Qed.

(** What the calls mean for a timer that nobody touches and that has [r] ticks left, or is not in the wheel. *)
Definition on_time (t : Z) (r : option Z) (called : list (list Z)) (st' : timers) : Prop :=
  let n := Z.of_nat (length called) in
  (forall k l, called !! k = Some l -> times t l = if decide (r = Some (Z.of_nat k)) then 1%nat else 0%nat) /\
  deadline st' b t = (r ← r; if r <? n then None else Some (r - n)).

Lemma on_time_cons t r l called st' :
  (forall x, r = Some x -> 0 <= x) -> times t l = (if decide (r = Some 0) then 1%nat else 0%nat) ->
  on_time t (r ← r; if r =? 0 then None else Some (r - 1)) called st' -> on_time t r (l :: called) st'.
Proof.
  intros Hr Hl [H1 H2]. split.
  - intros [|k] l'; simpl; [by intros [= <-] |]. intros Hk%H1. rewrite Hk. destruct r as [x|]; simpl; [| done].
    specialize (Hr x eq_refl).
    destruct (Z.eqb_spec x 0) as [->|Hx]; [by rewrite (decide_False (P := Some 0 = _)) by (intros [=]; lia) |].
    destruct (decide (x = Z.of_nat (S k))); [rewrite !decide_True by (f_equal; lia)
      | rewrite !decide_False by (intros [=]; lia)]; done.
  - rewrite H2. destruct r as [x|]; simpl; [| done]. specialize (Hr x eq_refl).
    destruct (Z.eqb_spec x 0) as [->|Hx]; cbn [mbind option_bind].
    + by rewrite (proj2 (Z.ltb_lt _ _)) by lia.
    + destruct (Z.ltb_spec (x - 1) (Z.of_nat (length called))), (Z.ltb_spec x (Z.of_nat (S (length called))));
        try done; try lia. f_equal. lia.
Qed.

Lemma deadline_pos st c t r : deadline st c t = Some r -> 0 <= r.
Proof. unfold deadline. intros (bs & _ & E)%bind_Some. destruct (decide _); simplify_eq. unfold remaining. lia. Qed.

(** One turn of the outer loop. *)
Lemma run_turn_ok st bs :
  reachable st -> bases st !! b = Some bs -> work_list bs = [] ->
  exists st1 bs1 called st2 bs2, run_tick b st = Ret st1 /\ bases st1 !! b = Some bs1 /\
    run_list (length (work_list bs1)) b fn st1 = Ret (called, st2) /\ reachable st2 /\
    bases st2 !! b = Some bs2 /\ work_list bs2 = [] /\ timer_jiffies bs2 = u64 (timer_jiffies bs + 1) /\
    forall t, alone t -> times t called = (if decide (deadline st b t = Some 0) then 1%nat else 0%nat) /\
      deadline st2 b t = (r ← deadline st b t; if r =? 0 then None else Some (r - 1)).
Proof.
  intros H Eb Hw. pose proof (reachable_ok _ H) as Hok.
  destruct (run_tick_ok b bs st Hok Eb Hw) as (bs1 & E1 & Tk & H1).
  destruct (tick_deadline b bs st Hok Eb Hw) as (st1 & E1' & _ & Hwork & Hdead & _).
  rewrite E1 in E1'. injection E1' as <-. set (st1 := setb b bs1 st) in *.
  assert (bases st1 !! b = Some bs1) as Eb1 by (cbn; apply lookup_insert_eq).
  assert (reachable st1) as R1 by (eapply reachable_step; [done |]; eapply Step_run, Run_tick; done).
  destruct (run_list_ok (length (work_list bs1)) st1 bs1 R1 Eb1) as (called & st2 & bs2 & E
    & R2 & Eb2 & Hw2 & Ej2 & Ha2); [lia |].
  exists st1, bs1, called, st2, bs2. split_and!; try done; [by rewrite Ej2, (k_now _ _ _ Tk) |].
  intros t Hal. destruct (Ha2 t Hal) as [Hc Hd]. split.
  - rewrite Hc. pose proof (Hwork t) as Hwt. rewrite (working_eq _ _ Eb1) in Hwt. repeat case_decide; tauto.
  - rewrite Hd, Hdead. by destruct (deadline st b t).
Qed.

(** Leaving the loop. *)
Lemma run_stop_ok st bs :
  reachable st -> bases st !! b = Some bs ->
  reachable (set_running_timer b 0 st) /\ bases (set_running_timer b 0 st) !! b = Some (set_running 0 bs) /\
  forall t, on_time t (deadline st b t) [] (set_running_timer b 0 st).
Proof.
  intros H Eb.
  assert (bases (set_running_timer b 0 st) !! b = Some (set_running 0 bs)) as Eb' by (cbn; by rewrite lookup_alter_eq, Eb).
  split; [eapply reachable_step; [done |]; eapply Step_run, Run_stop |]. split; [done |].
  intros t. split; [done |]. assert (deadline (set_running_timer b 0 st) b t = deadline st b t) as ->
    by (unfold deadline; by rewrite Eb', Eb).
  destruct (deadline st b t) as [r|] eqn:Er; [| done]. apply deadline_pos in Er. cbn.
  rewrite (proj2 (Z.ltb_ge _ _)) by lia. f_equal. lia.
Qed.

(** Whether the turn [k] of a base that was at [now] finds the tick counter ahead. *)
Definition behind (now : Z) (jiffies : nat -> Z) (k : nat) : bool := time_after_eq (jiffies k) (u64 (now + Z.of_nat k)).

(** The turn [n] is the first one that does not. *)
Definition caught_up (now : Z) (jiffies : nat -> Z) (n : nat) : Prop :=
  behind now jiffies n = false /\ forall k, (k < n)%nat -> behind now jiffies k = true.

Lemma next_tick now k : u64 (u64 (now + Z.of_nat k) + 1) = u64 (now + Z.of_nat (S k)).
Proof. unfold uwrap. rewrite Zplus_mod_idemp_l. f_equal. lia. Qed.

(** From the turn [k] on, the loop does the turns up to [k + n]. *)
Lemma run_loop_ok now jiffies n : forall fuel k st bs,
  reachable st -> bases st !! b = Some bs -> work_list bs = [] -> timer_jiffies bs = u64 (now + Z.of_nat k) ->
  (n <= fuel)%nat -> behind now jiffies (k + n)%nat = false ->
  (forall m, (k <= m < k + n)%nat -> behind now jiffies m = true) ->
  exists called st' bs', run_loop fuel k b jiffies fn st = Ret (called, st') /\ reachable st' /\
    bases st' !! b = Some bs' /\ work_list bs' = [] /\
    running_timer bs' = 0 /\ length called = n /\ timer_jiffies bs' = u64 (now + Z.of_nat (k + n)) /\
    forall t, alone t -> on_time t (deadline st b t) called st'.
Proof.
  induction n as [|n IH]; intros fuel k st bs H Eb Hw Ej Hf Hend Hbef; destruct fuel as [|fuel]; try lia;
    cbn [run_loop]; rewrite (get_base_Ret _ _ _ Eb), run_bind_Ret, Ej; fold (behind now jiffies k);
    try (rewrite Nat.add_0_r in Hend; rewrite Hend; destruct (run_stop_ok st bs H Eb) as (? & ? & ?);
      exists [], (set_running_timer b 0 st), (set_running 0 bs); split_and!; try done; cbn; by rewrite Nat.add_0_r).
  rewrite Hbef by lia.
  destruct (run_turn_ok st bs H Eb Hw) as (st1 & bs1 & called & st2 & bs2 & -> & Eb1 & E2 & R2 & Eb2 & Hw2 & Ej2 & Ha2).
  rewrite run_bind_Ret, (get_base_Ret _ _ _ Eb1), run_bind_Ret, E2, run_bind_Ret.
  destruct (IH fuel (S k) st2 bs2 R2 Eb2 Hw2) as (rest & st' & bs' & -> & R' & Eb' & Hw' & Hr' & Hlen & Ej' & Ha').
  { by rewrite Ej2, Ej, next_tick. } { lia. } { by rewrite Nat.add_succ_comm. } { intros m Hm. apply Hbef. lia. }
  rewrite run_bind_Ret. exists (called :: rest), st', bs'. split_and!; try done; [by simpl; rewrite Hlen | |].
  - by rewrite Ej', Nat.add_succ_comm.
  - intros t Hal. destruct (Ha2 t Hal) as [Hc Hd]. apply on_time_cons; [intros x; apply deadline_pos | done |].
    rewrite <- Hd. by apply Ha'.
Qed.

(** As long as the counter is ahead the loop goes on. *)
Lemma run_loop_busy now jiffies fuel : forall k st bs,
  reachable st -> bases st !! b = Some bs -> work_list bs = [] -> timer_jiffies bs = u64 (now + Z.of_nat k) ->
  (forall m, (k <= m <= k + fuel)%nat -> behind now jiffies m = true) -> run_loop fuel k b jiffies fn st = Diverge.
Proof.
  induction fuel as [|fuel IH]; intros k st bs H Eb Hw Ej Hb; cbn [run_loop];
    rewrite (get_base_Ret _ _ _ Eb), run_bind_Ret, Ej; fold (behind now jiffies k); rewrite Hb by lia; [done |].
  destruct (run_turn_ok st bs H Eb Hw) as (st1 & bs1 & called & st2 & bs2 & -> & Eb1 & E2 & R2 & Eb2 & Hw2 & Ej2 & _).
  rewrite run_bind_Ret, (get_base_Ret _ _ _ Eb1), run_bind_Ret, E2, run_bind_Ret.
  rewrite (IH (S k) st2 bs2); [done.. | by rewrite Ej2, Ej, next_tick | intros m Hm; apply Hb; lia].
Qed.
End run.

(** The first turn that is not behind, if there is one. *)
Lemma caught_up_first now jiffies N : behind now jiffies N = false -> exists n, (n <= N)%nat /\ caught_up now jiffies n.
Proof.
  induction N as [N IH] using lt_wf_ind. intros HN.
  destruct (decide (Exists (fun k => behind now jiffies k = false) (seq 0 N))) as [He | He].
  - apply Exists_exists in He as (k & Hk%elem_of_seq & E). destruct (IH k ltac:(lia) E) as (n & ? & ?). exists n.
    by split; [lia |].
  - exists N. split; [done |]. split; [done |]. intros k Hk. apply not_false_is_true. intros E. apply He.
    apply Exists_exists. exists k. by split; [apply elem_of_seq; lia |].
Qed.

(** A counter that at the turn [N] is less than [N] ticks ahead of where the base began is caught up by then. *)
Lemma caught_up_within now jiffies N : 0 <= now < 2 ^ 64 -> Z.of_nat N < 2 ^ 63 ->
  0 <= left_ now (jiffies N) < Z.of_nat N -> exists n, (n <= N)%nat /\ caught_up now jiffies n.
Proof.
  intros Hnow HN Hl. apply caught_up_first. unfold behind. rewrite time_after_eq_left.
  assert (forall k, (k <= N)%nat -> left_ (u64 (now + Z.of_nat k)) (jiffies N) = left_ now (jiffies N) - Z.of_nat k) as Hk.
  { induction k as [|k IH]; intros Hk; [rewrite Z.add_0_r, Z.sub_0_r, uwrap_small by done; done |].
    rewrite <- next_tick, left_tick, IH by (rewrite ?IH by lia; lia). lia. }
  rewrite Hk by done. apply Z.leb_gt. lia.
Qed.

(** ** What [del_timer_sync] promises *)

(** The timer is in no list and no base runs its handler. *)
Definition gone (t : Z) (st : timers) : Prop :=
  (exists tl, heap st !! t = Some tl /\ entry_next tl = false) /\
  forall b bs, bases st !! b = Some bs -> t ∉ queued bs /\ t ∉ work_list bs /\ running_timer bs <> t.

Lemma try_to_del_gone t st r st' :
  reachable st -> try_to_del_timer_sync t st = Ret (r, st') ->
  reachable st' /\ ((r = -1 /\ st' = st /\ exists b bs, bases st !! b = Some bs /\ running_timer bs = t) \/
    (0 <= r /\ gone t st' /\ r = from_option (fun tl => Z.b2z (entry_next tl)) 0 (heap st !! t))).
Proof.
  intros H E. split; [eapply reachable_step; [done |]; by eapply Step_op, Op_try_del |]. pose proof (reachable_ok _ H) as Hok.
  assert (exists tl, heap st !! t = Some tl /\ of_base tl <> 0) as (tl & Ht & Hz).
  { unfold try_to_del_timer_sync in E. apply bind_Ret_inv in E as (b & (tl & ? & <- & ?)%lock_inv & _). by exists tl. }
  destruct (try_to_del_ok t tl st Hok Ht Hz) as [(b & bs & ? & ? & E1) | (Hr & st1 & E1 & Hok' & T & Et)];
    rewrite E in E1; simplify_eq; [left; eauto 6 |]. right.
  split; [destruct (entry_next tl); simpl; lia |]. split; [| by rewrite Ht]. split; [by exists (set_entry false tl) |].
  intros b bs Eb.
  pose proof (not_listed t _ _ Hok' Et (or_introl eq_refl) b bs Eb) as Hl. unfold lists in Hl.
  rewrite elem_of_app in Hl. split; [tauto |]. split; [tauto |].
  destruct (bases st !! b) as [bs0|] eqn:Eb0; [| rewrite (f_none _ _ _ T _ Eb0) in Eb; done].
  destruct (f_base _ _ _ T _ _ Eb0) as (bs1 & Eb1 & K).
  rewrite Eb in Eb1. simplify_eq. rewrite (p_running _ _ _ K). by eapply Hr.
Qed.

Lemma del_timer_sync_gone relax t n : forall st r st',
  (forall s, reachable s -> rtc step s (relax s)) -> reachable st -> del_timer_sync n relax t st = Ret (r, st') ->
    reachable st' /\ gone t st'.
Proof.
  induction n as [|n IH]; intros st r st' Hx H; simpl; [done |]. intros ([r1 st1] & E1 & E)%bind_Ret_inv.
  destruct (try_to_del_gone t st r1 st1 H E1) as [H1 [(-> & -> & _) | (Hr & Hg & _)]].
  - apply IH in E; [done | done |]. eapply reachable_steps; [done |]. by apply Hx.
  - rewrite Z.geb_leb, (proj2 (Z.leb_le _ _)) in E by lia. by simplify_eq.
Qed.

(** C28: whatever the CPUs do, in every reachable state a timer is pending exactly when it is in a list of its base, or
    a call of [__mod_timer] has it between two bases; it is in the lists of one base and in them once.  No handler runs
    on two CPUs.
    [try_to_del_timer_sync] answers -1 exactly when the handler runs, and else leaves the timer in no list and not
    running, as does [del_timer_sync] when it returns.  The BUG_ON of the cascade never fires. *)
Theorem timer_system_invariant st :
  reachable st ->
  (forall t tl, heap st !! t = Some tl ->
     (exists b bs, bases st !! b = Some bs /\ t ∈ lists bs) <-> entry_next tl = true /\ moving st !! t = None) /\
  (forall b bs c cs t, bases st !! b = Some bs -> bases st !! c = Some cs -> t ∈ lists bs -> t ∈ lists cs -> b = c /\
    NoDup (lists bs)) /\
  (forall b bs c cs t, bases st !! b = Some bs -> bases st !! c = Some cs -> is_Some (heap st !! t) ->
     running_timer bs = t -> running_timer cs = t -> b = c) /\
  (forall t tl, heap st !! t = Some tl -> moving st !! t = None ->
     exists r st', try_to_del_timer_sync t st = Ret (r, st') /\
       ((r = -1 /\ exists b bs, bases st !! b = Some bs /\ running_timer bs = t) \/ (r = Z.b2z (entry_next tl) /\ gone t st'))) /\
  (forall relax t n r st', (forall s, reachable s -> rtc step s (relax s)) ->
    del_timer_sync n relax t st = Ret (r, st') -> gone t st') /\
  (forall b bs, bases st !! b = Some bs -> work_list bs = [] -> exists st', run_tick b st = Ret st').
Proof.
  intros H. pose proof (reachable_ok _ H) as Hok. split_and!.
  - intros t tl Ht. split.
    + intros (b & bs & Eb & Hl). destruct (t_listed _ _ Hok _ _ _ Eb Hl) as (tl' & ? & ? & Hb & _). simplify_eq. split; [done |].
      destruct (moving st !! t) eqn:Em; [| done]. destruct (t_base _ _ Hok _ _ Eb) as [? _].
      assert (of_base tl = 0) by (apply (t_moving _ _ Hok _ _ Ht); [done | rewrite Em; eauto]). lia.
    + intros [He Hm]. destruct (t_queued _ _ Hok t tl) as (bs & ? & ?); try done; [by eapply idle_base |]. eauto.
  - intros b bs c cs t Eb Ec Hb Hc. destruct (t_listed _ _ Hok _ _ _ Eb Hb) as (? & ? & _ & ? & _).
    destruct (t_listed _ _ Hok _ _ _ Ec Hc) as (? & ? & _ & ? & _).
    split; [congruence |]. destruct (t_base _ _ Hok _ _ Eb) as (_ & _ & Hw). exact (w_nodup _ _ Hw).
  - intros b bs c cs t Eb Ec [tl Ht] Hb Hc.
    rewrite <- (t_running _ _ Hok b bs tl Eb), <- (t_running _ _ Hok c cs tl Ec) by congruence. done.
  - intros t tl Ht Hm. assert (of_base tl <> 0) as Hz by (by eapply idle_base).
    destruct (try_to_del_ok t tl st Hok Ht Hz) as [(b & bs & ? & ? & E) | (_ & st1 & E & _)]; eexists _, _;
      (split; [exact E |]); [left; eauto |].
    destruct (try_to_del_gone t st _ _ H E) as [_ [(E1 & _) | (_ & ? & _)]]; [destruct (entry_next tl); done | by right].
  - intros relax t n r st' Hx E. by eapply del_timer_sync_gone.
  - intros b bs Eb Hw. destruct (run_tick_ok b bs st Hok Eb Hw) as (bs' & ? & _). eauto.
Qed.

(** C5: the wheel is a table of deadlines.  Setting a timer gives it the deadline of its expiry, at once for one in the past and
    whatever its distance, on the CPU it is meant for or on the one that runs its handler; deleting it takes the
    deadline away; no other deadline changes.  A tick hands out exactly the timers whose deadline is
    reached and brings every other deadline of the base one tick nearer. *)
Theorem timer_wheel_deadlines st :
  reachable st ->
  (forall c t e pending_only pinned tl, heap st !! t = Some tl -> function tl <> 0 -> moving st !! t = None -> 0 <= e < 2 ^ 64 ->
     exists st', __mod_timer c t e pending_only pinned st = Ret (st', Z.b2z (entry_next tl)) /\
       if negb (entry_next tl) && pending_only then st' = st
       else (exists b bs, bases st !! b = Some bs /\ deadline st' b t = Some (remaining (timer_jiffies bs) e) /\
               (b = per_cpu st (timer_cpu c pinned) \/ (b = of_base tl /\ running_timer bs = t))) /\
            (forall b u, u <> t -> deadline st' b u = deadline st b u)) /\
  (forall t tl, heap st !! t = Some tl -> moving st !! t = None ->
     exists st', del_timer t st = Ret (Z.b2z (entry_next tl), st') /\
       (forall b, deadline st' b t = None) /\ forall b u, u <> t -> deadline st' b u = deadline st b u) /\
  (forall b bs, bases st !! b = Some bs -> work_list bs = [] ->
     exists st', run_tick b st = Ret st' /\
       (forall t, t ∈ working st' b <-> deadline st b t = Some 0) /\
       (forall t, deadline st' b t = match deadline st b t with Some r => if r =? 0 then None else Some (r - 1)
         | None => None end) /\
       (forall c t, c <> b -> deadline st' c t = deadline st c t)).
Proof.
  intros H. pose proof (reachable_ok _ H) as Hok. split_and!.
  - intros c t e po pinned tl Ht Hf Hm He. destruct (mod_timer_deadline c t e po pinned tl st) as (st' & ? & _ & ?);
      try done; [by eapply idle_base |]. by exists st'.
  - intros t tl Ht Hm. destruct (del_timer_ok t tl st) as (st' & ? & ? & ? & ?); try done; [by eapply idle_base |].
    exists st'. split_and!; try done.
    + intros b. by apply (idle_deadline t (set_entry false tl)).
    + intros b u Hu. by apply (touched_deadline t).
  - intros b bs Eb Hw. destruct (tick_deadline b bs st Hok Eb Hw) as (st' & ? & _ & ? & ? & Hc). exists st'.
    split_and!; try done. intros c t Hn. by apply Hc.
Qed.

(** C4: whatever the handlers and the other CPUs do to timers meanwhile, [__run_timers] returns in exactly the first turn
    in which the tick counter, read anew in each turn, is not ahead of the base, and goes on as long as it is ahead; this
    turn is one of the first [N] if the reading of the turn [N] is less than [N] ticks ahead of where the base began.
    A timer that nobody touches has its handler called once, in the turn of its deadline, or keeps what is
    left of its deadline.  Afterwards the base has no work and runs no timer. *)
Theorem run_timers_on_time b fn jiffies st bs :
  (forall t st, reachable st -> rtc (other b) st (fn t st)) -> reachable st -> bases st !! b = Some bs -> work_list bs = [] ->
  (forall n fuel, caught_up (timer_jiffies bs) jiffies n -> (n <= fuel)%nat ->
    exists called st' bs', __run_timers fuel b jiffies fn st = Ret (called, st') /\ reachable st' /\ bases st' !! b = Some bs' /\
      work_list bs' = [] /\ running_timer bs' = 0 /\ length called = n /\
      timer_jiffies bs' = u64 (timer_jiffies bs + Z.of_nat n) /\
      forall t, alone b fn t -> on_time b t (deadline st b t) called st') /\
  (forall fuel, (forall k, (k <= fuel)%nat -> behind (timer_jiffies bs) jiffies k = true) ->
    __run_timers fuel b jiffies fn st = Diverge) /\
  (forall N, Z.of_nat N < 2 ^ 63 -> 0 <= left_ (timer_jiffies bs) (jiffies N) < Z.of_nat N ->
    exists n, (n <= N)%nat /\ caught_up (timer_jiffies bs) jiffies n).
Proof.
  intros Hfn H Eb Hw. pose proof (t_base _ _ (reachable_ok _ H) _ _ Eb) as (_ & _ & Hwh). pose proof (w_now _ _ Hwh) as Hj.
  assert (timer_jiffies bs = u64 (timer_jiffies bs + Z.of_nat 0)) as E0 by (by rewrite Z.add_0_r, uwrap_small).
  unfold __run_timers. split; [| split].
  - intros n fuel [Hn Hk] Hf. apply (run_loop_ok b fn Hfn (timer_jiffies bs) jiffies n fuel 0 st bs); try done.
    intros m Hm. apply Hk. lia.
  - intros fuel Hb. apply (run_loop_busy b fn Hfn (timer_jiffies bs) jiffies fuel 0 st bs); try done.
    intros m Hm. apply Hb. lia.
  - intros N HN Hl. by apply caught_up_within.
Qed.

(** ** A system with one timer *)

(** One CPU at tick 1000, and a timer set to tick 1300. *)
Definition blank : timer_list := TimerList false 0 7 0.
Definition fresh : timers := init_timer_key 0 1 blank (booted 1000 4096).
Definition one_cpu : cpu_state := CpuState 0 false false 0.
Definition one_timer : timers := match __mod_timer one_cpu 1 1300 false false fresh with Ret (st, _) => st | _ => fresh end.

Lemma fresh_reachable : reachable fresh.
Proof.
  exists 1000, 4096. do 3 (split; [done |]). apply rtc_once. apply (Step_op _ _ 1), Op_init; try done.
  split; [done |]. intros b bs. unfold booted, init_timers_cpu, init_base. cbn. rewrite insert_empty.
  by intros [<- <-]%lookup_singleton_Some.
Qed.

Lemma one_timer_reachable : reachable one_timer.
Proof.
  eapply reachable_step; [apply fresh_reachable |]. apply (Step_op _ _ 1).
  apply (Op_mod_begin 1 fresh 0 1300 false one_timer (inl 0)); [lia |]. reflexivity.
Qed.

Lemma one_timer_base : exists bs, bases one_timer !! 4096 = Some bs /\ work_list bs = [] /\ timer_jiffies bs = 1000 /\
  deadline one_timer 4096 1 = Some 300 /\
  queued bs = [1] /\ mjoin (tv bs tv5) = [].
Proof. eexists. split; [reflexivity |]. split; [reflexivity |]. split; [reflexivity |]. split_and!; vm_compute; reflexivity. Qed.

Lemma timer_system_invariant_witness :
  reachable one_timer /\ exists r st', try_to_del_timer_sync 1 one_timer = Ret (r, st') /\ (r = 1 /\ gone 1 st').
Proof.
  split; [apply one_timer_reachable |].
  destruct (timer_system_invariant one_timer one_timer_reachable) as (_ & _ & _ & H & _).
  destruct (H 1 (TimerList true 1300 7 4096)) as (r & st' & E & [(Hr & _) | Hg]);
    [reflexivity | reflexivity | | by exists r, st'].
  vm_compute in E. congruence.
Defined.

Lemma timer_wheel_deadlines_witness :
  deadline one_timer 4096 1 = Some 300 /\
  exists st', run_tick 4096 one_timer = Ret st' /\ deadline st' 4096 1 = Some 299.
Proof.
  split; [vm_compute; reflexivity |].
  destruct (timer_wheel_deadlines one_timer one_timer_reachable) as (_ & _ & H).
  destruct one_timer_base as (bs & Eb & Hw & _ & Ed & _). destruct (H 4096 bs Eb Hw) as (st' & E & _ & Hd & _).
  exists st'. split; [exact E |]. rewrite Hd, Ed. reflexivity.
Defined.

(** From 1300 on a tick passes every two turns: a base at 1000 has caught up after 601 turns. *)
Definition slow_ticks (k : nat) : Z := 1300 + Z.of_nat (k / 2).

Lemma slow_ticks_caught_up : caught_up 1000 slow_ticks 601.
Proof.
  split; [vm_compute; reflexivity |]. intros k Hk. unfold behind, slow_ticks. rewrite time_after_eq_left.
  pose proof (Nat.div_mod_eq k 2). pose proof (Nat.mod_upper_bound k 2 ltac:(lia)).
  rewrite uwrap_small by lia. unfold left_. rewrite swrap_small by lia. apply Z.leb_le. lia.
Qed.

Lemma run_timers_on_time_witness :
  exists called st' l, __run_timers 1000 4096 slow_ticks (fun _ st => st) one_timer = Ret (called, st') /\
    length called = 601%nat /\ called !! 300%nat = Some l /\ times 1 l = 1%nat /\ deadline st' 4096 1 = None.
Proof.
  destruct one_timer_base as (bs & Eb & Hw & Ej & Ed & _).
  destruct (run_timers_on_time 4096 (fun _ st => st) slow_ticks one_timer bs) as (Hrun & _ & _);
    [intros; apply rtc_refl | apply one_timer_reachable | exact Eb | exact Hw |].
  rewrite Ej in Hrun.
  destruct (Hrun 601%nat 1000%nat slow_ticks_caught_up ltac:(lia)) as (called & st' & bs' & E & _ & _ & _ & _ & Hl & _ & Ht).
  destruct (Ht 1) as [Hc Hd]; [intros u s _; split; reflexivity |]. rewrite Ed in Hc, Hd.
  destruct (lookup_lt_is_Some_2 called 300) as [l El]; [lia |]. exists called, st', l.
  split_and!; [exact E | exact Hl | exact El | exact (Hc _ _ El) |].
  rewrite Hd. cbn [mbind option_bind]. by rewrite (proj2 (Z.ltb_lt _ _)) by lia.
Defined.

End TimerRun.
