(* ===== verification/TimerNext.v ===== *)
(** * The next timer event

    [__next_timer_interrupt] looks through the wheel for the earliest timer
    that is not deferrable.  It is right while every timer of the last vector is
    in the list of its own expiry, and may be late when one that is further away
    than the wheel reaches waits there. *)
From stdpp Require Import relations.
From S2P Require Import Prelude Timer TimerWheel TimerSystem TimerRun.

Module TimerNext.
Import Timer TimerWheel TimerSystem TimerRun.

(** ** The lists in the order in which they come up *)

(** The ticks until the next list of a vector comes up. *)
Definition first_tick (v : vector) (j : Z) : Z := (- j) mod 2 ^ shift v.

(** The list that comes up as number [m] after that, if [index] is the first. *)
Definition nth_slot (v : vector) (index m : Z) : nat := Z.to_nat ((index + m) mod 2 ^ (width v - shift v)).

Definition first_index (v : vector) (j : Z) : Z := ((j + first_tick v j) / 2 ^ shift v) mod 2 ^ (width v - shift v).

Lemma pow_split v : 0 < 2 ^ shift v /\ 0 < 2 ^ (width v - shift v) /\ 2 ^ width v = 2 ^ (width v - shift v) * 2 ^ shift v.
Proof. destruct v; repeat split; done. Qed.

Lemma first_tick_range v j : 0 <= first_tick v j < 2 ^ shift v.
Proof. apply Z.mod_pos_bound, pow_split. Qed.

Lemma first_tick_mul v j : (j + first_tick v j) mod 2 ^ shift v = 0.
Proof. unfold first_tick. rewrite Zplus_mod_idemp_r, Z.add_opp_diag_r. apply Z.mod_0_l. pose proof (pow_split v). lia. Qed.

Lemma ticks_nth j v m :
  0 <= m < 2 ^ (width v - shift v) -> ticks_to j v (nth_slot v (first_index v j) m) = first_tick v j + m * 2 ^ shift v.
Proof.
  intros Hm. destruct (pow_split v) as (H1 & H2 & E). pose proof (first_tick_range v j) as Hf.
  pose proof (first_tick_mul v j) as Hj.
  unfold ticks_to, nth_slot, first_index. set (s := 2 ^ shift v) in *. set (n := 2 ^ (width v - shift v)) in *.
  set (f := first_tick v j) in *.
  rewrite Z2Nat.id by (apply Z.mod_pos_bound; lia). rewrite E, Zplus_mod_idemp_l.
  rewrite <- Zminus_mod_idemp_l, <- Zmult_mod_distr_r, Z.mod_mod, Zminus_mod_idemp_l by lia.
  assert ((j + f) / s * s = j + f) as Ed by (pose proof (Z.div_mod (j + f) s); lia).
  replace (((j + f) / s + m) * s - j) with (f + m * s) by lia. apply Z.mod_small. nia.
Qed.

Lemma nth_slot_surj j v i :
  (i < Z.to_nat (2 ^ (width v - shift v)))%nat -> exists m, 0 <= m < 2 ^ (width v - shift v) /\
    i = nth_slot v (first_index v j) m.
Proof.
  intros Hi. destruct (pow_split v) as (_ & H2 & _). set (n := 2 ^ (width v - shift v)) in *.
  exists ((Z.of_nat i - first_index v j) mod n). split; [apply Z.mod_pos_bound; lia |]. unfold nth_slot. fold n.
  rewrite Zplus_mod_idemp_r.
  replace (first_index v j + (Z.of_nat i - first_index v j)) with (Z.of_nat i) by lia. rewrite Z.mod_small by lia. lia.
Qed.

(** The variable of the scan on the way to the next vector. *)
Definition at_vector (v : vector) (j jv : Z) : Prop := exists q, 0 <= jv <= 2 ^ 57 /\
  jv * 2 ^ shift v = j + first_tick v j - q * 2 ^ 64.

Lemma at_vector_index v j jv : v <> tv1 -> at_vector v j jv -> jv .& TVN_MASK = first_index v j.
Proof.
  intros Hv (q & Hj & E). change TVN_MASK with (Z.ones 6). rewrite Z.land_ones by lia. unfold first_index.
  destruct (pow_split v) as (Hs & _). assert (j + first_tick v j = (jv + q * 2 ^ (64 - shift v)) * 2 ^ shift v) as ->.
  { rewrite Z.mul_add_distr_r, <- Z.mul_assoc, <- Z.pow_add_r by (by destruct v).
    replace (64 - shift v + shift v) with 64 by lia. lia. }
  rewrite Z.div_mul by lia. replace (width v - shift v) with 6 by (by destruct v).
  rewrite <- (mod_pow_mod (jv + _) 6 (64 - shift v)) by (by destruct v). rewrite Z.mod_add by (by destruct v).
  by rewrite mod_pow_mod by (by destruct v).
Qed.

Lemma first_tick_unique w j f : 0 <= f < 2 ^ shift w -> (j + f) mod 2 ^ shift w = 0 -> first_tick w j = f.
Proof.
  intros Hf Hm. unfold first_tick. destruct (pow_split w) as (Hs & _). replace (- j) with (f + - (j + f)) by lia.
  rewrite <- Zplus_mod_idemp_r, Z.mod_opp_l_z, Z.add_0_r by lia. by apply Z.mod_small.
Qed.

Lemma at_vector_next v w j jv :
  v <> tv1 -> shift w = width v -> at_vector v j jv ->
  let index := jv .& TVN_MASK in let pad := if index =? 0 then 0 else 64 - index in
  at_vector w j ((if index =? 0 then jv else u64 (jv + (TVN_SIZE - index))) .>> TVN_BITS) /\
  first_tick w j = first_tick v j + pad * 2 ^ shift v.
Proof.
  intros Hv Hw (q & Hj & E). cbn zeta. change TVN_MASK with (Z.ones 6). rewrite Z.land_ones by lia.
  change TVN_SIZE with 64. change TVN_BITS with 6.
  change (2 ^ 6) with 64. pose proof (Z.mod_pos_bound jv 64 ltac:(lia)) as Hi. pose proof (Z.div_mod jv 64 ltac:(lia)) as Hd.
  set (pad := if jv mod 64 =? 0 then 0 else 64 - jv mod 64).
  assert (0 <= pad < 64 /\ exists k, jv + pad = 64 * k /\ 0 <= k <= 2 ^ 57) as (Hp & k & Hk & Hkr).
  { unfold pad. destruct (Z.eqb_spec (jv mod 64) 0); (split; [lia |]); [exists (jv / 64) | exists (jv / 64 + 1)]; lia. }
  assert ((if jv mod 64 =? 0 then jv else u64 (jv + (64 - jv mod 64))) = jv + pad) as ->.
  { unfold pad. destruct (_ =? 0); [lia |]. apply uwrap_small. lia. }
  rewrite Hk, Z.mul_comm, Z.shiftr_div_pow2, Z.div_mul by lia.
  assert (2 ^ shift w = 64 * 2 ^ shift v) as Ew by (rewrite Hw; by destruct v).
  pose proof (first_tick_range v j) as Hf.
  assert (k * 2 ^ shift w = j + (first_tick v j + pad * 2 ^ shift v) - q * 2 ^ 64) as Ek by (rewrite Ew; nia).
  assert (first_tick w j = first_tick v j + pad * 2 ^ shift v) as Et; [| split; [exists q; by rewrite Et | done]].
  apply first_tick_unique; [nia |].
  replace (j + (first_tick v j + pad * 2 ^ shift v)) with ((k + q * 2 ^ (64 - shift w)) * 2 ^ shift w);
    [apply Z.mod_mul; destruct (pow_split w); lia |].
  rewrite Z.mul_add_distr_r, <- Z.mul_assoc, <- Z.pow_add_r by (by destruct w).
  replace (64 - shift w + shift w) with 64 by lia. lia.
Qed.

(** The step from the first vector to the second. *)
Lemma at_vector_tv2 j :
  0 <= j < 2 ^ 64 -> let index := j .& TVR_MASK in
  at_vector tv2 j ((if index =? 0 then j else u64 (j + (TVR_SIZE - index))) .>> TVR_BITS) /\
    first_tick tv2 j = if index =? 0 then 0 else 256 - index.
Proof.
  intros Hj. cbn zeta. change TVR_MASK with (Z.ones 8). rewrite Z.land_ones by lia. change TVR_SIZE with 256.
  change TVR_BITS with 8. change (2 ^ 8) with 256.
  pose proof (Z.mod_pos_bound j 256 ltac:(lia)) as Hi. pose proof (Z.div_mod j 256 ltac:(lia)) as Hd.
  set (pad := if j mod 256 =? 0 then 0 else 256 - j mod 256).
  assert (0 <= pad < 256 /\ exists k, j + pad = 256 * k /\ 0 <= k <= 2 ^ 56) as (Hp & k & Hk & Hkr).
  { unfold pad. destruct (Z.eqb_spec (j mod 256) 0); (split; [lia |]); [exists (j / 256) | exists (j / 256 + 1)]; lia. }
  assert (first_tick tv2 j = pad) as Et.
  { apply first_tick_unique; [simpl; lia |]. rewrite Hk. simpl shift. change (2 ^ 8) with 256. rewrite Z.mul_comm.
    apply Z.mod_mul. lia. }
  split; [| done]. unfold at_vector. rewrite Et. rewrite Z.shiftr_div_pow2 by lia. change (2 ^ 8) with 256.
  assert ((if j mod 256 =? 0 then j else u64 (j + (256 - j mod 256))) = u64 (256 * k)) as ->.
  { rewrite <- Hk. unfold pad. destruct (_ =? 0); [rewrite Z.add_0_r; by rewrite uwrap_small | done]. }
  destruct (Z.eq_dec k (2 ^ 56)) as [->|Hn].
  - exists 1. change (u64 (256 * 2 ^ 56)) with 0. change (0 / 256) with 0. rewrite Hk. split; lia.
  - exists 0. rewrite uwrap_small by lia. rewrite (Z.mul_comm 256), Z.div_mul by lia. simpl shift.
    change (2 ^ 8) with 256. split; lia.
Qed.

(** ** The scan of one list *)

Section scan.
Context (st : timers) (bs : tvec_base).
Let exp := expires_of st.
Let j := timer_jiffies bs.
Context (Hok : wheel_ok exp bs).

(** No timer is absurdly far away, so that times can be compared, and those of
    tv5 are in the list of their own expiry. *)
Definition sane (t : Z) : Prop := - 2 ^ 62 <= left_ j (exp t) < 2 ^ 62.
Context (Hsane : forall t, t ∈ queued bs -> sane t).
Context (Hnear : forall i t, t ∈ bucket bs tv5 i -> left_ j (exp t) < ticks_to j tv5 i + 2 ^ 26).

Definition active (t : Z) : Prop := deferrable st t = false.

Lemma first_active_spec l :
  match first_active st l with
  | Some e => exists t, t ∈ l /\ active t /\ e = exp t
  | None => forall t, t ∈ l -> ~ active t
  end.
Proof.
  unfold active. induction l as [|t l IH]; simpl; [by intros t ?%not_elem_of_nil |]. destruct (deferrable st t) eqn:E.
  - destruct (first_active st l); [destruct IH as (u & ? & ? & ?); exists u; set_solver |].
    intros u [-> | Hu]%elem_of_cons; [by rewrite E | by apply IH].
  - exists t. set_solver.
Qed.

(** Comparing times that are near the present is comparing the time left. *)
Lemma time_before_near a e :
  - 2 ^ 62 <= left_ j a < 2 ^ 62 -> - 2 ^ 62 <= left_ j e < 2 ^ 62 -> time_before a e = (left_ j a <? left_ j e).
Proof.
  intros Ha He. rewrite time_before_left. assert (left_ e a = left_ j a - left_ j e) as ->;
    [| apply eq_true_iff_eq; rewrite !Z.ltb_lt; lia].
  unfold left_ at 1. replace (a - e) with ((a - j) - (e - j)) by lia. rewrite <- swrap_sub. apply swrap_small; [lia |].
  unfold left_ in *. lia.
Qed.

(** [e] is the earliest expiry of the timers in [P], which are all active ones seen so far, or the limit. *)
Record best (P : Z -> Prop) (found : bool) (e : Z) : Prop := Best {
  b_range : - 2 ^ 62 <= left_ j e <= NEXT_TIMER_MAX_DELTA;
  b_least t : P t -> active t -> remaining j e <= remaining j (exp t);
  b_from : remaining j e = NEXT_TIMER_MAX_DELTA \/ exists t, P t /\ active t /\ remaining j e = remaining j (exp t);
  b_found : found = false -> forall t, P t -> ~ active t
}.

Lemma scan_list_spec l P : forall Q found e,
  (forall t, t ∈ l -> sane t) -> best Q found e -> (forall t, P t <-> Q t \/ t ∈ l) ->
  let '(found', e') := scan_list st l found e in best P found' e' /\ (found' = true <-> found = true \/
    exists t, t ∈ l /\ active t) /\ left_ j e' <= left_ j e.
Proof.
  induction l as [|t l IH]; intros Q found e Hs B HP; simpl.
  - split; [| split; [split; [by left | intros [|(? & ?%not_elem_of_nil & _)]; done] | lia]]. destruct B as [B1 B2 B3 B4].
    assert (forall t, P t <-> Q t) as E by (intros t; rewrite HP; split; [intros [|?%not_elem_of_nil]; done | by left]).
    split; [done | intros t; rewrite E; apply B2 | | intros Hf t; rewrite E; by apply B4].
    destruct B3 as [|(t & ? & ?)]; [by left | right; exists t; by rewrite E].
  - assert (forall t, t ∈ l -> sane t) as Hs' by (intros u Hu; apply Hs; set_solver). destruct B as [B1 B2 B3 B4].
    destruct (deferrable st t) eqn:Ed.
    + specialize (IH (fun u => Q u \/ u = t) found e Hs'). destruct (scan_list st l found e) as [found' e'].
      destruct IH as (IB & If & Il).
      * split; [done | | | ].
        { intros u [Hu | ->] Ha; [by apply B2 | unfold active in Ha; congruence]. }
        { destruct B3 as [|(u & ? & ? & ?)]; [by left | right; exists u; tauto]. }
        { intros Hf u [Hu | ->]; [by apply B4 | unfold active; congruence]. }
      * intros u. rewrite HP, elem_of_cons. tauto.
      * split; [done |]. split; [| done]. rewrite If. split; (intros [|(u & Hu & Ha)]; [by left | right]);
          [exists u; set_solver |].
        exists u. apply elem_of_cons in Hu as [-> | Hu]; [unfold active in Ha; congruence | done].
    + set (e1 := if time_before (expires_of st t) e then expires_of st t else e).
      assert (sane t) as Hst by (apply Hs; set_solver).
      assert (left_ j e1 = Z.min (left_ j (exp t)) (left_ j e)) as El.
      { unfold e1. fold exp. unfold sane in Hst. change NEXT_TIMER_MAX_DELTA with (2 ^ 30 - 1) in B1.
        rewrite time_before_near by lia. destruct (Z.ltb_spec (left_ j (exp t)) (left_ j e)); lia. }
      specialize (IH (fun u => Q u \/ u = t) true e1 Hs'). destruct (scan_list st l true e1) as [found' e'].
      destruct IH as (IB & If & Il).
      * unfold sane in Hst. split; [lia | | | done].
        { intros u [Hu | ->] Ha; [specialize (B2 u Hu Ha) |]; unfold remaining in *; lia. }
        { destruct (Z.le_ge_cases (left_ j e) (left_ j (exp t))).
          - destruct B3 as [B3|(u & ? & ? & B3)]; [left | right; exists u; split_and!; [by left | done |]];
              unfold remaining in *; lia.
          - right. exists t. split_and!; [by right | done |]. unfold remaining. lia. }
      * intros u. rewrite HP, elem_of_cons. tauto.
      * split; [done |]. split; [| lia]. rewrite If. split; [intros _; right; exists t; set_solver | by left].
Qed.

(** ** The lists of one vector *)

Definition size (v : vector) : Z := 2 ^ (width v - shift v).

(** The timers of the first [m] lists to come up. *)
Definition seen (v : vector) (m : Z) (t : Z) : Prop := exists k, 0 <= k < m /\ t ∈ bucket bs v (nth_slot v (first_index v j) k).

Lemma seen_all v t i : t ∈ bucket bs v i -> seen v (size v) t.
Proof.
  intros Ht. destruct (nth_slot_surj j v i) as (m & Hm & ->); [rewrite <- (w_len _ _ Hok); by eapply bucket_lt |]. by exists m.
Qed.

Lemma seen_succ v m t : 0 <= m -> seen v (m + 1) t <-> seen v m t \/ t ∈ bucket bs v (nth_slot v (first_index v j) m).
Proof.
  intros Hm. split.
  - intros (k & Hk & Ht). destruct (decide (k = m)) as [->|]; [by right | left; exists k; split; [lia | done]].
  - intros [(k & Hk & Ht) | Ht]; [exists k | exists m]; (split; [lia | done]).
Qed.

Lemma seen_queued v m t : seen v m t -> t ∈ queued bs.
Proof. intros (k & _ & Ht). apply elem_of_queued. eauto. Qed.

Lemma block v m t :
  0 <= m < size v -> t ∈ bucket bs v (nth_slot v (first_index v j) m) ->
  first_tick v j + m * 2 ^ shift v <= remaining j (exp t) < first_tick v j + (m + 1) * 2 ^ shift v.
Proof.
  intros Hm Ht. pose proof (ticks_nth j v m Hm) as Hk. pose proof (first_tick_range v j) as Hf.
  destruct (pow_split v) as (Hs & _).
  pose proof (w_placed _ _ Hok _ _ _ Ht) as Hp. unfold remaining. fold j in Hp.
  assert (ticks_to j v (nth_slot v (first_index v j) m) <= Z.max 0 (left_ j (exp t)) < ticks_to j v
    (nth_slot v (first_index v j) m) + 2 ^ shift v) as H; [| nia].
  destruct v; unfold placed in Hp; simpl shift in *; try nia. specialize (Hnear _ _ Ht). nia.
Qed.

(** Timers of lists that come up later are later. *)
Lemma unseen v m t : 0 <= m -> seen v (size v) t -> seen v m t \/ first_tick v j + m * 2 ^ shift v <= remaining j (exp t).
Proof.
  intros Hm (k & Hk & Ht). destruct (pow_split v) as (Hs & _).
  destruct (Z.lt_ge_cases k m); [left; exists k; split; [lia | done] | right].
  pose proof (block v k t Hk Ht). nia.
Qed.

Lemma scan_tv1_spec n : forall m, 0 <= m -> m + Z.of_nat n = 255 -> (forall t, seen tv1 m t -> ~ active t) ->
  let index := first_index tv1 j in
  match scan_tv1 n st bs index ((index + m) mod 256) with
  | Some (slot, e) => exists k t, m <= k < 256 /\ slot = (index + k) mod 256 /\
    t ∈ bucket bs tv1 (nth_slot tv1 index k) /\ active t /\ e = exp t /\
      forall u, seen tv1 k u -> ~ active u
  | None => forall t, seen tv1 256 t -> ~ active t
  end.
Proof.
  induction n as [|n IH]; intros m Hm Hn Hs; cbn zeta; cbn [scan_tv1].
  all: change (Z.to_nat ((first_index tv1 j + m) mod 256)) with (nth_slot tv1 (first_index tv1 j) m).
  all: pose proof (first_active_spec (bucket bs tv1 (nth_slot tv1 (first_index tv1 j) m))) as Hf.
  all: destruct (first_active _ _) as [e|]; [destruct Hf as (t & ? & ? & ->); exists m, t; split_and!; try done; lia |].
  all: assert (forall t, seen tv1 (m + 1) t -> ~ active t) as Hs' by (intros t [|]%seen_succ; [by apply Hs | by apply Hf | done]).
  - by replace 256 with (m + 1) by lia.
  - change TVR_MASK with (Z.ones 8). rewrite Z.land_ones by lia. change (2 ^ 8) with 256.
    rewrite Zplus_mod_idemp_l, <- Z.add_assoc.
    assert (0 <= first_index tv1 j < 256) as Hi by (apply Z.mod_pos_bound; done).
    rewrite (proj2 (Z.eqb_neq _ _)).
    2: { intros E. pose proof (Z.div_mod (first_index tv1 j + (m + 1)) 256 ltac:(lia)).
      assert ((first_index tv1 j + (m + 1)) / 256 = 0 \/ (first_index tv1 j + (m + 1)) / 256 = 1); [|lia].
         assert (0 <= (first_index tv1 j + (m + 1)) / 256 < 2); [| lia].
         split; [apply Z.div_pos | apply Z.div_lt_upper_bound]; lia. }
    specialize (IH (m + 1) ltac:(lia) ltac:(lia) Hs'). cbn zeta in IH. destruct (scan_tv1 _ _ _ _ _) as [[slot e]|]; [| done].
    destruct IH as (k & t & Hk & H). exists k, t. split; [lia | done].
Qed.

Lemma slot_wrap index m n : 0 <= index < n -> 0 <= m < n -> ((index + m) mod n <? index) = (n - index <=? m).
Proof.
  intros Hi Hm. apply eq_true_iff_eq. rewrite Z.ltb_lt, Z.leb_le. destruct (Z.lt_ge_cases (index + m) n).
  - rewrite Z.mod_small by lia. lia.
  - replace (index + m) with ((index + m - n) + 1 * n) by lia. rewrite Z.mod_add, Z.mod_small by lia. lia.
Qed.

Lemma scan_tvn_spec v P n : v <> tv1 -> forall m found e,
  0 <= m -> m + Z.of_nat n = 63 -> best (fun t => P t \/ seen v m t) found e ->
  (found = true -> m = 0 /\ remaining j e < first_tick v j + 2 ^ shift v) ->
  let index := first_index v j in
  let reached k e' := 0 <= k < 64 /\ best (fun t => P t \/ seen v (k + 1) t) true e' /\
    remaining j e' < first_tick v j + (k + 1) * 2 ^ shift v in
  match scan_tvn n st bs v index ((index + m) mod 64) found e with
  | inl e' => exists k, reached k e' /\ index <> 0 /\ k < 64 - index
  | inr (true, e') => exists k, reached k e'
  | inr (false, e') => best (fun t => P t \/ seen v 64 t) false e'
  end.
Proof.
  intros Hv. assert (size v = 64) as Hsz by (by destruct v).
  assert (0 <= first_index v j < 64) as Hi by (rewrite <- Hsz; apply Z.mod_pos_bound; unfold size in *; lia).
  induction n as [|n IH]; intros m found e Hm Hn B Hf; cbn zeta; cbn [scan_tvn].
  all: assert (Z.to_nat ((first_index v j + m) mod 64) = nth_slot v (first_index v j) m) as -> by (unfold nth_slot;
    fold (size v); by rewrite Hsz).
  all: pose proof (scan_list_spec (bucket bs v (nth_slot v (first_index v j) m)) (fun t => P t \/
    seen v (m + 1) t) (fun t => P t \/ seen v m t) found e) as Hsc.
  all: destruct (scan_list _ _ _ _) as [found' e']; destruct Hsc as (B' & Hf' & Hle);
    [intros t Ht; apply Hsane, elem_of_queued; eauto | done | intros t; rewrite seen_succ by done; tauto |].
  all: assert (found' = true -> remaining j e' < first_tick v j + (m + 1) * 2 ^ shift v) as Hr.
  1, 3: (intros [Hfo | (t & Ht & Ha)]%Hf'; [destruct (Hf Hfo) as [-> ?]; unfold remaining in *; lia |];
    pose proof (b_least _ _ _ B' t (or_intror (proj2 (seen_succ v m t Hm) (or_intror Ht))) Ha);
    pose proof (block v m t ltac:(lia) Ht); lia).
  all: destruct found'; [destruct ((first_index v j =? 0) || _) eqn:Ew;
    [exists m; split_and!; [lia | lia | done | by apply Hr] |];
    apply orb_false_iff in Ew as [E0%Z.eqb_neq Ew]; rewrite slot_wrap in Ew by lia; apply Z.leb_gt in Ew; exists m;
      split_and!; [lia | lia | done | by apply Hr | done | lia] |].
  - by replace (m + 1) with 64 in B' by lia.
  - change TVN_MASK with (Z.ones 6). rewrite Z.land_ones by lia. change (2 ^ 6) with 64.
    rewrite Zplus_mod_idemp_l, <- Z.add_assoc.
    rewrite (proj2 (Z.eqb_neq _ _)) by (intros E;
      pose proof (slot_wrap (first_index v j) (m + 1) 64 Hi ltac:(lia)) as Hw; rewrite E, Z.ltb_irrefl in Hw;
      symmetry in Hw; apply Z.leb_gt in Hw; rewrite Z.mod_small in E by lia; lia).
    apply (IH (m + 1) false e'); [lia | lia | done | done].
Qed.

(** ** All vectors *)

Definition in_vectors (vs : list vector) (t : Z) : Prop := exists v i, v ∈ vs /\ t ∈ bucket bs v i.

Fixpoint consecutive (vs : list vector) : Prop :=
  match vs with
  | v :: ((w :: _) as vs) => shift w = width v /\ consecutive vs
  | _ => True
  end.

Lemma best_ext P Q found e : (forall t, P t <-> Q t) -> best P found e -> best Q found e.
Proof.
  intros E [B1 B2 B3 B4]. split; [done | intros t; rewrite <- E; apply B2 | | intros Hf t; rewrite <- E; by apply B4].
  destruct B3 as [|(t & ? & ?)]; [by left | right; exists t; by rewrite <- E].
Qed.

(** Adding later timers does not change the best one. *)
Lemma best_later P Q e :
  (forall t, P t -> Q t) -> (forall t, Q t -> P t \/ remaining j e <= remaining j (exp t)) -> best P true e -> best Q true e.
Proof.
  intros Hi Hl [B1 B2 B3 B4]. split; [done | | | done].
  - intros t Ht Ha. destruct (Hl t Ht); auto.
  - destruct B3 as [|(t & ? & ?)]; [by left | right; exists t; auto].
Qed.

Lemma in_vectors_cons v vs t : in_vectors (v :: vs) t <-> seen v (size v) t \/ in_vectors vs t.
Proof.
  split.
  - intros (w & i & [-> | Hw]%elem_of_cons & Ht); [left; by eapply seen_all | right; by exists w, i].
  - intros [(k & _ & Ht) | (w & i & Hw & Ht)]; [eexists v, _; split; [set_solver | done] | exists w, i; set_solver].
Qed.

Lemma first_tick_mono v w : shift v <= shift w -> first_tick v j <= first_tick w j.
Proof.
  intros H. unfold first_tick. rewrite <- (mod_pow_mod (- j) (shift v) (shift w)) by (by destruct v).
  apply Z.mod_le; [| apply pow_split].
  apply Z.mod_pos_bound, pow_split.
Qed.

(** Every list of a later vector comes up at or after its first one. *)
Lemma later_vectors w vs t : consecutive (w :: vs) -> in_vectors (w :: vs) t -> first_tick w j <= remaining j (exp t).
Proof.
  revert w. induction vs as [|x vs IH]; intros w Hc Ht; apply in_vectors_cons in Ht as [(k & Hk & Ht) | Ht].
  1, 3: (pose proof (block w k t Hk Ht); destruct (pow_split w); nia).
  - destruct Ht as (? & ? & ?%not_elem_of_nil & _). done.
  - destruct Hc as [Hs Hc]. etrans; [| by apply IH]. apply first_tick_mono. rewrite Hs. by destruct w.
Qed.

(** A whole vector.  [inl]: nothing of it or of later vectors is earlier. *)
Lemma scan_vector_spec v P found e :
  v <> tv1 -> best P found e -> (found = true -> remaining j e < first_tick v j + 2 ^ shift v) ->
  match scan_tvn 63 st bs v (first_index v j) (first_index v j) found e with
  | inl e' => exists k, (0 <= k < 64 /\ best (fun t => P t \/ seen v (k + 1) t) true e' /\
    remaining j e' < first_tick v j + (k + 1) * 2 ^ shift v) /\
      first_index v j <> 0 /\ k < 64 - first_index v j
  | inr (found', e') => best (fun t => P t \/ seen v (size v) t) found' e' /\
    (found' = true -> remaining j e' < first_tick v j + 64 * 2 ^ shift v)
  end.
Proof.
  intros Hv B Hr. assert (size v = 64) as Hsz by (by destruct v). destruct (pow_split v) as (Hs & _).
  assert (0 <= first_index v j < 64) as Hi by (rewrite <- Hsz; apply Z.mod_pos_bound; unfold size in *; lia).
  pose proof (scan_tvn_spec v P 63 Hv 0 found e ltac:(lia) eq_refl) as Hsc. cbn zeta in Hsc.
  rewrite Z.add_0_r, (Z.mod_small _ 64) in Hsc by lia.
  lapply Hsc; [clear Hsc; intros Hsc | eapply best_ext; [| exact B]; intros t; split; [by left | intros [|(k & ? & _)];
    [done | lia]]].
  lapply Hsc; [clear Hsc; intros Hsc | by intros Hf; split; [| apply Hr]].
  destruct (scan_tvn _ _ _ _ _ _ _ _) as [e' | [[|] e']]; [done | | rewrite Hsz; by split].
  destruct Hsc as (k & Hk & B' & Hlt). split; [| intros _; nia]. eapply best_later; [| | exact B'].
  - intros t [|(k' & ? & ?)]; [by left | right; exists k'; split; [lia | done]].
  - intros t [|Ht]; [left; by left |]. destruct (unseen v (k + 1) t ltac:(lia) Ht); [left; by right | right; lia].
Qed.

Lemma scan_vectors_spec vs : forall P jv found e,
  consecutive vs -> tv1 ∉ vs -> (forall v, head vs = Some v -> at_vector v j jv /\
    (found = true -> remaining j e < first_tick v j + 2 ^ shift v)) ->
  best P found e -> exists found', best (fun t => P t \/ in_vectors vs t) found' (scan_vectors vs st bs jv found e).
Proof.
  induction vs as [|v vs IH]; intros P jv found e Hc Hn Hh B; cbn [scan_vectors].
  { exists found. eapply best_ext; [| exact B]. intros t. split; [by left | intros [|(? & ? & ?%not_elem_of_nil & _)]; done]. }
  destruct (Hh v eq_refl) as [Ha Hr]. apply not_elem_of_cons in Hn as [Hv Hn]. assert (v <> tv1) as Hv' by congruence.
  assert (size v = 64) as Hsz by (by destruct v). destruct (pow_split v) as (Hs & _).
  rewrite (at_vector_index v j jv Hv' Ha).
  assert (0 <= first_index v j < 64) as Hi by (rewrite <- Hsz; apply Z.mod_pos_bound; unfold size in *; lia).
  pose proof (scan_vector_spec v P found e Hv' B Hr) as Hscan. destruct (scan_tvn _ _ _ _ _ _ _ _) as [e' | [found' e']].
  - destruct Hscan as (k & (Hk & B' & Hlt) & Hi0 & Hkw). exists true. eapply best_later; [| | exact B'].
    + intros t [|(k' & ? & ?)]; [by left | right; apply in_vectors_cons; left; exists k'; split; [lia | done]].
    + intros t [|Ht]; [left; by left |]. pose proof Ht as Ht0. apply in_vectors_cons in Ht as [Ht|Ht].
      * destruct (unseen v (k + 1) t ltac:(lia) Ht); [left; by right | right; lia].
      * right. destruct vs as [|w vs]; [by destruct Ht as (? & ? & ?%not_elem_of_nil & _) |]. destruct Hc as [Hw Hc].
        pose proof (later_vectors w vs t Hc Ht) as Hlat. destruct (at_vector_next v w j jv Hv' Hw Ha) as [_ Hft]. cbn zeta in Hft.
        rewrite (at_vector_index v j jv Hv' Ha), (proj2 (Z.eqb_neq _ _) Hi0) in Hft. nia.
  - destruct Hscan as [B' Hlt].
    match goal with |- context [scan_vectors vs st bs ?x found' e'] => destruct (IH (fun t => P t \/
      seen v (size v) t) x found' e') as [f Hf] end; try done.
    + by destruct vs as [|w vs]; [| apply Hc].
    + intros w Hw. destruct vs as [|w' vs]; [done |]. injection Hw as ->. destruct Hc as [Hw Hc].
      destruct (at_vector_next v w j jv Hv' Hw Ha) as [Hat Hft]. cbn zeta in Hat, Hft.
      rewrite (at_vector_index v j jv Hv' Ha) in Hat, Hft. split; [exact Hat |]. intros Hf'. specialize (Hlt Hf').
      pose proof (first_tick_mono v w ltac:(rewrite Hw; by destruct v)).
      assert (2 ^ shift w = 64 * 2 ^ shift v) by (rewrite Hw; by destruct v). lia.
    + exists f. eapply best_ext; [| exact Hf]. intros t. rewrite in_vectors_cons. tauto.
Qed.

Lemma first_index_tv1 : first_index tv1 j = j .& TVR_MASK.
Proof.
  unfold first_index, first_tick. simpl shift. simpl width. change TVR_MASK with (Z.ones 8).
  rewrite Z.land_ones by lia. change (2 ^ 0) with 1.
  by rewrite Z.mod_1_r, Z.add_0_r, Z.div_1_r.
Qed.

Lemma all_vectors t : t ∈ queued bs <-> seen tv1 256 t \/ in_vectors [tv2; tv3; tv4; tv5] t.
Proof.
  rewrite elem_of_queued. split.
  - intros (v & i & Ht). destruct (decide (v = tv1)) as [->|Hv]; [left; by apply (seen_all tv1 t i) | right;
      exists v, i; split; [by apply high_vector | done]].
  - intros [(k & _ & Ht) | (v & i & _ & Ht)]; eauto.
Qed.

(** The first list of tv1 with an active timer has the best timer of tv1. *)
Lemma best_tv1 k t :
  0 <= k < 256 -> t ∈ bucket bs tv1 (nth_slot tv1 (first_index tv1 j) k) -> active t -> (forall u, seen tv1 k u -> ~ active u) ->
  best (seen tv1 256) true (exp t) /\ remaining j (exp t) = k.
Proof.
  intros Hk Ht Ha Hn. assert (first_tick tv1 j = 0) as E0 by (unfold first_tick; apply Z.mod_1_r).
  pose proof (block tv1 k t Hk Ht) as Hb. rewrite E0 in Hb. simpl shift in Hb.
  assert (remaining j (exp t) = k) as Er by lia. split; [| done].
  assert (sane t) as Hs by (apply Hsane, elem_of_queued; eauto). split.
  - unfold sane in Hs. change NEXT_TIMER_MAX_DELTA with (2 ^ 30 - 1). unfold remaining in Er. lia.
  - intros u Hu Hau. destruct (unseen tv1 k u ltac:(lia) Hu) as [|Hl]; [by destruct (Hn u) |]. rewrite E0 in Hl.
    simpl shift in Hl. lia.
  - right. exists t. split_and!; try done. by exists k.
  - done.
Qed.

Lemma next_best b :
  bases st !! b = Some bs -> exists e found, __next_timer_interrupt b st = Ret e /\ best (fun t => t ∈ queued bs) found e.
Proof.
  intros Eb. unfold __next_timer_interrupt. rewrite (get_base_Ret _ _ _ Eb), run_bind_Ret. cbn zeta. fold j.
  pose proof (w_now _ _ Hok) as Hj. fold j in Hj. destruct (at_vector_tv2 j Hj) as [Hat Hft]. cbn zeta in Hat, Hft.
  assert (forall found e, best (seen tv1 256) found e -> (found = true -> remaining j e < 256) ->
    exists f, best (fun t => t ∈ queued bs) f (scan_vectors [tv2; tv3; tv4; tv5] st bs
      ((if j .& TVR_MASK =? 0 then j else u64 (j + (TVR_SIZE - j .& TVR_MASK))) .>> TVR_BITS) found e)) as Hrest.
  { intros found e B Hr. edestruct (scan_vectors_spec [tv2; tv3; tv4; tv5]) as [f Hf];
      [by repeat split | by apply (bool_decide_unpack _) | | exact B |].
    - intros v [= <-]. split; [exact Hat |]. intros H. specialize (Hr H). pose proof (first_tick_range tv2 j).
      simpl shift in *. lia.
    - exists f. eapply best_ext; [| exact Hf]. intros t. by rewrite all_vectors. }
  pose proof (scan_tv1_spec 255 0 ltac:(lia) eq_refl) as Hs.
  lapply Hs; [clear Hs; intros Hs | intros t (k & ? & _); lia]. cbn zeta in Hs.
  assert (0 <= first_index tv1 j < 256) as Hi by (apply Z.mod_pos_bound; done).
  rewrite Z.add_0_r, (Z.mod_small _ 256) in Hs by done. rewrite first_index_tv1 in Hs, Hi.
  destruct (scan_tv1 _ _ _ _ _) as [[slot e]|].
  - destruct Hs as (k & t & Hk & -> & Ht & Ha & -> & Hn). rewrite <- first_index_tv1 in Ht.
    destruct (best_tv1 k t Hk Ht Ha Hn) as [B Er].
    rewrite slot_wrap by lia. destruct ((j .& TVR_MASK =? 0) || _) eqn:Ew.
    + destruct (Hrest true (exp t) B) as [f Hf]; [intros; lia |]. by eexists _, f.
    + apply orb_false_iff in Ew as [E0%Z.eqb_neq Ew%Z.leb_gt]. eexists _, true. split; [reflexivity |].
      eapply best_later; [| | exact B].
      * intros u Hu. by apply (seen_queued tv1 256).
      * intros u [|Hu]%all_vectors; [by left | right].
        pose proof (later_vectors tv2 [tv3; tv4; tv5] u ltac:(by repeat split) Hu) as Hl.
        rewrite Hft, (proj2 (Z.eqb_neq _ _) E0) in Hl. lia.
  - destruct (Hrest false (u64 (j + NEXT_TIMER_MAX_DELTA))) as [f Hf]; [| done | by eexists _, f].
    assert (left_ j (u64 (j + NEXT_TIMER_MAX_DELTA)) = NEXT_TIMER_MAX_DELTA) as El.
    { destruct (left_eq j (u64 (j + NEXT_TIMER_MAX_DELTA)) Hj) as [(_ & -> & _) | [Hbig _]]; [by apply uwrap_range | |].
      - unfold uwrap. rewrite Zminus_mod_idemp_l.
        replace (j + NEXT_TIMER_MAX_DELTA - j) with NEXT_TIMER_MAX_DELTA by lia. reflexivity.
      - exfalso. revert Hbig. unfold uwrap. rewrite Zminus_mod_idemp_l.
        replace (j + NEXT_TIMER_MAX_DELTA - j) with NEXT_TIMER_MAX_DELTA by lia. by compute. }
    split; [rewrite El; by split | | left; unfold remaining; by rewrite El | done]. intros t Ht Ha'. by destruct (Hs t Ht).
Qed.
End scan.

(** [__next_timer_interrupt] returns the time of the earliest timer that is not deferrable, at most
    NEXT_TIMER_MAX_DELTA ahead, if
    no timer of the last vector waits for a time beyond the list it is in: no such timer is due before, and one is due then
    unless the limit is returned.  A timer in the past counts as due now. *)
Theorem next_timer_interrupt_correct b bs st :
  reachable st -> bases st !! b = Some bs ->
  (forall t, t ∈ queued bs -> - 2 ^ 62 <= left_ (timer_jiffies bs) (expires_of st t) < 2 ^ 62) ->
  (forall i t, t ∈ bucket bs tv5 i -> left_ (timer_jiffies bs) (expires_of st t) < ticks_to (timer_jiffies bs) tv5 i + 2 ^ 26) ->
  exists e, __next_timer_interrupt b st = Ret e /\
    (forall t r, deadline st b t = Some r -> deferrable st t = false -> remaining (timer_jiffies bs) e <= r) /\
    (remaining (timer_jiffies bs) e = NEXT_TIMER_MAX_DELTA \/
     remaining (timer_jiffies bs) e < NEXT_TIMER_MAX_DELTA /\ exists t, deferrable st t = false /\
       deadline st b t = Some (remaining (timer_jiffies bs) e)).
Proof.
  intros H Eb Hs Hn. destruct (t_base _ _ (reachable_ok _ H) _ _ Eb) as (_ & _ & Hw).
  destruct (next_best st bs Hw Hs Hn b Eb) as (e & found & E & [B1 B2 B3 _]). exists e. split; [done |].
  assert (forall t, deadline st b t = if decide (t ∈ queued bs) then Some
    (remaining (timer_jiffies bs) (expires_of st t)) else None) as Ed by (intros t; unfold deadline; by rewrite Eb).
  split.
  - intros t r Ht Ha. rewrite Ed in Ht. destruct (decide (t ∈ queued bs)); simplify_eq. by apply B2.
  - destruct (Z.eq_dec (remaining (timer_jiffies bs) e) NEXT_TIMER_MAX_DELTA); [by left | right].
    destruct B3 as [|(t & Hq & Ha & Er)]; [done |]. split.
    + unfold remaining in *. change NEXT_TIMER_MAX_DELTA with (2 ^ 30 - 1) in *. lia.
    + exists t. split; [done |]. rewrite Ed, decide_True by done. by rewrite Er.
Qed.

Lemma next_timer_interrupt_correct_witness :
  exists e, __next_timer_interrupt 4096 one_timer = Ret e /\ e = 1300 /\
    forall t r, deadline one_timer 4096 t = Some r -> deferrable one_timer t = false -> remaining 1000 e <= r.
Proof.
  destruct one_timer_base as (bs & Eb & _ & Ej & _ & Hq & H5).
  destruct (next_timer_interrupt_correct 4096 bs one_timer one_timer_reachable Eb) as (e & E & Hl & _).
  - intros t Ht. rewrite Hq in Ht. apply list_elem_of_singleton in Ht as ->. rewrite Ej. split; vm_compute; congruence.
  - intros i t Ht. exfalso. assert (t ∈ mjoin (tv bs tv5)) as Hin; [| by rewrite H5 in Hin; apply not_elem_of_nil in Hin].
    unfold bucket in Ht. destruct (tv bs tv5 !! i) as [l|] eqn:El; [| by apply not_elem_of_nil in Ht].
    apply list_elem_of_join. exists l. split; [done |]. by eapply list_elem_of_lookup_2.
  - exists e. split; [exact E |]. split; [vm_compute in E; congruence |]. rewrite Ej in Hl. exact Hl.
Defined.

(** ** Ticks in which nothing happens *)

Definition same_lists (bs bs' : tvec_base) : Prop := rest bs' = rest bs /\ forall v i, bucket bs' v i = bucket bs v i.

(** Every list with timers comes up only after [n] more ticks. *)
Definition quiet (n : Z) (bs : tvec_base) : Prop := forall v i t, t ∈ bucket bs v i -> n <= ticks_to (timer_jiffies bs) v i.

Lemma set_empty_same v i bs : bucket bs v i = [] -> same_lists bs (set_bucket (fun _ => []) v i bs).
Proof.
  intros E. split; [done |]. intros w k. unfold bucket, set_bucket in *. cbn. destruct (decide (w = v)) as [->|]; [| done].
  destruct (decide (k = i)) as [->|]; [| by rewrite list_lookup_alter_ne]. rewrite list_lookup_alter_eq.
  destruct (tv bs v !! i); [by simpl in * |]. done.
Qed.

#[export] Instance same_lists_trans : Transitive same_lists.
Proof. intros bs1 bs2 bs3 [R1 B1] [R2 B2]. split; [congruence |]. intros v i. by rewrite B2, B1. Qed.

Lemma quiet_same n bs bs' : same_lists bs bs' -> quiet n bs -> quiet n bs'.
Proof.
  intros [R B] Hq v i t. rewrite B. replace (timer_jiffies bs') with (timer_jiffies bs) by (unfold rest in R;
    congruence). apply Hq.
Qed.

Lemma quiet_empty bs v : 0 <= timer_jiffies bs -> quiet 1 bs -> timer_jiffies bs mod 2 ^ shift v = 0 ->
  bucket bs v (Z.to_nat (slot_of v (timer_jiffies bs))) = [].
Proof.
  intros Hj Hq Hm. destruct (bucket bs v _) as [|t l] eqn:E; [done |]. exfalso.
  pose proof (Hq v (Z.to_nat (slot_of v (timer_jiffies bs))) t ltac:(rewrite E; set_solver)) as Hk.
  rewrite (proj2 (ticks_now (timer_jiffies bs) v _ Hj (slot_of_lt _ _))) in Hk by done. lia.
Qed.

Definition cascade_quiet (exp : Z -> Z) (vs : list vector) : Prop :=
  forall bs, 0 <= timer_jiffies bs -> quiet 1 bs ->
    (forall u, head vs = Some u -> timer_jiffies bs mod 2 ^ shift u = 0) -> same_lists bs (w_cascades exp vs bs).

Lemma cascade_quiet_cons exp v vs : (forall u, head vs = Some u -> shift u = width v) -> cascade_quiet exp vs ->
  cascade_quiet exp (v :: vs).
Proof.
  intros Hh IH bs Hj Hq Hm. specialize (Hm v eq_refl). cbn [w_cascades]. pose proof (quiet_empty bs v Hj Hq Hm) as E.
  assert (same_lists bs (w_cascade exp bs v (slot_of v (timer_jiffies bs)))) as S.
  { unfold w_cascade. rewrite E. simpl. by apply set_empty_same. }
  destruct (Z.eqb_spec (slot_of v (timer_jiffies bs)) 0) as [E0|]; [| done]. etrans; [exact S |].
  pose proof (quiet_same _ _ _ S Hq) as Hq'.
  assert (timer_jiffies (w_cascade exp bs v (slot_of v (timer_jiffies bs))) = timer_jiffies bs) as Ej by apply w_cascade_now.
  apply IH; [by rewrite Ej | done |]. intros u Hu. rewrite Ej, (Hh u Hu). by apply slot_zero.
Qed.

Lemma cascades_quiet exp : cascade_quiet exp [tv2; tv3; tv4; tv5].
Proof. do 4 (apply cascade_quiet_cons; [by intros ? [= <-] |]). intros bs _ _ _. by split. Qed.

Lemma tick_quiet exp bs : wheel_ok exp bs -> work_list bs = [] -> quiet 1 bs ->
  let bs' := w_tick exp bs in work_list bs' = [] /\ timer_jiffies bs' = u64 (timer_jiffies bs + 1) /\
    forall v i, bucket bs' v i = bucket bs v i.
Proof.
  intros Hok Hw Hq. cbn zeta. pose proof (w_now _ _ Hok) as Hj. unfold w_tick. cbn zeta.
  set (bs1 := if timer_jiffies bs .& TVR_MASK =? 0 then w_cascades exp [tv2; tv3; tv4; tv5] bs else bs).
  assert (same_lists bs bs1) as [R B].
  { unfold bs1. destruct (Z.eqb_spec (timer_jiffies bs .& TVR_MASK) 0) as [E|]; [| by split].
    apply cascades_quiet; [lia | done |]. intros u [= <-].
    change TVR_MASK with (Z.ones 8) in E. by rewrite Z.land_ones in E by lia. }
  assert (timer_jiffies bs1 = timer_jiffies bs) as Ej by (unfold rest in R; congruence).
  assert (bucket bs1 tv1 (Z.to_nat (timer_jiffies bs .& TVR_MASK)) = []) as E1.
  { rewrite B, slot_tv1. apply quiet_empty; [lia | done | apply Z.mod_1_r]. }
  split; [exact E1 |]. split; [cbn; by rewrite Ej |]. intros v i. rewrite <- B.
  destruct (set_empty_same tv1 (Z.to_nat (timer_jiffies bs .& TVR_MASK))
    (set_work (bucket bs1 tv1 (Z.to_nat (timer_jiffies bs .& TVR_MASK))) (set_jiffies (u64 (timer_jiffies bs1 + 1))
    bs1)) E1) as [_ S].
  apply S.
Qed.

(** The system after [n] ticks without work. *)
Lemma quiet_ticks b n : forall st bs,
  reachable st -> bases st !! b = Some bs -> work_list bs = [] -> quiet (Z.of_nat n) bs ->
  exists bs', reachable (setb b bs' st) /\ timer_jiffies bs' = u64 (timer_jiffies bs + Z.of_nat n) /\
    forall v i, bucket bs' v i = bucket bs v i.
Proof.
  induction n as [|n IH]; intros st bs H Eb Hw Hq.
  - exists bs. assert (setb b bs st = st) as -> by (unfold setb; rewrite insert_id by done; by destruct st). split; [done |].
    destruct (t_base _ _ (reachable_ok _ H) _ _ Eb) as (_ & _ & Hok). pose proof (w_now _ _ Hok). split; [| done].
    by rewrite Z.add_0_r, uwrap_small.
  - pose proof (reachable_ok _ H) as Hok. destruct (t_base _ _ Hok _ _ Eb) as (_ & _ & Hwh).
    assert (quiet 1 bs) as Hq1 by (intros v i t Ht; specialize (Hq v i t Ht); lia).
    destruct (tick_quiet (expires_of st) bs Hwh Hw Hq1) as (Hw' & Ej & B). cbn zeta in Hw', Ej, B.
    set (bs1 := w_tick (expires_of st) bs) in *.
    assert (reachable (setb b bs1 st)) as H1.
    { eapply reachable_step; [exact H |]. eapply Step_run, (Run_tick b st bs); [done | done |]. by apply run_tick_eq. }
    destruct (IH (setb b bs1 st) bs1 H1) as (bs' & H' & Ej' & B'); [cbn; apply lookup_insert_eq | done | |].
    { intros v i t. rewrite B, Ej. intros Ht. specialize (Hq v i t Ht). rewrite ticks_tick by lia. lia. }
    exists bs'. rewrite setb_setb in H'. split; [done |]. split; [| intros v i; by rewrite B', B].
    rewrite Ej', Ej. unfold uwrap. rewrite Zplus_mod_idemp_l. f_equal. lia.
Qed.

(** The result depends on the timers, the lists and the time only. *)
Section ext.
Context (st st' : timers) (bs bs' : tvec_base).
Context (Hh : heap st' = heap st) (B : forall v i, bucket bs' v i = bucket bs v i).

Lemma deferrable_ext t : deferrable st' t = deferrable st t.
Proof. by rewrite Hh. Qed.
Lemma expires_of_ext t : expires_of st' t = expires_of st t.
Proof. unfold expires_of. by rewrite Hh. Qed.

Lemma first_active_ext l : first_active st' l = first_active st l.
Proof. induction l as [|t l IH]; simpl; [done |]. by rewrite IH, deferrable_ext, expires_of_ext. Qed.

Lemma scan_list_ext l : forall found e, scan_list st' l found e = scan_list st l found e.
Proof. induction l as [|t l IH]; intros found e; simpl; [done |]. by rewrite !IH, deferrable_ext, expires_of_ext. Qed.

Lemma scan_tv1_ext index n : forall slot, scan_tv1 n st' bs' index slot = scan_tv1 n st bs index slot.
Proof. induction n as [|n IH]; intros slot; simpl; rewrite B, first_active_ext; [done |]. by rewrite IH. Qed.

Lemma scan_tvn_ext v index n : forall slot found e, scan_tvn n st' bs' v index slot found e = scan_tvn n st bs v index
  slot found e.
Proof.
  induction n as [|n IH]; intros slot found e; simpl; rewrite B, scan_list_ext; [done |].
  destruct (scan_list _ _ _ _) as [f x]. by rewrite IH.
Qed.

Lemma scan_vectors_ext vs : forall jv found e, scan_vectors vs st' bs' jv found e = scan_vectors vs st bs jv found e.
Proof.
  induction vs as [|v vs IH]; intros jv found e; cbn [scan_vectors]; [done |]. rewrite scan_tvn_ext.
  destruct (scan_tvn _ _ _ _ _ _ _ _) as [|[f x]]; [done | apply IH].
Qed.

Lemma next_ext b : bases st' !! b = Some bs' -> bases st !! b = Some bs -> timer_jiffies bs' = timer_jiffies bs ->
  __next_timer_interrupt b st' = __next_timer_interrupt b st.
Proof.
  intros Eb' Eb Ej. unfold __next_timer_interrupt.
  rewrite (get_base_Ret _ _ _ Eb'), (get_base_Ret _ _ _ Eb), !run_bind_Ret, Ej, scan_tv1_ext. cbn zeta.
  by destruct (scan_tv1 _ _ _ _ _) as [[slot e]|]; rewrite scan_vectors_ext.
Qed.
End ext.

(** ** A timer that is missed *)

(** At tick 0 timer 1 is set to 2^40, further away than the wheel reaches, and goes to list 63 of tv5.  At tick 1 timer
    2 is set to 2^32 and goes to list 0. *)
Definition with_timer (t e : Z) (st : timers) : timers :=
  match __mod_timer one_cpu t e false false (init_timer_key 0 t blank st) with Ret (st, _) => st | _ => st end.
Definition far_timer : timers := with_timer 1 (2 ^ 40) (booted 0 4096).
Definition far_ticked : timers := match run_tick 4096 far_timer with Ret st => st | _ => far_timer end.
Definition two_timers : timers := with_timer 2 (2 ^ 32) far_ticked.

Lemma mod_timer_reachable c t e po pinned st st' r : reachable st -> 0 <= e < 2 ^ 64 ->
  __mod_timer c t e po pinned st = Ret (st', r) -> reachable st'.
Proof.
  intros H He. unfold __mod_timer. intros ([st1 r1] & E1 & E)%bind_Ret_inv.
  assert (reachable st1) as H1 by (eapply reachable_step; [exact H |]; by eapply (Step_op _ _ t), Op_mod_begin).
  destruct r1 as [ret|ret]; [by simplify_eq |]. apply bind_Ret_inv in E as (st2 & E2 & E). simplify_eq.
  eapply reachable_step; [exact H1 |]. by eapply (Step_op _ _ t), Op_mod_end.
Qed.

Lemma with_timer_reachable t e st :
  reachable st -> t <> 0 -> 0 <= e < 2 ^ 64 -> idle t st -> heap st !! t = None -> reachable (with_timer t e st).
Proof.
  intros H Ht He Hi Hn. unfold with_timer. destruct (__mod_timer _ _ _ _ _ _) as [[st' r]| |] eqn:E; [| done | done].
  eapply mod_timer_reachable; [| exact He | exact E]. eapply reachable_step; [exact H |].
  apply (Step_op _ _ t), Op_init; [done | done | done | congruence].
Qed.

(** Deciding how long the lists of a base stay quiet. *)
Definition quietb (n : Z) (bs : tvec_base) : bool :=
  forallb (fun v => forallb (fun i => match bucket bs v i with [] => true
    | _ => n <=? ticks_to (timer_jiffies bs) v i end) (seq 0 256)) vectors.

Lemma quietb_spec n bs exp : wheel_ok exp bs -> quietb n bs = true -> quiet n bs.
Proof.
  intros Hok Hq v i t Ht. unfold quietb in Hq. rewrite forallb_forall in Hq.
  specialize (Hq v ltac:(apply list_elem_of_In, elem_of_vectors)).
  rewrite forallb_forall in Hq. specialize (Hq i). cbn beta in Hq. destruct (bucket bs v i) as [|u l] eqn:E;
    [by apply not_elem_of_nil in Ht |].
  apply Z.leb_le, Hq, in_seq. assert (i < length (tv bs v))%nat as Hi by (apply (bucket_lt bs v i t); by rewrite E).
  rewrite (w_len _ _ Hok) in Hi.
  assert (2 ^ (width v - shift v) <= 256) by (by destruct v). lia.
Qed.

Lemma far_timer_reachable : reachable far_timer.
Proof.
  apply with_timer_reachable; try done.
  - exists 0, 4096. do 3 (split; [done |]). apply rtc_refl.
  - split; [done |]. intros b bs. unfold booted, init_timers_cpu, init_base. cbn. rewrite insert_empty.
    by intros [<- <-]%lookup_singleton_Some.
Qed.

(** A fact about a base of a concrete state, by evaluation. *)
Lemma base_fact (f : tvec_base -> bool) b st : from_option f false (bases st !! b) = true ->
  exists bs, bases st !! b = Some bs /\ f bs = true.
Proof. destruct (bases st !! b) as [bs|]; [by exists bs | done]. Qed.

Lemma idle_fact t st : moving st !! t = None ->
  bool_decide (map_Forall (fun _ bs => running_timer bs <> t) (bases st)) = true -> idle t st.
Proof. intros Hm H%bool_decide_eq_true. split; [done |]. intros b bs Eb. exact (H b bs Eb). Qed.

Lemma two_timers_reachable : reachable two_timers.
Proof.
  destruct (base_fact (fun bs => bool_decide (work_list bs = [])) 4096 far_timer)
    as (bs & Eb & Hw%bool_decide_eq_true); [vm_compute; reflexivity |].
  assert (reachable far_ticked) as H.
  { unfold far_ticked. destruct (run_tick_ok 4096 bs far_timer (reachable_ok _ far_timer_reachable) Eb Hw)
      as (bs' & E & _). rewrite E.
    eapply reachable_step; [exact far_timer_reachable |]. exact (Step_run _ _ _ (Run_tick _ _ _ _ Eb Hw E)). }
  apply with_timer_reachable; [done | done | done | apply idle_fact; vm_compute; reflexivity | vm_compute; reflexivity].
Qed.

(** The time at which the event is computed: timer 2 is due 2^27 - 1 ticks later, and list 63 comes up before. *)
Definition missed_at : Z := 2 ^ 32 - 2 ^ 27 + 1.

(** [__next_timer_interrupt] can be late.  A timer further away than 2^32 ticks waits in the last list of tv5 for
    its next turn; the scan stops at that list
    and does not look at the following one, although it has a timer that is due earlier than the result.
    Here a CPU may sleep for 2^30 - 1 ticks over a timer due in 2^27 - 1. *)
Theorem next_timer_missed :
  exists st bs e, reachable st /\ bases st !! 4096 = Some bs /\ timer_jiffies bs = missed_at /\
    deferrable st 2 = false /\ deadline st 4096 2 = Some (2 ^ 27 - 1) /\
    __next_timer_interrupt 4096 st = Ret e /\ remaining missed_at e = 2 ^ 30 - 1.
Proof.
  set (facts := fun bs => bool_decide (work_list bs = []) && (timer_jiffies bs =? 1) && quietb (missed_at - 1) bs &&
    bool_decide (2 ∈ queued bs) &&
    match __next_timer_interrupt 4096 (setb 4096 (set_jiffies missed_at bs) two_timers)
      with Ret e => e =? missed_at + NEXT_TIMER_MAX_DELTA | _ => false end).
  destruct (base_fact facts 4096 two_timers) as (bs & Eb & Hf); [vm_compute; reflexivity |]. unfold facts in Hf.
  rewrite !andb_true_iff, Z.eqb_eq, !bool_decide_eq_true in Hf. destruct Hf as ((((Hw & Ej) & Hq) & Hin) & Hnext).
  pose proof two_timers_reachable as H.
  destruct (t_base _ _ (reachable_ok _ H) _ _ Eb) as (_ & _ & Hok). apply (quietb_spec _ _ _ Hok) in Hq.
  destruct (quiet_ticks 4096 (Z.to_nat (missed_at - 1)) two_timers bs H Eb Hw) as (bs' & H' & Ej' & B).
  { rewrite Z2Nat.id; [exact Hq | vm_compute; congruence]. }
  rewrite Z2Nat.id, Ej in Ej' by (vm_compute; congruence). change (u64 (1 + (missed_at - 1))) with missed_at in Ej'.
  exists (setb 4096 bs' two_timers), bs'. assert (bases (setb 4096 bs' two_timers) !! 4096 = Some bs') as Eb' by (cbn;
    apply lookup_insert_eq).
  set (st0 := setb 4096 (set_jiffies missed_at bs) two_timers).
  assert (__next_timer_interrupt 4096 (setb 4096 bs' two_timers) = __next_timer_interrupt 4096 st0) as E.
  { apply (next_ext _ _ (set_jiffies missed_at bs) bs'); [exact (eq_refl (heap two_timers)) | exact B | exact Eb'
      | apply lookup_insert_eq | exact Ej']. }
  fold st0 in Hnext. revert Hnext E. generalize (__next_timer_interrupt 4096 st0).
  intros [e| |] Hnext E; [| discriminate Hnext ..].
  apply Z.eqb_eq in Hnext as ->. eexists. split; [exact H' |].
  split; [exact Eb' |]. split; [exact Ej' |]. split; [vm_compute; reflexivity |].
  split; [| split; [exact E | vm_compute; reflexivity]].
  unfold deadline. rewrite Eb'. cbn [mbind option_bind]. rewrite decide_True, Ej'.
  - change (expires_of (setb 4096 bs' two_timers) 2) with (expires_of two_timers 2). vm_compute. reflexivity.
  - apply elem_of_queued. apply elem_of_queued in Hin as (v & i & Hi). exists v, i. by rewrite B.
Qed.

End TimerNext.
