(* ===== verification/RbTree.v ===== *)
(** * Red-black trees: the code

    lib/rbtree.c and include/linux/rbtree.h over a heap of nodes, with parent
    pointer and colour packed into one word as in the source; then what it means
    that the heap holds a tree, and the effect of the single pointer
    operations on it.  The source writes most code twice, once for
    each side; the model has it once with the side as an argument. *)
From S2P Require Import Prelude.

Module RbTree.

Abbreviation RB_RED := 0 (only parsing).
Abbreviation RB_BLACK := 1 (only parsing).

Record rb_node := RbNode {
  rb_parent_color : Z;
  rb_right : Z;
  rb_left : Z
}.

(** The heap and [root->rb_node]. *)
Record rb_root := RbRoot {
  nodes : gmap Z rb_node;
  rb_top : Z
}.

Inductive side := Left | Right.
#[export] Instance side_eq_dec : EqDecision side.
Proof. solve_decision. Defined.
Definition opp (d : side) : side := match d with Left => Right | Right => Left end.
Definition child (d : side) (n : rb_node) : Z := match d with Left => rb_left n | Right => rb_right n end.
Definition set_child (d : side) (x : Z) (n : rb_node) : rb_node :=
  match d with
  | Left => RbNode (rb_parent_color n) (rb_right n) x
  | Right => RbNode (rb_parent_color n) x (rb_left n)
  end.
Definition set_pc (x : Z) (n : rb_node) : rb_node := RbNode x (rb_right n) (rb_left n).

Definition get (p : Z) (st : rb_root) : option rb_node := nodes st !! p.
Definition modify (f : rb_node -> rb_node) (p : Z) (st : rb_root) : option rb_root :=
  n ← get p st; Some (RbRoot (<[p := f n]> (nodes st)) (rb_top st)).
Definition set_top (x : Z) (st : rb_root) : rb_root := RbRoot (nodes st) x.

Definition rb_parent (n : rb_node) : Z := rb_parent_color n .& Z.lnot 3.
Definition rb_color (n : rb_node) : Z := rb_parent_color n .& 1.
Definition rb_is_red (n : rb_node) : bool := rb_color n =? 0.
Definition rb_is_black (n : rb_node) : bool := negb (rb_color n =? 0).
Definition rb_set_red (p : Z) (st : rb_root) : option rb_root := modify (fun n => set_pc (rb_parent_color n .& Z.lnot 1) n) p st.
Definition rb_set_black (p : Z) (st : rb_root) : option rb_root := modify (fun n => set_pc (rb_parent_color n .| 1) n) p st.
Definition rb_set_parent (p q : Z) (st : rb_root) : option rb_root :=
  modify (fun n => set_pc ((rb_parent_color n .& 3) .| q) n) p st.
Definition rb_set_color (p color : Z) (st : rb_root) : option rb_root :=
  modify (fun n => set_pc ((rb_parent_color n .& Z.lnot 1) .| color) n) p st.

(** [rb_link] is the child pointer of the parent, or the root for no parent. *)
Definition rb_link_node (node parent : Z) (d : side) (st : rb_root) : option rb_root :=
  let st := RbRoot (<[node := RbNode parent 0 0]> (nodes st)) (rb_top st) in
  if parent =? 0 then Some (set_top node st) else modify (set_child d node) parent st.

(** Make [new] the child of [parent] that [old] was; the side asked for first is [d]. *)
Definition replace_child (d : side) (parent old new : Z) (st : rb_root) : option rb_root :=
  if parent =? 0 then Some (set_top new st)
  else
    p ← get parent st;
    if child d p =? old then modify (set_child d new) parent st else modify (set_child (opp d) new) parent st.

(** [__rb_rotate_left] for [Left], [__rb_rotate_right] for [Right]; [right] is the child on the other side. *)
Definition rotate (d : side) (node : Z) (st : rb_root) : option rb_root :=
  n ← get node st;
  let right := child (opp d) n in
  let parent := rb_parent n in
  r ← get right st;
  st ← modify (set_child (opp d) (child d r)) node st;
  st ← (if child d r =? 0 then Some st else rb_set_parent (child d r) node st);
  st ← modify (set_child d node) right st;
  st ← rb_set_parent right parent st;
  st ← replace_child d parent node right st;
  rb_set_parent node right st.

Definition __rb_rotate_left : Z -> rb_root -> option rb_root := rotate Left.
Definition __rb_rotate_right : Z -> rb_root -> option rb_root := rotate Right.

(** Tests on a pointer that may be NULL. *)
Definition is_red_node (p : Z) (st : rb_root) : option bool := if p =? 0 then Some false else n ← get p st; Some (rb_is_red n).
Definition is_black_or_null (p : Z) (st : rb_root) : option bool := if p =? 0 then Some true else n ← get p st;
  Some (rb_is_black n).

(** ** Insertion *)

(** The body for a red parent that is the [d] child of [gparent]; the result has the node to go on with. *)
Definition insert_side (d : side) (node parent gparent : Z) (g : rb_node) (st : rb_root) : option (Z * rb_root) :=
  let uncle := child (opp d) g in
  red ← is_red_node uncle st;
  if (red : bool) then
    st ← rb_set_black uncle st;
    st ← rb_set_black parent st;
    st ← rb_set_red gparent st;
    Some (gparent, st)
  else
    p ← get parent st;
    '(node, parent, st) ← (if child (opp d) p =? node then st ← rotate d parent st;
      Some (parent, node, st) else Some (node, parent, st));
    st ← rb_set_black parent st;
    st ← rb_set_red gparent st;
    st ← rotate (opp d) gparent st;
    Some (node, st).

Fixpoint insert_loop (fuel : nat) (node : Z) (st : rb_root) : option rb_root :=
  n ← get node st;
  let parent := rb_parent n in
  if parent =? 0 then Some st else
  p ← get parent st;
  if rb_is_red p then
    match fuel with
    | O => None
    | S fuel =>
        let gparent := rb_parent p in
        g ← get gparent st;
        '(node, st) ← insert_side (if parent =? rb_left g then Left else Right) node parent gparent g st;
        insert_loop fuel node st
    end
  else Some st.

Definition rb_insert_color (node : Z) (st : rb_root) : option rb_root :=
  st ← insert_loop (size (nodes st)) node st;
  rb_set_black (rb_top st) st.

(** ** Deletion *)

(** A red sibling becomes the parent of [parent]; the sibling afterwards is black. *)
Definition erase_red (d : side) (parent other : Z) (o : rb_node) (st : rb_root) : option (Z * rb_root) :=
  if rb_is_red o then
    st ← rb_set_black other st;
    st ← rb_set_red parent st;
    st ← rotate d parent st;
    p ← get parent st;
    Some (child (opp d) p, st)
  else Some (other, st).

(** The far child of the sibling becomes red if it is not. *)
Definition erase_inner (d : side) (parent other : Z) (o : rb_node) (st : rb_root) : option (Z * rb_root) :=
  black ← is_black_or_null (child (opp d) o) st;
  if (black : bool) then
    st ← rb_set_black (child d o) st;
    st ← rb_set_red other st;
    st ← rotate (opp d) other st;
    p ← get parent st;
    Some (child (opp d) p, st)
  else Some (other, st).

(** The rotation that ends the loop. *)
Definition erase_final (d : side) (parent other : Z) (st : rb_root) : option rb_root :=
  p ← get parent st;
  st ← rb_set_color other (rb_color p) st;
  st ← rb_set_black parent st;
  o ← get other st;
  st ← rb_set_black (child (opp d) o) st;
  rotate d parent st.

(** The body for a node that is the [d] child of [parent]: the next node, its parent, and whether the loop is left. *)
Definition erase_side (d : side) (parent : Z) (st : rb_root) : option (Z * Z * bool * rb_root) :=
  p ← get parent st;
  o ← get (child (opp d) p) st;
  '(other, st) ← erase_red d parent (child (opp d) p) o st;
  o ← get other st;
  black1 ← is_black_or_null (rb_left o) st;
  black2 ← is_black_or_null (rb_right o) st;
  if (black1 : bool) && (black2 : bool) then
    st ← rb_set_red other st;
    p ← get parent st;
    Some (parent, rb_parent p, false, st)
  else
    '(other, st) ← erase_inner d parent other o st;
    st ← erase_final d parent other st;
    Some (rb_top st, 0, true, st).

Fixpoint erase_loop (fuel : nat) (node parent : Z) (st : rb_root) : option (Z * rb_root) :=
  black ← is_black_or_null node st;
  if (black : bool) && negb (node =? rb_top st) then
    match fuel with
    | O => None
    | S fuel =>
        p ← get parent st;
        '(node, parent, stop, st) ← erase_side (if rb_left p =? node then Left else Right) parent st;
        if (stop : bool) then Some (node, st) else erase_loop fuel node parent st
    end
  else Some (node, st).

Definition __rb_erase_color (node parent : Z) (st : rb_root) : option rb_root :=
  '(node, st) ← erase_loop (S (size (nodes st))) node parent st;
  if node =? 0 then Some st else rb_set_black node st.

(** The last node on the way down to the [d] side. *)
Fixpoint descend (fuel : nat) (d : side) (node : Z) (st : rb_root) : option Z :=
  n ← get node st;
  if child d n =? 0 then Some node
  else match fuel with O => None | S fuel => descend fuel d (child d n) st end.

(** A node with two children is replaced by its successor. *)
Definition erase_two (old : Z) (o : rb_node) (st : rb_root) : option (Z * Z * Z * rb_root) :=
  node ← descend (size (nodes st)) Left (rb_right o) st;
  st ← replace_child Left (rb_parent o) old node st;
  n ← get node st;
  let child := rb_right n in
  let parent := rb_parent n in
  let color := rb_color n in
  '(parent, st) ← (if parent =? old then Some (node, st)
    else
      st ← (if child =? 0 then Some st else rb_set_parent child parent st);
      st ← modify (set_child Left child) parent st;
      o ← get old st;
      st ← modify (set_child Right (rb_right o)) node st;
      st ← rb_set_parent (rb_right o) node st;
      Some (parent, st));
  o ← get old st;
  st ← modify (set_pc (rb_parent_color o)) node st;
  st ← modify (set_child Left (rb_left o)) node st;
  st ← rb_set_parent (rb_left o) node st;
  Some (child, parent, color, st).

Definition erase_one (node child : Z) (n : rb_node) (st : rb_root) : option (Z * Z * Z * rb_root) :=
  let parent := rb_parent n in
  let color := rb_color n in
  st ← (if child =? 0 then Some st else rb_set_parent child parent st);
  st ← replace_child Left parent node child st;
  Some (child, parent, color, st).

Definition rb_erase (node : Z) (st : rb_root) : option rb_root :=
  n ← get node st;
  '(child, parent, color, st) ←
    (if rb_left n =? 0 then erase_one node (rb_right n) n st
     else if rb_right n =? 0 then erase_one node (rb_left n) n st
     else erase_two node n st);
  if color =? RB_BLACK then __rb_erase_color child parent st else Some st.

(** ** Walking *)

Definition rb_first (st : rb_root) : option Z := if rb_top st =? 0 then Some 0 else descend (size (nodes st)) Left (rb_top st) st.
Definition rb_last (st : rb_root) : option Z := if rb_top st =? 0 then Some 0 else descend (size (nodes st)) Right (rb_top st) st.

(** Up while the node is the [d] child. *)
Fixpoint ascend (fuel : nat) (d : side) (node : Z) (st : rb_root) : option Z :=
  n ← get node st;
  let parent := rb_parent n in
  if parent =? 0 then Some 0 else
  p ← get parent st;
  if node =? child d p then match fuel with O => None | S fuel => ascend fuel d parent st end
  else Some parent.

(** [rb_next] for [Right], [rb_prev] for [Left]. *)
Definition neighbour (d : side) (node : Z) (st : rb_root) : option Z :=
  n ← get node st;
  if rb_parent n =? node then Some 0
  else if negb (child d n =? 0) then descend (size (nodes st)) (opp d) (child d n) st
  else ascend (size (nodes st)) d node st.

Definition rb_next : Z -> rb_root -> option Z := neighbour Right.
Definition rb_prev : Z -> rb_root -> option Z := neighbour Left.

Definition rb_replace_node (victim new : Z) (st : rb_root) : option rb_root :=
  v ← get victim st;
  st ← replace_child Left (rb_parent v) victim new st;
  st ← (if rb_left v =? 0 then Some st else rb_set_parent (rb_left v) new st);
  st ← (if rb_right v =? 0 then Some st else rb_set_parent (rb_right v) new st);
  v ← get victim st;
  Some (RbRoot (<[new := v]> (nodes st)) (rb_top st)).

(** ** Trees and contexts *)

Inductive color := Red | Black.
#[export] Instance color_eq_dec : EqDecision color.
Proof. solve_decision. Defined.
Definition code (c : color) : Z := match c with Red => RB_RED | Black => RB_BLACK end.

Inductive tree := E | N (c : color) (l : tree) (a : Z) (r : tree).
#[export] Instance tree_eq_dec : EqDecision tree.
Proof. solve_decision. Defined.

(** The children on one side and on the other, as the code sees them. *)
Definition mk (d : side) (c : color) (near : tree) (a : Z) (far : tree) : tree :=
  match d with Left => N c near a far | Right => N c far a near end.

Definition addr (t : tree) : Z := match t with E => 0 | N _ _ a _ => a end.
Definition root_color (t : tree) : color := match t with E => Black | N c _ _ _ => c end.

Fixpoint elems (t : tree) : list Z := match t with E => [] | N _ l a r => elems l ++ a :: elems r end.

(** A frame: the subtree in the hole is the [d] child of [a], whose other child is [t]. *)
Record frame := Frame { f_side : side; f_color : color; f_addr : Z; f_sib : tree }.
Definition ctx := list frame.
Definition fill (f : frame) (t : tree) : tree := mk (f_side f) (f_color f) t (f_addr f) (f_sib f).
Definition plug (k : ctx) (t : tree) : tree := foldl (fun t f => fill f t) t k.
Definition hole_up (k : ctx) : Z := match k with [] => 0 | f :: _ => f_addr f end.

(** Addresses of nodes, which are aligned. *)
Definition good_addr (a : Z) : Prop := 0 < a /\ a mod 4 = 0.

Fixpoint rep (h : gmap Z rb_node) (p : Z) (t : tree) : Prop :=
  match t with
  | E => True
  | N c l a r => h !! a = Some (RbNode (p .| code c) (addr r) (addr l)) /\ rep h a l /\ rep h a r
  end.

(** The heap holds a context whose hole has a tree with root [x]. *)
Fixpoint repk (h : gmap Z rb_node) (top : Z) (k : ctx) (x : Z) : Prop :=
  match k with
  | [] => top = x
  | f :: k =>
      h !! f_addr f = Some (set_child (f_side f) x (set_child (opp (f_side f)) (addr (f_sib f))
        (RbNode (hole_up k .| code (f_color f)) 0 0))) /\
      rep h (f_addr f) (f_sib f) /\ repk h top k (f_addr f)
  end.

Definition ctx_elems (k : ctx) : list Z := f ← k; f_addr f :: elems (f_sib f).

Lemma ctx_elems_cons f k : ctx_elems (f :: k) = f_addr f :: elems (f_sib f) ++ ctx_elems k.
Proof. done. Qed.

Record repr (st : rb_root) (t : tree) : Prop := Repr {
  r_top : rb_top st = addr t;
  r_rep : rep (nodes st) 0 t;
  r_nodup : NoDup (elems t);
  r_good : Forall good_addr (elems t)
}.

(** ** Parent and colour in one word *)

Lemma low_bits p n : p mod 4 = 0 -> 0 <= n < 2 -> Z.testbit p n = false.
Proof.
  intros Hp Hn. rewrite (Z.div_mod p 4), Hp, Z.add_0_r by lia.
  replace (4 * (p / 4)) with ((p / 4) .<< 2) by (rewrite Z.shiftl_mul_pow2 by lia; lia).
  apply Z.shiftl_spec_low. lia.
Qed.

Lemma small_bit c n : 2 <= n -> Z.testbit (code c) n = false.
Proof. intros Hn. apply (testbit_high _ 1); [destruct c; unfold code; lia | lia]. Qed.

Lemma mask_bits m n : 0 <= m < 4 -> 2 <= n -> Z.testbit m n = false.
Proof. intros Hm Hn. apply (testbit_high _ 2); [simpl; lia | lia]. Qed.

Ltac pack_bits Hp :=
  apply Z.bits_inj'; intros n Hn; rewrite ?Z.land_spec, ?Z.lor_spec, ?Z.land_spec, ?Z.lnot_spec, ?Z.lor_spec by lia;
  destruct (decide (n < 2)) as [Hs|Hs];
  [rewrite ?(low_bits _ n Hp) by lia; assert (n = 0 \/ n = 1) as [-> | ->] by lia
  |rewrite ?small_bit, ?(mask_bits 1), ?(mask_bits 3) by lia];
  try match goal with c : color |- _ => destruct c end; rewrite ?orb_false_r, ?andb_true_r, ?andb_false_r; try reflexivity.

Lemma parent_pack p c l r : p mod 4 = 0 -> rb_parent (RbNode (p .| code c) r l) = p.
Proof. intros Hp. unfold rb_parent. cbn. pack_bits Hp. Qed.

Lemma color_pack p c l r : p mod 4 = 0 -> rb_color (RbNode (p .| code c) r l) = code c.
Proof. intros Hp. unfold rb_color. cbn. pack_bits Hp. Qed.

Lemma set_red_pack p c : p mod 4 = 0 -> (p .| code c) .& Z.lnot 1 = p .| code Red.
Proof. intros Hp. pack_bits Hp. Qed.
Lemma set_black_pack p c : p mod 4 = 0 -> (p .| code c) .| 1 = p .| code Black.
Proof. intros Hp. pack_bits Hp. Qed.
Lemma set_parent_pack p q c : p mod 4 = 0 -> q mod 4 = 0 -> ((p .| code c) .& 3) .| q = q .| code c.
Proof.
  intros Hp Hq. assert ((p .| code c) .& 3 = code c) as -> by (pack_bits Hp). apply Z.lor_comm.
Qed.
Lemma set_color_pack p c c' : p mod 4 = 0 -> ((p .| code c) .& Z.lnot 1) .| code c' = p .| code c'.
Proof. intros Hp. rewrite set_red_pack by done. unfold code at 1. by rewrite Z.lor_0_r. Qed.

Lemma is_red_pack p c l r : p mod 4 = 0 -> rb_is_red (RbNode (p .| code c) r l) = bool_decide (c = Red).
Proof. intros Hp. unfold rb_is_red. rewrite color_pack by done. by destruct c. Qed.
Lemma is_black_pack p c l r : p mod 4 = 0 -> rb_is_black (RbNode (p .| code c) r l) = bool_decide (c = Black).
Proof. intros Hp. unfold rb_is_black. rewrite color_pack by done. by destruct c. Qed.

(** ** Trees in the heap *)

Lemma rep_agree h h' t : forall p, (forall q, q ∈ elems t -> h' !! q = h !! q) -> rep h p t -> rep h' p t.
Proof.
  induction t as [|c l IHl a r IHr]; intros p Hh; simpl; [done |]. intros (Ea & Hl & Hr). simpl in Hh. split_and!.
  - by rewrite Hh by set_solver.
  - apply IHl; [| done]. intros q Hq. apply Hh. set_solver.
  - apply IHr; [| done]. intros q Hq. apply Hh. set_solver.
Qed.

Lemma repk_agree h h' top k : forall x, (forall q, q ∈ ctx_elems k -> h' !! q = h !! q) -> repk h top k x -> repk h' top k x.
Proof.
  induction k as [|f k IH]; intros x Hh; simpl; [done |]. cbn in Hh. intros (Ea & Hs & Hk). split_and!.
  - by rewrite Hh by set_solver.
  - eapply rep_agree; [| done]. intros q Hq. apply Hh. set_solver.
  - apply IH; [| done]. intros q Hq. apply Hh. set_solver.
Qed.

Lemma rep_mk h p d c x a y :
  rep h p (mk d c x a y) <-> h !! a = Some
    (set_child d (addr x) (set_child (opp d) (addr y) (RbNode (p .| code c) 0 0))) /\ rep h a x /\ rep h a y.
Proof. destruct d; simpl; tauto. Qed.

Lemma elems_mk d c x a y : elems (mk d c x a y) ≡ₚ a :: elems x ++ elems y.
Proof.
  destruct d; simpl; [by rewrite Permutation_middle |]. rewrite (Permutation_app_comm (elems x)). by rewrite Permutation_middle.
Qed.

Lemma addr_mk d c x a y : addr (mk d c x a y) = a.
Proof. by destruct d. Qed.

Lemma mk_opp d c x a y : mk (opp d) c y a x = mk d c x a y.
Proof. by destruct d. Qed.

Lemma opp_opp d : opp (opp d) = d.
Proof. by destruct d. Qed.

(** Focusing on a subtree. *)
Lemma rep_plug h top k : forall t, top = addr (plug k t) /\ rep h 0 (plug k t) <-> rep h (hole_up k) t /\ repk h top k (addr t).
Proof.
  induction k as [|f k IH]; intros t; simpl; [tauto |].
  change (foldl (fun t f => fill f t) (fill f t) k) with (plug k (fill f t)). rewrite IH. unfold fill.
  rewrite rep_mk, addr_mk. tauto.
Qed.

Lemma elems_plug k : forall t, elems (plug k t) ≡ₚ elems t ++ ctx_elems k.
Proof.
  induction k as [|f k IH]; intros t; simpl; [by rewrite app_nil_r |].
  change (foldl (fun t f => fill f t) (fill f t) k) with (plug k (fill f t)). rewrite IH. unfold fill.
  rewrite elems_mk. cbn. rewrite <- Permutation_middle. simpl. by rewrite <- app_assoc.
Qed.

(** What a state that holds [plug k t] holds. *)
Record focus (st : rb_root) (k : ctx) (t : tree) : Prop := Focus {
  o_rep : rep (nodes st) (hole_up k) t;
  o_ctx : repk (nodes st) (rb_top st) k (addr t);
  o_nodup : NoDup (elems t ++ ctx_elems k);
  o_good : Forall good_addr (elems t ++ ctx_elems k)
}.

Lemma repr_focus st k t : repr st (plug k t) <-> focus st k t.
Proof.
  pose proof (rep_plug (nodes st) (rb_top st) k t) as Hp. pose proof (elems_plug k t) as He. split.
  - intros [H1 H2 H3 H4]. destruct (proj1 Hp) as [? ?]; [done |]. split; [done | done | by rewrite <- He | by rewrite <- He].
  - intros [H1 H2 H3 H4]. destruct (proj2 Hp) as [? ?]; [done |]. split; [done | done | by rewrite He | by rewrite He].
Qed.

Lemma up_good st k t : focus st k t -> hole_up k mod 4 = 0 /\ (hole_up k = 0 <-> k = []).
Proof.
  intros H. destruct k as [|f k]; [done |]. pose proof (o_good _ _ _ H) as Hg. rewrite Forall_forall in Hg.
  destruct (Hg (f_addr f)) as [? ?]; [cbn; set_solver |]. simpl. split; [done |]. split; [lia | done].
Qed.

(** Reading the node in focus. *)
Lemma get_focus st k d c x a y :
  focus st k (mk d c x a y) ->
  exists n, get a st = Some n /\ child d n = addr x /\ child (opp d) n = addr y /\ rb_parent n = hole_up k /\
    rb_color n = code c /\
    rb_is_red n = bool_decide (c = Red) /\ rb_is_black n = bool_decide (c = Black) /\ a <> 0.
Proof.
  intros H. destruct (up_good _ _ _ H) as [Hu _]. pose proof (o_rep _ _ _ H) as Hr. apply rep_mk in Hr as (Ea & _ & _).
  eexists. split; [exact Ea |].
  assert (a <> 0) as Ha. { pose proof (o_good _ _ _ H) as Hg. rewrite Forall_forall in Hg.
    destruct (Hg a); [rewrite elems_mk; set_solver | lia]. }
  destruct d; cbn; rewrite ?parent_pack, ?color_pack, ?is_red_pack, ?is_black_pack by done; done.
Qed.

(** ** Changing the tree in the heap *)

(** At most the node [p] differs. *)
Definition only (p : Z) (st st' : rb_root) : Prop :=
  (forall q, q <> p -> nodes st' !! q = nodes st !! q) /\ dom (nodes st') = dom (nodes st).

Definition same_dom (st st' : rb_root) : Prop := dom (nodes st') = dom (nodes st).

Lemma only_dom p st st' : only p st st' -> same_dom st st'.
Proof. by intros [_ H]. Qed.

#[export] Instance same_dom_pre : PreOrder same_dom.
Proof. split; [done | intros ??? H1 H2; unfold same_dom in *; congruence]. Qed.

Lemma modify_only f p st n :
  get p st = Some n -> exists st', modify f p st = Some st' /\ get p st' = Some (f n) /\ only p st st' /\ rb_top st' = rb_top st.
Proof.
  intros Ep. unfold modify. rewrite Ep. cbn [mbind option_bind]. eexists. split; [reflexivity |]. unfold get, only.
  cbn [nodes rb_top].
  rewrite lookup_insert_eq. split_and!; [done | | | done].
  - intros q Hq. by rewrite lookup_insert_ne.
  - rewrite dom_insert_L. unfold get in Ep. apply elem_of_dom_2 in Ep. set_solver.
Qed.

Lemma set_parent_only p q st n :
  get p st = Some n -> exists st', rb_set_parent p q st = Some st' /\
    get p st' = Some (set_pc ((rb_parent_color n .& 3) .| q) n) /\ only p st st' /\ rb_top st' = rb_top st.
Proof. apply (modify_only (fun n => set_pc ((rb_parent_color n .& 3) .| q) n)). Qed.

Lemma get_only p q st st' n : only p st st' -> q <> p -> get q st = Some n -> get q st' = Some n.
Proof. intros [H _] Hq. unfold get. by rewrite (H _ Hq). Qed.

Lemma rep_only p st st' r t : only p st st' -> p ∉ elems t -> rep (nodes st) r t -> rep (nodes st') r t.
Proof. intros [H _] Hp. apply rep_agree. intros q Hq. apply H. by intros ->. Qed.

Lemma repk_only p st st' top k x : only p st st' -> p ∉ ctx_elems k -> repk (nodes st) top k x -> repk (nodes st') top k x.
Proof. intros [H _] Hp. apply repk_agree. intros q Hq. apply H. by intros ->. Qed.

(** The address of a subtree is one of its nodes or NULL. *)
Lemma addr_notin t (L : list Z) : (forall q, q ∈ elems t -> q ∉ L) -> 0 ∉ L -> addr t ∉ L.
Proof. intros H H0. destruct t; simpl in *; [done |]. apply H. set_solver. Qed.

Lemma addr_ne t a : a ∉ elems t -> a <> 0 -> addr t <> a.
Proof. intros H H0. destruct t; simpl in *; [done |]. set_solver. Qed.

Lemma good_nonzero L : Forall good_addr L -> 0 ∉ L.
Proof. rewrite Forall_forall. intros H Hi. destruct (H _ Hi). lia. Qed.

(** The parent pointer of the root of a subtree. *)
Lemma reparent p q t st :
  rep (nodes st) p t -> NoDup (elems t) -> Forall good_addr (elems t) -> p mod 4 = 0 -> q mod 4 = 0 ->
  exists st', (if addr t =? 0 then Some st else rb_set_parent (addr t) q st) = Some st' /\ rep (nodes st') q t /\
    only (addr t) st st' /\ rb_top st' = rb_top st.
Proof.
  intros Ht Hnd Hg Hp Hq. destruct t as [|c l a r]; [by eexists |]. simpl addr in *. destruct Ht as (Ea & Hl & Hr).
  simpl in Hg, Hnd. rewrite <- Permutation_middle in Hg, Hnd. apply Forall_cons in Hg as [[Ha _] _].
  apply NoDup_cons in Hnd as [Hn _].
  rewrite (proj2 (Z.eqb_neq _ _)) by lia.
  destruct (modify_only (fun n => set_pc ((rb_parent_color n .& 3) .| q) n) a st _ Ea) as (st' & E' & Ea' & Ho & Ht).
  exists st'. split_and!; [exact E' | | done | done]. simpl. split_and!.
  - etransitivity; [exact Ea' |]. unfold set_pc. cbn. by rewrite set_parent_pack.
  - eapply rep_only; [done | set_solver | done].
  - eapply rep_only; [done | set_solver | done].
Qed.

(** The parent's pointer to the subtree in the hole. *)
Lemma replace_child_ok d k x y st :
  repk (nodes st) (rb_top st) k x -> x <> 0 -> x ∉ ctx_elems k -> NoDup (ctx_elems k) -> Forall good_addr (ctx_elems k) ->
  exists st', replace_child d (hole_up k) x y st = Some st' /\ repk (nodes st') (rb_top st') k y /\ only (hole_up k) st st'.
Proof.
  intros Hk Hx Hn Hnd Hg. unfold replace_child.
  destruct k as [|f k]; simpl in *; [eexists; split; [reflexivity |]; by split_and! |].
  cbn in Hn, Hnd. apply Forall_cons in Hg as [[Hf _] _]. rewrite (proj2 (Z.eqb_neq _ _)) by lia. destruct Hk as (Ef & Hs & Hk).
  change (get (f_addr f) st = Some (set_child (f_side f) x (set_child (opp (f_side f)) (addr (f_sib f))
    (RbNode (hole_up k .| code (f_color f)) 0 0)))) in Ef.
  rewrite Ef. cbn [mbind option_bind].
  assert (addr (f_sib f) <> x) as Hsx by (apply addr_ne; [set_solver | done]).
  destruct (modify_only (set_child (f_side f) y) _ _ _ Ef) as (st' & E' & Ef' & Ho & Ht). exists st'.
  apply NoDup_cons in Hnd as [Hfn Hnd]. split_and!; [| | | | done].
  - rewrite <- E'. destruct d, (f_side f); cbn; rewrite ?Z.eqb_refl, ?(proj2 (Z.eqb_neq _ _) Hsx); done.
  - etransitivity; [exact Ef' |]. by destruct (f_side f).
  - eapply rep_only; [done | set_solver | done].
  - rewrite Ht. eapply repk_only; [done | intros Hi; apply Hfn, elem_of_app; by right | done].
Qed.

(** The nodes around the focus are apart. *)
Ltac parts H :=
  rewrite ?elems_mk in H; cbn [app] in H;
  repeat first [rewrite NoDup_app in H | rewrite NoDup_cons in H | rewrite NoDup_nil in H];
    rewrite ?Forall_app, ?Forall_cons in H;
  repeat match type of H with _ /\ _ => let H' := fresh "Hp" in destruct H as [H' H]; parts H' end.

Ltac apart := set_solver.

(** Writing the colour of the node in focus. *)
Lemma modify_color f st k d c c' x a y :
  focus st k (mk d c x a y) -> (forall n, rb_parent_color n = hole_up k .| code c -> f n = set_pc (hole_up k .| code c') n) ->
  exists st', modify f a st = Some st' /\ focus st' k (mk d c' x a y) /\ same_dom st st'.
Proof.
  intros [H1 H2 H3 H4] Hf. apply rep_mk in H1 as (Ea & Hx & Hy). rewrite elems_mk in H3, H4. rewrite addr_mk in H2.
  destruct (modify_only f a st _ Ea) as (st' & E' & Ea' & Ho & Ht). exists st'. split; [done |]. split; [| by eapply only_dom].
  split; rewrite ?elems_mk, ?addr_mk, ?Ht; [apply rep_mk; split_and! | | done | done].
  - etransitivity; [exact Ea' |]. rewrite Hf by (by destruct d). by destruct d.
  - eapply rep_only; [done | | done]. parts H3. apart.
  - eapply rep_only; [done | | done]. parts H3. apart.
  - eapply repk_only; [done | | done]. parts H3. apart.
Qed.

Lemma set_black_focus st k d c x a y :
  focus st k (mk d c x a y) -> exists st', rb_set_black a st = Some st' /\ focus st' k (mk d Black x a y) /\ same_dom st st'.
Proof.
  intros H. destruct (up_good _ _ _ H) as [Hu _]. eapply modify_color; [exact H |]. intros n ->. by rewrite set_black_pack.
Qed.

Lemma set_red_focus st k d c x a y :
  focus st k (mk d c x a y) -> exists st', rb_set_red a st = Some st' /\ focus st' k (mk d Red x a y) /\ same_dom st st'.
Proof.
  intros H. destruct (up_good _ _ _ H) as [Hu _]. eapply modify_color; [exact H |]. intros n ->. by rewrite (set_red_pack _ c).
Qed.

Lemma set_color_focus st k d c c' x a y :
  focus st k (mk d c x a y) -> exists st', rb_set_color a (code c') st = Some st' /\ focus st' k (mk d c' x a y) /\
    same_dom st st'.
Proof.
  intros H. destruct (up_good _ _ _ H) as [Hu _]. eapply modify_color; [exact H |]. intros n ->. by rewrite set_color_pack.
Qed.

Lemma up_notin k L : NoDup (L ++ ctx_elems k) -> Forall good_addr L -> hole_up k ∉ L.
Proof.
  intros Hnd Hg. destruct k as [|f k]; simpl; [by apply good_nonzero |]. apply NoDup_app in Hnd as (_ & Hd & _).
  intros Hi. apply (Hd _ Hi). cbn. set_solver.
Qed.

(** Facts [p ∉ L] of the hypotheses, split up. *)
Ltac notins :=
  repeat match goal with
  | H : _ ∉ _ ++ _ |- _ => apply not_elem_of_app in H; destruct H
  | H : _ ∉ _ :: _ |- _ => apply not_elem_of_cons in H; destruct H
  end.

(** [q ∉ L] for a [q] of one of the lists that are apart. *)
Ltac disjoint :=
  rewrite ?not_elem_of_cons, ?not_elem_of_app; repeat (split; [| try done]);
  try (let Hx := fresh "Hx" in intros Hx; try subst;
    repeat match goal with H : forall x, x ∈ ?A -> x ∉ _, Hq : ?q ∈ ?A |- _ => specialize (H q Hq) end; notins; done).

Ltac known := first [assumption | apply not_eq_sym; assumption].

(** What is known of the state before a write to [p], for the state after it. *)
Ltac carry Ho :=
  match type of Ho with
  | only ?p ?s ?s' =>
      repeat match goal with
      | H : get ?q s = Some _ |- _ => apply (get_only _ _ _ _ _ Ho) in H; [| known]
      | H : rep (nodes s) _ ?t |- _ => apply (rep_only _ _ _ _ _ Ho) in H; [| known]
      | H : repk (nodes s) _ ?k _ |- _ => apply (repk_only _ _ _ _ _ _ Ho) in H; [| known]
      end
  end.

Lemma rotate_perm (a b : Z) x y z : a :: x ++ b :: y ++ z ≡ₚ b :: (a :: x ++ y) ++ z.
Proof. rewrite <- Permutation_middle. rewrite app_assoc. apply perm_swap. Qed.

(** A rotation. *)
Lemma rotate_ok d st k c c' x a y b z :
  focus st k (mk d c x a (mk d c' y b z)) ->
  exists st', rotate d a st = Some st' /\ focus st' k (mk d c' (mk d c x a y) b z) /\ same_dom st st'.
Proof.
  intros H. destruct (up_good _ _ _ H) as [Hu _]. destruct H as [H1 H2 H3 H4].
  apply rep_mk in H1 as (Ea & Hx & Hb). apply rep_mk in Hb as (Eb & Hy & Hz). rewrite addr_mk in *. rewrite !elems_mk in H3, H4.
  fold (get a st) in Ea. fold (get b st) in Eb. pose proof (up_notin _ _ H3 (proj1 (proj1 (Forall_app _ _ _) H4))) as Hk.
  pose proof H3 as Hnd. pose proof H4 as Hg. pose proof (good_nonzero _ H4) as H0. rewrite Forall_forall in H4.
  destruct (H4 a) as [Ha Ha4]; [set_solver |]. destruct (H4 b) as [Hb Hb4]; [set_solver |].
  assert (Forall good_addr (elems y)) as Hgy by (apply Forall_forall; intros q Hq; apply H4; set_solver). clear H4.
  parts H3. assert (addr y ∉ a :: b :: elems x ++ elems z ++ ctx_elems k) as Hay by (apply addr_notin; set_solver).
  assert (b ∉ elems x ++ ctx_elems k) as Hbn by set_solver. clear Hp2 Hp5 Hp6 H0. cbn [app] in Hk. notins.
  unfold rotate. rewrite Ea. cbn [mbind option_bind].
  replace (child (opp d) _) with b by (by destruct d). rewrite Eb. cbn [mbind option_bind].
  replace (rb_parent _) with (hole_up k) by (destruct d; simpl; by rewrite parent_pack).
  replace (child d _) with (addr y) by (by destruct d).
  destruct (modify_only (set_child (opp d) (addr y)) _ _ _ Ea) as (s1 & -> & A1 & O1 & T1). carry O1. cbn [mbind option_bind].
  destruct (reparent b a y s1) as (s2 & -> & Y2 & O2 & T2); [done | done | done | done | done |]. carry O2.
  cbn [mbind option_bind].
  destruct (modify_only (set_child d a) _ _ _ Eb) as (s3 & -> & B3 & O3 & T3). carry O3. cbn [mbind option_bind].
  destruct (set_parent_only b (hole_up k) _ _ B3) as (s4 & -> & B4 & O4 & T4). carry O4. cbn [mbind option_bind].
  destruct (replace_child_ok d k a b s4) as (s5 & -> & K5 & O5);
    [by rewrite T4, T3, T2, T1 | lia | done | done | by apply Forall_app in Hg as [_ ?] |].
  carry O5. cbn [mbind option_bind].
  destruct (set_parent_only a b _ _ A1) as (s6 & -> & A6 & O6 & T6). carry O6.
  exists s6. split; [done |]. split; [split
    | by rewrite (only_dom _ _ _ O1), (only_dom _ _ _ O2), (only_dom _ _ _ O3), (only_dom _ _ _ O4),
    (only_dom _ _ _ O5), (only_dom _ _ _ O6)].
  - rewrite !rep_mk. rewrite addr_mk. fold (get b s6) (get a s6). rewrite A6, B4. split_and!; try done.
    + destruct d; unfold set_pc; cbn; by rewrite set_parent_pack.
    + destruct d; unfold set_pc; cbn; by rewrite set_parent_pack.
  - by rewrite addr_mk, T6.
  - rewrite !elems_mk. by rewrite (rotate_perm a b (elems x)) in Hnd.
  - rewrite !elems_mk. by rewrite (rotate_perm a b (elems x)) in Hg.
Qed.

Lemma rotate_opp_ok d st k c c' x a y b z :
  focus st k (mk d c (mk d c' z b y) a x) ->
  exists st', rotate (opp d) a st = Some st' /\ focus st' k (mk d c' z b (mk d c y a x)) /\ same_dom st st'.
Proof.
  intros H. destruct (rotate_ok (opp d) st k c c' x a y b z) as (st' & E & H' & D); [by rewrite !mk_opp |]. exists st'.
  by rewrite !mk_opp in H'.
Qed.

(** Moving the focus. *)
Lemma focus_fill st f k t : focus st (f :: k) t <-> focus st k (fill f t).
Proof. by rewrite <- !repr_focus. Qed.

Lemma focus_near st k d c x a y : focus st k (mk d c x a y) <-> focus st (Frame d c a y :: k) x.
Proof. by rewrite focus_fill. Qed.

Lemma focus_far st k d c x a y : focus st k (mk d c x a y) <-> focus st (Frame (opp d) c a x :: k) y.
Proof. rewrite focus_fill. unfold fill. cbn. by rewrite mk_opp. Qed.

(** ** The order of the nodes *)

Lemma elems_rotate d c c' e e' x a y b z : elems (mk d c x a (mk d c' y b z)) = elems (mk d e (mk d e' x a y) b z).
Proof. destruct d; simpl; by rewrite <- ?app_assoc. Qed.

Lemma elems_recolor d c c' x a y : elems (mk d c x a y) = elems (mk d c' x a y).
Proof. by destruct d. Qed.

Fixpoint before (k : ctx) : list Z :=
  match k with [] => [] | Frame Left _ _ _ :: k => before k | Frame Right _ a s :: k => before k ++ elems s ++ [a] end.
Fixpoint after (k : ctx) : list Z :=
  match k with [] => [] | Frame Left _ a s :: k => a :: elems s ++ after k | Frame Right _ _ _ :: k => after k end.

Lemma inorder_plug k : forall t, elems (plug k t) = before k ++ elems t ++ after k.
Proof.
  induction k as [|[[] c a s] k IH]; intros t; simpl; [by rewrite app_nil_r | |];
    change (foldl (fun t f => fill f t) ?x k) with (plug k x); rewrite IH; simpl; by rewrite <- ?app_assoc.
Qed.

Lemma inorder_congr k t t' : elems t = elems t' -> elems (plug k t) = elems (plug k t').
Proof. intros H. by rewrite !inorder_plug, H. Qed.

(** The context is no longer than the heap has nodes. *)
Lemma ctx_length k : (length k <= length (ctx_elems k))%nat.
Proof. induction k as [|f k IH]; simpl; [lia |]. rewrite length_app. lia. Qed.

Lemma rep_dom h t : forall p q, rep h p t -> q ∈ elems t -> q ∈ dom h.
Proof.
  induction t as [|c l IHl a r IHr]; intros p q; simpl; [set_solver |]. intros (Ea & Hl & Hr). rewrite elem_of_app, elem_of_cons.
  intros [Hq | [-> | Hq]]; [by eapply IHl | by eapply elem_of_dom_2 | by eapply IHr].
Qed.

Lemma repr_size st t : repr st t -> (length (elems t) <= size (nodes st))%nat.
Proof.
  intros [_ Hr Hnd _]. rewrite <- size_dom, <- (size_list_to_set (C := gset Z)) by done. apply subseteq_size. intros q Hq.
  apply elem_of_list_to_set in Hq. by eapply rep_dom.
Qed.

Lemma focus_fuel st k t : focus st k t -> (length k + length (elems t) <= size (nodes st))%nat.
Proof.
  intros H. pose proof (repr_size _ _ (proj2 (repr_focus _ _ _) H)) as Hs. rewrite elems_plug, length_app in Hs.
  pose proof (ctx_length k). lia.
Qed.

End RbTree.
