(* ===== verification/RbTreeColor.v ===== *)
(** * Red-black trees: insertion and deletion

    What a valid red-black tree is, and that rb_insert_color and
    rb_erase of lib/rbtree.c return with one whose nodes are the right ones in
    the right order. *)
From S2P Require Import Prelude RbTree.

Module RbTreeColor.
Import RbTree.

(** ** Validity *)

(** No red node has a red child and every way down has [n] black nodes. *)
Fixpoint bh (t : tree) (n : nat) : Prop :=
  match t with
  | E => n = O
  | N Red l _ r => root_color l = Black /\ root_color r = Black /\ bh l n /\ bh r n
  | N Black l _ r => match n with O => False | S m => bh l m /\ bh r m end
  end.

Definition rb_valid (t : tree) : Prop := root_color t = Black /\ exists n, bh t n.

(** The context takes trees of black height [n] with the root colour [c]. *)
Fixpoint kwf (k : ctx) (c : color) (n : nat) : Prop :=
  match k with
  | [] => c = Black
  | Frame _ Red _ s :: k => c = Black /\ root_color s = Black /\ bh s n /\ kwf k Red n
  | Frame _ Black _ s :: k => bh s n /\ kwf k Black (S n)
  end.

Lemma bh_red d x a y n : bh (mk d Red x a y) n <-> root_color x = Black /\ root_color y = Black /\ bh x n /\ bh y n.
Proof. destruct d; simpl; tauto. Qed.

Lemma bh_black d x a y n : bh (mk d Black x a y) (S n) <-> bh x n /\ bh y n.
Proof. destruct d; simpl; tauto. Qed.

Lemma root_color_mk d c x a y : root_color (mk d c x a y) = c.
Proof. by destruct d. Qed.

Lemma kwf_black k c n : kwf k c n -> kwf k Black n.
Proof. destruct k as [|[d [] a s] k]; simpl; naive_solver. Qed.

Lemma bh_black_inv t n : bh t n -> root_color t = Black -> t = E /\ n = O \/ exists l a r m, t = N Black l a r /\ n = S m.
Proof. destruct t as [|[] l a r]; simpl; [by left | done |]. destruct n; [done |]. intros _ _. right. by do 4 eexists. Qed.

Lemma plug_valid k : forall t n, bh t n -> kwf k (root_color t) n -> rb_valid (plug k t).
Proof.
  induction k as [|[d c a s] k IH]; intros t n Ht; simpl; [intros Hc; split; [done | by exists n] |].
  change (foldl (fun t f => fill f t) ?x k) with (plug k x). destruct c; intros Hk; eapply (IH (mk d _ t a s));
    rewrite ?root_color_mk.
  - apply bh_red. naive_solver.
  - naive_solver.
  - apply (proj2 (bh_black d t a s n)). naive_solver.
  - naive_solver.
Qed.

Lemma plug_valid_inv k : forall t, rb_valid (plug k t) -> exists n, bh t n /\ kwf k (root_color t) n.
Proof.
  induction k as [|[d c a s] k IH]; intros t; simpl; [intros [? [n ?]]; by exists n |].
  change (foldl (fun t f => fill f t) ?x k) with (plug k x). intros H. destruct (IH _ H) as (n & Hn & Hk).
  unfold fill in Hn, Hk. simpl in Hn, Hk.
  rewrite root_color_mk in Hk. destruct c; [apply bh_red in Hn; exists n; naive_solver |]. destruct n as [|n]; [by destruct d |].
  apply bh_black in Hn. exists n. naive_solver.
Qed.

(** ** Tests *)

Lemma is_red_focus st k t : focus st k t -> is_red_node (addr t) st = Some (bool_decide (root_color t = Red)).
Proof.
  intros H. destruct t as [|c l a r]; [done |]. change (N c l a r) with (mk Left c l a r) in *.
  destruct (get_focus _ _ _ _ _ _ _ H) as (n & E & _ & _ & _ & _ & Hr & _ & Ha).
  unfold is_red_node. rewrite addr_mk, root_color_mk, (proj2 (Z.eqb_neq _ _) Ha), E. cbn [mbind option_bind]. by rewrite Hr.
Qed.

Lemma is_black_focus st k t : focus st k t -> is_black_or_null (addr t) st = Some (bool_decide (root_color t = Black)).
Proof.
  intros H. destruct t as [|c l a r]; [done |]. change (N c l a r) with (mk Left c l a r) in *.
  destruct (get_focus _ _ _ _ _ _ _ H) as (n & E & _ & _ & _ & _ & _ & Hb & Ha).
  unfold is_black_or_null. rewrite addr_mk, root_color_mk, (proj2 (Z.eqb_neq _ _) Ha), E. cbn [mbind option_bind]. by rewrite Hb.
Qed.

Lemma focus_apart st k d c x a y : focus st k (mk d c x a y) -> addr x <> 0 \/ addr y <> 0 -> addr y <> addr x.
Proof.
  intros H Hxy. pose proof (o_nodup _ _ _ H) as Hnd. rewrite elems_mk in Hnd. simpl in Hnd.
  apply NoDup_cons in Hnd as [_ Hnd]. apply NoDup_app in Hnd as (Hnd & _). apply NoDup_app in Hnd as (_ & Hd & _).
  destruct x as [|cx lx ax rx]; simpl in *; [naive_solver |]. destruct y as [|cy ly ay ry]; simpl in *; [naive_solver |].
  intros ->. apply (Hd ax); set_solver.
Qed.

(** The side of the node in focus, found by comparing with the pointers of its parent. *)
Lemma side_of st k d c x a y n :
  focus st k (mk d c x a y) -> get a st = Some n -> addr x <> 0 \/ addr y <> 0 ->
  (if addr x =? rb_left n then Left else Right) = d /\ (if rb_left n =? addr x then Left else Right) = d.
Proof.
  intros H En Hx. pose proof (focus_apart _ _ _ _ _ _ _ H Hx) as Hne.
  destruct (get_focus _ _ _ _ _ _ _ H) as (n' & En' & Hd & Ho & _). replace n' with n in * by congruence.
  rewrite (Z.eqb_sym (rb_left n)). destruct d; simpl in *; [rewrite Hd, Z.eqb_refl; done |].
  rewrite Ho, (proj2 (Z.eqb_neq _ _)) by done. done.
Qed.

(** Equality of two in-order sequences, for each side. *)
Ltac inorder d := unfold fill; destruct d; simpl; do 3 (rewrite <- ?app_assoc; simpl).

(** ** Insertion *)

(** A red uncle. *)
Lemma insert_red st k d e t pa s ga ux ua uy g node :
  focus st k (mk d Black (mk e Red t pa s) ga (N Red ux ua uy)) -> get ga st = Some g ->
  exists st', insert_side d node pa ga g st = Some (ga, st') /\
    focus st' k (mk d Red (mk e Black t pa s) ga (N Black ux ua uy)) /\ same_dom st st'.
Proof.
  intros H Eg. destruct (get_focus _ _ _ _ _ _ _ H) as (g' & Eg' & _ & Hu & _). replace g' with g in * by congruence.
  unfold insert_side. rewrite Hu.
  apply focus_far in H. rewrite (is_red_focus _ _ _ H). cbn [mbind option_bind root_color addr]. rewrite bool_decide_true by done.
  destruct (set_black_focus _ _ Left _ _ _ _ H) as (s1 & -> & H1 & D1). cbn [mbind option_bind].
  apply focus_far, focus_near in H1.
  destruct (set_black_focus _ _ _ _ _ _ _ H1) as (s2 & -> & H2 & D2). cbn [mbind option_bind]. apply focus_near in H2.
  destruct (set_red_focus _ _ _ _ _ _ _ H2) as (s3 & -> & H3 & D3). cbn [mbind option_bind].
  exists s3. split; [done |]. split; [done |]. by rewrite D1, D2, D3.
Qed.

(** A black uncle, the node on the outer side. *)
Lemma insert_outer st k d t pa s ga u :
  focus st k (mk d Black (mk d Red t pa s) ga u) ->
  exists st', (st ← rb_set_black pa st; st ← rb_set_red ga st; st ← rotate (opp d) ga st;
    Some (addr t, st)) = Some (addr t, st') /\
    focus st' k (mk d Black t pa (mk d Red s ga u)) /\ same_dom st st'.
Proof.
  intros H. apply focus_near in H. destruct (set_black_focus _ _ _ _ _ _ _ H) as (s1 & -> & H1 & D1).
  cbn [mbind option_bind]. apply focus_near in H1.
  destruct (set_red_focus _ _ _ _ _ _ _ H1) as (s2 & -> & H2 & D2). cbn [mbind option_bind].
  destruct (rotate_opp_ok _ _ _ _ _ _ _ _ _ _ H2) as (s3 & -> & H3 & D3). cbn [mbind option_bind].
  exists s3. split; [done |]. split; [done |]. by rewrite D1, D2, D3.
Qed.

(** A black uncle: a rotation if the node is on the inner side, then as before. *)
Lemma insert_black st k d e x a y pa s ga u g :
  focus st k (mk d Black (mk e Red (mk d Red x a y) pa s) ga u) -> get ga st = Some g -> root_color u = Black ->
  exists st' node t, insert_side d a pa ga g st = Some (node, st') /\ focus st' k t /\ same_dom st st' /\
    (e = d /\ node = a /\ t = mk d Black (mk d Red x a y) pa (mk d Red s ga u) \/
     e = opp d /\ node = pa /\ t = mk d Black (mk d Red s pa x) a (mk d Red y ga u)).
Proof.
  intros H Eg Hc. destruct (get_focus _ _ _ _ _ _ _ H) as (g' & Eg' & _ & Hu & _).
  replace g' with g in * by congruence. unfold insert_side. rewrite Hu.
  rewrite (is_red_focus _ _ _ (proj1 (focus_far _ _ _ _ _ _ _) H)), Hc. cbn [mbind option_bind].
  rewrite bool_decide_false by done.
  pose proof (proj1 (focus_near _ _ _ _ _ _ _) H) as Hf.
  destruct (get_focus _ _ _ _ _ _ _ Hf) as (p & Ep & Hn & Ho & _). rewrite Ep. cbn [mbind option_bind].
  rewrite addr_mk in Hn. assert (a <> 0 /\ addr s <> a) as [Ha Hs].
  { pose proof (proj1 (focus_near _ _ _ _ _ _ _) Hf) as Hff.
    destruct (get_focus _ _ _ _ _ _ _ Hff) as (_ & _ & _ & _ & _ & _ & _ & _ & Ha). split; [done |].
    pose proof (focus_apart _ _ _ _ _ _ _ Hf) as Hap. rewrite addr_mk in Hap. by apply Hap; left. }
  destruct (decide (e = d)) as [-> | Hed].
  - rewrite Ho, (proj2 (Z.eqb_neq _ _) Hs). cbn [mbind option_bind].
    destruct (insert_outer _ _ _ _ _ _ _ _ H) as (st' & E & H' & D). rewrite addr_mk in E.
    rewrite E. exists st', a. eexists. split; [done |]. split; [exact H' |]. split; [done |]. by left.
  - assert (e = opp d) as -> by (by destruct e, d). rewrite Hn, Z.eqb_refl. rewrite mk_opp in Hf.
    destruct (rotate_ok _ _ _ _ _ _ _ _ _ _ Hf) as (s1 & -> & H1 & D1).
    cbn [mbind option_bind]. apply focus_near in H1. destruct (insert_outer _ _ _ _ _ _ _ _ H1) as (st' & E & H' & D).
    rewrite addr_mk in E.
    rewrite E. exists st', pa. eexists. split; [done |]. split; [exact H' |]. split; [by rewrite D1 |]. by right.
Qed.

(** Where the loop ends: the parent is black or there is none. *)
Lemma insert_stop fuel st k d x a y :
  focus st k (mk d Red x a y) -> match k with [] => True | f :: _ => f_color f = Black end -> insert_loop fuel a st = Some st.
Proof.
  intros H Hk. destruct (get_focus _ _ _ _ _ _ _ H) as (n & En & _ & _ & Hp & _). destruct (up_good _ _ _ H) as [_ Hu].
  destruct k as [|f k]; [destruct fuel; simpl; rewrite En; cbn [mbind option_bind]; by rewrite Hp |].
  apply focus_fill in H. destruct (get_focus _ _ _ _ _ _ _ H) as (m & Em & _ & _ & _ & _ & Hr & _ & Ha). rewrite Hk in Hr.
  destruct fuel; simpl; rewrite En; cbn [mbind option_bind]; rewrite Hp; simpl hole_up;
    rewrite (proj2 (Z.eqb_neq _ _) Ha), Em; cbn [mbind option_bind]; by rewrite Hr.
Qed.

(** One turn: the parent is red. *)
Lemma insert_turn fuel st k d e x a y pa s f u :
  focus st k (mk (f_side f) Black (mk e Red (mk d Red x a y) pa s) (f_addr f) u) ->
  exists g, get (f_addr f) st = Some g /\
    insert_loop (S fuel) a st = ('(node, st) ← insert_side (f_side f) a pa (f_addr f) g st; insert_loop fuel node st).
Proof.
  intros H. destruct (get_focus _ _ _ _ _ _ _ H) as (g & Eg & _). exists g. split; [done |].
  pose proof (proj1 (focus_near _ _ _ _ _ _ _) H) as Hp. pose proof (proj1 (focus_near _ _ _ _ _ _ _) Hp) as Hn.
  destruct (get_focus _ _ _ _ _ _ _ Hn) as (n & En & _ & _ & Hpn & _).
  destruct (get_focus _ _ _ _ _ _ _ Hp) as (p & Ep & _ & _ & Hpp & _ & Hr & _ & Hp0).
  pose proof (side_of _ _ _ _ _ _ _ _ H Eg) as Hs. rewrite addr_mk in Hs. destruct (Hs (or_introl Hp0)) as [Hside _].
  simpl. rewrite En. cbn [mbind option_bind]. rewrite Hpn. simpl hole_up. rewrite (proj2 (Z.eqb_neq _ _) Hp0), Ep.
  cbn [mbind option_bind].
  rewrite Hr, bool_decide_true by done. rewrite Hpp. simpl hole_up. rewrite Eg. cbn [mbind option_bind]. by rewrite Hside.
Qed.

Definition blacken (t : tree) : tree := match t with E => E | N _ l a r => N Black l a r end.

Lemma valid_blacken t : rb_valid t -> exists m, bh (blacken t) m.
Proof. intros [Hc Hn]. destruct t as [|[] l a r]; done. Qed.

Lemma mk_side d d' c x a y : exists x' y', mk d c x a y = mk d' c x' a y'.
Proof. destruct d, d'; by do 2 eexists. Qed.

(** What insertion returns with: a tree of the nodes [L] in order that is valid once its root is black. *)
Definition inserted (L : list Z) (st : rb_root) (r : option rb_root) : Prop :=
  exists st' t, r = Some st' /\ repr st' t /\ elems t = L /\ (exists m, bh (blacken t) m) /\ same_dom st st'.

Lemma inserted_step k L t t' s1 st r : inserted L s1 r -> L = elems (plug k t') -> same_dom st s1 ->
  elems t' = elems t -> inserted (elems (plug k t)) st r.
Proof.
  intros (st' & t1 & E & Hr & He & Hv & D2) -> D1 Ht. exists st', t1.
  split_and!; [done | done | rewrite He; by apply inorder_congr | done | by rewrite D1].
Qed.

Lemma insert_end fuel st k d x a y n :
  focus st k (mk d Red x a y) -> bh (mk d Red x a y) n -> kwf k Black n -> match k with [] => True
    | f :: _ => f_color f = Black end ->
  inserted (elems (plug k (mk d Red x a y))) st (insert_loop fuel a st).
Proof.
  intros H Hb Hk Hf. exists st, (plug k (mk d Red x a y)). split; [by eapply insert_stop |].
  split; [by apply repr_focus |]. split; [done |]. split; [| done].
  destruct k as [|[e c pa s] k].
  - exists (S n). apply bh_red in Hb. destruct d; simpl; naive_solver.
  - apply valid_blacken, (plug_valid _ _ n Hb). rewrite root_color_mk. simpl in *. by subst c.
Qed.

Lemma insert_loop_ok fuel : forall k d x a y n st, (length k <= fuel)%nat ->
  focus st k (mk d Red x a y) -> bh (mk d Red x a y) n -> kwf k Black n ->
    inserted (elems (plug k (mk d Red x a y))) st (insert_loop fuel a st).
Proof.
  induction fuel as [|fuel IH]; intros k d x a y n st Hlen H Hb Hk; [destruct k; [by eapply insert_end | simpl in Hlen; lia] |].
  destruct k as [|[e [] pa s] k]; [by eapply insert_end | | by eapply insert_end]. destruct Hk as (_ & Hsc & Hs & Hk).
  destruct k as [|[d0 [] ga u] k]; [done | by destruct Hk |]. destruct Hk as [Hu Hk]. simpl in Hlen.
  destruct (mk_side d d0 Red x a y) as (x' & y' & E). rewrite E in *. clear d x y E. rename x' into x, y' into y, d0 into d.
  rewrite !focus_fill in H. unfold fill in H. simpl in H.
  destruct (insert_turn fuel _ _ _ _ _ _ _ _ _ (Frame d Black ga u) _ H) as (g & Eg & ->). simpl in Eg |- *.
  change (plug (?f :: ?f' :: k) ?t) with (plug k (fill f' (fill f t))). unfold fill. cbn [f_side f_color f_addr f_sib].
  assert (root_color u = Red \/ root_color u = Black) as [Huc|Huc] by (destruct (root_color u); auto).
  - destruct u as [|[] ux ua uy]; [done | | done].
    destruct (insert_red _ _ _ _ _ _ _ _ _ _ _ _ a H Eg) as (s1 & -> & H1 & D1). cbn [mbind option_bind].
    eapply inserted_step; [eapply (IH k _ _ _ _ (S n) _ ltac:(lia) H1) | done | done | by destruct d, e]; [| done].
    apply bh_red. rewrite root_color_mk. split_and!; [done | done | by apply bh_black | simpl in Hu |- *; tauto].
  - destruct (insert_black _ _ _ _ _ _ _ _ _ _ _ _ H Eg Huc) as (s1 & node & t & -> & H1 & D1 & Ht).
    cbn [mbind option_bind]. apply bh_red in Hb.
    destruct Ht as [(-> & -> & ->) | (-> & -> & ->)]; apply focus_near in H1.
    + eapply inserted_step; [eapply (insert_end _ _ _ _ _ _ _ n H1); [by apply bh_red | | done] | done | done | by inorder d].
      split; [by apply bh_red | done].
    + eapply inserted_step; [eapply (insert_end _ _ _ _ _ _ _ n H1); [apply bh_red; naive_solver | | done] | done
        | done | by inorder d].
      split; [apply bh_red; naive_solver | done].
Qed.

Lemma repr_top_black st t : repr st t -> t <> E -> exists st', rb_set_black (rb_top st) st = Some st' /\
  repr st' (blacken t) /\ same_dom st st'.
Proof.
  intros H Ht. destruct t as [|c l a r]; [done |]. rewrite (r_top _ _ H). apply (repr_focus _ []) in H.
  destruct (set_black_focus _ _ Left _ _ _ _ H) as (st' & E & H' & D). exists st'. split; [done |].
  split; [by apply (repr_focus _ []) in H' | done].
Qed.

Lemma blacken_valid t m : bh (blacken t) m -> rb_valid (blacken t).
Proof. intros H. split; [by destruct t | by exists m]. Qed.

Lemma elems_blacken t : elems (blacken t) = elems t.
Proof. by destruct t. Qed.

(** [rb_insert_color] on a tree that is valid but for a red node whose parent may be red. *)
Lemma insert_color_ok st k x a y n :
  focus st k (N Red x a y) -> bh (N Red x a y) n -> kwf k Black n ->
  exists st' t, rb_insert_color a st = Some st' /\ repr st' t /\ rb_valid t /\
    elems t = elems (plug k (N Red x a y)) /\ same_dom st st'.
Proof.
  intros H Hb Hk. pose proof (focus_fuel _ _ _ H) as Hfuel. unfold rb_insert_color.
  destruct (insert_loop_ok (size (nodes st)) k Left x a y n st ltac:(lia) H Hb Hk) as (s1 & t & ->
    & Hr & He & [m Hv] & D1). cbn [mbind option_bind].
  destruct (repr_top_black s1 t Hr) as (s2 & E & H2 & D2); [intros ->; rewrite inorder_plug in He; simpl in He;
    assert (a ∈ []) by (rewrite He; set_solver); set_solver |].
  exists s2, (blacken t). split_and!; [done | done | by eapply blacken_valid | by rewrite elems_blacken | by rewrite D1].
Qed.

(** The side of the parent on which the hole is. *)
Definition hole_side (k : ctx) : side := match k with [] => Left | f :: _ => f_side f end.

(** [rb_link_node] at an empty place. *)
Lemma rb_link_ok st k node :
  focus st k E -> good_addr node -> node ∉ ctx_elems k ->
  exists st', rb_link_node node (hole_up k) (hole_side k) st = Some st' /\ focus st' k (N Red E node E) /\
    dom (nodes st') = {[node]} ∪ dom (nodes st).
Proof.
  intros [_ H2 H3 H4] Hg Hn. unfold rb_link_node. simpl in *. set (s0 := RbRoot _ (rb_top st)).
  assert (repk (nodes s0) (rb_top s0) k 0) as K0.
  { eapply repk_agree; [| exact H2]. intros q Hq. unfold s0. cbn. rewrite lookup_insert_ne; [done | by intros ->]. }
  assert (get node s0 = Some (RbNode (hole_up k .| code Red) 0 0)) as En0 by (unfold get, s0; cbn;
    by rewrite lookup_insert_eq, Z.lor_0_r).
  assert (dom (nodes s0) = {[node]} ∪ dom (nodes st)) as D0 by (unfold s0; cbn; apply dom_insert_L). clearbody s0.
  destruct k as [|f k]; simpl.
  - eexists. split; [reflexivity |]. split; [split; simpl | done]; [done | done | | by constructor]. apply NoDup_singleton.
  - simpl in K0. destruct K0 as (Ef & Hs & Hk). rewrite ctx_elems_cons in *. fold (get (f_addr f) s0) in Ef.
    apply not_elem_of_cons in Hn as [Hf Hn].
    pose proof H4 as Hga. apply Forall_cons in Hga as [[Hf0 _] _]. rewrite (proj2 (Z.eqb_neq _ _)) by lia.
    pose proof H3 as Hnd. apply NoDup_cons in Hnd as [Hfn _]. notins.
    destruct (modify_only (set_child (f_side f) node) _ _ _ Ef) as (s1 & E1 & F1 & O1 & T1). rewrite E1. carry O1.
    exists s1. split; [done |]. split; [split; simpl | by rewrite (only_dom _ _ _ O1)].
    + done.
    + split_and!; [etransitivity; [exact F1 |]; by destruct (f_side f) | done |]. by rewrite T1.
    + constructor; [| done]. rewrite !not_elem_of_cons, not_elem_of_app. done.
    + by constructor.
Qed.

(** ** Deletion *)

Lemma bh_black_nonempty d t n : bh t (S n) -> root_color t = Black -> exists x a y, t = mk d Black x a y /\ bh x n /\ bh y n.
Proof.
  destruct t as [|[] l a r]; [done | done |]. intros H _. destruct (mk_side Left d Black l a r) as (x & y & E).
  simpl in E. rewrite E in *. apply bh_black in H. eauto 6.
Qed.

(** The hole lacks one black node: it has height [n], the sibling [S n]. *)
Lemma erase_red_ok st k d c pa s t n p o :
  focus st k (mk d c t pa s) -> kwf (Frame d c pa s :: k) Black (S n) -> get pa st = Some p -> get (addr s) st = Some o ->
  exists st' c' x b y k', erase_red d pa (addr s) o st = Some (b, st') /\ focus st' k' (mk d c' t pa (mk d Black x b y)) /\
    kwf (Frame d c' pa (mk d Black x b y) :: k') Black (S n) /\
      elems (plug k' (mk d c' t pa (mk d Black x b y))) = elems (plug k (mk d c t pa s)) /\
    (c' = Red \/ k' = k) /\ same_dom st st'.
Proof.
  intros H Hk Ep Eo. assert (root_color s = Red \/ root_color s = Black) as [Hs|Hs] by (destruct (root_color s); auto);
    unfold erase_red.
  - destruct c; [by destruct Hk as (_ & Hb & _); rewrite Hb in Hs |]. destruct Hk as [Hb Hk].
    destruct s as [|[] l b r]; [done | | done]. destruct (mk_side Left d Red l b r) as (x & y & E). simpl in E.
    rewrite E in *. rewrite addr_mk in *.
    apply bh_red in Hb as (Hxc & Hyc & Hx & Hy). apply focus_far in H.
    destruct (get_focus _ _ _ _ _ _ _ H) as (o' & Eo' & _ & _ & _ & _ & Hr & _). replace o' with o in Hr by congruence.
    rewrite Hr, bool_decide_true by done.
    destruct (set_black_focus _ _ _ _ _ _ _ H) as (s1 & -> & H1 & D1). cbn [mbind option_bind]. apply focus_far in H1.
    destruct (set_red_focus _ _ _ _ _ _ _ H1) as (s2 & -> & H2 & D2). cbn [mbind option_bind].
    destruct (rotate_ok _ _ _ _ _ _ _ _ _ _ H2) as (s3 & -> & H3 & D3). cbn [mbind option_bind]. apply focus_near in H3.
    destruct (get_focus _ _ _ _ _ _ _ H3) as (p' & -> & _ & Ho & _). cbn [mbind option_bind]. rewrite Ho.
    destruct (bh_black_nonempty d x n Hx Hxc) as (x1 & xb & x2 & -> & Hx1 & Hx2). rewrite addr_mk.
    exists s3, Red, x1, xb, x2. eexists. split; [done |]. split; [exact H3 |].
    split; [simpl; rewrite root_color_mk; naive_solver |].
    split; [apply (inorder_congr k); by inorder d |]. split; [by left | by rewrite D1, D2, D3].
  - assert (bh s (S n)) as Hb by (destruct c; simpl in Hk; naive_solver).
    destruct (bh_black_nonempty d s n Hb Hs) as (x & b & y & -> & Hx & Hy). rewrite addr_mk in *.
    apply focus_far in H. destruct (get_focus _ _ _ _ _ _ _ H) as (o' & Eo' & _ & _ & _ & _ & Hr & _).
    replace o' with o in Hr by congruence. rewrite Hr.
    apply focus_far in H. exists st, c, x, b, y, k. split_and!; [done | done | done | done | by right | done].
Qed.

(** The last rotation. *)
Lemma erase_final_ok st k d c pa t x b l ya r n :
  focus st k (mk d c t pa (mk d Black x b (N Red l ya r))) -> bh t n -> root_color t = Black ->
  kwf (Frame d c pa (mk d Black x b (N Red l ya r)) :: k) Black (S n) ->
  exists st' t', erase_final d pa b st = Some st' /\ repr st' t' /\ rb_valid t' /\
    elems t' = elems (plug k (mk d c t pa (mk d Black x b (N Red l ya r)))) /\ same_dom st st'.
Proof.
  intros H Ht Htc Hk. unfold erase_final. destruct (get_focus _ _ _ _ _ _ _ H) as (p & -> & _ & _ & _ & Hc & _).
  cbn [mbind option_bind]. rewrite Hc.
  apply focus_far in H. destruct (set_color_focus _ _ _ _ c _ _ _ H) as (s1 & -> & H1 & D1). cbn [mbind option_bind].
  apply focus_far in H1.
  destruct (set_black_focus _ _ _ _ _ _ _ H1) as (s2 & -> & H2 & D2). cbn [mbind option_bind]. apply focus_far in H2.
  destruct (get_focus _ _ _ _ _ _ _ H2) as (o & -> & _ & Ho & _). cbn [mbind option_bind]. rewrite Ho.
  apply (proj1 (focus_far _ _ _ _ _ _ _)) in H2. simpl addr.
  destruct (set_black_focus _ _ Left _ _ _ _ H2) as (s3 & -> & H3 & D3). cbn [mbind option_bind].
  do 2 apply (proj2 (focus_far _ _ _ _ _ _ _)) in H3.
  destruct (rotate_ok _ _ _ _ _ _ _ _ _ _ H3) as (s4 & -> & H4 & D4).
  exists s4. eexists. split; [done |]. split; [by apply repr_focus |].
  split; [| split; [apply inorder_congr; by inorder d | by rewrite D1, D2, D3, D4]].
  destruct c; simpl in Hk.
  - destruct Hk as (_ & _ & Hb & Hk). apply bh_black in Hb as [Hx Hy]. simpl in Hy.
    apply (plug_valid _ _ (S n)); [| by rewrite root_color_mk].
    apply bh_red. rewrite root_color_mk. split_and!; [done | done | by apply bh_black | simpl; tauto].
  - destruct Hk as (Hb & Hk). apply bh_black in Hb as [Hx Hy]. simpl in Hy.
    apply (plug_valid _ _ (S (S n))); [| by rewrite root_color_mk].
    apply bh_black. split; [by apply bh_black | simpl; tauto].
Qed.

(** The far child made red. *)
Lemma erase_inner_ok st k d c pa t x b y n o :
  focus st k (mk d c t pa (mk d Black x b y)) -> kwf (Frame d c pa (mk d Black x b y) :: k) Black (S n) -> get b st = Some o ->
  ~ (root_color x = Black /\ root_color y = Black) ->
  exists st' x' b' l ya r, erase_inner d pa b o st = Some (b', st') /\
    focus st' k (mk d c t pa (mk d Black x' b' (N Red l ya r))) /\
    kwf (Frame d c pa (mk d Black x' b' (N Red l ya r)) :: k) Black (S n) /\
    elems (plug k (mk d c t pa (mk d Black x' b' (N Red l ya r)))) = elems (plug k (mk d c t pa (mk d Black x b y))) /\
      same_dom st st'.
Proof.
  intros H Hk Eo Hxy. pose proof (proj1 (focus_far _ _ _ _ _ _ _) H) as Hf.
  destruct (get_focus _ _ _ _ _ _ _ Hf) as (o' & Eo' & Hnear & Hfar & _). replace o' with o in * by congruence.
  pose proof (proj1 (focus_far _ _ _ _ _ _ _) Hf) as Hy. unfold erase_inner.
  rewrite Hfar, (is_black_focus _ _ _ Hy), Hnear. cbn [mbind option_bind].
  assert (bh x n /\ bh y n) as [Hx Hyb] by (apply (bh_black d _ b); destruct c; simpl in Hk; naive_solver).
  destruct (decide (root_color y = Black)) as [Hyc|Hyc].
  - rewrite bool_decide_true by done. destruct x as [|[] xl xb xr]; simpl in Hxy; [tauto | | tauto].
    destruct (mk_side Left d Red xl xb xr) as (x1 & x2 & E). simpl in E. rewrite E in *.
    apply bh_red in Hx as (Hc1 & Hc2 & Hx1 & Hx2). rewrite addr_mk. apply (proj1 (focus_near _ _ _ _ _ _ _)) in Hf.
    destruct (set_black_focus _ _ _ _ _ _ _ Hf) as (s1 & -> & H1 & D1). cbn [mbind option_bind]. apply focus_near in H1.
    destruct (set_red_focus _ _ _ _ _ _ _ H1) as (s2 & -> & H2 & D2). cbn [mbind option_bind].
    destruct (rotate_opp_ok _ _ _ _ _ _ _ _ _ _ H2) as (s3 & -> & H3 & D3). cbn [mbind option_bind].
    apply (proj2 (focus_far _ _ _ _ _ _ _)) in H3.
    destruct (get_focus _ _ _ _ _ _ _ H3) as (p' & -> & _ & Ho & _). cbn [mbind option_bind]. rewrite Ho, addr_mk.
    destruct (mk_side d Left Red x2 b y) as (l & r & E2). rewrite E2 in H3. assert (bh (N Red l b r) n) as Hb2.
    { change (N Red l b r) with (mk Left Red l b r). rewrite <- E2. apply bh_red. done. }
    exists s3, x1, xb, l, b, r. split; [done |]. split; [done |]. split; [| split; [| by rewrite D1, D2, D3]].
    + assert (bh (mk d Black x1 xb (N Red l b r)) (S n)) by (by apply bh_black).
      destruct c; simpl in *; rewrite ?root_color_mk; naive_solver.
    + change (N Red l b r) with (mk Left Red l b r). rewrite <- E2. apply inorder_congr. by inorder d.
  - rewrite bool_decide_false by done. destruct y as [|[] l ya r]; [done | | done]. exists st, x, b, l, ya, r. by split_and!.
Qed.

Lemma both_children st k d c x a y n :
  focus st k (mk d c x a y) -> get a st = Some n ->
  exists b1 b2, is_black_or_null (rb_left n) st = Some b1 /\ is_black_or_null (rb_right n) st = Some b2 /\
    b1 && b2 = bool_decide (root_color x = Black /\ root_color y = Black).
Proof.
  intros H En. destruct (get_focus _ _ _ _ _ _ _ H) as (n' & En' & Hx & Hy & _). replace n' with n in * by congruence.
  pose proof (is_black_focus _ _ _ (proj1 (focus_near _ _ _ _ _ _ _) H)) as Ix.
  pose proof (is_black_focus _ _ _ (proj1 (focus_far _ _ _ _ _ _ _) H)) as Iy. rewrite <- Hx in Ix. rewrite <- Hy in Iy.
  destruct d; simpl in *; do 2 eexists; (split; [eassumption |]); (split; [eassumption |]); rewrite bool_decide_and;
    [done | apply andb_comm].
Qed.

(** What deletion returns with. *)
Definition erased (L : list Z) (st : rb_root) (r : option rb_root) : Prop :=
  exists st' t, r = Some st' /\ repr st' t /\ rb_valid t /\ elems t = L /\ same_dom st st'.

(** One turn of the loop: either it ends with a valid tree, or the hole moves up. *)
Lemma erase_side_ok st k d c pa s t n :
  focus st k (mk d c t pa s) -> kwf (Frame d c pa s :: k) Black (S n) -> bh t n -> root_color t = Black ->
  (exists st' t', erase_side d pa st = Some (rb_top st', 0, true, st') /\ repr st' t' /\ rb_valid t' /\
    elems t' = elems (plug k (mk d c t pa s)) /\ same_dom st st') \/
  (exists st' c' k' x b y, erase_side d pa st = Some (pa, hole_up k', false, st') /\
    focus st' k' (mk d c' t pa (mk d Red x b y)) /\
     bh (mk d Black t pa (mk d Red x b y)) (S n) /\ (c' = Red /\ kwf k' Black (S n) \/ c' = Black /\ k' = k /\
       kwf k Black (S (S n))) /\
     elems (plug k' (mk d c' t pa (mk d Red x b y))) = elems (plug k (mk d c t pa s)) /\ same_dom st st').
Proof.
  intros H Hk Ht Htc. unfold erase_side. destruct (get_focus _ _ _ _ _ _ _ H) as (p & Ep & _ & Hs & _). rewrite Ep.
  cbn [mbind option_bind]. rewrite Hs.
  assert (exists o, get (addr s) st = Some o) as [o Eo].
  { destruct s as [|sc sl sa sr]; [destruct c; simpl in Hk; naive_solver |]. apply focus_far in H.
    destruct (get_focus _ _ Left _ _ _ _ H) as (o & E & _). by exists o. }
  rewrite Eo. cbn [mbind option_bind]. destruct (erase_red_ok _ _ _ _ _ _ _ _ _ _ H Hk Ep Eo)
    as (s1 & c' & x & b & y & k' & -> & H1 & Hk1 & He & Hc' & D1).
  cbn [mbind option_bind]. clear H p Ep Hs o Eo.
  assert (bh x n /\ bh y n) as [Hx Hy] by (apply (bh_black d _ b); destruct c'; simpl in Hk1; naive_solver).
  pose proof (proj1 (focus_far _ _ _ _ _ _ _) H1) as Hf.
  destruct (get_focus _ _ _ _ _ _ _ Hf) as (o & Eo & Hnear & Hfar & _). rewrite Eo. cbn [mbind option_bind].
  destruct (both_children _ _ _ _ _ _ _ _ Hf Eo) as (b1 & b2 & -> & -> & Hb). cbn [mbind option_bind]. rewrite Hb. clear b1 b2 Hb.
  destruct (decide (root_color x = Black /\ root_color y = Black)) as [[Hxc Hyc] | Hxy].
  - right. rewrite bool_decide_true by done. destruct (set_red_focus _ _ _ _ _ _ _ Hf) as (s2 & -> & H2 & D2).
    cbn [mbind option_bind]. apply focus_far in H2.
    destruct (get_focus _ _ _ _ _ _ _ H2) as (p & -> & _ & _ & Hp & _). cbn [mbind option_bind]. rewrite Hp.
    exists s2, c', k', x, b, y.
    split; [done |]. split; [done |]. split; [apply bh_black; split; [done | by apply bh_red] |].
    split; [| split; [| by rewrite D1]].
    + destruct c'; simpl in Hk1; [left; naive_solver eauto using kwf_black |]. right.
      destruct Hc' as [? | ->]; [done |]. naive_solver.
    + rewrite <- He. apply inorder_congr. by inorder d.
  - left. rewrite bool_decide_false by done.
    destruct (erase_inner_ok _ _ _ _ _ _ _ _ _ _ _ H1 Hk1 Eo Hxy) as (s2 & x' & b' & l & ya & r & ->
      & H2 & Hk2 & He2 & D2). cbn [mbind option_bind].
    destruct (erase_final_ok _ _ _ _ _ _ _ _ _ _ _ _ H2 Ht Htc Hk2) as (s3 & t' & -> & H3 & Hv & He3 & D3).
    cbn [mbind option_bind].
    exists s3, t'. split; [done |]. split; [done |]. split; [done |]. split; [by rewrite He3, He2, He | by rewrite D1, D2, D3].
Qed.

(** The end of the loop and the line after it. *)
Definition erase_finish (r : option (Z * rb_root)) : option rb_root :=
  '(node, st) ← r; if node =? 0 then Some st else rb_set_black node st.

Lemma erase_exit st k t n :
  focus st k t -> bh (blacken t) n -> kwf k Black n -> erased (elems (plug k t)) st (erase_finish (Some (addr t, st))).
Proof.
  intros H Hb Hk. unfold erase_finish. cbn [mbind option_bind]. destruct t as [|c l a r]; simpl in Hb; simpl addr.
  - exists st, (plug k E). split_and!; [done | by apply repr_focus | by eapply plug_valid | done | done].
  - destruct (get_focus _ _ Left _ _ _ _ H) as (_ & _ & _ & _ & _ & _ & _ & _ & Ha). rewrite (proj2 (Z.eqb_neq _ _) Ha).
    destruct (set_black_focus _ _ Left _ _ _ _ H) as (s1 & E & H1 & D1). exists s1. eexists. split; [exact E |].
    split; [by apply repr_focus |].
    split; [exact (plug_valid k (N Black l a r) n Hb Hk) | split; [by apply inorder_congr | done]].
Qed.

Lemma addr_plug k : forall f t, addr (plug (f :: k) t) ∈ ctx_elems (f :: k).
Proof.
  induction k as [|g k IH]; intros f t; [unfold plug, fill; simpl; rewrite addr_mk; set_solver |].
  change (plug (f :: g :: k) t) with (plug (g :: k) (fill f t)). rewrite (ctx_elems_cons f).
  specialize (IH g (fill f t)). set_solver.
Qed.

Lemma not_top st f k t : focus st (f :: k) t -> addr t <> rb_top st.
Proof.
  intros H. pose proof H as Hr. apply repr_focus in Hr. rewrite (r_top _ _ Hr). pose proof (addr_plug k f t) as Hi.
  intros E. rewrite <- E in Hi.
  destruct H as [_ _ Hnd Hg]. destruct t as [|c l a r]; simpl in Hi.
  - by apply (good_nonzero _ (proj2 (proj1 (Forall_app _ _ _) Hg))).
  - apply NoDup_app in Hnd as (_ & Hd & _). apply (Hd a); [simpl; set_solver | done].
Qed.

Lemma erase_stop fuel st k t : focus st k t -> root_color t = Red \/ k = [] ->
  erase_loop fuel (addr t) (hole_up k) st = Some (addr t, st).
Proof.
  intros H Hs. assert ((bool_decide (root_color t = Black)) && negb (addr t =? rb_top st) = false) as Hb.
  { destruct Hs as [-> | ->]; [done |]. apply (repr_focus _ []) in H. rewrite (r_top _ _ H), Z.eqb_refl. apply andb_false_r. }
  destruct fuel; simpl; rewrite (is_black_focus _ _ _ H); cbn [mbind option_bind]; by rewrite Hb.
Qed.

Lemma erase_turn fuel st k d c t pa s :
  focus st k (mk d c t pa s) -> root_color t = Black -> addr t <> 0 \/ addr s <> 0 ->
  erase_loop (S fuel) (addr t) pa st =
    ('(node, parent, stop, st) ← erase_side d pa st; if (stop : bool) then Some (node, st) else erase_loop fuel node parent st).
Proof.
  intros H Ht Hne. pose proof (proj1 (focus_near _ _ _ _ _ _ _) H) as Hf. simpl. rewrite (is_black_focus _ _ _ Hf), Ht.
  cbn [mbind option_bind]. rewrite bool_decide_true by done.
  rewrite (proj2 (Z.eqb_neq _ _) (not_top _ _ _ _ Hf)). simpl. destruct (get_focus _ _ _ _ _ _ _ H) as (p & Ep & _).
  rewrite Ep. cbn [mbind option_bind].
  by destruct (side_of _ _ _ _ _ _ _ _ H Ep Hne) as [_ ->].
Qed.

Lemma erased_step L s1 st r L' : erased L s1 r -> same_dom st s1 -> L = L' -> erased L' st r.
Proof.
  intros (st' & t1 & E & Hr & Hv & He & D2) D1 Ht. exists st', t1.
  split_and!; [done | done | done | by rewrite He | by rewrite D1].
Qed.

(** The hole has height [n] where the context has [S n]; a red tree in it makes up for that when it becomes black. *)
Definition short (t : tree) (n : nat) : Prop := root_color t = Black /\ bh t n \/ root_color t = Red /\ bh (blacken t) (S n).

Lemma blacken_black t : root_color t = Black -> blacken t = t.
Proof. by destruct t as [|[] l a r]. Qed.

Lemma erase_loop_stop fuel k t n st :
  focus st k t -> short t n -> kwf k Black (S n) -> root_color t = Red \/ k = [] ->
    erased (elems (plug k t)) st (erase_finish (erase_loop fuel (addr t) (hole_up k) st)).
Proof.
  intros H Ht Hk Hs. rewrite (erase_stop _ _ _ _ H Hs). destruct Ht as [[Hc Ht] | [Hc Ht]]; [| by eapply erase_exit].
  destruct Hs as [Hr | ->]; [by rewrite Hr in Hc |]. apply (erase_exit _ _ _ n); [done | by rewrite blacken_black | done].
Qed.

Lemma erase_loop_ok fuel : forall k t n st, (length k <= fuel)%nat -> focus st k t -> short t n -> kwf k Black (S n) ->
  erased (elems (plug k t)) st (erase_finish (erase_loop fuel (addr t) (hole_up k) st)).
Proof.
  induction fuel as [|fuel IH]; intros k t n st Hlen H Ht Hk;
    [destruct k; [eapply erase_loop_stop; eauto | simpl in Hlen; lia] |].
  destruct (decide (root_color t = Red)) as [Hr|Hr]; [eapply erase_loop_stop; eauto |].
  destruct k as [|[d c pa s] k]; [eapply erase_loop_stop; eauto |]. simpl in Hlen.
  destruct Ht as [[Hc Ht] | [? _]]; [| done]. assert (bh s (S n)) as Hs by (destruct c; simpl in Hk; naive_solver).
  apply focus_fill in H. unfold fill in H. simpl in H.
  assert (addr s <> 0) as Hs0.
  { destruct s as [|sc sl sa sr]; [done |]. pose proof (proj1 (focus_far _ _ _ _ _ _ _) H) as Hf.
    by destruct (get_focus _ _ Left _ _ _ _ Hf) as (_ & _ & _ & _ & _ & _ & _ & _ & ?). }
  simpl hole_up. rewrite (erase_turn _ _ _ _ _ _ _ _ H Hc (or_intror Hs0)).
  destruct (erase_side_ok _ _ _ _ _ _ _ _ H Hk Ht Hc) as [(s1 & t' & -> & H1 & Hv & He & D1)
    | (s1 & c' & k' & x & b & y & -> & H1 & Hb & Hk' & He & D1)]; cbn [mbind option_bind].
  - destruct (valid_blacken _ Hv) as [m Hm]. rewrite (r_top _ _ H1). apply (erased_step (elems (plug [] t')) s1);
      [| done | done]. apply (erase_exit _ [] _ m); [by apply (repr_focus _ []) | done | done].
  - apply (erased_step (elems (plug k' (mk d c' t pa (mk d Red x b y)))) s1); [| done | done].
    replace pa with (addr (mk d c' t pa (mk d Red x b y))) at 2 by apply addr_mk.
    destruct Hk' as [[-> Hk'] | (-> & -> & Hk')].
    + apply (erase_loop_stop _ _ _ n); [done | right; split; [by rewrite root_color_mk |] | done | left;
        by rewrite root_color_mk]. by destruct d.
    + apply (IH _ _ (S n)); [lia | done | left; by rewrite root_color_mk | done].
Qed.

Lemma erase_color_ok st k t n :
  focus st k t -> short t n -> kwf k Black (S n) -> erased (elems (plug k t)) st (__rb_erase_color (addr t) (hole_up k) st).
Proof. intros H Ht Hk. pose proof (focus_fuel _ _ _ H). apply (erase_loop_ok _ _ _ n); [lia | done | done | done]. Qed.

End RbTreeColor.
