(* ===== verification/RbTreeErase.v ===== *)
(** * Red-black trees: taking nodes out, and walking

    rb_erase, rb_first, rb_last, rb_next, rb_prev and rb_replace_node of
    lib/rbtree.c on a heap that holds a tree. *)
From S2P Require Import Prelude RbTree RbTreeColor.

Module RbTreeErase.
Import RbTree RbTreeColor.

(** ** Part of a context, below the node [p] *)

Definition up_to (p : Z) (k : ctx) : Z := match k with [] => p | f :: _ => f_addr f end.

Fixpoint seg (h : gmap Z rb_node) (p : Z) (k : ctx) (x : Z) : Prop :=
  match k with
  | [] => True
  | f :: k =>
      h !! f_addr f = Some (set_child (f_side f) x (set_child (opp (f_side f)) (addr (f_sib f))
        (RbNode (up_to p k .| code (f_color f)) 0 0))) /\
      rep h (f_addr f) (f_sib f) /\ seg h p k (f_addr f)
  end.

Lemma rep_seg h p k : forall t, rep h p (plug k t) <-> rep h (up_to p k) t /\ seg h p k (addr t).
Proof.
  induction k as [|f k IH]; intros t; simpl; [tauto |].
  change (foldl (fun t f => fill f t) (fill f t) k) with (plug k (fill f t)). rewrite IH. unfold fill.
  rewrite rep_mk, addr_mk. tauto.
Qed.

Lemma seg_only q st st' p k : forall x, only q st st' -> q ∉ ctx_elems k -> seg (nodes st) p k x -> seg (nodes st') p k x.
Proof.
  induction k as [|f k IH]; intros x Ho Hq; [done |]. rewrite ctx_elems_cons in Hq. notins. simpl.
  intros (Ef & Hs & Hk). split_and!.
  - by rewrite (proj1 Ho) by known.
  - by eapply rep_only.
  - by apply IH.
Qed.

Lemma plug_app k k' t : plug (k ++ k') t = plug k' (plug k t).
Proof. unfold plug. by rewrite foldl_app. Qed.

(** ** Height *)

Fixpoint height (t : tree) : nat := match t with E => O | N _ l _ r => S (height l `max` height r) end.

Lemma bh_size t : forall n, bh t n -> (2 ^ n <= S (length (elems t)))%nat.
Proof.
  induction t as [|[] l IHl a r IHr]; intros n; simpl; [intros ->; simpl; lia | |]; rewrite length_app; simpl.
  - intros (_ & _ & Hl & Hr). specialize (IHl _ Hl). lia.
  - destruct n as [|n]; [done |]. intros [Hl Hr]. specialize (IHl _ Hl). specialize (IHr _ Hr). simpl. lia.
Qed.

Lemma bh_height t : forall n, bh t n -> (height t <= 2 * n + match root_color t with Red => 1 | Black => 0 end)%nat.
Proof.
  induction t as [|[] l IHl a r IHr]; intros n; simpl; [lia | |].
  - intros (Hcl & Hcr & Hl & Hr). specialize (IHl _ Hl). specialize (IHr _ Hr). rewrite Hcl in IHl. rewrite Hcr in IHr. lia.
  - destruct n as [|n]; [done |]. intros [Hl Hr]. specialize (IHl _ Hl). specialize (IHr _ Hr).
    destruct (root_color l), (root_color r); lia.
Qed.

Lemma valid_height t : rb_valid t -> (height t <= 2 * Nat.log2 (S (length (elems t))))%nat.
Proof.
  intros [Hc [n Hb]]. pose proof (bh_size _ _ Hb) as Hs. pose proof (bh_height _ _ Hb) as Hh. rewrite Hc in Hh.
  pose proof (Nat.log2_le_mono _ _ Hs) as Hlog. rewrite Nat.log2_pow2 in Hlog by lia. lia.
Qed.

Lemma height_elems t : (height t <= length (elems t))%nat.
Proof. induction t as [|c l IHl a r IHr]; simpl; [lia |]. rewrite length_app. simpl. lia. Qed.

Lemma height_mk d c x a y : height (mk d c x a y) = S (height x `max` height y).
Proof. destruct d; simpl; lia. Qed.

Lemma height_plug k : forall t, (length k + height t <= height (plug k t))%nat.
Proof.
  induction k as [|f k IH]; intros t; simpl; [lia |]. change (foldl (fun t f => fill f t) (fill f t) k) with (plug k (fill f t)).
  specialize (IH (fill f t)). unfold fill in IH at 1. rewrite height_mk in IH. lia.
Qed.

(** ** The outermost node on a side *)

Lemma descend_ok d fuel : forall t k st, focus st k t -> t <> E -> (height t <= fuel)%nat ->
  exists kr c a y, t = plug kr (mk d c E a y) /\ Forall (fun f => f_side f = d) kr /\ descend fuel d (addr t) st = Some a.
Proof.
  induction fuel as [|fuel IH]; intros t k st H Ht Hlen; (destruct t as [|c l a r]; [done |]); [simpl in Hlen; lia |].
  destruct (mk_side Left d c l a r) as (x & y & Et). simpl in Et. rewrite Et in *.
  destruct (get_focus _ _ _ _ _ _ _ H) as (n & En & Hx & _).
  rewrite addr_mk. simpl descend. rewrite En. cbn [mbind option_bind]. rewrite Hx. destruct x as [|xc xl xa xr].
  - exists [], c, a, y. by split_and!.
  - apply focus_near in H. destruct (get_focus _ _ Left _ _ _ _ H) as (_ & _ & _ & _ & _ & _ & _ & _ & Ha).
    rewrite height_mk in Hlen.
    destruct (IH _ _ _ H) as (kr & c' & b & z & Ex & Hkr & Ed); [done | lia |]. simpl addr in *.
    rewrite (proj2 (Z.eqb_neq _ _) Ha).
    exists (kr ++ [Frame d c a y]), c', b, z. split; [by rewrite plug_app, <- Ex |].
    split; [by apply Forall_app; split; [| constructor] | done].
Qed.

Lemma descend_focus d t k st :
  focus st k t -> t <> E -> exists kr c a y, t = plug kr (mk d c E a y) /\ Forall (fun f => f_side f = d) kr /\
    descend (size (nodes st)) d (addr t) st = Some a.
Proof.
  intros H Ht. pose proof (focus_fuel _ _ _ H). pose proof (height_elems t). apply (descend_ok d _ _ k); [done | done | lia].
Qed.

(** ** Taking out a node with at most one child *)

Lemma erase_one_ok st k d c a t n :
  focus st k (mk d c E a t) -> get a st = Some n ->
  exists st', erase_one a (addr t) n st = Some (addr t, hole_up k, code c, st') /\ focus st' k t /\ same_dom st st'.
Proof.
  intros H En. destruct (get_focus _ _ _ _ _ _ _ H) as (n' & En' & _ & _ & Hp & Hc & _ & _ & Ha).
  replace n' with n in * by congruence.
  destruct (up_good _ _ _ H) as [Hu _]. destruct H as [H1 H2 H3 H4]. apply rep_mk in H1 as (_ & _ & Ht).
  rewrite addr_mk in H2. rewrite elems_mk in H3, H4. cbn [elems app] in H3, H4.
  apply (Forall_app _ (a :: elems t)) in H4 as [Hga Hgk]. pose proof (up_notin k (a :: elems t) H3 Hga) as Hk.
  apply Forall_cons in Hga as [[Ha0 Ha4] Hgt].
  parts H3. notins. assert (addr t ∉ ctx_elems k) as Hat by (apply addr_notin; [done | by apply good_nonzero]).
  unfold erase_one. rewrite Hp, Hc. destruct (reparent a (hole_up k) t st) as (s1 & -> & T1 & O1 & Top1);
    [done | done | done | done | done |]. carry O1. cbn [mbind option_bind].
  destruct (replace_child_ok Left k a (addr t) s1) as (s2 & -> & K2 & O2);
    [by rewrite Top1 | done | done | done | done |]. carry O2. cbn [mbind option_bind].
  exists s2. split; [done |]. split; [| by rewrite (only_dom _ _ _ O1), (only_dom _ _ _ O2)].
  split; [done | done | | by apply Forall_app]. apply NoDup_app. done.
Qed.

(** ** Taking out a node with two children *)

(** The node [s] takes over what [old] has on its left and above. *)
Lemma erase_tail (st : rb_root) k c l old s T o sn (x p col : Z) :
  get old st = Some o -> rb_parent_color o = hole_up k .| code c -> rb_left o = addr l -> get s st = Some sn ->
    rb_right sn = addr T ->
  rep (nodes st) old l -> rep (nodes st) s T -> repk (nodes st) (rb_top st) k s -> l <> E -> old mod 4 = 0 ->
  NoDup ((s :: elems l ++ elems T) ++ ctx_elems k) -> Forall good_addr ((s :: elems l ++ elems T) ++ ctx_elems k) ->
    old <> s -> old ∉ elems l ->
  exists st', (o ← get old st; st ← modify (set_pc (rb_parent_color o)) s st;
    st ← modify (set_child Left (rb_left o)) s st; st ← rb_set_parent (rb_left o) s st;
    Some (x, p, col, st)) = Some (x, p, col, st') /\ focus st' k (N c l s T) /\ same_dom st st'.
Proof.
  intros Eo Hpc Hol Es HsT Hl HT Hk Hne Hold Hnd Hg Hos Hol2. rewrite Eo. cbn [mbind option_bind]. rewrite Hpc, Hol.
  assert (Forall good_addr (elems l) /\ good_addr s) as [Hgl [_ Hs4]] by (simpl in Hg;
    rewrite Forall_cons, !Forall_app in Hg; tauto).
  assert (addr l <> 0) as Hl0. { destruct l as [|lc ll la lr]; [done |]. simpl in *.
    rewrite Forall_app, Forall_cons in Hgl. destruct Hgl as (_ & [? _] & _). lia. }
  pose proof Hnd as Hnd'. parts Hnd'. assert (addr l ∉ s :: elems T ++ ctx_elems k) as Hal.
  { apply addr_notin; [set_solver |]. apply (Forall_app _ (s :: elems l ++ elems T)) in Hg as [Hg1 Hg2].
    apply good_nonzero. simpl. rewrite Forall_cons, Forall_app in *. tauto. }
  notins.
  destruct (modify_only (set_pc (hole_up k .| code c)) _ _ _ Es) as (s1 & -> & S1 & O1 & T1). carry O1. cbn [mbind option_bind].
  destruct (modify_only (set_child Left (addr l)) _ _ _ S1) as (s2 & -> & S2 & O2 & T2). carry O2. cbn [mbind option_bind].
  destruct (reparent old s l s2) as (s3 & E3 & L3 & O3 & T3); [done | done | done | done | done |].
  rewrite (proj2 (Z.eqb_neq _ _) Hl0) in E3. rewrite E3. carry O3. cbn [mbind option_bind].
  exists s3. split; [done |]. split; [| by rewrite (only_dom _ _ _ O1), (only_dom _ _ _ O2), (only_dom _ _ _ O3)].
  pose proof (elems_mk Left c l s T) as He. simpl in He.
  split; [| by rewrite T3, T2, T1 | simpl elems; by rewrite He | simpl elems; by rewrite He].
  simpl. split; [| done]. etransitivity; [exact S2 |]. unfold set_pc. simpl. by rewrite HsT.
Qed.

Ltac carry_seg Ho :=
  carry Ho; match type of Ho with
  | only ?p ?s ?s' => repeat match goal with H : seg (nodes s) _ _ _ |- _ => apply (seg_only _ _ _ _ _ _ Ho) in H; [| known] end
  end.

(** Another tree in the hole of a context below [p]. *)
Lemma seg_set st p f k x y :
  seg (nodes st) p (f :: k) x -> NoDup (ctx_elems (f :: k)) ->
  exists st', modify (set_child (f_side f) y) (f_addr f) st = Some st' /\ seg (nodes st') p (f :: k) y /\
    only (f_addr f) st st' /\ rb_top st' = rb_top st.
Proof.
  intros (Ef & Hs & Hk) Hnd. rewrite ctx_elems_cons in Hnd. apply NoDup_cons in Hnd as [Hn _]. notins.
  destruct (modify_only (set_child (f_side f) y) _ _ _ Ef) as (s1 & E1 & F1 & O1 & T1). exists s1. split; [done |].
  split; [| done].
  split; [etransitivity; [exact F1 |]; by destruct (f_side f) |]. split; [by eapply rep_only | by eapply seg_only].
Qed.

Lemma two_perm c l old kr cs s r k :
  elems (N c l old (plug kr (N cs E s r))) ++ ctx_elems k ≡ₚ old :: s :: elems l ++ elems r ++ ctx_elems kr ++ ctx_elems k.
Proof.
  change (N c l old ?t) with (mk Left c l old t). rewrite elems_mk, elems_plug. simpl. constructor.
  rewrite <- (Permutation_middle (elems l)). simpl. by rewrite <- !app_assoc.
Qed.

Lemma tail_perm c l s kr r k : elems (N c l s (plug kr r)) ++ ctx_elems k ≡ₚ s :: elems l ++ elems r ++ ctx_elems kr ++
  ctx_elems k.
Proof. change (N c l s ?t) with (mk Left c l s t). rewrite elems_mk, elems_plug. simpl. by rewrite <- !app_assoc. Qed.

Lemma addr_plug_eq k : forall f t t', addr (plug (f :: k) t) = addr (plug (f :: k) t').
Proof.
  induction k as [|g k IH]; intros f t t'; [unfold plug, fill; simpl; by rewrite !addr_mk |].
  change (plug (f :: g :: k) ?x) with (plug (g :: k) (fill f x)). apply IH.
Qed.

(** The way down to [s] is not empty: its right child goes to its place, and it gets what [old] has on the right. *)
Lemma erase_middle st k l old f kr sn s r o :
  get old st = Some o -> rb_right o = addr (plug (f :: kr) r) -> get s st = Some sn -> rb_right sn = addr r ->
  rep (nodes st) old l -> rep (nodes st) s r -> seg (nodes st) old (f :: kr) s -> repk (nodes st) (rb_top st) k s ->
    f_side f = Left ->
  NoDup (old :: s :: elems l ++ elems r ++ ctx_elems (f :: kr) ++ ctx_elems k) ->
    Forall good_addr (old :: s :: elems l ++ elems r ++ ctx_elems (f :: kr) ++ ctx_elems k) ->
  exists st' sn', (st ← (if addr r =? 0 then Some st else rb_set_parent (addr r) (f_addr f) st);
    st ← modify (set_child Left (addr r)) (f_addr f) st;
    o ← get old st; st ← modify (set_child Right (rb_right o)) s st; st ← rb_set_parent (rb_right o) s st;
      Some (f_addr f, st)) = Some (f_addr f, st') /\
    get old st' = Some o /\ get s st' = Some sn' /\ rb_right sn' = addr (plug (f :: kr) r) /\ rep (nodes st') old l /\
      rep (nodes st') s (plug (f :: kr) r) /\
    repk (nodes st') (rb_top st') k s /\ same_dom st st'.
Proof.
  intros Eo Hor Es Hsr L R SG K Hf Hnd Hg.
  assert (Forall good_addr (elems r ++ ctx_elems (f :: kr)) /\ good_addr (f_addr f) /\ good_addr old /\ good_addr s)
    as (Hgr & [Hf0 Hf4] & [_ Ho4] & [_ Hs4]).
  { rewrite ctx_elems_cons in *. rewrite !Forall_cons, !Forall_app, Forall_cons in *. tauto. }
  pose proof (good_nonzero _ Hg) as H0. pose proof Hnd as Hnd'. parts Hnd'.
  assert (addr r ∉ old :: s :: elems l ++ ctx_elems (f :: kr) ++ ctx_elems k) as Har by (apply addr_notin;
    [intros q Hq; notins; disjoint | notins; disjoint]).
  assert (forall q, q ∈ ctx_elems (f :: kr) -> q ∉ old :: s :: elems l ++ elems r ++ ctx_elems k) as Hin
    by (intros q Hq; notins; disjoint).
  pose proof (addr_plug kr f r) as HaR. assert (addr (plug (f :: kr) r) <> 0) as HR0 by (intros E; rewrite E in HaR;
    by notins). pose proof (Hin _ HaR) as HRa.
  assert (f_addr f ∈ ctx_elems (f :: kr)) as Hfi by (rewrite ctx_elems_cons; set_solver).
  apply Hin in Hfi. clear Hin HaR. set (R' := plug (f :: kr) r) in *. notins.
  destruct (reparent s (f_addr f) r st) as (s1 & -> & R1 & O1 & T1);
    [done | done | by apply Forall_app in Hgr as [??] | done | done |]. carry_seg O1. cbn [mbind option_bind].
  rewrite <- Hf. destruct (seg_set _ _ _ _ _ (addr r) SG) as (s2 & -> & SG2 & O2 & T2); [done |]. carry_seg O2.
  cbn [mbind option_bind]. rewrite Eo. cbn [mbind option_bind]. rewrite Hor.
  assert (rep (nodes s2) old R') as HR by (apply rep_seg; done).
  assert (elems R' ≡ₚ elems r ++ ctx_elems (f :: kr)) as HeR by apply elems_plug.
  assert (s ∉ elems R') as HsR by (rewrite HeR; by rewrite not_elem_of_app).
  destruct (modify_only (set_child Right (addr R')) _ _ _ Es) as (s3 & -> & S3 & O3 & T3). carry_seg O3. cbn [mbind option_bind].
  destruct (reparent old s R' s3) as (s4 & E4 & R4 & O4 & T4); [done | rewrite HeR; apply NoDup_app; split_and!;
    [done | intros q Hq; disjoint | done] | by rewrite HeR | done | done |].
  rewrite (proj2 (Z.eqb_neq _ _) HR0) in E4.
  rewrite E4. cbn [mbind option_bind]. carry_seg O4. exists s4. eexists. split; [done |]. split; [done |].
  split; [exact S3 |]. split; [done |]. split; [done |]. split; [done |].
  split; [by rewrite T4, T3, T2, T1 | by rewrite (only_dom _ _ _ O1), (only_dom _ _ _ O2), (only_dom _ _ _ O3),
    (only_dom _ _ _ O4)].
Qed.

(** The first node on the right moves to the place of [old]. *)
Lemma erase_two_ok st k c l old kr cs s r o :
  focus st k (N c l old (plug kr (N cs E s r))) -> l <> E -> Forall (fun f => f_side f = Left) kr -> get old st = Some o ->
  descend (size (nodes st)) Left (rb_right o) st = Some s ->
  exists st', erase_two old o st = Some (addr r, hole_up (kr ++ [Frame Right c s l]), code cs, st') /\
    focus st' k (N c l s (plug kr r)) /\ same_dom st st'.
Proof.
  intros H Hl Hkr Eo Hd. destruct (get_focus _ _ Left _ _ _ _ H) as (o' & Eo' & _ & _ & Hop & _ & _ & _ & Ho0).
  replace o' with o in * by congruence. clear o' Eo'.
  destruct H as [(Eo1 & L & R) K Hnd Hg]. simpl addr in K. apply rep_seg in R as [(Es & _ & R) SG]. simpl addr in SG.
  fold (get old st) in Eo1. replace o with (RbNode (hole_up k .| code c) (addr (plug kr (N cs E s r))) (addr l)) in *
    by congruence.
  fold (get s st) in Es. rewrite two_perm in Hnd, Hg.
  pose proof (up_notin k (old :: s :: elems l ++ elems r ++ ctx_elems kr)) as Hk. simpl in Hk.
  rewrite <- !app_assoc in Hk. specialize (Hk Hnd).
  assert (Forall good_addr (old :: s :: elems l ++ elems r ++ ctx_elems kr) /\ Forall good_addr (ctx_elems k) /\
    good_addr old) as (Hg1 & Hg2 & [_ Ho4]) by (rewrite !Forall_cons, !Forall_app in *; tauto).
  specialize (Hk Hg1). pose proof Hnd as Hnd'. parts Hnd'. notins. pose proof Hnd as Hall.
  apply NoDup_cons in Hnd as [Hn1 Hnd]. pose proof Hg as Hg'. apply Forall_cons in Hg' as [_ Hg'].
  rewrite <- (tail_perm c) in Hnd, Hg'. change (N c l s ?t) with (mk Left c l s t) in Hnd, Hg'. rewrite elems_mk in Hnd, Hg'.
  unfold erase_two. rewrite Hd. cbn [mbind option_bind]. rewrite Hop.
  destruct (replace_child_ok Left k old s st) as (s1 & -> & K1 & O1); [done | done | done | done | done |].
  carry_seg O1. cbn [mbind option_bind]. rewrite Es. cbn [mbind option_bind].
  assert (up_to old kr mod 4 = 0) as Hup by (destruct kr as [|f kr]; [done |]; simpl in Hg1;
    rewrite !Forall_cons, !Forall_app, Forall_cons in Hg1; apply Hg1).
  rewrite parent_pack, color_pack by done. cbn [rb_right]. destruct kr as [|f kr]; simpl up_to.
  - rewrite Z.eqb_refl. cbn [mbind option_bind].
    destruct (erase_tail s1 k c l old s r _ _ (addr r) s (code cs) Eo eq_refl eq_refl Es eq_refl L R K1 Hl Ho4 Hnd Hg'
      H3 H4) as (s2 & -> & H' & D).
    exists s2. split; [done |]. split; [done | by rewrite (only_dom _ _ _ O1)].
  - rewrite (proj2 (Z.eqb_neq (f_addr f) old)) by (intros <-; rewrite ctx_elems_cons in *; notins; done).
    apply Forall_cons in Hkr as [Hf _].
    destruct (erase_middle s1 k l old f kr _ s r _ Eo (addr_plug_eq _ _ _ _) Es eq_refl L R SG K1 Hf Hall Hg)
      as (s2 & sn & -> & Eo2 & Es2 & Hsn & L2 & R2 & K2 & D2).
    cbn [mbind option_bind].
    destruct (erase_tail s2 k c l old s (plug (f :: kr) r) _ _ (addr r) (f_addr f) (code cs) Eo2 eq_refl eq_refl Es2
      Hsn L2 R2 K2 Hl Ho4 Hnd Hg' H3 H4) as (s3 & -> & H' & D3).
    exists s3. split; [done |]. split; [done | by rewrite (only_dom _ _ _ O1), D2].
Qed.

(** ** [rb_erase] *)

Lemma bh_short t n : bh t n -> short t n.
Proof. unfold short. destruct t as [|[] l a r]; simpl; [by left | right | by left]. tauto. Qed.

(** The colours after a node with an empty child was taken out. *)
Lemma remove_color st k d c a t :
  focus st k t -> rb_valid (plug k (mk d c E a t)) ->
  erased (elems (plug k t)) st (if code c =? RB_BLACK then __rb_erase_color (addr t) (hole_up k) st else Some st).
Proof.
  intros H Hv. destruct (plug_valid_inv _ _ Hv) as (n & Hb & Hk). rewrite root_color_mk in Hk. destruct c; cbn.
  - apply bh_red in Hb as (_ & Hc & _ & Ht). exists st, (plug k t). split_and!; [done | by apply repr_focus | | done | done].
    apply (plug_valid _ _ n); [done |]. rewrite Hc. by eapply kwf_black.
  - destruct n as [|n]; [by destruct d |]. apply bh_black in Hb as [_ Ht].
    by apply (erase_color_ok _ _ _ n); [done | apply bh_short |].
Qed.

Lemma kwf_addr c a b s d kr k : forall c' n, kwf (kr ++ Frame d c a s :: k) c' n -> kwf (kr ++ Frame d c b s :: k) c' n.
Proof. induction kr as [|[e [] x t] kr IH]; intros c' n; simpl; [done | naive_solver | naive_solver]. Qed.

Lemma valid_addr d c a b s kr k t : rb_valid (plug (kr ++ Frame d c a s :: k) t) -> rb_valid (plug (kr ++ Frame d c b s :: k) t).
Proof. intros H. destruct (plug_valid_inv _ _ H) as (n & Ht & Hk). eapply plug_valid; [exact Ht |]. by eapply kwf_addr. Qed.

Lemma before_left kr : Forall (fun f => f_side f = Left) kr -> before kr = [].
Proof.
  induction kr as [|[[] c a s] kr IH]; intros H; [done | apply IH; by apply Forall_cons in H as [_ ?] |].
  by apply Forall_cons in H as [? _].
Qed.

Lemma erase_focus st k c l a r :
  focus st k (N c l a r) -> rb_valid (plug k (N c l a r)) ->
    erased (before k ++ (elems l ++ elems r) ++ after k) st (rb_erase a st).
Proof.
  intros H Hv. destruct (get_focus _ _ Left _ _ _ _ H) as (n & En & Hl & Hr & _). simpl in Hl, Hr. unfold rb_erase.
  rewrite En. cbn [mbind option_bind].
  destruct (decide (l = E)) as [-> | Hle].
  { rewrite Hl. simpl. destruct (erase_one_ok _ _ Left _ _ _ _ H En) as (s1 & E1 & H1 & D1). rewrite Hr, E1.
    cbn [mbind option_bind].
    apply (erased_step (elems (plug k r)) s1); [by eapply (remove_color _ _ Left) | done | by rewrite inorder_plug]. }
  assert (rb_left n <> 0) as Hl0.
  { rewrite Hl. destruct l as [|lc ll la lr]; [done |]. pose proof (proj1 (focus_near _ _ Left _ _ _ _) H) as Hf.
    by destruct (get_focus _ _ Left _ _ _ _ Hf) as (_ & _ & _ & _ & _ & _ & _ & _ & ?). }
  rewrite (proj2 (Z.eqb_neq _ _) Hl0). destruct (decide (r = E)) as [-> | Hre].
  { rewrite Hr. simpl. destruct (erase_one_ok _ _ Right _ _ _ _ H En) as (s1 & E1 & H1 & D1). rewrite Hl, E1.
    cbn [mbind option_bind].
    apply (erased_step (elems (plug k l)) s1); [by eapply (remove_color _ _ Right) | done | by rewrite inorder_plug, app_nil_r]. }
  pose proof (proj1 (focus_far _ _ Left _ _ _ _) H) as Hf.
  destruct (descend_focus Left _ _ _ Hf Hre) as (kr & cs & s & y & -> & Hkr & Hd). rewrite <- Hr in Hd.
  assert (rb_right n <> 0) as Hr0.
  { rewrite Hr. destruct (plug kr _) as [|rc rl ra rr]; [done |].
    by destruct (get_focus _ _ Left _ _ _ _ Hf) as (_ & _ & _ & _ & _ & _ & _ & _ & ?). }
  rewrite (proj2 (Z.eqb_neq _ _) Hr0). destruct (erase_two_ok _ _ _ _ _ _ _ _ _ _ H Hle Hkr En Hd) as (s1 & ->
    & H1 & D1). cbn [mbind option_bind].
  assert (hole_up (kr ++ [Frame Right c s l]) = hole_up (kr ++ Frame Right c s l :: k)) as -> by (by destruct kr).
  apply (erased_step (elems (plug (kr ++ Frame Right c s l :: k) y)) s1); [| done |].
  - apply (remove_color _ _ Left _ s); [apply repr_focus; rewrite plug_app; exact (proj2 (repr_focus _ k _) H1) |].
    apply (valid_addr _ _ a). by rewrite plug_app.
  - rewrite plug_app. change (plug (Frame Right c s l :: k) ?t) with (plug k (N c l s t)). rewrite (inorder_plug k). simpl.
    rewrite !inorder_plug, (before_left _ Hkr). simpl. by rewrite <- !app_assoc.
Qed.

Lemma elems_find t a : a ∈ elems t -> exists k c l r, t = plug k (N c l a r).
Proof.
  induction t as [|c l IHl b r IHr]; simpl; [set_solver |]. rewrite elem_of_app, elem_of_cons. intros [Hl | [-> | Hr]].
  - destruct (IHl Hl) as (k & c' & l' & r' & ->). exists (k ++ [Frame Left c b r]), c', l', r'. by rewrite plug_app.
  - by exists [], c, l, r.
  - destruct (IHr Hr) as (k & c' & l' & r' & ->). exists (k ++ [Frame Right c b l]), c', l', r'. by rewrite plug_app.
Qed.

Lemma pivot_unique (a : Z) L1 : forall L2 M1 M2, NoDup (L1 ++ a :: L2) -> L1 ++ a :: L2 = M1 ++ a :: M2 -> L1 = M1 /\ L2 = M2.
Proof.
  induction L1 as [|x L1 IH]; intros L2 [|y M1] M2 Hnd E; simpl in *; simplify_eq; [done | | |].
  - apply NoDup_cons in Hnd as [Hn _]. set_solver.
  - apply NoDup_cons in Hnd as [Hn _]. set_solver.
  - apply NoDup_cons in Hnd as [_ Hnd]. by destruct (IH L2 M1 M2 Hnd) as [-> ->].
Qed.

(** ** Walking *)

(** The first of the nodes after, or the last of the nodes before; NULL if there is none. *)
Definition next_to (d : side) (before after : list Z) : Z := match d with Left => default 0 (last before)
  | Right => hd 0 after end.

Lemma outermost_first d kr c a y L :
  Forall (fun f => f_side f = opp d) kr ->
    next_to d (L ++ elems (plug kr (mk (opp d) c E a y))) (elems (plug kr (mk (opp d) c E a y)) ++ L) = a.
Proof.
  intros Hk. rewrite inorder_plug. destruct d; simpl in *.
  - assert (after kr = []) as ->. { clear -Hk. induction kr as [|[[] c a s] kr IH]; [done | |];
      apply Forall_cons in Hk as [? Hk]; [done | by apply IH]. }
    rewrite app_nil_r, !app_assoc, last_snoc. done.
  - rewrite (before_left _ Hk). done.
Qed.

Lemma ascend_ok d fuel : forall k t st, focus st k t -> t <> E -> (length k <= fuel)%nat ->
  ascend fuel d (addr t) st = Some (next_to d (before k) (after k)).
Proof.
  induction fuel as [|fuel IH]; intros k t st H Ht Hlen; (destruct t as [|c l a r]; [done |]);
    destruct (get_focus _ _ Left _ _ _ _ H) as (n & En & _ & _ & Hp & _ & _ & _ & Ha); simpl addr;
      destruct k as [|f k]; simpl in Hlen; try lia;
    simpl ascend; rewrite En; cbn [mbind option_bind]; rewrite Hp; simpl hole_up; [by destruct d | by destruct d |].
  apply focus_fill in H. unfold fill in H. destruct (get_focus _ _ _ _ _ _ _ H) as (p & Ep & Hn & Ho & _ & _ & _ & _ & Hp0).
  rewrite (proj2 (Z.eqb_neq _ _) Hp0), Ep. cbn [mbind option_bind].
  pose proof (focus_apart _ _ _ _ _ _ _ H (or_introl Ha)) as Hap. simpl addr in Hap.
  destruct (decide (f_side f = d)) as [Hd | Hd].
  - rewrite Hd in Hn. rewrite Hn. simpl addr. rewrite Z.eqb_refl.
    rewrite <- (addr_mk (f_side f) (f_color f) (N c l a r) (f_addr f) (f_sib f)).
    rewrite (IH _ _ _ H); [| by destruct (f_side f) | lia]. f_equal. destruct f as [[] fc fa fs], d; done.
  - assert (d = opp (f_side f)) as -> by (by destruct d, (f_side f)).
    rewrite Ho, Z.eqb_sym, (proj2 (Z.eqb_neq (addr (f_sib f)) a) Hap). f_equal.
    destruct f as [[] fc fa fs]; simpl; [done |]. by rewrite app_assoc, last_snoc.
Qed.

Lemma neighbour_ok d st k c l a r :
  focus st k (N c l a r) -> neighbour d a st = Some (next_to d (before k ++ elems l) (elems r ++ after k)).
Proof.
  intros H. destruct (mk_side Left (opp d) c l a r) as (x & y & Et). simpl in Et.
  assert (next_to d (before k ++ elems l) (elems r ++ after k) = next_to d (before k ++ elems y) (elems y ++ after k)) as ->.
  { destruct d; simpl in *; congruence. }
  rewrite Et in H. destruct (get_focus _ _ _ _ _ _ _ H) as (n & En & _ & Hy & Hp & _). rewrite opp_opp in Hy.
  unfold neighbour. rewrite En. cbn [mbind option_bind]. rewrite Hp.
  assert (hole_up k <> a) as Hu. { pose proof
    (up_notin _ _ (o_nodup _ _ _ H) (proj1 (proj1 (Forall_app _ _ _) (o_good _ _ _ H)))) as Hn. rewrite elems_mk in Hn.
  set_solver. }
  rewrite (proj2 (Z.eqb_neq _ _) Hu), Hy. pose proof (focus_fuel _ _ _ H) as Hfuel. destruct (decide (y = E)) as [-> | Hye].
  - simpl. rewrite <- (addr_mk (opp d) c x a E). rewrite (ascend_ok d _ k _ _ H); [| by destruct d | lia]. f_equal.
    destruct d; simpl; by rewrite ?app_nil_r.
  - pose proof (proj1 (focus_far _ _ _ _ _ _ _) H) as Hf. assert (addr y <> 0) as Hy0.
    { destruct y as [|yc yl ya yr]; [done |].
      by destruct (get_focus _ _ Left _ _ _ _ Hf) as (_ & _ & _ & _ & _ & _ & _ & _ & ?). }
    rewrite (proj2 (Z.eqb_neq _ _) Hy0). simpl.
    destruct (descend_focus (opp d) _ _ _ Hf Hye) as (kr & c' & b & z & -> & Hkr & ->). f_equal.
    destruct d; simpl; symmetry.
    + by apply (outermost_first Left).
    + by apply (outermost_first Right).
Qed.

Lemma ends_ok d st t : repr st t -> (if rb_top st =? 0 then Some 0 else descend (size (nodes st)) (opp d) (rb_top st)
  st) = Some (next_to d (elems t) (elems t)).
Proof.
  intros H. rewrite (r_top _ _ H). destruct (decide (t = E)) as [-> | Ht]; [by destruct d |]. apply (repr_focus _ []) in H.
  assert (addr t <> 0) as Ht0. { destruct t as [|c l a r]; [done |].
    by destruct (get_focus _ _ Left _ _ _ _ H) as (_ & _ & _ & _ & _ & _ & _ & _ & ?). }
  rewrite (proj2 (Z.eqb_neq _ _) Ht0). destruct (descend_focus (opp d) _ _ _ H Ht) as (kr & c & b & z & -> & Hkr & ->).
  f_equal. symmetry.
  pose proof (outermost_first d kr c b z [] Hkr) as Ho. by rewrite app_nil_r in Ho.
Qed.

(** ** [rb_replace_node] *)

Lemma rb_replace_ok st k c l v r new :
  focus st k (N c l v r) -> good_addr new -> new ∉ elems (N c l v r) ++ ctx_elems k ->
  exists st', rb_replace_node v new st = Some st' /\ focus st' k (N c l new r).
Proof.
  intros H [Hn0 Hn4] Hnew. destruct (get_focus _ _ Left _ _ _ _ H) as (n & En & Hl & Hr & Hp & _ & _ & _ & Hv0). simpl in Hl, Hr.
  destruct H as [(Ev & L & R) K Hnd Hg]. simpl addr in K. fold (get v st) in Ev.
  replace n with (RbNode (hole_up k .| code c) (addr r) (addr l)) in * by congruence. clear n Hl Hr Ev.
  pose proof (elems_mk Left c l v r) as He. cbn [mk] in He. rewrite He in Hnd, Hg, Hnew.
  assert (Forall good_addr (v :: elems l ++ elems r) /\ Forall good_addr (ctx_elems k)) as [Hg1 Hg2]
    by (by apply Forall_app in Hg).
  pose proof (up_notin _ _ Hnd Hg1) as Hk.
  assert (Forall good_addr (elems l) /\ Forall good_addr (elems r) /\ v mod 4 = 0) as (Hgl & Hgr & Hv4).
  { rewrite Forall_cons, Forall_app in Hg1. unfold good_addr at 1 in Hg1. tauto. }
  pose proof (good_nonzero _ Hg) as H0. pose proof Hnd as Hnd'. cbn [app] in *. rewrite <- app_assoc in Hnd'. parts Hnd'. notins.
  assert (addr l ∉ v :: elems r ++ ctx_elems k) as Hal by (apply addr_notin; [intros q Hq; notins; disjoint | notins; disjoint]).
  assert (addr r ∉ v :: elems l ++ ctx_elems k) as Har by (apply addr_notin; [intros q Hq; notins; disjoint | notins;
    disjoint]). notins.
  unfold rb_replace_node. rewrite En. cbn [mbind option_bind rb_left rb_right]. rewrite Hp.
  destruct (replace_child_ok Left k v new st) as (s1 & -> & K1 & O1); [done | done | done | done | done |]. carry O1.
  cbn [mbind option_bind].
  destruct (reparent v new l s1) as (s2 & -> & L2 & O2 & T2); [done | done | done | done | done |]. carry O2.
  cbn [mbind option_bind].
  destruct (reparent v new r s2) as (s3 & -> & R3 & O3 & T3); [done | done | done | done | done |]. carry O3.
  cbn [mbind option_bind]. rewrite En. cbn [mbind option_bind].
  assert (elems (N c l new r) ≡ₚ new :: elems l ++ elems r) as He' by apply (elems_mk Left).
  eexists. split; [reflexivity |]. split; cbn [nodes rb_top].
  - simpl. rewrite lookup_insert_eq. split; [done |]. split; (eapply rep_agree; [| eassumption]); intros q Hq;
      rewrite lookup_insert_ne; [done | by intros -> | done | by intros ->].
  - rewrite T3, T2 in *. simpl addr. eapply repk_agree; [| exact K1]. intros q Hq.
    rewrite lookup_insert_ne; [done | by intros ->].
  - rewrite He'. simpl. constructor; [by rewrite !not_elem_of_app |]. by apply NoDup_cons in Hnd as [_ ?].
  - rewrite He'. simpl. constructor; [done |]. by apply Forall_cons in Hg as [_ ?].
Qed.


End RbTreeErase.
