(* ===== verification/RbTreeSpec.v ===== *)
(** * Red-black trees: what the operations promise

    The operations of lib/rbtree.c against valid trees and their sequences of
    nodes, with a bound on the turns their loops make. *)
From S2P Require Import Prelude RbTree RbTreeColor RbTreeErase.

Module RbTreeSpec.
Import RbTree RbTreeColor RbTreeErase.

(** ** Shared forms of the component's lemmas *)

Lemma insert_at st k node :
  repr st (plug k E) -> rb_valid (plug k E) -> good_addr node -> node ∉ elems (plug k E) ->
  exists st' t, (st ← rb_link_node node (hole_up k) (hole_side k) st; rb_insert_color node st) = Some st' /\
    repr st' t /\ rb_valid t /\
    elems t = before k ++ node :: after k /\ dom (nodes st') = {[node]} ∪ dom (nodes st).
Proof.
  intros H Hv Hg Hn. apply repr_focus in H. destruct (rb_link_ok st k node H Hg) as (s1 & -> & H1 & D1);
    [rewrite elems_plug in Hn; set_solver |]. cbn [mbind option_bind].
  destruct (plug_valid_inv _ _ Hv) as (n & Hb & Hk).
  destruct (insert_color_ok s1 k E node E n) as (s2 & t & E2 & H2 & Hv2 & He & D2); [done | done | done |].
  exists s2, t. split_and!; [done | done | done | | by rewrite D2]. rewrite He, inorder_plug. done.
Qed.

Lemma erase_at st t a L1 L2 : repr st t -> rb_valid t -> elems t = L1 ++ a :: L2 -> erased (L1 ++ L2) st (rb_erase a st).
Proof.
  intros H Hv He. destruct (elems_find t a) as (k & c & l & r & ->); [rewrite He; set_solver |].
  rewrite inorder_plug in He. simpl in He. rewrite <- app_assoc, app_assoc in He. simpl in He.
  destruct (pivot_unique a (before k ++ elems l) (elems r ++ after k) L1 L2) as [<- <-]; [| done |].
  - pose proof (r_nodup _ _ H) as Hnd. rewrite inorder_plug in Hnd. simpl in Hnd. by rewrite <- app_assoc, app_assoc in Hnd.
  - apply (erased_step (before k ++ (elems l ++ elems r) ++ after k) st);
      [apply (erase_focus _ _ c); [by apply repr_focus | done] | done | by rewrite <- !app_assoc].
Qed.

Lemma neighbour_at d st t a L1 L2 : repr st t -> elems t = L1 ++ a :: L2 -> neighbour d a st = Some (next_to d L1 L2).
Proof.
  intros H He. destruct (elems_find t a) as (k & c & l & r & ->); [rewrite He; set_solver |].
  rewrite inorder_plug in He. simpl in He. rewrite <- app_assoc, app_assoc in He. simpl in He.
  destruct (pivot_unique a (before k ++ elems l) (elems r ++ after k) L1 L2) as [<- <-]; [| done |].
  - pose proof (r_nodup _ _ H) as Hnd. rewrite inorder_plug in Hnd. simpl in Hnd. by rewrite <- app_assoc, app_assoc in Hnd.
  - apply (neighbour_ok _ _ _ c). by apply repr_focus.
Qed.

Lemma first_at st t : repr st t -> rb_first st = Some (hd 0 (elems t)).
Proof. apply (ends_ok Right). Qed.

Lemma last_at st t : repr st t -> rb_last st = Some (default 0 (last (elems t))).
Proof. apply (ends_ok Left). Qed.

(** ** A tree of seven nodes *)

Definition insert_last (r : option rb_root) (node : Z) : option rb_root :=
  st ← r; parent ← rb_last st; st ← rb_link_node node parent Right st; rb_insert_color node st.

Definition seven : rb_root := default (RbRoot ∅ 0) (foldl insert_last (Some (RbRoot ∅ 0)) [8; 16; 24; 32; 40; 48; 56]).

Definition seven_tree : tree :=
  N Black (N Black E 8 E) 16 (N Red (N Black E 24 E) 32 (N Black (N Red E 40 E) 48 (N Red E 56 E))).

Lemma seven_repr : repr seven seven_tree.
Proof.
  split; [by vm_compute | by vm_compute | | by repeat constructor]. apply (bool_decide_unpack _). by vm_compute.
Qed.

Lemma seven_valid : rb_valid seven_tree.
Proof. split; [done | by exists 2%nat]. Qed.

(** ** Properties *)

(** C10: linking a node at an empty place of a valid red-black tree and calling rb_insert_color
    always returns with a valid red-black tree again (black root, no red node with a red child,
    as many black nodes on every way down), with the node between the nodes before and after the place. *)
Theorem rb_insert_correct st k node :
  repr st (plug k E) -> rb_valid (plug k E) -> good_addr node -> node ∉ elems (plug k E) ->
  exists st' t, (st ← rb_link_node node (hole_up k) (hole_side k) st; rb_insert_color node st) = Some st' /\
    repr st' t /\ rb_valid t /\
    elems t = before k ++ node :: after k.
Proof. intros H1 H2 H3 H4. destruct (insert_at _ _ _ H1 H2 H3 H4) as (st' & t & ? & ? & ? & ? & _). eauto 6. Qed.

Lemma rb_insert_correct_witness :
  exists st' t, (st ← rb_link_node 52 56 Left seven; rb_insert_color 52 st) = Some st' /\ repr st' t /\ rb_valid t /\
    elems t = [8; 16; 24; 32; 40; 48] ++ 52 :: [56].
Proof.
  apply (rb_insert_correct seven [Frame Left Red 56 E; Frame Right Black 48 (N Red E 40 E);
    Frame Right Red 32 (N Black E 24 E); Frame Right Black 16 (N Black E 8 E)] 52).
  - exact seven_repr.
  - exact seven_valid.
  - done.
  - apply (bool_decide_unpack _). by vm_compute.
Defined.

(** C11: rb_erase on a node of a valid red-black tree always returns with a valid red-black tree
    that has the other nodes in the same order. *)
Theorem rb_erase_correct st t a L1 L2 :
  repr st t -> rb_valid t -> elems t = L1 ++ a :: L2 ->
  exists st' t', rb_erase a st = Some st' /\ repr st' t' /\ rb_valid t' /\ elems t' = L1 ++ L2.
Proof. intros H Hv He. destruct (erase_at _ _ _ _ _ H Hv He) as (st' & t' & ? & ? & ? & ? & _). eauto 6. Qed.

Lemma rb_erase_correct_witness :
  exists st' t', rb_erase 16 seven = Some st' /\ repr st' t' /\ rb_valid t' /\ elems t' = [8] ++ [24; 32; 40; 48; 56].
Proof. exact (rb_erase_correct seven seven_tree 16 [8] [24; 32; 40; 48; 56] seven_repr seven_valid eq_refl). Defined.

(** rb_first, rb_last, rb_next and rb_prev return the first, the last, the next and the
    previous node of the sequence, and NULL where there is none. *)
Theorem rb_walk_correct st t :
  repr st t ->
  rb_first st = Some (hd 0 (elems t)) /\ rb_last st = Some (default 0 (last (elems t))) /\
  forall L1 a L2, elems t = L1 ++ a :: L2 -> rb_next a st = Some (hd 0 L2) /\ rb_prev a st = Some (default 0 (last L1)).
Proof.
  intros H. split; [by apply first_at |]. split; [by apply last_at |]. intros L1 a L2 He.
  split; [exact (neighbour_at Right _ _ _ _ _ H He) | exact (neighbour_at Left _ _ _ _ _ H He)].
Qed.

Lemma rb_walk_correct_witness :
  rb_first seven = Some 8 /\ rb_last seven = Some 56 /\
  forall L1 a L2, elems seven_tree = L1 ++ a :: L2 -> rb_next a seven = Some (hd 0 L2) /\
    rb_prev a seven = Some (default 0 (last L1)).
Proof. exact (rb_walk_correct seven seven_tree seven_repr). Defined.

(** rb_replace_node puts the new node in the place of the old one: the tree keeps its shape and
    its colours, and the new node stands where the old one stood in the sequence. *)
Theorem rb_replace_correct st t victim new L1 L2 :
  repr st t -> rb_valid t -> elems t = L1 ++ victim :: L2 -> good_addr new -> new ∉ elems t ->
  exists st' t', rb_replace_node victim new st = Some st' /\ repr st' t' /\ rb_valid t' /\ elems t' = L1 ++ new :: L2.
Proof.
  intros H Hv He Hg Hn. destruct (elems_find t victim) as (k & c & l & r & ->); [rewrite He; set_solver |].
  pose proof (r_nodup _ _ H) as Hnd. rewrite He in Hnd. rewrite inorder_plug in He. simpl in He.
  rewrite <- app_assoc, app_assoc in He. simpl in He.
  destruct (pivot_unique victim L1 L2 (before k ++ elems l) (elems r ++ after k)) as [-> ->]; [done | done |].
  destruct (rb_replace_ok st k c l victim r new) as (st' & E' & H'); [by apply repr_focus | done | by rewrite elems_plug in Hn |].
  exists st', (plug k (N c l new r)). split_and!; [done | by apply repr_focus | |].
  - destruct (plug_valid_inv _ _ Hv) as (n & Hb & Hk). by eapply (plug_valid _ (N c l new r)).
  - rewrite inorder_plug. simpl. by rewrite <- !app_assoc.
Qed.

Lemma rb_replace_correct_witness :
  exists st' t', rb_replace_node 32 36 seven = Some st' /\ repr st' t' /\ rb_valid t' /\ elems t' = [8; 16;
    24] ++ 36 :: [40; 48; 56].
Proof.
  apply (rb_replace_correct seven seven_tree 32 36 [8; 16; 24] [40; 48; 56] seven_repr seven_valid eq_refl); [done |].
  apply (bool_decide_unpack _). by vm_compute.
Defined.

(** C38: in a valid red-black tree of n nodes the loops of rb_first and rb_last, and the loop of
    rb_insert_color after a node was linked at any place, end within 2 log2 (n + 1) turns. *)
Theorem rb_loops_logarithmic st t :
  repr st t -> rb_valid t ->
  let turns := (2 * Nat.log2 (S (length (elems t))))%nat in
  (t <> E -> forall d, is_Some (descend turns d (rb_top st) st)) /\
  (forall k node, t = plug k E -> good_addr node -> node ∉ elems t ->
    is_Some (st ← rb_link_node node (hole_up k) (hole_side k) st; insert_loop turns node st)).
Proof.
  intros H Hv turns. pose proof (valid_height _ Hv) as Hh. fold turns in Hh. split.
  - intros Ht d. rewrite (r_top _ _ H). apply (repr_focus _ []) in H.
    destruct (descend_ok d turns _ _ _ H Ht Hh) as (kr & c & a & y & _ & _ & ->). eauto.
  - intros k node -> Hg Hn. pose proof (height_plug k E) as Hk. apply repr_focus in H.
    destruct (rb_link_ok st k node H Hg) as (s1 & -> & H1 & D1); [rewrite elems_plug in Hn; set_solver |].
    cbn [mbind option_bind].
    destruct (plug_valid_inv _ _ Hv) as (n & Hb & Hkw).
    destruct (insert_loop_ok turns k Left E node E n s1) as (s2 & t' & -> & _); [lia | done | done | done |]. eauto.
Qed.

Lemma rb_loops_logarithmic_witness : is_Some (descend 6 Left 16 seven).
Proof. destruct (rb_loops_logarithmic seven seven_tree seven_repr seven_valid) as [H _]. exact (H ltac:(done) Left). Defined.

End RbTreeSpec.
