(* ===== verification/Hrtimer.v ===== *)
(** * High-resolution timers: the code

    kernel/hrtimer.c, include/linux/hrtimer.h and include/linux/ktime.h as the
    OCTEON configuration builds them (64 bit, SMP, high resolution, no
    statistics).  Timers are linked by their red-black tree nodes, which are at
    the start of the timer, so that a node and its timer have one address; each
    clock base has the heap of its nodes.  Code between a lock and an unlock of a CPU base is
    one step: [__hrtimer_start_range_ns] is a step up to the release of the old
    base and one for each base it locks afterwards, and [__run_hrtimer] is one before and
    one after the callback.  The clock, the clock event device and the
    scheduler's choice of a CPU are arguments. *)
From S2P Require Import Prelude RbTree.

Module Hrtimer.
Import RbTree.

(** ** Times *)

Abbreviation NSEC_PER_SEC := 1000000000 (only parsing).
Abbreviation NSEC_PER_MSEC := 1000000 (only parsing).
Abbreviation KTIME_MAX := 9223372036854775807 (only parsing).
Abbreviation KTIME_SEC_MAX := (KTIME_MAX / NSEC_PER_SEC) (only parsing).
Abbreviation ETIME := 62 (only parsing).

Abbreviation ktime_add lhs rhs := (s64 (lhs + rhs)) (only parsing).
Abbreviation ktime_sub lhs rhs := (s64 (lhs - rhs)) (only parsing).
Abbreviation ktime_add_ns kt nsval := (s64 (kt + nsval)) (only parsing).
Definition ktime_set (secs nsecs : Z) : Z :=
  if secs >=? KTIME_SEC_MAX then KTIME_MAX else s64 (s64 (secs * NSEC_PER_SEC) + s64 nsecs).
Abbreviation ns_to_ktime ns := (ktime_add_ns 0 ns) (only parsing).
Abbreviation ktime_divns kt div := (u64 (Z.quot kt div)) (only parsing).

Definition ktime_add_safe (lhs rhs : Z) : Z :=
  let res := ktime_add lhs rhs in
  if (res <? 0) || (res <? lhs) || (res <? rhs) then ktime_set KTIME_SEC_MAX 0 else res.

(** ** State *)

Abbreviation HRTIMER_STATE_INACTIVE := 0 (only parsing).
Abbreviation HRTIMER_STATE_ENQUEUED := 1 (only parsing).
Abbreviation HRTIMER_STATE_CALLBACK := 2 (only parsing).
Abbreviation HRTIMER_STATE_MIGRATE := 4 (only parsing).
Abbreviation HIGH_RES_NSEC := 1 (only parsing).

(** The index of a clock base. *)
Inductive clockid := CLOCK_REALTIME | CLOCK_MONOTONIC.
#[export] Instance clockid_eq_dec : EqDecision clockid.
Proof. solve_decision. Defined.

(** The address of a clock base: CPU and clock. *)
Abbreviation base_ptr := (Z * clockid)%type.

Record hrtimer := HrTimer {
  _expires : Z;
  _softexpires : Z;
  function : Z;
  base : option base_ptr;
  state : Z
}.

Record hrtimer_clock_base := ClockBase {
  active : rb_root;
  first : Z;
  resolution : Z;
  softirq_time : Z;
  offset : Z
}.

Record hrtimer_cpu_base := CpuBase {
  clock_base : clockid -> hrtimer_clock_base;
  expires_next : Z;
  hres_active : bool;
  hang_detected : bool;
  nr_events : Z;
  nr_retries : Z;
  nr_hangs : Z;
  max_hang_time : Z
}.

(** A call of [__hrtimer_start_range_ns] that holds no lock: the timer has no
    base, [c_base] is the one it had and [c_cpu] the CPU it is to go to.
    [c_again]: the next lock is that of [c_base], and then the jump to [again]. *)
Record start_call := StartCall {
  c_this : Z;
  c_base : base_ptr;
  c_cpu : Z;
  c_tim : Z;
  c_delta : Z;
  c_rel : bool;
  c_wakeup : bool;
  c_ret : Z;
  c_again : bool
}.

(** [softirqs] are the CPUs on which HRTIMER_SOFTIRQ is raised, [events] the
    calls of [tick_program_event]: CPU, time and force, the last one first. *)
Record hrtimers := HrTimers {
  timers : gmap Z hrtimer;
  hrtimer_bases : gmap Z hrtimer_cpu_base;
  starting : gmap Z start_call;
  softirqs : list Z;
  events : list (Z * Z * bool)
}.

(** [wrong_lock]: a lock is released that the CPU does not hold. *)
Inductive fault := BUG | bad_pointer | wrong_lock.
Abbreviation M := (run fault).

Definition get_timer (t : Z) (st : hrtimers) : M hrtimer := of_option bad_pointer (timers st !! t).
Definition get_cpu (cpu : Z) (st : hrtimers) : M hrtimer_cpu_base := of_option bad_pointer (hrtimer_bases st !! cpu).
Definition get_clock (b : base_ptr) (st : hrtimers) : M hrtimer_clock_base := cb ← get_cpu b.1 st; Ret (clock_base cb b.2).

Definition put_timer (f : hrtimer -> hrtimer) (t : Z) (st : hrtimers) : hrtimers :=
  HrTimers (alter f t (timers st)) (hrtimer_bases st) (starting st) (softirqs st) (events st).
Definition put_cpu (f : hrtimer_cpu_base -> hrtimer_cpu_base) (cpu : Z) (st : hrtimers) : hrtimers :=
  HrTimers (timers st) (alter f cpu (hrtimer_bases st)) (starting st) (softirqs st) (events st).
Definition put_starting (m : gmap Z start_call) (st : hrtimers) : hrtimers :=
  HrTimers (timers st) (hrtimer_bases st) m (softirqs st) (events st).
Definition raise_softirq (cpu : Z) (st : hrtimers) : hrtimers :=
  HrTimers (timers st) (hrtimer_bases st) (starting st) (cpu :: softirqs st) (events st).
Definition tick_program_event (cpu expires : Z) (force : bool) (st : hrtimers) : hrtimers :=
  HrTimers (timers st) (hrtimer_bases st) (starting st) (softirqs st) ((cpu, expires, force) :: events st).

Definition set_clock_base (i : clockid) (f : hrtimer_clock_base ->
  hrtimer_clock_base) (cb : hrtimer_cpu_base) : hrtimer_cpu_base :=
  CpuBase (fun j => if decide (j = i) then f (clock_base cb j) else clock_base cb j) (expires_next cb) (hres_active cb)
    (hang_detected cb)
    (nr_events cb) (nr_retries cb) (nr_hangs cb) (max_hang_time cb).
Definition put_clock (f : hrtimer_clock_base -> hrtimer_clock_base) (b : base_ptr) (st : hrtimers) : hrtimers :=
  put_cpu (set_clock_base b.2 f) b.1 st.

Definition set_expires_next (e : Z) (cb : hrtimer_cpu_base) : hrtimer_cpu_base :=
  CpuBase (clock_base cb) e (hres_active cb) (hang_detected cb) (nr_events cb) (nr_retries cb) (nr_hangs cb) (max_hang_time cb).
Definition set_active (a : rb_root) (cb : hrtimer_clock_base) : hrtimer_clock_base :=
  ClockBase a (first cb) (resolution cb) (softirq_time cb) (offset cb).
Definition set_first (p : Z) (cb : hrtimer_clock_base) : hrtimer_clock_base :=
  ClockBase (active cb) p (resolution cb) (softirq_time cb) (offset cb).
Definition set_softirq_time (x : Z) (cb : hrtimer_clock_base) : hrtimer_clock_base :=
  ClockBase (active cb) (first cb) (resolution cb) x (offset cb).
Definition set_offset (x : Z) (cb : hrtimer_clock_base) : hrtimer_clock_base :=
  ClockBase (active cb) (first cb) (resolution cb) (softirq_time cb) x.
Definition set_resolution (x : Z) (cb : hrtimer_clock_base) : hrtimer_clock_base :=
  ClockBase (active cb) (first cb) x (softirq_time cb) (offset cb).

Definition set_state (s : Z) (t : hrtimer) : hrtimer := HrTimer (_expires t) (_softexpires t) (function t) (base t) s.
Definition set_base (b : option base_ptr) (t : hrtimer) : hrtimer :=
  HrTimer (_expires t) (_softexpires t) (function t) b (state t).
Definition set_times (e s : Z) (t : hrtimer) : hrtimer := HrTimer e s (function t) (base t) (state t).

(** ** Expiry times *)

Abbreviation hrtimer_set_expires t time := (set_times time time t) (only parsing).
Abbreviation hrtimer_set_expires_range t time delta := (set_times (ktime_add_safe time delta) time t) (only parsing).
Abbreviation hrtimer_set_expires_range_ns t time delta :=
  (set_times (ktime_add_safe time (ns_to_ktime delta)) time t) (only parsing).
Definition hrtimer_add_expires (t : hrtimer) (time : Z) : hrtimer :=
  set_times (ktime_add_safe (_expires t) time) (ktime_add_safe (_softexpires t) time) t.
Definition hrtimer_add_expires_ns (t : hrtimer) (ns : Z) : hrtimer :=
  set_times (ktime_add_ns (_expires t) ns) (ktime_add_ns (_softexpires t) ns) t.

Abbreviation hrtimer_active t := (negb (state t =? HRTIMER_STATE_INACTIVE)) (only parsing).
Definition hrtimer_is_queued (t : hrtimer) : bool := negb (state t .& HRTIMER_STATE_ENQUEUED =? 0).
Abbreviation hrtimer_callback_running t := (negb (state t .& HRTIMER_STATE_CALLBACK =? 0)) (only parsing).

(** [resolution] is that of the base of the timer; the result is the number of overruns and the timer. *)
Definition hrtimer_forward (t : hrtimer) (resolution now interval : Z) : Z * hrtimer :=
  let delta := ktime_sub now (_expires t) in
  if delta <? 0 then (0, t)
  else
    let interval := if interval <? resolution then resolution else interval in
    if delta >=? interval then
      let orun := ktime_divns delta interval in
      let t := hrtimer_add_expires_ns t (u64 (interval * orun)) in
      if _expires t >? now then (orun, t) else (u64 (orun + 1), hrtimer_add_expires t interval)
    else (1, hrtimer_add_expires t interval).

(** ** The queue *)

(** The way down to the place of a timer: parent, side, and whether it was to the left all the way. *)
Fixpoint find_link (fuel : nat) (key link parent : Z) (d : side) (leftmost : bool) (a : rb_root) (ts : gmap Z hrtimer)
  : M (Z * side * bool) :=
  if link =? 0 then Ret (parent, d, leftmost)
  else match fuel with
  | O => Diverge
  | S fuel =>
      n ← of_option bad_pointer (get link a);
      entry ← of_option bad_pointer (ts !! link);
      if key <? _expires entry then find_link fuel key (rb_left n) link Left leftmost a ts
      else find_link fuel key (rb_right n) link Right false a ts
  end.

Definition enqueue_hrtimer (t : Z) (b : base_ptr) (st : hrtimers) : M (bool * hrtimers) :=
  tm ← get_timer t st;
  cb ← get_clock b st;
  '(parent, d, leftmost) ← find_link (S (size (nodes (active cb)))) (_expires tm) (rb_top (active cb)) 0 Left true
    (active cb) (timers st);
  let st := if (leftmost : bool) then put_clock (set_first t) b st else st in
  a ← of_option bad_pointer (a ← rb_link_node t parent d (active cb); rb_insert_color t a);
  let st := put_clock (set_active a) b st in
  Ret (leftmost, put_timer (fun tm => set_state (state tm .| HRTIMER_STATE_ENQUEUED) tm) t st).

(** The time of the first timer of a clock base on the monotonic clock, if it is before [next]. *)
Definition earlier (cb : hrtimer_clock_base) (st : hrtimers) (next : Z) : M Z :=
  if first cb =? 0 then Ret next
  else
    tm ← get_timer (first cb) st;
    let expires := ktime_sub (_expires tm) (offset cb) in
    let expires := if expires <? 0 then 0 else expires in
    Ret (if expires <? next then expires else next).

(** On CPU [this], for the base of [cpu]. *)
Definition hrtimer_force_reprogram (this cpu : Z) (skip_equal : bool) (st : hrtimers) : M hrtimers :=
  cb ← get_cpu cpu st;
  next ← earlier (clock_base cb CLOCK_REALTIME) st KTIME_MAX;
  next ← earlier (clock_base cb CLOCK_MONOTONIC) st next;
  if skip_equal && (next =? expires_next cb) then Ret st
  else
    let st := put_cpu (set_expires_next next) cpu st in
    Ret (if next =? KTIME_MAX then st else tick_program_event this next true st).

(** A timer that is the first of its base makes place for the next one. *)
Definition replace_first (this t : Z) (tm : hrtimer) (b : base_ptr) (cb : hrtimer_clock_base) (reprogram : bool)
  (st : hrtimers) : M hrtimers :=
  if first cb =? t then
    next ← of_option bad_pointer (rb_next t (active cb));
    let st := put_clock (set_first next) b st in
    me ← get_cpu this st;
    if reprogram && hres_active me then
      cpu_base ← get_cpu b.1 st;
      if expires_next cpu_base =? ktime_sub (_expires tm) (offset cb) then hrtimer_force_reprogram this b.1 true st else Ret st
    else Ret st
  else Ret st.

Definition __remove_hrtimer (this t : Z) (b : base_ptr) (newstate : Z) (reprogram : bool) (st : hrtimers) : M hrtimers :=
  tm ← get_timer t st;
  st ← (if hrtimer_is_queued tm then
      cb ← get_clock b st;
      st ← replace_first this t tm b cb reprogram st;
      cb ← get_clock b st;
      a ← of_option bad_pointer (rb_erase t (active cb));
      Ret (put_clock (set_active a) b st)
    else Ret st);
  Ret (put_timer (set_state newstate) t st).

Definition remove_hrtimer (this t : Z) (b : base_ptr) (st : hrtimers) : M (Z * hrtimers) :=
  tm ← get_timer t st;
  if hrtimer_is_queued tm then
    st ← __remove_hrtimer this t b HRTIMER_STATE_INACTIVE (b.1 =? this) st; Ret (1, st)
  else Ret (0, st).

(** [res] is what [tick_program_event] returns. *)
Abbreviation IS_ERR_VALUE x := (u64 x >=? u64 (-4095)) (only parsing).

Definition hrtimer_reprogram (this t : Z) (b : base_ptr) (res : Z) (st : hrtimers) : M (Z * hrtimers) :=
  tm ← get_timer t st;
  me ← get_cpu this st;
  cb ← get_clock b st;
  let expires := ktime_sub (_expires tm) (offset cb) in
  if hrtimer_callback_running tm then Ret (0, st)
  else if expires <? 0 then Ret (- ETIME, st)
  else if expires >=? expires_next me then Ret (0, st)
  else if hang_detected me then Ret (0, st)
  else
    let st := tick_program_event this expires false st in
    Ret (res, if IS_ERR_VALUE res then st else put_cpu (set_expires_next expires) this st).

(** [true]: the base is unlocked, and the call goes on with [start_wake]. *)
Definition hrtimer_enqueue_reprogram (this t : Z) (b : base_ptr) (wakeup : bool) (res : Z) (st : hrtimers)
  : M (hrtimers * bool) :=
  cpu_base ← get_cpu b.1 st;
  if hres_active cpu_base then
    '(r, st) ← hrtimer_reprogram this t b res st;
    Ret (if r =? 0 then (st, false) else if wakeup then (st, true) else (raise_softirq this st, false))
  else Ret (st, false).

(** ** Starting timers *)

Definition hrtimer_get_target (this : Z) (pinned migration idle : bool) (preferred : Z) : Z :=
  if negb pinned && migration && idle then if preferred >=? 0 then preferred else this else this.

Definition hrtimer_check_target (t : Z) (new_base : base_ptr) (st : hrtimers) : M bool :=
  cpu_base ← get_cpu new_base.1 st;
  if negb (hres_active cpu_base) then Ret false
  else
    tm ← get_timer t st;
    Ret (ktime_sub (_expires tm) (offset (clock_base cpu_base new_base.2)) <=? expires_next cpu_base).

(** Spins while the timer is between two bases. *)
Definition lock_hrtimer_base (t : Z) (st : hrtimers) : M base_ptr :=
  tm ← get_timer t st;
  match base tm with None => Diverge | Some b => Ret b end.

(** From the choice of the base on: [now] is the time of its clock, [res] what [tick_program_event] returns. *)
Definition start_finish (t : Z) (c : start_call) (new_base : base_ptr) (now res : Z) (st : hrtimers) : M (hrtimers * bool) :=
  let tim := if c_rel c then ktime_add_safe (c_tim c) now else c_tim c in
  let st := put_timer (fun tm => hrtimer_set_expires_range_ns tm tim (c_delta c)) t st in
  '(leftmost, st) ← enqueue_hrtimer t new_base st;
  if (leftmost : bool) && (new_base.1 =? c_this c)
  then hrtimer_enqueue_reprogram (c_this c) t new_base (c_wakeup c) res st else Ret (st, false).

(** The end of a call that has unlocked the base of its CPU to raise the
    softirq: it locks this base again, and [unlock_hrtimer_base] then unlocks the
    one that the timer has by now. *)
Definition start_wake (this t : Z) (st : hrtimers) : M hrtimers :=
  let st := raise_softirq this st in
  tm ← get_timer t st;
  match base tm with
  | None => Err bad_pointer
  | Some b => if b.1 =? this then Ret st else Err wrong_lock
  end.

(** [again] of [switch_hrtimer_base], with the old base locked. *)
Definition start_switch (t : Z) (c : start_call) (now res : Z) (st : hrtimers) : M (hrtimers * (Z * bool + Z)) :=
  tm ← get_timer t st;
  let new_base := (c_cpu c, (c_base c).2) in
  if bool_decide (c_base c = new_base) then '(st, w) ← start_finish t c new_base now res st; Ret (st, inl (c_ret c, w))
  else if hrtimer_callback_running tm then '(st, w) ← start_finish t c (c_base c) now res st; Ret (st, inl (c_ret c, w))
  else Ret (put_starting (<[t := c]> (starting st)) (put_timer (set_base None) t st), inr (c_ret c)).

(** Up to the release of the old base.  [inl (ret, false)]: the call is over.
    [inl (ret, true)]: it goes on with [start_wake].  [inr ret]: the timer has no
    base and the new one is to be locked. *)
Definition start_begin (this target t tim delta : Z) (rel wakeup : bool) (now res : Z) (st : hrtimers) : M
  (hrtimers * (Z * bool + Z)) :=
  b ← lock_hrtimer_base t st;
  '(ret, st) ← remove_hrtimer this t b st;
  start_switch t (StartCall this b target tim delta rel wakeup ret false) now res st.

(** The call once more with the CPU it is made on. *)
Abbreviation on_this again c :=
  (StartCall (c_this c) (c_base c) (c_this c) (c_tim c) (c_delta c) (c_rel c) (c_wakeup c) (c_ret c) again) (only parsing).

(** With the lock of the new base or, [c_again], that of the old one. *)
Definition start_end (t now res : Z) (st : hrtimers) : M (hrtimers * (Z * bool + Z)) :=
  c ← of_option bad_pointer (starting st !! t);
  let new_base := (c_cpu c, (c_base c).2) in
  let over := put_starting (delete t (starting st)) st in
  if c_again c then start_switch t (on_this false c) now res (put_timer (set_base (Some (c_base c))) t over)
  else
    late ← (if c_cpu c =? c_this c then Ret false else hrtimer_check_target t new_base st);
    if (late : bool) then Ret (put_starting (<[t := on_this true c]> (starting st)) st, inr (c_ret c))
    else
      '(st, w) ← start_finish t c new_base now res (put_timer (set_base (Some new_base)) t over);
      Ret (st, inl (c_ret c, w)).

Fixpoint start_rest (fuel : nat) (this t now res : Z) (st : hrtimers) : M (hrtimers * Z) :=
  match fuel with
  | O => Diverge
  | S fuel =>
      '(st, r) ← start_end t now res st;
      match r with
      | inl (ret, w) => st ← (if (w : bool) then start_wake this t st else Ret st); Ret (st, ret)
      | inr _ => start_rest fuel this t now res st
      end
  end.

(** The whole call, if nothing else happens meanwhile.  It locks at most the
    target's base, the old one again, this CPU's and, with a softirq, this CPU's again. *)
Definition __hrtimer_start_range_ns (this target t tim delta : Z) (rel wakeup : bool) (now res : Z) (st : hrtimers)
  : M (hrtimers * Z) :=
  '(st, r) ← start_begin this target t tim delta rel wakeup now res st;
  match r with
  | inl (ret, w) => st ← (if (w : bool) then start_wake this t st else Ret st); Ret (st, ret)
  | inr _ => start_rest 3 this t now res st
  end.

Definition hrtimer_start_range_ns (this target t tim delta : Z) (rel : bool) (now res : Z) (st : hrtimers) : M (hrtimers * Z) :=
  __hrtimer_start_range_ns this target t tim delta rel true now res st.
Definition hrtimer_start (this target t tim : Z) (rel : bool) (now res : Z) (st : hrtimers) : M (hrtimers * Z) :=
  __hrtimer_start_range_ns this target t tim 0 rel true now res st.

Definition hrtimer_start_expires (this target t : Z) (rel : bool) (now res : Z) (st : hrtimers) : M (hrtimers * Z) :=
  tm ← get_timer t st;
  hrtimer_start_range_ns this target t (_softexpires tm) (u64 (ktime_sub (_expires tm) (_softexpires tm))) rel now res st.

(** ** Cancelling and asking *)

Definition hrtimer_try_to_cancel (this t : Z) (st : hrtimers) : M (Z * hrtimers) :=
  b ← lock_hrtimer_base t st;
  tm ← get_timer t st;
  if hrtimer_callback_running tm then Ret (-1, st) else remove_hrtimer this t b st.

(** [cpu_relax] is what happens on other CPUs between two attempts. *)
Fixpoint hrtimer_cancel (fuel : nat) (cpu_relax : hrtimers -> hrtimers) (this t : Z) (st : hrtimers) : M (Z * hrtimers) :=
  match fuel with
  | O => Diverge
  | S fuel =>
      '(ret, st) ← hrtimer_try_to_cancel this t st;
      if ret >=? 0 then Ret (ret, st) else hrtimer_cancel fuel cpu_relax this t (cpu_relax st)
  end.

Definition hrtimer_get_remaining (t now : Z) (st : hrtimers) : M Z :=
  _ ← lock_hrtimer_base t st; tm ← get_timer t st; Ret (ktime_sub (_expires tm) now).

Definition next_delta (cb : hrtimer_clock_base) (now : Z) (st : hrtimers) (mindelta : Z) : M Z :=
  if first cb =? 0 then Ret mindelta
  else
    tm ← get_timer (first cb) st;
    let delta := ktime_sub (_expires tm) now in
    Ret (if delta <? mindelta then delta else mindelta).

(** [now] gives the time of each clock. *)
Definition hrtimer_get_next_event (this : Z) (now : clockid -> Z) (st : hrtimers) : M Z :=
  me ← get_cpu this st;
  mindelta ← (if hres_active me then Ret KTIME_MAX
    else
      d ← next_delta (clock_base me CLOCK_REALTIME) (now CLOCK_REALTIME) st KTIME_MAX;
      next_delta (clock_base me CLOCK_MONOTONIC) (now CLOCK_MONOTONIC) st d);
  Ret (if mindelta <? 0 then 0 else mindelta).

Definition __hrtimer_init (this t : Z) (clock_id : clockid) (mode_abs : bool) (st : hrtimers) : hrtimers :=
  let clock_id := if bool_decide (clock_id = CLOCK_REALTIME) && negb mode_abs then CLOCK_MONOTONIC else clock_id in
  HrTimers (<[t := HrTimer 0 0 0 (Some (this, clock_id)) 0]> (timers st)) (hrtimer_bases st) (starting st)
    (softirqs st) (events st).

(** ** Running timers *)

(** [__run_hrtimer] before and after the callback. *)
Definition run_begin (this t : Z) (b : base_ptr) (st : hrtimers) : M hrtimers :=
  __remove_hrtimer this t b HRTIMER_STATE_CALLBACK false st.

Definition run_end (t : Z) (b : base_ptr) (restart : bool) (st : hrtimers) : M hrtimers :=
  tm ← get_timer t st;
  st ← (if restart then
      if negb (state tm =? HRTIMER_STATE_CALLBACK) then Err BUG
      else '(_, st) ← enqueue_hrtimer t b st; Ret st
    else Ret st);
  Ret (put_timer (fun tm => set_state (state tm .& Z.lnot HRTIMER_STATE_CALLBACK) tm) t st).

(** [fn t] is all that happens while the base is unlocked for the callback of [t], and what the callback returns. *)
Definition __run_hrtimer (this t : Z) (fn : Z -> hrtimers -> bool * hrtimers) (st : hrtimers) : M hrtimers :=
  tm ← get_timer t st;
  b ← of_option bad_pointer (base tm);
  st ← run_begin this t b st;
  let '(restart, st) := fn t st in
  run_end t b restart st.

(** The loop over the timers of one clock base: the timers run, as they were, and the time of the first one that stays. *)
Fixpoint expire_loop (fuel : nat) (this : Z) (b : base_ptr) (basenow : Z) (fn : Z -> hrtimers ->
  bool * hrtimers) (next : Z) (st : hrtimers) : M (list (Z * hrtimer) * Z * hrtimers) :=
  cb ← get_clock b st;
  if first cb =? 0 then Ret ([], next, st)
  else
    tm ← get_timer (first cb) st;
    if basenow <? _softexpires tm then
      let expires := ktime_sub (_expires tm) (offset cb) in
      Ret ([], if expires <? next then expires else next, st)
    else match fuel with
    | O => Diverge
    | S fuel =>
        st ← __run_hrtimer this (first cb) fn st;
        '(ran, next, st) ← expire_loop fuel this b basenow fn next st;
        Ret ((first cb, tm) :: ran, next, st)
    end.

(** One attempt of [hrtimer_interrupt]: both clock bases, and the time of the next event. *)
Definition interrupt_pass (fuel : nat) (this now : Z) (fn : Z -> hrtimers ->
  bool * hrtimers) (st : hrtimers) : M (Z * hrtimers) :=
  let st := put_cpu (set_expires_next KTIME_MAX) this st in
  cb ← get_clock (this, CLOCK_REALTIME) st;
  '(_, next, st) ← expire_loop fuel this (this, CLOCK_REALTIME) (ktime_add now (offset cb)) fn KTIME_MAX st;
  cb ← get_clock (this, CLOCK_MONOTONIC) st;
  '(_, next, st) ← expire_loop fuel this (this, CLOCK_MONOTONIC) (ktime_add now (offset cb)) fn next st;
  Ret (next, put_cpu (set_expires_next next) this st).

Definition set_counts (hang : bool) (retries hangs max : Z) (cb : hrtimer_cpu_base) : hrtimer_cpu_base :=
  CpuBase (clock_base cb) (expires_next cb) (hres_active cb) hang (nr_events cb) retries hangs max.

(** The attempts; [later] has, for each of them, what [tick_program_event] returns and the time read afterwards; [fn now]
    is what happens during the callbacks of the attempt that has read [now]. *)
Fixpoint interrupt_tries (fuel : nat) (this entry_time now : Z) (later : list (Z * Z)) (fn : Z -> Z -> hrtimers ->
  bool * hrtimers) (st : hrtimers) : M hrtimers :=
  '(next, st) ← interrupt_pass fuel this now (fn now) st;
  if next =? KTIME_MAX then Ret (put_cpu (fun cb => set_counts false (nr_retries cb) (nr_hangs cb) (max_hang_time cb) cb) this st)
  else
    let st := tick_program_event this next false st in
    match later with
    | [] => Diverge
    | (res, now) :: later =>
        if res =? 0 then Ret (put_cpu (fun cb => set_counts false (nr_retries cb) (nr_hangs cb) (max_hang_time cb) cb) this st)
        else
          let st := put_cpu (fun cb => set_counts (hang_detected cb) (u64 (nr_retries cb + 1)) (nr_hangs cb)
            (max_hang_time cb) cb) this st in
          match later with
          | _ :: _ => interrupt_tries fuel this entry_time now later fn st
          | [] =>
              let delta := ktime_sub now entry_time in
              let st := put_cpu (fun cb => set_counts true (nr_retries cb) (u64 (nr_hangs cb + 1))
                (if delta >? max_hang_time cb then delta else max_hang_time cb) cb) this st in
              let next := if delta >? 100 * NSEC_PER_MSEC then ktime_add_ns now (100 * NSEC_PER_MSEC) else ktime_add now delta in
              Ret (tick_program_event this next true st)
          end
    end.

(** Three attempts at most. *)
Definition hrtimer_interrupt (fuel : nat) (this now : Z) (r1 r2 r3 : Z * Z) (fn : Z -> Z -> hrtimers ->
  bool * hrtimers) (st : hrtimers) : M hrtimers :=
  cb ← get_cpu this st;
  if negb (hres_active cb) then Err BUG
  else
    interrupt_tries fuel this now now [r1; r2; r3] fn
      (put_cpu (fun cb => CpuBase (clock_base cb) (expires_next cb) (hres_active cb) (hang_detected cb)
        (u64 (nr_events cb + 1)) (nr_retries cb) (nr_hangs cb) (max_hang_time cb)) this st).

(** [evtdev]: the CPU has a clock event device. *)
Definition __hrtimer_peek_ahead_timers (fuel : nat) (this now : Z) (r1 r2 r3 : Z * Z) (evtdev : bool) (fn : Z -> Z ->
  hrtimers -> bool * hrtimers) (st : hrtimers) : M hrtimers :=
  me ← get_cpu this st;
  if negb (hres_active me) then Ret st else if evtdev then hrtimer_interrupt fuel this now r1 r2 r3 fn st else Ret st.

(** Without high resolution, from the tick: the loop for one clock base. *)
Fixpoint softirq_loop (fuel : nat) (this : Z) (b : base_ptr) (fn : Z -> hrtimers ->
  bool * hrtimers) (st : hrtimers) : M hrtimers :=
  cb ← get_clock b st;
  if first cb =? 0 then Ret st
  else
    tm ← get_timer (first cb) st;
    if softirq_time cb <=? _expires tm then Ret st
    else match fuel with
    | O => Diverge
    | S fuel => st ← __run_hrtimer this (first cb) fn st; softirq_loop fuel this b fn st
    end.

(** [xtim] is the wall clock, [tomono] what leads from it to the monotonic clock. *)
Definition hrtimer_get_softirq_time (this xtim tomono : Z) (st : hrtimers) : hrtimers :=
  put_clock (set_softirq_time (ktime_add xtim tomono)) (this, CLOCK_MONOTONIC) (put_clock (set_softirq_time xtim)
    (this, CLOCK_REALTIME) st).

Fixpoint run_queues (fuel : nat) (this xtim tomono : Z) (gettime : bool) (l : list clockid) (fn : Z -> hrtimers ->
  bool * hrtimers) (st : hrtimers) : M hrtimers :=
  match l with
  | [] => Ret st
  | i :: l =>
      cb ← get_clock (this, i) st;
      if first cb =? 0 then run_queues fuel this xtim tomono gettime l fn st
      else
        let st := if gettime then hrtimer_get_softirq_time this xtim tomono st else st in
        st ← softirq_loop fuel this (this, i) fn st;
        run_queues fuel this xtim tomono false l fn st
  end.

Definition hrtimer_run_queues (fuel : nat) (this xtim tomono : Z) (fn : Z -> hrtimers ->
  bool * hrtimers) (st : hrtimers) : M hrtimers :=
  me ← get_cpu this st;
  if hres_active me then Ret st else run_queues fuel this xtim tomono true [CLOCK_REALTIME; CLOCK_MONOTONIC] fn st.

(** ** Changing the mode and the clock *)

Definition retrigger_next_event (this realtime_offset : Z) (st : hrtimers) : M hrtimers :=
  me ← get_cpu this st;
  if negb (hres_active me) then Ret st
  else hrtimer_force_reprogram this this false (put_clock (set_offset realtime_offset) (this, CLOCK_REALTIME) st).

(** [failed] is what [tick_init_highres] returns. *)
Definition hrtimer_switch_to_hres (this realtime_offset : Z) (failed : bool) (st : hrtimers) : M (Z * hrtimers) :=
  me ← get_cpu this st;
  if hres_active me then Ret (1, st)
  else if failed then Ret (0, st)
  else
    let st := put_cpu (fun cb => CpuBase (clock_base cb) (expires_next cb) true (hang_detected cb) (nr_events cb)
      (nr_retries cb) (nr_hangs cb) (max_hang_time cb)) this st in
    let st := put_clock (set_resolution HIGH_RES_NSEC) (this, CLOCK_REALTIME) st in
    let st := put_clock (set_resolution HIGH_RES_NSEC) (this, CLOCK_MONOTONIC) st in
    st ← retrigger_next_event this realtime_offset st;
    Ret (1, st).

(** [change] is what [tick_check_oneshot_change] returns. *)
Definition hrtimer_run_pending (this realtime_offset : Z) (change failed : bool) (st : hrtimers) : M hrtimers :=
  me ← get_cpu this st;
  if hres_active me then Ret st
  else if change then '(_, st) ← hrtimer_switch_to_hres this realtime_offset failed st; Ret st
  else Ret st.

(** ** A CPU that is gone *)

Definition migrate_first (this t : Z) (old_base new_base : base_ptr) (st : hrtimers) : M hrtimers :=
  tm ← get_timer t st;
  if hrtimer_callback_running tm then Err BUG
  else
    st ← __remove_hrtimer this t old_base HRTIMER_STATE_MIGRATE false st;
    let st := put_timer (set_base (Some new_base)) t st in
    '(_, st) ← enqueue_hrtimer t new_base st;
    Ret (put_timer (fun tm => set_state (state tm .& Z.lnot HRTIMER_STATE_MIGRATE) tm) t st).

Fixpoint migrate_hrtimer_list (fuel : nat) (this : Z) (old_base new_base : base_ptr) (st : hrtimers) : M hrtimers :=
  cb ← get_clock old_base st;
  node ← of_option bad_pointer (rb_first (active cb));
  if node =? 0 then Ret st
  else match fuel with
  | O => Diverge
  | S fuel => st ← migrate_first this node old_base new_base st; migrate_hrtimer_list fuel this old_base new_base st
  end.

(** Up to the call of [__hrtimer_peek_ahead_timers]. *)
Definition migrate_hrtimers (this scpu : Z) (st : hrtimers) : M hrtimers :=
  let fuel := size (timers st) in
  st ← migrate_hrtimer_list fuel this (scpu, CLOCK_REALTIME) (this, CLOCK_REALTIME) st;
  migrate_hrtimer_list fuel this (scpu, CLOCK_MONOTONIC) (this, CLOCK_MONOTONIC) st.

End Hrtimer.
