(* ===== verification/HrtimerQueue.v ===== *)
(** * High-resolution timers: the queues

    Each clock base has its timers in a red-black tree in the order of their
    expiry, and points to the first of them.  Enqueueing and removing a timer
    keep that, by the contract of the red-black trees. *)
From stdpp Require Import sorting.
From S2P Require Import Prelude RbTree RbTreeColor RbTreeErase RbTreeSpec Hrtimer.

Module HrtimerQueue.
Import RbTree RbTreeColor RbTreeErase RbTreeSpec Hrtimer.

(** ** The queue of a clock base *)

Definition clock_of (st : hrtimers) (b : base_ptr) : option hrtimer_clock_base := cb ← hrtimer_bases st !! b.1;
  Some (clock_base cb b.2).

Definition expires_of (ts : gmap Z hrtimer) (a : Z) : Z := from_option _expires 0 (ts !! a).

Definition sooner (ts : gmap Z hrtimer) (a b : Z) : Prop := expires_of ts a <= expires_of ts b.

Definition queued_at (ts : gmap Z hrtimer) (b : base_ptr) (a : Z) : Prop :=
  exists tm, ts !! a = Some tm /\ base tm = Some b /\ hrtimer_is_queued tm = true.

(** The clock base [cb] at [b] has the timers [l] in its queue. *)
Record queue (ts : gmap Z hrtimer) (b : base_ptr) (cb : hrtimer_clock_base) (l : list Z) : Prop := Queue {
  q_tree : exists t, repr (active cb) t /\ rb_valid t /\ elems t = l;
  q_first : first cb = hd 0 l;
  q_sorted : StronglySorted (sooner ts) l;
  q_mem : forall a, a ∈ l <-> queued_at ts b a
}.

Definition clock_ok (ts : gmap Z hrtimer) (b : base_ptr) (cb : hrtimer_clock_base) : Prop := exists l, queue ts b cb l.

Lemma queue_nodup ts b cb l : queue ts b cb l -> NoDup l /\ Forall good_addr l.
Proof. intros H. destruct (q_tree _ _ _ _ H) as (t & [_ _ Hnd Hg] & _ & <-). done. Qed.

Lemma sorted_ext ts ts' l : (forall a, a ∈ l -> expires_of ts' a = expires_of ts a) -> StronglySorted (sooner ts) l ->
  StronglySorted (sooner ts') l.
Proof.
  intros He. induction 1 as [|a l Hl IH Ha]; constructor.
  - apply IH. intros x Hx. apply He. by right.
  - rewrite Forall_forall in *. intros x Hx. unfold sooner in *. rewrite !He by (by constructor). by apply Ha.
Qed.

(** What the queue depends on. *)
Lemma queue_ext ts ts' b cb l :
  (forall a, queued_at ts' b a <-> queued_at ts b a) ->
    (forall a, queued_at ts b a -> expires_of ts' a = expires_of ts a) -> queue ts b cb l -> queue ts' b cb l.
Proof.
  intros Hq He [H1 H2 H3 H4]. split; [done | done | | intros a; rewrite H4; symmetry; apply Hq].
  eapply sorted_ext; [| done]. intros a Ha. apply He. by apply H4.
Qed.

Lemma hr_sorted_insert ts L1 a L2 :
  StronglySorted (sooner ts) (L1 ++ L2) -> Forall (fun x => sooner ts x a) L1 -> Forall (fun x => sooner ts a x) L2 ->
    StronglySorted (sooner ts) (L1 ++ a :: L2).
Proof.
  intros H H1 H2. induction L1 as [|x L1 IH]; simpl in *; [by constructor |]. apply StronglySorted_inv in H as [H Hx].
  apply Forall_cons in H1 as [Hxa H1].
  constructor; [by apply IH |]. rewrite Forall_app in Hx. rewrite Forall_app, Forall_cons. tauto.
Qed.

Lemma hr_sorted_delete ts L1 (a : Z) L2 : StronglySorted (sooner ts) (L1 ++ a :: L2) -> StronglySorted (sooner ts) (L1 ++ L2).
Proof.
  intros H. induction L1 as [|x L1 IH]; simpl in *; [by apply StronglySorted_inv in H as [? _] |].
  apply StronglySorted_inv in H as [H Hx].
  constructor; [by apply IH |]. rewrite Forall_app, Forall_cons in Hx. rewrite Forall_app. tauto.
Qed.

Lemma sorted_split ts L1 a L2 :
  StronglySorted (sooner ts) (L1 ++ a :: L2) ->
  StronglySorted (sooner ts) L1 /\ StronglySorted (sooner ts) L2 /\ Forall (fun x => sooner ts x a) L1 /\
    Forall (fun x => sooner ts a x) L2.
Proof.
  induction L1 as [|x L1 IH]; simpl; intros H; apply StronglySorted_inv in H as [H Hx]; [repeat constructor; done |].
  destruct (IH H) as (? & ? & ? & ?). rewrite Forall_app, Forall_cons in Hx. split_and!; [constructor | | constructor |]; tauto.
Qed.

(** ** Finding the place *)

(** Before the place are the timers that expire no later, after it those that expire later. *)
Lemma find_link_ok fuel key ts a : forall k t (d : side) leftmost,
  focus a k t -> (height t < fuel)%nat -> (forall x, x ∈ elems t -> is_Some (ts !! x)) -> StronglySorted (sooner ts) (elems t) ->
  Forall (fun x => expires_of ts x <= key) (before k) -> Forall (fun x => key < expires_of ts x) (after k) ->
  (leftmost = true <-> before k = []) -> d = hole_side k ->
  exists k', find_link fuel key (addr t) (hole_up k) d leftmost a ts = Ret (hole_up k', hole_side k', bool_decide
    (before k' = [])) /\
    plug k' E = plug k t /\ Forall (fun x => expires_of ts x <= key) (before k') /\
      Forall (fun x => key < expires_of ts x) (after k').
Proof.
  induction fuel as [|fuel IH]; intros k t d leftmost H Hh Hts Hs Hb Ha Hl Hd; [lia |].
  destruct t as [|c l x r]; simpl.
  - exists k. split; [| done]. subst d. f_equal. f_equal.
    destruct leftmost; [rewrite bool_decide_true by tauto; done |]. rewrite bool_decide_false; [done | naive_solver].
  - destruct (get_focus _ _ Left _ _ _ _ H) as (n & En & Hnl & Hnr & _ & _ & _ & _ & Hx0).
    rewrite (proj2 (Z.eqb_neq _ _) Hx0), En. simpl of_option. rewrite run_bind_Ret.
    destruct (Hts x) as [entry Ex]; [simpl; set_solver |]. rewrite Ex. simpl of_option. rewrite run_bind_Ret.
    simpl in Hnl, Hnr, Hh. simpl in Hs.
    assert (_expires entry = expires_of ts x) as -> by (unfold expires_of; by rewrite Ex).
    destruct (sorted_split _ _ _ _ Hs) as (Hsl & Hsr & Hlx & Hxr). rewrite Forall_forall in Hlx, Hxr. unfold sooner in Hlx, Hxr.
    destruct (Z.ltb_spec key (expires_of ts x)) as [Hk|Hk].
    + rewrite Hnl. apply (proj1 (focus_near _ _ Left _ _ _ _)) in H.
      apply (IH (Frame Left c x r :: k) l Left leftmost H); [lia | | done | done | | done | done].
      * intros y Hy. apply Hts. simpl. set_solver.
      * simpl. constructor; [done |]. apply Forall_app. split; [| done]. apply Forall_forall. intros y Hy.
        specialize (Hxr y Hy). lia.
    + rewrite Hnr. apply (proj1 (focus_far _ _ Left _ _ _ _)) in H.
      apply (IH (Frame Right c x l :: k) r Right false H); [lia | | done | | done | | done].
      * intros y Hy. apply Hts. simpl. set_solver.
      * simpl. rewrite !Forall_app, Forall_singleton. split; [done |]. split; [| done]. apply Forall_forall.
        intros y Hy. specialize (Hlx y Hy). lia.
      * simpl. split; [done |]. by intros [_ [_ ?]%app_eq_nil]%app_eq_nil.
Qed.

(** The search of [enqueue_hrtimer] in a queue. *)
Lemma find_place ts b cb l key :
  queue ts b cb l ->
  exists k, find_link (S (size (nodes (active cb)))) key (rb_top (active cb)) 0 Left true (active cb) ts = Ret
    (hole_up k, hole_side k, bool_decide (before k = [])) /\
    repr (active cb) (plug k E) /\ rb_valid (plug k E) /\ l = before k ++ after k /\
    Forall (fun x => expires_of ts x <= key) (before k) /\ Forall (fun x => key < expires_of ts x) (after k).
Proof.
  intros H. destruct (q_tree _ _ _ _ H) as (t & Hr & Hv & Ht). pose proof (r_top _ _ Hr) as Htop.
  pose proof (repr_size _ _ Hr) as Hsz. pose proof (height_elems t) as Hh.
  assert (focus (active cb) [] t) as Hf by (by apply (repr_focus _ [])). rewrite Htop.
  destruct (find_link_ok (S (size (nodes (active cb)))) key ts (active cb) [] t Left true Hf)
    as (k & E & Hp & Hb & Ha); [lia | | by rewrite Ht; apply H | done | done | done | done |].
  - intros x Hx. rewrite Ht in Hx. apply H in Hx as (tm & ? & _). eauto.
  - exists k. change (plug [] t) with t in Hp. rewrite Hp. split_and!; [done | done | done | | done | done].
    rewrite <- Ht, <- Hp, inorder_plug. done.
Qed.

(** ** Reading and writing the state *)

Lemma hr_get_timer_Ret t st tm : timers st !! t = Some tm -> get_timer t st = Ret tm.
Proof. unfold get_timer. by intros ->. Qed.

Lemma get_clock_Ret b st cb : clock_of st b = Some cb -> get_clock b st = Ret cb.
Proof. unfold clock_of, get_clock, get_cpu. destruct (hrtimer_bases st !! b.1); simpl; [by intros [= ->] | done]. Qed.

Lemma get_cpu_Ret b st cb : clock_of st b = Some cb -> exists c, get_cpu b.1 st = Ret c /\
  hrtimer_bases st !! b.1 = Some c /\ clock_base c b.2 = cb.
Proof. unfold clock_of, get_cpu. destruct (hrtimer_bases st !! b.1) as [c|]; simpl; [| done]. intros [= <-]. by exists c. Qed.

Lemma clock_of_put_timer f t st b : clock_of (put_timer f t st) b = clock_of st b.
Proof. done. Qed.

Lemma clock_of_put_clock f b st b' : clock_of (put_clock f b st) b' = if decide (b' = b) then f <$> clock_of st b else
  clock_of st b'.
Proof.
  unfold clock_of, put_clock, put_cpu. cbn. destruct b as [c i], b' as [c' i']. cbn. destruct (decide (c' = c)) as [-> | Hc].
  - rewrite lookup_alter_eq. destruct (hrtimer_bases st !! c) as [cb|]; simpl; [| by destruct (decide _)].
    destruct (decide (i' = i)) as [-> | Hi].
    + by rewrite decide_True.
    + rewrite decide_False by congruence. done.
  - rewrite lookup_alter_ne by done. rewrite decide_False by congruence. done.
Qed.

Lemma clock_of_put_cpu f c st b : (forall cb i, clock_base (f cb) i = clock_base cb i) ->
  clock_of (put_cpu f c st) b = clock_of st b.
Proof.
  intros Hf. unfold clock_of, put_cpu. cbn. destruct (decide (b.1 = c)) as [<- | Hc]; [| by rewrite lookup_alter_ne].
  rewrite lookup_alter_eq. destruct (hrtimer_bases st !! b.1); simpl; [| done]. by rewrite Hf.
Qed.

Lemma timers_put_timer f t st u : timers (put_timer f t st) !! u = if decide (u = t) then f <$> timers st !! t else
  timers st !! u.
Proof. cbn. destruct (decide (u = t)) as [-> | Hu]; [by rewrite lookup_alter_eq | by rewrite lookup_alter_ne]. Qed.

(** At most the timer [t] and the queue at [b] differ. *)
Record changed (t : Z) (b : base_ptr) (st st' : hrtimers) : Prop := Changed {
  c_timers : forall u, u <> t -> timers st' !! u = timers st !! u;
  c_clocks : forall b', b' <> b -> clock_of st' b' = clock_of st b';
  c_offset : forall b', offset <$> clock_of st' b' = offset <$> clock_of st b';
  c_starting : starting st' = starting st
}.

(** Programming the clock event device changes no queue. *)
Record same_queues (st st' : hrtimers) : Prop := SameQueues {
  e_timers : timers st' = timers st;
  e_clocks : forall b, clock_of st' b = clock_of st b;
  e_starting : starting st' = starting st
}.

#[export] Instance same_queues_pre : PreOrder same_queues.
Proof. split; [done | intros x y z [] []; split; [congruence | intros b; congruence | congruence]]. Qed.

Lemma same_queues_program c e force st : same_queues st (tick_program_event c e force st).
Proof. done. Qed.

Lemma same_queues_cpu f c st : (forall cb i, clock_base (f cb) i = clock_base cb i) -> same_queues st (put_cpu f c st).
Proof. intros Hf. split; [done | intros b; by apply clock_of_put_cpu | done]. Qed.

Definition firsts_ok (st : hrtimers) (c : Z) : Prop :=
  forall i cb, clock_of st (c, i) = Some cb -> first cb = 0 \/ is_Some (timers st !! first cb).

Lemma earlier_Ret cb st next : first cb = 0 \/ is_Some (timers st !! first cb) -> exists e, earlier cb st next = Ret e.
Proof.
  intros H. unfold earlier. destruct (Z.eqb_spec (first cb) 0); [by eexists |]. destruct H as [? | [tm Ht]]; [done |].
  rewrite (hr_get_timer_Ret _ _ _ Ht), run_bind_Ret. by eexists.
Qed.

Lemma force_reprogram_ok this c skip st :
  is_Some (hrtimer_bases st !! c) -> firsts_ok st c -> exists st', hrtimer_force_reprogram this c skip st = Ret st' /\
    same_queues st st'.
Proof.
  intros [cb Ec] Hf. unfold hrtimer_force_reprogram, get_cpu. rewrite Ec. simpl of_option. rewrite run_bind_Ret.
  assert (forall i, first (clock_base cb i) = 0 \/ is_Some (timers st !! first (clock_base cb i))) as Hf' by (intros i;
    apply (Hf i); unfold clock_of; simpl; by rewrite Ec).
  destruct (earlier_Ret _ st KTIME_MAX (Hf' CLOCK_REALTIME)) as [e1 ->]. rewrite run_bind_Ret.
  destruct (earlier_Ret _ st e1 (Hf' CLOCK_MONOTONIC)) as [e2 ->]. rewrite run_bind_Ret.
  case_match; [by exists st |]. eexists. split; [reflexivity |]. case_match.
  - by apply same_queues_cpu.
  - etrans; [by apply (same_queues_cpu (set_expires_next e2) c) | apply same_queues_program].
Qed.

(** ** Enqueueing *)

Lemma queued_or s : negb ((s .| HRTIMER_STATE_ENQUEUED) .& HRTIMER_STATE_ENQUEUED =? 0) = true.
Proof.
  destruct (Z.eqb_spec ((s .| HRTIMER_STATE_ENQUEUED) .& HRTIMER_STATE_ENQUEUED) 0) as [E|]; [| done].
  assert (Z.testbit ((s .| HRTIMER_STATE_ENQUEUED) .& HRTIMER_STATE_ENQUEUED) 0 = true) as Ht
    by (rewrite Z.land_spec, Z.lor_spec, orb_true_r; done). by rewrite E in Ht.
Qed.

Lemma hr_enqueue_ok t b st tm cb l :
  timers st !! t = Some tm -> clock_of st b = Some cb -> queue (timers st) b cb l -> base tm = Some b ->
    hrtimer_is_queued tm = false -> good_addr t ->
  exists st' cb' L1 L2, enqueue_hrtimer t b st = Ret (bool_decide (L1 = []), st') /\ l = L1 ++ L2 /\
    Forall (fun x => expires_of (timers st) x <= _expires tm) L1 /\ Forall (fun x => _expires tm < expires_of (timers st) x) L2 /\
    timers st' !! t = Some (set_state (state tm .| HRTIMER_STATE_ENQUEUED) tm) /\ clock_of st' b = Some cb' /\
      queue (timers st') b cb' (L1 ++ t :: L2) /\ changed t b st st'.
Proof.
  intros Ht Hc Hq Hb Hnq Hg. destruct (find_place _ _ _ _ (_expires tm) Hq) as (k & Ef & Hr & Hv & Hl & H1 & H2).
  assert (t ∉ l) as Hn by (intros Hi; apply Hq in Hi as (tm' & ? & _ & ?); congruence).
  destruct (insert_at _ _ t Hr Hv Hg) as (a & tr & Ei & Hr' & Hv' & He & _); [rewrite inorder_plug; simpl; by rewrite <- Hl |].
  unfold enqueue_hrtimer. rewrite (hr_get_timer_Ret _ _ _ Ht), run_bind_Ret, (get_clock_Ret _ _ _ Hc), run_bind_Ret,
    Ef, run_bind_Ret. cbn beta iota. rewrite Ei. simpl of_option. rewrite run_bind_Ret.
  set (st1 := if bool_decide _ then _ else st). set (st' := put_timer _ t _).
  assert (clock_of st1 b = Some (if bool_decide (before k = []) then set_first t cb else cb)) as Hc1.
  { unfold st1. case_bool_decide; [| done]. rewrite clock_of_put_clock, decide_True, Hc by done. done. }
  assert (forall b', b' <> b -> clock_of st1 b' = clock_of st b') as Hc1'.
  { intros b' Hb'. unfold st1. case_bool_decide; [| done]. by rewrite clock_of_put_clock, decide_False. }
  assert (timers st1 = timers st /\ starting st1 = starting st) as [Ht1 Hs1] by (unfold st1; by case_bool_decide).
  assert (clock_of st' b = Some (set_active a (if bool_decide (before k = []) then set_first t cb else cb))) as Hc2.
  { unfold st'. rewrite clock_of_put_timer, clock_of_put_clock, decide_True, Hc1 by done. done. }
  assert (forall u, timers st' !! u = if decide (u = t) then Some (set_state (state tm .| HRTIMER_STATE_ENQUEUED) tm)
    else timers st !! u) as Ht2.
  { intros u. unfold st'. rewrite timers_put_timer. change (timers (put_clock _ _ ?x)) with (timers x). rewrite Ht1, Ht. done. }
  exists st', (set_active a (if bool_decide (before k = []) then set_first t cb else cb)), (before k), (after k).
  split_and!; try done.
  - rewrite Ht2, decide_True by done. done.
  - assert (forall x, expires_of (timers st') x = expires_of (timers st) x) as Hex.
    { intros x. unfold expires_of. rewrite Ht2. destruct (decide (x = t)) as [-> | ?]; [by rewrite Ht | done]. }
    split.
    + exists tr. by destruct (bool_decide _).
    + case_bool_decide as Hk; simpl; [by rewrite Hk |]. rewrite (q_first _ _ _ _ Hq), Hl. by destruct (before k).
    + apply (sorted_ext (timers st)); [done |]. apply hr_sorted_insert; [rewrite <- Hl; apply Hq | |];
        (eapply Forall_impl; [eassumption |]); intros x Hx; unfold sooner.
      * assert (expires_of (timers st) t = _expires tm) as -> by (unfold expires_of; by rewrite Ht). done.
      * assert (expires_of (timers st) t = _expires tm) as -> by (unfold expires_of; by rewrite Ht). cbn in Hx. lia.
    + intros x. rewrite elem_of_app, elem_of_cons. pose proof (q_mem _ _ _ _ Hq x) as Hm.
      rewrite Hl, elem_of_app in Hm. unfold queued_at in *. rewrite Ht2.
      destruct (decide (x = t)) as [-> | Hx]; [| naive_solver]. split; [intros _ | tauto]. eexists. split; [done |].
      split; [done |]. apply queued_or.
  - split.
    + intros u Hu. by rewrite Ht2, decide_False.
    + intros b' Hb'. unfold st'. rewrite clock_of_put_timer, clock_of_put_clock, decide_False by done. by apply Hc1'.
    + intros b'. destruct (decide (b' = b)) as [-> | Hb']; [rewrite Hc2, Hc; simpl; by destruct (bool_decide _) |].
      unfold st'. rewrite clock_of_put_timer, clock_of_put_clock, decide_False by done. by rewrite Hc1'.
    + done.
Qed.

(** ** Removing *)

Lemma hd_mem (l : list Z) : hd 0 l = 0 \/ hd 0 l ∈ l.
Proof. destruct l; simpl; [by left | right; set_solver]. Qed.

Lemma queue_first ts b cb l : queue ts b cb l -> first cb = 0 \/ is_Some (ts !! first cb).
Proof.
  intros H. rewrite (q_first _ _ _ _ H). destruct (hd_mem l) as [? | Hi]; [by left | right].
  apply H in Hi as (tm & -> & _). eauto.
Qed.

(** The pointer to the first timer, and the device, before the node is taken out. *)
Lemma replace_first_ok this t b reprogram st tm cb l L1 L2 :
  timers st !! t = Some tm -> clock_of st b = Some cb -> queue (timers st) b cb l -> l = L1 ++ t :: L2 ->
  (forall i cb', clock_of st (b.1, i) = Some cb' -> clock_ok (timers st) (b.1, i) cb') -> is_Some (hrtimer_bases st !! this) ->
  exists st', replace_first this t tm b cb reprogram st = Ret st' /\ timers st' = timers st /\ starting st' = starting st /\
    (forall b', clock_of st' b' = if decide (b' = b) then Some (set_first (hd 0 (L1 ++ L2)) cb) else clock_of st b').
Proof.
  intros Ht Hc Hq Hl Hcl [me Hme]. destruct (queue_nodup _ _ _ _ Hq) as [Hnd Hgood].
  destruct (q_tree _ _ _ _ Hq) as (tr & Hr & Hv & Htr). rewrite Hl in Htr.
  unfold replace_first. destruct (Z.eqb_spec (first cb) t) as [E|E].
  - assert (L1 = []) as ->.
    { destruct L1 as [|x L1]; [done |]. rewrite (q_first _ _ _ _ Hq), Hl in E. simpl in E. subst x. rewrite Hl in Hnd.
      apply NoDup_cons in Hnd as [Hn _]. set_solver. }
    unfold rb_next. rewrite (neighbour_at Right _ _ _ _ _ Hr Htr). simpl of_option. rewrite run_bind_Ret.
    set (st1 := put_clock (set_first _) b st). cbn beta zeta.
    assert (forall b', clock_of st1 b' = if decide (b' = b) then Some (set_first (hd 0 L2) cb) else clock_of st b') as Hc1.
    { intros b'. unfold st1. rewrite clock_of_put_clock, Hc. done. }
    assert (forall c, is_Some (hrtimer_bases st !! c) -> exists m, get_cpu c st1 = Ret m /\
      hrtimer_bases st1 !! c = Some m) as Hcpu.
    { intros c [m Hm]. unfold st1, put_clock, put_cpu, get_cpu. cbn. destruct (decide (c = b.1)) as [-> | ?];
        [rewrite lookup_alter_eq | rewrite lookup_alter_ne by done]; rewrite Hm; by eexists. }
    destruct (Hcpu this) as (me1 & -> & _); [by eexists |]. rewrite run_bind_Ret.
    destruct (reprogram && hres_active me1); [| by exists st1].
    destruct (Hcpu b.1) as (cpu1 & -> & Hcpu1); [apply get_cpu_Ret in Hc as (c & _ & ? & _); by eexists |]. rewrite run_bind_Ret.
    destruct (expires_next cpu1 =? _); [| by exists st1].
    destruct (force_reprogram_ok this b.1 true st1) as (st' & E' & [T C S]); [by eexists | |].
    { intros i cb'. rewrite Hc1. destruct (decide _) as [Hb|Hb].
      - intros [= <-]. cbn. destruct (hd_mem L2) as [? | Hi]; [by left | right]. change (timers st1) with (timers st).
        assert (hd 0 L2 ∈ l) as (tm' & -> & _)%(q_mem _ _ _ _ Hq) by (rewrite Hl; set_solver). eauto.
      - intros Hcb. destruct (Hcl _ _ Hcb) as [l' Hq']. by apply queue_first in Hq'. }
    exists st'. split; [done |]. split; [by rewrite T |]. split; [by rewrite S |]. intros b'. by rewrite C.
  - exists st. split; [done |]. split; [done |]. split; [done |]. intros b'.
    destruct (decide (b' = b)) as [-> | ?]; [| done]. rewrite Hc. f_equal.
    assert (first cb = hd 0 (L1 ++ L2)) as <-; [| by destruct cb]. rewrite (q_first _ _ _ _ Hq), Hl in E |- *. destruct L1; done.
Qed.

Lemma remove_queued this t b newstate reprogram st tm cb l :
  timers st !! t = Some tm -> clock_of st b = Some cb -> queue (timers st) b cb l -> base tm = Some b ->
    hrtimer_is_queued tm = true ->
  (forall i cb', clock_of st (b.1, i) = Some cb' -> clock_ok (timers st) (b.1, i) cb') -> is_Some (hrtimer_bases st !! this) ->
  newstate .& HRTIMER_STATE_ENQUEUED = 0 ->
  exists st' cb' L1 L2, __remove_hrtimer this t b newstate reprogram st = Ret st' /\ l = L1 ++ t :: L2 /\
    timers st' = <[t := set_state newstate tm]> (timers st) /\ clock_of st' b = Some cb' /\
      queue (timers st') b cb' (L1 ++ L2) /\ changed t b st st'.
Proof.
  intros Ht Hc Hq Hb Hqd Hcl Hthis Hn. assert (t ∈ l) as (L1 & L2 & Hl)%list_elem_of_split by (apply Hq; by exists tm).
  unfold __remove_hrtimer. rewrite (hr_get_timer_Ret _ _ _ Ht), run_bind_Ret, Hqd, (get_clock_Ret _ _ _ Hc), run_bind_Ret.
  destruct (replace_first_ok this t b reprogram st tm cb l L1 L2 Ht Hc Hq Hl Hcl Hthis) as (st1 & -> & T1 & S1 & C1).
  rewrite run_bind_Ret.
  assert (clock_of st1 b = Some (set_first (hd 0 (L1 ++ L2)) cb)) as Hc1 by (by rewrite C1, decide_True).
  rewrite (get_clock_Ret _ _ _ Hc1), run_bind_Ret. change (active (set_first _ cb)) with (active cb).
  destruct (q_tree _ _ _ _ Hq) as (tr & Hr & Hv & Htr). rewrite Hl in Htr.
  destruct (erase_at _ _ _ _ _ Hr Hv Htr) as (a & tr' & -> & Hr' & Hv' & He' & _). simpl of_option.
  rewrite !run_bind_Ret.
  set (st' := put_timer _ t _). assert (timers st' = <[t := set_state newstate tm]> (timers st)) as Ht'.
  { unfold st'. cbn. rewrite T1. apply map_eq. intros u.
    destruct (decide (u = t)) as [-> | ?]; [by rewrite lookup_alter_eq, lookup_insert_eq, Ht
      | by rewrite lookup_alter_ne, lookup_insert_ne]. }
  assert (forall b', clock_of st' b' = if decide (b' = b) then Some (set_active a (set_first (hd 0 (L1 ++ L2)) cb))
    else clock_of st b') as Hc'.
  { intros b'. unfold st'. rewrite clock_of_put_timer, clock_of_put_clock, Hc1. destruct (decide (b' = b)); [done |].
    by rewrite C1, decide_False. }
  exists st', (set_active a (set_first (hd 0 (L1 ++ L2)) cb)), L1, L2.
  split_and!; [done | done | done | by rewrite Hc', decide_True | |].
  - rewrite Ht'. destruct (queue_nodup _ _ _ _ Hq) as [Hnd _]. rewrite Hl in Hnd.
    assert (t ∉ L1 ++ L2) as Hnt by (rewrite <- Permutation_middle in Hnd; by apply NoDup_cons in Hnd as [? _]).
    split; [by exists tr' | done | |].
    + eapply sorted_ext; [| eapply hr_sorted_delete; rewrite <- Hl; apply Hq]. intros x Hx. unfold expires_of.
      rewrite lookup_insert_ne; [done | by intros ->].
    + intros x. pose proof (q_mem _ _ _ _ Hq x) as Hm. unfold queued_at in *. destruct (decide (x = t)) as [-> | Hx].
      * split; [done |]. intros (tm' & Ht2 & _ & Hq2). rewrite lookup_insert_eq in Ht2. injection Ht2 as <-.
        unfold hrtimer_is_queued in Hq2. cbn in Hq2. by rewrite Hn in Hq2.
      * rewrite lookup_insert_ne by done. rewrite <- Hm, Hl. set_solver.
  - split.
    + intros u Hu. rewrite Ht'. by rewrite lookup_insert_ne.
    + intros b' Hb'. by rewrite Hc', decide_False.
    + intros b'. rewrite Hc'. destruct (decide (b' = b)) as [-> | ?]; [by rewrite Hc | done].
    + done.
Qed.

Lemma remove_unqueued this t b newstate reprogram st tm :
  timers st !! t = Some tm -> hrtimer_is_queued tm = false ->
    __remove_hrtimer this t b newstate reprogram st = Ret (put_timer (set_state newstate) t st).
Proof. intros Ht Hn. unfold __remove_hrtimer. rewrite (hr_get_timer_Ret _ _ _ Ht), run_bind_Ret, Hn, run_bind_Ret. done. Qed.

End HrtimerQueue.
