(* ===== verification/HrtimerSystem.v ===== *)
(** * High-resolution timers: the invariant

    A timer is in the queue of its base exactly when its state says so, no
    timer has two places, and one without a base is being moved by a call of
    [__hrtimer_start_range_ns]; every critical section of kernel/hrtimer.c keeps this. *)
From stdpp Require Import sorting.
From S2P Require Import Prelude RbTree RbTreeSpec Hrtimer HrtimerQueue.

Module HrtimerSystem.
Import RbTree RbTreeSpec Hrtimer HrtimerQueue.

Definition cpu_up (st : hrtimers) (c : Z) : Prop := is_Some (hrtimer_bases st !! c).

Lemma clock_up st b : is_Some (clock_of st b) <-> cpu_up st b.1.
Proof. unfold clock_of, cpu_up. destruct (hrtimer_bases st !! b.1); cbn [mbind option_bind]; split; intros []; eauto; done. Qed.

Definition timer_ok (st : hrtimers) (t : Z) (tm : hrtimer) : Prop :=
  good_addr t /\ _softexpires tm <= _expires tm /\
  match base tm with Some b => cpu_up st b.1 | None => is_Some (starting st !! t) /\ hrtimer_is_queued tm = false end.

Definition call_ok (st : hrtimers) (t : Z) (c : start_call) : Prop :=
  (exists tm, timers st !! t = Some tm /\ base tm = None) /\ c_tim c <= KTIME_MAX /\ cpu_up st (c_this c) /\
    cpu_up st (c_cpu c) /\ cpu_up st (c_base c).1.

Record sys_ok (st : hrtimers) : Prop := SysOk {
  s_clock : forall b cb, clock_of st b = Some cb -> clock_ok (timers st) b cb;
  s_timer : forall t tm, timers st !! t = Some tm -> timer_ok st t tm;
  s_call : forall t c, starting st !! t = Some c -> call_ok st t c
}.

(** An operation on the timer [t]: no other timer changes, nor the clocks. *)
Record touched (t : Z) (st st' : hrtimers) : Prop := Touched {
  h_timers : forall u, u <> t -> timers st' !! u = timers st !! u;
  h_up : forall c, cpu_up st' c <-> cpu_up st c;
  h_offset : forall b, offset <$> clock_of st' b = offset <$> clock_of st b;
  h_starting : forall u, u <> t -> starting st' !! u = starting st !! u
}.

#[export] Instance touched_pre t : PreOrder (touched t).
Proof.
  split; [done |]. intros x y z [A1 A2 A3 A4] [B1 B2 B3 B4]. split.
  - intros u Hu. by rewrite B1, A1.
  - intros c. by rewrite B2, A2.
  - intros b. by rewrite B3, A3.
  - intros u Hu. by rewrite B4, A4.
Qed.

Lemma up_offset st st' : (forall b, offset <$> clock_of st' b = offset <$> clock_of st b) -> forall c, cpu_up st' c <->
  cpu_up st c.
Proof.
  intros H c. rewrite <- (clock_up st (c, CLOCK_MONOTONIC)), <- (clock_up st' (c, CLOCK_MONOTONIC)).
  specialize (H (c, CLOCK_MONOTONIC)).
  destruct (clock_of st' _), (clock_of st _); try done; split; intros []; eauto; done.
Qed.

Lemma changed_touched t b st st' : changed t b st st' -> touched t st st'.
Proof. intros [H1 H2 H3 H4]. split; [done | by apply up_offset | done |]. intros u _. by rewrite H4. Qed.

Lemma same_queues_touched t st st' : same_queues st st' -> touched t st st'.
Proof.
  intros [H1 H2 H3]. split; [intros; by rewrite H1 | apply up_offset; intros b; by rewrite H2 | intros b;
    by rewrite H2 | intros; by rewrite H3].
Qed.

Lemma same_queues_ok st st' : same_queues st st' -> sys_ok st -> sys_ok st'.
Proof.
  intros Hs [H1 H2 H3]. pose proof (same_queues_touched 0 _ _ Hs) as [_ Hup _ _]. destruct Hs as [T C S]. split.
  - intros b cb. rewrite C, T. apply H1.
  - intros t tm. rewrite T. intros Ht. destruct (H2 t tm Ht) as (? & ? & ?). split; [done |]. split; [done |].
    rewrite S. destruct (base tm); [by apply Hup | done].
  - intros t c. rewrite S. intros Hc. destruct (H3 t c Hc) as (? & ? & ? & ? & ?). rewrite <- T in *. split; [done |].
    rewrite !Hup. done.
Qed.

(** Another queue at the base of one timer. *)
Lemma changed_ok t b st st' tm tm' cb l :
  sys_ok st -> changed t b st st' -> timers st !! t = Some tm -> base tm = Some b -> timers st' !! t = Some tm' ->
    base tm' = Some b ->
  _softexpires tm' <= _expires tm' -> clock_of st' b = Some cb -> queue (timers st') b cb l -> sys_ok st'.
Proof.
  intros H Hc Ht Hb Ht' Hb' Hle Hcb Hq. pose proof (h_up _ _ _ (changed_touched _ _ _ _ Hc)) as Hup.
  destruct Hc as [C1 C2 _ C4]. split.
  - intros b2 cb2 E. destruct (decide (b2 = b)) as [-> | Hne]; [rewrite Hcb in E; injection E as <-; by exists l |].
    rewrite C2 in E by done.
    destruct (s_clock _ H _ _ E) as [l2 Hq2]. exists l2.
    eapply queue_ext; [| | exact Hq2]; unfold queued_at, expires_of; intros a; destruct (decide (a = t)) as [-> | Ha];
      rewrite ?C1 by done; try done.
    + rewrite Ht, Ht'. split; intros (? & [= <-] & ? & _); congruence.
    + intros (tm2 & E2 & Hb2 & _). congruence.
  - intros u tm2 Hu. destruct (decide (u = t)) as [-> | Hut].
    + rewrite Ht' in Hu. injection Hu as <-. destruct (s_timer _ H _ _ Ht) as (? & _ & Hbase). rewrite Hb in Hbase.
      split; [done |]. split; [done |]. rewrite Hb'. by apply Hup.
    + rewrite C1 in Hu by done. destruct (s_timer _ H _ _ Hu) as (? & ? & ?). split; [done |]. split; [done |].
      rewrite C4. destruct (base tm2); [by apply Hup | done].
  - intros u c. rewrite C4. intros Hc. destruct (s_call _ H _ _ Hc) as ((tm2 & Hu & Hn) & ? & ? & ? & ?).
    unfold call_ok. rewrite !Hup. split; [| done].
    exists tm2. split; [| done]. rewrite C1; [done |]. intros ->. congruence.
Qed.

(** A timer that is not in a queue may be written to. *)
Lemma write_ok t tm' m st :
  sys_ok st -> (forall tm, timers st !! t = Some tm -> hrtimer_is_queued tm = false) -> hrtimer_is_queued tm' = false ->
  (forall u, u <> t -> m !! u = starting st !! u) ->
  timer_ok (HrTimers (<[t := tm']> (timers st)) (hrtimer_bases st) m (softirqs st) (events st)) t tm' ->
  (forall c, m !! t = Some c -> base tm' = None /\ c_tim c <= KTIME_MAX /\ cpu_up st (c_this c) /\
    cpu_up st (c_cpu c) /\ cpu_up st (c_base c).1) ->
  sys_ok (HrTimers (<[t := tm']> (timers st)) (hrtimer_bases st) m (softirqs st) (events st)).
Proof.
  intros H Hn Hn' Hm Hok Hc. split; cbn.
  - intros b cb Hcb. destruct (s_clock _ H b cb Hcb) as [l Hq]. exists l.
    eapply queue_ext; [| | exact Hq]; unfold queued_at, expires_of; intros a; destruct (decide (a = t)) as [-> | Ha];
      rewrite ?lookup_insert_eq, ?lookup_insert_ne by done; try done.
    + split; [intros (? & [= <-] & _ & ?); congruence | intros (tm & Ht & _ & Hq'); rewrite (Hn _ Ht) in Hq'; done].
    + intros (tm & Ht & _ & Hq'). by rewrite (Hn _ Ht) in Hq'.
  - intros u tm. destruct (decide (u = t)) as [-> | Hu]; [rewrite lookup_insert_eq; intros [= <-]; done |].
    rewrite lookup_insert_ne by done. intros Ht.
    destruct (s_timer _ H _ _ Ht) as (? & ? & ?). split; [done |]. split; [done |]. cbn. rewrite Hm by done. done.
  - intros u c Hu. destruct (decide (u = t)) as [-> | Hne].
    + destruct (Hc _ Hu) as (? & ?). split; [| done]. exists tm'. cbn. by rewrite lookup_insert_eq.
    + rewrite Hm in Hu by done. destruct (s_call _ H _ _ Hu) as ((tm & Ht & ?) & ?). split; [| done]. exists tm. cbn.
      by rewrite lookup_insert_ne.
Qed.

Lemma put_timer_insert f t tm st :
  timers st !! t = Some tm -> put_timer f t st = HrTimers (<[t := f tm]> (timers st)) (hrtimer_bases st) (starting st)
    (softirqs st) (events st).
Proof.
  intros Ht. unfold put_timer. f_equal. apply map_eq. intros u.
  destruct (decide (u = t)) as [-> | Hu]; [by rewrite lookup_alter_eq, lookup_insert_eq, Ht
    | by rewrite lookup_alter_ne, lookup_insert_ne].
Qed.

Lemma write_touched t tm' m st :
  (forall u, u <> t -> m !! u = starting st !! u) ->
    touched t st (HrTimers (<[t := tm']> (timers st)) (hrtimer_bases st) m (softirqs st) (events st)).
Proof. intros Hm. split; cbn; [intros u Hu; by rewrite lookup_insert_ne | done | done | done]. Qed.

(** A timer with a base that is not in its queue. *)
Lemma put_unqueued f t tm b st :
  sys_ok st -> timers st !! t = Some tm -> base tm = Some b -> hrtimer_is_queued tm = false ->
    hrtimer_is_queued (f tm) = false -> base (f tm) = Some b ->
  _softexpires (f tm) <= _expires (f tm) -> sys_ok (put_timer f t st) /\ touched t st (put_timer f t st) /\
    timers (put_timer f t st) !! t = Some (f tm).
Proof.
  intros H Ht Hb Hn Hn' Hb' Hle. rewrite (put_timer_insert _ _ _ _ Ht).
  destruct (s_timer _ H _ _ Ht) as (Hg & _ & Hup). rewrite Hb in Hup.
  split; [| split; [by apply write_touched | cbn; by rewrite lookup_insert_eq]].
  apply write_ok; [done | intros ? E; congruence | done | done | split; [done |]; split; [done |]; by rewrite Hb' |].
  intros c Hc. destruct (s_call _ H _ _ Hc) as ((tm2 & E & En) & _). congruence.
Qed.

(** ** Enqueueing and removing *)

Lemma enqueue_sys t b st tm :
  sys_ok st -> timers st !! t = Some tm -> base tm = Some b -> hrtimer_is_queued tm = false ->
  exists r st', enqueue_hrtimer t b st = Ret (r, st') /\ sys_ok st' /\ touched t st st' /\
    timers st' !! t = Some (set_state (state tm .| HRTIMER_STATE_ENQUEUED) tm) /\ starting st' = starting st.
Proof.
  intros H Ht Hb Hn. destruct (s_timer _ H _ _ Ht) as (Hg & Hle & Hup). rewrite Hb in Hup.
  apply clock_up in Hup as [cb Hcb]. destruct (s_clock _ H _ _ Hcb) as [l Hq].
  destruct (hr_enqueue_ok t b st tm cb l Ht Hcb Hq Hb Hn Hg) as (st' & cb' & L1 & L2 & E & _ & _ & _ & Ht' & Hcb' & Hq' & Hc).
  do 2 eexists. split; [exact E |]. split; [by eapply (changed_ok t b st st' tm) |].
  split; [by eapply changed_touched |]. split; [done | apply Hc].
Qed.

Lemma remove_sys this t b newstate reprogram st tm :
  sys_ok st -> timers st !! t = Some tm -> base tm = Some b -> cpu_up st this -> newstate .& HRTIMER_STATE_ENQUEUED = 0 ->
  exists st', __remove_hrtimer this t b newstate reprogram st = Ret st' /\ sys_ok st' /\ touched t st st' /\
    timers st' !! t = Some (set_state newstate tm) /\ starting st' = starting st.
Proof.
  intros H Ht Hb Hthis Hns. destruct (s_timer _ H _ _ Ht) as (Hg & Hle & Hup). rewrite Hb in Hup.
  assert (is_Some (clock_of st b)) as [cb Hcb] by (by apply clock_up). destruct (s_clock _ H _ _ Hcb) as [l Hq].
  destruct (hrtimer_is_queued tm) eqn:Hqd.
  - destruct (remove_queued this t b newstate reprogram st tm cb l Ht Hcb Hq Hb Hqd)
      as (st' & cb' & L1 & L2 & E & _ & Ht' & Hcb' & Hq' & Hc); [intros i cb'; apply (s_clock _ H) | done | done |].
    assert (timers st' !! t = Some (set_state newstate tm)) as Ht2 by (rewrite Ht'; apply lookup_insert_eq).
    exists st'. split; [done |]. split; [by eapply (changed_ok t b st st' tm) |]. split; [by eapply changed_touched |].
    split; [done | apply Hc].
  - rewrite (remove_unqueued this t b newstate reprogram st tm Ht Hqd). eexists. split; [done |].
    assert (hrtimer_is_queued (set_state newstate tm) = false) as Hn by (unfold hrtimer_is_queued; cbn; by rewrite Hns).
    destruct (put_unqueued (set_state newstate) t tm b st H Ht Hb Hqd Hn Hb Hle) as (? & ? & ?). done.
Qed.

Lemma remove_hrtimer_sys this t b st tm :
  sys_ok st -> timers st !! t = Some tm -> base tm = Some b -> cpu_up st this ->
  exists st' tm', remove_hrtimer this t b st = Ret (if hrtimer_is_queued tm then 1 else 0, st') /\ sys_ok st' /\
    touched t st st' /\
    timers st' !! t = Some tm' /\ tm' = (if hrtimer_is_queued tm then set_state HRTIMER_STATE_INACTIVE tm else tm) /\
      base tm' = Some b /\ hrtimer_is_queued tm' = false /\ starting st' = starting st.
Proof.
  intros H Ht Hb Hthis. unfold remove_hrtimer. rewrite (hr_get_timer_Ret _ _ _ Ht), run_bind_Ret.
  destruct (hrtimer_is_queued tm) eqn:Hq; [| by exists st, tm].
  destruct (remove_sys this t b HRTIMER_STATE_INACTIVE (b.1 =? this) st tm H Ht Hb Hthis) as (st' & ->
    & H' & Hto & Ht' & Hs); [done |]. rewrite run_bind_Ret.
  exists st'. eexists. split; [done |]. split; [done |]. split; [done |]. split; [exact Ht' |]. by split_and!.
Qed.

(** ** Starting *)

Lemma add_safe_ge lhs rhs : lhs <= KTIME_MAX -> lhs <= ktime_add_safe lhs rhs <= KTIME_MAX.
Proof.
  intros Hl. unfold ktime_add_safe. assert (ktime_add lhs rhs <= KTIME_MAX) as Hr.
  { pose proof (swrap_range 64 (lhs + rhs)). lia. }
  destruct (Z.ltb_spec (ktime_add lhs rhs) 0); simpl; [change (ktime_set KTIME_SEC_MAX 0) with KTIME_MAX; lia |].
  destruct (Z.ltb_spec (ktime_add lhs rhs) lhs); simpl; [change (ktime_set KTIME_SEC_MAX 0) with KTIME_MAX; lia |].
  destruct (Z.ltb_spec (ktime_add lhs rhs) rhs); simpl; [change (ktime_set KTIME_SEC_MAX 0) with KTIME_MAX; lia | lia].
Qed.

Lemma reprogram_ok this t b wakeup res st tm cb :
  timers st !! t = Some tm -> clock_of st b = Some cb -> cpu_up st this ->
    exists st' w, hrtimer_enqueue_reprogram this t b wakeup res st = Ret (st', w) /\ same_queues st st'.
Proof.
  intros Ht Hcb [me Hme]. unfold hrtimer_enqueue_reprogram. destruct (get_cpu_Ret _ _ _ Hcb) as (c & -> & _ & _).
  rewrite run_bind_Ret. destruct (hres_active c); [| by do 2 eexists].
  assert (exists r st', hrtimer_reprogram this t b res st = Ret (r, st') /\ same_queues st st') as (r & st' & -> & Hs).
  { unfold hrtimer_reprogram. rewrite (hr_get_timer_Ret _ _ _ Ht), run_bind_Ret. unfold get_cpu. rewrite Hme.
    simpl of_option. rewrite run_bind_Ret, (get_clock_Ret _ _ _ Hcb), run_bind_Ret.
    repeat (case_match; [by do 2 eexists |]). do 2 eexists. split; [done |].
    set (st1 := tick_program_event _ _ _ st).
    assert (same_queues st (put_cpu (set_expires_next (ktime_sub (_expires tm) (offset cb))) this st1)) as Hs by (etrans;
      [apply (same_queues_program this (ktime_sub (_expires tm) (offset cb)) false)
      | by apply (same_queues_cpu _ this st1)]). done. }
  rewrite run_bind_Ret. destruct (r =? 0); [by exists st', false |]. destruct wakeup; [by exists st', true |].
  eexists _, false. split; [done |]. by etrans.
Qed.

(** The timer after [hrtimer_set_expires_range_ns] and [enqueue_hrtimer]. *)
Definition started (c : start_call) (now : Z) (tm : hrtimer) : hrtimer :=
  let tm := hrtimer_set_expires_range_ns tm (if c_rel c then ktime_add_safe (c_tim c) now else c_tim c) (c_delta c) in
  set_state (state tm .| HRTIMER_STATE_ENQUEUED) tm.

Lemma start_finish_sys t c b now res st tm :
  sys_ok st -> timers st !! t = Some tm -> base tm = Some b -> hrtimer_is_queued tm = false -> c_tim c <= KTIME_MAX ->
    cpu_up st (c_this c) ->
  exists st' w, start_finish t c b now res st = Ret (st', w) /\ sys_ok st' /\ touched t st st' /\
    timers st' !! t = Some (started c now tm) /\ starting st' = starting st /\ (w = true -> b.1 = c_this c).
Proof.
  intros H Ht Hb Hn Htim Hthis. unfold start_finish. set (tim := if c_rel c then _ else _).
  assert (tim <= KTIME_MAX) as Htm by (unfold tim; case_match; [by apply add_safe_ge | done]).
  destruct (put_unqueued (fun tm => hrtimer_set_expires_range_ns tm tim (c_delta c)) t tm b st H Ht Hb Hn Hn Hb)
    as (H1 & T1 & Ht1); [cbn; by apply add_safe_ge |].
  set (st1 := put_timer _ t st) in *. destruct (enqueue_sys t b st1 _ H1 Ht1 Hb Hn) as (r & st2 & ->
    & H2 & T2 & Ht2 & S2). rewrite run_bind_Ret. cbn beta iota.
  assert (touched t st st2) as T by (by etrans). destruct (r && (b.1 =? c_this c)) eqn:Er; [| by exists st2, false].
  apply andb_true_iff in Er as [_ Er%Z.eqb_eq].
  assert (is_Some (clock_of st2 b)) as [cb Hcb]. { apply clock_up, (h_up _ _ _ T).
    destruct (s_timer _ H _ _ Ht) as (_ & _ & Hup). by rewrite Hb in Hup. }
  destruct (reprogram_ok (c_this c) t b (c_wakeup c) res st2 _ cb Ht2 Hcb) as (st3 & w & -> & S3); [by apply (h_up _ _ _ T) |].
  exists st3, w. split; [done |]. split; [by eapply same_queues_ok |].
  split; [etrans; [exact T |]; by apply same_queues_touched |]. destruct S3 as [E1 _ E3]. by rewrite E1, E3.
Qed.

(** The calls [c] and [c'] are for the same expiry and have the same result. *)
Definition same_call (c c' : start_call) : Prop :=
  c_this c' = c_this c /\ c_base c' = c_base c /\ c_tim c' = c_tim c /\ c_delta c' = c_delta c /\ c_rel c' = c_rel c /\
    c_ret c' = c_ret c.

(** Either the timer is started, and the call is over or goes on with the softirq on its own CPU, or the timer has no base
    and the call goes on. *)
Definition start_outcome (t : Z) (c : start_call) (now : Z) (tm : hrtimer) (st' : hrtimers) (r : Z * bool + Z) : Prop :=
  match r with
  | inl (ret, w) => ret = c_ret c /\ exists b, timers st' !! t = Some (started c now (set_base (Some b) tm)) /\
      (w = true -> b.1 = c_this c)
  | inr ret => ret = c_ret c /\ timers st' !! t = Some (set_base None tm) /\ exists c', starting st' !! t = Some c' /\
    same_call c c'
  end.

Lemma no_call t tm b st : sys_ok st -> timers st !! t = Some tm -> base tm = Some b -> starting st !! t = None.
Proof.
  intros H Ht Hb. destruct (starting st !! t) as [c|] eqn:E; [| done].
  destruct (s_call _ H _ _ E) as ((tm2 & ? & ?) & _). congruence.
Qed.

Lemma set_base_id b tm : base tm = b -> set_base b tm = tm.
Proof. intros <-. by destruct tm. Qed.

Lemma start_switch_sys t c now res st tm :
  sys_ok st -> timers st !! t = Some tm -> base tm = Some (c_base c) -> hrtimer_is_queued tm = false -> c_tim c <= KTIME_MAX ->
  cpu_up st (c_this c) -> cpu_up st (c_cpu c) ->
  exists st' r, start_switch t c now res st = Ret (st', r) /\ sys_ok st' /\ touched t st st' /\ start_outcome t c now tm st' r /\
    forall c', starting st' !! t = Some c' -> c' = c.
Proof.
  intros H Ht Hb Hn Htim Hthis Hcpu. destruct (s_timer _ H _ _ Ht) as (Hg & Hle & Hup). rewrite Hb in Hup.
  unfold start_switch. rewrite (hr_get_timer_Ret _ _ _ Ht), run_bind_Ret.
  assert (exists st' w, start_finish t c (c_base c) now res st = Ret (st', w) /\ sys_ok st' /\ touched t st st' /\
    start_outcome t c now tm st' (inl (c_ret c, w))) as (st1 & w & E1 & H1 & T1 & O1).
  { destruct (start_finish_sys t c (c_base c) now res st tm H Ht Hb Hn Htim Hthis) as (st' & w & E & ? & ? & Ht' & _ & Hw).
    exists st', w. do 3 (split; [done |]). split; [done |].
    exists (c_base c). by rewrite set_base_id. }
  assert (forall c', starting st1 !! t = Some c' -> c' = c) as Hnone.
  { intros c' Hc'. destruct O1 as (_ & b & Hb' & _). by rewrite (no_call _ _ _ _ H1 Hb' eq_refl) in Hc'. }
  case_bool_decide as Hnb; [rewrite <- Hnb, E1, run_bind_Ret; exists st1, (inl (c_ret c, w)); by do 4 (split; [done |]) |].
  case_match; [rewrite E1, run_bind_Ret; exists st1, (inl (c_ret c, w)); by do 4 (split; [done |]) |].
  do 2 eexists. split; [reflexivity |]. rewrite (put_timer_insert _ _ _ _ Ht). unfold put_starting.
  cbn [timers hrtimer_bases starting softirqs events].
  split; [| split; [apply write_touched; intros u Hu; by rewrite lookup_insert_ne |]].
  - apply write_ok; try done.
    + intros tm2 E. congruence.
    + intros u Hu. by rewrite lookup_insert_ne.
    + split; [done |]. split; [done |]. cbn. rewrite lookup_insert_eq. by split; [eexists |].
    + intros c'. rewrite lookup_insert_eq. intros [= <-]. done.
  - cbn. rewrite !lookup_insert_eq. split; [| by intros c' [= <-]]. split; [done |]. split; [done |]. by exists c.
Qed.

Lemma start_begin_sys this target t tim delta rel wakeup now res st tm b :
  sys_ok st -> timers st !! t = Some tm -> base tm = Some b -> tim <= KTIME_MAX -> cpu_up st this -> cpu_up st target ->
  let c := StartCall this b target tim delta rel wakeup (if hrtimer_is_queued tm then 1 else 0) false in
  exists st' r, start_begin this target t tim delta rel wakeup now res st = Ret (st', r) /\ sys_ok st' /\ touched t st st' /\
    start_outcome t c now (if hrtimer_is_queued tm then set_state HRTIMER_STATE_INACTIVE tm else tm) st' r.
Proof.
  intros H Ht Hb Htim Hthis Htarget c. unfold start_begin, lock_hrtimer_base.
  rewrite (hr_get_timer_Ret _ _ _ Ht), run_bind_Ret, Hb, run_bind_Ret.
  destruct (remove_hrtimer_sys this t b st tm H Ht Hb Hthis) as (st1 & tm1 & -> & H1 & T1 & Ht1 & Etm & Hb1 & Hn1 & _).
  rewrite run_bind_Ret. cbn beta iota. rewrite <- Etm.
  destruct (start_switch_sys t c now res st1 tm1 H1 Ht1) as (st2 & r & E & H2 & T2 & O2 & _);
    [done | done | done | by apply (h_up _ _ _ T1) | by apply (h_up _ _ _ T1) |].
  exists st2, r. split; [exact E |]. split; [done |]. split; [by etrans | done].
Qed.

(** How many more bases a call locks after the next one. *)
Definition phase (c : start_call) : nat := if c_again c then 1 else if c_cpu c =? c_this c then 0 else 2.

Lemma start_again_sys t st tm c : sys_ok st -> starting st !! t = Some c -> timers st !! t = Some tm ->
  let st' := put_starting (<[t := on_this true c]> (starting st)) st in sys_ok st' /\ touched t st st'.
Proof.
  intros H Hc Ht st'. destruct (s_call _ H _ _ Hc) as (Hx & Htim & Hthis & Hcpu & Hcb).
  split; [split |]; [apply (s_clock _ H) | | | split; try done; intros u Hu; cbn; by rewrite lookup_insert_ne].
  - intros u tmu Hu. destruct (s_timer _ H _ _ Hu) as (? & ? & Hb). split; [done |]. split; [done |].
    destruct (base tmu); [done |]. split; [| apply Hb].
    cbn. destruct (decide (u = t)) as [-> | Hne];
      [rewrite lookup_insert_eq; by eexists | rewrite lookup_insert_ne by done; apply Hb].
  - intros u c'. cbn. destruct (decide (u = t)) as [-> | Hne];
      [rewrite lookup_insert_eq; by intros [= <-] | rewrite lookup_insert_ne by done; apply (s_call _ H)].
Qed.

Lemma start_end_sys t now res st tm c :
  sys_ok st -> starting st !! t = Some c -> timers st !! t = Some tm ->
  exists st' r, start_end t now res st = Ret (st', r) /\ sys_ok st' /\ touched t st st' /\ start_outcome t c now tm st' r /\
    forall c', starting st' !! t = Some c' -> (phase c' < phase c)%nat.
Proof.
  intros H Hc Ht. destruct (s_call _ H _ _ Hc) as ((tm2 & Ht2 & Hb) & Htim & Hthis & Hcpu & Hcb). rewrite Ht in Ht2.
  injection Ht2 as <-.
  destruct (s_timer _ H _ _ Ht) as (Hg & Hle & Hnb). rewrite Hb in Hnb. destruct Hnb as [_ Hn].
  unfold start_end. rewrite Hc. simpl of_option. rewrite run_bind_Ret. set (st0 := put_starting (delete _ _) st).
  assert (forall b, cpu_up st b.1 -> let st1 := put_timer (set_base (Some b)) t st0 in sys_ok st1 /\
    touched t st st1 /\ timers st1 !! t = Some (set_base (Some b) tm)) as Hput.
  { intros b Hup. cbn zeta. rewrite (put_timer_insert _ _ _ st0 Ht). cbn.
    split; [| split; [apply write_touched; intros u Hu; by rewrite lookup_delete_ne | by rewrite lookup_insert_eq]].
    apply write_ok; try done; [intros tm2 E; congruence | intros u Hu; by rewrite lookup_delete_ne | intros c';
      by rewrite lookup_delete_eq]. }
  unfold phase at 2. destruct (c_again c).
  { destruct (Hput (c_base c) Hcb) as (H1 & T1 & Ht1).
    destruct (start_switch_sys t (on_this false c) now res _ _ H1 Ht1) as (st2 & r & E & H2 & T2 & O2 & Oc);
      [done | done | done | by apply (h_up _ _ _ T1) | by apply (h_up _ _ _ T1) |].
    exists st2, r. split; [exact E |]. split; [done |]. split; [by etrans |].
    split; [| intros c' Hc'; rewrite (Oc _ Hc'); unfold phase; cbn; rewrite Z.eqb_refl; lia]. destruct r as [[]|]; [done |].
    destruct O2 as (? & ? & c' & Hc' & Hs). split; [done |]. split; [done |]. by exists c'. }
  assert (exists late, (if c_cpu c =? c_this c then Ret false else hrtimer_check_target t (c_cpu c, (c_base c).2) st) =
    Ret late /\ (late = true -> c_cpu c <> c_this c)) as (late & -> & Hlate).
  { destruct (Z.eqb_spec (c_cpu c) (c_this c)); [by exists false |]. unfold hrtimer_check_target, get_cpu. cbn.
    destruct Hcpu as [cb Ecb]. rewrite Ecb. simpl of_option. rewrite run_bind_Ret.
    case_match; [by eexists |]. rewrite (hr_get_timer_Ret t st tm Ht), run_bind_Ret. by eexists. }
  rewrite run_bind_Ret. destruct late.
  - destruct (start_again_sys t st tm c H Hc Ht) as [H1 T1]. do 2 eexists. split; [reflexivity |]. split; [done |].
    split; [done |]. cbn. rewrite lookup_insert_eq, Ht, set_base_id by done.
    split; [split; [done |]; split; [done |]; by eexists |]. intros c' [= <-]. rewrite (proj2 (Z.eqb_neq _ _)) by auto.
    unfold phase. cbn. lia.
  - destruct (Hput (c_cpu c, (c_base c).2) Hcpu) as (H1 & T1 & Ht1).
    destruct (start_finish_sys t c (c_cpu c, (c_base c).2) now res _ _ H1 Ht1) as (st2 & w & -> & H2 & T2 & Ht2 & S2 & Hw);
      [done | done | done | by apply (h_up _ _ _ T1) |]. rewrite run_bind_Ret.
    do 2 eexists. split; [reflexivity |]. split; [done |]. split; [by etrans |]. split; [split; [done |]; by eexists |].
    intros c'. rewrite S2. cbn. by rewrite lookup_delete_eq.
Qed.

Lemma started_base c now b b' tm : started c now (set_base b (set_base b' tm)) = started c now (set_base b tm).
Proof. done. Qed.

Lemma started_same c c' now tm : same_call c c' -> started c' now tm = started c now tm.
Proof. intros (_ & _ & E1 & E2 & E3 & _). unfold started. by rewrite E1, E2, E3. Qed.

(** A call that was not disturbed unlocks the base it has locked. *)
Lemma start_wake_sys this t (w : bool) st tm b :
  sys_ok st -> timers st !! t = Some tm -> base tm = Some b -> (w = true -> b.1 = this) ->
  exists st', (if w then start_wake this t st else Ret st) = Ret st' /\ sys_ok st' /\ touched t st st' /\ timers st' = timers st.
Proof.
  intros H Ht Hb Hw. destruct w; [| by exists st]. specialize (Hw eq_refl). unfold start_wake.
  assert (same_queues st (raise_softirq this st)) as S by done. exists (raise_softirq this st).
  rewrite (hr_get_timer_Ret t (raise_softirq this st) tm Ht), run_bind_Ret, Hb, Hw, Z.eqb_refl.
  split; [done |]. split; [by eapply same_queues_ok |]. split; [by apply same_queues_touched | done].
Qed.

Lemma start_rest_sys fuel t now res st tm c :
  sys_ok st -> starting st !! t = Some c -> timers st !! t = Some tm -> (phase c < fuel)%nat ->
  exists st' b', start_rest fuel (c_this c) t now res st = Ret (st', c_ret c) /\ sys_ok st' /\ touched t st st' /\
    timers st' !! t = Some (started c now (set_base (Some b') tm)).
Proof.
  revert st tm c. induction fuel as [|fuel IH]; [lia |]. intros st tm c H Hc Ht Hph. cbn [start_rest].
  destruct (start_end_sys t now res st tm c H Hc Ht) as (s1 & r & -> & H1 & T1 & O1 & Hlt). rewrite run_bind_Ret.
  cbn beta iota. destruct r as [[ret w]|ret]; destruct O1 as [-> O1].
  { destruct O1 as (b' & Ht1 & Hw). destruct (start_wake_sys (c_this c) t w s1 _ b' H1 Ht1 eq_refl Hw) as (s2 & ->
      & H2 & T2 & E2).
    rewrite run_bind_Ret. exists s2, b'. rewrite E2. split; [done |]. split; [done |]. split; [by etrans | done]. }
  destruct O1 as (Ht1 & c1 & Hc1 & Sc1). specialize (Hlt _ Hc1).
  destruct (IH s1 _ c1 H1 Hc1 Ht1) as (s2 & b' & E & H2 & T2 & Ht2); [lia |].
  exists s2, b'. assert (c_ret c1 = c_ret c /\ c_this c1 = c_this c) as [Hr Hthis] by (split; apply Sc1).
  rewrite <- Hthis, E, Hr. split; [done |]. split; [done |].
  split; [by etrans |]. by rewrite Ht2, started_base, (started_same _ _ _ _ Sc1).
Qed.

Lemma start_sys this target t tim delta rel wakeup now res st tm b :
  sys_ok st -> timers st !! t = Some tm -> base tm = Some b -> tim <= KTIME_MAX -> cpu_up st this -> cpu_up st target ->
  exists st' b', __hrtimer_start_range_ns this target t tim delta rel wakeup now res st = Ret
    (st', if hrtimer_is_queued tm then 1 else 0) /\ sys_ok st' /\ touched t st st' /\
    timers st' !! t = Some (started (StartCall this b target tim delta rel wakeup 0 false) now
      (set_base (Some b') (if hrtimer_is_queued tm then set_state HRTIMER_STATE_INACTIVE tm else tm))).
Proof.
  intros H Ht Hb Htim Hthis Htarget. unfold __hrtimer_start_range_ns.
  destruct (start_begin_sys this target t tim delta rel wakeup now res st tm b H Ht Hb Htim Hthis Htarget) as (s1 & r1 & ->
    & H1 & T1 & O1). rewrite run_bind_Ret. cbn beta iota.
  set (tm0 := if hrtimer_is_queued tm then set_state _ tm else tm) in *.
  destruct r1 as [[ret w]|ret]; destruct O1 as [-> O1].
  { destruct O1 as (b' & Ht1 & Hw). destruct (start_wake_sys this t w s1 _ b' H1 Ht1 eq_refl Hw) as (s2 & -> & H2 & T2 & E2).
    rewrite run_bind_Ret. exists s2, b'. rewrite E2. split; [done |]. split; [done |]. split; [by etrans | done]. }
  destruct O1 as (Ht1 & c1 & Hc1 & Sc1). assert (c_this c1 = this) as Hth by apply Sc1.
  destruct (start_rest_sys 3 t now res s1 _ c1 H1 Hc1 Ht1) as (s2 & b' & E2
    & H2 & T2 & Ht2); [unfold phase; repeat case_match; lia |]. rewrite <- Hth, E2.
  exists s2, b'. assert (c_ret c1 = if hrtimer_is_queued tm then 1 else 0) as -> by apply Sc1. split; [done |].
  split; [done |]. split; [by etrans |]. by rewrite Ht2, started_base, (started_same _ _ _ _ Sc1).
Qed.

(** ** Cancelling *)

Lemma cancel_sys this t b st tm :
  sys_ok st -> timers st !! t = Some tm -> base tm = Some b -> cpu_up st this ->
  exists r st' tm', hrtimer_try_to_cancel this t st = Ret (r, st') /\ sys_ok st' /\ touched t st st' /\
    timers st' !! t = Some tm' /\ base tm' = Some b /\
    if hrtimer_callback_running tm then r = -1 /\ st' = st
    else r = (if hrtimer_is_queued tm then 1 else 0) /\ hrtimer_is_queued tm' = false /\ hrtimer_callback_running tm' = false.
Proof.
  intros H Ht Hb Hthis. unfold hrtimer_try_to_cancel, lock_hrtimer_base.
  rewrite (hr_get_timer_Ret _ _ _ Ht), !run_bind_Ret, Hb, !run_bind_Ret.
  destruct (hrtimer_callback_running tm) eqn:Hcb; [by exists (-1), st, tm |].
  destruct (remove_hrtimer_sys this t b st tm H Ht Hb Hthis) as (st' & tm' & -> & H' & T' & Ht' & Etm & Hb' & Hn' & _).
  exists (if hrtimer_is_queued tm then 1 else 0), st', tm'. do 5 (split; [done |]). split; [done |]. split; [done |].
  subst tm'. by case_match.
Qed.

(** ** Running *)

Lemma run_begin_sys this t b st tm :
  sys_ok st -> timers st !! t = Some tm -> base tm = Some b -> cpu_up st this ->
  exists st', run_begin this t b st = Ret st' /\ sys_ok st' /\ touched t st st' /\
    timers st' !! t = Some (set_state HRTIMER_STATE_CALLBACK tm) /\ starting st' = starting st.
Proof. intros H Ht Hb Hthis. by apply remove_sys. Qed.

(** A change of the state of a timer that is no change for its queue. *)
Lemma put_state_ok f t tm st :
  sys_ok st -> timers st !! t = Some tm -> base (f tm) = base tm -> _expires (f tm) = _expires tm ->
    _softexpires (f tm) = _softexpires tm ->
  hrtimer_is_queued (f tm) = hrtimer_is_queued tm -> sys_ok (put_timer f t st) /\ touched t st (put_timer f t st) /\
    timers (put_timer f t st) !! t = Some (f tm).
Proof.
  intros H Ht Hb He Hs Hq. rewrite (put_timer_insert _ _ _ _ Ht).
  split; [| split; [by apply write_touched | cbn; by rewrite lookup_insert_eq]]. split; cbn.
  - intros b cb Hcb. destruct (s_clock _ H b cb Hcb) as [l Hl]. exists l.
    eapply queue_ext; [| | exact Hl]; unfold queued_at, expires_of; intros a; destruct (decide (a = t)) as [-> | Ha];
      rewrite ?lookup_insert_eq, ?lookup_insert_ne by done; try done.
    + rewrite Ht. split; intros (? & [= <-] & ? & ?); eexists; (split; [done |]); [rewrite <- Hb, <- Hq | rewrite Hb, Hq]; done.
    + intros _. by rewrite Ht.
  - intros u tm2. destruct (decide (u = t)) as [-> | Hu].
    + rewrite lookup_insert_eq. intros [= <-]. destruct (s_timer _ H _ _ Ht) as (? & ? & ?). unfold timer_ok.
      by rewrite Hb, He, Hs, Hq.
    + rewrite lookup_insert_ne by done. intros E. by apply (s_timer _ H).
  - intros u c Hu. destruct (s_call _ H _ _ Hu) as ((tm2 & E & Hn) & ?). split; [| done]. destruct (decide (u = t)) as [-> | Hne].
    + exists (f tm). cbn. rewrite lookup_insert_eq. split; [done |]. rewrite Hb. congruence.
    + exists tm2. cbn. by rewrite lookup_insert_ne.
Qed.

Lemma queued_clear_callback s : negb ((s .& Z.lnot HRTIMER_STATE_CALLBACK) .& HRTIMER_STATE_ENQUEUED =? 0) = negb
  (s .& HRTIMER_STATE_ENQUEUED =? 0).
Proof. rewrite <- Z.land_assoc. done. Qed.

Lemma run_end_sys t b restart st tm :
  sys_ok st -> timers st !! t = Some tm -> (restart = true -> base tm = Some b) ->
  run_end t b restart st = Err BUG /\ restart = true /\ state tm <> HRTIMER_STATE_CALLBACK \/
  exists st' tm', run_end t b restart st = Ret st' /\ sys_ok st' /\ touched t st st' /\ timers st' !! t = Some tm' /\
    base tm' = base tm /\
    _expires tm' = _expires tm /\ _softexpires tm' = _softexpires tm /\
      hrtimer_is_queued tm' = restart || hrtimer_is_queued tm /\ starting st' = starting st.
Proof.
  intros H Ht Hb. unfold run_end. rewrite (hr_get_timer_Ret _ _ _ Ht), run_bind_Ret.
  assert (forall st1 tm1, sys_ok st1 -> timers st1 !! t = Some tm1 ->
    let f := fun tm => set_state (state tm .& Z.lnot HRTIMER_STATE_CALLBACK) tm in
    sys_ok (put_timer f t st1) /\ touched t st1 (put_timer f t st1) /\ timers (put_timer f t st1) !! t = Some (f tm1)) as Hlast.
  { intros st1 tm1 H1 Ht1 f. apply put_state_ok; try done. apply queued_clear_callback. }
  destruct restart.
  - destruct (Z.eqb_spec (state tm) HRTIMER_STATE_CALLBACK) as [Hs|Hs]; [right | by left].
    assert (hrtimer_is_queued tm = false) as Hn by (unfold hrtimer_is_queued; by rewrite Hs).
    destruct (enqueue_sys t b st tm H Ht (Hb eq_refl) Hn) as (r & st1 & Ee & H1 & T1 & Ht1 & S1). simpl negb. cbn iota.
    rewrite Ee, !run_bind_Ret.
    destruct (Hlast _ _ H1 Ht1) as (H2 & T2 & Ht2). do 2 eexists. split; [reflexivity |]. split; [done |].
    split; [by etrans |]. split; [exact Ht2 |]. split_and!; try done.
    unfold hrtimer_is_queued. cbn [set_state state]. rewrite queued_clear_callback. apply queued_or.
  - right. rewrite run_bind_Ret. destruct (Hlast _ _ H Ht) as (H2 & T2 & Ht2). do 2 eexists. split; [reflexivity |].
    split; [done |]. split; [done |]. split; [exact Ht2 |]. split_and!; try done.
    unfold hrtimer_is_queued. cbn [set_state state]. apply queued_clear_callback.
Qed.

(** ** Clocks and CPUs *)

Lemma put_clock_ok f b st : (forall cb, active (f cb) = active cb /\ first (f cb) = first cb) -> sys_ok st ->
  sys_ok (put_clock f b st).
Proof.
  intros Hf H. assert (forall c, cpu_up (put_clock f b st) c <-> cpu_up st c) as Hup.
  { intros c. rewrite <- (clock_up st (c, CLOCK_MONOTONIC)), <- (clock_up _ (c, CLOCK_MONOTONIC)), clock_of_put_clock.
    destruct (decide _) as [<- | ?]; [| done]. by rewrite fmap_is_Some. }
  split.
  - intros b' cb. rewrite clock_of_put_clock. destruct (decide (b' = b)) as [-> | ?]; [| apply (s_clock _ H)].
    destruct (clock_of st b) as [cb0|] eqn:E; [| done]. intros [= <-].
    destruct (s_clock _ H _ _ E) as [l [Q1 Q2 Q3 Q4]]. exists l. destruct (Hf cb0) as [Ha Hfi].
    split; [by rewrite Ha | by rewrite Hfi | done | done].
  - intros t tm Ht. destruct (s_timer _ H t tm Ht) as (? & ? & ?). split; [done |]. split; [done |]. cbn.
    destruct (base tm); [by apply Hup | done].
  - intros t c Hc. destruct (s_call _ H t c Hc) as (? & ? & ? & ? & ?). split; [done |]. rewrite !Hup. done.
Qed.

Lemma firsts_sys st c : sys_ok st -> firsts_ok st c.
Proof. intros H i cb Hcb. destruct (s_clock _ H _ _ Hcb) as [l Hq]. by eapply queue_first. Qed.

(** ** Migrating *)

(** The timers queued at [old] are queued at [new], with the same times; the others are the same. *)
Definition migrated (old new : base_ptr) (st st' : hrtimers) : Prop :=
  forall u, match timers st !! u with
  | None => timers st' !! u = None
  | Some tm => exists tm', timers st' !! u = Some tm' /\ _expires tm' = _expires tm /\ _softexpires tm' = _softexpires tm /\
      if decide (base tm = Some old /\ hrtimer_is_queued tm = true) then base tm' = Some new /\
        hrtimer_is_queued tm' = true else tm' = tm
  end.

Lemma queued_clear_migrate s : negb ((s .& Z.lnot HRTIMER_STATE_MIGRATE) .& HRTIMER_STATE_ENQUEUED =? 0) = negb
  (s .& HRTIMER_STATE_ENQUEUED =? 0).
Proof. rewrite <- Z.land_assoc. done. Qed.

Lemma migrate_first_sys this t old new st tm :
  sys_ok st -> timers st !! t = Some tm -> base tm = Some old -> hrtimer_is_queued tm = true ->
    hrtimer_callback_running tm = false -> cpu_up st this -> cpu_up st new.1 ->
  exists st' tm', migrate_first this t old new st = Ret st' /\ sys_ok st' /\ touched t st st' /\
    starting st' = starting st /\ timers st' !! t = Some tm' /\ base tm' = Some new /\
    hrtimer_is_queued tm' = true /\ _expires tm' = _expires tm /\ _softexpires tm' = _softexpires tm.
Proof.
  intros H Ht Hb Hq Hcr Hthis Hnew. unfold migrate_first. rewrite (hr_get_timer_Ret _ _ _ Ht), run_bind_Ret, Hcr.
  destruct (remove_sys this t old HRTIMER_STATE_MIGRATE false st tm H Ht Hb Hthis) as (s1 & -> & H1 & T1 & Ht1 & S1);
    [done |]. rewrite run_bind_Ret.
  destruct (s_timer _ H _ _ Ht) as (Hg & Hle & _). set (tm1 := set_state HRTIMER_STATE_MIGRATE tm) in *.
  assert (sys_ok (put_timer (set_base (Some new)) t s1) /\ touched t s1 (put_timer (set_base (Some new)) t s1) /\
    timers (put_timer (set_base (Some new)) t s1) !! t = Some (set_base (Some new) tm1)) as (H2 & T2 & Ht2).
  { rewrite (put_timer_insert _ _ _ _ Ht1). split; [| split; [by apply write_touched | cbn; by rewrite lookup_insert_eq]].
    apply write_ok; try done; [intros ? E; rewrite Ht1 in E; by injection E as <- | split; [done |]; split; [done |];
      by apply (h_up _ _ _ T1) |].
    intros c Hc. rewrite S1 in Hc. by rewrite (no_call _ _ _ _ H Ht Hb) in Hc. }
  destruct (enqueue_sys t new _ _ H2 Ht2) as (r & s3 & -> & H3 & T3 & Ht3 & S3); [done | done |]. rewrite run_bind_Ret.
  destruct (put_state_ok (fun tm => set_state (state tm .& Z.lnot HRTIMER_STATE_MIGRATE) tm) t _ s3 H3 Ht3)
    as (H4 & T4 & Ht4); [done | done | done | apply queued_clear_migrate |].
  do 2 eexists. split; [reflexivity |]. split; [done |].
  split; [etrans; [exact T1 |]; etrans; [exact T2 |]; by etrans |]. split; [by rewrite <- S1 |]. split; [exact Ht4 |].
  done.
Qed.

Lemma migrate_list_sys this old new fuel : forall st cb l,
  sys_ok st -> clock_of st old = Some cb -> queue (timers st) old cb l -> (length l <= fuel)%nat -> old <> new ->
    cpu_up st this -> cpu_up st new.1 ->
  (forall t tm, timers st !! t = Some tm -> base tm = Some old -> hrtimer_callback_running tm = false) ->
  exists st', migrate_hrtimer_list fuel this old new st = Ret st' /\ sys_ok st' /\
    (forall c, cpu_up st' c <-> cpu_up st c) /\ migrated old new st st' /\ starting st' = starting st.
Proof.
  induction fuel as [|fuel IH]; intros st cb l H Hcb Hq Hlen Hne Hthis Hnew Hcr; simpl;
    rewrite (get_clock_Ret _ _ _ Hcb), run_bind_Ret;
    (destruct (q_tree _ _ _ _ Hq) as (tr & Hr & _ & Htr)); rewrite (first_at _ _ Hr), Htr; simpl of_option;
      rewrite run_bind_Ret; (destruct l as [|t l]; [| try (simpl in Hlen; lia)]).
  1, 2: exists st; split; [done |]; split; [done |]; split; [done |]; split; [| done]; intros u;
    destruct (timers st !! u) as [tm|] eqn:Hu; [| done]; exists tm; do 3 (split; [done |]);
    rewrite decide_False; [done |]; intros [Hb Hqd]; assert (u ∈ []) as Hi by (apply Hq; by exists tm);
      by apply not_elem_of_nil in Hi.
  simpl. assert (queued_at (timers st) old t) as (tm & Ht & Hb & Hqd) by (apply Hq; set_solver).
  destruct (queue_nodup _ _ _ _ Hq) as [Hnd Hg]. apply Forall_cons in Hg as [[Ht0 _] _].
  rewrite (proj2 (Z.eqb_neq _ _)) by lia.
  destruct (migrate_first_sys this t old new st tm H Ht Hb Hqd (Hcr _ _ Ht Hb) Hthis Hnew) as (s1 & tm1 & ->
    & H1 & T1 & S1 & Ht1 & Hb1 & Hq1 & He1 & Hs1). rewrite run_bind_Ret.
  assert (is_Some (clock_of s1 old)) as [cb1 Hcb1] by (apply clock_up, (h_up _ _ _ T1), clock_up; eauto).
  destruct (s_clock _ H1 _ _ Hcb1) as [l1 Hq1'].
  assert (length l1 <= length l)%nat as Hl1.
  { apply submseteq_length, NoDup_submseteq; [by destruct (queue_nodup _ _ _ _ Hq1') |]. intros u Hu.
    apply Hq1' in Hu as (tmu & Hu & Hbu & Hqu). assert (u <> t) as Hut by (intros ->; congruence).
    rewrite (h_timers _ _ _ T1 u Hut) in Hu. assert (u ∈ t :: l) as [? | ?]%elem_of_cons by (apply Hq; by exists tmu); done. }
  destruct (IH s1 cb1 l1 H1 Hcb1 Hq1') as (s2 & -> & H2 & Hup2 & Hm & S2);
    [simpl in Hlen; lia | done | by apply (h_up _ _ _ T1) | by apply (h_up _ _ _ T1) | |].
  { intros u tmu Hu Hbu. assert (u <> t) as Hut by (intros ->; congruence). rewrite (h_timers _ _ _ T1 u Hut) in Hu.
    by eapply Hcr. }
  exists s2. split; [done |]. split; [done |]. split; [intros c; by rewrite Hup2, (h_up _ _ _ T1) |].
  split; [| by rewrite S2]. intros u. specialize (Hm u). destruct (decide (u = t)) as [-> | Hut].
  - rewrite Ht. rewrite Ht1 in Hm. destruct Hm as (tm2 & Ht2 & He2 & Hs2 & Hd).
    rewrite decide_False in Hd by (intros [? _]; congruence). subst tm2. exists tm1. split; [done |].
    do 2 (split; [done |]). by rewrite decide_True.
  - by rewrite (h_timers _ _ _ T1 u Hut) in Hm.
Qed.

Lemma clock_queue_size ts b cb l : queue ts b cb l -> (length l <= size ts)%nat.
Proof.
  intros Hq. destruct (queue_nodup _ _ _ _ Hq) as [Hnd _].
  rewrite <- size_dom, <- (size_list_to_set (C := gset Z)) by done. apply subseteq_size. intros u Hu.
  apply elem_of_list_to_set in Hu. apply Hq in Hu as (tm & Ht & _). by eapply elem_of_dom_2.
Qed.

Lemma migrated_size old new st st' : migrated old new st st' -> (size (timers st') <= size (timers st))%nat.
Proof.
  intros Hm. rewrite <- !size_dom. apply subseteq_size. intros u Hu. apply elem_of_dom. specialize (Hm u).
  apply elem_of_dom in Hu as [tm Hu]. destruct (timers st !! u); [eauto | congruence].
Qed.

(** What becomes of a timer when the timers of the CPU [scpu] go to the CPU [this]. *)
Definition rehomed (this scpu : Z) (tm tm' : hrtimer) : Prop :=
  _expires tm' = _expires tm /\ _softexpires tm' = _softexpires tm /\ hrtimer_is_queued tm' = hrtimer_is_queued tm /\
  (tm' = tm /\ (hrtimer_is_queued tm = false \/ forall i, base tm <> Some (scpu, i)) \/
   hrtimer_is_queued tm = true /\ exists i, base tm = Some (scpu, i) /\ base tm' = Some (this, i)).

Lemma migrate_sys this scpu st :
  sys_ok st -> this <> scpu -> cpu_up st this -> cpu_up st scpu ->
  (forall t tm i, timers st !! t = Some tm -> base tm = Some (scpu, i) -> hrtimer_callback_running tm = false) ->
  exists st', migrate_hrtimers this scpu st = Ret st' /\ sys_ok st' /\ (forall c, cpu_up st' c <-> cpu_up st c) /\
    starting st' = starting st /\
    forall u, match timers st !! u with None => timers st' !! u = None
      | Some tm => exists tm', timers st' !! u = Some tm' /\ rehomed this scpu tm tm' end.
Proof.
  intros H Hne Hthis Hscpu Hcr. unfold migrate_hrtimers.
  assert (is_Some (clock_of st (scpu, CLOCK_REALTIME))) as [cb Hcb] by (by apply clock_up).
  destruct (s_clock _ H _ _ Hcb) as [l Hq].
  destruct (migrate_list_sys this (scpu, CLOCK_REALTIME) (this, CLOCK_REALTIME) (size (timers st)) st cb l H Hcb Hq)
    as (s1 & -> & H1 & Hup1 & M1 & S1);
    [by eapply clock_queue_size | congruence | done | done | intros t tm Ht Hb; by eapply Hcr |]. rewrite run_bind_Ret.
  assert (is_Some (clock_of s1 (scpu, CLOCK_MONOTONIC))) as [cb1 Hcb1] by (by apply clock_up, Hup1).
  destruct (s_clock _ H1 _ _ Hcb1) as [l1 Hq1].
  pose proof (clock_queue_size _ _ _ _ Hq1) as Hlen. pose proof (migrated_size _ _ _ _ M1) as Hsize.
  destruct (migrate_list_sys this (scpu, CLOCK_MONOTONIC) (this, CLOCK_MONOTONIC) (size (timers st)) s1 cb1 l1 H1 Hcb1
    Hq1) as (s2 & -> & H2 & Hup2 & M2 & S2);
    [lia | congruence | by apply Hup1 | by apply Hup1 | |].
  { intros t tm Ht Hb. specialize (M1 t). destruct (timers st !! t) as [tm0|] eqn:Ht0; [| congruence].
    destruct M1 as (tm' & Ht' & _ & _ & Hd). rewrite Ht in Ht'. injection Ht' as <-.
    destruct (decide _); [destruct Hd; congruence |]. subst tm0. by eapply Hcr. }
  exists s2. split; [done |]. split; [done |]. split; [intros c; by rewrite Hup2, Hup1 |]. split; [by rewrite S2 |].
  intros u. specialize (M1 u). specialize (M2 u).
  destruct (timers st !! u) as [tm|]; [| by rewrite M1 in M2]. destruct M1 as (tm1 & Ht1 & He1 & Hs1 & D1).
  rewrite Ht1 in M2. destruct M2 as (tm2 & Ht2 & He2 & Hs2 & D2).
  exists tm2. split; [done |]. split; [congruence |]. split; [congruence |].
  destruct (decide (base tm = _ /\ _)) as [[Hb Hqd] | Hn1].
  - destruct D1 as [Hb1 Hq1']. rewrite decide_False in D2 by (intros [? _]; congruence). subst tm2.
    split; [congruence |]. right. split; [done |]. by exists CLOCK_REALTIME.
  - subst tm1. destruct (decide (base tm = _ /\ _)) as [[Hb Hqd] | Hn2].
    + destruct D2 as [Hb2 Hq2]. split; [congruence |]. right. split; [done |]. by exists CLOCK_MONOTONIC.
    + subst tm2. split; [done |]. left. split; [done |]. destruct (hrtimer_is_queued tm); [right; intros [] Hb; tauto | by left].
Qed.


End HrtimerSystem.
