(* ===== verification/HrtimerExpire.v ===== *)
(** * High-resolution timers: expiry

    The loop of [hrtimer_interrupt] over the timers of a clock base, under a
    contract for what happens during the callbacks, and [hrtimer_forward], which
    callbacks use to keep that contract. *)
From stdpp Require Import sorting.
From S2P Require Import Prelude RbTree Hrtimer HrtimerQueue HrtimerSystem.

Module HrtimerExpire.
Import RbTree Hrtimer HrtimerQueue HrtimerSystem.

(** ** Callbacks *)

(** The timers of [b] that may be run at [now]. *)
Definition expired (ts : gmap Z hrtimer) (b : base_ptr) (now t : Z) : Prop :=
  exists tm, ts !! t = Some tm /\ base tm = Some b /\ hrtimer_is_queued tm = true /\ _softexpires tm <= now.

(** What [hrtimer_interrupt] needs of a callback and of the other CPUs meanwhile, to
    end: nothing is queued at [b] that has expired already, and a timer that
    is to be restarted has a later time and was not started by anybody else. *)
Class Callbacks (b : base_ptr) (now : Z) (fn : Z -> hrtimers -> bool * hrtimers) : Prop := {
  cb_ok t tm st : sys_ok st -> timers st !! t = Some tm -> base tm = Some b -> state tm = HRTIMER_STATE_CALLBACK ->
    sys_ok (fn t st).2 /\ (forall c, cpu_up st c -> cpu_up (fn t st).2 c) /\
      offset <$> clock_of (fn t st).2 b = offset <$> clock_of st b;
  cb_timer t tm st : sys_ok st -> timers st !! t = Some tm -> base tm = Some b -> state tm = HRTIMER_STATE_CALLBACK ->
    exists tm', timers (fn t st).2 !! t = Some tm' /\
      ((fn t st).1 = true -> base tm' = Some b /\ state tm' = HRTIMER_STATE_CALLBACK /\ now < _softexpires tm');
  cb_expired t tm st u : sys_ok st -> timers st !! t = Some tm -> base tm = Some b -> state tm = HRTIMER_STATE_CALLBACK ->
    expired (timers (fn t st).2) b now u -> expired (timers st) b now u
}.

(** What the interrupt needs on both clocks of a CPU, at the times [basenow]: the contract for each of them, and that the
    callbacks of one neither queue a timer at the other one whose hard expiry has passed, nor change an offset. *)
Definition overdue (ts : gmap Z hrtimer) (b : base_ptr) (now t : Z) : Prop :=
  exists tm, ts !! t = Some tm /\ base tm = Some b /\ hrtimer_is_queued tm = true /\ _expires tm <= now.

Class CpuCallbacks (this : Z) (basenow : clockid -> Z) (fn : Z -> hrtimers -> bool * hrtimers) : Prop := {
  cpu_each :: forall i, Callbacks (this, i) (basenow i) fn;
  cpu_other i j t tm st : i <> j -> sys_ok st -> timers st !! t = Some tm -> base tm = Some (this, i) ->
    state tm = HRTIMER_STATE_CALLBACK ->
    offset <$> clock_of (fn t st).2 (this, j) = offset <$> clock_of st (this, j) /\
    forall u, overdue (timers (fn t st).2) (this, j) (basenow j) u -> overdue (timers st) (this, j) (basenow j) u
}.

Section expire.
Context (this : Z) (b : base_ptr) (now : Z) (fn : Z -> hrtimers -> bool * hrtimers).
Context `{!Callbacks b now fn}.

(** What every turn keeps. *)
Context (R : hrtimers -> hrtimers -> Prop) `{!PreOrder R}.
Context (HR : forall st st' t tm, sys_ok st -> cpu_up st this -> timers st !! t = Some tm -> base tm = Some b ->
  __run_hrtimer this t fn st = Ret st' -> R st st').

(** One turn of the loop. *)
Lemma run_turn st tm t :
  sys_ok st -> cpu_up st this -> timers st !! t = Some tm -> base tm = Some b ->
  exists st', __run_hrtimer this t fn st = Ret st' /\ sys_ok st' /\ cpu_up st' this /\
    offset <$> clock_of st' b = offset <$> clock_of st b /\
    forall u, expired (timers st') b now u -> expired (timers st) b now u /\ u <> t.
Proof.
  intros H Hup Ht Hb. unfold __run_hrtimer. rewrite (hr_get_timer_Ret _ _ _ Ht), run_bind_Ret, Hb. simpl of_option.
  rewrite run_bind_Ret.
  destruct (run_begin_sys this t b st tm H Ht Hb Hup) as (s1 & -> & H1 & T1 & Ht1 & _). rewrite run_bind_Ret.
  destruct (cb_ok _ _ _ H1 Ht1 Hb eq_refl) as (H2 & Hup2 & Hoff).
  destruct (cb_timer _ _ _ H1 Ht1 Hb eq_refl) as (tm2 & Ht2 & Hre).
  pose proof (fun u => cb_expired _ _ _ u H1 Ht1 Hb eq_refl) as Hex.
  destruct (fn t s1) as [restart s2]. cbn [fst snd] in *.
  destruct (run_end_sys t b restart s2 tm2 H2 Ht2) as [(_ & -> & Hs)
    | (s3 & tm3 & -> & H3 & T3 & Ht3 & Hb3 & _ & Hsoft3 & Hq3 & _)].
  { intros ->. by apply Hre. }
  { by destruct (Hre eq_refl) as (_ & ? & _). }
  exists s3. split; [done |]. split; [done |]. split; [apply (h_up _ _ _ T3), Hup2; by apply (h_up _ _ _ T1) |].
  split; [by rewrite (h_offset _ _ _ T3), Hoff, (h_offset _ _ _ T1) |].
  assert (forall u, u <> t -> expired (timers s3) b now u -> expired (timers st) b now u) as Hother.
  { intros u Hu He. assert (expired (timers s1) b now u) as He1 by (apply Hex; unfold expired;
      by rewrite <- (h_timers _ _ _ T3 u Hu)). unfold expired in *. by rewrite <- (h_timers _ _ _ T1 u Hu). }
  assert (~ expired (timers s3) b now t) as Hnot.
  { intros (tm4 & Ht4 & Hb4 & Hq4 & Hs4). rewrite Ht3 in Ht4. injection Ht4 as <-. rewrite Hq3 in Hq4.
    rewrite Hsoft3 in Hs4. destruct restart; [destruct (Hre eq_refl) as (_ & _ & ?); lia |].
    destruct (Hex t) as (tm1 & E1 & _ & Hq1 & _); [exists tm2; split; [done |]; split; [congruence | done] |].
    rewrite Ht1 in E1. injection E1 as <-. done. }
  intros u Hu. assert (u <> t) by (by intros ->). split; [by apply Hother | done].
Qed.

(** The number of timers that may be run. *)
Definition backlog (ts : gmap Z hrtimer) (l : list Z) : nat :=
  length (filter (fun u => from_option _softexpires 0 (ts !! u) <= now) l).

Lemma expired_list ts cb l u : queue ts b cb l ->
  u ∈ filter (fun u => from_option _softexpires 0 (ts !! u) <= now) l <-> expired ts b now u.
Proof.
  intros Hq. rewrite list_elem_of_filter, (q_mem _ _ _ _ Hq). unfold queued_at, expired. split.
  - intros [Hs (tm & Ht & ? & ?)]. rewrite Ht in Hs. by exists tm.
  - intros (tm & Ht & ? & ? & ?). rewrite Ht. split; [done |]. by exists tm.
Qed.

Lemma backlog_less ts ts' cb cb' l l' t :
  queue ts b cb l -> queue ts' b cb' l' -> (forall u, expired ts' b now u -> expired ts b now u /\ u <> t) ->
    expired ts b now t -> (backlog ts' l' < backlog ts l)%nat.
Proof.
  intros Hq Hq' Hu Ht. unfold backlog. set (F := filter _ l). set (F' := filter _ l').
  assert (NoDup (t :: F')) as Hnd.
  { constructor; [intros Hi; apply (expired_list ts' cb' l' t Hq') in Hi; by destruct (Hu _ Hi) | apply NoDup_filter;
      by destruct (queue_nodup _ _ _ _ Hq')]. }
  assert (t :: F' ⊆+ F) as Hsub.
  { apply NoDup_submseteq; [done |]. intros u [-> | Hi]%elem_of_cons; [by apply (expired_list ts cb l) |].
    apply (expired_list ts cb l u Hq). by apply Hu, (expired_list ts' cb' l' u Hq'). }
  apply submseteq_length in Hsub. simpl in Hsub. lia.
Qed.

(** The time of the first timer of a queue, if it is before [next]. *)
Definition next_event (ts : gmap Z hrtimer) (l : list Z) (off next : Z) : Z :=
  match l with [] => next | a :: _ => Z.min (ktime_sub (expires_of ts a) off) next end.

(** The loop stops at an empty queue, or at a timer whose time has not come; then none is due. *)
Lemma expire_stop fuel st cb l next :
  sys_ok st -> clock_of st b = Some cb -> queue (timers st) b cb l ->
  match l with [] => True | a :: _ => exists tm, timers st !! a = Some tm /\ now < _softexpires tm end ->
  expire_loop fuel this b now fn next st = Ret ([], next_event (timers st) l (offset cb) next, st) /\
    Forall (fun u => now < expires_of (timers st) u) l.
Proof.
  intros H Hcb Hq Hl. assert (expire_loop fuel this b now fn next st = (if first cb =? 0 then Ret ([], next, st) else
    tm ← get_timer (first cb) st; if now <? _softexpires tm then Ret ([], if ktime_sub (_expires tm) (offset cb) <?
      next then ktime_sub (_expires tm) (offset cb) else next, st)
    else match fuel with O => Diverge | S fuel => st ← __run_hrtimer this (first cb) fn st;
      '(ran, next, st) ← expire_loop fuel this b now fn next st; Ret ((first cb, tm) :: ran, next, st) end)) as ->.
  { destruct fuel; simpl; by rewrite (get_clock_Ret _ _ _ Hcb), run_bind_Ret. }
  rewrite (q_first _ _ _ _ Hq). destruct l as [|a l]; simpl hd; [done |]. destruct Hl as (tm & Ht & Hnow).
  destruct (queue_nodup _ _ _ _ Hq) as [_ Hg]. apply Forall_cons in Hg as [[Ha _] _].
  rewrite (proj2 (Z.eqb_neq _ _)) by lia. rewrite (hr_get_timer_Ret _ _ _ Ht), run_bind_Ret,
    (proj2 (Z.ltb_lt _ _) Hnow). simpl. assert (expires_of (timers st) a = _expires tm) as Ea by (unfold expires_of;
    by rewrite Ht). split.
  - rewrite Ea. do 3 f_equal. destruct (Z.ltb_spec (ktime_sub (_expires tm) (offset cb)) next); lia.
  - destruct (s_timer _ H _ _ Ht) as (_ & Hle & _). pose proof (q_sorted _ _ _ _ Hq) as Hs.
    apply StronglySorted_inv in Hs as [_ Hs]. constructor; [rewrite Ea; lia |].
    eapply Forall_impl; [exact Hs |]. intros u Hu. unfold sooner in Hu. rewrite Ea in Hu. lia.
Qed.

Lemma expire_loop_sys fuel : forall st cb l next,
  sys_ok st -> cpu_up st this -> clock_of st b = Some cb -> queue (timers st) b cb l -> (backlog (timers st) l <= fuel)%nat ->
  exists ran st' l' cb', expire_loop fuel this b now fn next st = Ret (ran, next_event (timers st') l' (offset cb)
    next, st') /\ sys_ok st' /\ cpu_up st' this /\ R st st' /\ offset cb' = offset cb /\
    clock_of st' b = Some cb' /\ queue (timers st') b cb' l' /\
    Forall (fun p : Z * hrtimer => _softexpires p.2 <= now /\ base p.2 = Some b) ran /\
      Forall (fun u => now < expires_of (timers st') u) l'.
Proof.
  induction fuel as [|fuel IH]; intros st cb l next H Hup Hcb Hq Hfuel;
    (destruct l as [|a l]; [destruct (expire_stop 0 st cb [] next H Hcb Hq I) as [_ ?]; exists [], st, [], cb; split;
      [by apply expire_stop | done] |]);
    (assert (queued_at (timers st) b a) as (tm & Ht & Hb & Hqd) by (apply Hq; set_solver));
    (destruct (Z.ltb_spec now (_softexpires tm)) as [Hnow|Hnow];
      [destruct (expire_stop 0 st cb (a :: l) next H Hcb Hq) as [_ ?]; [by exists tm |]; exists [], st, (a :: l), cb;
        split; [apply expire_stop; eauto | done] |]);
    (assert (expired (timers st) b now a) as Hex by (by exists tm)).
  { apply (expired_list _ _ _ _ Hq) in Hex. unfold backlog in Hfuel.
    destruct (filter _ (a :: l)) eqn:Ef; [by apply not_elem_of_nil in Hex | simpl in Hfuel; lia]. }
  destruct (run_turn st tm a H Hup Ht Hb) as (s1 & E1 & H1 & Hup1 & Hoff & Hless).
  assert (is_Some (clock_of s1 b)) as [cb1 Hcb1] by (apply (fmap_is_Some offset); rewrite Hoff, Hcb; by eexists).
  destruct (s_clock _ H1 _ _ Hcb1) as [l1 Hq1]. pose proof (backlog_less _ _ _ _ _ _ _ Hq Hq1 Hless Hex) as Hbl.
  destruct (IH s1 cb1 l1 next H1 Hup1 Hcb1 Hq1 ltac:(lia))
    as (ran & s2 & l2 & cb2 & E2 & H2 & Hup2 & HR2 & Eo2 & Hcb2 & Hq2 & Hran & Hl2).
  assert (offset cb1 = offset cb) as Eo by (rewrite Hcb1, Hcb in Hoff; by injection Hoff). rewrite Eo in E2.
  exists ((a, tm) :: ran), s2, l2, cb2.
  split; [| do 2 (split; [done |]); split; [by etrans; [eapply HR |] |]; split; [by rewrite Eo2 |]; do 2 (split; [done |]);
    split; [by constructor | done]].
  simpl. rewrite (get_clock_Ret _ _ _ Hcb), run_bind_Ret, (q_first _ _ _ _ Hq). simpl hd.
  destruct (queue_nodup _ _ _ _ Hq) as [_ Hg]. apply Forall_cons in Hg as [[Ha _] _].
  rewrite (proj2 (Z.eqb_neq _ _)) by lia. rewrite (hr_get_timer_Ret _ _ _ Ht), run_bind_Ret,
    (proj2 (Z.ltb_ge _ _) Hnow), E1, run_bind_Ret, E2, run_bind_Ret. done.
Qed.

End expire.

(** ** The interrupt *)

Lemma bind_inv {A B} (m : M A) (f : A -> M B) y : (m ≫= f) = Ret y -> exists x, m = Ret x /\ f x = Ret y.
Proof. destruct m as [x| |]; try done. intros E. by exists x. Qed.

Lemma expire_loop_more fuel k this b now fn next st r : (fuel <= k)%nat ->
  expire_loop fuel this b now fn next st = Ret r -> expire_loop k this b now fn next st = Ret r.
Proof.
  revert k next st r. induction fuel as [|fuel IH]; intros k next st r Hk; (destruct k as [|k]; [try lia; done |]);
    simpl; destruct (get_clock b st) as [cb| |]; try done; rewrite !run_bind_Ret;
    (case_match; [done |]); destruct (get_timer (first cb) st) as [tm| |]; try done; rewrite !run_bind_Ret;
      (case_match; [done |]); [done |].
  destruct (__run_hrtimer this (first cb) fn st) as [s1| |]; try done. rewrite !run_bind_Ret. intros E.
  apply bind_inv in E as (x & E & E').
  rewrite (IH k next s1 x ltac:(lia) E), run_bind_Ret. done.
Qed.

Section interrupt.
Context (this : Z) (off : clockid -> Z).

(** The offsets of the clocks of this CPU. *)
Definition offsets (st : hrtimers) : Prop := forall i, offset <$> clock_of st (this, i) = Some (off i).
Definition basenow (now : Z) (i : clockid) : Z := ktime_add now (off i).

(** No timer of this CPU is left whose hard expiry had passed at [now]. *)
Definition none_overdue (st : hrtimers) (now : Z) : Prop := forall i u, ~ overdue (timers st) (this, i) (basenow now i) u.

Lemma put_cpu_sys f st : (forall cb i, clock_base (f cb) i = clock_base cb i) -> sys_ok st -> cpu_up st this ->
  sys_ok (put_cpu f this st) /\ cpu_up (put_cpu f this st) this.
Proof.
  intros Hf H Hup. assert (same_queues st (put_cpu f this st)) as S by (by apply same_queues_cpu).
  split; [by eapply same_queues_ok |]. by apply (h_up 0 _ _ (same_queues_touched 0 _ _ S)).
Qed.

Lemma same_offsets st st' : same_queues st st' -> offsets st -> offsets st'.
Proof. intros S H i. by rewrite (h_offset _ _ _ (same_queues_touched 0 _ _ S)). Qed.

Lemma put_cpu_offsets f st : (forall cb i, clock_base (f cb) i = clock_base cb i) -> offsets st -> offsets (put_cpu f this st).
Proof. intros Hf. apply same_offsets. by apply same_queues_cpu. Qed.

(** What the callbacks of one clock leave of the other. *)
Definition other_kept (j : clockid) (now : Z) (st st' : hrtimers) : Prop :=
  offset <$> clock_of st' (this, j) = offset <$> clock_of st (this, j) /\
  forall u, overdue (timers st') (this, j) (basenow now j) u -> overdue (timers st) (this, j) (basenow now j) u.

#[local] Instance other_kept_preorder j now : PreOrder (other_kept j now).
Proof. split; [by split |]. intros x y z [E1 H1] [E2 H2]. split; [congruence | auto]. Qed.

Lemma run_other i j now fn st st' t tm : i <> j -> CpuCallbacks this (basenow now) fn -> sys_ok st -> cpu_up st this ->
  timers st !! t = Some tm -> base tm = Some (this, i) -> __run_hrtimer this t fn st = Ret st' -> other_kept j now st st'.
Proof.
  intros Hij Hcbs H Hup Ht Hb. unfold __run_hrtimer. rewrite (hr_get_timer_Ret _ _ _ Ht), run_bind_Ret, Hb.
  simpl of_option. rewrite run_bind_Ret.
  destruct (run_begin_sys this t (this, i) st tm H Ht Hb Hup) as (s1 & -> & H1 & T1 & Ht1 & _). rewrite run_bind_Ret.
  destruct (cpu_other i j t _ s1 Hij H1 Ht1 Hb eq_refl) as (Hoff & Hex).
  destruct (cb_ok _ _ _ H1 Ht1 Hb eq_refl) as (H2 & _). destruct (cb_timer _ _ _ H1 Ht1 Hb eq_refl) as (tm2 & Ht2 & Hre).
  destruct (fn t s1) as [restart s2]. cbn [fst snd] in *. intros E.
  destruct (run_end_sys t (this, i) restart s2 tm2 H2 Ht2) as [(E2 & _)
    | (s3 & tm3 & E3 & _ & T3 & Ht3 & Hb3 & Hx3 & _ & Hq3 & _)]; [intros ->; by apply Hre | congruence |].
  rewrite E in E3. injection E3 as <-. split; [by rewrite (h_offset _ _ _ T3), Hoff, (h_offset _ _ _ T1) |].
  intros u (tm4 & Hu & Hb4 & Hq4 & Hx4).
  assert (overdue (timers s1) (this, j) (basenow now j) u) as (tm5 & Hu5 & ? & Hq5 & ?).
  { apply Hex. destruct (decide (u = t)) as [->|Hne]; [| exists tm4; by rewrite <- (h_timers _ _ _ T3 u Hne)].
    exists tm2. rewrite Ht3 in Hu. injection Hu as <-. rewrite Hb3 in Hb4. rewrite Hx3 in Hx4. rewrite Hq3 in Hq4.
    split; [done |]. split; [done |]. split; [| done]. destruct restart; [| done].
    destruct (Hre eq_refl) as (Hb2 & _). congruence. }
  destruct (decide (u = t)) as [->|Hne]; [| exists tm5; by rewrite <- (h_timers _ _ _ T1 u Hne)].
  rewrite Ht1 in Hu5. injection Hu5 as <-. done.
Qed.

Lemma expire_enough i j now next st fn : i <> j -> CpuCallbacks this (basenow now) fn -> sys_ok st -> cpu_up st this ->
  offsets st ->
  exists cb n ran next' st', get_clock (this, i) st = Ret cb /\ sys_ok st' /\ cpu_up st' this /\ offsets st' /\
    other_kept j now st st' /\ (forall u, ~ overdue (timers st') (this, i) (basenow now i) u) /\
    forall k, (n <= k)%nat -> expire_loop k this (this, i) (ktime_add now (offset cb)) fn next st = Ret (ran, next', st').
Proof.
  intros Hij Hcbs H Hup Ho. destruct (proj2 (clock_up st (this, i)) Hup) as [cb Hcb]. destruct (s_clock _ H _ _ Hcb) as [l Hq].
  pose proof (Ho i) as Hoi. rewrite Hcb in Hoi. injection Hoi as Eo.
  destruct (expire_loop_sys this (this, i) (basenow now i) fn (other_kept j now)
    (fun st0 st1 t tm H0 Hup0 Ht0 Hb0 E0 => run_other i j now fn st0 st1 t tm Hij Hcbs H0 Hup0 Ht0 Hb0 E0)
    (backlog (basenow now i) (timers st) l) st cb l next H Hup Hcb Hq)
    as (ran & st' & l' & cb' & E & H' & Hup' & HR & Eo' & Hcb' & Hq' & _ & Hl'); [done |].
  do 5 eexists. split; [by apply get_clock_Ret |]. split; [exact H' |]. split; [exact Hup' |]. split.
  { intros i'. destruct (decide (i' = i)) as [->|Hne]; [by rewrite Hcb'; cbn; rewrite Eo', Eo |].
    assert (i' = j) as -> by (destruct i, j, i'; congruence). destruct HR as [-> _]. apply Ho. }
  split; [exact HR |]. split; [| intros k Hk; rewrite Eo; by eapply expire_loop_more].
  intros u (tm & Hu & Hb & Hqd & Hx). rewrite Forall_forall in Hl'.
  specialize (Hl' u ltac:(apply Hq'; by exists tm)). unfold expires_of in Hl'. rewrite Hu in Hl'. cbn in Hl'. lia.
Qed.

Lemma interrupt_pass_enough now st fn : CpuCallbacks this (basenow now) fn -> sys_ok st -> cpu_up st this -> offsets st ->
  exists n next st', sys_ok st' /\ cpu_up st' this /\ offsets st' /\ none_overdue st' now /\
    (forall cb, hrtimer_bases st' !! this = Some cb -> expires_next cb = next) /\
    forall k, (n <= k)%nat -> interrupt_pass k this now fn st = Ret (next, st').
Proof.
  intros Hcbs H Hup Ho. destruct (put_cpu_sys (set_expires_next KTIME_MAX) st) as [H0 Hup0]; [done | done | done |].
  pose proof (put_cpu_offsets (set_expires_next KTIME_MAX) st ltac:(done) Ho) as Ho0.
  destruct (expire_enough CLOCK_REALTIME CLOCK_MONOTONIC now KTIME_MAX _ fn ltac:(done) Hcbs H0 Hup0 Ho0)
    as (c1 & n1 & r1 & x1 & s1 & E1 & H1 & Hup1 & Ho1 & _ & N1 & L1).
  destruct (expire_enough CLOCK_MONOTONIC CLOCK_REALTIME now x1 s1 fn ltac:(done) Hcbs H1 Hup1 Ho1)
    as (c2 & n2 & r2 & x2 & s2 & E2 & H2 & Hup2 & Ho2 & [_ K2] & N2 & L2).
  destruct (put_cpu_sys (set_expires_next x2) s2) as [H3 Hup3]; [done | done | done |].
  exists (n1 + n2)%nat, x2, (put_cpu (set_expires_next x2) this s2). split; [done |]. split; [done |].
  split; [by apply put_cpu_offsets |]. split; [intros [] u Hu; [by apply (N1 u), K2 | by apply (N2 u)] |]. split.
  - intros cb. cbn. rewrite lookup_alter_eq. destruct (hrtimer_bases s2 !! this); [by intros [= <-] | done].
  - intros k Hk. unfold interrupt_pass.
    rewrite E1, run_bind_Ret, L1, run_bind_Ret by lia. cbn beta iota. rewrite E2, run_bind_Ret, L2, run_bind_Ret by lia. done.
Qed.

(** The times of the attempts. *)
Fixpoint attempts (now : Z) (later : list (Z * Z)) : list Z :=
  now :: match later with (_, now) :: (_ :: _) as later => attempts now later | _ => [] end.

Definition hang_event (entry_time now : Z) : Z :=
  let delta := ktime_sub now entry_time in
  if delta >? 100 * NSEC_PER_MSEC then ktime_add_ns now (100 * NSEC_PER_MSEC) else ktime_add now delta.

(** After the attempts the interrupt is over: no timer is overdue for the last of them, and the next event is programmed
    or none is needed, or a hang was detected and the next event forced. *)
Definition interrupted (entry_time now : Z) (later : list (Z * Z)) (st : hrtimers) : Prop :=
  exists cb, hrtimer_bases st !! this = Some cb /\
    (exists x, x ∈ attempts now later /\ none_overdue st x) /\
    if hang_detected cb then Forall (fun r => r.1 <> 0) later /\ exists now, snd <$> last later = Some now /\
      hd_error (events st) = Some (this, hang_event entry_time now, true)
    else expires_next cb = KTIME_MAX \/ hd_error (events st) = Some (this, expires_next cb, false).

Lemma put_cpu_lookup f st cb : hrtimer_bases st !! this = Some cb -> hrtimer_bases (put_cpu f this st) !! this = Some (f cb).
Proof. intros Hcb. cbn. by rewrite lookup_alter_eq, Hcb. Qed.

Lemma interrupted_done entry_time now later st f : cpu_up st this ->
  (forall cb, hang_detected (f cb) = false /\ expires_next (f cb) = expires_next cb) -> none_overdue st now ->
  (forall cb, hrtimer_bases st !! this = Some cb ->
    expires_next cb = KTIME_MAX \/ hd_error (events st) = Some (this, expires_next cb, false)) ->
  interrupted entry_time now later (put_cpu f this st).
Proof.
  intros [cb Hcb] Hf Hn He. destruct (Hf cb) as [Hf1 Hf2]. exists (f cb). split; [by apply put_cpu_lookup |].
  split; [exists now; split; [destruct later as [|[]]; left | done] |]. rewrite Hf1, Hf2. by apply He.
Qed.

Lemma interrupt_tries_enough fn entry_time later : forall now st, later <> [] ->
  (forall x, x ∈ attempts now later -> CpuCallbacks this (basenow x) (fn x)) -> sys_ok st -> cpu_up st this -> offsets st ->
  exists n st', sys_ok st' /\ interrupted entry_time now later st' /\ forall k, (n <= k)%nat ->
    interrupt_tries k this entry_time now later fn st = Ret st'.
Proof.
  induction later as [|[res now1] later IH]; intros now st Hne Hcbs H Hup Ho; [done |].
  destruct (interrupt_pass_enough now st (fn now)) as (n & next & s1 & H1 & Hup1 & Ho1 & N1 & X1 & L1);
    [apply Hcbs; destruct later; left | done | done | done |].
  set (s2 := tick_program_event this next false s1).
  assert (same_queues s1 s2) as S2 by apply same_queues_program.
  assert (sys_ok s2 /\ offsets s2) as [H2 Ho2] by (split; [by eapply same_queues_ok | by eapply same_offsets]).
  destruct (next =? KTIME_MAX) eqn:Emax; [| destruct (res =? 0) eqn:Eres].
  - exists n. eexists. split; [| split; [| intros k Hk; simpl; rewrite L1, run_bind_Ret by done; rewrite Emax;
      reflexivity]]; [by apply put_cpu_sys | apply interrupted_done; [done | done | done |]].
    intros cb Hcb. left. rewrite (X1 cb Hcb). by apply Z.eqb_eq.
  - exists n. eexists. split; [| split; [| intros k Hk; simpl; rewrite L1, run_bind_Ret by done; rewrite Emax, Eres;
      reflexivity]]; [by apply put_cpu_sys | apply interrupted_done; [done | done | done |]].
    intros cb Hcb. right. cbn. by rewrite (X1 cb Hcb).
  - apply Z.eqb_neq in Eres as Hres. set (f :=
      fun cb => set_counts (hang_detected cb) (u64 (nr_retries cb + 1)) (nr_hangs cb) (max_hang_time cb) cb).
    destruct (put_cpu_sys f s2) as [H3 Hup3]; [done | done | exact Hup1 |]. destruct later as [|r later].
    + exists n. eexists. split; [| split; [| intros k Hk; simpl; rewrite L1, run_bind_Ret by done; rewrite Emax, Eres;
        reflexivity]].
      { eapply same_queues_ok; [apply same_queues_program | by apply put_cpu_sys]. }
      destruct Hup3 as [cb Hcb]. eexists. split; [exact (put_cpu_lookup _ _ _ Hcb) |].
      split; [exists now; split; [left | exact N1] |].
      split; [by apply list.Forall_singleton |]. exists now1. by split.
    + destruct (IH now1 (put_cpu f this s2)) as (n2 & s4 & H4 & (cb & Hcb & (x & Hx & Nx) & Hh) & L4);
        [done | intros x Hx; apply Hcbs; by right | done | done | by apply put_cpu_offsets |].
      exists (n + n2)%nat, s4. split; [done |]. split.
      * exists cb. split; [done |]. split; [exists x; split; [by right | done] |].
        destruct (hang_detected cb); [| done]. destruct Hh as [Hall Hlast]. split; [by constructor | exact Hlast].
      * intros k Hk. simpl. rewrite L1, run_bind_Ret by lia. rewrite Emax, Eres. apply L4. lia.
Qed.

End interrupt.

(** ** Callbacks that keep the contract *)

(** A callback that sets its timer to a new time and restarts it. *)
Definition rearm (e t : Z) (st : hrtimers) : bool * hrtimers := (true, put_timer (fun tm => hrtimer_set_expires tm e) t st).

Lemma rearm_keeps e t tm b st : sys_ok st -> timers st !! t = Some tm -> base tm = Some b -> state tm = HRTIMER_STATE_CALLBACK ->
  sys_ok (rearm e t st).2 /\ touched t st (rearm e t st).2 /\ timers (rearm e t st).2 !! t = Some (set_times e e tm).
Proof.
  intros H Ht Hb Hs. assert (hrtimer_is_queued tm = false) as Hn by (unfold hrtimer_is_queued; by rewrite Hs).
  by apply (put_unqueued (fun tm => hrtimer_set_expires tm e) t tm b st H Ht Hb Hn Hn Hb).
Qed.

Lemma rearm_callbacks b now e : now < e -> Callbacks b now (rearm e).
Proof.
  intros He. split; intros t tm st; [| | intros u]; intros H Ht Hb Hs;
    destruct (rearm_keeps e t tm b st H Ht Hb Hs) as (H' & T & Ht').
  - split; [done |]. split; [intros c; by apply (h_up _ _ _ T) | apply (h_offset _ _ _ T)].
  - eexists. by split.
  - intros (tm' & Hu & Hb' & Hq & Hx). destruct (decide (u = t)) as [->|Hne];
      [| exists tm'; by rewrite <- (h_timers _ _ _ T u Hne)].
    rewrite Ht' in Hu. injection Hu as <-. unfold hrtimer_is_queued in Hq. cbn in Hq. by rewrite Hs in Hq.
Qed.

Lemma rearm_cpu_callbacks this basenow e : (forall i, basenow i < e) -> CpuCallbacks this basenow (rearm e).
Proof.
  intros He. split; [intros i; by apply rearm_callbacks |]. intros i j t tm st _ H Ht Hb Hs.
  destruct (rearm_keeps e t tm _ st H Ht Hb Hs) as (_ & T & Ht'). split; [apply (h_offset _ _ _ T) |].
  intros u (tm' & Hu & Hb' & Hq & Hx). destruct (decide (u = t)) as [->|Hne];
    [| exists tm'; by rewrite <- (h_timers _ _ _ T u Hne)].
  rewrite Ht' in Hu. injection Hu as <-. unfold hrtimer_is_queued in Hq. cbn in Hq. by rewrite Hs in Hq.
Qed.

(** ** [hrtimer_forward] *)

Lemma ktime_small x : - 2 ^ 63 <= x < 2 ^ 63 -> s64 x = x.
Proof. intros Hx. apply swrap_small; [lia | exact Hx]. Qed.

Lemma add_safe_min lhs rhs : 0 <= lhs <= KTIME_MAX -> 0 <= rhs <= KTIME_MAX ->
  ktime_add_safe lhs rhs = Z.min (lhs + rhs) KTIME_MAX.
Proof.
  intros Hl Hr. unfold ktime_add_safe.
  change (ktime_set KTIME_SEC_MAX 0) with KTIME_MAX. destruct (Z_le_gt_dec (lhs + rhs) KTIME_MAX) as [H|H].
  - rewrite ktime_small by lia. zbool. simpl. lia.
  - assert (s64 (lhs + rhs) = lhs + rhs - 2 ^ 64) as -> by (unfold swrap;
      rewrite <- (Z_mod_plus_full _ (-1)), Z.mod_small by lia; lia).
    rewrite (proj2 (Z.ltb_lt _ 0)) by lia. simpl. lia.
Qed.

Lemma forward_exact tm res now interval :
  0 <= _softexpires tm <= _expires tm -> _expires tm <= now -> now <= KTIME_MAX -> 1 <= res <= KTIME_MAX ->
    interval <= KTIME_MAX ->
  let i := Z.max interval res in
  let n := (now - _expires tm) / i + 1 in
  hrtimer_forward tm res now interval = (n, set_times (Z.min (_expires tm + n * i) KTIME_MAX)
    (Z.min (_softexpires tm + n * i) KTIME_MAX) tm) /\
  now < _expires tm + n * i <= now + i.
Proof.
  intros Hs He Hn Hr Hi i n. assert (1 <= i <= KTIME_MAX) as Hib by (unfold i; lia).
  pose proof (Z.div_mod (now - _expires tm) i ltac:(lia)) as Hdm.
  pose proof (Z.mod_pos_bound (now - _expires tm) i ltac:(lia)) as Hmod.
  pose proof (Z.div_pos (now - _expires tm) i ltac:(lia) ltac:(lia)) as Hq0. set (q := (now - _expires tm) / i) in *.
  split; [| unfold n; nia]. assert (q * i <= now - _expires tm) as Hqi by nia. assert (q <= now - _expires tm) as Hq1 by nia.
  unfold hrtimer_forward. rewrite ktime_small by lia. rewrite (proj2 (Z.ltb_ge _ _)) by lia.
  assert ((if interval <? res then res else interval) = i) as -> by (unfold i; destruct (Z.ltb_spec interval res); lia).
  rewrite Z.geb_leb. destruct (Z.leb_spec i (now - _expires tm)) as [Hd|Hd].
  - rewrite Z.quot_div_nonneg by lia. fold q. rewrite (uwrap_small 64 q), (uwrap_small 64 (i * q)) by lia.
    unfold hrtimer_add_expires_ns. rewrite !ktime_small by lia. cbn [set_times _expires].
    rewrite Z.gtb_ltb, (proj2 (Z.ltb_ge _ _)) by lia.
    rewrite uwrap_small by lia. unfold hrtimer_add_expires, set_times. cbn [_expires _softexpires function base state].
    rewrite !add_safe_min by (lia).
    unfold n. do 2 f_equal; lia.
  - assert (q = 0) as Hq by (apply Z.div_small; lia). assert (n = 1) as -> by (unfold n; lia).
    unfold hrtimer_add_expires. rewrite !add_safe_min by (lia).
    do 2 f_equal; lia.
Qed.

End HrtimerExpire.
