(* ===== verification/HrtimerRun.v ===== *)
(** * High-resolution timers: the system

    Any interleaving of the critical sections of kernel/hrtimer.c on any
    number of CPUs as a step relation, the invariant of its reachable states, what
    starting, cancelling and expiring do in them, and a state in which a
    cancelled timer still runs. *)
From stdpp Require Import sorting relations.
From S2P Require Import Prelude RbTree RbTreeColor RbTreeErase RbTreeSpec Hrtimer HrtimerQueue HrtimerSystem HrtimerExpire.

Module HrtimerRun.
Import RbTree RbTreeColor RbTreeErase RbTreeSpec Hrtimer HrtimerQueue HrtimerSystem HrtimerExpire.

(** ** Steps *)

(** A callback that runs: its timer, the base [__run_hrtimer] has, and whether
    nobody has started the timer since.  [waking]: the CPUs that have unlocked
    their base in the middle of a call that starts a timer, to raise the softirq,
    with the timer. *)
Record system := System { hr : hrtimers; running : list (Z * base_ptr * bool); waking : list (Z * Z) }.

Definition mark (t : Z) (e : Z * base_ptr * bool) : Z * base_ptr * bool := if e.1.1 =? t then (e.1, false) else e.

Definition woken (this t : Z) (r : Z * bool + Z) : list (Z * Z) := match r with inl (_, true) => [(this, t)] | _ => [] end.

(** As the source demands, a callback returns HRTIMER_RESTART only if nobody
    has started its timer meanwhile, a timer is initialised only while nothing
    uses it, the fields of a queued timer are not written to by hand, and no callback runs on a CPU that is gone. *)
Inductive step (s : system) : system -> Prop :=
  | Step_start_begin this target t tim delta rel wakeup now res st' r :
      tim <= KTIME_MAX -> cpu_up (hr s) this -> cpu_up (hr s) target ->
      start_begin this target t tim delta rel wakeup now res (hr s) = Ret (st', r) ->
      step s (System st' (mark t <$> running s) (woken this t r ++ waking s))
  | Step_start_end t c now res st' r : starting (hr s) !! t = Some c -> start_end t now res (hr s) = Ret (st', r) ->
      step s (System st' (mark t <$> running s) (woken (c_this c) t r ++ waking s))
  | Step_start_wake this t st' l1 l2 : waking s = l1 ++ (this, t) :: l2 -> start_wake this t (hr s) = Ret st' ->
      step s (System st' (running s) (l1 ++ l2))
  | Step_cancel this t r st' : cpu_up (hr s) this -> hrtimer_try_to_cancel this t (hr s) = Ret (r, st') ->
    step s (System st' (running s) (waking s))
  | Step_init this t clock abs :
      good_addr t -> cpu_up (hr s) this -> starting (hr s) !! t = None -> (forall tm, timers (hr s) !! t = Some tm ->
        hrtimer_is_queued tm = false) ->
      (forall b f, (t, b, f) ∉ running s) -> (forall c, (c, t) ∉ waking s) ->
      step s (System (__hrtimer_init this t clock abs (hr s)) (running s) (waking s))
  | Step_write t tm b e soft fn :
      timers (hr s) !! t = Some tm -> base tm = Some b -> hrtimer_is_queued tm = false -> soft <= e ->
      step s (System (put_timer (fun tm => HrTimer e soft fn (base tm) (state tm)) t (hr s)) (running s) (waking s))
  | Step_run_begin t b cb st' :
      clock_of (hr s) b = Some cb -> first cb = t -> t <> 0 -> run_begin b.1 t b (hr s) = Ret st' ->
        step s (System st' ((t, b, true) :: running s) (waking s))
  | Step_run_end t b f restart st' l1 l2 :
      running s = l1 ++ (t, b, f) :: l2 -> (restart = true -> f = true) -> run_end t b restart (hr s) = Ret st' ->
        step s (System st' (l1 ++ l2) (waking s))
  | Step_migrate this scpu st' :
      this <> scpu -> cpu_up (hr s) this -> cpu_up (hr s) scpu -> Forall (fun e => e.1.2.1 <> scpu) (running s) ->
      (forall t tm i, timers (hr s) !! t = Some tm -> base tm = Some (scpu, i) -> hrtimer_callback_running tm = false) ->
      migrate_hrtimers this scpu (hr s) = Ret st' -> step s (System st' (running s) (waking s))
  | Step_cpu f c : (forall cb i, clock_base (f cb) i = clock_base cb i) ->
    step s (System (put_cpu f c (hr s)) (running s) (waking s))
  | Step_clock f b : (forall cb, active (f cb) = active cb /\ first (f cb) = first cb) ->
    step s (System (put_clock f b (hr s)) (running s) (waking s))
  | Step_reprogram this c skip st' : hrtimer_force_reprogram this c skip (hr s) = Ret st' ->
    step s (System st' (running s) (waking s)).

(** The base of a CPU after boot. *)
Abbreviation KTIME_LOW_RES := 10000000 (only parsing).
Definition empty_clock : hrtimer_clock_base := ClockBase (RbRoot ∅ 0) 0 KTIME_LOW_RES 0 0.
Definition init_hrtimers_cpu : hrtimer_cpu_base := CpuBase (fun _ => empty_clock) KTIME_MAX false false 0 0 0 0.
Definition booted (cpus : list Z) : system :=
  System (HrTimers ∅ (list_to_map ((fun c => (c, init_hrtimers_cpu)) <$> cpus)) ∅ [] []) [] [].

Definition reachable (s : system) : Prop := exists cpus, rtc step (booted cpus) s.

(** ** The invariant *)

(** The timer of a callback exists, and is at the base of the callback if nobody has started it. *)
Definition running_ok (st : hrtimers) (e : Z * base_ptr * bool) : Prop :=
  exists tm, timers st !! e.1.1 = Some tm /\ cpu_up st e.1.2.1 /\ (e.2 = true -> base tm = Some e.1.2).

Definition waking_ok (st : hrtimers) (e : Z * Z) : Prop := is_Some (timers st !! e.2).

Record system_ok (s : system) : Prop := SystemOk {
  sy_hr : sys_ok (hr s);
  sy_running : Forall (running_ok (hr s)) (running s);
  sy_waking : Forall (waking_ok (hr s)) (waking s)
}.

Lemma hr_booted_ok cpus : system_ok (booted cpus).
Proof.
  split; [| constructor | constructor]. split; cbn.
  - intros b cb. unfold clock_of. cbn. destruct (list_to_map _ !! b.1) as [c|] eqn:Ec; [| done]. simpl. intros [= <-].
    apply elem_of_list_to_map_2 in Ec. apply list_elem_of_fmap in Ec as (c' & Heq & _). injection Heq as _ ->.
    exists []. split; [exists E | done | constructor |].
    + split; [by split; constructor |]. split; [| done]. split; [done | by exists O].
    + intros a. split; [by intros ?%not_elem_of_nil |]. by intros (? & ? & _).
  - done.
  - done.
Qed.

Lemma running_touched t st st' tm tm' e :
  touched t st st' -> timers st !! t = Some tm -> timers st' !! t = Some tm' -> base tm' = base tm ->
    running_ok st e -> running_ok st' e.
Proof.
  intros T Ht Ht' Hb (tm2 & H1 & H2 & H3). apply (h_up _ _ _ T) in H2. destruct (decide (e.1.1 = t)) as [Et | Ht2].
  - exists tm'. rewrite Et in *. split; [done |]. split; [done |]. intros He. rewrite Hb. rewrite Ht in H1.
    injection H1 as ->. by apply H3.
  - exists tm2. by rewrite (h_timers _ _ _ T).
Qed.

(** The timer was started: its callbacks are marked. *)
Lemma running_mark t st st' tm e : touched t st st' -> timers st' !! t = Some tm -> running_ok st e -> running_ok st' (mark t e).
Proof.
  intros T Ht (tm2 & H1 & H2 & H3). unfold mark. destruct (Z.eqb_spec e.1.1 t) as [Et | Hne].
  - exists tm. cbn. rewrite Et, (h_up _ _ _ T). done.
  - exists tm2. by rewrite (h_timers _ _ _ T), (h_up _ _ _ T).
Qed.

Lemma running_marks t st st' tm l : touched t st st' -> timers st' !! t = Some tm -> Forall (running_ok st) l ->
  Forall (running_ok st') (mark t <$> l).
Proof. intros T Ht Hl. apply Forall_fmap. eapply Forall_impl; [exact Hl |]. intros e He. by eapply running_mark. Qed.

Lemma running_same st st' e : same_queues st st' -> running_ok st e -> running_ok st' e.
Proof.
  intros S (tm & H1 & H2 & H3). pose proof (h_up _ _ _ (same_queues_touched 0 _ _ S)) as Hup. destruct S as [T _ _].
  exists tm. by rewrite T, Hup.
Qed.

(** No timer goes away. *)
Lemma waking_kept st st' l : (forall t, is_Some (timers st !! t) -> is_Some (timers st' !! t)) ->
  Forall (waking_ok st) l -> Forall (waking_ok st') l.
Proof. intros Hk Hl. eapply Forall_impl; [exact Hl |]. intros e. apply Hk. Qed.

Lemma waking_touched t st st' tm l : touched t st st' -> timers st' !! t = Some tm -> Forall (waking_ok st) l ->
  Forall (waking_ok st') l.
Proof.
  intros T Ht. apply waking_kept. intros u Hu. destruct (decide (u = t)) as [->|Hne]; [by eexists |].
  by rewrite (h_timers _ _ _ T u Hne).
Qed.

Lemma woken_ok this t r st tm : timers st !! t = Some tm -> Forall (waking_ok st) (woken this t r).
Proof. intros Ht. destruct r as [[? []]|]; repeat constructor. by eexists. Qed.

Lemma hr_get_timer_inv t st tm : get_timer t st = Ret tm -> timers st !! t = Some tm.
Proof. unfold get_timer. destruct (timers st !! t); [by intros [= ->] | done]. Qed.

Lemma hr_lock_inv t st b : lock_hrtimer_base t st = Ret b -> exists tm, timers st !! t = Some tm /\ base tm = Some b.
Proof.
  unfold lock_hrtimer_base. intros (tm & Ht%hr_get_timer_inv & E)%bind_inv. exists tm.
  destruct (base tm); [by simplify_eq | done].
Qed.

Lemma outcome_timer t c now tm st r : start_outcome t c now tm st r -> exists tm', timers st !! t = Some tm'.
Proof. destruct r as [[]|]; [intros (_ & ? & ? & _); eauto | intros (_ & ? & _); eauto]. Qed.

Lemma start_begin_step s this target t tim delta rel wakeup now res st' r :
  system_ok s -> tim <= KTIME_MAX -> cpu_up (hr s) this -> cpu_up (hr s) target ->
  start_begin this target t tim delta rel wakeup now res (hr s) = Ret (st', r) ->
  system_ok (System st' (mark t <$> running s) (woken this t r ++ waking s)).
Proof.
  intros [H1 H2 H3] Htim Hthis Htarget E. pose proof E as E0. unfold start_begin in E0.
  apply bind_inv in E0 as (b & (tm & Ht & Hb)%hr_lock_inv & _).
  destruct (start_begin_sys this target t tim delta rel wakeup now res (hr s) tm b H1 Ht Hb Htim Hthis Htarget)
    as (st2 & r2 & E2 & Hok & T & O). rewrite E in E2. injection E2 as <- <-.
  destruct (outcome_timer _ _ _ _ _ _ O) as [tm' Ht']. split; [done | by eapply running_marks |].
  apply Forall_app. split; [by eapply woken_ok | by eapply waking_touched].
Qed.

Lemma start_end_step s t c now res st' r : system_ok s -> starting (hr s) !! t = Some c ->
  start_end t now res (hr s) = Ret (st', r) -> system_ok (System st' (mark t <$> running s) (woken (c_this c) t r ++ waking s)).
Proof.
  intros [H1 H2 H3] Ec E. destruct (s_call _ H1 _ _ Ec) as ((tm & Ht & _) & _).
  destruct (start_end_sys t now res (hr s) tm c H1 Ec Ht) as (st2 & r2 & E2 & Hok & T & O & _).
  rewrite E in E2. injection E2 as <- <-. destruct (outcome_timer _ _ _ _ _ _ O) as [tm' Ht'].
  split; [done | by eapply running_marks |]. apply Forall_app. split; [by eapply woken_ok | by eapply waking_touched].
Qed.

(** A call in its window ends well exactly if its timer still has a base of the CPU. *)
Lemma start_wake_cases this t st tm : timers st !! t = Some tm ->
  start_wake this t st = match base tm with
    | None => Err bad_pointer
    | Some b => if b.1 =? this then Ret (raise_softirq this st) else Err wrong_lock
    end.
Proof. intros Ht. unfold start_wake. by rewrite (hr_get_timer_Ret t (raise_softirq this st) tm Ht), run_bind_Ret. Qed.

Lemma start_wake_step s this t st' l1 l2 : system_ok s -> waking s = l1 ++ (this, t) :: l2 ->
  start_wake this t (hr s) = Ret st' -> system_ok (System st' (running s) (l1 ++ l2)).
Proof.
  intros [H1 H2 H3] Hw E. rewrite Hw in H3. pose proof H3 as H4. rewrite Forall_app, Forall_cons in H4.
  destruct H4 as (Ha & [tm Ht] & Hb). rewrite (start_wake_cases this t (hr s) tm Ht) in E. destruct (base tm); [| done].
  destruct (_ =? this); [| done]. injection E as <-. assert (same_queues (hr s) (raise_softirq this (hr s))) as S by done.
  split; [by eapply same_queues_ok | eapply Forall_impl; [exact H2 |]; intros e He; by eapply running_same |].
  by apply Forall_app.
Qed.

Lemma init_step s this t clock abs :
  system_ok s -> good_addr t -> cpu_up (hr s) this -> starting (hr s) !! t = None ->
    (forall tm, timers (hr s) !! t = Some tm -> hrtimer_is_queued tm = false) ->
  (forall b f, (t, b, f) ∉ running s) -> system_ok (System (__hrtimer_init this t clock abs (hr s)) (running s) (waking s)).
Proof.
  intros [H1 H2 H3] Hg Hthis Hs Hn Hr. unfold __hrtimer_init. split; cbn;
    [| | eapply waking_kept; [| exact H3]; intros u Hu; cbn; apply lookup_insert_is_Some'; by right].
  - apply write_ok; try done. intros c Hc. congruence.
  - rewrite Forall_forall in *. intros [[u b] f] He. destruct (H2 _ He) as (tm & Ht & ?). exists tm. cbn in *.
    rewrite lookup_insert_ne; [done |]. intros <-. by apply (Hr b f).
Qed.

Lemma migrate_step s this scpu st' :
  system_ok s -> this <> scpu -> cpu_up (hr s) this -> cpu_up (hr s) scpu -> Forall (fun e => e.1.2.1 <> scpu) (running s) ->
  (forall t tm i, timers (hr s) !! t = Some tm -> base tm = Some (scpu, i) -> hrtimer_callback_running tm = false) ->
  migrate_hrtimers this scpu (hr s) = Ret st' -> system_ok (System st' (running s) (waking s)).
Proof.
  intros [H1 H2 H3] Hne Hthis Hscpu Hrun Hcr E.
  destruct (migrate_sys this scpu (hr s) H1 Hne Hthis Hscpu Hcr) as (st2 & E2 & Hok & Hup & _ & Hm). rewrite E in E2.
  injection E2 as <-.
  split; [done | | eapply waking_kept; [| exact H3]; intros u [tm Hu]; specialize (Hm u); rewrite Hu in Hm;
    destruct Hm as (tm' & Hu' & _); by eexists].
  cbn [hr running] in *. rewrite Forall_forall in *. intros e He. specialize (Hrun _ He).
  destruct (H2 _ He) as (tm & Ht & Hc & Hb). specialize (Hm e.1.1). rewrite Ht in Hm.
  destruct Hm as (tm' & Ht' & _ & _ & _ & Hcase). exists tm'. split; [done |]. split; [by apply Hup |]. intros Hf.
  destruct Hcase as [[-> _] | (_ & i & Hbi & _)]; [by apply Hb |].
  exfalso. apply Hrun. rewrite (Hb Hf) in Hbi. by injection Hbi as ->.
Qed.

(** An operation on one timer that leaves its base, and one that leaves all queues. *)
Lemma touched_step s t st' tm tm' : system_ok s -> sys_ok st' -> touched t (hr s) st' ->
  timers (hr s) !! t = Some tm -> timers st' !! t = Some tm' -> base tm' = base tm ->
  system_ok (System st' (running s) (waking s)).
Proof.
  intros [H1 H2 H3] Hok T Ht Ht' Hb. split; [done | | by eapply waking_touched].
  eapply Forall_impl; [exact H2 |]. intros e He. by eapply running_touched.
Qed.

Lemma same_queues_step s st' : system_ok s -> same_queues (hr s) st' -> system_ok (System st' (running s) (waking s)).
Proof.
  intros [H1 H2 H3] S. split; [by eapply same_queues_ok | |].
  - eapply Forall_impl; [exact H2 |]. intros e He. by eapply running_same.
  - eapply waking_kept; [| exact H3]. intros u. cbn [hr]. destruct S as [ES _ _]. by rewrite ES.
Qed.

Lemma step_ok s s' : system_ok s -> step s s' -> system_ok s'.
Proof.
  intros H Hst. pose proof H as [H1 H2 H3]. destruct Hst
    as [this target t tim delta rel wakeup now res st' r Htim Hthis Htarget E | t c now res st' r Ec E
    | this t st' l1 l2 Hw E | this t r st' Hthis E | this t clock abs Hg Hthis Hs Hn Hr _
    | t tm b e soft fn Ht Hb Hn Hle | t b cb st' Hcb Hf H0 E | t b f restart st' l1 l2 Hr Hcl E
      | this scpu st' Hne Hthis Hscpu Hrun Hcr E | f c Hf | f b Hf | this c skip st' E].
  - by eapply start_begin_step.
  - by eapply start_end_step.
  - by eapply start_wake_step.
  - pose proof E as E0. unfold hrtimer_try_to_cancel in E0. apply bind_inv in E0 as (b & (tm & Ht & Hb)%hr_lock_inv & _).
    destruct (cancel_sys this t b (hr s) tm H1 Ht Hb Hthis) as (r2 & st2 & tm2 & E2 & Hok & T & Ht2 & Hb2 & _).
    rewrite E in E2. injection E2 as <- <-. eapply touched_step; eauto. congruence.
  - by apply init_step.
  - destruct (put_unqueued (fun tm => HrTimer e soft fn (base tm) (state tm)) t tm b (hr s) H1 Ht Hb Hn Hn Hb Hle)
      as (Hok & T & Ht'). by eapply touched_step.
  - destruct (s_clock _ H1 _ _ Hcb) as [l Hq]. assert (queued_at (timers (hr s)) b t) as (tm & Ht & Hb & _).
    { apply (q_mem _ _ _ _ Hq). rewrite (q_first _ _ _ _ Hq) in Hf. destruct (hd_mem l); [congruence | by subst t]. }
    assert (cpu_up (hr s) b.1) as Hup by (apply clock_up; by eexists).
    destruct (run_begin_sys b.1 t b (hr s) tm H1 Ht Hb Hup) as (st2 & E2 & Hok & T & Ht2 & _). rewrite E in E2.
    injection E2 as <-.
    split; [done | | by eapply waking_touched]. constructor; [eexists; cbn; split; [exact Ht2 |]; by rewrite (h_up _ _ _ T) |].
    eapply Forall_impl; [exact H2 |]. intros e He. by eapply running_touched.
  - cbn in *. rewrite Hr in H2. pose proof H2 as H4. rewrite Forall_app, Forall_cons in H4.
    destruct H4 as (_ & (tm & Ht & Hup & Hb) & _). cbn in *.
    destruct (run_end_sys t b restart (hr s) tm H1 Ht) as [(E2 & _) | (st2 & tm2 & E2 & Hok & T & Ht2 & Hb2 & _)];
      [auto | congruence |]. rewrite E in E2. injection E2 as <-.
    split; [done | | by eapply waking_touched].
    assert (Forall (running_ok st') (l1 ++ (t, b, f) :: l2)) as H4 by (eapply Forall_impl;
      [exact H2 |]; intros e He; by eapply running_touched).
    rewrite Forall_app, Forall_cons in H4. apply Forall_app. tauto.
  - by eapply migrate_step.
  - apply same_queues_step; [done |]. by apply same_queues_cpu.
  - split; [by apply put_clock_ok | | exact H3]. eapply Forall_impl; [exact H2 |]. intros e (tm & Ht & Hup & Hb). exists tm.
    split; [done |]. split; [| done].
    apply (clock_up _ (e.1.2.1, CLOCK_MONOTONIC)). cbn [hr]. rewrite clock_of_put_clock.
    apply (clock_up _ (e.1.2.1, CLOCK_MONOTONIC)) in Hup.
    destruct (decide _) as [<- | ?]; [by apply fmap_is_Some | done].
  - assert (is_Some (hrtimer_bases (hr s) !! c)) as Hc. { unfold hrtimer_force_reprogram in E.
      apply bind_inv in E as (cb & Ec & _). unfold get_cpu in Ec. destruct (hrtimer_bases (hr s) !! c); [eauto | done].
    }
    destruct (force_reprogram_ok this c skip (hr s) Hc (firsts_sys _ _ H1)) as (st2 & E2 & S). rewrite E in E2.
    injection E2 as <-. by apply same_queues_step.
Qed.

Lemma steps_ok s s' : rtc step s s' -> system_ok s -> system_ok s'.
Proof. induction 1 as [|x y z Hxy _ IH]; [done |]. intros H. apply IH. by eapply step_ok. Qed.

Lemma hr_reachable_ok s : reachable s -> system_ok s.
Proof. intros (cpus & H). by eapply steps_ok, hr_booted_ok. Qed.

(** ** Evaluating steps *)

Definition after_op {A} (m : M (hrtimers * A)) (st : hrtimers) : hrtimers := match m with Ret (st, _) => st | _ => st end.
Definition after_run (m : M hrtimers) (st : hrtimers) : hrtimers := match m with Ret st => st | _ => st end.
Definition returns {A} (m : M A) : bool := match m with Ret _ => true | _ => false end.

Lemma after_op_Ret {A} (m : M (hrtimers * A)) st : returns m = true -> exists r, m = Ret (after_op m st, r).
Proof. destruct m as [[st' r]| |]; [by exists r | done | done]. Qed.

Lemma after_run_Ret (m : M hrtimers) st : returns m = true -> m = Ret (after_run m st).
Proof. by destruct m. Qed.

(** ** A timer started twice while its callback runs *)

Definition begin_op (this t tim : Z) (s : system) : system :=
  System (after_op (start_begin this this t tim 0 false true 0 0 (hr s)) (hr s)) (mark t <$> running s) (waking s).
Definition end_op (s : system) : system :=
  System (after_op (start_end 16 0 0 (hr s)) (hr s)) (mark 16 <$> running s) (waking s).

Definition race_0 : system := System (__hrtimer_init 0 16 CLOCK_MONOTONIC true (hr (booted [0; 1]))) [] [].
Definition race_1 : system := begin_op 0 16 100 race_0.
Definition race_2 : system := System (after_run (run_begin 0 16 (0, CLOCK_MONOTONIC) (hr race_1)) (hr race_1))
  [(16, (0, CLOCK_MONOTONIC), true)] [].
Definition race_3 : system := begin_op 1 16 200 race_2.
Definition race_4 : system := begin_op 1 16 300 race_3.
Definition race_5 : system := end_op race_4.

(** The call is over or goes on with another lock, not with the softirq. *)
Definition quiet {A} (m : M (hrtimers * (A * bool + A))) : bool := match m with Ret (_, inl (_, true)) => false | _ => true end.

Lemma quiet_woken (m : M (hrtimers * (Z * bool + Z))) st r this t : m = Ret (st, r) -> quiet m = true -> woken this t r = [].
Proof. intros ->. by destruct r as [[? []]|]. Qed.

Lemma begin_step this t tim s :
  tim <= KTIME_MAX -> cpu_up (hr s) this -> returns (start_begin this this t tim 0 false true 0 0 (hr s)) = true ->
    quiet (start_begin this this t tim 0 false true 0 0 (hr s)) = true -> step s (begin_op this t tim s).
Proof.
  intros Htim Hup Hr Hq. destruct (after_op_Ret _ (hr s) Hr) as [r E]. eapply Step_start_begin in E as Hs; [| done..].
  by rewrite (quiet_woken _ _ _ this t E Hq) in Hs.
Qed.

Lemma race_0_step : step (booted [0; 1]) race_0.
Proof.
  apply Step_init; [done | apply (bool_decide_unpack _); vm_compute; exact I | done | done | |];
    [by intros b f ?%not_elem_of_nil | by intros c ?%not_elem_of_nil].
Qed.

Lemma race_1_steps : rtc step (booted [0; 1]) race_1.
Proof.
  apply rtc_l with race_0; [apply race_0_step |].
  apply rtc_once, begin_step; [done | apply (bool_decide_unpack _); vm_compute; exact I | by vm_compute | by vm_compute].
Qed.

Lemma race_1_reachable : reachable race_1.
Proof. exists [0; 1]. apply race_1_steps. Qed.

Lemma race_reachable : reachable race_5.
Proof.
  exists [0; 1]. transitivity race_1; [apply race_1_steps |].
  apply rtc_l with race_2.
  { assert (exists cb, clock_of (hr race_1) (0, CLOCK_MONOTONIC) = Some cb /\ first cb = 16) as (cb & Hcb & Hf)
      by (eexists; split; [reflexivity |]; by vm_compute).
    apply (Step_run_begin race_1 16 (0, CLOCK_MONOTONIC) cb); [done | done | done |]. apply after_run_Ret. by vm_compute. }
  apply rtc_l with race_3; [apply begin_step; [done | apply (bool_decide_unpack _); vm_compute; exact I | by vm_compute
    | by vm_compute] |].
  apply rtc_l with race_4; [apply begin_step; [done | apply (bool_decide_unpack _); vm_compute; exact I | by vm_compute
    | by vm_compute] |].
  apply rtc_once. destruct (after_op_Ret (start_end 16 0 0 (hr race_4)) (hr race_4)) as [r E]; [by vm_compute |].
  assert (exists c, starting (hr race_4) !! 16 = Some c) as [c Hc] by (eexists; vm_compute; reflexivity).
  eapply Step_start_end in E as Hs; [| exact Hc]. rewrite (quiet_woken _ _ _ (c_this c) 16 E) in Hs; [exact Hs | by vm_compute].
Qed.

(** ** A range timer that is forwarded *)

(** A callback that forwards its timer past [now] and restarts it. *)
Definition periodic (res now interval t : Z) (st : hrtimers) : bool * hrtimers :=
  (true, put_timer (fun tm => (hrtimer_forward tm res now interval).2) t st).

(** The timer 16 alone is queued, its hard expiry is after [now], its soft expiry is not. *)
Record spinning (now : Z) (b : base_ptr) (st : hrtimers) : Prop := Spinning {
  sp_ok : sys_ok st;
  sp_up : cpu_up st b.1;
  sp_timer : exists tm, timers st !! 16 = Some tm /\ base tm = Some b /\ hrtimer_is_queued tm = true /\ _softexpires tm <= now /\
    ktime_sub now (_expires tm) < 0;
  sp_alone : forall u, u <> 16 -> timers st !! u = None
}.

Lemma spinning_turn res now interval b st :
  spinning now b st -> exists st', __run_hrtimer b.1 16 (periodic res now interval) st = Ret st' /\ spinning now b st'.
Proof.
  intros [H Hup (tm & Ht & Hb & Hq & Hs & He) Ha]. unfold __run_hrtimer.
  rewrite (hr_get_timer_Ret _ _ _ Ht), run_bind_Ret, Hb. simpl of_option. rewrite run_bind_Ret.
  destruct (run_begin_sys b.1 16 b st tm H Ht Hb Hup) as (s1 & -> & H1 & T1 & Ht1 & _). rewrite run_bind_Ret.
  unfold periodic. cbn beta iota.
  set (tm1 := set_state HRTIMER_STATE_CALLBACK tm) in *. assert ((hrtimer_forward tm1 res now interval).2 = tm1) as Ef.
  { unfold hrtimer_forward. change (_expires tm1) with (_expires tm). by rewrite (proj2 (Z.ltb_lt _ _) He). }
  destruct (s_timer _ H _ _ Ht) as (_ & Hle & _).
  destruct (put_unqueued (fun tm => (hrtimer_forward tm res now interval).2) 16 tm1 b s1 H1 Ht1 Hb) as (H2 & T2 & Ht2);
    [done | by rewrite Ef | by rewrite Ef | by rewrite Ef |]. rewrite Ef in Ht2.
  destruct (run_end_sys 16 b true _ tm1 H2 Ht2) as [(_ & _ & ?)
    | (s3 & tm3 & -> & H3 & T3 & Ht3 & Hb3 & He3 & Hs3 & Hq3 & _)]; [done | done |].
  assert (touched 16 st s3) as T by (etrans; [exact T1 |]; by etrans). exists s3. split; [done |].
  split; [done | by apply (h_up _ _ _ T) | | intros u Hu; rewrite (h_timers _ _ _ T u Hu); by apply Ha].
  exists tm3. split; [done |]. split; [by rewrite Hb3 |]. split; [by rewrite Hq3 |]. split; [by rewrite Hs3 | by rewrite He3].
Qed.

Lemma spinning_loop fuel res now interval b next : forall st, spinning now b st ->
  expire_loop fuel b.1 b now (periodic res now interval) next st = Diverge.
Proof.
  induction fuel as [|fuel IH]; intros st Hsp; pose proof Hsp as [H Hup (tm & Ht & Hb & Hq & Hs & He) Ha];
    (apply (clock_up st b) in Hup as [cb Hcb]; destruct (s_clock _ H _ _ Hcb) as [l Hl]; assert (first cb = 16) as Hf;
      [rewrite (q_first _ _ _ _ Hl); assert (16 ∈ l) by (apply Hl; by exists tm); destruct l as [|x l];
        [by apply not_elem_of_nil in H0 |];
       assert (queued_at (timers st) b x) as (tm2 & Hx & _) by (apply Hl; set_solver); simpl;
         destruct (decide (x = 16)) as [|Hne]; [done |]; by rewrite (Ha _ Hne) in Hx |]);
    simpl; rewrite (get_clock_Ret _ _ _ Hcb), run_bind_Ret, Hf; simpl;
      rewrite (hr_get_timer_Ret _ _ _ Ht), run_bind_Ret, (proj2 (Z.ltb_ge _ _)) by lia; [done |].
  destruct (spinning_turn res now interval b st Hsp) as (st' & -> & Hsp'). rewrite run_bind_Ret, (IH _ Hsp'). done.
Qed.

Definition range_0 : system := System (after_op (start_begin 0 0 16 50 100 false true 0 0 (hr race_0)) (hr race_0)) [] [].
Lemma range_reachable : reachable range_0.
Proof.
  exists [0; 1]. apply rtc_l with race_0; [apply race_0_step |].
  apply rtc_once. destruct (after_op_Ret (start_begin 0 0 16 50 100 false true 0 0 (hr race_0)) (hr race_0)) as [r E];
    [by vm_compute |].
  eapply Step_start_begin in E as Hs; [rewrite (quiet_woken _ _ _ 0 16 E) in Hs; [exact Hs | by vm_compute] | done
    | apply (bool_decide_unpack _); vm_compute; exact I | apply (bool_decide_unpack _); vm_compute; exact I].
Qed.

Lemma range_spins : spinning 100 (0, CLOCK_MONOTONIC) (hr range_0).
Proof.
  split; [apply hr_reachable_ok, range_reachable | apply (bool_decide_unpack _); vm_compute; exact I | |].
  - eexists. split; [vm_compute; reflexivity |]. by vm_compute.
  - intros u Hu. assert (exists tm, timers (hr range_0) = {[16 := tm]}) as [tm ->] by (eexists; vm_compute;
      reflexivity). by apply lookup_singleton_ne.
Qed.

(** ** A timer that moves to another CPU *)

(** High resolution on both CPUs, the timer 32 of CPU 1 at 1000 and the timer 16 of CPU 0 at 5000. *)
Definition high_res (cb : hrtimer_cpu_base) : hrtimer_cpu_base :=
  CpuBase (clock_base cb) (expires_next cb) true (hang_detected cb) (nr_events cb) (nr_retries cb) (nr_hangs cb)
    (max_hang_time cb).
Definition late_0 : system := System (__hrtimer_init 1 32 CLOCK_MONOTONIC true (hr race_0)) [] [].
Definition late_1 : system := System (put_cpu high_res 1 (put_cpu high_res 0 (hr late_0))) [] [].
Definition late_2 : system := begin_op 0 16 5000 (begin_op 1 32 1000 late_1).

Lemma late_reachable : reachable late_2.
Proof.
  exists [0; 1]. apply rtc_l with race_0; [apply race_0_step |]. apply rtc_l with late_0.
  { apply Step_init; [done | apply (bool_decide_unpack _); vm_compute; exact I | done | intros tm Ht;
      by vm_compute in Ht | |]; [by intros b f ?%not_elem_of_nil | by intros c ?%not_elem_of_nil]. }
  apply rtc_l with (System (put_cpu high_res 0 (hr late_0)) [] []); [by apply (Step_cpu late_0) |].
  apply rtc_l with late_1; [by apply (Step_cpu (System (put_cpu high_res 0 (hr late_0)) [] [])) |].
  apply rtc_l with (begin_op 1 32 1000 late_1); [| apply rtc_once];
    (apply begin_step; [done | apply (bool_decide_unpack _); vm_compute; exact I | by vm_compute | by vm_compute]).
Qed.

(** ** A call that is overtaken while it raises the softirq *)

(** High resolution on CPU 0, whose call for a time that the clock event device refuses is in its window; then CPU 1
    starts the timer. *)
Definition wake_0 : system := System (put_cpu high_res 0 (hr race_0)) [] [].
Definition wake_1 : system := System (after_op (start_begin 0 0 16 100 0 false true 0 (- ETIME) (hr wake_0))
  (hr wake_0)) [] [(0, 16)].
Definition wake_2 : system := begin_op 1 16 200 wake_1.
Definition wake_3 : system := end_op wake_2.

Lemma wake_1_steps : rtc step (booted [0; 1]) wake_1.
Proof.
  apply rtc_l with race_0; [apply race_0_step |]. apply rtc_l with wake_0; [by apply (Step_cpu race_0) |]. apply rtc_once.
  assert (exists st' ret, start_begin 0 0 16 100 0 false true 0 (- ETIME) (hr wake_0) = Ret (st', inl (ret, true)))
    as (st' & ret & E) by (do 2 eexists; vm_compute; reflexivity).
  unfold wake_1. rewrite E. eapply Step_start_begin in E as Hs; [exact Hs | done | |];
    apply (bool_decide_unpack _); vm_compute; exact I.
Qed.

Lemma wake_1_reachable : reachable wake_1.
Proof. exists [0; 1]. apply wake_1_steps. Qed.

Lemma wake_3_reachable : reachable wake_3.
Proof.
  exists [0; 1]. transitivity wake_1; [apply wake_1_steps |]. apply rtc_l with wake_2.
  { apply begin_step; [done | apply (bool_decide_unpack _); vm_compute; exact I | by vm_compute | by vm_compute]. }
  apply rtc_once. destruct (after_op_Ret (start_end 16 0 0 (hr wake_2)) (hr wake_2)) as [r E]; [by vm_compute |].
  assert (exists c, starting (hr wake_2) !! 16 = Some c) as [c Hc] by (eexists; vm_compute; reflexivity).
  eapply Step_start_end in E as Hs; [| exact Hc]. rewrite (quiet_woken _ _ _ (c_this c) 16 E) in Hs; [exact Hs | by vm_compute].
Qed.

(** ** The next event *)

(** The time at which a timer of a clock base is due on the monotonic clock. *)
Definition due (cb : hrtimer_clock_base) (tm : hrtimer) : Z := Z.max 0 (_expires tm - offset cb).

Lemma earlier_min st b cb next :
  sys_ok st -> clock_of st b = Some cb -> (forall t tm, timers st !! t = Some tm -> 0 <= _expires tm <= KTIME_MAX) ->
    0 <= offset cb <= KTIME_MAX ->
  exists e, earlier cb st next = Ret e /\ e <= next /\ (forall t tm, timers st !! t = Some tm -> base tm = Some b ->
    hrtimer_is_queued tm = true -> e <= due cb tm) /\
    (e = next \/ exists t tm, timers st !! t = Some tm /\ base tm = Some b /\ hrtimer_is_queued tm = true /\ e = due cb tm).
Proof.
  intros H Hcb Hrange Hoff. destruct (s_clock _ H _ _ Hcb) as [l Hq]. unfold earlier. rewrite (q_first _ _ _ _ Hq).
  destruct l as [|a l]; simpl hd.
  - exists next. split; [done |]. split; [lia |]. split; [| by left]. intros t tm Ht Hb Hqd.
    assert (t ∈ []) as Hi by (apply Hq; by exists tm). by apply not_elem_of_nil in Hi.
  - assert (queued_at (timers st) b a) as (tm & Ht & Hb & Hqd) by (apply Hq; set_solver).
    destruct (queue_nodup _ _ _ _ Hq) as [_ Hg]. apply Forall_cons in Hg as [[Ha _] _].
    rewrite (proj2 (Z.eqb_neq _ _)) by lia. rewrite (hr_get_timer_Ret _ _ _ Ht), run_bind_Ret.
    pose proof (Hrange _ _ Ht) as Hr. rewrite ktime_small by (lia).
    assert ((if _expires tm - offset cb <? 0 then 0 else _expires tm - offset cb) = due cb tm) as -> by (unfold due;
      destruct (Z.ltb_spec (_expires tm - offset cb) 0); lia).
    eexists. split; [reflexivity |]. split; [destruct (Z.ltb_spec (due cb tm) next); lia |]. split.
    + intros u tm2 Hu Hb2 Hq2. assert (expires_of (timers st) a <= expires_of (timers st) u) as Hle.
      { pose proof (q_sorted _ _ _ _ Hq) as Hs. apply StronglySorted_inv in Hs as [_ Hs]. rewrite Forall_forall in Hs.
        assert (u ∈ a :: l) as [-> | Hi]%elem_of_cons by (apply Hq; by exists tm2); [lia | by apply Hs]. }
      unfold expires_of in Hle. rewrite Ht, Hu in Hle. cbn in Hle. unfold due.
      destruct (Z.ltb_spec (Z.max 0 (_expires tm - offset cb)) next); lia.
    + destruct (Z.ltb_spec (due cb tm) next); [right | by left]. by exists a, tm.
Qed.

(** ** Properties *)

(** C12: in every state that any number of CPUs can reach, each clock base has its timers in a
    valid red-black tree, sorted by expiry, and points to the first of them; a timer is in the
    tree of its base exactly if its state says that it is enqueued, and in no other tree.  This includes the states in
    which calls of __hrtimer_start_range_ns have released their base to raise the softirq; such a call goes wrong exactly
    if its timer has moved to another CPU by then or is on its way there, when it releases a lock that it does not hold
    or follows a NULL pointer, and the states are those that are reached before that happens. *)
Theorem hrtimer_system_invariant s :
  reachable s ->
  (forall b cb, clock_of (hr s) b = Some cb ->
    exists tr, repr (active cb) tr /\ rb_valid tr /\ first cb = hd 0 (elems tr) /\
      StronglySorted (sooner (timers (hr s))) (elems tr) /\
      forall t, t ∈ elems tr <-> exists tm, timers (hr s) !! t = Some tm /\ base tm = Some b /\ hrtimer_is_queued tm = true) /\
  (forall this t, (this, t) ∈ waking s -> exists tm, timers (hr s) !! t = Some tm /\
    match base tm with
    | Some b => if b.1 =? this then exists st', start_wake this t (hr s) = Ret st' else start_wake this t (hr s) = Err wrong_lock
    | None => start_wake this t (hr s) = Err bad_pointer
    end).
Proof.
  intros Hr. pose proof (hr_reachable_ok _ Hr) as Hok. split.
  - intros b cb Hcb. destruct (s_clock _ (sy_hr _ Hok) _ _ Hcb) as [l [(tr & ? & ? & <-) ? ? ?]]. by exists tr.
  - intros this t Hw. pose proof (sy_waking _ Hok) as Hf. rewrite Forall_forall in Hf. destruct (Hf _ Hw) as [tm Ht].
    exists tm. split; [exact Ht |]. rewrite (start_wake_cases this t (hr s) tm Ht).
    destruct (base tm); [destruct (_ =? this); [by eexists | done] | done].
Qed.

Lemma hrtimer_system_invariant_witness :
  (exists cb, clock_of (hr race_5) (1, CLOCK_MONOTONIC) = Some cb /\ exists tr, repr (active cb) tr /\ rb_valid tr /\
    first cb = hd 0 (elems tr) /\
    StronglySorted (sooner (timers (hr race_5))) (elems tr) /\
    forall t, t ∈ elems tr <-> exists tm, timers (hr race_5) !! t = Some tm /\ base tm = Some (1, CLOCK_MONOTONIC) /\
      hrtimer_is_queued tm = true) /\
  (exists st', start_wake 0 16 (hr wake_1) = Ret st').
Proof.
  split.
  - assert (exists cb, clock_of (hr race_5) (1, CLOCK_MONOTONIC) = Some cb) as [cb Hcb] by (eexists; reflexivity).
    exists cb. split; [exact Hcb |]. exact (proj1 (hrtimer_system_invariant race_5 race_reachable) _ _ Hcb).
  - destruct (proj2 (hrtimer_system_invariant wake_1 wake_1_reachable) 0 16 ltac:(left)) as (tm & Ht & Hw).
    assert (base tm = Some (0, CLOCK_MONOTONIC)) as Hb by (vm_compute in Ht; by injection Ht as <-).
    rewrite Hb in Hw. exact Hw.
Defined.

(** The window is not safe: a call on CPU 0 that starts the timer 16 for a time in the past has released its base, CPU 1
    starts the timer meanwhile and so moves it, and CPU 0 then releases the lock of CPU 1's base and keeps its own. *)
Theorem hrtimer_start_wrong_lock :
  exists s, reachable s /\ (0, 16) ∈ waking s /\ start_wake 0 16 (hr s) = Err wrong_lock.
Proof.
  exists wake_3. split; [exact wake_3_reachable |]. split; [left |].
  assert (exists tm, timers (hr wake_3) !! 16 = Some tm /\ base tm = Some (1, CLOCK_MONOTONIC)) as (tm & Ht & Hb)
    by (eexists; split; vm_compute; reflexivity).
  by rewrite (start_wake_cases 0 16 (hr wake_3) tm Ht), Hb.
Qed.

(** in every reachable state a whole call of __hrtimer_start_range_ns returns, after it has
    locked at most five bases in turn, if nothing else happens meanwhile; it returns 1 exactly if the timer was queued,
    and leaves it queued with the
    soft expiry asked for and the hard expiry later by the slack, saturated; no other timer changes.  hrtimer_try_to_cancel
    returns -1 and changes nothing if the timer is marked as running, and else takes it out of its queue. *)
Theorem hrtimer_start_cancel_correct s this target t tim delta rel wakeup now res tm b :
  reachable s -> timers (hr s) !! t = Some tm -> base tm = Some b -> tim <= KTIME_MAX -> cpu_up (hr s) this ->
    cpu_up (hr s) target ->
  (exists st' tm', __hrtimer_start_range_ns this target t tim delta rel wakeup now res (hr s) = Ret
    (st', if hrtimer_is_queued tm then 1 else 0) /\
    timers st' !! t = Some tm' /\ hrtimer_is_queued tm' = true /\
      _softexpires tm' = (if rel then ktime_add_safe tim now else tim) /\
    _expires tm' = ktime_add_safe (_softexpires tm') (ns_to_ktime delta) /\
      (forall u, u <> t -> timers st' !! u = timers (hr s) !! u)) /\
  (exists r st' tm', hrtimer_try_to_cancel this t (hr s) = Ret (r, st') /\ timers st' !! t = Some tm' /\
    (forall u, u <> t -> timers st' !! u = timers (hr s) !! u) /\
    if hrtimer_callback_running tm then r = -1 /\ st' = hr s else r = (if hrtimer_is_queued tm then 1 else 0) /\
      hrtimer_is_queued tm' = false).
Proof.
  intros Hr Ht Hb Htim Hthis Htarget. pose proof (sy_hr _ (hr_reachable_ok _ Hr)) as H. split.
  - destruct (start_sys this target t tim delta rel wakeup now res (hr s) tm b H Ht Hb Htim Hthis Htarget)
      as (st' & b' & E & _ & T & Ht').
    exists st'. eexists. split; [exact E |]. split; [exact Ht' |]. split; [apply queued_or |]. do 2 (split; [done |]). apply T.
  - destruct (cancel_sys this t b (hr s) tm H Ht Hb Hthis) as (r & st' & tm' & E & _ & T & Ht' & _ & Hcase).
    exists r, st', tm'. split; [done |]. split; [done |]. split; [apply T |].
    destruct (hrtimer_callback_running tm); [done |]. by destruct Hcase as (? & ? & _).
Qed.

Lemma hrtimer_start_cancel_correct_witness : exists st' tm', __hrtimer_start_range_ns 0 1 16 500 7 false true 0 0
  (hr race_1) = Ret (st', 1) /\ timers st' !! 16 = Some tm' /\ _expires tm' = 507.
Proof.
  destruct (hrtimer_start_cancel_correct race_1 0 1 16 500 7 false true 0 0 (HrTimer 100 100 0 (Some (0, CLOCK_MONOTONIC))
    1) (0, CLOCK_MONOTONIC)) as [(st' & tm' & E & Ht & _ & Hs & He & _) _].
  - exact race_1_reachable.
  - vm_compute. reflexivity.
  - reflexivity.
  - done.
  - apply (bool_decide_unpack _). vm_compute. exact I.
  - apply (bool_decide_unpack _). vm_compute. exact I.
  - exists st', tm'. split; [exact E |]. split; [exact Ht |]. rewrite He, Hs. reflexivity.
Defined.

(** C39: the loop of hrtimer_interrupt over a clock base returns, under a contract for what happens while the base is
    unlocked for the callbacks: no timer is queued there whose soft expiry has passed already, a callback that returns
    HRTIMER_RESTART has set its timer to a soft expiry after the time of the interrupt and nobody else has started it, and
    the offset of the clock does not change.  It then runs only timers whose soft expiry has passed, leaves none whose
    hard expiry has passed, and returns the time of the first timer that stays. *)
Theorem hrtimer_expire_correct s b cb now fn next :
  reachable s -> Callbacks b now fn -> clock_of (hr s) b = Some cb ->
  exists ran st' l cb', expire_loop (size (timers (hr s))) b.1 b now fn next (hr s) = Ret
    (ran, next_event (timers st') l (offset cb) next, st') /\
    clock_of st' b = Some cb' /\ queue (timers st') b cb' l /\
    Forall (fun p : Z * hrtimer => _softexpires p.2 <= now /\ base p.2 = Some b) ran /\
      Forall (fun u => now < expires_of (timers st') u) l.
Proof.
  intros Hr Hcbs Hcb. pose proof (sy_hr _ (hr_reachable_ok _ Hr)) as H. destruct (s_clock _ H _ _ Hcb) as [l Hq].
  assert (cpu_up (hr s) b.1) as Hup by (apply clock_up; eauto).
  pose proof (clock_queue_size _ _ _ _ Hq) as Hsz.
  pose proof (length_filter (fun u => from_option _softexpires 0 (timers (hr s) !! u) <= now) l) as Hfl.
  assert (PreOrder (fun _ _ : hrtimers => True)) as HP by done.
  destruct (expire_loop_sys b.1 b now fn (fun _ _ => True) ltac:(done) (size (timers (hr s))) (hr s) cb l next H Hup Hcb Hq)
    as (ran & st' & l' & cb' & E & _ & _ & _ & _ & H1 & H2 & H3 & H4); [unfold backlog; lia |]. by exists ran, st', l', cb'.
Qed.

Lemma hrtimer_expire_correct_witness :
  exists cb ran st' l cb', clock_of (hr race_1) (0, CLOCK_MONOTONIC) = Some cb /\
    expire_loop (size (timers (hr race_1))) 0 (0, CLOCK_MONOTONIC) 150 (rearm 250) KTIME_MAX (hr race_1) = Ret
      (ran, next_event (timers st') l (offset cb) KTIME_MAX, st') /\
    clock_of st' (0, CLOCK_MONOTONIC) = Some cb' /\ Forall (fun u => 150 < expires_of (timers st') u) l.
Proof.
  assert (exists cb, clock_of (hr race_1) (0, CLOCK_MONOTONIC) = Some cb) as [cb Hcb] by (eexists; reflexivity).
  destruct (hrtimer_expire_correct race_1 (0, CLOCK_MONOTONIC) cb 150 (rearm 250) KTIME_MAX race_1_reachable
    (rearm_callbacks (0, CLOCK_MONOTONIC) 150 250 ltac:(lia)) Hcb) as (ran & st' & l & cb' & E & Hc & _ & _ & Hl).
  by exists cb, ran, st', l, cb'.
Defined.


(** A callback that restarts its timer 500 ns after the time of the attempt. *)
Definition every_500 (now : Z) : Z -> hrtimers -> bool * hrtimers := rearm (now + 500).


(** The timer 32 has run in both attempts and is queued for 500 ns after the second. *)
Lemma restarted_twice :
  match hrtimer_interrupt 3 1 2000 (-62, 2600) (0, 2700) (0, 2800) every_500 (hr late_2) with
  | Ret st => _expires <$> timers st !! 32
  | _ => None
  end = Some 3100.
Proof. by vm_compute. Qed.

(** hrtimer_force_reprogram sets the next event of a CPU to the earliest time at which a
    timer queued on any of its clocks is due, or to the largest time if none is queued, and programs the device for it. *)
Theorem hrtimer_reprogram_correct s this c cb :
  reachable s -> hrtimer_bases (hr s) !! c = Some cb -> (forall t tm, timers (hr s) !! t = Some tm ->
    0 <= _expires tm <= KTIME_MAX) ->
  (forall i, 0 <= offset (clock_base cb i) <= KTIME_MAX) ->
  exists st' cb', hrtimer_force_reprogram this c false (hr s) = Ret st' /\ hrtimer_bases st' !! c = Some cb' /\
    (forall i t tm, timers (hr s) !! t = Some tm -> base tm = Some (c, i) -> hrtimer_is_queued tm = true ->
      expires_next cb' <= due (clock_base cb i) tm) /\
    (expires_next cb' = KTIME_MAX \/ exists i t tm, timers (hr s) !! t = Some tm /\ base tm = Some (c, i) /\
      hrtimer_is_queued tm = true /\ expires_next cb' = due (clock_base cb i) tm) /\
    (expires_next cb' <> KTIME_MAX -> hd_error (events st') = Some (this, expires_next cb', true)).
Proof.
  intros Hr Hc Hrange Hoff. pose proof (sy_hr _ (hr_reachable_ok _ Hr)) as H.
  assert (forall i, clock_of (hr s) (c, i) = Some (clock_base cb i)) as Hcb by (intros i; unfold clock_of; cbn;
    by rewrite Hc).
  unfold hrtimer_force_reprogram, get_cpu. rewrite Hc. simpl of_option. rewrite run_bind_Ret.
  destruct (earlier_min (hr s) _ _ KTIME_MAX H (Hcb CLOCK_REALTIME) Hrange (Hoff _)) as (e1 & -> & L1 & A1 & B1).
  rewrite run_bind_Ret.
  destruct (earlier_min (hr s) _ _ e1 H (Hcb CLOCK_MONOTONIC) Hrange (Hoff _)) as (e2 & -> & L2 & A2 & B2).
  rewrite run_bind_Ret. cbn [andb].
  eexists _, (set_expires_next e2 cb). split; [reflexivity |].
  split; [case_match; cbn; by rewrite lookup_alter_eq, Hc |]. cbn [set_expires_next expires_next]. split; [| split].
  - intros [] t tm Ht Hb Hq; [specialize (A1 t tm Ht Hb Hq); lia | by apply (A2 t tm)].
  - destruct B2 as [-> | (t & tm & ?)]; [destruct B1 as [-> | (t & tm & ?)]; [by left |] |]; right; do 2 eexists; eauto.
  - intros Hne. by rewrite (proj2 (Z.eqb_neq _ _) Hne).
Qed.

Lemma hrtimer_reprogram_correct_witness :
  exists cb st' cb', hrtimer_bases (hr race_1) !! 0 = Some cb /\
    hrtimer_force_reprogram 0 0 false (hr race_1) = Ret st' /\ hrtimer_bases st' !! 0 = Some cb' /\
    (forall i t tm, timers (hr race_1) !! t = Some tm -> base tm = Some (0, i) -> hrtimer_is_queued tm = true ->
      expires_next cb' <= due (clock_base cb i) tm).
Proof.
  assert (exists cb, hrtimer_bases (hr race_1) !! 0 = Some cb /\ forall i, offset (clock_base cb i) = 0)
    as (cb & Hcb & Ho) by (eexists; split; [reflexivity |]; intros []; vm_compute; reflexivity).
  destruct (hrtimer_reprogram_correct race_1 0 0 cb race_1_reachable Hcb) as (st' & cb' & E & Hc & Ha & _).
  - intros t tm Ht. assert (exists x, timers (hr race_1) = {[16 := x]} /\ _expires x = 100) as (x & Ex & Hx)
      by (eexists; split; vm_compute; reflexivity).
    rewrite Ex in Ht. apply lookup_singleton_Some in Ht as [_ <-]. rewrite Hx. lia.
  - intros i. rewrite Ho. lia.
  - exists cb, st', cb'. split; [exact Hcb |]. split; [exact E |]. split; [exact Hc | exact Ha].
Defined.

(** hrtimer_forward leaves a timer alone that expires later than [now]; else it adds the interval, which is at least
    the resolution, as often as it takes to reach a time after [now] and not once more, returns that number, and both
    times saturate at the largest time. *)
Theorem hrtimer_forward_correct tm res now interval :
  0 <= _softexpires tm <= _expires tm -> _expires tm <= KTIME_MAX -> 0 <= now <= KTIME_MAX -> 1 <= res <= KTIME_MAX ->
    interval <= KTIME_MAX ->
  let i := Z.max interval res in
  let n := (now - _expires tm) / i + 1 in
  (now < _expires tm -> hrtimer_forward tm res now interval = (0, tm)) /\
  (_expires tm <= now -> hrtimer_forward tm res now interval = (n, set_times (Z.min (_expires tm + n * i) KTIME_MAX)
    (Z.min (_softexpires tm + n * i) KTIME_MAX) tm) /\
    now < _expires tm + n * i <= now + i).
Proof.
  intros Hs He Hn Hr Hi i n. split; [| intros Hle; apply forward_exact; [done | done | lia | done | done]].
  intros Hlt. unfold hrtimer_forward. rewrite ktime_small by lia.
  by rewrite (proj2 (Z.ltb_lt _ _)) by lia.
Qed.

Lemma hrtimer_forward_correct_witness : hrtimer_forward (HrTimer 100 90 0 None 0) 1 175 20 = (4, HrTimer 180 170 0 None 0).
Proof.
  destruct (hrtimer_forward_correct (HrTimer 100 90 0 None 0) 1 175 20) as [_ H]; cbn [_expires _softexpires];
    try lia.
  destruct H as [E _]; [cbn; lia |]. exact E.
Defined.

(** a reachable state in which the callback of a timer runs on one CPU and hrtimer_cancel for
    this timer returns 1 on another one: starting the timer twice meanwhile has cleared the mark of the running
    callback, because remove_hrtimer writes HRTIMER_STATE_INACTIVE. *)
Theorem hrtimer_cancel_too_early :
  exists s t b f st', reachable s /\ (t, b, f) ∈ running s /\ hrtimer_cancel 1 id 1 t (hr s) = Ret (1, st').
Proof.
  exists race_5, 16, (0, CLOCK_MONOTONIC), false. assert (returns (hrtimer_cancel 1 id 1 16 (hr race_5)) = true /\
    match hrtimer_cancel 1 id 1 16 (hr race_5) with Ret (r, _) => r | _ => 0 end = 1) as [H1 H2] by (vm_compute; done).
  destruct (hrtimer_cancel 1 id 1 16 (hr race_5)) as [[r st']| |]; [| done | done]. exists st'.
  split; [exact race_reachable |]. split; [vm_compute; left | by rewrite <- H2].
Qed.

(** A reachable state with a range timer whose soft expiry has passed and whose hard expiry has not, such
    that the loop of hrtimer_interrupt never ends if its callback forwards the timer and restarts
    it: hrtimer_forward looks at the hard expiry alone and leaves the timer as it is. *)
Theorem hrtimer_range_spins :
  exists s, reachable s /\ forall fuel next, expire_loop fuel 0 (0, CLOCK_MONOTONIC) 100 (periodic 1 100 10) next
    (hr s) = Diverge.
Proof.
  exists range_0. split; [exact range_reachable |]. intros fuel next.
  apply (spinning_loop fuel 1 100 10 (0, CLOCK_MONOTONIC)), range_spins.
Qed.

(** A reachable state in which a start for the time 100 moves a timer to another CPU whose next event is at 1000
    and leaves that event as it is, so that the timer expires late: hrtimer_check_target compares the
    expiry that the timer had before. *)
Theorem hrtimer_start_moves_late :
  exists s st' tm cb, reachable s /\ __hrtimer_start_range_ns 0 1 16 100 0 false true 0 0 (hr s) = Ret (st', 1) /\
    timers st' !! 16 = Some tm /\ base tm = Some (1, CLOCK_MONOTONIC) /\
    _expires tm = 100 /\ hrtimer_is_queued tm = true /\ hrtimer_bases st' !! 1 = Some cb /\ hres_active cb = true /\
      expires_next cb = 1000 /\ (1, 1000, false) ∈ events st' /\
    Forall (fun e => e.1.1 = 1 -> e.1.2 = 1000) (events st').
Proof.
  assert (exists st', __hrtimer_start_range_ns 0 1 16 100 0 false true 0 0 (hr late_2) = Ret (st', 1)) as [st' E].
  { destruct (after_op_Ret (__hrtimer_start_range_ns 0 1 16 100 0 false true 0 0 (hr late_2)) (hr late_2)) as [r E];
      [vm_compute; reflexivity |].
    assert (match __hrtimer_start_range_ns 0 1 16 100 0 false true 0 0 (hr late_2) with Ret (_, r) => r
      | _ => 0 end = 1) as Hr by (vm_compute; reflexivity). rewrite E in Hr. subst r. by eexists. }
  assert (st' = after_op (__hrtimer_start_range_ns 0 1 16 100 0 false true 0 0 (hr late_2)) (hr late_2)) as Est by (by rewrite E).
  exists late_2, st'. do 2 eexists. split; [exact late_reachable |]. split; [exact E |]. subst st'. clear E.
  split; [vm_compute; reflexivity |]. split; [reflexivity |]. split; [reflexivity |]. split; [reflexivity |].
  split; [vm_compute; reflexivity |]. split; [reflexivity |]. split; [reflexivity |].
  split; [apply (bool_decide_unpack _); vm_compute; exact I |]. vm_compute. repeat constructor; by intros.
Qed.

End HrtimerRun.
