(* ===== verification/PageAlloc.v ===== *)
(** * The buddy allocator: the code

    mm/page_alloc.c for one zone: the free lists by order and migrate type,
    splitting and coalescing of blocks, the fallback between migrate types, and
    the lists of single pages of each CPU.  A page is its frame number, and the
    table of all [struct page] is a map that may have pages of other zones as
    well.  Lists are linked through the pages, so that [list_del] takes a page out
    of whatever list it is in.  The OCTEON configuration has pages of 4 KB,
    huge pages (pageblocks of order 9), 11 orders, no holes in a zone and no
    DEBUG_VM. *)
From S2P Require Import Prelude.

Module PageAlloc.

(** ** Data *)

Abbreviation MAX_ORDER := 11 (only parsing).
Abbreviation pageblock_order := 9 (only parsing).
Abbreviation pageblock_nr_pages := (1 .<< pageblock_order) (only parsing).

Abbreviation MIGRATE_UNMOVABLE := 0 (only parsing).
Abbreviation MIGRATE_RECLAIMABLE := 1 (only parsing).
Abbreviation MIGRATE_MOVABLE := 2 (only parsing).
Abbreviation MIGRATE_PCPTYPES := 3 (only parsing).
Abbreviation MIGRATE_RESERVE := 3 (only parsing).
Abbreviation MIGRATE_ISOLATE := 4 (only parsing).
Abbreviation MIGRATE_TYPES := 5 (only parsing).

Record page := Page { PageBuddy : bool; page_private : Z; page_zone_id : Z }.

(** [free_list] and [nr_free] are those of [free_area], by order and type;
    [pageblock_flags] has the migrate type of each pageblock. *)
Record zone := Zone {
  mem_map : gmap Z page;
  free_list : gmap (Z * Z) (list Z);
  nr_free : gmap Z Z;
  pageblock_flags : gmap Z Z;
  zone_start_pfn : Z;
  spanned_pages : Z;
  NR_FREE_PAGES : Z;
  pages_scanned : Z;
  ZONE_ALL_UNRECLAIMABLE : bool;
  page_group_by_mobility_disabled : bool
}.

Record per_cpu_pages := Pcp { count : Z; high : Z; batch : Z; lists : gmap Z (list Z) }.

Inductive fault := BUG | bad_pointer.
Abbreviation M := (run fault).

Definition get_page (p : Z) (z : zone) : M page := of_option bad_pointer (mem_map z !! p).

Definition set_map (m : gmap Z page) (z : zone) : zone :=
  Zone m (free_list z) (nr_free z) (pageblock_flags z) (zone_start_pfn z) (spanned_pages z) (NR_FREE_PAGES z)
    (pages_scanned z) (ZONE_ALL_UNRECLAIMABLE z) (page_group_by_mobility_disabled z).
Definition set_lists (l : gmap (Z * Z) (list Z)) (z : zone) : zone :=
  Zone (mem_map z) l (nr_free z) (pageblock_flags z) (zone_start_pfn z) (spanned_pages z) (NR_FREE_PAGES z)
    (pages_scanned z) (ZONE_ALL_UNRECLAIMABLE z) (page_group_by_mobility_disabled z).
Definition set_nr (n : gmap Z Z) (z : zone) : zone :=
  Zone (mem_map z) (free_list z) n (pageblock_flags z) (zone_start_pfn z) (spanned_pages z) (NR_FREE_PAGES z)
    (pages_scanned z) (ZONE_ALL_UNRECLAIMABLE z) (page_group_by_mobility_disabled z).
Definition set_flags (f : gmap Z Z) (z : zone) : zone :=
  Zone (mem_map z) (free_list z) (nr_free z) f (zone_start_pfn z) (spanned_pages z) (NR_FREE_PAGES z) (pages_scanned z)
    (ZONE_ALL_UNRECLAIMABLE z) (page_group_by_mobility_disabled z).
Definition set_scan (scanned : Z) (unreclaimable : bool) (z : zone) : zone :=
  Zone (mem_map z) (free_list z) (nr_free z) (pageblock_flags z) (zone_start_pfn z) (spanned_pages z) (NR_FREE_PAGES z)
    scanned unreclaimable (page_group_by_mobility_disabled z).

(** [__mod_zone_page_state] for NR_FREE_PAGES, which is the counter of the zone with the differences of the CPUs. *)
Definition mod_free_pages (delta : Z) (z : zone) : zone :=
  Zone (mem_map z) (free_list z) (nr_free z) (pageblock_flags z) (zone_start_pfn z) (spanned_pages z)
    (NR_FREE_PAGES z + delta) (pages_scanned z) (ZONE_ALL_UNRECLAIMABLE z) (page_group_by_mobility_disabled z).

(** ** Lists *)

Definition free_list_of (order migratetype : Z) (z : zone) : M (list Z) :=
  of_option bad_pointer (free_list z !! (order, migratetype)).

Definition list_add (p order migratetype : Z) (z : zone) : M zone :=
  l ← free_list_of order migratetype z;
  Ret (set_lists (<[(order, migratetype) := p :: l]> (free_list z)) z).

Definition list_del (p : Z) (z : zone) : M zone :=
  if existsb (fun e : Z * Z * list Z => bool_decide (p ∈ e.2)) (map_to_list (free_list z))
  then Ret (set_lists (filter (fun q => q <> p) <$> free_list z) z)
  else Err bad_pointer.

Definition add_nr_free (order delta : Z) (z : zone) : M zone :=
  n ← of_option bad_pointer (nr_free z !! order);
  Ret (set_nr (<[order := u64 (n + delta)]> (nr_free z)) z).

(** ** Pages *)

Definition set_page_private (p private : Z) (z : zone) : M zone :=
  pg ← get_page p z; Ret (set_map (<[p := Page (PageBuddy pg) private (page_zone_id pg)]> (mem_map z)) z).

Definition set_page_order (p order : Z) (z : zone) : M zone :=
  pg ← get_page p z; Ret (set_map (<[p := Page true order (page_zone_id pg)]> (mem_map z)) z).

Definition rmv_page_order (p : Z) (z : zone) : M zone :=
  pg ← get_page p z; Ret (set_map (<[p := Page false 0 (page_zone_id pg)]> (mem_map z)) z).

Definition get_pageblock_migratetype (p : Z) (z : zone) : Z := default 0 (pageblock_flags z !! (p .>> pageblock_order)).

Definition set_pageblock_migratetype (p migratetype : Z) (z : zone) : zone :=
  let migratetype := if page_group_by_mobility_disabled z then MIGRATE_UNMOVABLE else migratetype in
  set_flags (<[p .>> pageblock_order := migratetype]> (pageblock_flags z)) z.

(** ** Freeing *)

Definition __page_find_buddy (page page_idx order : Z) : Z :=
  let buddy_idx := page_idx .^ (1 .<< order) in
  page + (buddy_idx - page_idx).

Definition __find_combined_index (page_idx order : Z) : Z := page_idx .& Z.lnot (1 .<< order).

Definition page_is_buddy (page buddy order : Z) (z : zone) : M bool :=
  pg ← get_page page z;
  b ← get_page buddy z;
  if negb (page_zone_id pg =? page_zone_id b) then Ret false
  else Ret (PageBuddy b && (page_private b =? order)).

(** The block that comes out of merging, and its order. *)
Fixpoint merge_loop (fuel : nat) (page page_idx order : Z) (z : zone) : M (Z * Z * zone) :=
  if order <? MAX_ORDER - 1 then
    let buddy := __page_find_buddy page page_idx order in
    is_buddy ← page_is_buddy page buddy order z;
    if negb is_buddy then Ret (page, order, z)
    else match fuel with
    | O => Diverge
    | S fuel =>
        z ← list_del buddy z;
        z ← add_nr_free order (-1) z;
        z ← rmv_page_order buddy z;
        let combined_idx := __find_combined_index page_idx order in
        merge_loop fuel (page + (combined_idx - page_idx)) combined_idx (order + 1) z
    end
  else Ret (page, order, z).

(** For a page that is not compound. *)
Definition __free_one_page (page order migratetype : Z) (z : zone) : M zone :=
  let page_idx := page .& ((1 .<< MAX_ORDER) - 1) in
  '(page, order, z) ← merge_loop (Z.to_nat MAX_ORDER) page page_idx order z;
  z ← set_page_order page order z;
  z ← list_add page order migratetype z;
  add_nr_free order 1 z.

Definition free_one_page (page order migratetype : Z) (z : zone) : M zone :=
  let z := mod_free_pages (1 .<< order) (set_scan 0 false z) in
  __free_one_page page order migratetype z.

(** ** Allocating *)

Fixpoint expand (fuel : nat) (page low high size migratetype : Z) (z : zone) : M zone :=
  if high >? low then match fuel with
  | O => Diverge
  | S fuel =>
      let high := high - 1 in
      let size := size .>> 1 in
      z ← list_add (page + size) high migratetype z;
      z ← add_nr_free high 1 z;
      z ← set_page_order (page + size) high z;
      expand fuel page low high size migratetype z
  end
  else Ret z.

Fixpoint smallest_loop (fuel : nat) (current_order order migratetype : Z) (z : zone) : M (option Z * zone) :=
  if current_order <? MAX_ORDER then match fuel with
  | O => Diverge
  | S fuel =>
      l ← free_list_of current_order migratetype z;
      match l with
      | [] => smallest_loop fuel (current_order + 1) order migratetype z
      | page :: _ =>
          z ← list_del page z;
          z ← rmv_page_order page z;
          z ← add_nr_free current_order (-1) z;
          z ← expand (Z.to_nat MAX_ORDER) page order current_order (1 .<< current_order) migratetype z;
          Ret (Some page, z)
      end
  end
  else Ret (None, z).

Definition __rmqueue_smallest (order migratetype : Z) (z : zone) : M (option Z * zone) :=
  smallest_loop (Z.to_nat MAX_ORDER) order order migratetype z.

(** The rows of the array; what is not initialised is 0. *)
Definition fallbacks (migratetype : Z) : list Z :=
  if migratetype =? MIGRATE_UNMOVABLE then [MIGRATE_RECLAIMABLE; MIGRATE_MOVABLE; MIGRATE_RESERVE; 0]
  else if migratetype =? MIGRATE_RECLAIMABLE then [MIGRATE_UNMOVABLE; MIGRATE_MOVABLE; MIGRATE_RESERVE; 0]
  else if migratetype =? MIGRATE_MOVABLE then [MIGRATE_RECLAIMABLE; MIGRATE_UNMOVABLE; MIGRATE_RESERVE; 0]
  else if migratetype =? MIGRATE_RESERVE then [MIGRATE_RESERVE; MIGRATE_RESERVE; MIGRATE_RESERVE; 0]
  else [0; 0; 0; 0].

Fixpoint move_loop (fuel : nat) (page end_page migratetype pages_moved : Z) (z : zone) : M (Z * zone) :=
  if page <=? end_page then match fuel with
  | O => Diverge
  | S fuel =>
      pg ← get_page page z;
      if negb (PageBuddy pg) then move_loop fuel (page + 1) end_page migratetype pages_moved z
      else
        let order := page_private pg in
        z ← list_del page z;
        z ← list_add page order migratetype z;
        move_loop fuel (page + (1 .<< order)) end_page migratetype (s32 (pages_moved + (1 .<< order))) z
  end
  else Ret (pages_moved, z).

Definition move_freepages (start_page end_page migratetype : Z) (z : zone) : M (Z * zone) :=
  s ← get_page start_page z;
  e ← get_page end_page z;
  if negb (page_zone_id s =? page_zone_id e) then Err BUG
  else move_loop (Z.to_nat (end_page + 1 - start_page)) start_page end_page migratetype 0 z.

Definition move_freepages_block (page migratetype : Z) (z : zone) : M (Z * zone) :=
  let start_pfn := page .& Z.lnot (pageblock_nr_pages - 1) in
  let end_pfn := start_pfn + pageblock_nr_pages - 1 in
  let start_page := if start_pfn <? zone_start_pfn z then page else start_pfn in
  if end_pfn >=? zone_start_pfn z + spanned_pages z then Ret (0, z)
  else move_freepages start_page end_pfn migratetype z.

Fixpoint change_loop (n : nat) (page migratetype : Z) (z : zone) : zone :=
  match n with
  | O => z
  | S n => change_loop n (page + pageblock_nr_pages) migratetype (set_pageblock_migratetype page migratetype z)
  end.

Definition change_pageblock_range (page start_order migratetype : Z) (z : zone) : zone :=
  change_loop (Z.to_nat (1 .<< (start_order - pageblock_order))) page migratetype z.

(** A block of the fallback type [migratetype] is taken. *)
Definition steal (page order current_order start_migratetype migratetype : Z) (z : zone) : M zone :=
  z ← add_nr_free current_order (-1) z;
  '(migratetype, z) ← (if (current_order >=? pageblock_order .>> 1) || (start_migratetype =? MIGRATE_RECLAIMABLE) ||
    page_group_by_mobility_disabled z then
      '(pages, z) ← move_freepages_block page start_migratetype z;
      Ret (start_migratetype, if (pages >=? 1 .<< (pageblock_order - 1)) || page_group_by_mobility_disabled z then
        set_pageblock_migratetype page start_migratetype z else z)
    else Ret (migratetype, z));
  z ← list_del page z;
  z ← rmv_page_order page z;
  let z := if current_order >=? pageblock_order then change_pageblock_range page current_order start_migratetype z else z in
  expand (Z.to_nat MAX_ORDER) page order current_order (1 .<< current_order) migratetype z.

(** The first fallback type with a block of the order, and the first such block. *)
Fixpoint find_fallback (current_order : Z) (types : list Z) (z : zone) : M (option (Z * Z)) :=
  match types with
  | [] => Ret None
  | migratetype :: types =>
      if migratetype =? MIGRATE_RESERVE then find_fallback current_order types z
      else
        l ← free_list_of current_order migratetype z;
        match l with [] => find_fallback current_order types z | page :: _ => Ret (Some (migratetype, page)) end
  end.

Fixpoint fallback_loop (fuel : nat) (current_order order start_migratetype : Z) (z : zone) : M (option Z * zone) :=
  if current_order >=? order then match fuel with
  | O => Diverge
  | S fuel =>
      r ← find_fallback current_order (fallbacks start_migratetype) z;
      match r with
      | None => fallback_loop fuel (current_order - 1) order start_migratetype z
      | Some (migratetype, page) => z ← steal page order current_order start_migratetype migratetype z; Ret (Some page, z)
      end
  end
  else Ret (None, z).

Definition __rmqueue_fallback (order start_migratetype : Z) (z : zone) : M (option Z * zone) :=
  fallback_loop (Z.to_nat MAX_ORDER) (MAX_ORDER - 1) order start_migratetype z.

Definition __rmqueue (order migratetype : Z) (z : zone) : M (option Z * zone) :=
  '(page, z) ← __rmqueue_smallest order migratetype z;
  match page with
  | Some _ => Ret (page, z)
  | None =>
      if migratetype =? MIGRATE_RESERVE then Ret (None, z)
      else
        '(page, z) ← __rmqueue_fallback order migratetype z;
        match page with Some _ => Ret (page, z) | None => __rmqueue_smallest order MIGRATE_RESERVE z end
  end.

(** ** Isolation *)

(** Up to [drain_all_pages]; [movable]: the zone is ZONE_MOVABLE. *)
Definition set_migratetype_isolate (page : Z) (movable : bool) (z : zone) : M (Z * zone) :=
  if negb (get_pageblock_migratetype page z =? MIGRATE_MOVABLE) && negb movable then Ret (- EBUSY, z)
  else
    '(_, z) ← move_freepages_block page MIGRATE_ISOLATE (set_pageblock_migratetype page MIGRATE_ISOLATE z);
    Ret (0, z).

Definition unset_migratetype_isolate (page : Z) (z : zone) : M zone :=
  if negb (get_pageblock_migratetype page z =? MIGRATE_ISOLATE) then Ret z
  else
    '(_, z) ← move_freepages_block page MIGRATE_MOVABLE (set_pageblock_migratetype page MIGRATE_MOVABLE z);
    Ret z.

(** ** The pages of a CPU *)

(** The pages in the order in which they are got. *)
Fixpoint bulk_alloc (n : nat) (order migratetype : Z) (z : zone) : M (list Z * zone) :=
  match n with
  | O => Ret ([], z)
  | S n =>
      '(page, z) ← __rmqueue order migratetype z;
      match page with
      | None => Ret ([], z)
      | Some page =>
          z ← set_page_private page migratetype z;
          '(l, z) ← bulk_alloc n order migratetype z;
          Ret (page :: l, z)
      end
  end.

(** Each page is put behind the one before it or, when cold, before it. *)
Definition rmqueue_bulk (order count : Z) (list : list Z) (migratetype : Z) (cold : bool) (z : zone) : M
  (Z * Datatypes.list Z * zone) :=
  '(l, z) ← bulk_alloc (Z.to_nat count) order migratetype z;
  let i := Z.of_nat (length l) in
  Ret (i, if cold then list ++ rev l else l ++ list, mod_free_pages (- (i .<< order)) z).

(** The next list that is not empty, and how many pages may go. *)
Fixpoint next_list (fuel : nat) (migratetype batch_free : Z) (lists : gmap Z (list Z)) : M (Z * Z) :=
  match fuel with
  | O => Diverge
  | S fuel =>
      let batch_free := batch_free + 1 in
      let migratetype := if migratetype + 1 =? MIGRATE_PCPTYPES then 0 else migratetype + 1 in
      l ← of_option bad_pointer (lists !! migratetype);
      match l with [] => next_list fuel migratetype batch_free lists | _ => Ret (migratetype, batch_free) end
  end.

(** From the list of [migratetype], the last page first. *)
Fixpoint drain_list (fuel : nat) (migratetype count batch_free : Z) (lists : gmap Z (list Z)) (z : zone) : M
  (Z * Z * gmap Z (list Z) * zone) :=
  match fuel with
  | O => Diverge
  | S fuel =>
      l ← of_option bad_pointer (lists !! migratetype);
      page ← of_option bad_pointer (last l);
      let l := removelast l in
      let lists := <[migratetype := l]> lists in
      pg ← get_page page z;
      z ← __free_one_page page 0 (page_private pg) z;
      let count := count - 1 in
      if count =? 0 then Ret (count, batch_free, lists, z)
      else
        let batch_free := batch_free - 1 in
        if (batch_free =? 0) || (if decide (l = []) then true else false) then Ret (count, batch_free, lists, z)
        else drain_list fuel migratetype count batch_free lists z
  end.

Fixpoint drain_loop (fuel : nat) (migratetype count batch_free : Z) (lists : gmap Z (list Z)) (z : zone) : M
  (gmap Z (list Z) * zone) :=
  if count =? 0 then Ret (lists, z)
  else match fuel with
  | O => Diverge
  | S k =>
      '(migratetype, batch_free) ← next_list fuel migratetype batch_free lists;
      '(count, batch_free, lists, z) ← drain_list fuel migratetype count batch_free lists z;
      drain_loop k migratetype count batch_free lists z
  end.

Definition free_pcppages_bulk (fuel : nat) (count : Z) (pcp : per_cpu_pages) (z : zone) : M (per_cpu_pages * zone) :=
  let z := mod_free_pages count (set_scan 0 false z) in
  '(ls, z) ← drain_loop fuel 0 count 0 (lists pcp) z;
  Ret (Pcp (PageAlloc.count pcp) (high pcp) (batch pcp) ls, z).

(** [drain_pages] for this zone. *)
Definition drain_pages (fuel : nat) (pcp : per_cpu_pages) (z : zone) : M (per_cpu_pages * zone) :=
  '(pcp, z) ← free_pcppages_bulk fuel (count pcp) pcp z;
  Ret (Pcp 0 (high pcp) (batch pcp) (lists pcp), z).

(** [free_hot_cold_page] from the choice of the list on. *)
Definition free_hot_cold_page (fuel : nat) (page : Z) (cold : bool) (pcp : per_cpu_pages) (z : zone) : M (per_cpu_pages * zone) :=
  let migratetype := get_pageblock_migratetype page z in
  z ← set_page_private page migratetype z;
  if migratetype =? MIGRATE_ISOLATE then z ← free_one_page page 0 migratetype z; Ret (pcp, z)
  else
    let migratetype := if migratetype >=? MIGRATE_PCPTYPES then MIGRATE_MOVABLE else migratetype in
    l ← of_option bad_pointer (lists pcp !! migratetype);
    let pcp := Pcp (s32 (count pcp + 1)) (high pcp) (batch pcp) (<[migratetype :=
      if cold then l ++ [page] else page :: l]> (lists pcp)) in
    if count pcp >=? high pcp then
      '(pcp, z) ← free_pcppages_bulk fuel (batch pcp) pcp z;
      Ret (Pcp (s32 (count pcp - batch pcp)) (high pcp) (batch pcp) (lists pcp), z)
    else Ret (pcp, z).

(** [buffered_rmqueue] up to [prep_new_page]. *)
Definition buffered_rmqueue (order migratetype : Z) (cold : bool) (pcp : per_cpu_pages) (z : zone) : M
  (option Z * per_cpu_pages * zone) :=
  if order =? 0 then
    l ← of_option bad_pointer (lists pcp !! migratetype);
    '(n, l, z) ← (match l with [] => rmqueue_bulk 0 (batch pcp) [] migratetype cold z | _ => Ret (0, l, z) end);
    let count := s32 (count pcp + n) in
    match (if cold then last l else head l) with
    | None => Ret (None, Pcp count (high pcp) (batch pcp) (<[migratetype := l]> (lists pcp)), z)
    | Some page =>
        let l := if cold then removelast l else tail l in
        Ret (Some page, Pcp (s32 (count - 1)) (high pcp) (batch pcp) (<[migratetype := l]> (lists pcp)), z)
    end
  else
    '(page, z) ← __rmqueue order migratetype z;
    Ret (page, pcp, match page with None => z | Some _ => mod_free_pages (- (1 .<< order)) z end).

(** ** Watermarks *)

(** [x] is the counter of the zone, without the differences that the CPUs keep. *)
Abbreviation zone_page_state x := (u64 (if x <? 0 then 0 else x)) (only parsing).

Abbreviation ALLOC_HARDER := 0x10 (only parsing).
Abbreviation ALLOC_HIGH := 0x20 (only parsing).

Definition wmark_min (mark alloc_flags : Z) : Z :=
  let min := s64 mark in
  let min := if alloc_flags .& ALLOC_HIGH =? 0 then min else min - Z.quot min 2 in
  if alloc_flags .& ALLOC_HARDER =? 0 then min else min - Z.quot min 4.

Fixpoint watermark_loop (n : nat) (o free_pages min : Z) (z : zone) : M bool :=
  match n with
  | O => Ret true
  | S n =>
      nr ← of_option bad_pointer (nr_free z !! o);
      let free_pages := s64 (u64 free_pages - u64 (nr .<< o)) in
      let min := min .>> 1 in
      if free_pages <=? min then Ret false else watermark_loop n (o + 1) free_pages min z
  end.

(** [lowmem_reserve] is the entry for the class of the zone; it is unsigned, and so is the first comparison. *)
Definition zone_watermark_ok (nr_free_pages lowmem_reserve order mark alloc_flags : Z) (z : zone) : M bool :=
  let min := wmark_min mark alloc_flags in
  let free_pages := s64 (zone_page_state nr_free_pages - (1 .<< order) + 1) in
  if u64 free_pages <=? u64 (u64 min + lowmem_reserve) then Ret false
  else watermark_loop (Z.to_nat order) 0 free_pages min z.

(** ** Boot *)

Definition zone_init_free_lists (z : zone) : zone :=
  set_lists (list_to_map (o ← seqZ 0 MAX_ORDER; t ← seqZ 0 MIGRATE_TYPES;
    [((o, t), [])])) (set_nr (list_to_map ((fun o => (o, 0)) <$> seqZ 0 MAX_ORDER)) z).

End PageAlloc.
