(* ===== verification/PageBlocks.v ===== *)
(** * The buddy allocator: blocks

    Aligned blocks of pages, their buddies, and sets of disjoint blocks in
    which no two buddies are left apart: adding and taking away a block, and that
    such a set is determined by the pages it covers. *)
From S2P Require Import Prelude PageAlloc.

Module PageBlocks.
Import PageAlloc.

(** ** One block *)

(** The page [q] is in the block of order [o] at [p]. *)
Definition block_of (p o q : Z) : Prop := p <= q < p + 2 ^ o.

#[export] Instance block_of_dec p o q : Decision (block_of p o q).
Proof. unfold block_of. apply _. Defined.

Definition buddy (p o : Z) : Z := if Z.odd (p / 2 ^ o) then p - 2 ^ o else p + 2 ^ o.
Definition parent (p o : Z) : Z := if Z.odd (p / 2 ^ o) then p - 2 ^ o else p.

Lemma pow_pos o : 0 <= o -> 0 < 2 ^ o.
Proof. intros. by apply Z.pow_pos_nonneg. Qed.

Lemma pow_S o : 0 <= o -> 2 ^ (o + 1) = 2 * 2 ^ o.
Proof. intros. by rewrite Z.pow_add_r, Z.mul_comm by lia. Qed.

Lemma block_head p o : 0 <= o -> block_of p o p.
Proof. intros Ho. pose proof (pow_pos o Ho). unfold block_of. lia. Qed.

Lemma aligned_quot p o : 0 <= o -> (2 ^ o | p) -> exists k, p = k * 2 ^ o /\ p / 2 ^ o = k.
Proof. intros Ho [k ->]. exists k. split; [done |]. apply Z.div_mul. pose proof (pow_pos o Ho). lia. Qed.

(** [p] is the lower one of its pair of buddies, or the upper one. *)
Lemma buddy_cases p o : 0 <= o -> (2 ^ o | p) ->
  (2 ^ (o + 1) | p) /\ buddy p o = p + 2 ^ o /\ parent p o = p \/ (2 ^ (o + 1) | p - 2 ^ o) /\ buddy p o = p - 2 ^ o /\
    parent p o = p - 2 ^ o.
Proof.
  intros Ho Ha. destruct (aligned_quot p o Ho Ha) as (k & Hp & Hk). unfold buddy, parent. rewrite Hk.
  pose proof (Zodd_mod k) as Hm.
  rewrite (Z.div_mod k 2) in Hp by lia. destruct (Z.odd k) eqn:E; [right | left]; (split; [| done]); exists (k / 2);
    rewrite pow_S by done; rewrite Zmod_odd, E in Hp; lia.
Qed.

Lemma aligned_down p o : 0 <= o -> (2 ^ (o + 1) | p) -> (2 ^ o | p).
Proof. intros Ho [k ->]. exists (2 * k). rewrite pow_S by done. lia. Qed.

Lemma low_buddy p o : 0 <= o -> (2 ^ (o + 1) | p) -> buddy p o = p + 2 ^ o.
Proof.
  intros Ho [k ->]. unfold buddy. rewrite pow_S by done. replace (k * (2 * 2 ^ o)) with (2 * k * 2 ^ o) by lia.
  pose proof (pow_pos o Ho).
  by rewrite Z.div_mul, Z.odd_mul by lia.
Qed.

Lemma high_buddy p o : 0 <= o -> (2 ^ (o + 1) | p) -> buddy (p + 2 ^ o) o = p.
Proof.
  intros Ho [k ->]. unfold buddy. rewrite pow_S by done.
  replace (k * (2 * 2 ^ o) + 2 ^ o) with ((2 * k + 1) * 2 ^ o) by lia. pose proof (pow_pos o Ho).
  rewrite Z.div_mul by lia. replace (Z.odd (2 * k + 1)) with true by (rewrite Z.add_comm, Z.odd_add_mul_2; done). lia.
Qed.

Lemma buddy_buddy p o : 0 <= o -> (2 ^ o | p) -> buddy (buddy p o) o = p.
Proof.
  intros Ho Ha. destruct (buddy_cases p o Ho Ha) as [(H & -> & _) | (H & -> & _)]; [by apply high_buddy |].
  rewrite low_buddy by done. lia.
Qed.

Lemma buddy_aligned p o : 0 <= o -> (2 ^ o | p) -> (2 ^ o | buddy p o).
Proof.
  intros Ho Ha. destruct (buddy_cases p o Ho Ha) as [(_ & -> & _) | (_ & -> & _)];
    [apply Z.divide_add_r | apply Z.divide_sub_r]; done || apply Z.divide_refl.
Qed.

Lemma parent_aligned p o : 0 <= o -> (2 ^ o | p) -> (2 ^ (o + 1) | parent p o).
Proof. intros Ho Ha. destruct (buddy_cases p o Ho Ha) as [(H & _ & ->) | (H & _ & ->)]; done. Qed.

Lemma parent_block p o q : 0 <= o -> (2 ^ o | p) -> block_of (parent p o) (o + 1) q <-> block_of p o q \/
  block_of (buddy p o) o q.
Proof.
  intros Ho Ha. unfold block_of. rewrite pow_S by done. destruct (buddy_cases p o Ho Ha) as [(_ & -> & ->) | (_ & -> & ->)]; lia.
Qed.

Lemma buddy_ne p o : 0 <= o -> buddy p o <> p.
Proof. intros Ho. pose proof (pow_pos o Ho). unfold buddy. case_match; lia. Qed.

(** Two blocks that share a page are nested. *)
Lemma nested p o p' o' q : 0 <= o <= o' -> (2 ^ o | p) -> (2 ^ o' | p') -> block_of p o q -> block_of p' o' q ->
  forall r, block_of p o r -> block_of p' o' r.
Proof.
  intros Ho [a Ha] [b Hb] Hq Hq' r Hr. unfold block_of in *. replace o' with (o + (o' - o)) in * by lia.
  rewrite Z.pow_add_r in * by lia.
  pose proof (pow_pos o ltac:(lia)). pose proof (pow_pos (o' - o) ltac:(lia)). set (u := 2 ^ o) in *.
  set (e := 2 ^ (o' - o)) in *.
  assert (a < b * e + e) by nia. assert (b * e < a + 1) by nia. assert (b * e * u <= a * u) by nia.
  assert ((a + 1) * u <= (b * e + e) * u) by nia. lia.
Qed.

Lemma same_block p p' o q : 0 <= o -> (2 ^ o | p) -> (2 ^ o | p') -> block_of p o q -> block_of p' o q -> p = p'.
Proof.
  intros Ho Ha Ha' Hq Hq'. pose proof (nested p o p' o q ltac:(lia) Ha Ha' Hq Hq' p (block_head _ _ Ho)).
  pose proof (nested p' o p o q ltac:(lia) Ha' Ha Hq' Hq p' (block_head _ _ Ho)).
  unfold block_of in *. lia.
Qed.

(** ** The bit operations of the source *)

Section bits.
Context (p o : Z) (Hp : 0 <= p) (Ho : 0 <= o < MAX_ORDER).

Lemma idx_bit : Z.testbit (p .& ((1 .<< MAX_ORDER) - 1)) o = Z.odd (p / 2 ^ o).
Proof.
  rewrite <- Z.shiftr_div_pow2, <- Z.testbit_odd by lia. change ((1 .<< MAX_ORDER) - 1) with (Z.ones MAX_ORDER).
  rewrite Z.land_spec, Z.ones_spec_low by (lia). by rewrite andb_true_r.
Qed.

Lemma lxor_bit x : Z.lxor x (2 ^ o) = if Z.testbit x o then x - 2 ^ o else x + 2 ^ o.
Proof.
  assert (forall y, Z.testbit y o = false -> Z.land y (2 ^ o) = 0) as Hl.
  { intros y Hy. apply Z.bits_inj'. intros n Hn. rewrite Z.land_spec, Z.pow2_bits_eqb, Z.bits_0 by lia.
    destruct (Z.eqb_spec o n) as [<- | ?]; [by rewrite Hy | by rewrite andb_false_r]. }
  destruct (Z.testbit x o) eqn:E.
  - assert (Z.testbit (Z.lxor x (2 ^ o)) o = false) as Hc by (rewrite Z.lxor_spec, E, Z.pow2_bits_true by lia; done).
    pose proof (Z.add_nocarry_lxor _ _ (Hl _ Hc)) as Hs. rewrite Z.lxor_assoc, Z.lxor_nilpotent, Z.lxor_0_r in Hs. lia.
  - symmetry. apply Z.add_nocarry_lxor. by apply Hl.
Qed.

Lemma ldiff_bit x : Z.ldiff x (2 ^ o) = if Z.testbit x o then x - 2 ^ o else x.
Proof.
  destruct (Z.testbit x o) eqn:E; [transitivity (Z.lxor x (2 ^ o)); [| by rewrite lxor_bit, E] |]; apply Z.bits_inj';
    intros n Hn; rewrite ?Z.lxor_spec, Z.ldiff_spec, Z.pow2_bits_eqb by lia;
    (destruct (Z.eqb_spec o n) as [<- | ?]; [by rewrite E | by rewrite andb_true_r, ?xorb_false_r]).
Qed.

Lemma find_buddy_eq : __page_find_buddy p (p .& ((1 .<< MAX_ORDER) - 1)) o = buddy p o.
Proof. unfold __page_find_buddy, buddy. rewrite (Z.shiftl_1_l o), lxor_bit, idx_bit. case_match; lia. Qed.

Lemma combined_eq : p + (__find_combined_index (p .& ((1 .<< MAX_ORDER) - 1)) o - p .& ((1 .<< MAX_ORDER) - 1)) = parent p o.
Proof. unfold __find_combined_index, parent. rewrite (Z.shiftl_1_l o), <- Z.ldiff_land, ldiff_bit, idx_bit. case_match; lia. Qed.

(** The index of the parent is that of the combined block. *)
Lemma parent_idx : __find_combined_index (p .& ((1 .<< MAX_ORDER) - 1)) o = parent p o .& ((1 .<< MAX_ORDER) - 1).
Proof.
  unfold __find_combined_index, parent. rewrite <- Z.shiftr_div_pow2, <- Z.testbit_odd, <- ldiff_bit, (Z.shiftl_1_l o),
    Z.ldiff_land, <- !Z.land_assoc by lia. f_equal. apply Z.land_comm.
Qed.
End bits.

(** ** Sets of blocks *)

(** A set of blocks maps each head to its order. *)
Abbreviation blocks := (gmap Z Z).

Definition covered (B : blocks) (q : Z) : Prop := exists p o, B !! p = Some o /\ block_of p o q.

#[export] Instance covered_dec B q : Decision (covered B q).
Proof.
  destruct (decide (map_Exists (fun p o => block_of p o q) B)) as [H | H]; [left; destruct H as (p & o & E);
    by exists p, o | right; intros (p & o & E); apply H; by exists p, o].
Defined.

Section span.
Context (start fin : Z).

(** A block has one of the orders, is aligned, and lies in the pages from [start] to before [fin]. *)
Definition placed (p o : Z) : Prop := 0 <= o < MAX_ORDER /\ (2 ^ o | p) /\ start <= p /\ p + 2 ^ o <= fin.

(** The blocks are disjoint, and no two buddies are left apart. *)
Record coalesced (B : blocks) : Prop := Coalesced {
  b_placed : forall p o, B !! p = Some o -> placed p o;
  b_disjoint : forall p o p' o' q, B !! p = Some o -> B !! p' = Some o' -> block_of p o q -> block_of p' o' q -> p = p';
  b_merged : forall p o, B !! p = Some o -> o < MAX_ORDER - 1 -> B !! buddy p o <> Some o
}.

Lemma coalesced_delete B p : coalesced B -> coalesced (delete p B).
Proof.
  intros [H1 H2 H3]. split.
  - intros p' o' [_ E]%lookup_delete_Some. by apply H1.
  - intros p1 o1 p2 o2 q [_ E1]%lookup_delete_Some [_ E2]%lookup_delete_Some. by apply H2.
  - intros p' o' [_ E]%lookup_delete_Some Ho [_ E']%lookup_delete_Some. by apply (H3 p' o').
Qed.

Lemma covered_delete B p o q : coalesced B -> B !! p = Some o -> covered (delete p B) q <-> covered B q /\ ~ block_of p o q.
Proof.
  intros H Hp. split.
  - intros (p' & o' & [Hne E]%lookup_delete_Some & Hq). split; [by exists p', o' |]. intros Hq'. apply Hne.
    by eapply (b_disjoint _ H p o p' o').
  - intros [(p' & o' & E & Hq) Hn]. exists p', o'. split; [| done]. apply lookup_delete_Some. split; [| done].
    intros <-. congruence.
Qed.

Lemma coalesced_insert B p o :
  coalesced B -> placed p o -> (forall q, block_of p o q -> ~ covered B q) ->
    (o < MAX_ORDER - 1 -> B !! buddy p o <> Some o) -> coalesced (<[p := o]> B).
Proof.
  intros H Hp Hfree Hb. assert (B !! p = None) as Hnone.
  { destruct (B !! p) as [o'|] eqn:E; [| done]. destruct (b_placed _ H _ _ E) as (? & _).
    destruct (Hfree p); [apply block_head, Hp | exists p, o'; split; [done | apply block_head; lia]]. }
  split.
  - intros p' o' [[<- <-] | [_ E]]%lookup_insert_Some; [done | by apply (b_placed _ H)].
  - intros p1 o1 p2 o2 q [[<- <-] | [_ E1]]%lookup_insert_Some [[<- <-] | [_ E2]]%lookup_insert_Some Hq1 Hq2;
      [done | | | by eapply (b_disjoint _ H)].
    + destruct (Hfree q Hq1). by exists p2, o2.
    + destruct (Hfree q Hq2). by exists p1, o1.
  - destruct Hp as ((Ho & _) & Ha & _). intros p' o' [[<- <-] | [Hne E]]%lookup_insert_Some Hlt [[Eb Eo]
      | [_ E']]%lookup_insert_Some.
    + symmetry in Eb. by apply buddy_ne in Eb.
    + by apply Hb.
    + subst o'. destruct (b_placed _ H _ _ E) as (_ & Ha' & _). apply (Hb Hlt). by rewrite Eb, buddy_buddy.
    + by apply (b_merged _ H p' o').
Qed.

Lemma covered_insert B p o q : B !! p = None -> covered (<[p := o]> B) q <-> covered B q \/ block_of p o q.
Proof.
  intros Hp. split.
  - intros (p' & o' & [[<- <-] | [_ E]]%lookup_insert_Some & Hq); [by right | left; by exists p', o'].
  - intros [(p' & o' & E & Hq) | Hq]; [| exists p, o; by rewrite lookup_insert_eq]. exists p', o'. split; [| done].
    rewrite lookup_insert_ne by congruence. done.
Qed.

Lemma uncovered_head B p o : (forall q, block_of p o q -> ~ covered B q) -> 0 <= o ->
  (forall p o, B !! p = Some o -> 0 <= o) -> B !! p = None.
Proof.
  intros Hf Ho Hb. destruct (B !! p) as [o'|] eqn:E; [| done].
  destruct (Hf p); [by apply block_head | exists p, o'; split; [done | by eapply block_head, Hb]].
Qed.

(** ** The set is determined by the pages *)

(** An aligned block of covered pages is part of one block. *)
Lemma covered_block B : coalesced B -> forall o, 0 <= o < MAX_ORDER -> forall p, (2 ^ o | p) ->
  (forall q, block_of p o q -> covered B q) ->
  exists p' o', B !! p' = Some o' /\ o <= o' /\ block_of p' o' p.
Proof.
  intros H o Ho. destruct Ho as [Ho Hmax]. revert Hmax. pattern o. apply natlike_ind; [| | done]; clear o Ho.
  - intros _ p _ Hc. destruct (Hc p) as (p' & o' & E & Hq); [by apply block_head |]. exists p', o'.
    destruct (b_placed _ H _ _ E) as (? & _). split; [done |]. split; [lia | done].
  - intros o Ho IH Hmax p Ha Hc. rewrite <- Z.add_1_r in *. assert (2 ^ o | p) as Ha' by (by apply aligned_down).
    assert (forall r, r = p \/ r = p + 2 ^ o -> exists p' o', B !! p' = Some o' /\ o <= o' /\ block_of p' o' r) as Hhalf.
    { pose proof (pow_pos o Ho). intros r Hr. apply IH; [lia | |].
      - destruct Hr as [-> | ->]; [done |]. apply Z.divide_add_r; [done | apply Z.divide_refl].
      - intros q Hq. apply Hc. unfold block_of in *. rewrite pow_S by done. lia. }
    destruct (Hhalf p) as (p1 & o1 & E1 & Ho1 & Hq1); [by left |].
    destruct (Z.eq_dec o1 o) as [-> | Hne]; [| exists p1, o1; split; [done |]; split; [lia | done]].
    destruct (Hhalf (p + 2 ^ o)) as (p2 & o2 & E2 & Ho2 & Hq2); [by right |].
    destruct (b_placed _ H _ _ E1) as (_ & Ha1 & _). destruct (b_placed _ H _ _ E2) as (_ & Ha2 & _).
    assert (p1 = p) as -> by (eapply (same_block p1 p o p); try done; by apply block_head).
    destruct (Z.eq_dec o2 o) as [-> | Hne2].
    + assert (p2 = p + 2 ^ o) as ->. { eapply (same_block _ _ o (p + 2 ^ o)); try done;
        [apply Z.divide_add_r; [done | apply Z.divide_refl] | by apply block_head]. }
      destruct (b_merged _ H p o E1); [lia |]. by rewrite low_buddy.
    + exfalso. assert (2 ^ (o + 1) | p2) as Ha3. { destruct Ha2 as [k ->]. exists (k * 2 ^ (o2 - (o + 1))).
        rewrite <- Z.mul_assoc, <- Z.pow_add_r by lia. do 2 f_equal. lia. }
      assert (block_of p2 o2 p) as Hq. { apply (nested p (o + 1) p2 o2 (p + 2 ^ o)); try done;
        [lia | | apply block_head; lia]. pose proof (pow_pos o Ho). unfold block_of. rewrite pow_S by done. lia. }
      assert (p = p2) as <- by (eapply (b_disjoint _ H p o p2 o2 p); try done; by apply block_head). congruence.
Qed.

Lemma coalesced_sub B B' p o : coalesced B -> coalesced B' -> (forall q, covered B q <-> covered B' q) -> B !! p = Some o ->
  exists p' o', B' !! p' = Some o' /\ o <= o' /\ block_of p' o' p.
Proof.
  intros H H' Hc E. destruct (b_placed _ H _ _ E) as (Ho & Ha & _). apply (covered_block B' H'); [done | done |].
  intros q Hq. apply Hc. by exists p, o.
Qed.

Lemma coalesced_incl B B' p o : coalesced B -> coalesced B' -> (forall q, covered B q <-> covered B' q) ->
  B !! p = Some o -> B' !! p = Some o.
Proof.
  intros H H' Hc E. destruct (coalesced_sub B B' p o H H' Hc E) as (p1 & o1 & E1 & Ho1 & Hq1).
  destruct (coalesced_sub B' B p1 o1 H' H (fun q => iff_sym (Hc q)) E1) as (p2 & o2 & E2 & Ho2 & Hq2).
  destruct (b_placed _ H _ _ E) as (Hp & Ha & _). destruct (b_placed _ H' _ _ E1) as (Hp1 & Ha1 & _).
  destruct (b_placed _ H _ _ E2) as (Hp2 & Ha2 & _).
  assert (block_of p2 o2 p) as Hq by (apply (nested p1 o1 p2 o2 p1); try done; [lia | apply block_head; lia]).
  assert (p = p2) as <- by (eapply (b_disjoint _ H p o p2 o2 p); [done | done | apply block_head; lia | done]).
  assert (o2 = o) as -> by congruence. assert (o1 = o) as -> by lia.
  assert (p1 = p) as -> by (eapply (same_block _ _ o p); try lia; try done; apply block_head; lia). done.
Qed.

(** Two coalesced sets that cover the same pages are the same. *)
Lemma coalesced_unique B B' : coalesced B -> coalesced B' -> (forall q, covered B q <-> covered B' q) -> B = B'.
Proof.
  intros H H' Hc. apply map_eq. intros p. destruct (B !! p) as [o|] eqn:E; [by rewrite (coalesced_incl B B' p o) |].
  destruct (B' !! p) as [o|] eqn:E'; [| done].
  rewrite (coalesced_incl B' B p o) in E; [done | done | done | intros q; by rewrite Hc | done].
Qed.

(** ** Who has which page *)

(** The blocks [H] that somebody has, and the free pages [F]: no page is in two of them. *)
Fixpoint owned (H : list (Z * Z)) (F : Z -> Prop) : Prop :=
  match H with
  | [] => True
  | b :: H => placed b.1 b.2 /\ (forall q, block_of b.1 b.2 q -> ~ F q) /\ owned H (fun q => F q \/ block_of b.1 b.2 q)
  end.

Definition holds (H : list (Z * Z)) (q : Z) : Prop := exists b, b ∈ H /\ block_of b.1 b.2 q.

Lemma owned_ext H : forall F F' : Z -> Prop, (forall q, F q <-> F' q) -> owned H F -> owned H F'.
Proof.
  induction H as [|b H IH]; intros F F' E; simpl; [done |]. intros (H1 & H2 & H3). split; [done |].
  split; [intros q Hq; rewrite <- E; by apply H2 |].
  eapply IH; [| exact H3]. intros q. simpl. by rewrite E.
Qed.

Lemma owned_perm H H' F : H ≡ₚ H' -> owned H F -> owned H' F.
Proof.
  intros P. revert F. induction P as [|b H H' P IH|a b H|H1 H2 H3 P1 IH1 P2 IH2]; intros F; simpl; [done | | | by auto].
  - intros (? & ? & ?). split; [done |]. split; [done | by apply IH].
  - intros (Pa & Fa & Pb & Fb & Ho). split; [done |]. split; [intros q Hq Hf; apply (Fb q Hq); by left |]. split; [done |].
    split; [intros q Hq [Hf | Hb]; [by apply (Fa q) | apply (Fb q Hb); by right] |]. eapply owned_ext; [| exact Ho].
    intros q. simpl. tauto.
Qed.

Lemma owned_disjoint H F b q : owned H F -> b ∈ H -> block_of b.1 b.2 q -> ~ F q.
Proof.
  revert F. induction H as [|c H IH]; intros F; simpl; [by intros _ ?%not_elem_of_nil |].
  intros (_ & Hc & Ho) [-> | Hb]%elem_of_cons Hq; [by apply Hc |].
  intros Hf. apply (IH _ Ho Hb Hq). by left.
Qed.

Lemma owned_placed H F b : owned H F -> b ∈ H -> placed b.1 b.2.
Proof.
  revert F. induction H as [|c H IH]; intros F; simpl; [by intros _ ?%not_elem_of_nil |].
  intros (Hp & _ & Ho) [-> | Hb]%elem_of_cons; [done | by eapply IH].
Qed.

(** Two of the blocks share no page. *)
Lemma owned_apart H1 H2 F b c q : owned (H1 ++ b :: H2) F -> c ∈ H1 ++ H2 -> block_of b.1 b.2 q -> ~ block_of c.1 c.2 q.
Proof.
  intros Ho Hc Hb Hq. apply (owned_perm _ (b :: H1 ++ H2)) in Ho; [| by rewrite Permutation_middle].
  destruct Ho as (_ & _ & Ho). apply (owned_disjoint _ _ _ _ Ho Hc Hq). by right.
Qed.

(** A block may be given away in two halves. *)
Lemma owned_split H F p o : 0 <= o -> owned ((p, o + 1) :: H) F -> owned ((p, o) :: (p + 2 ^ o, o) :: H) F.
Proof.
  intros Ho. pose proof (pow_pos o Ho). pose proof (pow_S o Ho) as E. simpl. unfold placed, block_of.
  intros ((Hr & Ha & Hs & Hf) & Hd & Hown).
  apply aligned_down in Ha as Ha'; [| done]. rewrite E in Hf, Hd, Hown. split; [split; [lia |]; split; [done | lia] |].
  split; [intros q Hq; apply Hd; lia |].
  split; [split; [lia |]; split; [by apply Z.divide_add_r, Z.divide_refl | lia] |].
  split; [intros q Hq [Hq' | Hq']; [apply (Hd q); [lia | done] | lia] |].
  eapply owned_ext; [| exact Hown]. intros q. simpl.
  split; [intros [? | ?]; [by left; left | destruct (decide (q < p + 2 ^ o)); [left; right; lia | right; lia]]
    | intros [[? | ?] | ?]; [by left | right; lia | right; lia]].
Qed.

(** The pages that a CPU has are different ones and lie in the zone. *)
Lemma owned_pages P H F : owned (((fun p => (p, 0)) <$> P) ++ H) F -> Z.of_nat (length P) <= Z.max 0 (fin - start).
Proof.
  intros Ho. assert (NoDup P /\ forall p, p ∈ P -> start <= p < fin) as [Hn Hr].
  { revert F Ho. induction P as [|p P IH]; intros F; [by split; [constructor | intros p ?%not_elem_of_nil] |].
    cbn [fmap list_fmap app owned fst snd]. intros (Hp & _ & Ho). destruct (IH _ Ho) as [Hn Hr].
    split; [constructor; [| done] |].
    - intros Hin. apply (owned_disjoint _ _ (p, 0) p Ho); [apply elem_of_app; left; apply list_elem_of_fmap;
        by exists p | by apply block_head | right; by apply block_head].
    - destruct Hp as (_ & _ & ? & ?). intros q [-> | Hq]%elem_of_cons; [lia | by apply Hr]. }
  assert (P ⊆+ seqZ start (fin - start)) as Hs by (apply NoDup_submseteq; [done | intros p Hp; apply elem_of_seqZ;
    specialize (Hr p Hp); lia]).
  apply submseteq_length in Hs. rewrite length_seqZ in Hs. lia.
Qed.

(** ** Counting *)

Definition card (F : Z -> Prop) `{!forall q, Decision (F q)} : Z := Z.of_nat (length (filter F (seqZ start (fin - start)))).

Lemma filter_sum {A} (P Q R : A -> Prop) `{!forall x, Decision (P x), !forall x, Decision (Q x), !forall x, Decision
  (R x)} (l : list A) :
  (forall x, R x <-> P x \/ Q x) -> (forall x, Q x -> ~ P x) ->
    length (filter R l) = (length (filter P l) + length (filter Q l))%nat.
Proof.
  intros HR HQ. induction l as [|x l IH]; [done |]. rewrite !filter_cons. specialize (HR x). specialize (HQ x).
  repeat case_decide; simpl; try tauto; lia.
Qed.

Lemma filter_every {A} (P : A -> Prop) `{!forall x, Decision (P x)} (l : list A) : (forall x, x ∈ l -> P x) -> filter P l = l.
Proof.
  induction l as [|x l IH]; [done |]. intros HP. rewrite filter_cons_True by (apply HP; left). f_equal. apply IH.
  intros y Hy. apply HP. by right.
Qed.

Lemma filter_nothing {A} (P : A -> Prop) `{!forall x, Decision (P x)} (l : list A) : (forall x, x ∈ l -> ~ P x) -> filter P l = [].
Proof.
  induction l as [|x l IH]; [done |]. intros HP. rewrite filter_cons_False by (apply HP; left). apply IH. intros y Hy.
  apply HP. by right.
Qed.

Lemma card_block p o : placed p o -> Z.of_nat (length (filter (block_of p o) (seqZ start (fin - start)))) = 2 ^ o.
Proof.
  intros (Ho & _ & Hs & Hf). pose proof (pow_pos o ltac:(lia)).
  replace (fin - start) with ((p - start) + (2 ^ o + (fin - (p + 2 ^ o)))) by lia.
  rewrite seqZ_app, filter_app by lia. replace (start + (p - start)) with p by lia. rewrite seqZ_app, filter_app by lia.
  rewrite (filter_nothing _ (seqZ start _)), (filter_every _ (seqZ p (2 ^ o))), (filter_nothing _ (seqZ (p + 2 ^ o) _)).
  - rewrite app_nil_r. simpl. rewrite length_seqZ. lia.
  - intros x Hx%elem_of_seqZ. unfold block_of. lia.
  - intros x Hx%elem_of_seqZ. unfold block_of. lia.
  - intros x Hx%elem_of_seqZ. unfold block_of. lia.
Qed.

Lemma card_add (F F' : Z -> Prop) `{!forall q, Decision (F q), !forall q, Decision (F' q)} p o :
  placed p o -> (forall q, F' q <-> F q \/ block_of p o q) -> (forall q, block_of p o q -> ~ F q) -> card F' = card F + 2 ^ o.
Proof.
  intros Hp HF Hd. unfold card. rewrite (filter_sum F (block_of p o) F' _ HF Hd), Nat2Z.inj_add, card_block by done. done.
Qed.

End span.


End PageBlocks.
