(* ===== verification/PageZone.v ===== *)
(** * The buddy allocator: one zone

    The free lists, the counters and the marks in [struct page] agree with one
    set of blocks; each step of the allocator changes this set by one block. *)
From S2P Require Import Prelude PageAlloc PageBlocks.

Module PageZone.
Import PageAlloc PageBlocks.

(** ** Lists and blocks *)

Definition key_ok (k : Z * Z) : Prop := 0 <= k.1 < MAX_ORDER /\ 0 <= k.2 < MIGRATE_TYPES.

(** Each block is in one list, of its order, once. *)
Record links (L : gmap (Z * Z) (list Z)) (B : blocks) : Prop := Links {
  l_keys : forall k, is_Some (L !! k) <-> key_ok k;
  l_in : forall k l p, L !! k = Some l -> p ∈ l -> B !! p = Some k.1;
  l_all : forall p o, B !! p = Some o -> exists mt l, L !! (o, mt) = Some l /\ p ∈ l;
  l_nodup : forall k l, L !! k = Some l -> NoDup l;
  l_once : forall k k' l l' p, L !! k = Some l -> L !! k' = Some l' -> p ∈ l -> p ∈ l' -> k = k'
}.

Definition list_len (L : gmap (Z * Z) (list Z)) (o mt : Z) : Z := Z.of_nat (length (default [] (L !! (o, mt)))).

(** The blocks of one order in all lists. *)
Definition total (L : gmap (Z * Z) (list Z)) (o : Z) : Z :=
  list_len L o 0 + list_len L o 1 + list_len L o 2 + list_len L o 3 + list_len L o 4.

Lemma links_range L B p o : links L B -> B !! p = Some o -> 0 <= o < MAX_ORDER.
Proof.
  intros H E. destruct (l_all _ _ H _ _ E) as (mt & l & El & _).
  by destruct (proj1 (l_keys _ _ H (o, mt)) ltac:(by eexists)) as [? _].
Qed.

Lemma remove_absent (p : Z) (l : list Z) : p ∉ l -> filter (fun q => q <> p) l = l.
Proof.
  induction l as [|x l IH]; [done |]. intros [Hx Hl]%not_elem_of_cons. rewrite filter_cons_True by done. by rewrite IH.
Qed.

Lemma remove_length (p : Z) (l : list Z) : NoDup l -> p ∈ l ->
  Z.of_nat (length (filter (fun q => q <> p) l)) = Z.of_nat (length l) - 1.
Proof.
  induction 1 as [|x l Hx Hl IH]; [by intros ?%not_elem_of_nil |]. intros [-> | Hp]%elem_of_cons.
  - rewrite filter_cons_False by naive_solver. rewrite remove_absent by done. simpl. lia.
  - rewrite filter_cons_True by (by intros ->). simpl. specialize (IH Hp). lia.
Qed.

Lemma links_del L B p o : links L B -> B !! p = Some o ->
  links (filter (fun q => q <> p) <$> L) (delete p B) /\
    forall o', total (filter (fun q => q <> p) <$> L) o' = total L o' - if o' =? o then 1 else 0.
Proof.
  intros H E. assert (forall k l, (filter (fun q => q <> p) <$> L) !! k = Some l -> exists l', L !! k = Some l' /\
    l = filter (fun q => q <> p) l') as Hlk.
  { intros k l. rewrite lookup_fmap. intros (l' & Hl & ->)%fmap_Some. by exists l'. }
  split; [split |].
  - intros k. rewrite lookup_fmap, fmap_is_Some. apply H.
  - intros k l q (l' & Hl & ->)%Hlk [Hq Hin]%list_elem_of_filter. rewrite lookup_delete_ne by done. by eapply l_in.
  - intros q o' [Hq Eq]%lookup_delete_Some. destruct (l_all _ _ H _ _ Eq) as (mt & l & Hl & Hin). exists mt. eexists.
    rewrite lookup_fmap, Hl. split; [done |]. by apply list_elem_of_filter.
  - intros k l (l' & Hl & ->)%Hlk. apply NoDup_filter. by eapply l_nodup.
  - intros k k' l l' q (m & Hm & ->)%Hlk (m' & Hm' & ->)%Hlk [_ Hq]%list_elem_of_filter [_ Hq']%list_elem_of_filter.
    by eapply l_once.
  - destruct (l_all _ _ H _ _ E) as (mt & l & Hl & Hin).
    destruct (proj1 (l_keys _ _ H (o, mt)) ltac:(by eexists)) as [_ Hmt]. cbn in Hmt.
    assert (forall o' mt', list_len (filter (fun q => q <> p) <$> L) o' mt' = list_len L o' mt' - if (o' =? o) &&
      (mt' =? mt) then 1 else 0) as Hlen.
    { intros o' mt'. unfold list_len. rewrite lookup_fmap. destruct ((o' =? o) && (mt' =? mt)) eqn:Ek.
      - apply andb_true_iff in Ek as [->%Z.eqb_eq ->%Z.eqb_eq]. rewrite Hl. simpl.
        apply remove_length; [by eapply l_nodup | done].
      - destruct (L !! (o', mt')) as [l'|] eqn:El; simpl; [| done]. rewrite remove_absent; [lia |]. intros Hp.
        pose proof (l_once _ _ H _ _ _ _ _ El Hl Hp Hin) as [= -> ->]. by rewrite !Z.eqb_refl in Ek. }
    intros o'. unfold total. rewrite !Hlen. destruct (o' =? o); cbn [andb]; [| lia].
    assert (mt = 0 \/ mt = 1 \/ mt = 2 \/ mt = 3 \/ mt = 4) as Hc by lia.
    destruct Hc as [-> | [-> | [-> | [-> | ->]]]]; cbn [Z.eqb Pos.eqb]; lia.
Qed.

Lemma links_add L B p o mt l : links L B -> B !! p = None -> L !! (o, mt) = Some l ->
  links (<[(o, mt) := p :: l]> L) (<[p := o]> B) /\
    forall o', total (<[(o, mt) := p :: l]> L) o' = total L o' + if o' =? o then 1 else 0.
Proof.
  intros H E Hl. destruct (proj1 (l_keys _ _ H (o, mt)) ltac:(by eexists)) as [Ho Hmt]. cbn in Ho, Hmt.
  assert (forall k l, L !! k = Some l -> p ∉ l) as Hnot by (intros k l' Hk Hp; by rewrite (l_in _ _ H _ _ _ Hk Hp) in E).
  split; [split |].
  - intros k. rewrite lookup_insert_is_Some'. rewrite (l_keys _ _ H). split; [intros [<- | ?]; done | by right].
  - intros k l' q [[<- <-] | [_ Hk]]%lookup_insert_Some Hq.
    + apply elem_of_cons in Hq as [-> | Hq]; [by rewrite lookup_insert_eq |].
      rewrite lookup_insert_ne by (intros ->; by apply (Hnot _ _ Hl)). by apply (l_in _ _ H _ _ _ Hl).
    + rewrite lookup_insert_ne by (intros ->; by apply (Hnot _ _ Hk)). by apply (l_in _ _ H _ _ _ Hk).
  - intros q o' [[<- <-] | [Hne Eq]]%lookup_insert_Some; [exists mt, (p :: l); rewrite lookup_insert_eq; split; [done | left] |].
    destruct (l_all _ _ H _ _ Eq) as (mt' & l' & Hl' & Hin). exists mt'.
    destruct (decide ((o, mt) = (o', mt'))) as [[= <- <-] | Hk].
    + exists (p :: l). rewrite lookup_insert_eq. split; [done |]. right. by rewrite Hl in Hl'; injection Hl' as ->.
    + exists l'. by rewrite lookup_insert_ne.
  - intros k l' [[<- <-] | [_ Hk]]%lookup_insert_Some; [constructor; [by eapply Hnot | by eapply l_nodup] | by eapply l_nodup].
  - intros k k' l1 l2 q [[<- <-] | [_ Hk]]%lookup_insert_Some [[<- <-] | [_ Hk']]%lookup_insert_Some Hq Hq';
      [done | | | by eapply l_once].
    + apply elem_of_cons in Hq as [-> | Hq]; [by destruct (Hnot _ _ Hk') | by eapply (l_once _ _ H (o, mt) k' l l2 q)].
    + apply elem_of_cons in Hq' as [-> | Hq']; [by destruct (Hnot _ _ Hk) | by eapply (l_once _ _ H k (o, mt) l1 l q)].
  - assert (forall o' mt', list_len (<[(o, mt) := p :: l]> L) o' mt' = list_len L o' mt' + if (o' =? o) && (mt' =? mt)
      then 1 else 0) as Hlen.
    { intros o' mt'. unfold list_len. destruct ((o' =? o) && (mt' =? mt)) eqn:Ek.
      - apply andb_true_iff in Ek as [->%Z.eqb_eq ->%Z.eqb_eq]. rewrite lookup_insert_eq, Hl. simpl. lia.
      - rewrite lookup_insert_ne; [lia |]. intros [= -> ->]. by rewrite !Z.eqb_refl in Ek. }
    intros o'. unfold total. rewrite !Hlen. destruct (o' =? o); cbn [andb]; [| lia].
    assert (mt = 0 \/ mt = 1 \/ mt = 2 \/ mt = 3 \/ mt = 4) as Hc by lia.
    destruct Hc as [-> | [-> | [-> | [-> | ->]]]]; cbn [Z.eqb Pos.eqb]; lia.
Qed.

(** ** The zone *)

Section zone.
Context (zid start fin : Z).

Definition block_order (pg : page) : option Z :=
  if PageBuddy pg && (page_zone_id pg =? zid) then Some (page_private pg) else None.

(** The blocks that are marked in [struct page]. *)
Definition free_blocks (z : zone) : blocks := omap block_order (mem_map z).

(** The zone has all pages from [start] to before [fin], and no others have its number; the
    table of pages is complete in aligned blocks of the largest order. *)
Record map_ok (z : zone) : Prop := MapOk {
  m_start : zone_start_pfn z = start;
  m_fin : zone_start_pfn z + spanned_pages z = fin;
  m_pos : 0 <= start;
  m_zone : forall p, start <= p < fin <-> exists pg, mem_map z !! p = Some pg /\ page_zone_id pg = zid;
  m_whole : forall p q, is_Some (mem_map z !! p) -> p / 2 ^ (MAX_ORDER - 1) = q / 2 ^ (MAX_ORDER - 1) -> is_Some (mem_map z !! q)
}.

Definition nr_ok (z : zone) : Prop := forall o, 0 <= o < MAX_ORDER -> nr_free z !! o = Some (u64 (total (free_list z) o)).

(** Lists, counters and marks agree. *)
Record linked (z : zone) : Prop := Linked {
  z_links : links (free_list z) (free_blocks z);
  z_nr : nr_ok z;
  z_map : map_ok z
}.

Lemma u64_add a b : u64 (u64 a + b) = u64 (a + b).
Proof. unfold uwrap. by rewrite Zplus_mod_idemp_l. Qed.

Lemma block_page z p o : free_blocks z !! p = Some o -> mem_map z !! p = Some (Page true o zid).
Proof.
  unfold free_blocks. rewrite lookup_omap. destruct (mem_map z !! p) as [[b pr zi]|] eqn:E; [| done]. cbn.
  unfold block_order. cbn. destruct b; [| done].
  destruct (Z.eqb_spec zi zid) as [->|]; [| done]. by intros [= ->].
Qed.

Lemma in_zone z p : map_ok z -> start <= p < fin -> exists pg, mem_map z !! p = Some pg /\ page_zone_id pg = zid.
Proof. intros H Hp. by apply (m_zone _ H). Qed.

Lemma list_del_Ret p o z : links (free_list z) (free_blocks z) -> free_blocks z !! p = Some o ->
  list_del p z = Ret (set_lists (filter (fun q => q <> p) <$> free_list z) z).
Proof.
  intros H E. destruct (l_all _ _ H _ _ E) as (mt & l & Hl & Hp). unfold list_del.
  replace (existsb _ _) with true; [done |]. symmetry. apply existsb_exists.
  exists ((o, mt), l). split; [| by apply bool_decide_eq_true]. apply list_elem_of_In. by apply elem_of_map_to_list.
Qed.

(** Taking a block away. *)
Definition unlinked (p o : Z) (z : zone) : zone :=
  set_map (<[p := Page false 0 zid]> (mem_map z)) (set_nr (<[o := u64 (default 0 (nr_free z !! o) - 1)]> (nr_free z))
    (set_lists (filter (fun q => q <> p) <$> free_list z) z)).

(** Adding one. *)
Definition joined (p o mt : Z) (z : zone) : zone :=
  set_map (<[p := Page true o zid]> (mem_map z)) (set_nr (<[o := u64 (default 0 (nr_free z !! o) + 1)]> (nr_free z))
    (set_lists (<[(o, mt) := p :: default [] (free_list z !! (o, mt))]> (free_list z)) z)).

(** Only marks and numbers of a page of the zone change. *)
Lemma map_ok_insert z z' p b x : map_ok z -> start <= p < fin -> mem_map z' = <[p := Page b x zid]> (mem_map z) ->
  zone_start_pfn z' = zone_start_pfn z -> spanned_pages z' = spanned_pages z -> map_ok z'.
Proof.
  intros [H1 H2 H3 H4 H5] Hp Em E1 E2. split; [by rewrite E1 | by rewrite E1, E2 | done | |].
  - intros q. rewrite Em. destruct (decide (q = p)) as [-> | Hq]; [rewrite lookup_insert_eq; split;
      [intros _; by eexists | done] |]. rewrite lookup_insert_ne by done. apply H4.
  - intros q r. rewrite Em, !lookup_insert_is_Some'. intros [<- | Hq] Hr; right; eapply H5; try done.
    apply H4 in Hp as (pg & Hpg & _). by eexists.
Qed.

Lemma unlinked_ok z p o : linked z -> free_blocks z !! p = Some o -> linked (unlinked p o z) /\
  free_blocks (unlinked p o z) = delete p (free_blocks z).
Proof.
  intros [H1 H2 H3] E. assert (free_blocks (unlinked p o z) = delete p (free_blocks z)) as Eb.
  { unfold free_blocks, unlinked. cbn [set_map mem_map]. rewrite omap_insert. done. }
  split; [| done]. destruct (links_del _ _ _ _ H1 E) as [L T]. pose proof (block_page _ _ _ E) as Hpg. split.
  - by rewrite Eb.
  - intros o' Ho'. cbn. rewrite T, (H2 o) by exact (links_range _ _ _ _ H1 E). cbn. destruct (Z.eqb_spec o' o) as [-> | Hne].
    + rewrite lookup_insert_eq. f_equal. apply u64_add.
    + rewrite lookup_insert_ne by done. rewrite (H2 o' Ho'). do 2 f_equal. lia.
  - eapply map_ok_insert; try done. apply (m_zone _ H3). by eexists.
Qed.

Lemma joined_ok z p o mt : linked z -> free_blocks z !! p = None -> start <= p < fin -> key_ok (o, mt) ->
  linked (joined p o mt z) /\ free_blocks (joined p o mt z) = <[p := o]> (free_blocks z).
Proof.
  intros [H1 H2 H3] E Hp Hk. assert (free_blocks (joined p o mt z) = <[p := o]> (free_blocks z)) as Eb.
  { unfold free_blocks, joined. cbn [set_map mem_map]. rewrite omap_insert. unfold block_order at 1. cbn. by rewrite Z.eqb_refl. }
  split; [| done]. destruct (proj2 (l_keys _ _ H1 (o, mt)) Hk) as [l Hl].
  destruct (links_add _ _ p o mt l H1 E Hl) as [L T]. split.
  - rewrite Eb. cbn. by rewrite Hl.
  - intros o' Ho'. cbn. rewrite Hl. cbn [default]. rewrite T, (H2 o) by apply Hk. cbn. destruct (Z.eqb_spec o' o) as [-> | Hne].
    + rewrite lookup_insert_eq. f_equal. apply u64_add.
    + rewrite lookup_insert_ne by done. rewrite (H2 o' Ho'). do 2 f_equal. lia.
  - by eapply map_ok_insert.
Qed.

(** ** The steps of the code *)

Lemma add_nr_Ret o d z n : nr_free z !! o = Some n -> add_nr_free o d z = Ret (set_nr (<[o := u64 (n + d)]> (nr_free z)) z).
Proof. intros E. unfold add_nr_free. by rewrite E. Qed.

Lemma rmv_Ret p pg z : mem_map z !! p = Some pg ->
  rmv_page_order p z = Ret (set_map (<[p := Page false 0 (page_zone_id pg)]> (mem_map z)) z).
Proof. intros E. unfold rmv_page_order, get_page. by rewrite E. Qed.

Lemma set_order_Ret p o pg z : mem_map z !! p = Some pg ->
  set_page_order p o z = Ret (set_map (<[p := Page true o (page_zone_id pg)]> (mem_map z)) z).
Proof. intros E. unfold set_page_order, get_page. by rewrite E. Qed.

Lemma list_add_Ret p o mt l z : free_list z !! (o, mt) = Some l ->
  list_add p o mt z = Ret (set_lists (<[(o, mt) := p :: l]> (free_list z)) z).
Proof. intros E. unfold list_add, free_list_of. by rewrite E. Qed.

Lemma nr_Some z o : linked z -> 0 <= o < MAX_ORDER -> exists n, nr_free z !! o = Some n.
Proof. intros H Ho. eexists. by apply (z_nr _ H). Qed.

Lemma take_merge {A} (k : zone -> M A) z p o : linked z -> free_blocks z !! p = Some o ->
  (z ← list_del p z; z ← add_nr_free o (-1) z; z ← rmv_page_order p z; k z) = k (unlinked p o z).
Proof.
  intros H E. destruct (nr_Some z o H (links_range _ _ _ _ (z_links _ H) E)) as [n Hn].
  rewrite (list_del_Ret p o z (z_links _ H) E), run_bind_Ret, (add_nr_Ret o _ _ n), run_bind_Ret by done.
  rewrite (rmv_Ret p (Page true o zid)), run_bind_Ret by (by apply block_page).
  unfold unlinked. by rewrite Hn.
Qed.

Lemma take_small {A} (k : zone -> M A) z p o : linked z -> free_blocks z !! p = Some o ->
  (z ← list_del p z; z ← rmv_page_order p z; z ← add_nr_free o (-1) z; k z) = k (unlinked p o z).
Proof.
  intros H E. destruct (nr_Some z o H (links_range _ _ _ _ (z_links _ H) E)) as [n Hn].
  rewrite (list_del_Ret p o z (z_links _ H) E), run_bind_Ret, (rmv_Ret p (Page true o zid)), run_bind_Ret
    by (by apply block_page). rewrite (add_nr_Ret o _ _ n), run_bind_Ret by done.
  unfold unlinked. by rewrite Hn.
Qed.

Lemma put_merge z p o mt : linked z -> start <= p < fin -> key_ok (o, mt) ->
  (z ← set_page_order p o z; z ← list_add p o mt z; add_nr_free o 1 z) = Ret (joined p o mt z).
Proof.
  intros H Hp Hk. destruct (in_zone z p (z_map _ H) Hp) as (pg & Hpg & Hz).
  destruct (proj2 (l_keys _ _ (z_links _ H) (o, mt)) Hk) as [l Hl]. destruct (nr_Some z o H (proj1 Hk)) as [n Hn].
  rewrite (set_order_Ret p o pg), run_bind_Ret, (list_add_Ret p o mt l), run_bind_Ret, (add_nr_Ret o 1 _ n) by done.
  unfold joined. by rewrite Hn, Hl, Hz.
Qed.

Lemma put_expand {A} (k : zone -> M A) z p o mt : linked z -> start <= p < fin -> key_ok (o, mt) ->
  (z ← list_add p o mt z; z ← add_nr_free o 1 z; z ← set_page_order p o z; k z) = k (joined p o mt z).
Proof.
  intros H Hp Hk. destruct (in_zone z p (z_map _ H) Hp) as (pg & Hpg & Hz).
  destruct (proj2 (l_keys _ _ (z_links _ H) (o, mt)) Hk) as [l Hl]. destruct (nr_Some z o H (proj1 Hk)) as [n Hn].
  rewrite (list_add_Ret p o mt l), run_bind_Ret, (add_nr_Ret o 1 _ n), run_bind_Ret, (set_order_Ret p o pg),
    run_bind_Ret by done. unfold joined. by rewrite Hn, Hl, Hz.
Qed.

Definition flags_ok (z : zone) : Prop := forall b mt, pageblock_flags z !! b = Some mt -> 0 <= mt < MIGRATE_TYPES.

(** Only the [struct page] of pages in [S] are changed; the number of free pages is left to the caller. *)
Record frame (S : Z -> Prop) (z z' : zone) : Prop := Frame {
  f_map : forall q, ~ S q -> mem_map z' !! q = mem_map z !! q;
  f_count : NR_FREE_PAGES z' = NR_FREE_PAGES z;
  f_flags : flags_ok z -> flags_ok z'
}.

Lemma frame_refl S z : frame S z z.
Proof. by split. Qed.

Lemma frame_trans (S1 S2 S : Z -> Prop) z1 z2 z3 : frame S1 z1 z2 -> frame S2 z2 z3 ->
  (forall q, S1 q \/ S2 q -> S q) -> frame S z1 z3.
Proof.
  intros [F1 C1 G1] [F2 C2 G2] H. split; [| congruence | auto]. intros q Hq.
  rewrite F2, F1; [done | |]; intros Hs; apply Hq, H; tauto.
Qed.

Lemma frame_unlinked p o z : frame (eq p) z (unlinked p o z).
Proof. split; [| done | done]. intros q Hq. cbn. by rewrite lookup_insert_ne. Qed.

Lemma frame_joined p o mt z : frame (eq p) z (joined p o mt z).
Proof. split; [| done | done]. intros q Hq. cbn. by rewrite lookup_insert_ne. Qed.

(** ** Merging *)

Record zone_ok (z : zone) : Prop := ZoneOk { zo_linked : linked z; zo_blocks : coalesced start fin (free_blocks z) }.

Definition is_free (z : zone) (q : Z) : Prop := covered (free_blocks z) q.

Lemma buddy_whole p o : 0 <= o < MAX_ORDER - 1 -> (2 ^ o | p) -> p / 2 ^ (MAX_ORDER - 1) = buddy p o / 2 ^ (MAX_ORDER - 1).
Proof.
  intros Ho Ha. assert (forall q, block_of (parent p o) (o + 1) q ->
    q / 2 ^ (MAX_ORDER - 1) = parent p o / 2 ^ (MAX_ORDER - 1)) as Hq.
  { intros q Hq. set (k := parent p o / 2 ^ (MAX_ORDER - 1)).
    assert (block_of (k * 2 ^ (MAX_ORDER - 1)) (MAX_ORDER - 1) (parent p o)) as Hk.
    { unfold block_of, k. pose proof (Z.div_mod (parent p o) (2 ^ (MAX_ORDER - 1)) ltac:(done)).
      pose proof (Z.mod_pos_bound (parent p o) (2 ^ (MAX_ORDER - 1)) ltac:(done)). lia. }
    assert (block_of (k * 2 ^ (MAX_ORDER - 1)) (MAX_ORDER - 1) q) as Hb.
    { apply (nested (parent p o) (o + 1) (k * 2 ^ (MAX_ORDER - 1)) (MAX_ORDER - 1) (parent p o));
        [lia | by apply parent_aligned; [lia |] | by exists k | apply block_head; lia | done | done]. }
    unfold block_of in Hb. symmetry. apply Z.div_unique with (q - k * 2 ^ (MAX_ORDER - 1)); lia. }
  rewrite (Hq p), (Hq (buddy p o)); [done | |]; apply parent_block; try done; try lia; [right | left]; apply block_head; lia.
Qed.

Lemma page_is_buddy_Ret z p o : linked z -> start <= p < fin -> 0 <= o < MAX_ORDER - 1 -> (2 ^ o | p) ->
  page_is_buddy p (buddy p o) o z = Ret (bool_decide (free_blocks z !! buddy p o = Some o)).
Proof.
  intros H Hp Ho Ha. destruct (in_zone z p (z_map _ H) Hp) as (pg & Hpg & Hz).
  destruct (m_whole _ (z_map _ H) p (buddy p o)) as [b Hb]; [by eexists | by apply buddy_whole |].
  unfold page_is_buddy, get_page. rewrite Hpg, Hb. cbn [of_option]. rewrite !run_bind_Ret. unfold free_blocks.
  rewrite lookup_omap, Hb. cbn [mbind option_bind]. unfold block_order. rewrite Hz, (Z.eqb_sym zid).
  destruct (page_zone_id b =? zid), (PageBuddy b); cbn [negb andb]; [| by rewrite bool_decide_eq_false_2..].
  f_equal. destruct (Z.eqb_spec (page_private b) o) as [-> |];
    [by rewrite bool_decide_eq_true_2 | rewrite bool_decide_eq_false_2; congruence].
Qed.

Lemma placed_parent p o : placed start fin p o -> placed start fin (buddy p o) o -> o < MAX_ORDER - 1 ->
  placed start fin (parent p o) (o + 1).
Proof.
  intros (Ho & Ha & Hs & Hf) (_ & _ & Hs' & Hf') Hlt. split; [lia |]. split; [apply parent_aligned; [lia | done] |].
  rewrite pow_S by lia.
  destruct (buddy_cases p o ltac:(lia) Ha) as [(_ & Eb & ->) | (_ & Eb & ->)]; rewrite Eb in *; lia.
Qed.

Lemma merge_loop_ok fuel : forall z page order, zone_ok z -> placed start fin page order ->
  (forall q, block_of page order q -> ~ is_free z q) -> MAX_ORDER - 1 - order <= Z.of_nat fuel ->
  exists page' order' z', merge_loop fuel page (page .& ((1 .<< MAX_ORDER) - 1)) order z = Ret (page', order', z') /\
    zone_ok z' /\ placed start fin page' order' /\
    (forall q, block_of page' order' q -> ~ is_free z' q) /\
      (order' < MAX_ORDER - 1 -> free_blocks z' !! buddy page' order' <> Some order') /\
    (forall q, is_free z' q \/ block_of page' order' q <-> is_free z q \/ block_of page order q) /\ frame (is_free z) z z'.
Proof.
  induction fuel as [|fuel IH]; intros z page order [Hl Hc] Hp Hfree Hfuel; cbn [merge_loop];
    pose proof Hp as (Ho & Ha & Hs & Hf); pose proof (pow_pos order ltac:(lia)) as Hpow;
    (destruct (Z.ltb_spec order (MAX_ORDER - 1)) as [Hlt | Hge]; [| exists page, order, z; split; [done |];
      do 3 (split; [done |]); split; [lia |]; split; [done | apply frame_refl]]); [lia |].
  assert (0 <= page) as Hp0 by (pose proof (m_pos _ (z_map _ Hl)); lia).
  rewrite find_buddy_eq, page_is_buddy_Ret, run_bind_Ret by (done || lia).
  case_bool_decide as Hb; cbn [negb]; [| exists page, order, z; split; [done |]; do 3 (split; [done |]); split;
    [done |]; split; [done | apply frame_refl]].
  rewrite (take_merge _ z (buddy page order) order) by done. rewrite combined_eq, parent_idx by lia.
  destruct (unlinked_ok z (buddy page order) order Hl Hb) as [Hl' Eb']. set (z1 := unlinked _ _ z) in *.
  assert (zone_ok z1) as Hz1 by (split; [done | rewrite Eb'; by apply coalesced_delete]).
  assert (forall q, is_free z1 q <-> is_free z q /\ ~ block_of (buddy page order) order q) as Hq1 by (intros q;
    unfold is_free; rewrite Eb'; by apply (covered_delete start fin)).
  assert (forall q, block_of (parent page order) (order + 1) q <-> block_of page order q \/
    block_of (buddy page order) order q) as Hpar by (intros q; apply parent_block; [lia | done]).
  destruct (IH z1 (parent page order) (order + 1)) as (page' & order' & z' & E & Hz' & Hp' & Hf' & Hb' & Hq' & Hfr);
    [done | | | lia |].
  - apply placed_parent; [done | by apply (b_placed _ _ _ Hc) | done].
  - intros q Hq. rewrite Hq1. apply Hpar in Hq as [Hq | Hq]; [intros [? _]; by apply (Hfree q) | by intros [_ ?]].
  - exists page', order', z'. split; [done |]. do 4 (split; [done |]).
    assert (forall q, block_of (buddy page order) order q -> is_free z q) as Hbf by (intros q Hq;
      by exists (buddy page order), order). split.
    + intros q. rewrite Hq', Hq1, Hpar. specialize (Hbf q). destruct (decide (block_of (buddy page order) order q)); tauto.
    + eapply frame_trans; [apply frame_unlinked | exact Hfr |]. intros q [<- | Hq]; [apply Hbf, block_head; lia | by apply Hq1].
Qed.

Lemma free_head z p o : zone_ok z -> 0 <= o -> (forall q, block_of p o q -> ~ is_free z q) -> free_blocks z !! p = None.
Proof.
  intros [Hl Hc] Ho Hf. eapply uncovered_head; [exact Hf | done |]. intros p' o' E.
  by destruct (b_placed _ _ _ Hc _ _ E) as ((? & _) & _).
Qed.

Lemma placed_head p o : placed start fin p o -> start <= p < fin.
Proof. intros (Ho & _ & Hs & Hf). pose proof (pow_pos o ltac:(lia)). lia. Qed.

(** A block joins a zone in which its buddy is not free. *)
Lemma join_ok z p o mt : zone_ok z -> placed start fin p o -> (forall q, block_of p o q -> ~ is_free z q) ->
  (o < MAX_ORDER - 1 -> free_blocks z !! buddy p o <> Some o) ->
  0 <= mt < MIGRATE_TYPES -> zone_ok (joined p o mt z) /\ forall q, is_free (joined p o mt z) q <-> is_free z q \/ block_of p o q.
Proof.
  intros Hz Hp Hf Hb Hmt. pose proof Hp as (Ho & _). pose proof (free_head z p o Hz ltac:(lia) Hf) as Hn. destruct Hz as [Hl Hc].
  destruct (joined_ok z p o mt Hl Hn (placed_head _ _ Hp) ltac:(done)) as [Hl' Eb].
  split; [split; [done | rewrite Eb; by apply coalesced_insert] |].
  intros q. unfold is_free. rewrite Eb. by apply covered_insert.
Qed.

Lemma free_one_ok z page order mt : zone_ok z -> placed start fin page order -> (forall q, block_of page order q ->
  ~ is_free z q) -> 0 <= mt < MIGRATE_TYPES ->
  exists z', __free_one_page page order mt z = Ret z' /\ zone_ok z' /\ (forall q, is_free z' q <-> is_free z q \/
    block_of page order q) /\ frame (is_free z') z z'.
Proof.
  intros Hz Hp Hf Hmt. unfold __free_one_page.
  destruct (merge_loop_ok (Z.to_nat MAX_ORDER) z page order Hz Hp Hf) as (p1 & o1 & z1 & ->
    & Hz1 & Hp1 & Hf1 & Hb1 & Hq1 & Hfr).
  { destruct Hp as (? & _). rewrite Z2Nat.id by done. lia. }
  rewrite run_bind_Ret. cbn beta iota. destruct (join_ok z1 p1 o1 mt Hz1 Hp1 Hf1 Hb1 Hmt) as [Hz' Hq'].
  pose proof Hp1 as (Ho1 & _).
  rewrite (put_merge z1 p1 o1 mt); [| apply Hz1 | by eapply placed_head | done]. eexists. split; [done |].
  split; [done |]. split; [intros q; by rewrite Hq', Hq1 |].
  eapply frame_trans; [exact Hfr | apply frame_joined |].
  intros q [Hq | <-]; rewrite Hq'; [apply Hq1; by left | right; apply block_head; lia].
Qed.

(** ** Splitting *)

Lemma shift_half h : 1 <= h -> (1 .<< h) .>> 1 = 1 .<< (h - 1).
Proof.
  intros Hh. rewrite !Z.shiftl_1_l, Z.shiftr_div_pow2 by lia. replace h with ((h - 1) + 1) at 1 by lia.
  rewrite pow_S by lia. change (2 ^ 1) with 2. rewrite Z.mul_comm. by apply Z.div_mul.
Qed.

Lemma expand_ok fuel page low mt : forall z high, zone_ok z -> placed start fin page high ->
  (forall q, block_of page high q -> ~ is_free z q) -> 0 <= low <= high -> 0 <= mt < MIGRATE_TYPES ->
  high - low <= Z.of_nat fuel ->
  exists z', expand fuel page low high (1 .<< high) mt z = Ret z' /\ zone_ok z' /\
    (forall q, is_free z' q <-> is_free z q \/ block_of page high q /\ ~ block_of page low q) /\
    frame (block_of page high) z z'.
Proof.
  induction fuel as [|fuel IH]; intros z high Hz Hp Hf Hlow Hmt Hfuel; cbn [expand];
    (destruct (Z.gtb_spec high low) as [Hgt | Hle];
    [| assert (high = low) as -> by lia; exists z; split; [done |]; split; [done |]; split;
      [intros q; tauto | apply frame_refl]]); [lia |].
  cbn zeta. rewrite shift_half by lia. assert (0 <= high - 1) as Hh by lia.
  assert (2 ^ high = 2 * 2 ^ (high - 1)) as E2 by (rewrite <- pow_S by done; f_equal; lia).
  pose proof (pow_pos (high - 1) Hh) as Hpow. destruct Hp as (Ho & Ha & Hs & Hfin).
  assert (2 ^ (high - 1 + 1) | page) as Ha' by (by rewrite Z.sub_add).
  assert (2 ^ (high - 1) | page) as Ha1 by (by apply aligned_down). rewrite (Z.shiftl_1_l (high - 1)).
  set (u := page + 2 ^ (high - 1)) in *.
  assert (placed start fin u (high - 1)) as Hu.
  { split; [lia |]. split; [apply Z.divide_add_r; [done | apply Z.divide_refl] | lia]. }
  assert (forall q, block_of page high q <-> block_of page (high - 1) q \/ block_of u (high - 1) q) as Hsplit
    by (intros q; unfold block_of, u; lia).
  rewrite (put_expand _ z u (high - 1) mt); [| apply Hz | by eapply placed_head | split; cbn; lia].
  destruct (join_ok z u (high - 1) mt Hz Hu) as [Hz1 Hq1]; [intros q Hq; apply Hf, Hsplit; by right | | done |].
  { intros _. unfold u. rewrite high_buddy by done. by rewrite (free_head z page high Hz ltac:(lia) Hf). }
  rewrite <- (Z.shiftl_1_l (high - 1)). destruct (IH (joined u (high - 1) mt z) (high - 1))
    as (z' & E & Hz' & Hq' & Hfr); [done | | | lia | done | lia |].
  - split; [lia |]. split; [done | lia].
  - intros q Hq. rewrite Hq1. intros [Hq2 | Hq2]; [apply (Hf q); [apply Hsplit; by left | done] |].
    unfold block_of, u in Hq, Hq2. lia.
  - exists z'. split; [done |]. split; [done |]. split.
    + intros q. rewrite Hq', Hq1, Hsplit. assert (block_of u (high - 1) q -> ~ block_of page low q); [| tauto].
      unfold block_of, u. intros Hq [_ Hq2]. assert (2 ^ low <= 2 ^ (high - 1)) by (apply Z.pow_le_mono_r; lia). lia.
    + eapply frame_trans; [apply frame_joined | exact Hfr |].
      intros q [<- | Hq]; apply Hsplit; [right; apply block_head; lia | by left].
Qed.

(** The block of order [order] at [p] is taken out of the free pages. *)
Definition taken (order p : Z) (z z' : zone) : Prop :=
  placed start fin p order /\ (forall q, block_of p order q -> is_free z q) /\
    (forall q, is_free z' q <-> is_free z q /\ ~ block_of p order q) /\ frame (is_free z) z z'.

Lemma block_sub p low high q : 0 <= low <= high -> block_of p low q -> block_of p high q.
Proof. intros Hl. assert (2 ^ low <= 2 ^ high) by (apply Z.pow_le_mono_r; lia). unfold block_of. lia. Qed.

Lemma placed_sub p low high : 0 <= low <= high -> placed start fin p high -> placed start fin p low.
Proof.
  intros Hl (Ho & Ha & Hs & Hf). assert (2 ^ low <= 2 ^ high) by (apply Z.pow_le_mono_r; lia). split; [lia |]. split; [| lia].
  etrans; [| exact Ha]. exists (2 ^ (high - low)). rewrite <- Z.pow_add_r by lia. f_equal. lia.
Qed.

Lemma split_ok z p o low mt : zone_ok z -> free_blocks z !! p = Some o -> 0 <= low <= o -> 0 <= mt < MIGRATE_TYPES ->
  exists z', expand (Z.to_nat MAX_ORDER) p low o (1 .<< o) mt (unlinked p o z) = Ret z' /\ zone_ok z' /\ taken low p z z'.
Proof.
  intros [Hl Hc] E Hlow Hmt. destruct (unlinked_ok z p o Hl E) as [Hl1 Eb]. pose proof (b_placed _ _ _ Hc _ _ E) as Hp.
  pose proof Hp as (Ho & _).
  assert (forall q, is_free (unlinked p o z) q <-> is_free z q /\ ~ block_of p o q) as Hq1 by (intros q;
    unfold is_free; rewrite Eb; by apply (covered_delete start fin)).
  destruct (expand_ok (Z.to_nat MAX_ORDER) p low mt (unlinked p o z) o) as (z' & E' & Hz' & Hq' & Hfr);
    [split; [done | rewrite Eb; by apply coalesced_delete] | done | | done | done | |].
  - intros q Hq. rewrite Hq1. tauto.
  - rewrite Z2Nat.id by done. lia.
  - exists z'. split; [done |]. split; [done |].
    assert (forall q, block_of p o q -> is_free z q) as Hfree by (intros q Hq; by exists p, o).
    split; [by eapply placed_sub |].
    split; [intros q Hq; apply Hfree; by eapply block_sub |]. split.
    + intros q. rewrite Hq', Hq1. pose proof (block_sub p low o q Hlow). specialize (Hfree q).
      destruct (decide (block_of p o q)); tauto.
    + eapply frame_trans; [apply frame_unlinked | exact Hfr |]. intros q [<- | Hq]; apply Hfree; [apply block_head; lia | done].
Qed.

Lemma list_of_Ret z o mt : linked z -> key_ok (o, mt) -> exists l, free_list_of o mt z = Ret l /\ free_list z !! (o, mt) = Some l.
Proof.
  intros H Hk. destruct (proj2 (l_keys _ _ (z_links _ H) (o, mt)) Hk) as [l Hl]. exists l. unfold free_list_of. by rewrite Hl.
Qed.

Lemma smallest_ok fuel order mt z : zone_ok z -> 0 <= order -> 0 <= mt < MIGRATE_TYPES -> forall cur, order <= cur ->
  MAX_ORDER - cur <= Z.of_nat fuel ->
  exists r z', smallest_loop fuel cur order mt z = Ret (r, z') /\ zone_ok z' /\
    match r with None => z' = z /\ forall o, cur <= o < MAX_ORDER -> free_list z !! (o, mt) = Some []
      | Some p => taken order p z z' end.
Proof.
  intros Hz Ho Hmt. induction fuel as [|fuel IH]; intros cur Hcur Hfuel; cbn [smallest_loop];
    (destruct (Z.ltb_spec cur MAX_ORDER) as [Hlt | Hge]; [| exists None, z; split; [done |]; split; [done |]; split;
      [done | intros o; lia]]); [lia |].
  destruct (list_of_Ret z cur mt (zo_linked _ Hz)) as (l & -> & Hl); [split; cbn; lia |]. rewrite run_bind_Ret.
  destruct l as [|p l].
  - destruct (IH (cur + 1)) as (r & z' & E & Hz' & Hr); [lia | lia |]. exists r, z'. split; [done |]. split; [done |].
    destruct r; [done |]. destruct Hr as [-> Hr]. split; [done |].
    intros o Hoo. destruct (Z.eq_dec o cur) as [-> | ?]; [done | apply Hr; lia].
  - assert (free_blocks z !! p = Some cur) as E by (apply (l_in _ _ (z_links _ (zo_linked _ Hz)) (cur, mt) (p :: l));
      [done | left]).
    rewrite (take_small _ z p cur) by (done || apply Hz).
    destruct (split_ok z p cur order mt Hz E) as (z' & -> & Hz' & Ht); [lia | done |]. rewrite run_bind_Ret.
    by exists (Some p), z'.
Qed.

End zone.


End PageZone.
