(* ===== verification/PageQueue.v ===== *)
(** * The buddy allocator: taking blocks

    The fallback between migrate types, [__rmqueue], and the lists of the CPUs
    ([rmqueue_bulk] and [free_pcppages_bulk]). *)
From S2P Require Import Prelude PageAlloc PageBlocks PageZone.

Module PageQueue.
Import PageAlloc PageBlocks PageZone.

Section queue.
Context (zid start fin : Z).
#[local] Abbreviation zone_ok := (zone_ok zid start fin).
#[local] Abbreviation linked := (linked zid start fin).
#[local] Abbreviation free_blocks := (free_blocks zid).
#[local] Abbreviation is_free := (is_free zid).
#[local] Abbreviation taken := (taken zid start fin).

(** ** Changes that the free blocks do not depend on *)

(** The same blocks in other lists of their order, and anything but lists, counters and pages. *)
Record relisted (z z' : zone) : Prop := Relisted {
  rl_map : mem_map z' = mem_map z;
  rl_nr : nr_free z' = nr_free z;
  rl_start : zone_start_pfn z' = zone_start_pfn z;
  rl_span : spanned_pages z' = spanned_pages z;
  rl_links : links (free_list z') (free_blocks z);
  rl_total : forall o, total (free_list z') o = total (free_list z) o;
  rl_count : NR_FREE_PAGES z' = NR_FREE_PAGES z;
  rl_flags : flags_ok z -> flags_ok z'
}.

Lemma relisted_blocks z z' : relisted z z' -> free_blocks z' = free_blocks z.
Proof. intros H. unfold PageZone.free_blocks. by rewrite (rl_map _ _ H). Qed.

Lemma relisted_ok z z' : relisted z z' -> zone_ok z -> zone_ok z'.
Proof.
  intros H [[H1 H2 [M1 M2 M3 M4 M5]] Hc]. pose proof (relisted_blocks _ _ H) as Eb. destruct H as [Em En Es Ep L T _ _].
  split; [split |]; rewrite ?Eb; [done | intros o Ho; rewrite En, T; by apply H2 | split; rewrite ?Es, ?Ep, ?Em; done | done].
Qed.

Lemma relisted_free z z' q : relisted z z' -> is_free z' q <-> is_free z q.
Proof. intros H. unfold PageZone.is_free. by rewrite (relisted_blocks _ _ H). Qed.

Lemma relisted_refl z z' : links (free_list z) (free_blocks z) -> mem_map z' = mem_map z -> nr_free z' = nr_free z ->
  zone_start_pfn z' = zone_start_pfn z -> spanned_pages z' = spanned_pages z ->
  free_list z' = free_list z -> NR_FREE_PAGES z' = NR_FREE_PAGES z -> (flags_ok z -> flags_ok z') -> relisted z z'.
Proof. intros H ? ? ? ? El ? ?. split; try done; by rewrite El. Qed.

(** ** Moving blocks to another migrate type *)

Lemma move_one z p o mt : links (free_list z) (free_blocks z) -> free_blocks z !! p = Some o -> 0 <= mt < MIGRATE_TYPES ->
  exists L, (forall {A} (k : zone -> M A), (z ← list_del p z; z ← list_add p o mt z; k z) = k (set_lists L z)) /\
    links L (free_blocks z) /\ forall o', total L o' = total (free_list z) o'.
Proof.
  intros H E Hmt. destruct (links_del _ _ _ _ H E) as [L1 T1].
  assert (key_ok (o, mt)) as Hk by (split; cbn; [exact (links_range _ _ _ _ H E) | lia]).
  destruct (proj2 (l_keys _ _ L1 (o, mt)) Hk) as [l Hl].
  destruct (links_add _ _ p o mt l L1 (lookup_delete_eq _ _) Hl) as [L2 T2].
  rewrite insert_delete_eq, (insert_id _ _ _ E) in L2.
  eexists. split; [| split; [exact L2 | intros o'; rewrite T2, T1; lia]]. intros A k.
  rewrite (list_del_Ret zid p o z H E), run_bind_Ret, (list_add_Ret p o mt l), run_bind_Ret by done. done.
Qed.

Lemma move_loop_ok fuel end_page mt : 0 <= mt < MIGRATE_TYPES -> end_page < fin ->
  forall z page moved, links (free_list z) (free_blocks z) -> map_ok zid start fin z -> start <= page ->
  end_page + 1 - page <= Z.of_nat fuel ->
  exists n L, move_loop fuel page end_page mt moved z = Ret (n, set_lists L z) /\ links L (free_blocks z) /\
    forall o, total L o = total (free_list z) o.
Proof.
  intros Hmt Hend. induction fuel as [|fuel IH]; intros z page moved H Hm Hp Hfuel; cbn [move_loop];
    (destruct (Z.leb_spec page end_page) as [Hle | Hgt]; [| exists moved, (free_list z); split; [by destruct z | done]]); [lia |].
  destruct (in_zone zid start fin z page Hm ltac:(lia)) as (pg & Hpg & Hz). unfold get_page. rewrite Hpg.
  cbn [of_option]. rewrite run_bind_Ret.
  destruct (PageBuddy pg) eqn:Eb; cbn [negb]; [| apply IH; [done | done | lia | lia]].
  assert (free_blocks z !! page = Some (page_private pg)) as E by (unfold PageZone.free_blocks;
    rewrite lookup_omap, Hpg; cbn; unfold block_order; by rewrite Eb, Hz, Z.eqb_refl).
  destruct (move_one z page _ mt H E Hmt) as (L & -> & HL & HT). pose proof (links_range _ _ _ _ H E).
  pose proof (pow_pos (page_private pg) ltac:(lia)).
  destruct (IH (set_lists L z) (page + (1 .<< page_private pg)) (s32 (moved + (1 .<< page_private pg))))
    as (n & L' & E' & HL' & HT'); [done | by destruct Hm | rewrite Z.shiftl_1_l; lia | rewrite Z.shiftl_1_l; lia |].
  exists n, L'. split; [done |]. split; [done |]. intros o. rewrite HT'. apply HT.
Qed.

Lemma block_start p : p .& Z.lnot (pageblock_nr_pages - 1) <= p < p .& Z.lnot (pageblock_nr_pages - 1) + pageblock_nr_pages.
Proof.
  rewrite <- Z.ldiff_land. change (pageblock_nr_pages - 1) with (Z.ones 9).
  rewrite Z.ldiff_ones_r, Z.shiftl_mul_pow2, Z.shiftr_div_pow2 by lia. change pageblock_nr_pages with (2 ^ 9).
  pose proof (Z.div_mod p (2 ^ 9) ltac:(done)). pose proof (Z.mod_pos_bound p (2 ^ 9) ltac:(done)). lia.
Qed.

Lemma move_block_ok z p mt : 0 <= mt < MIGRATE_TYPES -> links (free_list z) (free_blocks z) ->
  map_ok zid start fin z -> start <= p < fin ->
  exists n L, move_freepages_block p mt z = Ret (n, set_lists L z) /\ links L (free_blocks z) /\
    forall o, total L o = total (free_list z) o.
Proof.
  intros Hmt H Hm Hp. pose proof (block_start p) as Hb. unfold move_freepages_block. set (s := p .& _) in *.
  rewrite (m_fin _ _ _ _ Hm), (m_start _ _ _ _ Hm).
  destruct (Z.geb_spec (s + pageblock_nr_pages - 1) fin) as [Hge | Hlt];
    [exists 0, (free_list z); split; [by destruct z | done] |].
  set (sp := if s <? start then p else s).
  assert (start <= sp /\ sp <= p) as [Hs1 Hs2] by (unfold sp; destruct (Z.ltb_spec s start); lia).
  unfold move_freepages, get_page. destruct (in_zone zid start fin z sp Hm ltac:(lia)) as (pg & -> & Hz).
  destruct (in_zone zid start fin z (s + pageblock_nr_pages - 1) Hm ltac:(lia)) as (pg' & -> & Hz').
  cbn [of_option]. rewrite !run_bind_Ret, Hz, Hz', Z.eqb_refl. cbn [negb]. apply move_loop_ok; try done; lia.
Qed.

Lemma set_type_flags p mt z : 0 <= mt < MIGRATE_TYPES -> flags_ok z -> flags_ok (set_pageblock_migratetype p mt z).
Proof. intros Hmt Hf b mt'. cbn. intros [[<- <-] | [_ E]]%lookup_insert_Some; [case_match; lia | by eapply Hf]. Qed.

Lemma change_loop_flags n p mt z : 0 <= mt < MIGRATE_TYPES -> exists f, change_loop n p mt z = set_flags f z /\
  (flags_ok z -> flags_ok (set_flags f z)).
Proof.
  intros Hmt. revert p z. induction n as [|n IH]; intros p z; simpl; [exists (pageblock_flags z); by destruct z |].
  destruct (IH (p + pageblock_nr_pages) (set_pageblock_migratetype p mt z)) as (f & -> & Hf). exists f.
  split; [done |]. intros H. by apply Hf, set_type_flags.
Qed.

(** ** Stealing a block of another type *)

Lemma steal_ok z p order cur smt mt : zone_ok z -> free_blocks z !! p = Some cur -> 0 <= order <= cur ->
  0 <= smt < MIGRATE_TYPES -> 0 <= mt < MIGRATE_TYPES ->
  exists z', steal p order cur smt mt z = Ret z' /\ zone_ok z' /\ taken order p z z'.
Proof.
  intros Hz E Ho Hsmt Hmt. pose proof Hz as [Hl Hc]. pose proof Hl as [H1 H2 H3].
  destruct (nr_Some _ _ _ z cur Hl (links_range _ _ _ _ H1 E)) as [n Hn].
  unfold steal. rewrite (add_nr_Ret cur (-1) z n Hn), run_bind_Ret. set (z1 := set_nr _ z).
  pose proof (placed_head _ _ _ _ (b_placed _ _ _ Hc _ _ E)) as Hp.
  assert (exists mt' z2, (if (cur >=? pageblock_order .>> 1) || (smt =? MIGRATE_RECLAIMABLE) ||
    page_group_by_mobility_disabled z1 then
      '(pages, z) ← move_freepages_block p smt z1;
      Ret (smt, if (pages >=? 1 .<< (pageblock_order - 1)) || page_group_by_mobility_disabled z then
        set_pageblock_migratetype p smt z else z)
    else Ret (mt, z1)) = Ret (mt', set_nr (nr_free z1) z2) /\ 0 <= mt' < MIGRATE_TYPES /\ relisted z z2)
      as (mt' & z2 & -> & Hmt' & R).
  { case_match; [| exists mt, z; split; [done |]; split; [done | by apply relisted_refl]].
    destruct (move_block_ok z1 p smt Hsmt H1 ltac:(by destruct H3) Hp) as (pages & L & -> & HL & HT).
    rewrite run_bind_Ret. cbn beta iota.
    exists smt. case_match; (eexists; split; [| split; [exact Hsmt |]]).
    - instantiate (1 := set_pageblock_migratetype p smt (set_lists L z)). reflexivity.
    - split; try done. intros Hf. by apply set_type_flags.
    - instantiate (1 := set_lists L z). reflexivity.
    - by split. }
  rewrite run_bind_Ret. cbn beta iota. pose proof (relisted_blocks _ _ R) as Eb.
  pose proof (relisted_ok _ _ R Hz) as Hz2. assert (free_blocks z2 !! p = Some cur) as E2 by (by rewrite Eb).
  rewrite (list_del_Ret zid p cur (set_nr (nr_free z1) z2) (z_links _ _ _ _ (zo_linked _ _ _ _ Hz2)) E2), run_bind_Ret.
  rewrite (rmv_Ret p (Page true cur zid)), run_bind_Ret by (by apply block_page). cbn zeta.
  assert (forall f, (flags_ok z2 -> flags_ok (set_flags f z2)) -> relisted z (set_flags f z2)) as Rf by (intros f Hf;
    destruct R; split; auto).
  set (z3 := set_map _ _). assert (exists f, (if cur >=? pageblock_order then change_pageblock_range p cur smt z3 else
    z3) = unlinked zid p cur (set_flags f z2) /\ (flags_ok z2 -> flags_ok (set_flags f z2))) as (f & -> & Hf).
  { assert (forall f, set_flags f z3 = unlinked zid p cur (set_flags f z2)) as Ef by (intros f; unfold z3, unlinked;
      cbn; by rewrite (rl_nr _ _ R), Hn).
    case_match; [unfold change_pageblock_range;
      destruct (change_loop_flags (Z.to_nat (1 .<< (cur - pageblock_order))) p smt z3 Hsmt) as (f & -> & Hf); exists f;
      split; [apply Ef | exact Hf] |].
    exists (pageblock_flags z3). rewrite <- Ef. split; [by destruct z3 | done]. }
  specialize (Rf f Hf).
  destruct (split_ok zid start fin (set_flags f z2) p cur order mt' (relisted_ok _ _ Rf Hz) E2 Ho Hmt') as (z' & ->
    & Hz' & Hp' & Hs & Hq & Hfr). exists z'. split; [done |]. split; [done |].
  split; [done |]. split; [intros q Hq'; rewrite <- (relisted_free _ _ q Rf); by apply Hs |].
  split; [intros q; rewrite Hq; by rewrite (relisted_free _ _ q Rf) |].
  destruct Hfr as [F1 F2 F3]. split; [| rewrite F2; apply Rf | intros H; by apply F3, Rf]. intros q Hq'.
  rewrite F1; [by rewrite (rl_map _ _ Rf) |]. by rewrite (relisted_free _ _ q Rf).
Qed.

Lemma find_fallback_ok z cur types : zone_ok z -> 0 <= cur < MAX_ORDER -> Forall (fun mt => 0 <= mt < MIGRATE_TYPES) types ->
  exists r, find_fallback cur types z = Ret r /\
    match r with None => forall mt, mt ∈ types -> mt <> MIGRATE_RESERVE -> free_list z !! (cur, mt) = Some []
      | Some (mt, p) => 0 <= mt < MIGRATE_TYPES /\ free_blocks z !! p = Some cur end.
Proof.
  intros Hz Hcur. induction types as [|mt types IH]; intros Ht; simpl;
    [exists None; split; [done |]; by intros mt ?%not_elem_of_nil |].
  apply Forall_cons in Ht as [Hmt Ht]. destruct (IH Ht) as (r & E & Hr). destruct (Z.eqb_spec mt MIGRATE_RESERVE) as [-> | Hne].
  { exists r. split; [done |]. destruct r; [done |]. intros mt [-> | Hin]%elem_of_cons; [done | by apply Hr]. }
  destruct (list_of_Ret _ _ _ z cur mt (zo_linked _ _ _ _ Hz)) as (l & -> & Hl); [by split |]. rewrite run_bind_Ret.
  destruct l as [|p l].
  - exists r. split; [done |]. destruct r; [done |]. intros mt' [-> | Hin]%elem_of_cons; [done | by apply Hr].
  - exists (Some (mt, p)). split; [done |]. split; [done |].
    apply (l_in _ _ (z_links _ _ _ _ (zo_linked _ _ _ _ Hz)) (cur, mt) (p :: l)); [done | left].
Qed.

Lemma fallbacks_ok mt : Forall (fun mt => 0 <= mt < MIGRATE_TYPES) (fallbacks mt).
Proof. unfold fallbacks. repeat case_match; repeat (apply Forall_cons; split; [lia |]); constructor. Qed.

Lemma fallback_ok fuel order smt z : zone_ok z -> 0 <= order -> 0 <= smt < MIGRATE_TYPES ->
  forall cur, cur < MAX_ORDER -> cur + 1 - order <= Z.of_nat fuel ->
  exists r z', fallback_loop fuel cur order smt z = Ret (r, z') /\ zone_ok z' /\
    match r with
    | None => z' = z /\ forall o mt, order <= o <= cur -> mt ∈ fallbacks smt -> mt <> MIGRATE_RESERVE ->
      free_list z !! (o, mt) = Some []
    | Some p => taken order p z z'
    end.
Proof.
  intros Hz Ho Hsmt. induction fuel as [|fuel IH]; intros cur Hcur Hfuel; cbn [fallback_loop];
    (destruct (Z.geb_spec cur order) as [Hge | Hlt]; [| exists None, z; split; [done |]; split; [done |]; split;
      [done | intros o mt; lia]]); [lia |].
  destruct (find_fallback_ok z cur (fallbacks smt) Hz ltac:(lia) (fallbacks_ok smt)) as (r & -> & Hr).
  rewrite run_bind_Ret. destruct r as [[mt p]|].
  - destruct Hr as [Hmt E]. destruct (steal_ok z p order cur smt mt Hz E ltac:(lia) Hsmt Hmt) as (z' & -> & Hz' & Ht).
    rewrite run_bind_Ret. by exists (Some p), z'.
  - destruct (IH (cur - 1)) as (r & z' & E & Hz' & Hr'); [lia | lia |]. exists r, z'. split; [done |]. split; [done |].
    destruct r; [done |]. destruct Hr' as [-> Hr']. split; [done |].
    intros o mt Hoo Hin Hne. destruct (Z.eq_dec o cur) as [-> | ?]; [by apply Hr | apply Hr'; [lia | done | done]].
Qed.

(** ** A block of any type *)

Lemma rmqueue_ok z order mt : zone_ok z -> 0 <= order < MAX_ORDER -> 0 <= mt < MIGRATE_PCPTYPES ->
  exists r z', __rmqueue order mt z = Ret (r, z') /\ zone_ok z' /\
    match r with
    | None => z' = z /\ forall o mt, order <= o < MAX_ORDER -> 0 <= mt < MIGRATE_ISOLATE -> free_list z !! (o, mt) = Some []
    | Some p => taken order p z z'
    end.
Proof.
  intros Hz Ho Hmt. unfold __rmqueue, __rmqueue_smallest, __rmqueue_fallback.
  destruct (smallest_ok zid start fin (Z.to_nat MAX_ORDER) order mt z Hz ltac:(lia) ltac:(lia) order ltac:(lia))
    as (r & z1 & -> & Hz1 & Hr); [rewrite Z2Nat.id by done; lia |].
  rewrite run_bind_Ret. cbn beta iota. destruct r as [p|]; [by exists (Some p), z1 |]. destruct Hr as [-> Hr].
  rewrite (proj2 (Z.eqb_neq mt MIGRATE_RESERVE)) by lia.
  destruct (fallback_ok (Z.to_nat MAX_ORDER) order mt z Hz ltac:(lia) ltac:(lia) (MAX_ORDER - 1) ltac:(lia))
    as (r & z2 & -> & Hz2 & Hr2); [rewrite Z2Nat.id by done; lia |].
  rewrite run_bind_Ret. cbn beta iota. destruct r as [p|]; [by exists (Some p), z2 |]. destruct Hr2 as [-> Hr2].
  destruct (smallest_ok zid start fin (Z.to_nat MAX_ORDER) order MIGRATE_RESERVE z Hz ltac:(lia) ltac:(lia) order
    ltac:(lia)) as (r & z3 & -> & Hz3 & Hr3); [rewrite Z2Nat.id by done; lia |].
  exists r, z3. split; [done |]. split; [done |]. destruct r; [done |]. destruct Hr3 as [-> Hr3]. split; [done |].
  intros o mt' Hoo Hmt'.
  destruct (decide (mt' = MIGRATE_RESERVE)) as [-> | Hne]; [by apply Hr3 |].
  destruct (decide (mt' = mt)) as [-> | Hne2]; [by apply Hr |]. apply Hr2; [lia | | done].
  assert ((mt = 0 \/ mt = 1 \/ mt = 2) /\ (mt' = 0 \/ mt' = 1 \/ mt' = 2)) as [[-> | [-> | ->]] [-> | [-> | ->]]]
    by lia; try done; apply (bool_decide_unpack _); vm_compute; exact I.
Qed.

End queue.

End PageQueue.
