(* ===== verification/PagePcp.v ===== *)
(** * The buddy allocator: the pages of the CPUs

    Blocks move between the free lists and those who have them; allocation and freeing in
    bulk through the lists of single pages of each CPU. *)
From S2P Require Import Prelude PageAlloc PageBlocks PageZone PageQueue.

Module PagePcp.
Import PageAlloc PageBlocks PageZone PageQueue.

Section pcp.
Context (zid start fin : Z).
#[local] Abbreviation zone_ok := (zone_ok zid start fin).
#[local] Abbreviation is_free := (is_free zid).
#[local] Abbreviation owned := (owned start fin).
#[local] Abbreviation card := (card start fin).

#[export] Instance is_free_dec z q : Decision (is_free z q).
Proof. unfold PageZone.is_free. apply _. Defined.

(** The zone is in order and the blocks [H] are not free. *)
Record own (z : zone) (H : list (Z * Z)) : Prop := Own { o_zone : zone_ok z; o_flags : flags_ok z;
  o_owned : owned H (is_free z) }.

Lemma own_perm z H H' : H ≡ₚ H' -> own z H -> own z H'.
Proof. intros P [? ? ?]. split; [done | done | by eapply owned_perm]. Qed.

(** ** One block *)

Lemma alloc_own z H order mt : own z H -> 0 <= order < MAX_ORDER -> 0 <= mt < MIGRATE_PCPTYPES ->
  exists r z', __rmqueue order mt z = Ret (r, z') /\
    match r with
    | None => z' = z
    | Some p => own z' ((p, order) :: H) /\ (forall q, is_free z q <-> is_free z' q \/ block_of p order q) /\
      card (is_free z) = card (is_free z') + 2 ^ order /\ frame (is_free z) z z'
    end.
Proof.
  intros [Hz Hf Ho] Hor Hmt. destruct (rmqueue_ok zid start fin z order mt Hz Hor Hmt) as (r & z' & E & Hz' & Hr).
  exists r, z'. split; [done |]. destruct r as [p|]; [| apply Hr].
  destruct Hr as (Hp & Hs & Hq & Hfr). assert (forall q, is_free z q <-> is_free z' q \/ block_of p order q) as Hq2
    by (intros q; rewrite Hq; specialize (Hs q); destruct (decide (block_of p order q)); tauto).
  assert (forall q, block_of p order q -> ~ is_free z' q) as Hd by (intros q Hb; rewrite Hq; tauto).
  split; [| split; [done | split; [by apply (card_add start fin _ _ p order) | done]]]. split; [done | by apply Hfr |].
  simpl. split; [done |]. split; [done |]. by eapply owned_ext.
Qed.

Lemma free_own z H p order mt : own z ((p, order) :: H) -> 0 <= mt < MIGRATE_TYPES ->
  exists z', __free_one_page p order mt z = Ret z' /\ own z' H /\ (forall q, is_free z' q <-> is_free z q \/
    block_of p order q) /\ card (is_free z') = card (is_free z) + 2 ^ order /\ frame (is_free z') z z'.
Proof.
  intros [Hz Hf (Hp & Hd & Ho)] Hmt. cbn in Hp, Hd, Ho.
  destruct (free_one_ok zid start fin z p order mt Hz Hp Hd Hmt) as (z' & E & Hz' & Hq & Hfr).
  exists z'. split; [done |]. split; [split; [done | by apply Hfr |] | split;
    [done | split; [by apply (card_add start fin _ _ p order) | done]]]. eapply owned_ext; [| exact Ho]. intros q.
  by rewrite Hq.
Qed.

(** A page that is not free and whose private number is a migrate type. *)
Definition typed (z : zone) (p : Z) : Prop := exists x, mem_map z !! p = Some (Page false x zid) /\ 0 <= x < MIGRATE_TYPES.

Lemma typed_frame S z z' p : frame S z z' -> ~ S p -> typed z p -> typed z' p.
Proof. intros F Hp (x & E & Hx). exists x. by rewrite (f_map _ _ _ F p Hp). Qed.

Lemma private_own z H p x : own z H -> start <= p < fin -> ~ is_free z p ->
  exists z', set_page_private p x z = Ret z' /\ own z' H /\ (forall q, is_free z' q <-> is_free z q) /\
    frame (eq p) z z' /\ mem_map z' !! p = Some (Page false x zid).
Proof.
  intros [[[H1 H2 H3] Hc] Hf Ho] Hp Hn. destruct (in_zone zid start fin z p H3 Hp) as (pg & Hpg & Hz).
  unfold set_page_private, get_page. rewrite Hpg. cbn [of_option]. rewrite run_bind_Ret.
  assert (free_blocks zid z !! p = None) as Hb. { destruct (free_blocks zid z !! p) as [o|] eqn:E; [| done].
    destruct Hn. exists p, o. split; [done |]. apply block_head. by destruct (links_range _ _ _ _ H1 E). }
  assert (PageBuddy pg = false) as Ef. { unfold free_blocks in Hb. rewrite lookup_omap, Hpg in Hb. cbn in Hb.
    unfold block_order in Hb. rewrite Hz, Z.eqb_refl in Hb. by destruct (PageBuddy pg). }
  rewrite Ef, Hz. eexists. split; [reflexivity |]. set (z' := set_map _ z). assert (free_blocks zid z' = free_blocks zid z) as Eb.
  { unfold free_blocks, z'. cbn [set_map mem_map]. rewrite omap_insert. cbn. by apply delete_id. }
  assert (forall q, is_free z' q <-> is_free z q) as Hq by (intros q; unfold PageZone.is_free; by rewrite Eb).
  split; [split; [split; [split |] | done | eapply owned_ext; [| exact Ho]; intros q; by rewrite Hq] |].
  - by rewrite Eb.
  - done.
  - by eapply map_ok_insert.
  - by rewrite Eb.
  - split; [done |]. split; [split; [| done | done]; intros q Hqp; cbn; by rewrite lookup_insert_ne | cbn;
      by rewrite lookup_insert_eq].
Qed.

(** ** Allocating in bulk *)

Definition at_order (order : Z) (l : list Z) : list (Z * Z) := (fun p => (p, order)) <$> l.

Lemma holds_at order l q : holds (at_order order l) q <-> exists p, p ∈ l /\ block_of p order q.
Proof.
  unfold holds, at_order. split.
  - intros (b & (p & -> & Hp)%list_elem_of_fmap & Hq). by exists p.
  - intros (p & Hp & Hq). exists (p, order). split; [| done]. apply list_elem_of_fmap. by exists p.
Qed.

Lemma holds_nil q : ~ holds [] q.
Proof. by intros (b & ?%not_elem_of_nil & _). Qed.

Lemma holds_cons b H q : holds (b :: H) q <-> block_of b.1 b.2 q \/ holds H q.
Proof.
  split; [intros (c & [-> | Hc]%elem_of_cons & Hq); [by left | right; by exists c] | intros [Hq | (c & Hc & Hq)];
    [exists b; split; [left | done] | exists c; split; [by right | done]]].
Qed.

Lemma card_same (F F' : Z -> Prop) `{!forall q, Decision (F q), !forall q, Decision (F' q)} : (forall q, F q <->
  F' q) -> card F = card F'.
Proof. intros E. unfold PageBlocks.card. do 2 f_equal. by apply list_filter_iff. Qed.

Lemma bulk_own n order mt : 0 <= order < MAX_ORDER -> 0 <= mt < MIGRATE_PCPTYPES -> forall z H, own z H ->
  exists l z', bulk_alloc n order mt z = Ret (l, z') /\ own z' (at_order order l ++ H) /\ Forall (typed z') l /\
    (length l <= n)%nat /\
    (forall q, is_free z q <-> is_free z' q \/ holds (at_order order l) q) /\
      card (is_free z) = card (is_free z') + Z.of_nat (length l) * 2 ^ order /\ frame (is_free z) z z'.
Proof.
  intros Ho Hmt. induction n as [|n IH]; intros z H Hz; simpl.
  { exists [], z. split; [done |]. do 2 (split; [done |]). split; [simpl; lia |].
    split; [intros q; pose proof (holds_nil q); tauto |]. split; [simpl; lia | apply frame_refl]. }
  destruct (alloc_own z H order mt Hz Ho Hmt) as (r & z1 & -> & Hr). rewrite run_bind_Ret. cbn beta iota. destruct r as [p|].
  2: { subst z1. exists [], z. split; [done |]. do 2 (split; [done |]). split; [simpl; lia |].
    split; [intros q; pose proof (holds_nil q); tauto |]. split; [simpl; lia | apply frame_refl]. }
  destruct Hr as (Hz1 & Hq1 & Hc1 & Hf1). destruct (o_owned _ _ Hz1) as (Hp & Hd & _). cbn in Hp, Hd.
  assert (block_of p order p) as Hhead by (apply block_head; lia).
  destruct (private_own z1 _ p mt Hz1 (placed_head _ _ _ _ Hp) (Hd p Hhead)) as (z2 & -> & Hz2 & Hq2 & Hf2 & Hpg).
  rewrite run_bind_Ret.
  destruct (IH z2 _ Hz2) as (l & z3 & -> & Hz3 & Ht & Hlen & Hq3 & Hc3 & Hf3). rewrite run_bind_Ret.
  exists (p :: l), z3. split; [done |].
  pose proof (card_same _ _ Hq2) as Hc2. split; [eapply own_perm; [| exact Hz3]; simpl; by rewrite Permutation_middle |].
  split; [constructor; [| done] |].
  - eapply typed_frame; [exact Hf3 | rewrite Hq2; by apply Hd | exists mt; split; [done | lia]].
  - split; [simpl; lia |]. split; [intros q; rewrite Hq1, <- Hq2, Hq3; unfold at_order; cbn [fmap list_fmap];
      rewrite holds_cons; cbn [fst snd]; tauto |].
    split; [simpl length; lia |]. eapply frame_trans;
      [exact Hf1 | eapply frame_trans; [exact Hf2 | exact Hf3 | intros q Hq; exact Hq] |]. intros q. cbn beta.
    rewrite Hq2, !Hq1. intros [? | [<- | ?]]; tauto.
Qed.

(** ** Freeing in bulk *)

Definition pcp_pages (ls : gmap Z (list Z)) : list Z := default [] (ls !! 0) ++ default [] (ls !! 1) ++ default [] (ls !! 2).

(** The pages in the lists of a CPU are its own, apart from the blocks [H] of others. *)
Record pcp_ok (z : zone) (ls : gmap Z (list Z)) (H : list (Z * Z)) : Prop := PcpOk {
  c_keys : forall mt, is_Some (ls !! mt) <-> 0 <= mt < MIGRATE_PCPTYPES;
  c_own : own z (at_order 0 (pcp_pages ls) ++ H);
  c_typed : Forall (typed z) (pcp_pages ls)
}.

Lemma pages_at ls mt l : 0 <= mt < MIGRATE_PCPTYPES -> ls !! mt = Some l -> exists rest, pcp_pages ls ≡ₚ l ++ rest /\
  forall l', pcp_pages (<[mt := l']> ls) ≡ₚ l' ++ rest.
Proof.
  intros Hmt Hl. unfold pcp_pages. assert (mt = 0 \/ mt = 1 \/ mt = 2) as [-> | [-> | ->]] by lia; rewrite Hl; eexists;
    (split; [| intros l'; rewrite lookup_insert_eq, !lookup_insert_ne by done]); simpl default.
  - reflexivity.
  - reflexivity.
  - rewrite Permutation_app_swap_app. reflexivity.
  - rewrite Permutation_app_swap_app. reflexivity.
  - rewrite app_assoc, Permutation_app_comm. reflexivity.
  - rewrite app_assoc, Permutation_app_comm. reflexivity.
Qed.

(** [n] pages of [P] have been freed. *)
Record freed (n : Z) (z : zone) (P : list Z) (z' : zone) (P' : list Z) : Prop := Freed {
  r_len : Z.of_nat (length P') = Z.of_nat (length P) - n;
  r_card : card (is_free z') = card (is_free z) + n;
  r_mem : forall q, is_free z' q \/ holds (at_order 0 P') q <-> is_free z q \/ holds (at_order 0 P) q;
  r_grow : forall q, is_free z q -> is_free z' q;
  r_frame : frame (is_free z') z z'
}.

Lemma freed_trans n m z1 P1 z2 P2 z3 P3 : freed n z1 P1 z2 P2 -> freed m z2 P2 z3 P3 -> freed (n + m) z1 P1 z3 P3.
Proof.
  intros [L1 C1 M1 G1 F1] [L2 C2 M2 G2 F2]. split; [lia | lia | intros q; by rewrite M2, M1 | auto |].
  eapply frame_trans; [exact F1 | exact F2 |]. intros q [Hq | Hq]; auto.
Qed.

Lemma holds_perm H H' q : H ≡ₚ H' -> holds H q <-> holds H' q.
Proof. intros P. split; intros (b & Hb & Hq); exists b; (split; [| done]); [by rewrite <- P | by rewrite P]. Qed.

Lemma at_order_perm o l l' : l ≡ₚ l' -> at_order o l ≡ₚ at_order o l'.
Proof. apply fmap_Permutation. Qed.

(** The last page of a list is freed. *)
Lemma drain_one z ls H mt l p : pcp_ok z ls H -> 0 <= mt < MIGRATE_PCPTYPES -> ls !! mt = Some (l ++ [p]) ->
  exists pg z', get_page p z = Ret pg /\ __free_one_page p 0 (page_private pg) z = Ret z' /\
    pcp_ok z' (<[mt := l]> ls) H /\ freed 1 z (pcp_pages ls) z' (pcp_pages (<[mt := l]> ls)).
Proof.
  intros [Hk Ho Ht] Hmt Hl. destruct (pages_at ls mt _ Hmt Hl) as (rest & P1 & P2). specialize (P2 l).
  assert (pcp_pages ls ≡ₚ p :: pcp_pages (<[mt := l]> ls)) as P.
  { rewrite P1, P2. rewrite <- app_assoc. simpl. by rewrite <- Permutation_middle. }
  rewrite P in Ht. apply Forall_cons in Ht as [(x & Hpg & Hx) Ht].
  apply (own_perm _ _ ((p, 0) :: at_order 0 (pcp_pages (<[mt := l]> ls)) ++ H)) in Ho;
    [| by rewrite (at_order_perm 0 _ _ P)].
  destruct (free_own z _ p 0 x Ho Hx) as (z' & E & Ho' & Hq & Hc & Hf). exists (Page false x zid), z'. unfold get_page.
  rewrite Hpg. split; [done |]. split; [done |]. split; [split |].
  - intros mt'. rewrite lookup_insert_is_Some'. rewrite Hk. split; [intros [<- | ?]; done | by right].
  - done.
  - rewrite Forall_forall in *. intros u Hu. eapply typed_frame; [exact Hf | | by apply Ht].
    apply (owned_disjoint _ _ _ _ (u, 0) u (o_owned _ _ Ho')); [apply elem_of_app; left; apply list_elem_of_fmap;
      by exists u | by apply block_head].
  - split; [rewrite P; simpl length; lia | done | | intros q; rewrite Hq; by left | done]. intros q.
    rewrite Hq, (holds_perm _ _ q (at_order_perm 0 _ _ P)). unfold at_order at 2. cbn [fmap list_fmap].
    rewrite holds_cons. cbn [fst snd]. tauto.
Qed.

Lemma drain_list_ok fuel mt H : 0 <= mt < MIGRATE_PCPTYPES -> forall z ls l n bf, pcp_ok z ls H -> ls !! mt = Some l ->
  l <> [] -> (length l <= fuel)%nat -> 1 <= n -> 1 <= bf ->
  exists n' bf' ls' z', drain_list fuel mt n bf ls z = Ret (n', bf', ls', z') /\ 0 <= n' < n /\ 0 <= bf' /\
    pcp_ok z' ls' H /\ freed (n - n') z (pcp_pages ls) z' (pcp_pages ls').
Proof.
  intros Hmt. induction fuel as [|fuel IH]; intros z ls l n bf Hok Hl Hne Hlen Hn Hbf;
    [destruct l; [done | simpl in Hlen; lia] |]. simpl.
  destruct l as [|p l _] using rev_ind; [done |]. rewrite Hl. cbn [of_option]. rewrite run_bind_Ret, last_snoc.
  cbn [of_option]. rewrite run_bind_Ret, removelast_last.
  destruct (drain_one z ls H mt l p Hok Hmt Hl) as (pg & z1 & -> & E1 & Hok1 & Hfr1).
  rewrite run_bind_Ret, E1, run_bind_Ret. rewrite length_app in Hlen. simpl in Hlen.
  destruct (Z.eqb_spec (n - 1) 0) as [Hz | Hnz]; [exists (n - 1), bf, (<[mt := l]> ls), z1; split; [done |]; split;
    [lia |]; split; [lia |]; split; [done |]; by replace (n - (n - 1)) with 1 by lia |].
  destruct ((bf - 1 =? 0) || _) eqn:Estop; [exists (n - 1), (bf - 1), (<[mt := l]> ls), z1; split; [done |]; split;
    [lia |]; split; [lia |]; split; [done |]; by replace (n - (n - 1)) with 1 by lia |].
  apply orb_false_iff in Estop as [Hb1 Hl1]. apply Z.eqb_neq in Hb1. destruct (decide (l = [])) as [|Hne1]; [done |].
  destruct (IH z1 (<[mt := l]> ls) l (n - 1) (bf - 1)) as (n' & bf' & ls' & z' & E & Hn' & Hb' & Hok' & Hfr');
    [done | by rewrite lookup_insert_eq | done | lia | lia | lia |].
  exists n', bf', ls', z'. split; [done |]. split; [lia |]. split; [done |]. split; [done |].
  replace (n - n') with (1 + (n - 1 - n')) by lia. by eapply freed_trans.
Qed.

Lemma next_list_step fuel mt mt' bf ls l : (if mt + 1 =? MIGRATE_PCPTYPES then 0 else mt + 1) = mt' -> ls !! mt' = Some l ->
  next_list (S fuel) mt bf ls = match l with [] => next_list fuel mt' (bf + 1) ls | _ => Ret (mt', bf + 1) end.
Proof. intros E Hl. cbn [next_list]. rewrite E, Hl. by destruct l. Qed.

Lemma next_list_ok fuel mt bf ls : (forall mt, is_Some (ls !! mt) <-> 0 <= mt < MIGRATE_PCPTYPES) ->
  pcp_pages ls <> [] -> 0 <= mt < MIGRATE_PCPTYPES -> (3 <= fuel)%nat ->
  exists mt' bf' l, next_list fuel mt bf ls = Ret (mt', bf') /\ 0 <= mt' < MIGRATE_PCPTYPES /\ ls !! mt' = Some l /\
    l <> [] /\ bf < bf'.
Proof.
  intros Hk Hne Hmt Hfuel. destruct fuel as [|[|[|fuel]]]; [lia.. |].
  destruct (proj2 (Hk 0) ltac:(lia)) as [l0 H0]. destruct (proj2 (Hk 1) ltac:(lia)) as [l1 H1].
  destruct (proj2 (Hk 2) ltac:(lia)) as [l2 H2].
  unfold pcp_pages in Hne. rewrite H0, H1, H2 in Hne. simpl in Hne.
  pose proof (fun f b => next_list_step f 0 1 b ls l1 eq_refl H1) as S0.
  pose proof (fun f b => next_list_step f 1 2 b ls l2 eq_refl H2) as S1.
  pose proof (fun f b => next_list_step f 2 0 b ls l0 eq_refl H0) as S2.
  assert (mt = 0 \/ mt = 1 \/ mt = 2) as [-> | [-> | ->]] by lia; destruct l0, l1, l2; try done; rewrite ?S0, ?S1, ?S2, ?S0, ?S1;
    do 3 eexists; (split; [reflexivity |]); (split; [lia |]); (split; [eassumption |]); (split; [done | lia]).
Qed.

Lemma drain_loop_ok fuel H : forall z ls mt n bf, pcp_ok z ls H -> 0 <= mt < MIGRATE_PCPTYPES ->
  0 <= n <= Z.of_nat (length (pcp_pages ls)) -> 0 <= bf -> (length (pcp_pages ls) + 3 <= fuel)%nat ->
  exists ls' z', drain_loop fuel mt n bf ls z = Ret (ls', z') /\ pcp_ok z' ls' H /\ freed n z (pcp_pages ls) z' (pcp_pages ls').
Proof.
  induction fuel as [|fuel IH]; intros z ls mt n bf Hok Hmt Hn Hbf Hfuel; [lia |]. cbn [drain_loop].
  destruct (Z.eqb_spec n 0) as [-> | Hn0].
  { exists ls, z. split; [done |]. split; [done |]. split; [lia | lia | done | done | apply frame_refl]. }
  destruct (next_list_ok (S fuel) mt bf ls (c_keys _ _ _ Hok)) as (mt' & bf' & l & -> & Hmt' & Hl & Hne & Hbf');
    [intros E; rewrite E in Hn; simpl in Hn; lia | done | lia |]. rewrite run_bind_Ret. cbn beta iota.
  destruct (pages_at ls mt' l Hmt' Hl) as (rest & P & _).
  assert (length l <= length (pcp_pages ls))%nat as Hll by (rewrite P, length_app; lia).
  destruct (drain_list_ok (S fuel) mt' H Hmt' z ls l n bf' Hok Hl Hne) as (n' & b2 & ls1 & z1 & ->
    & Hn' & Hb2 & Hok1 & Hfr1); [lia | lia | lia |]. rewrite run_bind_Ret. cbn beta iota.
  pose proof (r_len _ _ _ _ _ Hfr1) as Hlen. destruct (IH z1 ls1 mt' n' b2) as (ls' & z' & -> & Hok' & Hfr');
    [done | done | lia | done | lia |].
  exists ls', z'. split; [done |]. split; [done |]. replace n with ((n - n') + n') by lia. by eapply freed_trans.
Qed.

(** The counters do not matter to the blocks. *)
Lemma zone_ok_stats z z' : mem_map z' = mem_map z -> free_list z' = free_list z -> nr_free z' = nr_free z ->
  zone_start_pfn z' = zone_start_pfn z -> spanned_pages z' = spanned_pages z -> zone_ok z -> zone_ok z'.
Proof.
  intros E1 E2 E3 E4 E5 [[H1 H2 [M1 M2 M3 M4 M5]] Hc]. split; [split |]; unfold free_blocks; rewrite ?E1, ?E2;
    [done | intros o Ho; rewrite E2, E3; by apply H2 | split; by rewrite ?E1, ?E4, ?E5 | done].
Qed.

Lemma own_mod d n u z H : own z H -> own (mod_free_pages d (set_scan n u z)) H.
Proof. intros [H1 H2 H3]. split; [by apply (zone_ok_stats z) | done | done]. Qed.

Lemma free_bulk_ok fuel n pcp z H : pcp_ok z (lists pcp) H -> 0 <= n <= Z.of_nat (length (pcp_pages (lists pcp))) ->
  (length (pcp_pages (lists pcp)) + 3 <= fuel)%nat ->
  exists ls' z', free_pcppages_bulk fuel n pcp z = Ret (Pcp (count pcp) (high pcp) (batch pcp) ls', z') /\ pcp_ok z' ls' H /\
    freed n (mod_free_pages n (set_scan 0 false z)) (pcp_pages (lists pcp)) z' (pcp_pages ls').
Proof.
  intros [Hk Ho Ht] Hn Hfuel. unfold free_pcppages_bulk.
  destruct (drain_loop_ok fuel H (mod_free_pages n (set_scan 0 false z)) (lists pcp) 0 n 0) as (ls' & z' & ->
    & Hok' & Hfr'); [| lia | done | lia | done |].
  { split; [done | by apply own_mod | done]. }
  exists ls', z'. by rewrite run_bind_Ret.
Qed.

(** ** Allocation and freeing through the lists of a CPU *)

Lemma s32_add a b : s32 (s32 a + b) = s32 (a + b).
Proof.
  unfold swrap. replace ((a + 2 ^ (32 - 1)) mod 2 ^ 32 - 2 ^ (32 - 1) + b + 2 ^ (32 - 1))
    with ((a + 2 ^ (32 - 1)) mod 2 ^ 32 + b) by lia. rewrite Zplus_mod_idemp_l. do 2 f_equal. lia.
Qed.

Lemma s32_le a : 0 <= a -> s32 a <= a.
Proof. intros Ha. unfold swrap. pose proof (Z.mod_le (a + 2 ^ (32 - 1)) (2 ^ 32) ltac:(lia) ltac:(lia)). lia. Qed.

Record cpu_ok (z : zone) (pcp : per_cpu_pages) (H : list (Z * Z)) : Prop := CpuOk {
  u_pages : pcp_ok z (lists pcp) H;
  u_count : count pcp = s32 (Z.of_nat (length (pcp_pages (lists pcp))));
  u_batch : 1 <= batch pcp <= Z.max 1 (high pcp);
  u_free : NR_FREE_PAGES z = card (is_free z)
}.

(** The [struct page] outside of [S] stay as they are. *)
Definition keeps (S : Z -> Prop) (z z' : zone) : Prop := forall q, ~ S q -> mem_map z' !! q = mem_map z !! q.

(** The pages that are free or with one of those who have them. *)
Definition memory (z : zone) (P : list Z) (H : list (Z * Z)) (q : Z) : Prop := is_free z q \/ holds (at_order 0 P ++ H) q.

Lemma holds_app H1 H2 q : holds (H1 ++ H2) q <-> holds H1 q \/ holds H2 q.
Proof.
  unfold holds. split.
  - intros (b & [Hb | Hb]%elem_of_app & Hq); [left | right]; by exists b.
  - intros [(b & Hb & Hq) | (b & Hb & Hq)]; exists b; (split; [apply elem_of_app; by (left + right) | done]).
Qed.

(** The list of one type is filled. *)
Lemma refill_ok z pcp mt l cold H : cpu_ok z pcp H -> 0 <= mt < MIGRATE_PCPTYPES -> lists pcp !! mt = Some l ->
  exists n l' z', (match l with [] => rmqueue_bulk 0 (batch pcp) [] mt cold z | _ => Ret (0, l, z) end) = Ret (n, l', z') /\
    cpu_ok z' (Pcp (s32 (count pcp + n)) (high pcp) (batch pcp) (<[mt := l']> (lists pcp))) H /\ keeps (is_free z) z z' /\
    forall q, memory z' (pcp_pages (<[mt := l']> (lists pcp))) H q <-> memory z (pcp_pages (lists pcp)) H q.
Proof.
  intros [[Hk Ho Ht] Hc Hb Hnr] Hmt Hl. destruct l as [|x l].
  2: { exists 0, (x :: l), z. split; [done |]. rewrite (insert_id _ _ _ Hl), Z.add_0_r. split; [| done].
    split; cbn; [done | | done | done]. rewrite Hc.
  pose proof (s32_add (Z.of_nat (length (pcp_pages (lists pcp)))) 0) as Es. by rewrite !Z.add_0_r in Es. }
  destruct (pages_at _ mt _ Hmt Hl) as (rest & P1 & P2). simpl in P1.
  destruct (bulk_own (Z.to_nat (batch pcp)) 0 mt ltac:(done) Hmt z _ Ho)
    as (lb & z1 & E & Ho1 & Ht1 & _ & Hq1 & Hc1 & Hf1). unfold rmqueue_bulk. rewrite E, run_bind_Ret. cbn beta iota.
  set (l' := if cold then [] ++ rev lb else lb ++ []).
  assert (l' ≡ₚ lb) as Pl by (unfold l'; destruct cold; [by rewrite <- Permutation_rev | by rewrite app_nil_r]).
  specialize (P2 l').
  assert (pcp_pages (<[mt := l']> (lists pcp)) ≡ₚ lb ++ pcp_pages (lists pcp)) as P by (by rewrite P2, Pl, P1).
  exists (Z.of_nat (length lb)), l'. eexists. split; [reflexivity |].
  assert (Forall (typed z1) (pcp_pages (lists pcp))) as Ht2.
  { rewrite Forall_forall in *. intros u Hu. eapply typed_frame; [exact Hf1 | | by apply Ht].
    apply (owned_disjoint _ _ _ _ (u, 0) u (o_owned _ _ Ho)); [apply elem_of_app; left; apply list_elem_of_fmap;
      by exists u | by apply block_head]. }
  rewrite Z.pow_0_r, Z.mul_1_r in Hc1. split; [split; cbn [lists count high batch] |].
  - split; [intros mt'; rewrite lookup_insert_is_Some', Hk; split; [intros [<- | ?]; done | by right] |
      | by rewrite P, Forall_app].
    apply (own_mod _ (pages_scanned z1) (ZONE_ALL_UNRECLAIMABLE z1) z1). eapply own_perm; [| exact Ho1].
    rewrite (at_order_perm 0 _ _ P). unfold at_order. rewrite fmap_app. by rewrite app_assoc.
  - rewrite P, length_app, Hc, s32_add. f_equal. lia.
  - done.
  - cbn [mod_free_pages NR_FREE_PAGES]. rewrite (f_count _ _ _ Hf1), Hnr, Z.shiftl_0_r.
    transitivity (card (is_free z1)); [lia | by apply card_same].
  - split; [exact (f_map _ _ _ Hf1) |]. intros q. unfold memory.
    change (is_free (mod_free_pages _ z1)) with (is_free z1).
    rewrite !holds_app, (holds_perm _ _ q (at_order_perm 0 _ _ P)). unfold at_order at 1.
    rewrite fmap_app, holds_app, Hq1.
    unfold at_order. tauto.
Qed.

(** A page is taken from the list of one type. *)
Lemma take_ok z n high batch ls mt l l' p H : cpu_ok z (Pcp n high batch ls) H -> 0 <= mt < MIGRATE_PCPTYPES ->
  ls !! mt = Some l -> l ≡ₚ p :: l' ->
  cpu_ok z (Pcp (s32 (n - 1)) high batch (<[mt := l']> ls)) ((p, 0) :: H) /\
    forall q, memory z (pcp_pages (<[mt := l']> ls)) ((p, 0) :: H) q <-> memory z (pcp_pages ls) H q.
Proof.
  intros [[Hk Ho Ht] Hc Hb Hnr] Hmt Hl Pl. cbn in *. destruct (pages_at ls mt l Hmt Hl) as (rest & P1 & P2). specialize (P2 l').
  assert (pcp_pages ls ≡ₚ p :: pcp_pages (<[mt := l']> ls)) as P by (by rewrite P1, P2, Pl).
  assert (at_order 0 (pcp_pages ls) ++ H ≡ₚ at_order 0 (pcp_pages (<[mt := l']> ls)) ++ (p, 0) :: H) as PH
    by (rewrite (at_order_perm 0 _ _ P); simpl; by rewrite Permutation_middle).
  split; [split; cbn; [split | | done | done] |].
  - intros mt'. rewrite lookup_insert_is_Some', Hk. split; [intros [<- | ?]; done | by right].
  - by eapply own_perm.
  - rewrite P in Ht. by apply Forall_cons in Ht as [_ Ht].
  - rewrite Hc, P, <- Z.add_opp_r, s32_add. f_equal. simpl length. lia.
  - intros q. unfold memory. by rewrite (holds_perm _ _ q PH).
Qed.

Definition got (order : Z) (r : option Z) : list (Z * Z) := match r with Some p => [(p, order)] | None => [] end.

Lemma buffered_ok z pcp order mt cold H : cpu_ok z pcp H -> 0 <= order < MAX_ORDER -> 0 <= mt < MIGRATE_PCPTYPES ->
  exists r pcp' z', buffered_rmqueue order mt cold pcp z = Ret (r, pcp', z') /\ cpu_ok z' pcp' (got order r ++ H) /\
    keeps (is_free z) z z' /\
    forall q, memory z' (pcp_pages (lists pcp')) (got order r ++ H) q <-> memory z (pcp_pages (lists pcp)) H q.
Proof.
  intros Hok Ho Hmt. unfold buffered_rmqueue. destruct (Z.eqb_spec order 0) as [-> | Hne].
  - destruct (proj2 (c_keys _ _ _ (u_pages _ _ _ Hok) mt) Hmt) as [l Hl]. rewrite Hl. cbn [of_option]. rewrite run_bind_Ret.
    destruct (refill_ok z pcp mt l cold H Hok Hmt Hl) as (n & l' & z' & -> & Hok' & Hkeep & Hmem).
    rewrite run_bind_Ret. cbn beta iota zeta.
    destruct (if cold then last l' else head l') as [p|] eqn:Ep; [| exists None; do 2 eexists; split; [reflexivity |];
      split; [exact Hok' | done]].
    assert (l' ≡ₚ p :: (if cold then removelast l' else tail l')) as Pl.
    { destruct cold; [apply last_Some in Ep as [k ->]; rewrite removelast_last; by rewrite <- Permutation_cons_append
        | by destruct l'; [done | injection Ep as ->]]. }
    destruct (take_ok z' _ _ _ _ mt l' _ p H Hok' Hmt (lookup_insert_eq _ _ _) Pl) as [Hok2 Hmem2].
    rewrite insert_insert_eq in Hok2, Hmem2.
    exists (Some p). do 2 eexists. split; [reflexivity |]. split; [exact Hok2 |]. split; [done |]. intros q.
    by rewrite <- Hmem, <- Hmem2.
  - destruct Hok as [[Hk Hown Ht] Hc Hb Hnr]. destruct (alloc_own z _ order mt Hown Ho Hmt) as (r & z' & -> & Hr).
    rewrite run_bind_Ret. cbn beta iota. destruct r as [p|].
    + destruct Hr as (Hown' & Hq & Hcard & Hfr).
      assert (((p, order) :: at_order 0 (pcp_pages (lists pcp)) ++ H) ≡ₚ at_order 0 (pcp_pages (lists pcp)) ++
        (p, order) :: H) as PH by (by rewrite Permutation_middle).
      exists (Some p). do 2 eexists. split; [reflexivity |].
      split; [split; cbn [got app]; [split; [done | |] | done | done |] | split; [exact (f_map _ _ _ Hfr) |]].
      * apply (own_mod _ (pages_scanned z') (ZONE_ALL_UNRECLAIMABLE z') z'). by eapply own_perm.
      * rewrite Forall_forall in *. intros u Hu. apply (typed_frame (is_free z) z z'); [done | | by apply Ht].
        apply (owned_disjoint _ _ _ _ (u, 0) u (o_owned _ _ Hown)); [apply elem_of_app; left; apply list_elem_of_fmap;
          by exists u | by apply block_head].
      * cbn [mod_free_pages NR_FREE_PAGES]. rewrite (f_count _ _ _ Hfr), Hnr, Z.shiftl_1_l.
        transitivity (card (is_free z')); [lia | by apply card_same].
      * intros q. unfold memory. change (is_free (mod_free_pages _ z')) with (is_free z'). cbn [got app].
        rewrite <- (holds_perm _ _ q PH), holds_cons, Hq. cbn [fst snd]. tauto.
    + subst z'. exists None. do 2 eexists. split; [reflexivity |]. by split.
Qed.

(** A page is put into the list of one type. *)
Lemma put_ok z n high batch ls mt l l' p H : cpu_ok z (Pcp n high batch ls) ((p, 0) :: H) -> typed z p ->
  0 <= mt < MIGRATE_PCPTYPES -> ls !! mt = Some l -> l' ≡ₚ p :: l ->
  cpu_ok z (Pcp (s32 (n + 1)) high batch (<[mt := l']> ls)) H /\ pcp_pages (<[mt := l']> ls) ≡ₚ p :: pcp_pages ls /\
  forall q, memory z (pcp_pages (<[mt := l']> ls)) H q <-> memory z (pcp_pages ls) ((p, 0) :: H) q.
Proof.
  intros [[Hk Ho Ht] Hc Hb Hnr] Htp Hmt Hl Pl. cbn in *. destruct (pages_at ls mt l Hmt Hl) as (rest & P1 & P2).
  specialize (P2 l').
  assert (pcp_pages (<[mt := l']> ls) ≡ₚ p :: pcp_pages ls) as P by (by rewrite P1, P2, Pl).
  assert (at_order 0 (pcp_pages (<[mt := l']> ls)) ++ H ≡ₚ at_order 0 (pcp_pages ls) ++ (p, 0) :: H) as PH
    by (rewrite (at_order_perm 0 _ _ P); simpl; by rewrite Permutation_middle).
  split; [split; cbn; [split | | done | done] | split; [done |]].
  - intros mt'. rewrite lookup_insert_is_Some', Hk. split; [intros [<- | ?]; done | by right].
  - eapply own_perm; [symmetry; exact PH | done].
  - rewrite P. by constructor.
  - rewrite Hc, P, s32_add. f_equal. simpl length. lia.
  - intros q. unfold memory. by rewrite (holds_perm _ _ q PH).
Qed.

Lemma block_type z p : flags_ok z -> 0 <= get_pageblock_migratetype p z < MIGRATE_TYPES.
Proof. intros Hf. unfold get_pageblock_migratetype. destruct (pageblock_flags z !! _) as [mt|] eqn:E; [by eapply Hf | done]. Qed.

(** The zone is told to free a block that is not in a list of the CPU. *)
Lemma free_block_ok z pcp p order mt H : cpu_ok z pcp ((p, order) :: H) -> 0 <= mt < MIGRATE_TYPES ->
  exists z', free_one_page p order mt z = Ret z' /\ cpu_ok z' pcp H /\ keeps (is_free z') z z' /\
    forall q, memory z' (pcp_pages (lists pcp)) H q <-> memory z (pcp_pages (lists pcp)) ((p, order) :: H) q.
Proof.
  intros [[Hk Hown Ht] Hc Hb Hnr] Hmt. unfold free_one_page. set (z0 := mod_free_pages (1 .<< order) (set_scan 0 false z)).
  assert (at_order 0 (pcp_pages (lists pcp)) ++ (p, order) :: H ≡ₚ (p, order) :: at_order 0 (pcp_pages (lists pcp)) ++
    H) as PH by (by rewrite Permutation_middle).
  assert (own z0 ((p, order) :: at_order 0 (pcp_pages (lists pcp)) ++ H)) as Hown0 by (apply own_mod; by eapply own_perm).
  destruct (free_own z0 _ p order mt Hown0 Hmt) as (z' & -> & Hown' & Hq & Hcard & Hfr). exists z'. split; [done |].
  split; [split; [split; [done | done |] | done | done |] | split; [exact (f_map _ _ _ Hfr) |]].
  - rewrite Forall_forall in *. intros u Hu. eapply (typed_frame _ z0); [exact Hfr | | by apply Ht].
    apply (owned_disjoint _ _ _ _ (u, 0) u (o_owned _ _ Hown')); [apply elem_of_app; left; apply list_elem_of_fmap;
      by exists u | by apply block_head].
  - rewrite (f_count _ _ _ Hfr), Hcard. cbn [z0 mod_free_pages set_scan NR_FREE_PAGES]. rewrite Hnr, Z.shiftl_1_l. done.
  - intros q. unfold memory. rewrite (holds_perm _ _ q PH), holds_cons, Hq. change (is_free z0) with (is_free z).
    cbn [fst snd]. tauto.
Qed.

Lemma free_hot_ok fuel z pcp p cold H : cpu_ok z pcp ((p, 0) :: H) -> (length (pcp_pages (lists pcp)) + 4 <= fuel)%nat ->
  exists pcp' z', free_hot_cold_page fuel p cold pcp z = Ret (pcp', z') /\ cpu_ok z' pcp' H /\
    keeps (fun q => q = p \/ is_free z' q) z z' /\
    forall q, memory z' (pcp_pages (lists pcp')) H q <-> memory z (pcp_pages (lists pcp)) ((p, 0) :: H) q.
Proof.
  intros Hok Hfuel. pose proof Hok as [[Hk Hown Ht] Hc Hb Hnr]. unfold free_hot_cold_page.
  set (t := get_pageblock_migratetype p z). pose proof (block_type z p (o_flags _ _ Hown)) as Htype. fold t in Htype.
  assert ((p, 0) ∈ at_order 0 (pcp_pages (lists pcp)) ++ (p, 0) :: H) as Hin by (apply elem_of_app; right; left).
  destruct (private_own z _ p t Hown (placed_head _ _ _ _ (owned_placed _ _ _ _ _ (o_owned _ _ Hown) Hin))) as (z1 & ->
    & Hown1 & Hq1 & Hf1 & Hpg).
  { apply (owned_disjoint _ _ _ _ (p, 0) p (o_owned _ _ Hown) Hin). by apply block_head. }
  rewrite run_bind_Ret. assert (forall u, u ∈ pcp_pages (lists pcp) -> u <> p) as Hneq.
  { intros u Hu ->. apply (owned_apart _ _ _ _ _ (p, 0) (p, 0) p (o_owned _ _ Hown));
      [apply elem_of_app; left; apply list_elem_of_fmap; by exists p | by apply block_head..]. }
  assert (cpu_ok z1 pcp ((p, 0) :: H)) as Hok1.
  { split; [split; [done | done |] | done | done |]; [| rewrite (f_count _ _ _ Hf1), Hnr; apply card_same; intros q;
      by rewrite Hq1]. rewrite Forall_forall in *. intros u Hu. eapply typed_frame; [exact Hf1 | | by apply Ht].
    intros ->. by apply (Hneq u). }
  assert (forall P H' q, memory z1 P H' q <-> memory z P H' q) as Hm1 by (intros P H' q; unfold memory; by rewrite Hq1).
  assert (forall z', keeps (is_free z') z1 z' -> keeps (fun q => q = p \/ is_free z' q) z z') as Hkk.
  { intros z' Hkeep q Hq. rewrite Hkeep by tauto. apply (f_map _ _ _ Hf1). intros <-. tauto. }
  destruct (Z.eqb_spec t MIGRATE_ISOLATE) as [Et | Hne].
  { destruct (free_block_ok z1 pcp p 0 t H Hok1 Htype) as (z' & -> & Hok' & Hkeep & Hmem). exists pcp, z'.
    rewrite run_bind_Ret. split; [done |]. split; [done |]. split; [by apply Hkk |]. intros q. by rewrite Hmem. }
  set (mt := if t >=? MIGRATE_PCPTYPES then MIGRATE_MOVABLE else t).
  assert (0 <= mt < MIGRATE_PCPTYPES) as Hmt by (unfold mt; destruct (Z.geb_spec t MIGRATE_PCPTYPES); lia).
  destruct (proj2 (Hk mt) Hmt) as [l Hl]. rewrite Hl. cbn [of_option]. rewrite run_bind_Ret. cbn zeta.
  set (l' := if cold then l ++ [p] else p :: l).
  assert (l' ≡ₚ p :: l) as Pl by (unfold l'; destruct cold; [by rewrite <- Permutation_cons_append | done]).
  destruct pcp as [n hi ba ls]. cbn [lists count high batch] in *.
  destruct (put_ok z1 n hi ba ls mt l l' p H Hok1 ltac:(exists t; split; [done | lia]) Hmt Hl Pl) as (Hok2 & P2 & Hmem2).
  set (ls2 := <[mt := l']> ls) in *. destruct (Z.geb_spec (s32 (n + 1)) hi) as [Hge | Hlt].
  - pose proof Hok2 as [Hp2 Hc2 _ Hnr2]. cbn [lists count] in Hp2, Hc2.
    pose proof (s32_le (Z.of_nat (length (pcp_pages ls2))) ltac:(lia)) as Hle. rewrite P2 in Hle. rewrite P2 in Hc2.
    destruct (free_bulk_ok fuel ba (Pcp (s32 (n + 1)) hi ba ls2) z1 H Hp2) as (ls' & z' & -> & Hp' & [R1 R2 R3 R4 R5]);
      [cbn [lists]; rewrite P2; cbn [length] in *; lia | cbn [lists]; rewrite P2; simpl length; lia |].
    rewrite run_bind_Ret. cbn beta iota. cbn [lists count high batch] in *. do 2 eexists. split; [reflexivity |].
    split; [split; cbn [lists count high batch]; [done | | done |] | split].
    + rewrite R1, Hc2, <- P2, <- Z.add_opp_r, s32_add. f_equal.
    + rewrite (f_count _ _ _ R5), R2. cbn [mod_free_pages set_scan NR_FREE_PAGES]. rewrite Hnr2. done.
    + apply Hkk. exact (f_map _ _ _ R5).
    + intros q. rewrite <- Hm1, <- Hmem2. unfold memory. rewrite !holds_app. specialize (R3 q).
      change (is_free (mod_free_pages ba (set_scan 0 false z1))) with (is_free z1) in R3. tauto.
  - do 2 eexists. split; [reflexivity |]. split; [exact Hok2 |].
    split; [intros q Hq; apply (f_map _ _ _ Hf1); intros <-; tauto |]. cbn [lists]. intros q. by rewrite Hmem2.
Qed.

Lemma drain_ok fuel z pcp H : cpu_ok z pcp H -> fin - start < 2 ^ 31 -> (length (pcp_pages (lists pcp)) + 3 <= fuel)%nat ->
  exists pcp' z', drain_pages fuel pcp z = Ret (pcp', z') /\ pcp_pages (lists pcp') = [] /\ cpu_ok z' pcp' H /\
    keeps (is_free z') z z' /\
    forall q, memory z' [] H q <-> memory z (pcp_pages (lists pcp)) H q.
Proof.
  intros [Hp Hc Hb Hnr] Hsmall Hfuel. pose proof (owned_pages _ _ _ _ _ (o_owned _ _ (c_own _ _ _ Hp))) as Hlen.
  rewrite (swrap_small 32) in Hc by lia.
  unfold drain_pages. destruct (free_bulk_ok fuel (count pcp) pcp z H Hp) as (ls' & z' & -> & Hp' & [R1 R2 R3 R4 R5]);
    [lia | done |]. rewrite run_bind_Ret. do 2 eexists. split; [reflexivity |].
  assert (pcp_pages ls' = []) as E by (apply length_zero_iff_nil; lia). cbn [lists high batch]. split; [done |].
  split; [split; cbn [lists count high batch]; [done | by rewrite E | done |] | split; [exact (f_map _ _ _ R5) |]].
  - rewrite (f_count _ _ _ R5), R2. cbn [mod_free_pages set_scan NR_FREE_PAGES]. by rewrite Hnr.
  - intros q. unfold memory. rewrite !holds_app. specialize (R3 q). rewrite E in R3.
    change (is_free (mod_free_pages (count pcp) (set_scan 0 false z))) with (is_free z) in R3. tauto.
Qed.

End pcp.

End PagePcp.
