(* ===== verification/PageSystem.v ===== *)
(** * The buddy allocator: the system

    A zone, the lists of its CPUs and the blocks that the rest of the kernel
    has, with allocation, freeing and isolation in any order; the theorems on
    the allocator. *)
From stdpp Require Import relations.
From S2P Require Import Prelude PageAlloc PageBlocks PageZone PageQueue PagePcp.

Module PageSystem.
Import PageAlloc PageBlocks PageZone PageQueue PagePcp.

(** ** Steps *)

(** [used] are the blocks that have been allocated, by head and order. *)
Record system := System { zn : zone; pcps : gmap Z per_cpu_pages; used : list (Z * Z) }.

(** As the source demands, only blocks that are allocated are freed, once; who has a block may split it and write to the private
    number of its pages.  The type of the block that is freed was read before the lock is taken and may have changed since.
    Each step is what one CPU does while it holds the lock of the zone or, for its own lists, has interrupts off. *)
Inductive step (s : system) : system -> Prop :=
  | Step_alloc cpu pcp order mt cold r pcp' z' :
      pcps s !! cpu = Some pcp -> 0 <= order < MAX_ORDER -> 0 <= mt < MIGRATE_PCPTYPES ->
        buffered_rmqueue order mt cold pcp (zn s) = Ret (r, pcp', z') ->
      step s (System z' (<[cpu := pcp']> (pcps s)) (got order r ++ used s))
  | Step_free cpu pcp p order mt H z' :
      pcps s !! cpu = Some pcp -> used s ≡ₚ (p, order) :: H -> 0 <= mt < MIGRATE_TYPES ->
        free_one_page p order mt (zn s) = Ret z' ->
      step s (System z' (pcps s) H)
  | Step_free_hot cpu pcp p cold H fuel pcp' z' :
      pcps s !! cpu = Some pcp -> used s ≡ₚ (p, 0) :: H -> (length (pcp_pages (lists pcp)) + 4 <= fuel)%nat ->
        free_hot_cold_page fuel p cold pcp (zn s) = Ret (pcp', z') ->
      step s (System z' (<[cpu := pcp']> (pcps s)) H)
  | Step_drain cpu pcp fuel pcp' z' :
      pcps s !! cpu = Some pcp -> (length (pcp_pages (lists pcp)) + 3 <= fuel)%nat ->
        drain_pages fuel pcp (zn s) = Ret (pcp', z') ->
      step s (System z' (<[cpu := pcp']> (pcps s)) (used s))
  | Step_split p order H : 0 <= order -> used s ≡ₚ (p, order + 1) :: H ->
    step s (System (zn s) (pcps s) ((p, order) :: (p + 2 ^ order, order) :: H))
  | Step_write p x z' : holds (used s) p -> set_page_private p x (zn s) = Ret z' -> step s (System z' (pcps s) (used s))
  | Step_isolate p movable r z' :
      zone_start_pfn (zn s) <= p < zone_start_pfn (zn s) + spanned_pages (zn s) ->
        set_migratetype_isolate p movable (zn s) = Ret (r, z') -> step s (System z' (pcps s) (used s))
  | Step_unset p z' :
      zone_start_pfn (zn s) <= p < zone_start_pfn (zn s) + spanned_pages (zn s) ->
        unset_migratetype_isolate p (zn s) = Ret z' -> step s (System z' (pcps s) (used s)).

Section system.
Context (zid start fin : Z).

(** The pages in the lists of all CPUs. *)
Definition cpu_pages (m : gmap Z per_cpu_pages) : list Z := concat ((fun e => pcp_pages (lists e.2)) <$> map_to_list m).

Record system_ok (s : system) : Prop := SystemOk {
  y_own : own zid start fin (zn s) (at_order 0 (cpu_pages (pcps s)) ++ used s);
  y_typed : Forall (typed zid (zn s)) (cpu_pages (pcps s));
  y_keys : forall c pcp, pcps s !! c = Some pcp -> forall mt, is_Some (lists pcp !! mt) <-> 0 <= mt < MIGRATE_PCPTYPES;
  y_count : forall c pcp, pcps s !! c = Some pcp -> count pcp = s32 (Z.of_nat (length (pcp_pages (lists pcp)))) /\
    1 <= batch pcp <= Z.max 1 (high pcp);
  y_small : fin - start < 2 ^ 31;
  y_free : NR_FREE_PAGES (zn s) = card start fin (is_free zid (zn s))
}.

(** The pages of the system, whoever has them. *)
Definition all_memory (s : system) (q : Z) : Prop := memory zid (zn s) (cpu_pages (pcps s)) (used s) q.

Lemma cpu_pages_at m c pcp : m !! c = Some pcp -> exists rest, cpu_pages m ≡ₚ pcp_pages (lists pcp) ++ rest /\
  forall pcp', cpu_pages (<[c := pcp']> m) ≡ₚ pcp_pages (lists pcp') ++ rest.
Proof.
  intros Hm. exists (cpu_pages (delete c m)).
  assert (forall x, cpu_pages (<[c := x]> (delete c m)) ≡ₚ pcp_pages (lists x) ++ cpu_pages (delete c m)) as Hx.
  { intros x. unfold cpu_pages. rewrite map_to_list_insert by apply lookup_delete_eq. done. }
  split; [rewrite <- Hx, insert_delete_id by done; done | intros x; by rewrite <- Hx, insert_delete_eq].
Qed.

(** The view of one CPU: the pages of the others are blocks like all others. *)
Lemma focus s c pcp : system_ok s -> pcps s !! c = Some pcp ->
  exists rest, cpu_ok zid start fin (zn s) pcp (at_order 0 rest ++ used s) /\ Forall (typed zid (zn s)) rest /\
    cpu_pages (pcps s) ≡ₚ pcp_pages (lists pcp) ++ rest /\
    (forall q, all_memory s q <-> memory zid (zn s) (pcp_pages (lists pcp)) (at_order 0 rest ++ used s) q) /\
    forall z' pcp' H, cpu_ok zid start fin z' pcp' (at_order 0 rest ++ H) -> Forall (typed zid z') rest ->
      system_ok (System z' (<[c := pcp']> (pcps s)) H) /\
        forall q, all_memory (System z' (<[c := pcp']> (pcps s)) H) q <->
        memory zid z' (pcp_pages (lists pcp')) (at_order 0 rest ++ H) q.
Proof.
  intros [Ho Ht Hk Hc Hsmall Hf] Hp. destruct (cpu_pages_at _ _ _ Hp) as (rest & P & P'). exists rest.
  assert (forall P0 P1 P2 H, P0 ≡ₚ P1 ++ P2 -> at_order 0 P0 ++ H ≡ₚ at_order 0 P1 ++ at_order 0 P2 ++ H) as Hperm.
  { intros P0 P1 P2 H E. rewrite (at_order_perm 0 _ _ E). unfold at_order. by rewrite fmap_app, app_assoc. }
  rewrite P in Ht. apply Forall_app in Ht as [Ht1 Ht2].
  split; [split; [split; [by eapply Hk | eapply own_perm; [by apply Hperm | done] | done] | by eapply Hc | by eapply Hc
    | done] |].
  split; [done |]. split; [done |]. split; [intros q; unfold all_memory, memory;
    by rewrite (holds_perm _ _ q (Hperm _ _ _ _ P)) |].
  intros z' pcp' H [[Hk' Ho' Ht'] Hc' Hb' Hf'] Hr. specialize (P' pcp'). split; [split; cbn [zn pcps used] |].
  - eapply own_perm; [symmetry; by apply Hperm | done].
  - rewrite P', Forall_app. done.
  - intros c' x [[<- <-] | [_ Hx]]%lookup_insert_Some; [done | by eapply Hk].
  - intros c' x [[<- <-] | [_ Hx]]%lookup_insert_Some; [done | by eapply Hc].
  - done.
  - done.
  - intros q. unfold all_memory, memory. cbn [zn pcps used]. by rewrite (holds_perm _ _ q (Hperm _ _ _ _ P')).
Qed.

(** Pages of other CPUs keep their type as long as they are not written to. *)
Lemma typed_keeps (S : Z -> Prop) z z' l : keeps S z z' -> (forall u, u ∈ l -> ~ S u) -> Forall (typed zid z) l ->
  Forall (typed zid z') l.
Proof.
  intros Hk Hn. rewrite !Forall_forall. intros Ht u Hu. destruct (Ht u Hu) as (x & E & Hx). exists x. by rewrite (Hk u (Hn u Hu)).
Qed.

Lemma cpu_ok_perm z pcp H H' : H ≡ₚ H' -> cpu_ok zid start fin z pcp H -> cpu_ok zid start fin z pcp H'.
Proof.
  intros P [[Hk Ho Ht] ? ? ?]. split; [split; [done | eapply own_perm; [| exact Ho]; by rewrite P | done] | done | done | done].
Qed.

Lemma memory_perm z Q H H' q : H ≡ₚ H' -> memory zid z Q H q <-> memory zid z Q H' q.
Proof. intros P. unfold memory. rewrite (holds_perm _ (at_order 0 Q ++ H') q); [done | by rewrite P]. Qed.

Lemma rest_not_free z pcp rest H u : cpu_ok zid start fin z pcp (at_order 0 rest ++ H) -> u ∈ rest -> ~ is_free zid z u.
Proof.
  intros Hok Hu. apply (owned_disjoint _ _ _ _ (u, 0) u
    (o_owned _ _ _ _ _ (c_own _ _ _ _ _ _ (u_pages _ _ _ _ _ _ Hok)))); [| by apply block_head].
  apply elem_of_app. right. apply elem_of_app. left. apply list_elem_of_fmap. by exists u.
Qed.

Definition kept (s s' : system) : Prop := system_ok s' /\ forall q, all_memory s' q <-> all_memory s q.

Lemma alloc_step s cpu pcp order mt cold r pcp' z' : system_ok s -> pcps s !! cpu = Some pcp ->
  0 <= order < MAX_ORDER -> 0 <= mt < MIGRATE_PCPTYPES ->
  buffered_rmqueue order mt cold pcp (zn s) = Ret (r, pcp', z') ->
    kept s (System z' (<[cpu := pcp']> (pcps s)) (got order r ++ used s)).
Proof.
  intros H Hp Ho Hmt E. destruct (focus s cpu pcp H Hp) as (rest & Hok & Ht & _ & Hmem & Hback).
  destruct (buffered_ok zid start fin (zn s) pcp order mt cold _ Hok Ho Hmt)
    as (r2 & p2 & z2 & E2 & Hok' & Hkeep & Hmem'). rewrite E in E2. injection E2 as <- <- <-.
  assert (got order r ++ at_order 0 rest ++ used s ≡ₚ at_order 0 rest ++ got order r ++ used s) as P
    by (by rewrite Permutation_app_swap_app).
  destruct (Hback z' pcp' (got order r ++ used s)) as [Hs Hm]; [by eapply cpu_ok_perm | eapply typed_keeps;
    [exact Hkeep | | done]; intros u Hu; by eapply rest_not_free |].
  split; [done |]. intros q. by rewrite Hm, Hmem, <- Hmem', (memory_perm _ _ _ _ q P).
Qed.

Lemma free_step s cpu pcp p order mt H z' : system_ok s -> pcps s !! cpu = Some pcp -> used s ≡ₚ (p, order) :: H ->
  0 <= mt < MIGRATE_TYPES ->
  free_one_page p order mt (zn s) = Ret z' -> kept s (System z' (pcps s) H).
Proof.
  intros Hs Hp PH Hmt E. destruct (focus s cpu pcp Hs Hp) as (rest & Hok & Ht & _ & Hmem & Hback).
  assert (at_order 0 rest ++ used s ≡ₚ (p, order) :: at_order 0 rest ++ H) as P by (by rewrite PH, Permutation_middle).
  pose proof (cpu_ok_perm _ _ _ _ P Hok) as Hok1.
  destruct (free_block_ok zid start fin (zn s) pcp p order mt _ Hok1 Hmt) as (z2 & E2 & Hok' & Hkeep & Hmem').
  rewrite E in E2. injection E2 as <-. destruct (Hback z' pcp H Hok') as [Hs' Hm];
    [eapply typed_keeps; [exact Hkeep | | done]; intros u Hu; by eapply rest_not_free |].
  rewrite insert_id in Hs', Hm by done. split; [done |]. intros q. by rewrite Hm, Hmem', Hmem, (memory_perm _ _ _ _ q P).
Qed.

Lemma free_hot_step s cpu pcp p cold H fuel pcp' z' : system_ok s -> pcps s !! cpu = Some pcp ->
  used s ≡ₚ (p, 0) :: H -> (length (pcp_pages (lists pcp)) + 4 <= fuel)%nat ->
  free_hot_cold_page fuel p cold pcp (zn s) = Ret (pcp', z') -> kept s (System z' (<[cpu := pcp']> (pcps s)) H).
Proof.
  intros Hs Hp PH Hfuel E. destruct (focus s cpu pcp Hs Hp) as (rest & Hok & Ht & _ & Hmem & Hback).
  assert (at_order 0 rest ++ used s ≡ₚ (p, 0) :: at_order 0 rest ++ H) as P by (by rewrite PH, Permutation_middle).
  pose proof (cpu_ok_perm _ _ _ _ P Hok) as Hok1.
  destruct (free_hot_ok zid start fin fuel (zn s) pcp p cold _ Hok1 Hfuel) as (pcp2 & z2 & E2 & Hok' & Hkeep & Hmem').
  rewrite E in E2. injection E2 as <- <-.
  destruct (Hback z' pcp' H Hok') as [Hs' Hm].
  { eapply typed_keeps; [exact Hkeep | | done]. intros u Hu [-> | Hf]; [| by eapply rest_not_free].
    apply (owned_apart _ _ _ _ _ (p, 0) (p, 0) p (o_owned _ _ _ _ _ (c_own _ _ _ _ _ _ (u_pages _ _ _ _ _ _ Hok1))));
      [| by apply block_head..].
    apply elem_of_app. right. apply elem_of_app. left. apply list_elem_of_fmap. by exists p. }
  split; [done |]. intros q. by rewrite Hm, Hmem', Hmem, (memory_perm _ _ _ _ q P).
Qed.

Lemma drain_step s cpu pcp fuel pcp' z' : system_ok s -> pcps s !! cpu = Some pcp ->
  (length (pcp_pages (lists pcp)) + 3 <= fuel)%nat ->
  drain_pages fuel pcp (zn s) = Ret (pcp', z') -> kept s (System z' (<[cpu := pcp']> (pcps s)) (used s)).
Proof.
  intros Hs Hp Hfuel E. destruct (focus s cpu pcp Hs Hp) as (rest & Hok & Ht & _ & Hmem & Hback).
  destruct (drain_ok zid start fin fuel (zn s) pcp _ Hok (y_small _ Hs) Hfuel)
    as (pcp2 & z2 & E2 & En & Hok' & Hkeep & Hmem'). rewrite E in E2. injection E2 as <- <-.
  destruct (Hback z' pcp' (used s) Hok') as [Hs' Hm]; [eapply typed_keeps; [exact Hkeep | | done]; intros u Hu;
    by eapply rest_not_free |].
  split; [done |]. intros q. by rewrite Hm, En, Hmem', Hmem.
Qed.

Lemma split_step s p order H : system_ok s -> 0 <= order -> used s ≡ₚ (p, order + 1) :: H ->
  kept s (System (zn s) (pcps s) ((p, order) :: (p + 2 ^ order, order) :: H)).
Proof.
  intros [[Hz Hf Ho] Ht Hk Hc Hsmall Hfree] Hord P. set (C := at_order 0 (cpu_pages (pcps s))) in *.
  assert (forall X, C ++ X ++ H ≡ₚ X ++ C ++ H) as Hswap by (intros X; by rewrite Permutation_app_swap_app).
  pose proof (Hswap [(p, order + 1)]) as P1. pose proof (Hswap [(p, order); (p + 2 ^ order, order)]) as P2.
  split; [split; cbn [zn pcps used]; [split; [done | done |] | done..] |].
  - eapply owned_perm; [symmetry; exact P2 |]. apply owned_split; [done |]. eapply owned_perm; [| exact Ho]. by rewrite P.
  - intros q. unfold all_memory, memory. cbn [zn pcps used]. fold C.
    rewrite (holds_perm (C ++ used s) _ q (Permutation_app_head C P)), (holds_perm _ _ q P1), (holds_perm _ _ q P2).
    simpl. rewrite !holds_cons. cbn [fst snd].
    assert (block_of p (order + 1) q <-> block_of p order q \/ block_of (p + 2 ^ order) order q) as Hb
      by (unfold block_of; rewrite pow_S by done; pose proof (pow_pos order Hord); lia). tauto.
Qed.

Lemma write_step s p x z' : system_ok s -> holds (used s) p -> set_page_private p x (zn s) = Ret z' ->
  kept s (System z' (pcps s) (used s)).
Proof.
  intros [Ho Ht Hk Hc Hsmall Hf] (b & Hb & Hq) E.
  assert (b ∈ at_order 0 (cpu_pages (pcps s)) ++ used s) as Hin by (apply elem_of_app; by right).
  destruct (owned_placed _ _ _ _ _ (o_owned _ _ _ _ _ Ho) Hin) as (_ & _ & Hs & He).
  assert (start <= p < fin) as Hp by (unfold block_of in Hq; lia).
  destruct (private_own zid start fin (zn s) _ p x Ho Hp) as (z2 & E2 & Ho' & Hq' & Hfr & _);
    [by eapply (owned_disjoint _ _ _ _ b), Hq; [apply Ho |] |]. rewrite E in E2. injection E2 as <-.
  split; [split; cbn [zn pcps used]; try done |].
  - eapply typed_keeps; [exact (f_map _ _ _ Hfr) | | done]. intros u Hu <-. apply list_elem_of_split in Hu as (l1 & l2 & El).
    apply (owned_apart start fin (at_order 0 l1) (at_order 0 l2 ++ used s) (is_free zid (zn s)) (p, 0) b p);
      [| apply elem_of_app; right; apply elem_of_app; by right | by apply block_head | done].
    pose proof (o_owned _ _ _ _ _ Ho) as Hown. rewrite El in Hown. unfold at_order in *.
    rewrite fmap_app, fmap_cons, <- app_assoc in Hown. done.
  - rewrite (f_count _ _ _ Hfr), Hf. apply card_same. intros q. by rewrite Hq'.
  - intros q. unfold all_memory, memory. cbn [zn pcps used]. by rewrite Hq'.
Qed.

Lemma move_relisted z p mt : zone_ok zid start fin z -> flags_ok z -> 0 <= mt < MIGRATE_TYPES -> start <= p < fin ->
  exists n z', move_freepages_block p mt (set_pageblock_migratetype p mt z) = Ret (n, z') /\ relisted zid z z'.
Proof.
  intros [[H1 H2 H3] Hc] Hf Hmt Hp. destruct (move_block_ok zid start fin (set_pageblock_migratetype p mt z) p mt Hmt
    H1 ltac:(by destruct H3) Hp) as (n & L & -> & HL & HT).
  exists n. eexists. split; [reflexivity |]. split; try done. intros _. by apply set_type_flags.
Qed.

Lemma relisted_step s z' : system_ok s -> relisted zid (zn s) z' -> kept s (System z' (pcps s) (used s)).
Proof.
  intros [[Hz Hf Ho] Ht Hk Hc Hsmall Hfree] R.
  assert (forall q, is_free zid z' q <-> is_free zid (zn s) q) as Hq by (intros q; by apply relisted_free).
  split; [split; cbn [zn pcps used]; try done |].
  - split; [by eapply relisted_ok | by apply R |]. eapply owned_ext; [| exact Ho]. intros q. by rewrite Hq.
  - apply (typed_keeps (fun _ => False) (zn s)); [intros q _; by rewrite (rl_map _ _ _ R) | by intros u _ [] | done].
  - rewrite (rl_count _ _ _ R), Hfree. apply card_same. intros q. by rewrite Hq.
  - intros q. unfold all_memory, memory. cbn [zn pcps used]. by rewrite Hq.
Qed.

Lemma step_kept s s' : system_ok s -> step s s' -> kept s s'.
Proof.
  intros H Hst. pose proof (o_zone _ _ _ _ _ (y_own _ H)) as Hz. pose proof (o_flags _ _ _ _ _ (y_own _ H)) as Hf.
  pose proof (z_map _ _ _ _ (zo_linked _ _ _ _ Hz)) as Hm.
  destruct Hst as [cpu pcp order mt cold r pcp' z' Hp Ho Hmt E | cpu pcp p order mt H' z' Hp P Hmt E
    | cpu pcp p cold H' fuel pcp' z' Hp P Hfu E | cpu pcp fuel pcp' z' Hp Hfu E | p order H' Ho P | p x z' Hh E
    | p movable r z' Hp E | p z' Hp E].
  - by eapply alloc_step.
  - by eapply free_step.
  - by eapply free_hot_step.
  - by eapply drain_step.
  - by eapply split_step.
  - by eapply write_step.
  - rewrite (m_fin _ _ _ _ Hm), (m_start _ _ _ _ Hm) in Hp. unfold set_migratetype_isolate in E.
    case_match; [injection E as _ <-; by destruct s |].
    destruct (move_relisted (zn s) p MIGRATE_ISOLATE Hz Hf ltac:(lia) Hp) as (n & z2 & E2 & R).
    rewrite E2, run_bind_Ret in E. injection E as _ <-. by apply relisted_step.
  - rewrite (m_fin _ _ _ _ Hm), (m_start _ _ _ _ Hm) in Hp. unfold unset_migratetype_isolate in E.
    case_match; [injection E as <-; by destruct s |].
    destruct (move_relisted (zn s) p MIGRATE_MOVABLE Hz Hf ltac:(lia) Hp) as (n & z2 & E2 & R).
    rewrite E2, run_bind_Ret in E. injection E as <-. by apply relisted_step.
Qed.

(** ** Boot *)

(** Before the boot allocator frees its memory: the zone has no free page, and [used] are the blocks to be freed. *)
Record boot (s : system) : Prop := Boot {
  t_zone : exists z, zn s = zone_init_free_lists z /\ map_ok zid start fin z /\ flags_ok z /\ NR_FREE_PAGES z = 0 /\
    forall p pg, mem_map z !! p = Some pg -> page_zone_id pg = zid -> PageBuddy pg = false;
  t_small : fin - start < 2 ^ 31;
  t_used : owned start fin (used s) (fun _ => False);
  t_cpus : forall c pcp, pcps s !! c = Some pcp -> count pcp = 0 /\ 1 <= batch pcp <= Z.max 1 (high pcp) /\
    forall mt, lists pcp !! mt = if bool_decide (0 <= mt < MIGRATE_PCPTYPES) then Some [] else None
}.

Lemma empty_lists z k : free_list (zone_init_free_lists z) !! k = if decide (0 <= k.1 < MAX_ORDER /\
  0 <= k.2 < MIGRATE_TYPES) then Some [] else None.
Proof.
  unfold zone_init_free_lists. cbn [set_lists free_list]. case_decide as Hk.
  - apply elem_of_list_to_map; [apply (bool_decide_unpack _); vm_compute; exact I |]. apply list_elem_of_bind.
    exists k.1. split; [| apply elem_of_seqZ; lia].
    apply list_elem_of_bind. exists k.2. split; [by destruct k; left | apply elem_of_seqZ; lia].
  - apply not_elem_of_list_to_map_1. intros ((k' & l) & -> & Hin)%list_elem_of_fmap.
    apply list_elem_of_bind in Hin as (o & Hin & Ho%elem_of_seqZ).
    apply list_elem_of_bind in Hin as (t & [= -> _]%list_elem_of_singleton & Ht%elem_of_seqZ).
    apply Hk. cbn. lia.
Qed.

Lemma empty_nr z o : 0 <= o < MAX_ORDER -> nr_free (zone_init_free_lists z) !! o = Some 0.
Proof.
  intros Ho. cbn [zone_init_free_lists set_lists set_nr nr_free].
  apply elem_of_list_to_map; [apply (bool_decide_unpack _); vm_compute; exact I |]. apply list_elem_of_fmap. exists o.
  split; [done |]. apply elem_of_seqZ. lia.
Qed.

Lemma boot_zone z : map_ok zid start fin z -> (forall p pg, mem_map z !! p = Some pg -> page_zone_id pg = zid ->
  PageBuddy pg = false) ->
  zone_ok zid start fin (zone_init_free_lists z) /\ forall q, ~ is_free zid (zone_init_free_lists z) q.
Proof.
  intros Hm Hb. assert (free_blocks zid (zone_init_free_lists z) = ∅) as Eb.
  { apply map_eq. intros p. rewrite lookup_empty. unfold free_blocks. rewrite lookup_omap.
    cbn [zone_init_free_lists set_lists set_nr mem_map]. destruct (mem_map z !! p) as [pg|] eqn:E; [| done]. cbn.
    unfold block_order.
    destruct (Z.eqb_spec (page_zone_id pg) zid) as [Hz | ?]; [by rewrite (Hb p pg E Hz) | by rewrite andb_false_r]. }
  split; [split; [split |]; rewrite ?Eb |].
  - split.
    + intros k. rewrite empty_lists. case_decide; split; [done | by eexists | by intros [] | done].
    + intros k l p. rewrite empty_lists. case_decide; [| done]. by intros [= <-] ?%not_elem_of_nil.
    + done.
    + intros k l. rewrite empty_lists. case_decide; [| done]. intros [= <-]. constructor.
    + intros k k' l l' p. rewrite empty_lists. case_decide; [| done]. by intros [= <-] _ ?%not_elem_of_nil.
  - intros o Ho. rewrite empty_nr by done.
    assert (forall mt, list_len (free_list (zone_init_free_lists z)) o mt = 0) as Hl by (intros mt; unfold list_len;
      rewrite empty_lists; by case_decide). unfold total. by rewrite !Hl.
  - by destruct Hm.
  - split; intros p o; by rewrite lookup_empty.
  - intros q (p & o & E & _). by rewrite Eb in E.
Qed.

Lemma no_pages m : (forall c pcp, m !! c = Some pcp -> pcp_pages (lists pcp) = []) -> cpu_pages m = [].
Proof.
  intros H. unfold cpu_pages. assert (Forall (fun e => pcp_pages (lists e.2) = []) (map_to_list m)) as Hf
    by (apply Forall_forall; intros [c x] Hin%elem_of_map_to_list; by eapply H).
  induction Hf as [|e l He _ IH]; [done |]. rewrite fmap_cons. cbn [concat]. by rewrite He, IH.
Qed.

Lemma boot_ok s : boot s -> system_ok s /\ forall q, all_memory s q <-> holds (used s) q.
Proof.
  intros [(z & Ez & Hm & Hf & Hn & Hb) Hsmall Hu Hc]. destruct (boot_zone z Hm Hb) as [Hz Hnf]. rewrite <- Ez in Hz, Hnf.
  assert (forall c pcp, pcps s !! c = Some pcp -> pcp_pages (lists pcp) = []) as Hp by (intros c pcp E;
    destruct (Hc c pcp E) as (_ & _ & Hl); unfold pcp_pages; by rewrite !Hl).
  rewrite <- (app_nil_l (used s)). assert (cpu_pages (pcps s) = []) as Hcp by (by apply no_pages). split; [split; rewrite ?Hcp |].
  - split; [done | by rewrite Ez | simpl]. eapply owned_ext; [| exact Hu]. intros q. split; [done | apply Hnf].
  - done.
  - intros c pcp E mt. destruct (Hc c pcp E) as (_ & _ & Hl). rewrite Hl.
    case_bool_decide; split; [done | by eexists | by intros [] | done].
  - intros c pcp E. rewrite (Hp c pcp E). destruct (Hc c pcp E) as (-> & ? & _). done.
  - done.
  - rewrite Ez. cbn [zone_init_free_lists set_lists set_nr NR_FREE_PAGES]. rewrite Hn. unfold card.
    rewrite filter_nothing; [done |]. intros q _. rewrite <- Ez. apply Hnf.
  - intros q. unfold all_memory, memory. rewrite Hcp. simpl. specialize (Hnf q). tauto.
Qed.

Definition reachable (s0 s : system) : Prop := boot s0 /\ rtc step s0 s.

Lemma page_reachable_ok s0 s : reachable s0 s -> system_ok s /\ forall q, all_memory s q <-> holds (used s0) q.
Proof.
  intros [Hb Hr]. destruct (boot_ok s0 Hb) as [H0 M0].
  assert (kept s0 s) as [H M]; [| split; [done |]; intros q; by rewrite M, M0]. clear M0 Hb.
  induction Hr as [|x y z Hxy _ IH]; [by split |]. destruct (step_kept x y H0 Hxy) as [Hy My].
  destruct (IH Hy) as [Hz Mz]. split; [done |]. intros q. by rewrite Mz, My.
Qed.

Lemma reachable_zone s0 s : reachable s0 s -> zone_ok zid start fin (zn s).
Proof. intros H. by destruct (page_reachable_ok s0 s H) as [[[? _ _] _ _ _ _] _]. Qed.

End system.

(** ** A zone of 1024 pages *)

Lemma lookup_range (pg : page) a n q : (list_to_map ((fun p => (p, pg)) <$> seqZ a n) : gmap Z page) !! q = if decide
  (a <= q < a + n) then Some pg else None.
Proof.
  case_decide as Hq.
  - apply elem_of_list_to_map; [rewrite <- list_fmap_compose; cbn; rewrite list_fmap_id; apply NoDup_seqZ |].
    apply list_elem_of_fmap. exists q. split; [done |]. by apply elem_of_seqZ.
  - apply not_elem_of_list_to_map_1. rewrite <- list_fmap_compose. cbn. rewrite list_fmap_id. intros H%elem_of_seqZ. lia.
Qed.

Definition example_zone : zone := Zone (list_to_map ((fun p => (p, Page false 0 7)) <$> seqZ 1024 1024)) ∅ ∅ {[2 :=
  MIGRATE_MOVABLE; 3 := MIGRATE_MOVABLE]} 1024 1024 0 0 false false.
Definition example_pcp : per_cpu_pages := Pcp 0 6 2 (list_to_map [(0, []); (1, []); (2, [])]).
Definition example_0 : system := System (zone_init_free_lists example_zone) {[0 := example_pcp]} [(1024, 10)].
Definition example_2 : zone := match free_one_page 1024 10 MIGRATE_MOVABLE (zn example_0) with Ret z => z | _ => zn example_0 end.
Definition example_1 : system := System example_2 (pcps example_0) [].
Definition example_isolated : zone := match set_migratetype_isolate 1536 false example_2 with Ret (_, z) => z
  | _ => example_2 end.

Lemma example_boot : boot 7 1024 2048 example_0.
Proof.
  split.
  - exists example_zone. split; [done |]. split; [split; cbn [example_zone zone_start_pfn spanned_pages mem_map];
      [done | done | done | |] | split; [intros b mt; cbn [example_zone pageblock_flags];
      intros [[_ <-] | [_ [_ <-]%lookup_singleton_Some]]%lookup_insert_Some; lia |]; split; [done |]].
    + intros p. rewrite lookup_range. case_decide; split; [intros _; by eexists | lia | lia | by intros (pg & ? & _)].
    + intros p q. rewrite !lookup_range. case_decide as Hp; [| by intros []]. intros _ Hpq.
      rewrite decide_True; [by eexists |]. change (2 ^ (MAX_ORDER - 1)) with 1024 in Hpq.
      pose proof (Z.div_mod p 1024 ltac:(done)). pose proof (Z.mod_pos_bound p 1024 ltac:(done)).
      pose proof (Z.div_mod q 1024 ltac:(done)). pose proof (Z.mod_pos_bound q 1024 ltac:(done)). lia.
    + intros p pg. cbn [example_zone mem_map]. rewrite lookup_range. case_decide; [| done]. by intros [= <-] _.
  - done.
  - split; [split; [done |]; split; [by exists 1 | done] |]. split; [by intros q _ [] | done].
  - intros c pcp. cbn [example_0 pcps]. intros [<- <-]%lookup_singleton_Some. cbn [example_pcp count batch high lists].
    split; [done |]. split; [lia |]. intros mt. case_bool_decide as Hmt.
    + assert (mt = 0 \/ mt = 1 \/ mt = 2) as [-> | [-> | ->]] by lia; reflexivity.
    + apply not_elem_of_list_to_map_1. intros Hin. apply Hmt. cbn in Hin. rewrite !elem_of_cons in Hin.
      destruct Hin as [-> | [-> | [-> | Hin]]]; [lia.. | by apply not_elem_of_nil in Hin].
Qed.

Lemma example_free : free_one_page 1024 10 MIGRATE_MOVABLE (zn example_0) = Ret example_2.
Proof.
  assert (match free_one_page 1024 10 MIGRATE_MOVABLE (zn example_0) with Ret _ => true | _ => false end = true) as Hr
    by (vm_compute; reflexivity).
  unfold example_2. destruct (free_one_page 1024 10 MIGRATE_MOVABLE (zn example_0));
    [reflexivity | discriminate Hr | discriminate Hr].
Qed.

Lemma example_isolate : set_migratetype_isolate 1536 false example_2 = Ret (0, example_isolated).
Proof.
  assert (match set_migratetype_isolate 1536 false example_2 with Ret (r, _) => r =? 0 | _ => false end = true) as Hr
    by (vm_compute; reflexivity).
  unfold example_isolated. destruct (set_migratetype_isolate 1536 false example_2) as [[r z]| |];
    [apply Z.eqb_eq in Hr; rewrite Hr; reflexivity | discriminate Hr | discriminate Hr].
Qed.

Lemma example_reachable : reachable 7 1024 2048 example_0 example_1.
Proof.
  split; [exact example_boot |]. apply rtc_once.
  exact (Step_free example_0 0 example_pcp 1024 10 MIGRATE_MOVABLE [] example_2 eq_refl (Permutation_refl _) ltac:(lia)
    example_free).
Qed.

(** ** Properties *)

(** C6: in every state that allocation, freeing, isolation and writes to allocated pages can reach on any number of CPUs, the free
    lists hold each free block of its order exactly once and are counted right, blocks are aligned and disjoint, two free buddies
    are always merged, no page is free, in a list of a CPU and allocated at the same time or twice, NR_FREE_PAGES is
    the number of free pages, and no page is lost. *)
Theorem page_system_invariant zid start fin s0 s :
  reachable zid start fin s0 s ->
  coalesced start fin (free_blocks zid (zn s)) /\
  (forall p o, free_blocks zid (zn s) !! p = Some o <-> exists mt l, free_list (zn s) !! (o, mt) = Some l /\ p ∈ l) /\
  (forall o, 0 <= o < MAX_ORDER -> nr_free (zn s) !! o = Some (u64 (total (free_list (zn s)) o))) /\
  owned start fin (at_order 0 (cpu_pages (pcps s)) ++ used s) (is_free zid (zn s)) /\
  NR_FREE_PAGES (zn s) = card start fin (is_free zid (zn s)) /\
  forall q, is_free zid (zn s) q \/ holds (at_order 0 (cpu_pages (pcps s)) ++ used s) q <-> holds (used s0) q.
Proof.
  intros H. destruct (page_reachable_ok _ _ _ _ _ H) as [[[[[HL Hnr Hmap] Hc] Hf Ho] Ht Hk Hcnt Hfree] Hm]. split; [done |].
  split; [intros p o; split; [apply HL | intros (mt & l & E & Hp); by apply (l_in _ _ HL (o, mt) l)] |].
  split; [done |]. split; [done |]. split; [done | exact Hm].
Qed.

Lemma page_system_invariant_witness : coalesced 1024 2048 (free_blocks 7 (zn example_1)) /\
  NR_FREE_PAGES (zn example_1) = card 1024 2048 (is_free 7 (zn example_1)).
Proof.
  destruct (page_system_invariant 7 1024 2048 example_0 example_1 example_reachable) as (H1 & _ & _ & _ & H2 & _).
  exact (conj H1 H2).
Defined.

(** C14: in every reachable state __rmqueue returns an aligned block of the order all of whose pages are free, takes
    exactly these pages from the free ones and leaves the zone in order,
    whatever it has to split, move to another migrate type or steal; it fails only if no list but the isolated ones has
    a block of that order or more, and then changes nothing. *)
Theorem page_alloc_correct zid start fin s0 s order mt :
  reachable zid start fin s0 s -> 0 <= order < MAX_ORDER -> 0 <= mt < MIGRATE_PCPTYPES ->
  exists r z', __rmqueue order mt (zn s) = Ret (r, z') /\ zone_ok zid start fin z' /\
    match r with
    | Some p => (2 ^ order | p) /\ start <= p /\ p + 2 ^ order <= fin /\ (forall q, block_of p order q -> is_free zid (zn s) q) /\
                forall q, is_free zid z' q <-> is_free zid (zn s) q /\ ~ block_of p order q
    | None => z' = zn s /\ forall o mt, order <= o < MAX_ORDER -> 0 <= mt < MIGRATE_ISOLATE ->
      free_list (zn s) !! (o, mt) = Some []
    end.
Proof.
  intros H Ho Hmt. destruct (rmqueue_ok zid start fin (zn s) order mt (reachable_zone _ _ _ _ _ H) Ho Hmt)
    as (r & z' & E & Hz' & Hr). exists r, z'. split; [done |]. split; [done |].
  destruct r as [p|]; [| done]. destruct Hr as ((_ & Ha & Hs & Hf) & Hin & Hq & _). done.
Qed.

Lemma page_alloc_correct_witness : exists r z', __rmqueue 3 2 (zn example_1) = Ret (r, z') /\ zone_ok 7 1024 2048 z'.
Proof.
  destruct (page_alloc_correct 7 1024 2048 example_0 example_1 3 2 example_reachable) as (r & z' & E & Hz & _);
    [lia | lia |]. exists r, z'. exact (conj E Hz).
Defined.

(** C15: a block that was allocated in any reachable state and is freed again, to the list of any migrate type, leaves
    exactly the free blocks there were before, whatever had to be split. *)
Theorem page_alloc_free_roundtrip zid start fin s0 s order mt mt' p z1 :
  reachable zid start fin s0 s -> 0 <= order < MAX_ORDER -> 0 <= mt < MIGRATE_PCPTYPES -> 0 <= mt' < MIGRATE_TYPES ->
    __rmqueue order mt (zn s) = Ret (Some p, z1) ->
  exists z2, __free_one_page p order mt' z1 = Ret z2 /\ zone_ok zid start fin z2 /\ free_blocks zid z2 = free_blocks zid (zn s).
Proof.
  intros H Ho Hmt Hmt' E. pose proof (reachable_zone _ _ _ _ _ H) as Hz.
  destruct (rmqueue_ok zid start fin (zn s) order mt Hz Ho Hmt) as (r & z' & E' & Hz1 & Hr). rewrite E in E'.
  injection E' as <- <-.
  destruct Hr as (Hp & Hin & Hq & _). destruct (free_one_ok zid start fin z1 p order mt' Hz1 Hp)
    as (z2 & E2 & Hz2 & Hq2 & _); [intros q Hb; rewrite Hq; tauto | done |].
  exists z2. split; [done |]. split; [done |]. apply (coalesced_unique start fin); [apply Hz2 | apply Hz |]. intros q.
  change (is_free zid z2 q <-> is_free zid (zn s) q). rewrite Hq2, Hq.
  specialize (Hin q). destruct (decide (block_of p order q)); tauto.
Qed.

Lemma page_alloc_free_roundtrip_witness :
  exists p z1 z2, __rmqueue 3 2 (zn example_1) = Ret (Some p, z1) /\ __free_one_page p 3 0 z1 = Ret z2 /\
    free_blocks 7 z2 = free_blocks 7 (zn example_1).
Proof.
  assert (match __rmqueue 3 2 (zn example_1) with Ret (Some _, _) => true | _ => false end = true) as Hr
    by (vm_compute; reflexivity).
  destruct (__rmqueue 3 2 (zn example_1)) as [[[p|] z1]| |] eqn:E; try discriminate Hr.
  destruct (page_alloc_free_roundtrip 7 1024 2048 example_0 example_1 3 2 0 p z1 example_reachable)
    as (z2 & E2 & _ & E3); [lia | lia | lia | exact E |].
  exists p, z1, z2. exact (conj eq_refl (conj E2 E3)).
Defined.

(** C16: in every reachable state a CPU that allocates a block, or frees one that is allocated, returns without a fault:
    the search and the splitting end, and the loop that frees pages in turn
    from the lists of the CPU never meets three empty lists; draining its lists leaves them empty. *)
Theorem page_paths_return zid start fin s0 s cpu pcp :
  reachable zid start fin s0 s -> pcps s !! cpu = Some pcp ->
  (forall order mt cold, 0 <= order < MAX_ORDER -> 0 <= mt < MIGRATE_PCPTYPES ->
    exists r pcp' z', buffered_rmqueue order mt cold pcp (zn s) = Ret (r, pcp', z')) /\
  (forall p order mt H, used s ≡ₚ (p, order) :: H -> 0 <= mt < MIGRATE_TYPES ->
    exists z', free_one_page p order mt (zn s) = Ret z') /\
  (forall p cold H fuel, used s ≡ₚ (p, 0) :: H -> (length (pcp_pages (lists pcp)) + 4 <= fuel)%nat ->
    exists pcp' z', free_hot_cold_page fuel p cold pcp (zn s) = Ret (pcp', z')) /\
  (forall fuel, (length (pcp_pages (lists pcp)) + 3 <= fuel)%nat ->
    exists pcp' z', drain_pages fuel pcp (zn s) = Ret (pcp', z') /\ pcp_pages (lists pcp') = []).
Proof.
  intros H Hp. destruct (page_reachable_ok _ _ _ _ _ H) as [Hs _].
  destruct (focus zid start fin s cpu pcp Hs Hp) as (rest & Hok & _).
  assert (forall p order H, used s ≡ₚ (p, order) :: H ->
    cpu_ok zid start fin (zn s) pcp ((p, order) :: at_order 0 rest ++ H)) as Hperm.
  { intros p order H' P. eapply cpu_ok_perm; [| exact Hok]. by rewrite P, Permutation_middle. }
  split; [| split; [| split]].
  - intros order mt cold Ho Hmt. destruct (buffered_ok zid start fin (zn s) pcp order mt cold _ Hok Ho Hmt)
      as (r & pcp' & z' & E & _). by exists r, pcp', z'.
  - intros p order mt H' P Hmt. destruct (free_block_ok zid start fin (zn s) pcp p order mt _ (Hperm _ _ _ P) Hmt)
      as (z' & E & _). by exists z'.
  - intros p cold H' fuel P Hf. destruct (free_hot_ok zid start fin fuel (zn s) pcp p cold _ (Hperm _ _ _ P) Hf)
      as (pcp' & z' & E & _). by exists pcp', z'.
  - intros fuel Hf. destruct (drain_ok zid start fin fuel (zn s) pcp _ Hok (y_small _ _ _ _ Hs) Hf)
      as (pcp' & z' & E & En & _). by exists pcp', z'.
Qed.

Lemma page_paths_return_witness : exists r pcp' z', buffered_rmqueue 0 2 false example_pcp (zn example_1) = Ret (r, pcp', z').
Proof.
  destruct (page_paths_return 7 1024 2048 example_0 example_1 0 example_pcp example_reachable eq_refl) as [H _].
  apply H; [lia | lia].
Defined.

(** free memory of an isolated pageblock can be allocated: a free block of the largest order has two pageblocks,
    and if the second one is isolated with success the block stays
    in the list of movable ones, so that the next allocation of this order returns it with the isolated pages. *)
Theorem isolated_pages_allocated :
  exists s z', reachable 7 1024 2048 example_0 s /\ set_migratetype_isolate 1536 false (zn s) = Ret (0, z') /\
    reachable 7 1024 2048 example_0 (System z' (pcps s) (used s)) /\ get_pageblock_migratetype 1536 z' = MIGRATE_ISOLATE /\
    exists pcp z'', pcps s !! 0 = Some pcp /\ pcp_pages (lists pcp) = [] /\
      buffered_rmqueue 10 MIGRATE_MOVABLE false pcp z' = Ret (Some 1024, pcp, z'') /\ block_of 1024 10 1536.
Proof.
  exists example_1, example_isolated. split; [exact example_reachable |]. split; [exact example_isolate |]. split.
  - split; [exact example_boot |]. eapply rtc_r; [exact (proj2 example_reachable) |].
    assert (zone_start_pfn example_2 <= 1536 < zone_start_pfn example_2 + spanned_pages example_2) as Hp by (split;
      vm_compute; [discriminate | reflexivity]).
    exact (Step_isolate example_1 1536 false 0 example_isolated Hp example_isolate).
  - split; [vm_compute; reflexivity |].
    assert (match __rmqueue 10 MIGRATE_MOVABLE example_isolated with Ret (Some p, _) => p =? 1024
      | _ => false end = true) as Hr by (vm_compute; reflexivity).
    exists example_pcp. unfold buffered_rmqueue. change (10 =? 0) with false. cbn match.
    destruct (__rmqueue 10 MIGRATE_MOVABLE example_isolated) as [[[p|] z]| |]; [| discriminate Hr..].
    apply Z.eqb_eq in Hr. subst p. rewrite run_bind_Ret. eexists. split; [reflexivity |]. split; [reflexivity |].
    split; [reflexivity | unfold block_of; lia].
Qed.

End PageSystem.
