(* ===== verification/PageWatermark.v ===== *)
(** * The buddy allocator: watermarks

    The pages of the free blocks add up to NR_FREE_PAGES, so that the check of
    the watermarks, which looks at the counters alone, is right about whether
    there is a block to be had. *)
From S2P Require Import Prelude PageAlloc PageBlocks PageZone PageQueue PagePcp PageSystem.

Module PageWatermark.
Import PageAlloc PageBlocks PageZone PageQueue PagePcp PageSystem.

(** ** What the lists add up to *)

(** The pages in the blocks of the first [n] orders. *)
Fixpoint weight (L : gmap (Z * Z) (list Z)) (n : nat) : Z :=
  match n with
  | O => 0
  | S n => weight L n + total L (Z.of_nat n) * 2 ^ Z.of_nat n
  end.

Lemma total_pos L o : 0 <= total L o.
Proof. unfold total, list_len. lia. Qed.

Lemma weight_step L n : weight L n <= weight L (S n).
Proof. simpl. pose proof (total_pos L (Z.of_nat n)). pose proof (pow_pos (Z.of_nat n) ltac:(lia)). nia. Qed.

Lemma weight_mono L n m : (n <= m)%nat -> weight L n <= weight L m.
Proof. induction 1 as [|m _ IH]; [done |]. pose proof (weight_step L m). lia. Qed.

(** One block fewer. *)
Lemma weight_del L L' o n : 0 <= o -> (forall o', total L' o' = total L o' - if o' =? o then 1 else 0) ->
  weight L' n = weight L n - if Z.of_nat n >? o then 2 ^ o else 0.
Proof.
  intros Ho H. induction n as [|n IH]; [cbn [weight]; destruct (Z.gtb_spec (Z.of_nat 0) o); lia |]. cbn [weight]. rewrite IH, H.
  destruct (Z.eqb_spec (Z.of_nat n) o) as [E | ?], (Z.gtb_spec (Z.of_nat n) o), (Z.gtb_spec (Z.of_nat (S n)) o);
    try rewrite E; lia.
Qed.

Lemma weight_some L n m : weight L n < weight L m -> exists o, Z.of_nat n <= o < Z.of_nat m /\ 0 < total L o.
Proof.
  induction m as [|m IH]; [pose proof (weight_mono L 0 n ltac:(lia)); simpl in *; lia |]. intros H.
  destruct (decide (n <= m)%nat) as [Hle | Hgt]; [| pose proof (weight_mono L (S m) n ltac:(lia)); lia].
  destruct (decide (0 < total L (Z.of_nat m))) as [? | Hz]; [exists (Z.of_nat m); lia |].
  destruct IH as (o & Ho & Ht); [| exists o; lia]. simpl in H. pose proof (total_pos L (Z.of_nat m)).
  assert (total L (Z.of_nat m) = 0) as E by lia. rewrite E in H. lia.
Qed.

Section zone.
Context (zid start fin : Z).

Lemma links_empty L o : links L ∅ -> total L o = 0.
Proof.
  intros H. assert (forall mt, list_len L o mt = 0) as Hl; [| unfold total; by rewrite !Hl].
  intros mt. unfold list_len. destruct (L !! (o, mt)) as [[|p l]|] eqn:E; [done | | done].
  pose proof (l_in _ _ H _ _ p E ltac:(by left)) as Hp. by rewrite lookup_empty in Hp.
Qed.

(** The free pages are counted right by the lengths of the lists. *)
Lemma weight_card L B : links L B -> coalesced start fin B -> weight L (Z.to_nat MAX_ORDER) = card start fin (covered B).
Proof.
  remember (size B) as n eqn:En. revert L B En. induction n as [|n IH]; intros L B En HL HB.
  - symmetry in En. apply map_size_empty_inv in En as ->. unfold card. rewrite filter_nothing; [| by intros q _ (p & o & E & _)].
    assert (forall k, weight L k = 0) as -> by (intros k; induction k as [|k IHk]; simpl; [done |];
      by rewrite IHk, links_empty). done.
  - destruct (map_choose B) as (p & o & E); [intros ->; by rewrite map_size_empty in En |].
    destruct (links_del L B p o HL E) as [HL' HT]. pose proof (links_range _ _ _ _ HL E) as Ho.
    assert (weight (filter (fun q => q <> p) <$> L) (Z.to_nat MAX_ORDER) = card start fin (covered (delete p B))) as IHd.
    { apply IH; [rewrite map_size_delete, E; simpl; lia | done | by apply coalesced_delete]. }
    rewrite (weight_del _ _ o _ ltac:(lia) HT) in IHd. rewrite Z2Nat.id in IHd by done.
    destruct (Z.gtb_spec MAX_ORDER o); [| lia].
    rewrite (card_add start fin (covered (delete p B)) (covered B) p o); [lia | by eapply b_placed | |].
    + intros q. rewrite (covered_delete start fin B p o q HB E).
      destruct (decide (block_of p o q)) as [Hb | Hb]; [| tauto]. split; [tauto | intros _; by exists p, o].
    + intros q Hb. rewrite (covered_delete start fin B p o q HB E). tauto.
Qed.

(** ** The loop over the orders *)

Lemma u64_sub_s64 x y : - 2 ^ 62 <= x < 2 ^ 62 -> 0 <= y < 2 ^ 62 -> s64 (u64 x - u64 y) = x - y.
Proof.
  intros Hx Hy. rewrite (uwrap_small 64 y) by lia. unfold swrap, uwrap. change (64 - 1) with 63.
  replace (x mod 2 ^ 64 - y + 2 ^ 63) with (x mod 2 ^ 64 + (2 ^ 63 - y)) by lia. rewrite Zplus_mod_idemp_l, Z.mod_small; lia.
Qed.

Lemma watermark_loop_ok z n : linked zid start fin z -> weight (free_list z) (Z.to_nat MAX_ORDER) < 2 ^ 31 ->
  forall o F m, (o + n <= Z.to_nat MAX_ORDER)%nat -> - 2 ^ 61 <= F < 2 ^ 61 ->
  exists b, watermark_loop n (Z.of_nat o) (F - weight (free_list z) o) m z = Ret b /\
    (b = true <-> forall k, (1 <= k <= n)%nat -> m / 2 ^ Z.of_nat k < F - weight (free_list z) (o + k)).
Proof.
  intros [_ Hnr _] Hw. set (L := free_list z) in *.
  assert (forall k, (k <= Z.to_nat MAX_ORDER)%nat -> 0 <= weight L k < 2 ^ 31) as Hb.
  { intros k Hk. pose proof (weight_mono L _ _ Hk). pose proof (weight_mono L 0 k ltac:(lia)). cbn [weight] in *. lia. }
  induction n as [|n IH]; intros o F m Hon HF; cbn [watermark_loop]; [exists true; split; [done |]; split; [lia | done] |].
  change (Z.to_nat MAX_ORDER) with 11%nat in *. rewrite Hnr by (lia). cbn [of_option]. rewrite run_bind_Ret. fold L.
  pose proof (Hb o ltac:(lia)). pose proof (Hb (S o) ltac:(lia)) as HS. cbn [weight] in HS.
  pose proof (total_pos L (Z.of_nat o)). pose proof (pow_pos (Z.of_nat o) ltac:(lia)).
  rewrite (uwrap_small 64 (total L (Z.of_nat o))) by nia. rewrite Z.shiftl_mul_pow2, u64_sub_s64 by nia.
  replace (F - weight L o - total L (Z.of_nat o) * 2 ^ Z.of_nat o) with (F - weight L (S o)) by (cbn [weight]; lia).
  rewrite Z.shiftr_div_pow2 by lia. destruct (Z.leb_spec (F - weight L (S o)) (m / 2 ^ 1)) as [Hle | Hlt].
  - exists false. split; [done |]. split; [done |]. intros H'. specialize (H' 1%nat ltac:(lia)).
    rewrite Nat.add_1_r in H'. simpl Z.of_nat in H'. lia.
  - destruct (IH (S o) F (m / 2 ^ 1) ltac:(lia) HF) as (b & E & Hbk). exists b.
    split; [by rewrite <- E, Nat2Z.inj_succ |]. rewrite Hbk.
    assert (forall k, m / 2 ^ 1 / 2 ^ Z.of_nat k = m / 2 ^ Z.of_nat (S k)) as Hd.
    { intros k. rewrite Z.div_div by lia. rewrite <- Z.pow_add_r by lia. do 2 f_equal. lia. }
    split.
    + intros Hk [|[|k]] Hk'; [lia | rewrite Nat.add_1_r; exact Hlt |]. specialize (Hk (S k) ltac:(lia)).
      rewrite Hd in Hk. by rewrite Nat.add_succ_comm in Hk.
    + intros Hk k Hk'. rewrite Hd, Nat.add_succ_comm. apply Hk. lia.
Qed.

End zone.

Lemma wmark_min_range mark flags : 0 <= mark < 2 ^ 60 -> 0 <= wmark_min mark flags <= mark.
Proof.
  intros Hm. unfold wmark_min. rewrite swrap_small by lia.
  assert (forall x c, 0 <= x <= mark -> 2 <= c -> 0 <= x - Z.quot x c <= mark) as Hq.
  { intros x c Hx Hc. rewrite Z.quot_div_nonneg by lia. pose proof (Z.div_pos x c ltac:(lia) ltac:(lia)).
    pose proof (Z.div_le_upper_bound x c x ltac:(lia) ltac:(nia)). lia. }
  destruct (_ =? 0), (_ =? 0); repeat (apply Hq; [| lia]); lia.
Qed.

Section answer.
Context (zid start fin : Z) (z : zone) (order : Z).
Hypotheses (Hz : zone_ok zid start fin z) (Ho : 0 <= order < MAX_ORDER).

(** The first comparison lets a negative number pass, which the loop then stops. *)
Lemma watermark_answer counter reserve mark flags : weight (free_list z) (Z.to_nat MAX_ORDER) < 2 ^ 31 ->
  - 2 ^ 60 <= counter < 2 ^ 60 -> 0 <= reserve < 2 ^ 60 -> 0 <= mark < 2 ^ 60 ->
  exists b, zone_watermark_ok counter reserve order mark flags z = Ret b /\
    (b = true <-> wmark_min mark flags + reserve < Z.max 0 counter - 2 ^ order + 1 /\ forall k, (1 <= k <= Z.to_nat order)%nat ->
      wmark_min mark flags / 2 ^ Z.of_nat k < Z.max 0 counter - 2 ^ order + 1 - weight (free_list z) k).
Proof.
  intros Hw Hc Hres Hmark. pose proof (wmark_min_range mark flags Hmark) as Hm.
  unfold zone_watermark_ok. set (m := wmark_min mark flags) in *.
  assert ((if counter <? 0 then 0 else counter) = Z.max 0 counter) as -> by (destruct (Z.ltb_spec counter 0); lia).
  pose proof (pow_pos order ltac:(lia)). assert (2 ^ order <= 2 ^ 10) by (apply Z.pow_le_mono_r; lia).
  rewrite (uwrap_small 64 (Z.max 0 counter)), Z.shiftl_1_l, swrap_small by lia. set (F := Z.max 0 counter - 2 ^ order + 1) in *.
  assert (- 2 ^ 61 <= F < 2 ^ 61) as HF by (unfold F; lia). rewrite (uwrap_small 64 m), (uwrap_small 64 (m + reserve)) by lia.
  destruct (watermark_loop_ok zid start fin z (Z.to_nat order) (zo_linked _ _ _ _ Hz) Hw 0 F m) as (b & E & Hb); [lia | done |].
  cbn [weight Z.of_nat Nat.add] in E, Hb. rewrite Z.sub_0_r in E.
  destruct (Z.leb_spec (u64 F) (m + reserve)) as [Hle | Hgt].
  - exists false. split; [done |]. split; [done |]. intros [Hlt _]. rewrite uwrap_small in Hle by lia. lia.
  - exists b. split; [done |]. rewrite Hb. split; [| tauto]. intros Hk. split; [| done].
    destruct (decide (0 <= F)) as [? | Hn]; [by rewrite uwrap_small in Hgt by lia |].
    assert (1 <= order) as H1 by (destruct (Z.eq_dec order 0) as [E0 |]; [unfold F in Hn; rewrite E0, Z.pow_0_r in Hn;
      lia | lia]).
    specialize (Hk 1%nat ltac:(lia)). pose proof (Z.div_pos m (2 ^ Z.of_nat 1) ltac:(lia) ltac:(done)).
    pose proof (weight_mono (free_list z) 0 1 ltac:(lia)) as Hw1. cbn [weight] in Hw1, Hk. lia.
Qed.

(** Pages in blocks of the order and above that are not isolated are enough to allocate one. *)
Lemma weight_alloc mt : 0 <= mt < MIGRATE_PCPTYPES ->
  weight (free_list z) (Z.to_nat order) < weight (free_list z) (Z.to_nat MAX_ORDER) ->
  (forall o, order <= o < MAX_ORDER -> free_list z !! (o, MIGRATE_ISOLATE) = Some []) ->
    exists p z', __rmqueue order mt z = Ret (Some p, z').
Proof.
  intros Hmt Hw Hiso. destruct (rmqueue_ok zid start fin z order mt Hz Ho Hmt) as ([p|] & z' & E & _ & Hr);
    [by exists p, z' |]. exfalso.
  destruct Hr as [_ He]. destruct (weight_some _ _ _ Hw) as (o & Hoo & Ht). rewrite !Z2Nat.id in Hoo by (done || lia).
  unfold total, list_len in Ht. rewrite (Hiso o), !He in Ht by lia. done.
Qed.

End answer.

(** C17: in every reachable state zone_watermark_ok answers whether the free pages exceed the watermark and the
    reserve, and those of each higher order half of it, although the first
    comparison is one of unsigned numbers; if it says yes, the counter is not ahead of the free pages by more than the
    watermark that is left, and no block is isolated, then
    the allocation succeeds. *)
Theorem page_watermark_correct zid start fin s0 s order mt counter reserve mark flags :
  reachable zid start fin s0 s -> 0 <= order < MAX_ORDER -> 0 <= mt < MIGRATE_PCPTYPES ->
  - 2 ^ 60 <= counter < 2 ^ 60 -> 0 <= reserve < 2 ^ 60 -> 0 <= mark < 2 ^ 60 ->
  let min := wmark_min mark flags in
  let free_pages := Z.max 0 counter - 2 ^ order + 1 in
  exists b, zone_watermark_ok counter reserve order mark flags (zn s) = Ret b /\
    (b = true <-> min + reserve < free_pages /\
      forall k, (1 <= k <= Z.to_nat order)%nat -> min / 2 ^ Z.of_nat k < free_pages - weight (free_list (zn s)) k) /\
    (b = true -> counter <= NR_FREE_PAGES (zn s) + min / 2 ^ order ->
      (forall o, order <= o < MAX_ORDER -> free_list (zn s) !! (o, MIGRATE_ISOLATE) = Some []) ->
      exists p z', __rmqueue order mt (zn s) = Ret (Some p, z')).
Proof.
  intros Hr Ho Hmt Hc Hres Hmark min free_pages. destruct (page_reachable_ok _ _ _ _ _ Hr) as [[[Hz _ _] _ _ _ Hsmall Hfree] _].
  pose proof (weight_card start fin _ _ (z_links _ _ _ _ (zo_linked _ _ _ _ Hz)) (zo_blocks _ _ _ _ Hz)) as Hw.
  assert (weight (free_list (zn s)) (Z.to_nat MAX_ORDER) < 2 ^ 31) as Hlt.
  { rewrite Hw. unfold card. apply Z.le_lt_trans with (Z.of_nat (length (seqZ start (fin - start))));
      [apply inj_le, length_filter | rewrite length_seqZ; lia]. }
  destruct (watermark_answer zid start fin (zn s) order Hz Ho counter reserve mark flags Hlt Hc Hres Hmark) as (b & E & Hb).
  exists b. split; [done |]. split; [done |]. intros [Hgt Hk]%Hb Hdrift Hiso.
  apply (weight_alloc zid start fin); [done.. | | done].
  rewrite Hw. change (card start fin (covered (free_blocks zid (zn s)))) with (card start fin (is_free zid (zn s))).
  rewrite <- Hfree.
  pose proof (pow_pos order ltac:(lia)). pose proof (wmark_min_range mark flags Hmark).
  destruct (decide (order = 0)) as [-> | Hne].
  - change (Z.to_nat 0) with 0%nat. cbn [weight]. rewrite Z.pow_0_r, Z.div_1_r in *. lia.
  - specialize (Hk (Z.to_nat order) ltac:(lia)). rewrite Z2Nat.id in Hk by lia.
    pose proof (Z.div_pos (wmark_min mark flags) (2 ^ order) ltac:(lia) ltac:(lia)).
    pose proof (weight_mono (free_list (zn s)) 0 (Z.to_nat order) ltac:(lia)) as Hw0. cbn [weight] in Hw0.
    unfold min in Hdrift. lia.
Qed.

Lemma page_watermark_correct_witness : exists p z', __rmqueue 3 2 (zn example_1) = Ret (Some p, z').
Proof.
  destruct (page_watermark_correct 7 1024 2048 example_0 example_1 3 2 1024 10 100 0 example_reachable)
    as (b & E & _ & H); [lia | lia.. |].
  apply H.
  - assert (zone_watermark_ok 1024 10 3 100 0 (zn example_1) = Ret true) as E' by (vm_compute; reflexivity).
    rewrite E in E'. by injection E'.
  - apply Z.leb_le. vm_compute. reflexivity.
  - intros o Ho. assert (Forall (fun o => free_list (zn example_1) !! (o, MIGRATE_ISOLATE) = Some []) (seqZ 3 8)) as Hf
      by (vm_compute; repeat constructor).
    rewrite Forall_forall in Hf. apply Hf, elem_of_seqZ. lia.
Defined.

End PageWatermark.
