(* ===== verification/OcteonDma.v ===== *)
(** * DMA addresses: the code

    arch/mips/cavium-octeon/dma-octeon.c, and above it the functions of
    arch/mips/mm/dma-default.c for a machine whose devices are coherent.  On
    PCI, buffers that the fixed windows do not reach are seen through BAR1, a table of 32
    entries of 4 MB each with a reference count per entry; on PCIe everything is
    fixed.  Memory is named by its physical address.  A panic is the error of the
    result. *)
From S2P Require Import Prelude.

Module OcteonDma.

(** ** Data *)

Inductive octeon_dma_bar_type :=
  | OCTEON_DMA_BAR_TYPE_INVALID
  | OCTEON_DMA_BAR_TYPE_SMALL
  | OCTEON_DMA_BAR_TYPE_BIG
  | OCTEON_DMA_BAR_TYPE_PCIE
  | OCTEON_DMA_BAR_TYPE_PCIE2.
#[export] Instance bar_type_eq_dec : EqDecision octeon_dma_bar_type.
Proof. solve_decision. Defined.

Abbreviation BAR2_PCI_ADDRESS := 0x8000000000 (only parsing).
Abbreviation OCTEON_PCI_BAR1_HOLE_SIZE := (1 .<< (5 + 3)) (only parsing).
Abbreviation PAGE_SIZE := 4096 (only parsing).
Abbreviation DMA_ERROR := 0xffffffffffffffff (only parsing).

Record bar1_index_state := Bar1State { ref_count : Z; address_bits : Z }.

(** The fields of the register for an entry. *)
Record bar1_indexx := Bar1Index { addr_idx : Z; ca : Z; end_swp : Z; addr_v : Z }.

(** The table and the registers of the hardware. *)
Record dma := Dma { bar1_state : gmap Z bar1_index_state; BAR1_INDEXX : gmap Z bar1_indexx }.

(** [dma_mask] is behind a pointer that may be NULL. *)
Record device := Device { coherent_dma_mask : Z; dma_mask : option Z; on_platform_bus : bool }.

Inductive fault := panic | null_pointer | bad_index.
Abbreviation M := (run fault).

Definition get_bar1 (index : Z) (st : dma) : M bar1_index_state := of_option bad_index (bar1_state st !! index).
Definition set_bar1 (index : Z) (b : bar1_index_state) (st : dma) : dma := Dma (<[index := b]> (bar1_state st)) (BAR1_INDEXX st).
Abbreviation octeon_npi_write32 index r st := (Dma (bar1_state st) (<[index := r]> (BAR1_INDEXX st))) (only parsing).

(** ** Mapping *)

(** The last byte has to be an address that the device can send. *)
Abbreviation check_mask result size mask :=
  (if negb (u64 (result + size - 1) .& mask =? u64 (result + size - 1)) then Err panic else Ret result) (only parsing).

(** The entry with the index [n - 1] or a lower one that has this address already. *)
Fixpoint bar1_existing (n : nat) (physical : Z) (st : dma) : M (option (Z * dma)) :=
  match n with
  | O => Ret None
  | S n =>
      let index := Z.of_nat n in
      b ← get_bar1 index st;
      if (address_bits b =? physical .>> 22) && negb (ref_count b =? 0) then
        let count := swrap 16 (ref_count b + 1) in
        if count <? 0 then Err panic else Ret (Some (index, set_bar1 index (Bar1State count (address_bits b)) st))
      else bar1_existing n physical st
  end.

(** A free entry; the address is cut to the width of the fields, bits 35 to 22 in the register. *)
Fixpoint bar1_free (n : nat) (physical : Z) (st : dma) : M (option (Z * dma)) :=
  match n with
  | O => Ret None
  | S n =>
      let index := Z.of_nat n in
      b ← get_bar1 index st;
      if ref_count b =? 0 then
        let st := set_bar1 index (Bar1State 1 (u16 (physical .>> 22))) st in
        Ret (Some (index, octeon_npi_write32 index (Bar1Index (uwrap 14 (physical .>> 22)) 1 1 1) st))
      else bar1_free n physical st
  end.

(** What follows the switch on the type. *)
Definition bar1_map (bar_type : octeon_dma_bar_type) (physical size mask : Z) (st : dma) : M (Z * dma) :=
  if negb (physical .>> 22 =? u64 (physical + size - 1) .>> 22) then Err panic
  else
    let start_index :=
      if decide (bar_type = OCTEON_DMA_BAR_TYPE_BIG) then 31
      else if mask <? 1 .<< 27 then mask .>> 22
      else 31 in
    let result index :=
      let r := (index .<< 22) .| (physical .& ((1 .<< 22) - 1)) in
      if decide (bar_type = OCTEON_DMA_BAR_TYPE_BIG) then u64 (r + (2 .<< 30)) else r in
    e ← bar1_existing (Z.to_nat (start_index + 1)) physical st;
    match e with
    | Some (index, st) => Ret (result index, st)
    | None =>
        e ← bar1_free (Z.to_nat (start_index + 1)) physical st;
        match e with
        | Some (index, st) => Ret (result index, st)
        | None => Ret (DMA_ERROR, st)
        end
    end.

Section machine.
(** The window of BAR1 on PCIe, and whether the processor is a CN63XX. *)
Context (CVMX_PCIE_BAR1_PHYS_BASE CVMX_PCIE_BAR1_PHYS_SIZE CVMX_PCIE_BAR1_RC_BASE : Z) (OCTEON_CN63XX : bool).

Definition in_pcie_bar1 (physical size : Z) : bool :=
  (physical >=? CVMX_PCIE_BAR1_PHYS_BASE) && (u64 (physical + size) <? CVMX_PCIE_BAR1_PHYS_BASE + CVMX_PCIE_BAR1_PHYS_SIZE).

Definition map_pcie2 (physical size mask : Z) : M Z :=
  if physical <? 16 .<< 10 then Err panic
  else if (u64 (physical + size) >=? 256 .<< 20) && (physical <? 512 .<< 20) then Err panic
  else if in_pcie_bar1 physical size then check_mask
    (u64 (physical - CVMX_PCIE_BAR1_PHYS_BASE + CVMX_PCIE_BAR1_RC_BASE)) size mask
  else if u64 (physical + size) >=? 0x2010000000 then Err panic
  else check_mask physical size mask.

Definition map_pcie (physical size mask : Z) : M Z :=
  if physical <? 16 .<< 10 then Err panic
  else if (u64 (physical + size) >=? 256 .<< 20) && (physical <? 512 .<< 20) then Err panic
  else if (u64 (physical + size) >=? 0x400000000) && (physical <? 0x410000000) then Err panic
  else if physical >=? 0x420000000 then Err panic
  else if in_pcie_bar1 physical size then check_mask
    (u64 (physical - CVMX_PCIE_BAR1_PHYS_BASE + CVMX_PCIE_BAR1_RC_BASE)) size mask
  else
    let result := if (physical >=? 0x410000000) && (physical <? 0x420000000) then physical - 0x400000000 else physical in
    check_mask result size mask.

(** [None]: it is continued below the switch. *)
Definition map_big (physical size mask : Z) : M (option Z) :=
  if mask >? BAR2_PCI_ADDRESS then Ret (Some (u64 (physical + BAR2_PCI_ADDRESS)))
  else if physical <? 4 .<< 10 then Err panic
  else if physical <? 256 .<< 20 then
    if u64 (physical + size) >? 256 .<< 20 then Err panic else Ret (Some physical)
  else if physical <? 512 .<< 20 then Err panic
  else if physical <? 2 .<< 30 then
    if u64 (physical + size) >? 2 .<< 30 then Err panic else Ret (Some physical)
  else if physical <? (2 .<< 30) + (128 .<< 20) then Ret None
  else if physical <? (4 .<< 30) - (OCTEON_PCI_BAR1_HOLE_SIZE .<< 20) then
    if u64 (physical + size) >? (4 .<< 30) - (OCTEON_PCI_BAR1_HOLE_SIZE .<< 20) then Err panic else Ret (Some physical)
  else if negb OCTEON_CN63XX && (physical >=? 0x410000000) && (physical <? 0x420000000) then
    if u64 (physical + size) >? 0x420000000 then Err panic else Ret (Some (physical - 0x400000000))
  else Ret None.

Definition map_small (physical mask : Z) : option Z :=
  if mask >? BAR2_PCI_ADDRESS then Some (u64 (physical + BAR2_PCI_ADDRESS)) else None.

Definition octeon_map_dma_mem (bar_type : octeon_dma_bar_type) (dev : option device) (physical size : Z) (st : dma) : M
  (Z * dma) :=
  match dev with
  | None => Ret (physical, st)
  | Some dev =>
      let mask := default (coherent_dma_mask dev) (dma_mask dev) in
      if on_platform_bus dev then Ret (physical, st)
      else match bar_type with
      | OCTEON_DMA_BAR_TYPE_PCIE2 => result ← map_pcie2 physical size mask; Ret (result, st)
      | OCTEON_DMA_BAR_TYPE_PCIE => result ← map_pcie physical size mask; Ret (result, st)
      | OCTEON_DMA_BAR_TYPE_BIG =>
          r ← map_big physical size mask;
          match r with Some result => Ret (result, st) | None => bar1_map bar_type physical size mask st end
      | OCTEON_DMA_BAR_TYPE_SMALL =>
          match map_small physical mask with Some result => Ret (result, st) | None => bar1_map bar_type physical size mask st end
      | OCTEON_DMA_BAR_TYPE_INVALID => Err panic
      end
  end.

(** ** Unmapping *)

(** The entry that has to be released, if any. *)
Definition unmap_index (bar_type : octeon_dma_bar_type) (dma_addr : Z) : M (option Z) :=
  match bar_type with
  | OCTEON_DMA_BAR_TYPE_PCIE2 | OCTEON_DMA_BAR_TYPE_PCIE => Ret None
  | OCTEON_DMA_BAR_TYPE_BIG =>
      if dma_addr >=? BAR2_PCI_ADDRESS then Ret None
      else if dma_addr <? 4 .<< 10 then Err panic
      else if dma_addr <? 2 .<< 30 then Ret None
      else if dma_addr <? (2 .<< 30) + (128 .<< 20) then Ret (Some ((dma_addr - (2 .<< 30)) .>> 22))
      else if dma_addr <? (4 .<< 30) - (OCTEON_PCI_BAR1_HOLE_SIZE .<< 20) then Ret None
      else Err panic
  | OCTEON_DMA_BAR_TYPE_SMALL => if dma_addr >=? BAR2_PCI_ADDRESS then Ret None else Ret (Some (dma_addr .>> 22))
  | OCTEON_DMA_BAR_TYPE_INVALID => Err panic
  end.

Definition octeon_unmap_dma_mem (bar_type : octeon_dma_bar_type) (dev : option device) (dma_addr : Z) (st : dma) : M dma :=
  dev ← of_option null_pointer dev;
  if on_platform_bus dev then Ret st
  else
    index ← unmap_index bar_type dma_addr;
    match index with
    | None => Ret st
    | Some index =>
        if index >? 31 then Err panic
        else
          b ← get_bar1 index st;
          let count := swrap 16 (ref_count b - 1) in
          let st := set_bar1 index (Bar1State count (address_bits b)) st in
          if count =? 0 then Ret (octeon_npi_write32 index (Bar1Index 0 0 0 0) st)
          else if count <? 0 then Err panic
          else Ret st
    end.

(** ** The functions of the DMA interface *)

Definition dma_mapping_error (dma_addr : Z) : bool := dma_addr =? DMA_ERROR.

Definition dma_map_single := octeon_map_dma_mem.
Definition dma_unmap_single := octeon_unmap_dma_mem.

(** [page] is the physical address of the page. *)
Definition dma_map_page (bar_type : octeon_dma_bar_type) (dev : option device) (page offset : Z) (st : dma) : M (Z * dma) :=
  '(a, st) ← octeon_map_dma_mem bar_type dev page PAGE_SIZE st;
  Ret (u64 (a + offset), st).

Definition dma_unmap_page := dma_unmap_single.

(** The segments are given by address and length; the result has the address of each. *)
Fixpoint map_segments (bar_type : octeon_dma_bar_type) (dev : option device) (sg : list (Z * Z)) (st : dma) : M (list Z * dma) :=
  match sg with
  | [] => Ret ([], st)
  | (physical, size) :: sg =>
      '(a, st) ← octeon_map_dma_mem bar_type dev physical size st;
      '(l, st) ← map_segments bar_type dev sg st;
      Ret (a :: l, st)
  end.

Definition dma_map_sg (bar_type : octeon_dma_bar_type) (dev : option device) (sg : list (Z * Z)) (st : dma) : M
  (Z * list Z * dma) :=
  '(l, st) ← map_segments bar_type dev sg st;
  Ret (Z.of_nat (length sg), l, st).

Fixpoint dma_unmap_sg (bar_type : octeon_dma_bar_type) (dev : option device) (sg : list Z) (st : dma) : M dma :=
  match sg with
  | [] => Ret st
  | a :: sg => st ← octeon_unmap_dma_mem bar_type dev a st; dma_unmap_sg bar_type dev sg st
  end.

End machine.

(** ** Boot *)

(** The table is cleared with the data segment, and the registers by [octeon_pci_setup]. *)
Definition octeon_pci_setup : dma :=
  Dma (list_to_map ((fun i => (i, Bar1State 0 0)) <$> seqZ 0 32)) (list_to_map ((fun i => (i, Bar1Index 0 0 0 0)) <$> seqZ 0 32)).

End OcteonDma.
