(* ===== verification/OcteonDmaMap.v ===== *)
(** * DMA addresses: what devices see

    The windows through which a PCI device sees memory, the buffers that are
    mapped, and the invariant that ties the table of BAR1 to them; mapping and
    unmapping in any order. *)
From stdpp Require Import relations.
From S2P Require Import Prelude OcteonDma.

Module OcteonDmaMap.
Import OcteonDma.

(** ** The view of a device *)

(** An entry of BAR1 sends the bits of its register as the upper bits of the address. *)
Definition bar1_lookup (st : dma) (index offset : Z) : option Z :=
  match BAR1_INDEXX st !! index with
  | Some r => if addr_v r =? 1 then Some (addr_idx r * 2 ^ 22 + offset) else None
  | None => None
  end.

(** BAR2 is all of memory.  Small BAR1 is at 0.  Big BAR0 has the first 2 GB, its second 256 MB being those above 16 GB;
    big BAR1 follows, with the entries in its first 128 MB and the memory at its own address up to the hole. *)
Definition translate (bar_type : octeon_dma_bar_type) (st : dma) (a : Z) : option Z :=
  if BAR2_PCI_ADDRESS <=? a then Some (a - BAR2_PCI_ADDRESS)
  else match bar_type with
  | OCTEON_DMA_BAR_TYPE_SMALL => if a <? 2 ^ 27 then bar1_lookup st (a / 2 ^ 22) (a mod 2 ^ 22) else None
  | OCTEON_DMA_BAR_TYPE_BIG =>
      if a <? 2 ^ 28 then Some a
      else if a <? 2 ^ 29 then Some (a + 2 ^ 34)
      else if a <? 2 ^ 31 then Some a
      else if a <? 2 ^ 31 + 2 ^ 27 then bar1_lookup st ((a - 2 ^ 31) / 2 ^ 22) ((a - 2 ^ 31) mod 2 ^ 22)
      else if a <? 2 ^ 32 - 2 ^ 28 then Some a
      else None
  | _ => None
  end.

(** A buffer of [m_size] bytes that has been mapped for a device. *)
Record mapping := Mapping { m_dev : device; m_addr : Z; m_phys : Z; m_size : Z }.

#[export] Instance device_eq_dec : EqDecision device.
Proof. solve_decision. Defined.
#[export] Instance mapping_eq_dec : EqDecision mapping.
Proof. solve_decision. Defined.

Definition dev_mask (dev : device) : Z := default (coherent_dma_mask dev) (dma_mask dev).

(** Physical addresses have 36 bits. *)
Definition buffer (phys size : Z) : Prop := 0 <= phys /\ 1 <= size /\ phys + size <= 2 ^ 36.

(** Where the entries of BAR1 begin. *)
Definition window (bar_type : octeon_dma_bar_type) : Z := if decide (bar_type = OCTEON_DMA_BAR_TYPE_BIG) then 2 ^ 31 else 0.

(** The addresses from [r] on are in a fixed window. *)
Definition fixed (bar_type : octeon_dma_bar_type) (r phys size : Z) : Prop :=
  forall k, 0 <= k < size -> unmap_index bar_type (r + k) = Ret None /\
  (forall i, 0 <= i < 32 -> ~ (window bar_type + i * 2 ^ 22 <= r + k < window bar_type + (i + 1) * 2 ^ 22)) /\
  forall st, translate bar_type st (r + k) = Some (phys + k).

Section pci.
Context (bar_type : octeon_dma_bar_type) (Hpci : bar_type = OCTEON_DMA_BAR_TYPE_SMALL \/ bar_type = OCTEON_DMA_BAR_TYPE_BIG).

#[local] Abbreviation window := (window bar_type).

(** Whether the mapping is one through the entry [i]. *)
Definition uses (i : Z) (m : mapping) : Prop :=
  on_platform_bus (m_dev m) = false /\ window + i * 2 ^ 22 <= m_addr m < window + (i + 1) * 2 ^ 22.
#[local] Instance uses_dec i m : Decision (uses i m).
Proof. apply _. Defined.

Definition users (live : list mapping) (i : Z) : Z := Z.of_nat (length (filter (uses i) live)).

(** Seen through an entry with its address, or through a fixed window. *)
Definition seen (st : dma) (m : mapping) : Prop :=
  (exists i b, 0 <= i < 32 /\ bar1_state st !! i = Some b /\ address_bits b = m_phys m / 2 ^ 22 /\
     m_addr m = window + i * 2 ^ 22 + m_phys m mod 2 ^ 22 /\ m_phys m mod 2 ^ 22 + m_size m <= 2 ^ 22) \/
  fixed bar_type (m_addr m) (m_phys m) (m_size m).

Record dma_ok (st : dma) (live : list mapping) : Prop := DmaOk {
  d_keys : forall i, is_Some (bar1_state st !! i) <-> 0 <= i < 32;
  d_count : forall i b, bar1_state st !! i = Some b -> ref_count b = users live i /\ ref_count b < 2 ^ 15;
  d_reg : forall i b, bar1_state st !! i = Some b ->
    BAR1_INDEXX st !! i = Some (if ref_count b =? 0 then Bar1Index 0 0 0 0 else Bar1Index (address_bits b) 1 1 1);
  d_live : forall m, m ∈ live -> on_platform_bus (m_dev m) = false -> buffer (m_phys m) (m_size m) /\ seen st m
}.

(** ** Addresses *)

Lemma window_eq : window = 0 /\ bar_type = OCTEON_DMA_BAR_TYPE_SMALL \/ window = 2 ^ 31 /\ bar_type = OCTEON_DMA_BAR_TYPE_BIG.
Proof. unfold OcteonDmaMap.window. destruct Hpci as [-> | ->]; [left | right]; done. Qed.

Lemma unmap_entry i off : 0 <= i < 32 -> 0 <= off < 2 ^ 22 -> unmap_index bar_type (window + i * 2 ^ 22 + off) = Ret (Some i).
Proof.
  intros Hi Hoff. assert ((i * 2 ^ 22 + off) .>> 22 = i) as E.
  { rewrite Z.shiftr_div_pow2 by lia. rewrite Z.div_add_l, Z.div_small by lia. lia. }
  unfold unmap_index. rewrite !Z.shiftl_mul_pow2 by lia. destruct window_eq as [[-> ->] | [-> ->]].
  - rewrite Z.add_0_l. destruct (Z.geb_spec (i * 2 ^ 22 + off) BAR2_PCI_ADDRESS); [lia |]. by rewrite E.
  - set (a := 2 ^ 31 + i * 2 ^ 22 + off). assert (2 ^ 31 <= a < 2 ^ 31 + 2 ^ 27) as Ha by (unfold a; lia).
    destruct (Z.geb_spec a BAR2_PCI_ADDRESS); [lia |]. destruct (Z.ltb_spec a (4 * 2 ^ 10)); [lia |].
    destruct (Z.ltb_spec a (2 * 2 ^ 30)); [lia |].
    destruct (Z.ltb_spec a (2 * 2 ^ 30 + 128 * 2 ^ 20)); [| lia].
    replace (a - 2 * 2 ^ 30) with (i * 2 ^ 22 + off) by (unfold a; lia). by rewrite E.
Qed.

Lemma translate_entry st i off : 0 <= i < 32 -> 0 <= off < 2 ^ 22 ->
  translate bar_type st (window + i * 2 ^ 22 + off) = bar1_lookup st i off.
Proof.
  intros Hi Hoff. assert ((i * 2 ^ 22 + off) / 2 ^ 22 = i) as E1 by (rewrite Z.div_add_l, Z.div_small by lia; lia).
  assert ((i * 2 ^ 22 + off) mod 2 ^ 22 = off) as E2 by (rewrite Z.add_comm, Z.mod_add, Z.mod_small by lia; lia).
  unfold translate. destruct window_eq as [[-> ->] | [-> ->]].
  - rewrite Z.add_0_l. set (a := i * 2 ^ 22 + off) in *. destruct (Z.leb_spec BAR2_PCI_ADDRESS a); [lia |].
    destruct (Z.ltb_spec a (2 ^ 27)); [| lia]. by rewrite E1, E2.
  - replace (2 ^ 31 + i * 2 ^ 22 + off - 2 ^ 31) with (i * 2 ^ 22 + off) by lia. rewrite E1, E2.
    set (a := 2 ^ 31 + i * 2 ^ 22 + off). assert (2 ^ 31 <= a < 2 ^ 31 + 2 ^ 27) as Ha by (unfold a; lia).
    destruct (Z.leb_spec BAR2_PCI_ADDRESS a); [lia |]. destruct (Z.ltb_spec a (2 ^ 28)); [lia |].
    destruct (Z.ltb_spec a (2 ^ 29)); [lia |]. destruct (Z.ltb_spec a (2 ^ 31)); [lia |].
    by destruct (Z.ltb_spec a (2 ^ 31 + 2 ^ 27)); [| lia].
Qed.

Lemma users_cons m live i : users (m :: live) i = users live i + if decide (uses i m) then 1 else 0.
Proof. unfold users. rewrite filter_cons. destruct (decide (uses i m)); simpl length; lia. Qed.

Lemma users_perm live live' i : live ≡ₚ live' -> users live i = users live' i.
Proof. intros P. unfold users. by rewrite P. Qed.

Lemma users_in m live i : m ∈ live -> uses i m -> 1 <= users live i.
Proof.
  intros [l1 [l2 ->]]%list_elem_of_split Hu. rewrite (users_perm _ (m :: l1 ++ l2)) by (by rewrite Permutation_middle).
  rewrite users_cons, decide_True by done.
  unfold users. lia.
Qed.

(** A mapping that is seen through an entry uses it and no other one. *)
Lemma uses_entry dev i j phys size off : 0 <= off < 2 ^ 22 -> on_platform_bus dev = false ->
  uses j (Mapping dev (window + i * 2 ^ 22 + off) phys size) <-> j = i.
Proof. intros Hoff Hp. unfold uses. cbn. split; [intros [_ H]; lia | intros ->; split; [done | lia]]. Qed.

(** ** Devices see the memory that was mapped for them *)

Lemma seen_translate st live m k : dma_ok st live -> m ∈ live -> on_platform_bus (m_dev m) = false -> 0 <= k < m_size m ->
  translate bar_type st (m_addr m + k) = Some (m_phys m + k).
Proof.
  intros H Hin Hp Hk. destruct (d_live _ _ H m Hin Hp) as [_ [(i & b & Hi & Hb & Ha & Em & Hs) | Ht]]; [| by apply Ht].
  pose proof (Z.mod_pos_bound (m_phys m) (2 ^ 22) ltac:(lia)) as Hmod. pose proof (Z.div_mod (m_phys m) (2 ^ 22) ltac:(lia)).
  destruct (d_count _ _ H i b Hb) as [Hc _].
  assert (1 <= users live i) as Hu by (apply (users_in m); [done | split; [done | lia]]).
  rewrite Em, <- Z.add_assoc, translate_entry by lia. unfold bar1_lookup. rewrite (d_reg _ _ H i b Hb).
  destruct (Z.eqb_spec (ref_count b) 0); [lia |]. cbn. rewrite Ha. f_equal. lia.
Qed.

(** ** The searches in the table *)

Definition filled (n : nat) (st : dma) : Prop := forall i, 0 <= i < Z.of_nat n -> is_Some (bar1_state st !! i).

Lemma existing_spec n phys st : filled n st ->
  match bar1_existing n phys st with
  | Ret None => forall i b, 0 <= i < Z.of_nat n -> bar1_state st !! i = Some b -> address_bits b = phys .>> 22 -> ref_count b = 0
  | Ret (Some (i, st')) => exists b, 0 <= i < Z.of_nat n /\ bar1_state st !! i = Some b /\
    address_bits b = phys .>> 22 /\ ref_count b <> 0 /\
      0 <= swrap 16 (ref_count b + 1) /\ st' = set_bar1 i (Bar1State (swrap 16 (ref_count b + 1)) (address_bits b)) st
  | Err f => f = panic
  | Diverge => False
  end.
Proof.
  induction n as [|n IH]; intros Hf; cbn [bar1_existing]; [lia |]. destruct (Hf (Z.of_nat n) ltac:(lia)) as [b Hb].
  unfold get_bar1. rewrite Hb. cbn [of_option]. rewrite run_bind_Ret.
  destruct (Z.eqb_spec (address_bits b) (phys .>> 22)) as [Ha | Ha], (Z.eqb_spec (ref_count b) 0) as [Hr | Hr]; cbn [andb negb].
  2: { destruct (Z.ltb_spec (swrap 16 (ref_count b + 1)) 0); [done |]. exists b. split; [lia | done]. }
  all: specialize (IH ltac:(intros i Hi; apply Hf; lia)); destruct (bar1_existing n phys st) as [[[i st']|]| |]; [| | done..].
  all: try (destruct IH as (b' & ? & ?); exists b'; split; [lia | done]).
  all: intros i b' Hi Hb' Ha'; destruct (Z.eq_dec i (Z.of_nat n)) as [-> | ?]; [congruence | apply (IH i); [lia | done | done]].
Qed.

Lemma free_spec n phys st : filled n st ->
  match bar1_free n phys st with
  | Ret None => forall i b, 0 <= i < Z.of_nat n -> bar1_state st !! i = Some b -> ref_count b <> 0
  | Ret (Some (i, st')) => exists b, 0 <= i < Z.of_nat n /\ bar1_state st !! i = Some b /\ ref_count b = 0 /\
      st' = octeon_npi_write32 i (Bar1Index (uwrap 14 (phys .>> 22)) 1 1 1) (set_bar1 i (Bar1State 1 (u16 (phys .>> 22))) st)
  | _ => False
  end.
Proof.
  induction n as [|n IH]; intros Hf; cbn [bar1_free]; [lia |]. destruct (Hf (Z.of_nat n) ltac:(lia)) as [b Hb].
  unfold get_bar1. rewrite Hb. cbn [of_option]. rewrite run_bind_Ret.
  destruct (Z.eqb_spec (ref_count b) 0) as [Hr | Hr]; [exists b; split; [lia | done] |].
  specialize (IH ltac:(intros i Hi; apply Hf; lia)). destruct (bar1_free n phys st) as [[[i st']|]| |]; [| | done..].
  - destruct IH as (b' & ? & ?). exists b'. split; [lia | done].
  - intros i b' Hi Hb'. destruct (Z.eq_dec i (Z.of_nat n)) as [-> | ?]; [congruence | apply (IH i); [lia | done]].
Qed.

(** ** The table follows the mappings *)

Lemma users_other m live i j : i <> j -> (forall k, uses k m -> k = i) -> users (m :: live) j = users live j.
Proof. intros Hne Hu. rewrite users_cons, decide_False; [lia |]. intros Hj. by apply Hne, eq_sym, Hu. Qed.

Lemma seen_keep st st' m : (forall i b, uses i m -> bar1_state st !! i = Some b ->
  exists b', bar1_state st' !! i = Some b' /\ address_bits b' = address_bits b) ->
  on_platform_bus (m_dev m) = false -> seen st m -> seen st' m.
Proof.
  intros Hk Hp [(i & b & Hi & Hb & Ha & Em & Hs) | H]; [| by right]. left.
  pose proof (Z.mod_pos_bound (m_phys m) (2 ^ 22) ltac:(lia)).
  destruct (Hk i b) as (b' & Hb' & Hbits); [split; [done | lia] | done |]. exists i, b'. rewrite Hbits. done.
Qed.

(** One more mapping through the entry [i], which is free or has the address already. *)
Lemma entry_added st st' live dev phys size i b : dma_ok st live -> bar1_state st !! i = Some b ->
  (ref_count b <> 0 -> address_bits b = phys / 2 ^ 22) -> ref_count b + 1 < 2 ^ 15 ->
  buffer phys size -> phys mod 2 ^ 22 + size <= 2 ^ 22 -> on_platform_bus dev = false ->
  bar1_state st' = <[i := Bar1State (ref_count b + 1) (phys / 2 ^ 22)]> (bar1_state st) ->
    BAR1_INDEXX st' = <[i := Bar1Index (phys / 2 ^ 22) 1 1 1]> (BAR1_INDEXX st) ->
  dma_ok st' (Mapping dev (window + i * 2 ^ 22 + phys mod 2 ^ 22) phys size :: live).
Proof.
  intros [Hk Hc Hr Hl] Hb Hbits Hmax Hbuf Hfit Hp Es Er. set (m := Mapping _ _ _ _). destruct (Hc i b Hb) as [Hci _].
  pose proof (Z.mod_pos_bound phys (2 ^ 22) ltac:(lia)) as Hmod.
  assert (forall k, uses k m <-> k = i) as Hu by (intros k; by apply uses_entry).
  assert (0 <= ref_count b) as Hpos by (rewrite Hci; unfold users; lia). split.
  - intros j. rewrite Es, lookup_insert_is_Some', Hk. split; [intros [<- |]; [apply Hk; by exists b | done] | by right].
  - intros j b'. rewrite Es. intros [[<- <-] | [Hne Hb']]%lookup_insert_Some; cbn [ref_count].
    + rewrite users_cons, decide_True by (by apply Hu). lia.
    + rewrite (users_other m live i j) by (done || (intros k; apply Hu)). by apply Hc.
  - intros j b'. rewrite Es, Er. intros [[<- <-] | [Hne Hb']]%lookup_insert_Some; cbn [ref_count address_bits].
    + rewrite lookup_insert_eq. destruct (Z.eqb_spec (ref_count b + 1) 0); [lia | done].
    + rewrite lookup_insert_ne by done. by apply Hr.
  - intros m' [-> | Hin]%elem_of_cons Hp'.
    + split; [done |]. left. eexists i, _. rewrite Es, lookup_insert_eq. split; [apply Hk; by exists b | done].
    + destruct (Hl m' Hin Hp') as [Hbuf' Hs]. split; [done |]. eapply seen_keep; [| done | exact Hs].
      intros j b' Hj Hb'. rewrite Es.
      destruct (decide (i = j)) as [<- | Hne]; [| rewrite lookup_insert_ne by done; by exists b'].
      rewrite lookup_insert_eq. eexists. split; [done |]. cbn.
      pose proof (users_in m' live i Hin Hj). rewrite Hb in Hb'. injection Hb' as <-. symmetry. apply Hbits. lia.
Qed.

(** A mapping through the entry [i] is gone. *)
Lemma entry_removed st st' live m i b : dma_ok st (m :: live) -> bar1_state st !! i = Some b -> (forall k, uses k m <-> k = i) ->
  bar1_state st' = <[i := Bar1State (ref_count b - 1) (address_bits b)]> (bar1_state st) ->
  BAR1_INDEXX st' = (if ref_count b - 1 =? 0 then <[i := Bar1Index 0 0 0 0]> (BAR1_INDEXX st) else BAR1_INDEXX st) ->
    dma_ok st' live.
Proof.
  intros [Hk Hc Hr Hl] Hb Hu Es Er. destruct (Hc i b Hb) as [Hci Hmax].
  rewrite users_cons, decide_True in Hci by (by apply Hu). split.
  - intros j. rewrite Es, lookup_insert_is_Some', Hk. split; [intros [<- |]; [apply Hk; by exists b | done] | by right].
  - intros j b'. rewrite Es. intros [[<- <-] | [Hne Hb']]%lookup_insert_Some; cbn [ref_count]; [lia |].
    rewrite <- (users_other m live i j) by (done || (intros k; apply Hu)). by apply Hc.
  - intros j b'. rewrite Es, Er. intros [[<- <-] | [Hne Hb']]%lookup_insert_Some; cbn [ref_count address_bits].
    + destruct (Z.eqb_spec (ref_count b - 1) 0); [by rewrite lookup_insert_eq |]. rewrite (Hr i b Hb).
      destruct (Z.eqb_spec (ref_count b) 0); [| done]. unfold users in Hci. lia.
    + destruct (ref_count b - 1 =? 0); [rewrite lookup_insert_ne by done |]; by apply Hr.
  - intros m' Hin Hp'. destruct (Hl m' ltac:(by right) Hp') as [Hbuf' Hs]. split; [done |].
    eapply seen_keep; [| done | exact Hs]. intros j b' Hj Hb'. rewrite Es.
    destruct (decide (i = j)) as [<- | Hne]; [| rewrite lookup_insert_ne by done; by exists b'].
    rewrite lookup_insert_eq. eexists. split; [done |]. cbn. congruence.
Qed.

(** A mapping that needs no entry comes or goes. *)
Lemma fixed_users m live j : (on_platform_bus (m_dev m) = true \/ forall i, 0 <= i < 32 -> ~ uses i m) ->
  0 <= j < 32 -> users (m :: live) j = users live j.
Proof.
  intros Hf Hj. rewrite users_cons, decide_False; [lia |]. intros Hu.
  destruct Hf as [Hp | Hf]; [destruct Hu; congruence | by apply (Hf j)].
Qed.

Lemma fixed_added st live m : dma_ok st live -> (on_platform_bus (m_dev m) = true \/ forall i, 0 <= i < 32 -> ~ uses i m) ->
  (on_platform_bus (m_dev m) = false -> buffer (m_phys m) (m_size m) /\ seen st m) -> dma_ok st (m :: live).
Proof.
  intros [Hk Hc Hr Hl] Hf Hs. split; [done | | done |].
  - intros i b Hb. rewrite fixed_users; [by apply Hc | done | apply Hk; by exists b].
  - intros m' [-> | Hin]%elem_of_cons; [done | by apply Hl].
Qed.

Lemma fixed_removed st live m : dma_ok st (m :: live) -> (on_platform_bus (m_dev m) = true \/ forall i, 0 <= i < 32 ->
  ~ uses i m) -> dma_ok st live.
Proof.
  intros [Hk Hc Hr Hl] Hf. split; [done | | done | intros m' Hin; apply Hl; by right].
  intros i b Hb. rewrite <- (fixed_users m); [by apply Hc | done | apply Hk; by exists b].
Qed.

(** ** Mapping *)

(** The last entry that a device with this mask may use. *)
Definition last_index (mask : Z) : Z :=
  if decide (bar_type = OCTEON_DMA_BAR_TYPE_BIG) then 31 else if mask <? 2 ^ 27 then mask / 2 ^ 22 else 31.

(** All entries that the device may use have the addresses of other mappings. *)
Definition busy (live : list mapping) (phys mask : Z) : Prop :=
  forall i, 0 <= i <= last_index mask -> exists m, m ∈ live /\ uses i m /\ m_phys m / 2 ^ 22 <> phys / 2 ^ 22.

Lemma last_index_range mask : 0 <= mask -> 0 <= last_index mask < 32.
Proof.
  intros Hm. unfold last_index. case_decide; [lia |]. destruct (Z.ltb_spec mask (2 ^ 27)); [| lia].
  split; [apply Z.div_pos; lia | apply Z.div_lt_upper_bound; lia].
Qed.

Lemma entry_address i x : 0 <= i -> 0 <= x -> (i .<< 22) .| (x .& ((1 .<< 22) - 1)) = i * 2 ^ 22 + x mod 2 ^ 22.
Proof.
  intros Hi Hx. change ((1 .<< 22) - 1) with (Z.ones 22). rewrite Z.land_ones by lia.
  pose proof (Z.mod_pos_bound x (2 ^ 22) ltac:(lia)) as Hm.
  rewrite <- (Z.shiftl_mul_pow2 i 22) by lia. assert ((i .<< 22) .& (x mod 2 ^ 22) = 0) as E;
    [| by rewrite Z.add_nocarry_lxor, Z.lxor_lor].
  apply Z.bits_inj'. intros n Hn. rewrite Z.land_spec, Z.bits_0.
  destruct (Z.ltb_spec n 22); [by rewrite Z.shiftl_spec_low
    | by rewrite (testbit_high (x mod 2 ^ 22) 22 n), andb_false_r].
Qed.

Lemma busy_entry st live i b : dma_ok st live -> bar1_state st !! i = Some b -> ref_count b <> 0 ->
  exists m, m ∈ live /\ uses i m /\ m_phys m / 2 ^ 22 = address_bits b.
Proof.
  intros H Hb Hr. destruct (d_count _ _ H i b Hb) as [Hc _]. unfold users in Hc.
  destruct (filter (uses i) live) as [|m l] eqn:E; [simpl in Hc; lia |].
  assert (m ∈ filter (uses i) live) as [Hu Hin]%list_elem_of_filter by (rewrite E; left). exists m. split; [done |].
  split; [done |].
  destruct (d_live _ _ H m Hin (proj1 Hu)) as [(_ & Hsz & _) [(j & b' & Hj & Hb' & Ha & Em & _) | Hno]].
  - pose proof (Z.mod_pos_bound (m_phys m) (2 ^ 22) ltac:(lia)). destruct Hu as [_ Hu]. assert (j = i) as -> by lia. congruence.
  - exfalso. destruct (Hno 0 ltac:(lia)) as (_ & Hno' & _). apply (Hno' i); [apply (d_keys _ _ H); by exists b |].
    rewrite Z.add_0_r. apply Hu.
Qed.

Lemma bar1_map_ok st live dev phys size mask : dma_ok st live -> buffer phys size -> 0 <= mask -> on_platform_bus dev = false ->
  match bar1_map bar_type phys size mask st with
  | Ret (r, st') => r = DMA_ERROR /\ st' = st /\ busy live phys mask \/ r <> DMA_ERROR /\
    dma_ok st' (Mapping dev r phys size :: live)
  | Err f => f = panic
  | Diverge => False
  end.
Proof.
  intros H (Hp & Hsz & Hend) Hm Hdev. unfold bar1_map. rewrite uwrap_small by lia.
  rewrite !(Z.shiftr_div_pow2 _ 22), (Z.shiftl_1_l 27) by lia.
  destruct (Z.eqb_spec (phys / 2 ^ 22) ((phys + size - 1) / 2 ^ 22)) as [Efit | ?]; cbn [negb]; [| done].
  pose proof (Z.div_mod phys (2 ^ 22) ltac:(lia)). pose proof (Z.mod_pos_bound phys (2 ^ 22) ltac:(lia)).
  pose proof (Z.div_mod (phys + size - 1) (2 ^ 22) ltac:(lia)).
  pose proof (Z.mod_pos_bound (phys + size - 1) (2 ^ 22) ltac:(lia)).
  assert (0 <= phys / 2 ^ 22 < 2 ^ 14) as Hbits by lia. assert (phys mod 2 ^ 22 + size <= 2 ^ 22) as Hfit by lia.
  fold (last_index mask). pose proof (last_index_range mask Hm) as Hli. set (n := Z.to_nat (last_index mask + 1)).
  assert (Z.of_nat n = last_index mask + 1) as En by lia.
  assert (forall i, 0 <= i < 32 -> (let r :=
    (i .<< 22) .| (phys .& ((1 .<< 22) - 1)) in if decide (bar_type = OCTEON_DMA_BAR_TYPE_BIG) then u64
    (r + (2 .<< 30)) else r) =
    window + i * 2 ^ 22 + phys mod 2 ^ 22 /\ window + i * 2 ^ 22 + phys mod 2 ^ 22 <> DMA_ERROR) as Hres.
  { intros i Hi. cbn zeta. rewrite entry_address by lia. unfold OcteonDmaMap.window.
    case_decide; [rewrite Z.shiftl_mul_pow2, uwrap_small by lia; lia | lia]. }
  cbn zeta in Hres.
  assert (filled n st) as Hf by (intros i Hi; apply (d_keys _ _ H); lia).
  pose proof (existing_spec n phys st Hf) as He. destruct (bar1_existing n phys st) as [[[i st']|]| |]; [| | done..];
    rewrite run_bind_Ret.
  - destruct He as (b & Hi & Hb & Ha & Hr & Hs & ->). rewrite Z.shiftr_div_pow2 in Ha by lia.
    destruct (Hres i ltac:(lia)) as [-> ?]. right. split; [done |].
    destruct (d_count _ _ H i b Hb) as [Hc Hmax]. assert (ref_count b + 1 < 2 ^ 15) as Hlt.
    { destruct (Z.eq_dec (ref_count b + 1) (2 ^ 15)) as [E |]; [| lia]. rewrite E in Hs. by vm_compute in Hs. }
    apply (entry_added st _ live dev phys size i b); try done; cbn [set_bar1 bar1_state BAR1_INDEXX].
    + by rewrite swrap_small, Ha by (unfold users in Hc; lia).
    + rewrite insert_id; [done |]. rewrite (d_reg _ _ H i b Hb). destruct (Z.eqb_spec (ref_count b) 0); [done | by rewrite Ha].
  - pose proof (free_spec n phys st Hf) as Hfree. destruct (bar1_free n phys st) as [[[i st']|]| |]; [| | done..];
      rewrite run_bind_Ret.
    + destruct Hfree as (b & Hi & Hb & Hr & ->). destruct (Hres i ltac:(lia)) as [-> ?]. right. split; [done |].
      apply (entry_added st _ live dev phys size i b); try done;
        cbn [set_bar1 bar1_state BAR1_INDEXX];
        [by rewrite Hr | by rewrite Hr, Z.shiftr_div_pow2, uwrap_small by lia
        | by rewrite Z.shiftr_div_pow2, uwrap_small by lia].
    + left. split; [done |]. split; [done |]. intros i Hi. destruct (proj2 (d_keys _ _ H i) ltac:(lia)) as [b Hb].
      destruct (busy_entry st live i b H Hb (Hfree i b ltac:(lia) Hb)) as (m & Hin & Hu & Hbm).
      exists m. split; [done |]. split; [done |]. rewrite Hbm. intros Ha. apply (Hfree i b ltac:(lia) Hb).
      apply (He i b); [lia | done | by rewrite Z.shiftr_div_pow2 by lia].
Qed.

End pci.

(** Decides the comparisons of addresses with constants. *)
Ltac compare :=
  repeat match goal with
  | |- context [?x <? ?y] => destruct (Z.ltb_spec x y); try lia
  | |- context [?x >? ?y] => destruct (Z.gtb_spec x y); try lia
  | |- context [?x >=? ?y] => destruct (Z.geb_spec x y); try lia
  | |- context [?x <=? ?y] => destruct (Z.leb_spec x y); try lia
  end.

Lemma bar2_fixed bar_type phys size : bar_type = OCTEON_DMA_BAR_TYPE_SMALL \/ bar_type = OCTEON_DMA_BAR_TYPE_BIG ->
  buffer phys size ->
  fixed bar_type (u64 (phys + BAR2_PCI_ADDRESS)) phys size.
Proof.
  intros Hpci (? & ? & ?) k Hk. rewrite uwrap_small by lia.
  split; [destruct Hpci as [-> | ->]; unfold unmap_index; by compare |]. split.
  - intros i Hi. unfold window. case_decide; lia.
  - intros st. unfold translate. compare. f_equal. lia.
Qed.

Lemma big_fixed r phys size : 2 ^ 12 <= r -> (r + size <= 2 ^ 31 \/ 2 ^ 31 + 2 ^ 27 <= r) ->
  r + size <= 2 ^ 32 - 2 ^ 28 -> 1 <= size ->
  (r + size <= 2 ^ 28 /\ r = phys \/ 2 ^ 28 <= r /\ r + size <= 2 ^ 29 /\ r + 2 ^ 34 = phys \/ 2 ^ 29 <= r /\
    r = phys) -> fixed OCTEON_DMA_BAR_TYPE_BIG r phys size.
Proof.
  intros H1 H2 H3 Hs H4 k Hk. split; [unfold unmap_index; rewrite !Z.shiftl_mul_pow2 by lia; by compare |]. split.
  - intros i Hi. unfold window. rewrite decide_True by done. lia.
  - intros st. unfold translate. compare; f_equal; lia.
Qed.

Lemma map_big_ok cn phys size mask : buffer phys size ->
  match map_big cn phys size mask with
  | Ret (Some r) => r <> DMA_ERROR /\ fixed OCTEON_DMA_BAR_TYPE_BIG r phys size
  | Ret None => True
  | Err f => f = panic
  | Diverge => False
  end.
Proof.
  intros Hb. pose proof Hb as (? & ? & ?). unfold map_big. destruct (Z.gtb_spec mask BAR2_PCI_ADDRESS);
    [split; [rewrite uwrap_small by lia; lia | by apply bar2_fixed; [right |]] |].
  rewrite !Z.shiftl_mul_pow2, (uwrap_small 64 (phys + size)) by lia. destruct cn; cbn [negb andb]; compare; try done;
    (split; [lia | apply big_fixed; lia]).
Qed.

(** ** The operations *)

Section operations.
Context (B S R : Z) (cn : bool) (bar_type : octeon_dma_bar_type) (Hpci : bar_type = OCTEON_DMA_BAR_TYPE_SMALL \/
  bar_type = OCTEON_DMA_BAR_TYPE_BIG).

Lemma fixed_ok st live dev r phys size : dma_ok bar_type st live -> buffer phys size -> on_platform_bus dev = false ->
  fixed bar_type r phys size ->
  dma_ok bar_type st (Mapping dev r phys size :: live).
Proof.
  intros H Hb Hp Hf. apply fixed_added; [done | | intros _; split; [done | by right]]. right. intros i Hi [_ Hu].
  destruct (Hf 0 ltac:(destruct Hb; lia)) as (_ & Hno & _).
  apply (Hno i Hi). rewrite Z.add_0_r. apply Hu.
Qed.

Lemma map_ok st live dev phys size : dma_ok bar_type st live -> buffer phys size -> 0 <= dev_mask dev ->
  match octeon_map_dma_mem B S R cn bar_type (Some dev) phys size st with
  | Ret (r, st') => r = DMA_ERROR /\ st' = st /\ busy bar_type live phys (dev_mask dev) \/ r <> DMA_ERROR /\
    dma_ok bar_type st' (Mapping dev r phys size :: live)
  | Err f => f = panic
  | Diverge => False
  end.
Proof.
  intros H Hb Hm. unfold octeon_map_dma_mem. fold (dev_mask dev). destruct (on_platform_bus dev) eqn:Hp.
  - destruct Hb as (? & ? & ?). right. split; [lia |]. apply fixed_added; [done | by left | cbn; congruence].
  - pose proof (bar1_map_ok bar_type st live dev phys size (dev_mask dev) H Hb Hm Hp) as Hbar.
    pose proof (bar2_fixed bar_type phys size Hpci Hb) as H2.
    pose proof (fun r => fixed_ok st live dev r phys size H Hb Hp) as Hfix. destruct Hpci as [-> | ->].
    + unfold map_small. destruct (Z.gtb_spec (dev_mask dev) BAR2_PCI_ADDRESS); [| exact Hbar]. right.
      split; [destruct Hb as (? & ? & ?); rewrite uwrap_small by lia; lia | by apply Hfix].
    + pose proof (map_big_ok cn phys size (dev_mask dev) Hb) as Hbig.
      destruct (map_big cn phys size (dev_mask dev)) as [[r|]| |]; [| | done..]; rewrite run_bind_Ret; [| exact Hbar].
      right. split; [apply Hbig | by apply Hfix, Hbig].
Qed.

Lemma unmap_ok st live m : dma_ok bar_type st (m :: live) ->
  exists st', octeon_unmap_dma_mem bar_type (Some (m_dev m)) (m_addr m) st = Ret st' /\ dma_ok bar_type st' live.
Proof.
  intros H. unfold octeon_unmap_dma_mem. cbn [of_option]. rewrite run_bind_Ret.
  destruct (on_platform_bus (m_dev m)) eqn:Hp; [exists st; split; [done |]; apply (fixed_removed _ _ _ m);
    [done | by left] |].
  destruct (d_live _ _ _ H m ltac:(by left) Hp) as [(? & Hsz & ?) [(i & b & Hi & Hb & Ha & Em & Hs) | Hf]].
  - pose proof (Z.mod_pos_bound (m_phys m) (2 ^ 22) ltac:(lia)). rewrite Em, (unmap_entry bar_type Hpci) by lia.
    rewrite run_bind_Ret. destruct (Z.gtb_spec i 31); [lia |]. unfold get_bar1. rewrite Hb. cbn [of_option].
    rewrite run_bind_Ret.
    destruct (d_count _ _ _ H i b Hb) as [Hc Hmax].
    pose proof (users_in bar_type m (m :: live) i ltac:(by left)) as Hu.
    assert (uses bar_type i m) as Hui by (split; [done | lia]). specialize (Hu Hui).
    rewrite swrap_small by lia. assert (forall k, uses bar_type k m <-> k = i) as Huse by (intros k; split;
      [intros [_ Hk]; lia | by intros ->]).
    destruct (Z.eqb_spec (ref_count b - 1) 0) as [E0 | ?]; [| destruct (Z.ltb_spec (ref_count b - 1) 0); [lia |]];
      eexists; (split; [reflexivity |]); apply (entry_removed bar_type st _ live m i b H Hb Huse); try done;
      cbn [set_bar1 BAR1_INDEXX].
    + by rewrite E0.
    + by destruct (Z.eqb_spec (ref_count b - 1) 0).
  - destruct (Hf 0 ltac:(lia)) as (Hun & Hno & _). rewrite Z.add_0_r in Hun, Hno. rewrite Hun, run_bind_Ret. exists st.
    split; [done |]. apply (fixed_removed _ _ _ m); [done |]. right. intros i Hi [_ Hu]. by apply (Hno i).
Qed.

(** Part of a buffer that is mapped. *)
Lemma part_ok st live dev r phys size off len : dma_ok bar_type st (Mapping dev r phys size :: live) ->
  buffer phys size -> 0 <= off -> 1 <= len -> off + len <= size ->
  dma_ok bar_type st (Mapping dev (r + off) (phys + off) len :: live).
Proof.
  intros H Hb Ho Hl Hs. pose proof Hb as (? & ? & ?). destruct (on_platform_bus dev) eqn:Hp.
  { apply fixed_added; [apply (fixed_removed _ _ _ (Mapping dev r phys size)); [done | by left] | by left | cbn; congruence]. }
  destruct (d_live _ _ _ H (Mapping dev r phys size) ltac:(by left) Hp) as [_ [(i & b & Hi & Hbi & Ha & Em & Hfit)
    | Hf]]; cbn [m_addr m_phys m_size m_dev] in *.
  - pose proof (Z.div_mod phys (2 ^ 22) ltac:(lia)). pose proof (Z.mod_pos_bound phys (2 ^ 22) ltac:(lia)).
    assert ((phys + off) / 2 ^ 22 = phys / 2 ^ 22) as Ed by (symmetry;
      apply (Z.div_unique _ _ _ (phys mod 2 ^ 22 + off)); lia).
    assert ((phys + off) mod 2 ^ 22 = phys mod 2 ^ 22 + off) as Emod by (symmetry;
      apply (Z.mod_unique _ _ (phys / 2 ^ 22)); lia).
    assert (forall j, users bar_type (Mapping dev (r + off) (phys + off) len :: live) j = users bar_type
      (Mapping dev r phys size :: live) j) as Hus.
    { intros j. rewrite !users_cons. f_equal.
      assert (uses bar_type j (Mapping dev (r + off) (phys + off) len) <-> uses bar_type j (Mapping dev r phys size))
        as Hj.
      { unfold uses. cbn [m_addr m_dev]. split; intros [? Hj]; (split; [done | lia]). }
      destruct (decide _), (decide _); tauto. }
    destruct H as [Hk Hc Hr Hlive]. split; [done | intros j b'; rewrite Hus; apply Hc | done |].
    intros m [-> | Hin]%elem_of_cons Hp'; [| apply Hlive; [by right | done]]. cbn [m_addr m_phys m_size].
    split; [split; lia |].
    left. exists i, b. cbn [m_addr m_phys m_size]. rewrite Ed, Emod. split; [done |]. split; [done |]. split; [done |].
    split; lia.
  - apply fixed_ok; [| split; lia | done |].
    + apply (fixed_removed _ _ _ (Mapping dev r phys size)); [done |]. right. intros i Hi [_ Hu].
      destruct (Hf 0 ltac:(lia)) as (_ & Hno & _). apply (Hno i Hi). rewrite Z.add_0_r. apply Hu.
    + intros k Hk. rewrite <- !Z.add_assoc. apply Hf. lia.
Qed.

End operations.

End OcteonDmaMap.
