(* ===== verification/OcteonDmaSystem.v ===== *)
(** * DMA addresses: the system

    Drivers that map and unmap buffers in any order, through each of the functions
    of the interface, and the theorems on the states they reach. *)
From stdpp Require Import relations.
From S2P Require Import Prelude OcteonDma OcteonDmaMap.

Module OcteonDmaSystem.
Import OcteonDma OcteonDmaMap.

(** ** Steps *)

(** [live] is what the drivers believe to have mapped.  [unseen] records that a [dma_map_page] has failed and its driver
    could not see it. *)
Record system := System { table : dma; live : list mapping; unseen : bool }.

(** A driver checks the address it gets. *)
Definition added (dev : device) (r phys size : Z) (l : list mapping) : list mapping :=
  if dma_mapping_error r then l else Mapping dev r phys size :: l.

Section system.
Context (B S R : Z) (cn : bool) (bar_type : octeon_dma_bar_type).

(** Whether a [dma_map_page] fails with an address that is not the error. *)
Definition fails_unseen (dev : device) (page offset : Z) (st : dma) : bool :=
  match octeon_map_dma_mem B S R cn bar_type (Some dev) page PAGE_SIZE st with
  | Ret (a, _) => (a =? DMA_ERROR) && negb (dma_mapping_error (u64 (a + offset)))
  | _ => false
  end.

(** Drivers unmap what they have mapped, once, with the address they got.  A driver that maps a part of a page, which may
    reach beyond the page, can rely on the bytes of the page.  Each step is one call, which takes the lock of the table. *)
Inductive step (s : system) : system -> Prop :=
  | Step_map dev phys size r st' :
      buffer phys size -> 0 <= dev_mask dev -> dma_map_single B S R cn bar_type (Some dev) phys size (table s) = Ret (r, st') ->
      step s (System st' (added dev r phys size (live s)) (unseen s))
  | Step_map_page dev page offset size r st' :
      buffer page PAGE_SIZE -> 0 <= dev_mask dev -> 0 <= offset < PAGE_SIZE -> 1 <= size ->
      dma_map_page B S R cn bar_type (Some dev) page offset (table s) = Ret (r, st') ->
      step s (System st' (added dev r (page + offset) (Z.min size (PAGE_SIZE - offset)) (live s))
        (unseen s || fails_unseen dev page offset (table s)))
  | Step_unmap m l st' :
      live s ≡ₚ m :: l -> dma_unmap_single bar_type (Some (m_dev m)) (m_addr m) (table s) = Ret st' ->
      step s (System st' l (unseen s)).

Definition reachable (s : system) : Prop := rtc step (System octeon_pci_setup [] false) s.

Context (Hpci : bar_type = OCTEON_DMA_BAR_TYPE_SMALL \/ bar_type = OCTEON_DMA_BAR_TYPE_BIG).

Lemma lookup_table {A} (x : A) i : (list_to_map ((fun i => (i, x)) <$> seqZ 0 32) : gmap Z A) !! i = if decide
  (0 <= i < 32) then Some x else None.
Proof.
  case_decide as Hi.
  - apply elem_of_list_to_map; [rewrite <- list_fmap_compose; cbn; rewrite list_fmap_id; apply NoDup_seqZ |].
    apply list_elem_of_fmap. exists i. split; [done |]. by apply elem_of_seqZ.
  - apply not_elem_of_list_to_map_1. rewrite <- list_fmap_compose. cbn. rewrite list_fmap_id. intros H%elem_of_seqZ. lia.
Qed.

Lemma setup_ok : dma_ok bar_type octeon_pci_setup [].
Proof.
  split; cbn [octeon_pci_setup bar1_state BAR1_INDEXX].
  - intros i. rewrite lookup_table. case_decide; split; [done | by eexists | by intros [] | done].
  - intros i b. rewrite lookup_table. case_decide; [| done]. by intros [= <-].
  - intros i b. rewrite !lookup_table. case_decide; [| done]. by intros [= <-].
  - by intros m ?%not_elem_of_nil.
Qed.

Lemma perm_ok st l l' : l ≡ₚ l' -> dma_ok bar_type st l -> dma_ok bar_type st l'.
Proof.
  intros P [Hk Hc Hr Hl]. split; [done | | done | intros m Hm; apply Hl; by rewrite P]. intros i b Hb.
  rewrite <- (users_perm bar_type _ _ i P). by apply Hc.
Qed.

(** The addresses that devices get are far below the error. *)
Lemma fixed_range r phys size : buffer phys size -> fixed bar_type r phys size -> 0 <= r < 2 ^ 41.
Proof.
  intros (H0 & Hs & He) Hf. destruct (Hf 0 ltac:(lia)) as (_ & _ & Ht). specialize (Ht (Dma ∅ ∅)). revert Ht.
  rewrite !Z.add_0_r. unfold translate, bar1_lookup. cbn [BAR1_INDEXX]. rewrite !lookup_empty.
  destruct Hpci as [-> | ->]; compare; intros [= E]; lia.
Qed.

Lemma mapped_range st l dev r phys size st0 : buffer phys size ->
  octeon_map_dma_mem B S R cn bar_type (Some dev) phys size st0 = Ret (r, st) ->
  dma_ok bar_type st (Mapping dev r phys size :: l) -> 0 <= r < 2 ^ 41.
Proof.
  intros Hb E Hok. pose proof Hb as (? & ? & ?). destruct (on_platform_bus dev) eqn:Hp.
  { unfold octeon_map_dma_mem in E. rewrite Hp in E. injection E as <- <-. lia. }
  destruct (d_live _ _ _ Hok (Mapping dev r phys size) ltac:(by left) Hp) as [_ [(i & b & Hi & _ & _ & Em & _) | Hf]];
    [| by apply (fixed_range r phys size)].
  cbn [m_addr m_phys] in Em. pose proof (Z.mod_pos_bound phys (2 ^ 22) ltac:(lia)). rewrite Em.
  destruct (window_eq bar_type Hpci) as [[-> _] | [-> _]]; lia.
Qed.

Lemma map_page_ok s dev page offset size r st' : dma_ok bar_type (table s) (live s) ->
  buffer page PAGE_SIZE -> 0 <= dev_mask dev -> 0 <= offset < PAGE_SIZE -> 1 <= size ->
  dma_map_page B S R cn bar_type (Some dev) page offset (table s) = Ret (r, st') ->
  fails_unseen dev page offset (table s) = false ->
  dma_ok bar_type st' (added dev r (page + offset) (Z.min size (PAGE_SIZE - offset)) (live s)).
Proof.
  intros H Hb Hm Ho Hs E Hf. unfold dma_map_page in E. unfold fails_unseen in Hf.
  pose proof (map_ok B S R cn bar_type Hpci (table s) (live s) dev page PAGE_SIZE H Hb Hm) as Hmap.
  destruct (octeon_map_dma_mem B S R cn bar_type (Some dev) page PAGE_SIZE (table s)) as [[a st1]| |] eqn:E1; [| done..].
  rewrite run_bind_Ret in E. injection E as <- <-. destruct Hmap as [(-> & -> & _) | [Hne Hok]].
  - rewrite Z.eqb_refl in Hf. apply negb_false_iff in Hf. unfold added. by rewrite Hf.
  - pose proof (mapped_range _ _ _ _ _ _ _ Hb E1 Hok). rewrite uwrap_small by lia. unfold added, dma_mapping_error.
    destruct (Z.eqb_spec (a + offset) DMA_ERROR); [lia |].
    eapply part_ok; [exact Hpci | exact Hok | done | lia..].
Qed.

Lemma dma_step_ok s s' : (unseen s = false -> dma_ok bar_type (table s) (live s)) -> step s s' ->
  unseen s' = false -> dma_ok bar_type (table s') (live s').
Proof.
  intros H [dev phys size r st' Hb Hm E | dev page offset size r st' Hb Hm Ho Hs E | m l st' P E]; cbn [table live unseen].
  - intros Hu. specialize (H Hu).
    pose proof (map_ok B S R cn bar_type Hpci (table s) (live s) dev phys size H Hb Hm) as Hmap.
    unfold dma_map_single in E. rewrite E in Hmap. unfold added, dma_mapping_error.
    destruct (Z.eqb_spec r DMA_ERROR), Hmap as [(? & -> & _) | [? ?]]; done.
  - intros [Hu Hf]%orb_false_iff. by apply map_page_ok; [apply H | ..].
  - intros Hu. destruct (unmap_ok bar_type Hpci (table s) l m) as (st2 & E2 & Hok); [by eapply perm_ok, H |].
    unfold dma_unmap_single in E. rewrite E in E2. by injection E2 as <-.
Qed.

Lemma dma_reachable_ok s : reachable s -> unseen s = false -> dma_ok bar_type (table s) (live s).
Proof.
  apply (rtc_ind_r (fun s => unseen s = false -> dma_ok bar_type (table s) (live s)) (System octeon_pci_setup [] false)).
  - intros _. apply setup_ok.
  - intros x y _ Hs IH. by apply (dma_step_ok x).
Qed.

(** Mapping a list of segments is mapping each of them. *)
Fixpoint segments (dev : device) (sg : list (Z * Z)) (addrs : list Z) (l : list mapping) : list mapping :=
  match sg, addrs with
  | (phys, size) :: sg, a :: addrs => segments dev sg addrs (added dev a phys size l)
  | _, _ => l
  end.

Lemma segments_reachable dev sg : forall s addrs st', reachable s -> Forall (fun e => buffer e.1 e.2) sg -> 0 <= dev_mask dev ->
  map_segments B S R cn bar_type (Some dev) sg (table s) = Ret (addrs, st') ->
    reachable (System st' (segments dev sg addrs (live s)) (unseen s)).
Proof.
  induction sg as [|[phys size] sg IH]; intros s addrs st' Hr Hsg Hm; cbn [map_segments segments];
    [intros [= <- <-]; by destruct s |].
  apply Forall_cons in Hsg as [Hb Hsg]. destruct (octeon_map_dma_mem B S R cn bar_type (Some dev) phys size (table s))
    as [[a st1]| |] eqn:E; [| done..]. rewrite run_bind_Ret.
  destruct (map_segments B S R cn bar_type (Some dev) sg st1) as [[l st2]| |] eqn:E2; [| done..]. rewrite run_bind_Ret.
  intros [= <- <-].
  apply (IH (System st1 (added dev a phys size (live s)) (unseen s))); [| done | done | done].
  eapply rtc_r; [exact Hr |]. by apply Step_map.
Qed.

End system.

(** ** An example *)

(** A device of 32 bits that has 32 pages mapped, each in a region of its own. *)
Definition example_dev : device := Device 0xffffffff None false.
Definition example_sg : list (Z * Z) := (fun i => ((64 + i) * 2 ^ 22, PAGE_SIZE)) <$> seqZ 0 32.
Definition example_addrs : list Z := (fun i => (31 - i) * 2 ^ 22) <$> seqZ 0 32.
Definition example_table : dma :=
  match map_segments 0 0 0 false OCTEON_DMA_BAR_TYPE_SMALL (Some example_dev) example_sg octeon_pci_setup
    with Ret (_, st) => st | _ => octeon_pci_setup end.
Definition example : system := System example_table (segments example_dev example_sg example_addrs []) false.

Lemma example_map B S R cn : map_segments B S R cn OCTEON_DMA_BAR_TYPE_SMALL (Some example_dev) example_sg
  octeon_pci_setup = Ret (example_addrs, example_table).
Proof. vm_compute. reflexivity. Qed.

Lemma example_buffers : Forall (fun e => buffer e.1 e.2) example_sg.
Proof. apply Forall_fmap, Forall_forall. intros i Hi%elem_of_seqZ. unfold compose, buffer. cbn [fst snd]. lia. Qed.

Lemma dma_example_reachable B S R cn : reachable B S R cn OCTEON_DMA_BAR_TYPE_SMALL example.
Proof.
  apply (segments_reachable B S R cn OCTEON_DMA_BAR_TYPE_SMALL example_dev example_sg (System octeon_pci_setup [] false));
    [apply rtc_refl | apply example_buffers | | apply example_map].
  vm_compute. discriminate.
Qed.

(** The first page is mapped once more, from the byte 100 on. *)
Definition example_parts : system :=
  System (match dma_map_page 0 0 0 false OCTEON_DMA_BAR_TYPE_SMALL (Some example_dev) (64 * 2 ^ 22) 100 example_table
    with Ret (_, st) => st | _ => example_table end)
    (Mapping example_dev (31 * 2 ^ 22 + 100) (64 * 2 ^ 22 + 100) (PAGE_SIZE - 100) :: live example) false.

Lemma example_parts_reachable : reachable 0 0 0 false OCTEON_DMA_BAR_TYPE_SMALL example_parts.
Proof.
  eapply rtc_r; [apply dma_example_reachable |].
  apply (Step_map_page 0 0 0 false OCTEON_DMA_BAR_TYPE_SMALL example example_dev (64 * 2 ^ 22) 100 8000 (31 * 2 ^ 22 + 100)
    (table example_parts)); [unfold buffer; lia | vm_compute; discriminate | lia | lia | vm_compute; reflexivity].
Qed.

(** ** Properties *)

(** C7: drivers of PCI devices map and unmap in any order, check the addresses they get, and unmap once what they have
    mapped.  As long as no dma_map_page at an offset inside its page has failed, which its driver cannot see, a device
    that accesses any byte at an address that it got reaches exactly the byte of the buffer that was mapped, of a page
    the bytes up to its end, whatever else was mapped or unmapped since. *)
Theorem dma_devices_see_buffers B S R cn bar_type s m k :
  bar_type = OCTEON_DMA_BAR_TYPE_SMALL \/ bar_type = OCTEON_DMA_BAR_TYPE_BIG -> reachable B S R cn bar_type s ->
  unseen s = false -> m ∈ live s -> on_platform_bus (m_dev m) = false -> 0 <= k < m_size m ->
  translate bar_type (table s) (m_addr m + k) = Some (m_phys m + k).
Proof.
  intros Hpci Hr Hu Hin Hp Hk. by apply (seen_translate bar_type Hpci _ (live s)); [apply (dma_reachable_ok B S R cn) | ..].
Qed.

Lemma dma_devices_see_buffers_witness : translate OCTEON_DMA_BAR_TYPE_SMALL (table example_parts) (31 * 2 ^ 22 + 105) = Some
  (64 * 2 ^ 22 + 105).
Proof.
  apply (dma_devices_see_buffers 0 0 0 false OCTEON_DMA_BAR_TYPE_SMALL example_parts (Mapping example_dev (31 * 2 ^ 22 + 100)
    (64 * 2 ^ 22 + 100) (PAGE_SIZE - 100)) 5); [by left | apply example_parts_reachable | reflexivity | | reflexivity
      | cbn [m_size]; lia].
  apply (bool_decide_unpack _). vm_compute. exact I.
Defined.

(** C18: in every state that is reached as long as no dma_map_page at an offset inside its page has failed unseen, the
    reference count of each entry of BAR1 is the number of mappings through it, the entry is valid exactly as long as
    there is one, unmapping what is mapped never panics, and mapping fails only when every entry that the device may use
    has the address of another mapping, and then changes nothing. *)
Theorem dma_table_exact B S R cn bar_type s :
  bar_type = OCTEON_DMA_BAR_TYPE_SMALL \/ bar_type = OCTEON_DMA_BAR_TYPE_BIG -> reachable B S R cn bar_type s ->
  unseen s = false ->
  (forall i, 0 <= i < 32 -> exists b r, bar1_state (table s) !! i = Some b /\ BAR1_INDEXX (table s) !! i = Some r /\
     ref_count b = users bar_type (live s) i /\ (addr_v r = 1 <-> users bar_type (live s) i <> 0)) /\
  (forall m l, live s ≡ₚ m :: l -> exists st', octeon_unmap_dma_mem bar_type (Some (m_dev m)) (m_addr m) (table s) = Ret st') /\
  (forall dev phys size st', buffer phys size -> 0 <= dev_mask dev ->
     octeon_map_dma_mem B S R cn bar_type (Some dev) phys size (table s) = Ret (DMA_ERROR, st') ->
     st' = table s /\ busy bar_type (live s) phys (dev_mask dev)).
Proof.
  intros Hpci Hr Hu. pose proof (dma_reachable_ok B S R cn bar_type Hpci s Hr Hu) as H. split; [| split].
  - intros i Hi. destruct (proj2 (d_keys _ _ _ H i) Hi) as [b Hb]. destruct (d_count _ _ _ H i b Hb) as [Hc _].
    exists b. eexists. split; [done |]. split; [by apply (d_reg _ _ _ H) |]. split; [done |].
    rewrite <- Hc. by destruct (Z.eqb_spec (ref_count b) 0).
  - intros m l P. destruct (unmap_ok bar_type Hpci (table s) l m) as (st' & E & _);
      [by apply (perm_ok bar_type _ (live s)) | by exists st'].
  - intros dev phys size st' Hb Hm E. pose proof (map_ok B S R cn bar_type Hpci (table s) (live s) dev phys size H Hb
      Hm) as Hmap. rewrite E in Hmap.
    destruct Hmap as [(_ & -> & Hbusy) | [[] _]]; done.
Qed.

Lemma dma_table_exact_witness : exists st', octeon_unmap_dma_mem OCTEON_DMA_BAR_TYPE_SMALL (Some example_dev) 0
  (table example) = Ret st'.
Proof.
  destruct (dma_table_exact 0 0 0 false OCTEON_DMA_BAR_TYPE_SMALL example (or_introl eq_refl)
    (dma_example_reachable 0 0 0 false) eq_refl) as (_ & H & _).
  exact (H (Mapping example_dev 0 (95 * 2 ^ 22) PAGE_SIZE) (tail (live example)) ltac:(vm_compute; reflexivity)).
Defined.

(** The condition is needed: when the table is full, the error of dma_map_page cannot be seen for an offset other than
    0: dma_mapping_error accepts the address, and unmapping it takes the entry away from a buffer of another driver,
    which its device no longer reaches. *)
Theorem dma_map_page_error_unnoticed B S R cn :
  exists s m, reachable B S R cn OCTEON_DMA_BAR_TYPE_SMALL s /\ unseen s = true /\ m ∈ live s /\
    on_platform_bus (m_dev m) = false /\ translate OCTEON_DMA_BAR_TYPE_SMALL (table s) (m_addr m) = None.
Proof.
  pose (bogus := Mapping example_dev 99 (200 * 2 ^ 22 + 100) 16).
  pose (s1 := System example_table (bogus :: live example) true).
  eexists (System _ (live example) true), (Mapping example_dev 0 (95 * 2 ^ 22) PAGE_SIZE). split.
  { eapply rtc_r; [eapply rtc_r; [apply dma_example_reachable |] |].
    - assert (step B S R cn OCTEON_DMA_BAR_TYPE_SMALL example s1) as H; [| exact H].
      apply (Step_map_page B S R cn OCTEON_DMA_BAR_TYPE_SMALL example example_dev (200 * 2 ^ 22) 100 16 99 example_table);
        [unfold buffer; lia | vm_compute; discriminate | lia | lia | vm_compute; reflexivity].
    - apply (Step_unmap B S R cn OCTEON_DMA_BAR_TYPE_SMALL s1 bogus (live example)); [done | vm_compute; reflexivity]. }
  split; [reflexivity |]. split; [apply (bool_decide_unpack _); vm_compute; exact I |].
  split; [reflexivity | vm_compute; reflexivity].
Qed.

(** dma_map_sg has no way to fail: it returns the number of segments also if some could not be mapped. *)
Theorem dma_map_sg_hides_errors B S R cn : exists sg addrs st', Forall (fun e => buffer e.1 e.2) sg /\
  dma_map_sg B S R cn OCTEON_DMA_BAR_TYPE_SMALL (Some example_dev) sg octeon_pci_setup = Ret
    (Z.of_nat (length sg), addrs, st') /\ DMA_ERROR ∈ addrs.
Proof.
  exists (example_sg ++ [(200 * 2 ^ 22, PAGE_SIZE)]). do 2 eexists.
  split; [| split; [vm_compute; reflexivity | apply (bool_decide_unpack _); vm_compute; exact I]].
  apply Forall_app. split; [apply example_buffers | apply Forall_singleton; unfold buffer; cbn [fst snd]; lia].
Qed.

(** The mask of a device does not count when BAR1 is big: a device of 24 bits is given an address of 30 bits. *)
Theorem dma_big_ignores_mask B S R cn st :
  octeon_map_dma_mem B S R cn OCTEON_DMA_BAR_TYPE_BIG (Some (Device 0xffffff None false)) 0x20000000 PAGE_SIZE st = Ret
    (0x20000000, st).
Proof. reflexivity. Qed.

(** On PCIe a page that ends where the boot bus begins is refused with a panic, although it does not reach into it. *)
Theorem dma_pcie_last_page B S R cn dev st : on_platform_bus dev = false ->
  octeon_map_dma_mem B S R cn OCTEON_DMA_BAR_TYPE_PCIE (Some dev) (2 ^ 28 - PAGE_SIZE) PAGE_SIZE st = Err panic.
Proof. intros Hp. unfold octeon_map_dma_mem. by rewrite Hp. Qed.

End OcteonDmaSystem.
