(* ===== verification/OcteonClock.v ===== *)
(** * The cycle counter of OCTEON

    arch/mips/cavium-octeon/csrc-octeon.c and [clocksource_set_clock] of
    arch/mips/kernel/time.c: the clock in nanoseconds, in C and in assembly, the delays, and the
    scaling between the clocks of core and I/O.  The counter is a function from the
    number of the reading to its value. *)
From S2P Require Import Prelude.

Module OcteonClock.

Abbreviation NSEC_PER_SEC := 1000000000 (only parsing).
Abbreviation HZ := 100 (only parsing).

(** ** Instructions *)

(** The registers HI and LO after dmultu. *)
Definition dmultu (a b : Z) : Z * Z := ((a * b) .>> 64, u64 (a * b)).

(** ** Nanoseconds *)

(** [temp] is what the last turn computed; the loop ends at 0 at the latest. *)
Fixpoint find_shift (shift : nat) (clock temp : Z) : Z * Z :=
  match shift with
  | O => (temp, 0)
  | S n =>
      let temp := (NSEC_PER_SEC .<< Z.of_nat shift) / clock in
      if temp .>> 32 =? 0 then (temp, Z.of_nat shift) else find_shift n clock temp
  end.

(** [mult] and [shift] of the clock source. *)
Definition clocksource_set_clock (clock : Z) : Z * Z :=
  let '(temp, shift) := find_shift 32 clock 0 in (u32 temp, shift).

Definition sched_clock (cnt mult shift : Z) : Z := u64 (uwrap 128 (cnt * mult) .>> shift).

(** The same for older compilers; shifts by a register use its six lowest bits. *)
Definition sched_clock_asm (cnt mult shift : Z) : Z :=
  let '(hi, lo) := dmultu cnt mult in
  let t1 := u64 (Z.lnot shift) in
  let t2 := u64 (hi .<< 1) in
  let rv := lo .>> (shift .& 63) in
  let t1 := u64 (t2 .<< (t1 .& 63)) in
  t1 .| rv.

(** ** Delays *)

Record delays := Delays { octeon_udelay_factor : Z; octeon_ndelay_factor : Z; preset_lpj : Z; rdiv : Z; sdiv : Z; f : Z }.

(** [octeon2] has the two multipliers of the clocks if the processor is an OCTEON II. *)
Definition octeon_setup_delays (clock_rate : Z) (octeon2 : option (Z * Z)) : delays :=
  let udelay_factor := clock_rate / 1000000 in
  let ndelay_factor := u64 (udelay_factor * 0x10000) / 1000 in
  match octeon2 with
  | Some (c_mul, pnr_mul) => Delays udelay_factor ndelay_factor (clock_rate / HZ) c_mul pnr_mul
    (u64 (0x8000000000000000 / pnr_mul * 2))
  | None => Delays udelay_factor ndelay_factor (clock_rate / HZ) 0 0 0
  end.

(** I/O cycles in core cycles. *)
Definition io_to_core (d : delays) (count : Z) : Z :=
  if rdiv d =? 0 then count
  else
    let count := u64 (count * rdiv d) in
    if f d =? 0 then count else (dmultu count (f d)).1.

(** The value for the counter, from IPD_CLK_COUNT. *)
Definition octeon_init_cvmcount (d : delays) (ipd_clk_count : Z) : Z := io_to_core d ipd_clk_count.

Section counter.
Context (read_c0_cvmcount : nat -> Z).

(** The number of the reading at which the delay is over. *)
Fixpoint delay_loop (fuel n : nat) (fin cur : Z) : run unit nat :=
  if fin >? cur then
    match fuel with O => Diverge | S fuel => delay_loop fuel (S n) fin (read_c0_cvmcount (S n)) end
  else Ret n.

Definition delay_cycles (fuel : nat) (inc : Z) : run unit nat :=
  let cur := read_c0_cvmcount 0 in
  delay_loop fuel 0 (u64 (cur + inc)) cur.

Definition __udelay (d : delays) (fuel : nat) (us : Z) : run unit nat := delay_cycles fuel (u64 (us * octeon_udelay_factor d)).
Definition __ndelay (d : delays) (fuel : nat) (ns : Z) : run unit nat :=
  delay_cycles fuel (u64 (ns * octeon_ndelay_factor d) .>> 16).
Definition __delay (fuel : nat) (loops : Z) : run unit nat := delay_cycles fuel loops.
Definition octeon_io_clk_delay (d : delays) (fuel : nat) (count : Z) : run unit nat := delay_cycles fuel (io_to_core d count).

End counter.

(** ** The clock in nanoseconds *)

Lemma find_shift_ok n clock temp : 1 <= clock < 2 ^ 32 -> (1 <= n <= 32)%nat ->
  exists t s, find_shift n clock temp = (t, s) /\ 1 <= s <= Z.of_nat n /\ t = NSEC_PER_SEC * 2 ^ s / clock /\ 0 <= t < 2 ^ 32.
Proof.
  intros Hc. revert temp. induction n as [|n IH]; intros temp Hn; [lia |]. cbn [find_shift].
  rewrite Z.shiftl_mul_pow2 by lia. set (t := NSEC_PER_SEC * 2 ^ Z.of_nat (S n) / clock).
  assert (0 <= t) as Ht by (apply Z.div_pos; lia). rewrite Z.shiftr_div_pow2 by lia.
  destruct (Z.eqb_spec (t / 2 ^ 32) 0) as [E | E].
  - exists t, (Z.of_nat (S n)). split; [done |]. split; [lia |]. split; [done |]. apply Z.div_small_iff in E; lia.
  - destruct n as [|n]; [| destruct (IH t ltac:(lia)) as (t' & s & -> & ? & ? & ?); exists t', s; split; [done |];
      split; [lia | done]].
    exfalso. apply E. apply Z.div_small. split; [done |]. apply Z.div_lt_upper_bound; simpl; lia.
Qed.

Lemma shift_low s : 0 <= s < 64 -> s .& 63 = s /\ u64 (Z.lnot s) .& 63 = 63 - s.
Proof.
  intros Hs. change 63 with (Z.ones 6) at 1 2. rewrite !Z.land_ones by lia. split; [apply Z.mod_small; lia |].
  unfold uwrap, Z.lnot.
  rewrite <- Znumtheory.Zmod_div_mod by (try lia; by exists (2 ^ 58)). symmetry. apply (Z.mod_unique _ _ (-1)); lia.
Qed.

(** Both halves of the product, shifted into place. *)
Lemma sched_clock_halves p s : 0 <= p < 2 ^ 128 -> 0 <= s < 64 ->
  u64 (u64 ((p .>> 64) .<< 1) .<< (63 - s)) .| (u64 p .>> s) = u64 (p .>> s).
Proof.
  intros Hp Hs. unfold uwrap. rewrite <- !Z.land_ones by lia. apply Z.bits_inj'. intros i Hi.
  rewrite Z.lor_spec, !Z.land_spec, Z.testbit_ones_nonneg by lia.
  rewrite !Z.shiftr_spec by lia. rewrite Z.land_spec, Z.testbit_ones_nonneg by lia. rewrite Z.shiftl_spec by lia.
  destruct (Z.ltb_spec i 64); [rewrite !andb_true_r | rewrite !andb_false_r; destruct (Z.ltb_spec (i + s) 64);
    [lia | by rewrite andb_false_r]].
  destruct (Z.ltb_spec i (63 - s)).
  - rewrite (Z.testbit_neg_r _ (i - (63 - s))) by lia. destruct (Z.ltb_spec (i + s) 64); [by rewrite andb_true_r | lia].
  - rewrite Z.land_spec, Z.testbit_ones_nonneg by lia. destruct (Z.ltb_spec (i - (63 - s)) 64); [| lia].
    rewrite andb_true_r, Z.shiftl_spec by lia.
    destruct (Z.eq_dec (i - (63 - s)) 0) as [E | E].
    + rewrite E. rewrite (Z.testbit_neg_r _ (0 - 1)) by lia. destruct (Z.ltb_spec (i + s) 64); [by rewrite andb_true_r | lia].
    + rewrite Z.shiftr_spec by lia. destruct (Z.ltb_spec (i + s) 64); [lia |]. rewrite andb_false_r, orb_false_r. f_equal. lia.
Qed.

Lemma sched_clock_eq cnt mult s : 0 <= cnt < 2 ^ 64 -> 0 <= mult < 2 ^ 32 -> 0 <= s < 64 ->
  sched_clock_asm cnt mult s = sched_clock cnt mult s /\ sched_clock cnt mult s = u64 (cnt * mult / 2 ^ s).
Proof.
  intros Hc Hm Hs. assert (0 <= cnt * mult < 2 ^ 128) as Hp by nia. unfold sched_clock_asm, sched_clock, dmultu.
  destruct (shift_low s Hs) as [-> ->].
  rewrite (uwrap_small 128) by done. split; [by apply sched_clock_halves | by rewrite Z.shiftr_div_pow2 by lia].
Qed.

(** Rounding the factor down costs one unit in 2^s for each cycle. *)
Lemma scale_bounds cnt n clock s : 0 <= cnt -> 0 <= n -> 0 < clock -> 0 <= s -> let mult := n * 2 ^ s / clock in
  cnt * mult / 2 ^ s <= cnt * n / clock <= cnt * mult / 2 ^ s + cnt / 2 ^ s + 1.
Proof.
  intros Hc Hn Hk Hs mult. pose proof (Z.pow_pos_nonneg 2 s ltac:(lia) Hs) as Hpow.
  pose proof (Z.mul_div_le (n * 2 ^ s) clock Hk) as H1. pose proof (Z.mul_succ_div_gt (n * 2 ^ s) clock Hk) as H2.
  fold mult in H1, H2.
  pose proof (Z.mul_div_le (cnt * mult) (2 ^ s) Hpow) as H3.
  pose proof (Z.mul_succ_div_gt (cnt * mult) (2 ^ s) Hpow) as H4. pose proof (Z.mul_succ_div_gt cnt (2 ^ s) Hpow) as H5.
  set (a := cnt * mult / 2 ^ s) in *. set (b := cnt / 2 ^ s) in *. split.
  - apply Z.div_le_lower_bound; [done |]. apply (Z.mul_le_mono_pos_r _ _ (2 ^ s)); [done |]. nia.
  - apply Z.lt_succ_r. apply Z.div_lt_upper_bound; [done |]. apply (Z.mul_lt_mono_pos_r (2 ^ s)); [done |].
    assert (cnt * n * 2 ^ s <= cnt * (mult + 1) * clock) by nia. nia.
Qed.

(** ** Waiting *)

(** The reading [n] is the first one at which [inc] cycles have passed. *)
Definition waits (read : nat -> Z) (inc : Z) (r : run unit nat) : Prop :=
  exists n, r = Ret n /\ read 0%nat + inc <= read n /\ forall m, (m < n)%nat -> read m < read 0%nat + inc.

Lemma delay_loop_ok read fin fuel : forall n, fin <= read (n + fuel)%nat -> (forall m, (m < n)%nat -> read m < fin) ->
  exists k, delay_loop read fuel n fin (read n) = Ret k /\ fin <= read k /\ forall m, (m < k)%nat -> read m < fin.
Proof.
  induction fuel as [|fuel IH]; intros n Hn Hm; cbn [delay_loop]; destruct (Z.gtb_spec fin (read n)) as [Hlt | Hge].
  - rewrite Nat.add_0_r in Hn. lia.
  - by exists n.
  - apply IH; [by rewrite Nat.add_succ_comm |]. intros m Hm'. destruct (decide (m = n)) as [-> | ?]; [done | apply Hm; lia].
  - by exists n.
Qed.

Lemma delay_ok read fuel inc : 0 <= read 0%nat -> 0 <= inc -> read 0%nat + inc < 2 ^ 64 ->
  read 0%nat + inc <= read fuel -> waits read inc (delay_cycles read fuel inc).
Proof.
  intros H0 Hi Hw Hf. unfold delay_cycles. rewrite uwrap_small by lia.
  destruct (delay_loop_ok read (read 0%nat + inc) fuel 0 Hf ltac:(lia)) as (k & E & Hk & Hm). by exists k.
Qed.

Lemma io_to_core_ok d count c p : rdiv d = c -> f d = u64 (0x8000000000000000 / p * 2) -> 0 <= count -> 1 <= c ->
  1 <= p < 2 ^ 63 -> count * c < 2 ^ 64 ->
  0 <= io_to_core d count /\ io_to_core d count * p <= count * c < (io_to_core d count + 3) * p.
Proof.
  intros Er Ef Hc Hc1 Hp Hx. unfold io_to_core. rewrite Er, Ef. destruct (Z.eqb_spec c 0); [lia |].
  rewrite (uwrap_small 64 (count * c)) by nia. set (x := count * c) in *. assert (0 <= x) as Hx0 by (unfold x; nia).
  set (q := 0x8000000000000000 / p). pose proof (Z.mul_div_le 0x8000000000000000 p ltac:(lia)) as H1.
  pose proof (Z.mul_succ_div_gt 0x8000000000000000 p ltac:(lia)) as H2. fold q in H1, H2.
  destruct (Z.eq_dec p 1) as [-> | Hp1]; [replace q with 0x8000000000000000 by (unfold q; by rewrite Z.div_1_r);
    change (u64 (0x8000000000000000 * 2) =? 0) with true; cbn match; lia |].
  assert (1 <= q <= 2 ^ 62) as Hq by nia. rewrite (uwrap_small 64 (q * 2)) by lia.
  destruct (Z.eqb_spec (q * 2) 0); [lia |]. unfold dmultu. cbn [fst]. rewrite Z.shiftr_div_pow2 by lia.
  pose proof (Z.mul_div_le (x * (q * 2)) (2 ^ 64) ltac:(lia)) as H3.
  pose proof (Z.mul_succ_div_gt (x * (q * 2)) (2 ^ 64) ltac:(lia)) as H4.
  pose proof (Z.div_pos (x * (q * 2)) (2 ^ 64) ltac:(nia) ltac:(lia)) as H5.
  set (r := x * (q * 2) / 2 ^ 64) in *. split; [done |]. split.
  - apply (Z.mul_le_mono_pos_l _ _ (2 ^ 63)); [lia |]. nia.
  - apply (Z.mul_lt_mono_pos_l (2 ^ 63)); [lia |]. assert (x * 2 ^ 63 <= x * (q + 1) * p) by nia.
    assert (x * q < (r + 1) * 2 ^ 63) by lia. nia.
Qed.

(** ** Properties *)

(** C19: for any clock rate the factors fit in 32 bits, the assembly and the C version of sched_clock give the same
    value for any count, and until it exceeds 64 bits this value is the
    time in nanoseconds, at most one for each 2^shift cycles too small. *)
Theorem sched_clock_correct clock cnt :
  1 <= clock < 2 ^ 32 -> 0 <= cnt < 2 ^ 64 ->
  let '(mult, shift) := clocksource_set_clock clock in
  1 <= shift <= 32 /\ 0 <= mult < 2 ^ 32 /\ sched_clock_asm cnt mult shift = sched_clock cnt mult shift /\
  (cnt * NSEC_PER_SEC / clock < 2 ^ 64 ->
   sched_clock cnt mult shift <= cnt * NSEC_PER_SEC / clock <= sched_clock cnt mult shift + cnt / 2 ^ shift + 1).
Proof.
  intros Hc Hn. unfold clocksource_set_clock.
  destruct (find_shift_ok 32 clock 0 Hc ltac:(lia)) as (t & s & -> & Hs & Et & Ht). rewrite (uwrap_small 32) by done.
  destruct (sched_clock_eq cnt t s Hn Ht ltac:(lia)) as [E1 E2]. split; [lia |]. split; [done |]. split; [done |].
  intros Hfit. rewrite E2, Et.
  pose proof (scale_bounds cnt NSEC_PER_SEC clock s ltac:(lia) ltac:(lia) ltac:(lia) ltac:(lia)) as Hb. cbn zeta in Hb.
  rewrite uwrap_small; [done |]. split; [| lia]. apply Z.div_pos; [| apply Z.pow_pos_nonneg; lia]. rewrite <- Et. nia.
Qed.

Lemma sched_clock_correct_witness : sched_clock_asm 1234567890123 (clocksource_set_clock 750000000).1
  (clocksource_set_clock 750000000).2 =
  sched_clock 1234567890123 (clocksource_set_clock 750000000).1 (clocksource_set_clock 750000000).2.
Proof.
  pose proof (sched_clock_correct 750000000 1234567890123 ltac:(lia) ltac:(lia)) as H.
  destruct (clocksource_set_clock 750000000) as [mult shift]. exact (proj1 (proj2 (proj2 H))).
Defined.

(** The multipliers of an OCTEON II; the older models have no scaling. *)
Definition multipliers_ok (octeon2 : option (Z * Z)) : Prop :=
  match octeon2 with Some (c, p) => 1 <= c /\ 1 <= p < 2 ^ 63 | None => True end.

(** [inc] core cycles are [count] cycles of the I/O clock: exactly on the older models, with an error below three on an
    OCTEON II. *)
Definition io_cycles (octeon2 : option (Z * Z)) (count inc : Z) : Prop :=
  match octeon2 with Some (c, p) => inc * p <= count * c < (inc + 3) * p | None => inc = count end.

Definition io_fits (octeon2 : option (Z * Z)) (count : Z) : Prop :=
  0 <= count /\ count * from_option fst 1 octeon2 < 2 ^ 64.

Lemma io_to_core_cycles rate octeon2 count : multipliers_ok octeon2 -> io_fits octeon2 count ->
  0 <= io_to_core (octeon_setup_delays rate octeon2) count /\
  io_cycles octeon2 count (io_to_core (octeon_setup_delays rate octeon2) count).
Proof.
  intros Hok [Hc Hx]. destruct octeon2 as [[c p] |]; [| by split].
  destruct Hok. by apply (io_to_core_ok _ count c p).
Qed.

(** The cycles of a number of microseconds and of nanoseconds. *)
Lemma udelay_cycles rate octeon2 us : 0 <= rate < 2 ^ 40 -> 0 <= us < 2 ^ 32 ->
  exists inc, u64 (us * octeon_udelay_factor (octeon_setup_delays rate octeon2)) = inc /\ 0 <= inc /\
    inc * 10 ^ 6 <= us * rate <= (inc + us) * 10 ^ 6.
Proof.
  intros Hrate Hus. pose proof (Z.mul_div_le rate 1000000 ltac:(lia)) as U1.
  pose proof (Z.mul_succ_div_gt rate 1000000 ltac:(lia)) as U2.
  pose proof (Z.div_pos rate 1000000 ltac:(lia) ltac:(lia)) as U0.
  exists (us * (rate / 1000000)). replace (octeon_udelay_factor _) with (rate / 1000000) by by destruct octeon2 as [[]|].
  set (u := rate / 1000000) in *. assert (u < 2 ^ 21) by lia. rewrite uwrap_small by nia. nia.
Qed.

Lemma ndelay_cycles rate octeon2 ns : 0 <= rate < 2 ^ 40 -> 0 <= ns < 2 ^ 32 ->
  exists inc, u64 (ns * octeon_ndelay_factor (octeon_setup_delays rate octeon2)) .>> 16 = inc /\ 0 <= inc /\
    inc * 10 ^ 9 <= ns * rate /\ ns * (rate / 10 ^ 6) * 65536 <= ((inc + 1) * 65536 + ns) * 1000.
Proof.
  intros Hrate Hns. replace (octeon_ndelay_factor _) with (u64 (rate / 1000000 * 65536) / 1000) by by destruct octeon2 as [[]|].
  change (10 ^ 6) with 1000000.
  pose proof (Z.mul_div_le rate 1000000 ltac:(lia)) as U1. pose proof (Z.mul_succ_div_gt rate 1000000 ltac:(lia)) as U2.
  pose proof (Z.div_pos rate 1000000 ltac:(lia) ltac:(lia)) as U0. set (u := rate / 1000000) in *.
  assert (u < 2 ^ 21) as U3 by lia. rewrite (uwrap_small 64 (u * _)) by lia. set (nf := u * 65536 / 1000).
  pose proof (Z.mul_div_le (u * 65536) 1000 ltac:(lia)) as N1.
  pose proof (Z.mul_succ_div_gt (u * 65536) 1000 ltac:(lia)) as N2.
  pose proof (Z.div_pos (u * 65536) 1000 ltac:(lia) ltac:(lia)) as N0. fold nf in N0, N1, N2. assert (nf < 2 ^ 28) by lia.
  assert (ns * nf <= 2 ^ 32 * 2 ^ 28) by (apply Z.mul_le_mono_nonneg; lia). rewrite uwrap_small by lia.
  rewrite Z.shiftr_div_pow2 by lia. pose proof (Z.mul_div_le (ns * nf) (2 ^ 16) ltac:(lia)) as I1.
  pose proof (Z.mul_succ_div_gt (ns * nf) (2 ^ 16) ltac:(lia)) as I2.
  pose proof (Z.div_pos (ns * nf) (2 ^ 16) ltac:(nia) ltac:(lia)) as I0. set (inc := ns * nf / 2 ^ 16) in *.
  exists inc. split; [done |]. split; [done |]. split; [nia |].
  assert (ns * (u * 65536) <= ns * (1000 * Z.succ nf)) by (apply Z.mul_le_mono_nonneg_l; lia). lia.
Qed.

(** C20: on an OCTEON II and on the older models, if the counter never goes back and reaches the end of the delay within
    the readings without wrapping, each delay returns, at the first reading at which its cycles have passed.  These are
    the cycles of the time that was asked for, up to the rounding of the factors: for __udelay one per microsecond less
    at most, for __ndelay one and one per 65 nanoseconds and what the first factor loses, for __delay none, and for
    octeon_io_clk_delay none on the older models and fewer than three on an OCTEON II, as long as the product with the
    multiplier fits in 64 bits.  octeon_init_cvmcount sets the counter to the cycles of the I/O clock in the same unit. *)
Theorem octeon_delays_correct (read : nat -> Z) rate octeon2 fuel :
  (forall n, 0 <= read n <= read (S n)) -> 0 <= rate < 2 ^ 40 -> multipliers_ok octeon2 ->
  let d := octeon_setup_delays rate octeon2 in
  let reached inc := read 0%nat + inc < 2 ^ 64 /\ read 0%nat + inc <= read fuel in
  (forall us, 0 <= us < 2 ^ 32 -> exists inc, inc * 10 ^ 6 <= us * rate <= (inc + us) * 10 ^ 6 /\
    (reached inc -> waits read inc (__udelay read d fuel us))) /\
  (forall ns, 0 <= ns < 2 ^ 32 -> exists inc, inc * 10 ^ 9 <= ns * rate /\
    ns * (rate / 10 ^ 6) * 65536 <= ((inc + 1) * 65536 + ns) * 1000 /\
     (reached inc -> waits read inc (__ndelay read d fuel ns))) /\
  (forall loops, 0 <= loops -> reached loops -> waits read loops (__delay read fuel loops)) /\
  (forall count, io_fits octeon2 count -> exists inc, io_cycles octeon2 count inc /\
    octeon_init_cvmcount d count = inc /\ (reached inc -> waits read inc (octeon_io_clk_delay read d fuel count))).
Proof.
  intros Hr Hrate Hok d reached. assert (0 <= read 0%nat) as H0 by apply Hr. split; [| split; [| split]].
  - intros us Hus. destruct (udelay_cycles rate octeon2 us Hrate Hus) as (inc & E & Hi & Hb). exists inc.
    split; [done |]. intros [H1 H2]. unfold __udelay, d. rewrite E. by apply delay_ok.
  - intros ns Hns. destruct (ndelay_cycles rate octeon2 ns Hrate Hns) as (inc & E & Hi & Hb1 & Hb2). exists inc.
    split; [done |]. split; [done |]. intros [H1 H2]. unfold __ndelay, d. rewrite E. by apply delay_ok.
  - intros loops Hl [H1 H2]. by apply delay_ok.
  - intros count Hf. destruct (io_to_core_cycles rate octeon2 count Hok Hf) as [Hi Hc]. eexists. split; [exact Hc |].
    split; [done |]. intros [H1 H2]. by apply delay_ok.
Qed.

Lemma octeon_delays_correct_witness :
  let read n := 100 * Z.of_nat n in
  let old := octeon_setup_delays 750000000 None in let new := octeon_setup_delays 1500000000 (Some (30, 12)) in
  (exists i, 7490 <= i <= 7500 /\ waits read i (__udelay read old 200 10)) /\
  (exists i, 7450 <= i <= 7500 /\ waits read i (__ndelay read new 200 5000)) /\
  waits read 7500 (__delay read 200 7500) /\
  waits read 7500 (octeon_io_clk_delay read old 200 7500) /\
  (exists i, 7498 <= i <= 7500 /\ waits read i (octeon_io_clk_delay read new 200 3000)).
Proof.
  intros read old new. assert (forall n, 0 <= read n <= read (S n)) as Hr by (intros n; unfold read; lia).
  assert (forall i, 0 <= i <= 7500 -> read 0%nat + i < 2 ^ 64 /\ read 0%nat + i <= read 200%nat) as Hreach by (unfold read; lia).
  destruct (octeon_delays_correct read 750000000 None 200 Hr ltac:(lia) I) as (Hu & _ & Hd & Ho).
  destruct (octeon_delays_correct read 1500000000 (Some (30, 12)) 200 Hr ltac:(lia) ltac:(cbn; lia)) as (_ & Hn & _ & Hi).
  destruct (Hu 10 ltac:(lia)) as (u & ? & Wu). destruct (Hn 5000 ltac:(lia)) as (n & ? & Hn2 & Wn).
  change (1500000000 / 10 ^ 6) with 1500 in Hn2.
  destruct (Ho 7500 ltac:(by split)) as (o & Eo & _ & Wo). unfold io_cycles in Eo. subst o.
  destruct (Hi 3000 ltac:(by split)) as (i & Ei & _ & Wi). unfold io_cycles in Ei.
  split; [exists u; split; [lia | apply Wu, Hreach; lia] |]. split; [exists n; split; [lia | apply Wn, Hreach; lia] |].
  split; [apply Hd, Hreach; lia |]. split; [apply Wo, Hreach; lia | exists i; split; [lia | apply Wi, Hreach; lia]].
Defined.

End OcteonClock.
