(* ===== verification/Sha1.v ===== *)
(** The SHA-1 block transform of lib/sha1.c, with [rol32] of
    include/linux/bitops.h: the code over its workspace of 80 words, the
    compression function of FIPS 180-1, and their equality. *)
From S2P Require Import Prelude.

Module Sha1.

(** ** The code *)

Definition rol32 (word shift : Z) : Z := u32 (word .<< shift) .| (word .>> (32 - shift)).

Abbreviation f1 x y z := (z .^ (x .& (y .^ z))) (only parsing).
Abbreviation f2 x y z := (x .^ y .^ z) (only parsing).
Abbreviation f3 x y z := (u32 ((x .& y) + (z .& (x .^ y)))) (only parsing).

Abbreviation K1 := 0x5A827999 (only parsing).
Abbreviation K2 := 0x6ED9EBA1 (only parsing).
Abbreviation K3 := 0x8F1BBCDC (only parsing).
Abbreviation K4 := 0xCA62C1D6 (only parsing).

(** An array of words is a list; the code's indices are all below its length. *)
Abbreviation word_at l i := ((l : list Z) !!! Z.to_nat i) (only parsing).

(** The two loops that fill the workspace: the words of the block, and the
    words made from earlier ones. *)
Definition sha_load (inp W : list Z) : list Z :=
  foldl (fun W i => <[Z.to_nat i := be_val (slice inp (4 * i) 4)]> W) W (seqZ 0 16).

Definition sha_expand (W : list Z) : list Z :=
  foldl (fun W i =>
    <[Z.to_nat (i + 16) :=
        rol32 (word_at W (i + 13) .^ word_at W (i + 8) .^ word_at W (i + 2) .^ word_at W i) 1]> W)
    W (seqZ 0 64).

(** The variables a to e, and the body of the four loops. *)
Record vars := Vars { va : Z; vb : Z; vc : Z; vd : Z; ve : Z }.

Definition sha_round (f : Z -> Z -> Z -> Z) (K : Z) (W : list Z) (s : vars) (i : Z) : vars :=
  let t := u32 (f (vb s) (vc s) (vd s) + K + rol32 (va s) 5 + ve s + word_at W i) in
  Vars t (va s) (rol32 (vb s) 30) (vc s) (vd s).

Definition sha_transform (digest inp W : list Z) : list Z * list Z :=
  let W := sha_load inp W in
  let W := sha_expand W in
  let s := Vars (word_at digest 0) (word_at digest 1) (word_at digest 2) (word_at digest 3) (word_at digest 4) in
  let s := foldl (sha_round (fun x y z => f1 x y z) K1 W) s (seqZ 0 20) in
  let s := foldl (sha_round (fun x y z => f2 x y z) K2 W) s (seqZ 20 20) in
  let s := foldl (sha_round (fun x y z => f3 x y z) K3 W) s (seqZ 40 20) in
  let s := foldl (sha_round (fun x y z => f2 x y z) K4 W) s (seqZ 60 20) in
  ([u32 (word_at digest 0 + va s); u32 (word_at digest 1 + vb s); u32 (word_at digest 2 + vc s);
    u32 (word_at digest 3 + vd s); u32 (word_at digest 4 + ve s)], W).

Definition sha_init : list Z := [0x67452301; 0xefcdab89; 0x98badcfe; 0x10325476; 0xc3d2e1f0].

(** ** FIPS 180-1

    Words are integers below 2^32; the functions, the constants, the message
    schedule and the 80 steps as section 7 of the standard has them. *)

Definition rotl (n x : Z) : Z := (x * 2 ^ n) mod 2 ^ 32 + x / 2 ^ (32 - n).
Definition wnot (x : Z) : Z := 2 ^ 32 - 1 - x.

Definition fips_f (t x y z : Z) : Z :=
  if t <? 20 then (x .& y) .| (wnot x .& z)
  else if t <? 40 then x .^ y .^ z
  else if t <? 60 then (x .& y) .| (x .& z) .| (y .& z)
  else x .^ y .^ z.

Definition fips_K (t : Z) : Z :=
  if t <? 20 then 0x5A827999 else if t <? 40 then 0x6ED9EBA1
  else if t <? 60 then 0x8F1BBCDC else 0xCA62C1D6.

(** The first [n] words of the schedule of a block of 16 words. *)
Fixpoint fips_W (M : list Z) (n : nat) : list Z :=
  match n with
  | O => []
  | S t =>
      let W := fips_W M t in
      W ++ [if (t <? 16)%nat then M !!! t
            else rotl 1 (W !!! (t - 3)%nat .^ W !!! (t - 8)%nat .^ W !!! (t - 14)%nat .^ W !!! (t - 16)%nat)]
  end.

Definition fips_step (M : list Z) (s : vars) (t : Z) : vars :=
  let temp := (rotl 5 (va s) + fips_f t (vb s) (vc s) (vd s) + ve s + fips_W M 80 !!! Z.to_nat t + fips_K t)
                mod 2 ^ 32 in
  Vars temp (va s) (rotl 30 (vb s)) (vc s) (vd s).

Definition fips_compress (H M : list Z) : list Z :=
  let s := foldl (fips_step M) (Vars (H !!! 0%nat) (H !!! 1%nat) (H !!! 2%nat) (H !!! 3%nat) (H !!! 4%nat)) (seqZ 0 80) in
  zip_with (fun h x => (h + x) mod 2 ^ 32) H [va s; vb s; vc s; vd s; ve s].

Definition is_word (x : Z) : Prop := 0 <= x < 2 ^ 32.
Definition block_words (inp : list Z) : list Z := (fun i => be_val (slice inp (4 * i) 4)) <$> seqZ 0 16.

(** ** Words *)

Lemma lxor_range a b w : 0 <= w -> 0 <= a < 2 ^ w -> 0 <= b < 2 ^ w -> 0 <= a .^ b < 2 ^ w.
Proof.
  intros Hw Ha Hb. assert (0 <= a .^ b) by (apply Z.lxor_nonneg; lia).
  split; [done |]. apply bits_bound; [done | done |]. intros i Hi.
  rewrite Z.lxor_spec, (testbit_high a w i), (testbit_high b w i) by done. done.
Qed.

Lemma u32_word x : is_word (u32 x).
Proof. by apply uwrap_range. Qed.

Lemma rol32_word x n : is_word x -> 0 <= n <= 32 -> is_word (rol32 x n).
Proof.
  intros Hx Hn. apply lor_range; [lia | apply u32_word |]. apply shiftr_range; [lia | done].
Qed.

Lemma lxor_word a b : is_word a -> is_word b -> is_word (a .^ b).
Proof. by apply lxor_range. Qed.

Lemma land_word a b : is_word a -> is_word (a .& b).
Proof. apply land_range. Qed.

#[local] Hint Resolve u32_word rol32_word lxor_word land_word : words.

Lemma lor_disjoint a b : a .& b = 0 -> a .| b = a + b.
Proof. intros H. by rewrite <- Z.lxor_lor, <- Z.add_nocarry_lxor by done. Qed.

Lemma rol32_rotl x n : is_word x -> 0 <= n <= 32 -> rol32 x n = rotl n x.
Proof.
  intros Hx Hn. unfold rol32, rotl, uwrap.
  rewrite Z.shiftl_mul_pow2, Z.shiftr_div_pow2 by lia. apply lor_disjoint.
  apply Z.bits_inj'. intros i Hi. rewrite Z.land_spec, Z.testbit_0_l.
  destruct (Z.ltb_spec i n).
  - rewrite Z.mod_pow2_bits_low, Z.mul_pow2_bits_low by lia. done.
  - rewrite Z.div_pow2_bits, (testbit_high x 32) by (done || lia). apply andb_false_r.
Qed.

(** The functions of the code are those of the standard. *)
Ltac bits_by_cases :=
  repeat match goal with |- context [Z.testbit ?a ?i] => destruct (Z.testbit a i) end; reflexivity.

Lemma wnot_testbit x i : is_word x -> 0 <= i < 32 -> Z.testbit (wnot x) i = negb (Z.testbit x i).
Proof.
  intros Hx Hi. unfold wnot. replace (2 ^ 32 - 1 - x) with (Z.lnot x + 1 * 2 ^ 32) by (unfold Z.lnot; lia).
  rewrite <- (Z.mod_pow2_bits_low _ 32), Z.mod_add, Z.mod_pow2_bits_low by lia. apply Z.lnot_spec; lia.
Qed.

Lemma f1_choose x y z : is_word x -> is_word y -> is_word z -> f1 x y z = (x .& y) .| (wnot x .& z).
Proof.
  intros Hx Hy Hz. apply Z.bits_inj'. intros i Hi.
  rewrite Z.lor_spec, Z.lxor_spec, !Z.land_spec, Z.lxor_spec. destruct (Z.ltb_spec i 32).
  - rewrite wnot_testbit by (done || lia). bits_by_cases.
  - rewrite (testbit_high y 32), (testbit_high z 32) by (done || lia). bits_by_cases.
Qed.

Lemma f3_majority x y z : is_word x -> is_word y -> is_word z -> f3 x y z = (x .& y) .| (x .& z) .| (y .& z).
Proof.
  intros Hx Hy Hz. rewrite <- lor_disjoint by bitwise_eq.
  rewrite uwrap_small by (apply lor_range; [lia | by apply land_word |]; by apply land_word).
  apply Z.bits_inj'; intros ??. rewrite ?Z.lor_spec, ?Z.land_spec, ?Z.lxor_spec. bits_by_cases.
Qed.

(** ** The workspace *)

Lemma foldl_seqZ_S {A} (g : A -> Z -> A) a m (n : nat) :
  foldl g a (seqZ m (Z.of_nat (S n))) = g (foldl g a (seqZ m (Z.of_nat n))) (m + Z.of_nat n).
Proof.
  rewrite Nat2Z.inj_succ, <- Z.add_1_r, seqZ_app, foldl_app by lia. reflexivity.
Qed.

Lemma insert_prefix {A} (l W : list A) n x :
  length l = n -> (n < length W)%nat -> <[n := x]> (l ++ drop n W) = (l ++ [x]) ++ drop (S n) W.
Proof.
  intros <- H. destruct (lookup_lt_is_Some_2 W (length l) H) as [y Hy].
  rewrite (drop_S W y) by done. rewrite insert_middle, <- app_assoc. done.
Qed.

Lemma fips_W_S M t :
  fips_W M (S t) = fips_W M t ++ [if (t <? 16)%nat then M !!! t else
    rotl 1 (fips_W M t !!! (t - 3)%nat .^ fips_W M t !!! (t - 8)%nat .^ fips_W M t !!! (t - 14)%nat
            .^ fips_W M t !!! (t - 16)%nat)].
Proof. reflexivity. Qed.

#[local] Opaque fips_W.

Lemma length_fips_W M n : length (fips_W M n) = n.
Proof. induction n as [|n IH]; [done |]. rewrite fips_W_S, length_app, IH. simpl. lia. Qed.

Lemma fips_W_block M n : (n <= 16)%nat -> length M = 16%nat -> fips_W M n = take n M.
Proof.
  intros Hn HM. induction n as [|n IH]; [done |]. rewrite fips_W_S, IH by lia.
  destruct (Nat.ltb_spec n 16); [| lia].
  destruct (lookup_lt_is_Some_2 M n) as [x Hx]; [lia |].
  by rewrite (take_S_r M n x Hx), (list_lookup_total_correct M n x Hx).
Qed.

Lemma length_block_words inp : length (block_words inp) = 16%nat.
Proof. reflexivity. Qed.

Lemma sha_load_eq inp W : length W = 80%nat -> sha_load inp W = block_words inp ++ drop 16 W.
Proof.
  intros HW. assert (forall n : nat, (n <= 80)%nat ->
    foldl (fun W i => <[Z.to_nat i := be_val (slice inp (4 * i) 4)]> W) W (seqZ 0 (Z.of_nat n))
    = ((fun i => be_val (slice inp (4 * i) 4)) <$> seqZ 0 (Z.of_nat n)) ++ drop n W) as H.
  - induction n as [|n IH]; intros Hn; [done |].
    rewrite foldl_seqZ_S, IH by lia. rewrite Z.add_0_l, Nat2Z.id.
    rewrite insert_prefix by len. rewrite Nat2Z.inj_succ, <- Z.add_1_r, seqZ_app, fmap_app by lia. done.
  - apply (H 16%nat). lia.
Qed.

Lemma fips_W_words M n : length M = 16%nat -> Forall is_word M -> Forall is_word (fips_W M n).
Proof.
  intros HM Hw. induction n as [|n IH]; [constructor |]. rewrite fips_W_S.
  apply Forall_app. split; [done |]. constructor; [| constructor].
  assert (forall t, (t < n)%nat -> is_word (fips_W M n !!! t)) as Ht.
  { intros t Ht. apply Forall_lookup_total_1; [done |]. by rewrite length_fips_W. }
  destruct (Nat.ltb_spec n 16).
  - apply Forall_lookup_total_1; [done | lia].
  - rewrite <- rol32_rotl by (repeat apply lxor_word; apply Ht || lia; lia).
    apply rol32_word; [repeat apply lxor_word; apply Ht; lia | lia].
Qed.

Lemma sha_expand_eq M W :
  length M = 16%nat -> Forall is_word M -> length W = 64%nat -> sha_expand (M ++ W) = fips_W M 80.
Proof.
  intros HM Hw HW. assert (forall n : nat, (n <= 64)%nat ->
    foldl (fun W i => <[Z.to_nat (i + 16) := rol32 (word_at W (i + 13) .^ word_at W (i + 8) .^ word_at W (i + 2)
      .^ word_at W i) 1]> W) (M ++ W) (seqZ 0 (Z.of_nat n)) = fips_W M (16 + n) ++ drop n W) as H.
  - induction n as [|n IH]; intros Hn; [by rewrite fips_W_block, take_ge by lia |].
    rewrite foldl_seqZ_S, IH by lia. rewrite Z.add_0_l.
    replace (Z.to_nat (Z.of_nat n + 16)) with (16 + n)%nat by lia.
    rewrite !lookup_total_app_l by (rewrite length_fips_W; lia).
    destruct (lookup_lt_is_Some_2 W n) as [y Hy]; [lia |]. rewrite (drop_S W y) by done.
    rewrite <- (length_fips_W M (16 + n)) at 1. rewrite insert_middle, Nat.add_succ_r, fips_W_S, <- app_assoc.
    destruct (Nat.ltb_spec (16 + n) 16); [lia |].
    assert (forall t, (t < 16 + n)%nat -> is_word (fips_W M (16 + n) !!! t)) as Ht.
    { intros t Ht. apply Forall_lookup_total_1; [by apply fips_W_words | by rewrite length_fips_W]. }
    rewrite rol32_rotl by (repeat apply lxor_word; apply Ht || lia; lia).
    simpl app. do 3 f_equal. repeat f_equal; lia.
  - rewrite <- (app_nil_r (fips_W M 80)). rewrite <- (drop_ge W 64) by lia. apply (H 64%nat). lia.
Qed.

(** ** The rounds *)

Definition vars_ok (s : vars) : Prop :=
  is_word (va s) /\ is_word (vb s) /\ is_word (vc s) /\ is_word (vd s) /\ is_word (ve s).

Lemma sha_round_ok f K W s t : vars_ok s -> vars_ok (sha_round f K W s t).
Proof.
  intros (?&?&?&?&?). unfold vars_ok. simpl. split_and!; auto with words. apply rol32_word; done || lia.
Qed.

(** Twenty rounds of the code are those of the standard if they have its
    function and its constant. *)
Lemma sha_rounds_eq f M m s (n : nat) :
  vars_ok s -> 0 <= m -> (n <= 20)%nat ->
  (forall t x y z, m <= t < m + 20 -> is_word x -> is_word y -> is_word z -> f x y z = fips_f t x y z) ->
  (forall t, m <= t < m + 20 -> fips_K m = fips_K t) ->
  let s' := foldl (sha_round f (fips_K m) (fips_W M 80)) s (seqZ m (Z.of_nat n)) in
  s' = foldl (fips_step M) s (seqZ m (Z.of_nat n)) /\ vars_ok s'.
Proof.
  intros Hs Hm Hn Hf HK. induction n as [|n IH]; [done |]. rewrite !foldl_seqZ_S.
  destruct IH as [IH Hok]; [lia |]. rewrite <- IH. cbv zeta.
  set (s' := foldl _ s _) in *. split; [| by apply sha_round_ok].
  pose proof Hok as (?&?&?&?&?). unfold sha_round, fips_step, uwrap.
  rewrite (Hf (m + Z.of_nat n)), (HK (m + Z.of_nat n)), !rol32_rotl by (done || lia).
  do 2 f_equal. lia.
Qed.

Lemma seqZ_80 : seqZ 0 80 = seqZ 0 20 ++ seqZ 20 20 ++ seqZ 40 20 ++ seqZ 60 20.
Proof. reflexivity. Qed.

Lemma sha_all_rounds M s :
  vars_ok s ->
  foldl (sha_round (fun x y z => f2 x y z) K4 (fips_W M 80))
    (foldl (sha_round (fun x y z => f3 x y z) K3 (fips_W M 80))
      (foldl (sha_round (fun x y z => f2 x y z) K2 (fips_W M 80))
        (foldl (sha_round (fun x y z => f1 x y z) K1 (fips_W M 80)) s (seqZ 0 20)) (seqZ 20 20)) (seqZ 40 20)) (seqZ 60 20)
  = foldl (fips_step M) s (seqZ 0 80).
Proof.
  intros Hs. rewrite seqZ_80, !foldl_app.
  assert (forall m t, m <= t < m + 20 -> m = 0 \/ m = 20 \/ m = 40 \/ m = 60 -> fips_K m = fips_K t) as HK.
  { unfold fips_K. intros m t H [->|[->|[->| ->]]]; by zbool. }
  destruct (sha_rounds_eq (fun x y z => f1 x y z) M 0 s 20 Hs) as [E1 H1]; [lia | lia | | auto |].
  { intros t x y z Ht Hx Hy Hz. unfold fips_f. zbool. by apply f1_choose. }
  destruct (sha_rounds_eq (fun x y z => f2 x y z) M 20 _ 20 H1) as [E2 H2]; [lia | lia | | auto |].
  { intros t x y z Ht Hx Hy Hz. unfold fips_f. by zbool. }
  destruct (sha_rounds_eq (fun x y z => f3 x y z) M 40 _ 20 H2) as [E3 H3]; [lia | lia | | auto |].
  { intros t x y z Ht Hx Hy Hz. unfold fips_f. zbool. by apply f3_majority. }
  destruct (sha_rounds_eq (fun x y z => f2 x y z) M 60 _ 20 H3) as [E4 H4]; [lia | lia | | auto |].
  { intros t x y z Ht Hx Hy Hz. unfold fips_f. by zbool. }
  change (Z.of_nat 20) with 20 in E1, E2, E3, E4. rewrite <- E1, <- E2, <- E3. exact E4.
Qed.

Lemma block_words_ok inp : Forall is_byte inp -> length inp = 64%nat -> Forall is_word (block_words inp).
Proof.
  intros Hb Hl. apply Forall_fmap, Forall_forall. intros i Hi%elem_of_seqZ. unfold compose, is_word.
  pose proof (be_val_range (slice inp (4 * i) 4) (slice_Forall _ _ _ _ Hb)) as H.
  by rewrite length_slice in H by lia.
Qed.

Lemma sha_transform_words digest inp W :
  length (sha_transform digest inp W).1 = 5%nat /\ Forall is_word (sha_transform digest inp W).1.
Proof. split; [done |]. repeat constructor; apply u32_word. Qed.

(** What was in the workspace does not matter. *)
Lemma sha_workspace digest inp W W' :
  length inp = 64%nat -> Forall is_byte inp -> length W = 80%nat -> length W' = 80%nat ->
  sha_transform digest inp W = sha_transform digest inp W'.
Proof.
  intros Hl Hb HW HW'. unfold sha_transform.
  by rewrite !sha_load_eq, !sha_expand_eq by (len || by auto using block_words_ok).
Qed.

(** C22: On a digest of five 32-bit words and a block of 64 bytes sha_transform
    leaves in the digest the compression function of FIPS 180-1, and in its
    workspace, whatever was there, the message schedule. *)
Theorem sha_transform_correct digest inp W :
  length digest = 5%nat -> Forall is_word digest -> length inp = 64%nat -> Forall is_byte inp -> length W = 80%nat ->
  sha_transform digest inp W = (fips_compress digest (block_words inp), fips_W (block_words inp) 80).
Proof.
  intros Hd Hdw Hl Hb HW. destruct digest as [|h0 [|h1 [|h2 [|h3 [|h4 [|]]]]]]; try done.
  unfold sha_transform. rewrite sha_load_eq, sha_expand_eq by (len || by auto using block_words_ok).
  rewrite sha_all_rounds; [done |]. rewrite !Forall_cons in Hdw. unfold vars_ok. simpl. tauto.
Qed.

(** The padded message abc of the standard and its digest. *)
Lemma sha_transform_correct_witness :
  let abc := [0x61; 0x62; 0x63; 0x80] ++ replicate 59 0 ++ [24] in
  (sha_transform sha_init abc (replicate 80 0)).1 = fips_compress sha_init (block_words abc) /\
  fips_compress sha_init (block_words abc) = [0xa9993e36; 0x4706816a; 0xba3e2571; 0x7850c26c; 0x9cd0d89d].
Proof.
  split; [| by vm_compute]. rewrite sha_transform_correct; [done | done | | done | | done].
  - repeat constructor; vm_compute; congruence.
  - repeat constructor; vm_compute; congruence.
Defined.

End Sha1.
