(* ===== verification/Random.v ===== *)
(** The random number driver, drivers/char/random.c: the entropy pools with the
    mixing of input, the accounting of entropy, extraction through SHA-1 and the
    transfer between pools, the estimate of the entropy of an event, and the
    operations of the device files. *)
From S2P Require Import Prelude Bitops Sha1.

Module Random.
Import Bitops Sha1.

Abbreviation INPUT_POOL_WORDS := 128 (only parsing).
Abbreviation OUTPUT_POOL_WORDS := 32 (only parsing).
Abbreviation SEC_XFER_SIZE := 512 (only parsing).
Abbreviation EXTRACT_SIZE := 10 (only parsing).
Abbreviation ERESTARTSYS := 512 (only parsing).

(** What stops the kernel: a BUG, the panic of the continuous test, a copy of a
    negative length. *)
Inductive fault := bug | duplicated_output | bad_length.

(** ** Pools *)

Record poolinfo := PoolInfo { poolwords : Z; tap1 : Z; tap2 : Z; tap3 : Z; tap4 : Z; tap5 : Z }.

Definition poolinfo_table : list poolinfo := [PoolInfo 128 103 76 51 25 1; PoolInfo 32 26 20 14 7 1].

#[export] Instance poolinfo_inhabited : Inhabited poolinfo := populate (PoolInfo 0 0 0 0 0 0).

(** The three static pools stand for the pointers to them. *)
Inductive store_id := input_pool | blocking_pool | nonblocking_pool.

#[export] Instance store_id_eq_dec : EqDecision store_id.
Proof. solve_decision. Defined.

Record entropy_store := Store {
  info : poolinfo; pool : list Z; limit : Z; pull : option store_id;
  add_ptr : Z; entropy_count : Z; input_rotate : Z; last_data : option (list Z) }.

Abbreviation POOLBITS r := (poolwords (info r) * 32) (only parsing).

Definition set_pool l i rot r :=
  Store (info r) l (limit r) (pull r) i (entropy_count r) rot (last_data r).
Definition set_entropy_count n r :=
  Store (info r) (pool r) (limit r) (pull r) (add_ptr r) n (input_rotate r) (last_data r).
Definition set_last_data d r :=
  Store (info r) (pool r) (limit r) (pull r) (add_ptr r) (entropy_count r) (input_rotate r) d.

(** The pools and the two thresholds, which are variables of the driver too. *)
Record random := Random {
  input : entropy_store; blocking : entropy_store; nonblocking : entropy_store;
  random_read_wakeup_thresh : Z; random_write_wakeup_thresh : Z }.

Definition store (st : random) (r : store_id) : entropy_store :=
  match r with input_pool => input st | blocking_pool => blocking st | nonblocking_pool => nonblocking st end.

Definition set_store (r : store_id) (s : entropy_store) (st : random) : random :=
  let (i, b, n, rt, wt) := st in
  match r with
  | input_pool => Random s b n rt wt
  | blocking_pool => Random i s n rt wt
  | nonblocking_pool => Random i b s rt wt
  end.

(** The pools as they are linked into the kernel. *)
Definition static_pools : random :=
  Random
    (Store (poolinfo_table !!! 0%nat) (replicate 128 0) 1 None 0 0 0 None)
    (Store (poolinfo_table !!! 1%nat) (replicate 32 0) 1 (Some input_pool) 0 0 0 None)
    (Store (poolinfo_table !!! 1%nat) (replicate 32 0) 0 (Some input_pool) 0 0 0 None)
    64 128.

(** ** Mixing *)

Abbreviation twist_table :=
  [0x00000000; 0x3b6e20c8; 0x76dc4190; 0x4db26158; 0xedb88320; 0xd6d6a3e8; 0x9b64c2b0; 0xa00ae278] (only parsing).

(** A char is signed on this machine. *)
Definition schar (b : Z) : Z := swrap 8 b.

(** The body of the loop; the indices are always within the pool because the mask
    is one less than its size. *)
Definition mix_byte (pi : poolinfo) (m : list Z * Z * Z) (byte : Z) : list Z * Z * Z :=
  let '(l, i, input_rotate) := m in
  let wordmask := poolwords pi - 1 in
  let w := rol32 (u32 (schar byte)) (input_rotate .& 31) in
  let i := u64 (i - 1) .& wordmask in
  let w := w .^ word_at l i in
  let w := w .^ word_at l (u64 (i + tap1 pi) .& wordmask) in
  let w := w .^ word_at l (u64 (i + tap2 pi) .& wordmask) in
  let w := w .^ word_at l (u64 (i + tap3 pi) .& wordmask) in
  let w := w .^ word_at l (u64 (i + tap4 pi) .& wordmask) in
  let w := w .^ word_at l (u64 (i + tap5 pi) .& wordmask) in
  let l := <[Z.to_nat i := (w .>> 3) .^ word_at twist_table (w .& 7)]> l in
  (l, i, s32 (input_rotate + (if i =? 0 then 14 else 7))).

(** Words lie in memory with the most significant byte first. *)
Definition be32_bytes (x : Z) : list Z := [u8 (x .>> 24); u8 (x .>> 16); u8 (x .>> 8); u8 x].
Definition words_bytes (l : list Z) : list Z := l ≫= be32_bytes.

(** The pool with the bytes mixed in, and the 64 bytes for [out]. *)
Definition mix_pool_bytes_extract (inp : list Z) (r : entropy_store) : list Z * entropy_store :=
  let wordmask := poolwords (info r) - 1 in
  let '(l, i, input_rotate) := foldl (mix_byte (info r)) (pool r, add_ptr r, input_rotate r) inp in
  (words_bytes ((fun j => word_at l (u64 (i - j) .& wordmask)) <$> seqZ 0 16), set_pool l i input_rotate r).

Definition mix_pool_bytes (inp : list Z) (r : entropy_store) : entropy_store := (mix_pool_bytes_extract inp r).2.

(** ** Accounting

    The second component says whether the readers, or the writers, are woken. *)
Definition credit_entropy_bits (id : store_id) (nbits : Z) (st : random) : random * bool :=
  if nbits =? 0 then (st, false)
  else
    let r := store st id in
    let count := s32 (entropy_count r + nbits) in
    let count := if count <? 0 then 0 else if count >? POOLBITS r then POOLBITS r else count in
    (set_store id (set_entropy_count count r) st,
     bool_decide (id = input_pool) && (count >=? random_read_wakeup_thresh st)).

Definition account (wthresh nbytes min reserved : Z) (r : entropy_store)
    : run fault (Z * entropy_store * bool) :=
  if entropy_count r >? POOLBITS r then Err bug
  else
    let avail := entropy_count r ÷ 8 in
    if avail <? s32 (min + reserved) then Ret (0, r, false)
    else
      let nbytes := if negb (limit r =? 0) && (u64 (nbytes + reserved) >=? u64 avail)
                    then u64 (s32 (avail - reserved)) else nbytes in
      let count := if u64 avail >=? u64 (nbytes + reserved)
                   then s32 (entropy_count r - u64 (nbytes * 8)) else reserved in
      Ret (nbytes, set_entropy_count count r, count <? wthresh).

(** ** Extraction *)

(** The workspace of the hash is on the stack and not initialised; the transform
    writes each word of it before reading it ([sha_workspace]). *)
Abbreviation workspace := (replicate 80 0) (only parsing).

Definition hash_pool (r : entropy_store) : list Z :=
  foldl (fun hash i => (sha_transform hash (words_bytes (slice (pool r) (16 * i) 16)) workspace).1)
    sha_init (seqZ 0 ((poolwords (info r) + 15) / 16)).

Definition extract_buf (r : entropy_store) : list Z * entropy_store :=
  let hash := hash_pool r in
  let '(extract, r) := mix_pool_bytes_extract (words_bytes hash) r in
  let hash := (sha_transform hash extract workspace).1 in
  let h0 := word_at hash 0 .^ word_at hash 3 in
  let h1 := word_at hash 1 .^ word_at hash 4 in
  let h2 := word_at hash 2 .^ rol32 (word_at hash 2) 16 in
  (take (Z.to_nat EXTRACT_SIZE) (words_bytes [h0; h1; h2; word_at hash 3; word_at hash 4]), r).

(** The loop of [extract_entropy]; [buf] is what has been written to the buffer. *)
Fixpoint extract_loop (fuel : nat) (nbytes : Z) (buf : list Z) (r : entropy_store) : run fault (list Z * entropy_store) :=
  match fuel with
  | O => Diverge
  | S fuel =>
      if nbytes =? 0 then Ret (buf, r)
      else
        let '(tmp, r) := extract_buf r in
        r ← match last_data r with
            | Some d => if bool_decide (tmp = d) then Err duplicated_output else Ret (set_last_data (Some tmp) r)
            | None => Ret r
            end;
        let i := Z.min (s32 nbytes) EXTRACT_SIZE in
        if i <? 0 then Err bad_length
        else extract_loop fuel (nbytes - i) (buf ++ take (Z.to_nat i) tmp) r
  end.

(** [extract_entropy] is the function below, for the pool that is pulled from. *)
Definition xfer_secondary_pool
    (extract_entropy : store_id -> Z -> Z -> Z -> random -> run fault (list Z * random))
    (id : store_id) (nbytes : Z) (st : random) : run fault random :=
  let thresh := random_read_wakeup_thresh st in
  let r := store st id in
  match pull r with
  | Some p =>
      if (u64 (entropy_count r) <? u64 (nbytes * 8)) && (entropy_count r <? POOLBITS r) then
        let rsvd := if negb (limit r =? 0) then 0 else thresh ÷ 4 in
        let bytes := Z.max (s32 nbytes) (thresh ÷ 8) in
        let bytes := Z.min bytes (4 * OUTPUT_POOL_WORDS) in
        '(tmp, st) ← extract_entropy p (u64 bytes) (thresh ÷ 8) rsvd st;
        let st := set_store id (mix_pool_bytes tmp (store st id)) st in
        Ret (credit_entropy_bits id (Z.of_nat (length tmp) * 8) st).1
      else Ret st
  | None => Ret st
  end.

(** [depth] bounds the length of the chain of pools that refill one another. *)
Fixpoint extract_entropy (depth : nat) (id : store_id) (nbytes min reserved : Z) (st : random)
    : run fault (list Z * random) :=
  match depth with
  | O => Diverge
  | S depth =>
      st ← xfer_secondary_pool (extract_entropy depth) id nbytes st;
      '(n, r, _) ← account (random_write_wakeup_thresh st) nbytes min reserved (store st id);
      '(buf, r) ← extract_loop (S (Z.to_nat n)) n [] r;
      Ret (buf, set_store id r st)
  end.

(** Two are enough: the other pools pull from the input pool, and it from none. *)
Abbreviation pool_depth := 2%nat (only parsing).

Definition get_random_bytes (nbytes : Z) (st : random) : run fault (list Z * random) :=
  extract_entropy pool_depth nonblocking_pool (u64 nbytes) 0 0 st.

(** What the loop of [extract_entropy_user] meets in a turn. *)
Record turn := Turn { need_resched : bool; signal_pending : bool; copy_faults : bool }.

(** The result is the return value, the bytes in the user's buffer and the pool. *)
Fixpoint user_loop (fuel : nat) (env : nat -> turn) (k : nat) (nbytes ret : Z) (buf : list Z) (r : entropy_store)
    : run fault (Z * list Z * entropy_store) :=
  match fuel with
  | O => Diverge
  | S fuel =>
      if nbytes =? 0 then Ret (ret, buf, r)
      else if need_resched (env k) && signal_pending (env k)
      then Ret (if ret =? 0 then - ERESTARTSYS else ret, buf, r)
      else
        let '(tmp, r) := extract_buf r in
        let i := Z.min (s32 nbytes) EXTRACT_SIZE in
        if i <? 0 then Err bad_length
        else if copy_faults (env k) then Ret (- EFAULT, buf, r)
        else user_loop fuel env (S k) (nbytes - i) (ret + i) (buf ++ take (Z.to_nat i) tmp) r
  end.

Definition extract_entropy_user (env : nat -> turn) (id : store_id) (nbytes : Z) (st : random)
    : run fault (Z * list Z * random) :=
  st ← xfer_secondary_pool (extract_entropy 1) id nbytes st;
  '(n, r, _) ← account (random_write_wakeup_thresh st) nbytes 0 0 (store st id);
  '(ret, buf, r) ← user_loop (S (Z.to_nat n)) env O n 0 [] r;
  Ret (ret, buf, set_store id r st).

(** ** The device files *)

(** One turn of the loop of [random_read]: it returns to the user, or waits for
    entropy and, unless a signal comes, goes on with the next turn. *)
Inductive read_turn := Return (ret : Z) (buf : list Z) | Wait.

Definition random_read (nonblock : bool) (env : nat -> turn) (nbytes : Z) (st : random)
    : run fault (read_turn * random) :=
  if nbytes =? 0 then Ret (Return 0 [], st)
  else
    let n := if nbytes >? SEC_XFER_SIZE then SEC_XFER_SIZE else nbytes in
    '(n, buf, st) ← extract_entropy_user env blocking_pool n st;
    Ret (if n =? 0 then if nonblock then Return (- EAGAIN) buf else Wait else Return n buf, st).

Definition urandom_read (env : nat -> turn) (nbytes : Z) (st : random) : run fault (Z * list Z * random) :=
  extract_entropy_user env nonblocking_pool nbytes st.

(** POLLIN | POLLRDNORM and POLLOUT | POLLWRNORM. *)
Definition random_poll (st : random) : bool * bool :=
  (entropy_count (input st) >=? random_read_wakeup_thresh st,
   entropy_count (input st) <? random_write_wakeup_thresh st).

(** The user's memory has the bytes of [buffer] and ends there. *)
Fixpoint write_pool (fuel : nat) (buffer : list Z) (count : Z) (r : entropy_store) : run fault (Z * entropy_store) :=
  match fuel with
  | O => Diverge
  | S fuel =>
      if count >? 0 then
        let bytes := Z.min count 64 in
        if Z.of_nat (length buffer) <? bytes then Ret (- EFAULT, r)
        else write_pool fuel (drop (Z.to_nat bytes) buffer) (count - bytes)
               (mix_pool_bytes (take (Z.to_nat bytes) buffer) r)
      else Ret (0, r)
  end.

Definition random_write (buffer : list Z) (count : Z) (st : random) : run fault (Z * random) :=
  let fuel := S (length buffer) in
  '(ret, r) ← write_pool fuel buffer count (blocking st);
  let st := set_store blocking_pool r st in
  if negb (ret =? 0) then Ret (ret, st)
  else
    '(ret, r) ← write_pool fuel buffer count (nonblocking st);
    let st := set_store nonblocking_pool r st in
    if negb (ret =? 0) then Ret (ret, st) else Ret (count, st).

(** [now] and [utsname]: the bytes of the time and of the system's names;
    [fips]: with fips_enabled, what kmalloc returns for the block of the continuous
    test, memory with whatever was in it, or nothing. *)
Definition init_std_data (now utsname : list Z) (fips : option (option (list Z))) (r : entropy_store) : entropy_store :=
  let r := set_entropy_count 0 r in
  let r := mix_pool_bytes now r in
  let r := mix_pool_bytes utsname r in
  match fips with Some mem => set_last_data mem r | None => r end.

Definition rand_initialize (now : store_id -> list Z) (utsname : list Z)
    (fips : store_id -> option (option (list Z))) (st : random) : random :=
  let init id st := set_store id (init_std_data (now id) utsname (fips id) (store st id)) st in
  init nonblocking_pool (init blocking_pool (init input_pool st)).

(** The commands with what the driver reads from or can write to the user:
    [None] where the access faults. *)
Inductive random_cmd :=
  | RNDGETENTCNT (writable : bool)
  | RNDADDTOENTCNT (ent_count : option Z)
  | RNDADDENTROPY (ent_count size : option Z) (buffer : list Z)
  | RNDZAPENTCNT
  | RNDCLEARPOOL
  | other_cmd.

(** The result: the return value, the value written to the user, the pools and
    whether readers are woken.  [init] is [rand_initialize] with its inputs. *)
Definition random_ioctl (capable : bool) (init : random -> random) (cmd : random_cmd) (st : random)
    : run fault (Z * option Z * random * bool) :=
  match cmd with
  | RNDGETENTCNT writable =>
      if writable then Ret (0, Some (entropy_count (input st)), st, false) else Ret (- EFAULT, None, st, false)
  | RNDADDTOENTCNT ent_count =>
      if negb capable then Ret (- EPERM, None, st, false)
      else match ent_count with
      | None => Ret (- EFAULT, None, st, false)
      | Some n => let '(st, wake) := credit_entropy_bits input_pool n st in Ret (0, None, st, wake)
      end
  | RNDADDENTROPY ent_count size buffer =>
      if negb capable then Ret (- EPERM, None, st, false)
      else match ent_count with
      | None => Ret (- EFAULT, None, st, false)
      | Some n =>
          if n <? 0 then Ret (- EINVAL, None, st, false)
          else match size with
          | None => Ret (- EFAULT, None, st, false)
          | Some size =>
              '(retval, r) ← write_pool (S (length buffer)) buffer (u64 size) (input st);
              let st := set_store input_pool r st in
              if retval <? 0 then Ret (retval, None, st, false)
              else let '(st, wake) := credit_entropy_bits input_pool n st in Ret (0, None, st, wake)
          end
      end
  | RNDZAPENTCNT | RNDCLEARPOOL => if negb capable then Ret (- EPERM, None, st, false) else Ret (0, None, init st, false)
  | other_cmd => Ret (- EINVAL, None, st, false)
  end.

(** ** Events

    [last_time] is a cycles_t, 32 bits wide on this machine. *)
Record timer_rand_state := TimerRand {
  last_time : Z; last_delta : Z; last_delta2 : Z; dont_count_entropy : bool }.

(** The entropy of an event at [jiffies] and the state for the next one. *)
Definition estimate (jiffies : Z) (state : timer_rand_state) : Z * timer_rand_state :=
  let delta := s64 (jiffies - last_time state) in
  let delta2 := s64 (delta - last_delta state) in
  let delta3 := s64 (delta2 - last_delta2 state) in
  let state := TimerRand (u32 jiffies) delta delta2 (dont_count_entropy state) in
  let delta := if delta <? 0 then s64 (- delta) else delta in
  let delta2 := if delta2 <? 0 then s64 (- delta2) else delta2 in
  let delta3 := if delta3 <? 0 then s64 (- delta3) else delta3 in
  let delta := if delta >? delta2 then delta2 else delta in
  let delta := if delta >? delta3 then delta3 else delta in
  (Z.min (fls (s32 (delta .>> 1))) 11, state).

Abbreviation trickle_thresh := (INPUT_POOL_WORDS * 28) (only parsing).

(** [sample]: the bytes of the structure on the stack, which has the cycles, the
    jiffies and the number of the event; [trickle_count] is this CPU's. *)
Definition add_timer_randomness (sample : list Z) (jiffies : Z) (state : timer_rand_state) (trickle_count : Z) (st : random)
    : random * timer_rand_state * Z * bool :=
  let over := entropy_count (input st) >? trickle_thresh in
  let trickle_count' := if over then s32 (trickle_count + 1) else trickle_count in
  if over && negb (trickle_count .& 0xfff =? 0) then (st, state, trickle_count', false)
  else
    let st := set_store input_pool (mix_pool_bytes sample (input st)) st in
    if dont_count_entropy state then (st, state, trickle_count', false)
    else
      let '(bits, state) := estimate jiffies state in
      let '(st, wake) := credit_entropy_bits input_pool bits st in
      (st, state, trickle_count', wake).
End Random.
