(* ===== verification/RandomMix.v ===== *)
(** The entropy pools of drivers/char/random.c: mixing bytes in can be undone by
    who knows them, so that it never makes two states of a pool the same, and
    different inputs leave different pools. *)
From S2P Require Import Prelude Bitops Sha1 Random.

Module RandomMix.
Import Sha1 Random.

(** ** Well-formed pools *)

Definition tap_ok (pi : poolinfo) (t : Z) : Prop := 1 <= t < poolwords pi.

Record info_ok (pi : poolinfo) : Prop := InfoOk {
  io_size : exists k, 4 <= k <= 16 /\ poolwords pi = 2 ^ k;
  io_taps : Forall (tap_ok pi) [tap1 pi; tap2 pi; tap3 pi; tap4 pi; tap5 pi] }.

(** The contents, the position and the rotation of a pool, as the mixing loop
    has them. *)
Definition mix_ok (pi : poolinfo) (m : list Z * Z * Z) : Prop :=
  let '(l, i, rot) := m in
  Z.of_nat (length l) = poolwords pi /\ Forall is_word l /\ 0 <= i < poolwords pi /\ - 2 ^ 31 <= rot < 2 ^ 31.

#[local] Arguments mix_byte : simpl never.
#[local] Arguments mix_ok : simpl never.

Lemma info_ok_range pi : info_ok pi -> 16 <= poolwords pi <= 65536.
Proof.
  intros [(k & Hk & ->) _]. split.
  - apply (Z.pow_le_mono_r 2 4 k); lia.
  - apply (Z.pow_le_mono_r 2 k 16); lia.
Qed.

Lemma mask_index pi x : info_ok pi -> u64 x .& (poolwords pi - 1) = x mod poolwords pi.
Proof.
  intros [(k & Hk & E) _]. rewrite E, Z.sub_1_r, <- Z.ones_equiv, Z.land_ones by lia. unfold uwrap.
  apply Z.bits_inj'. intros n Hn. destruct (Z.ltb_spec n k).
  - rewrite !Z.mod_pow2_bits_low by lia. done.
  - rewrite !Z.mod_pow2_bits_high by lia. done.
Qed.

(** ** The twist *)

Definition twist (w : Z) : Z := (w .>> 3) .^ word_at twist_table (w .& 7).

(** The three upper bits tell the entry of the table. *)
Definition untwist (v : Z) : Z :=
  let k := word_at [0; 1; 3; 2; 6; 7; 5; 4] (v .>> 29) in
  ((v .^ word_at twist_table k) .<< 3) .| k.

Lemma untwist_twist w : is_word w -> untwist (twist w) = w.
Proof.
  intros Hw. unfold untwist, twist.
  assert (w .& 7 = w mod 8) as Ek by (apply (Z.land_ones w 3); lia).
  assert (0 <= w .& 7 < 8) as Hk by (rewrite Ek; apply Z.mod_pos_bound; lia).
  assert ((w .>> 3) .>> 29 = 0) as Hq.
  { rewrite Z.shiftr_shiftr by lia. apply Z.shiftr_eq_0; [apply Hw |].
    destruct (Z.eq_dec w 0) as [->|]; [done |]. change (3 + 29) with 32.
    unfold is_word in Hw. apply Z.log2_lt_pow2; lia. }
  assert (((w .>> 3) .<< 3) .| (w .& 7) = w) as Hback.
  { rewrite lor_disjoint.
    - rewrite Ek, Z.shiftl_mul_pow2, Z.shiftr_div_pow2 by lia. change (2 ^ 3) with 8.
      pose proof (Z.div_mod w 8). lia.
    - apply Z.bits_inj'. intros n Hn. rewrite Z.land_spec, Z.land_spec, Z.testbit_0_l.
      destruct (Z.ltb_spec n 3); [by rewrite Z.shiftl_spec_low by lia |].
      by rewrite (testbit_high 7 3), !andb_false_r by lia. }
  remember (w .>> 3) as q eqn:Eq. remember (w .& 7) as k eqn:Ek'. clear Eq Ek Ek'.
  rewrite Z.shiftr_lxor, Hq, Z.lxor_0_l.
  assert (word_at [0; 1; 3; 2; 6; 7; 5; 4] (word_at twist_table k .>> 29) = k) as ->.
  { assert (k = 0 \/ k = 1 \/ k = 2 \/ k = 3 \/ k = 4 \/ k = 5 \/ k = 6 \/ k = 7) as H by lia.
    repeat destruct H as [->|H]; [done .. |]. by subst k. }
  by rewrite Z.lxor_assoc, Z.lxor_nilpotent, Z.lxor_0_r.
Qed.

Lemma twist_inj w w' : is_word w -> is_word w' -> twist w = twist w' -> w = w'.
Proof. intros Hw Hw' E. by rewrite <- (untwist_twist w), E, untwist_twist. Qed.

Lemma twist_table_words k : is_word (word_at twist_table k).
Proof.
  destruct (Z.to_nat k) as [|[|[|[|[|[|[|[|n]]]]]]]]; simpl; by (split; vm_compute; congruence).
Qed.

Lemma twist_word w : is_word w -> is_word (twist w).
Proof.
  intros Hw. apply lxor_word; [by apply shiftr_range; [lia |] | apply twist_table_words].
Qed.

(** ** One byte *)

Definition taps (pi : poolinfo) (l : list Z) (i : Z) : Z :=
  let tap t := word_at l ((i + t) mod poolwords pi) in
  tap (tap1 pi) .^ tap (tap2 pi) .^ tap (tap3 pi) .^ tap (tap4 pi) .^ tap (tap5 pi).

Definition spread (byte rot : Z) : Z := rol32 (u32 (schar byte)) (rot .& 31).

Lemma mix_byte_eq pi l i rot byte :
  info_ok pi ->
  mix_byte pi (l, i, rot) byte =
    let i := (i - 1) mod poolwords pi in
    (<[Z.to_nat i := twist (spread byte rot .^ word_at l i .^ taps pi l i)]> l, i,
     s32 (rot + (if i =? 0 then 14 else 7))).
Proof.
  intros Hpi. unfold mix_byte. rewrite !mask_index by done. unfold taps, twist, spread.
  by rewrite !Z.lxor_assoc.
Qed.

Lemma rot_range rot : 0 <= rot .& 31 <= 31.
Proof.
  assert (rot .& 31 = rot mod 32) as -> by (apply (Z.land_ones rot 5); lia).
  pose proof (Z.mod_pos_bound rot 32). lia.
Qed.

Lemma spread_word byte rot : is_word (spread byte rot).
Proof. apply rol32_word; [apply u32_word | pose proof (rot_range rot); lia]. Qed.

Lemma word_at_ok l i : Forall is_word l -> 0 <= i < Z.of_nat (length l) -> is_word (word_at l i).
Proof. intros Hl Hi. apply Forall_lookup_total_1; [done | lia]. Qed.

Lemma taps_word pi l i :
  0 < poolwords pi -> Forall is_word l -> Z.of_nat (length l) = poolwords pi -> is_word (taps pi l i).
Proof.
  intros Hp Hl Hn. repeat apply lxor_word; apply word_at_ok; try done; rewrite Hn; by apply Z.mod_pos_bound.
Qed.

Lemma mixed_word pi l i byte rot :
  Forall is_word l -> Z.of_nat (length l) = poolwords pi -> 0 <= i < poolwords pi ->
  is_word (spread byte rot .^ word_at l i .^ taps pi l i).
Proof.
  intros Hl Hn Hi. apply lxor_word; [apply lxor_word; [apply spread_word |] |].
  - apply word_at_ok; [done | lia].
  - apply taps_word; [lia | done | done].
Qed.

(** The taps of a word are other words. *)
Lemma taps_insert pi l i x :
  info_ok pi -> 0 <= i < poolwords pi -> taps pi (<[Z.to_nat i := x]> l) i = taps pi l i.
Proof.
  intros Hpi Hi. assert (forall t, tap_ok pi t ->
    word_at (<[Z.to_nat i := x]> l) ((i + t) mod poolwords pi) = word_at l ((i + t) mod poolwords pi)) as H.
  { intros t [Ht1 Ht2]. apply list_lookup_total_insert_ne.
    pose proof (Z.mod_pos_bound (i + t) (poolwords pi)). intros E%Z2Nat.inj; [| lia | lia].
    destruct (Z.lt_ge_cases (i + t) (poolwords pi)).
    - rewrite Z.mod_small in E by lia. lia.
    - rewrite <- (Z.mod_add _ (-1)), Z.mod_small in E by lia. lia. }
  destruct Hpi as [_ Ht]. rewrite !Forall_cons in Ht. unfold taps. by rewrite !H by tauto.
Qed.

(** [mix_byte] undone by who knows the byte. *)
Definition unmix_byte (pi : poolinfo) (byte : Z) (m : list Z * Z * Z) : list Z * Z * Z :=
  let '(l, i, rot) := m in
  let rot := s32 (rot - (if i =? 0 then 14 else 7)) in
  let w := untwist (word_at l i) .^ taps pi l i .^ spread byte rot in
  (<[Z.to_nat i := w]> l, (i + 1) mod poolwords pi, rot).

Definition unmix (pi : poolinfo) (bytes : list Z) (m : list Z * Z * Z) : list Z * Z * Z :=
  foldr (unmix_byte pi) m bytes.

Lemma mix_byte_ok pi m byte : info_ok pi -> mix_ok pi m -> mix_ok pi (mix_byte pi m byte).
Proof.
  destruct m as [[l i] rot]. intros Hpi (Hn & Hl & Hi & Hr). rewrite mix_byte_eq by done. unfold mix_ok. cbv zeta.
  pose proof (info_ok_range pi Hpi). pose proof (Z.mod_pos_bound (i - 1) (poolwords pi)) as Hm.
  split; [by rewrite length_insert |]. split; [| split; [lia | by apply (swrap_range 32)]].
  apply Forall_insert; [done |]. apply twist_word, mixed_word; [done | done | lia].
Qed.

Lemma mix_bytes_ok pi m bytes : info_ok pi -> mix_ok pi m -> mix_ok pi (foldl (mix_byte pi) m bytes).
Proof. intros Hpi. revert m. induction bytes as [|b bs IH]; intros m Hm; [done |]. by apply IH, mix_byte_ok. Qed.


Lemma swrap_add_sub w x y : 1 <= w -> - 2 ^ (w - 1) <= x < 2 ^ (w - 1) -> swrap w (swrap w (x + y) - y) = x.
Proof.
  intros Hw Hx. rewrite <- (swrap_small w x) at 2 by done. unfold swrap. f_equal.
  rewrite <- Z.add_sub_swap, Z.sub_add, Zminus_mod_idemp_l. f_equal. lia.
Qed.

Lemma unmix_mix_byte pi m byte : info_ok pi -> mix_ok pi m -> unmix_byte pi byte (mix_byte pi m byte) = m.
Proof.
  destruct m as [[l i] rot]. intros Hpi Hok. pose proof Hok as (Hn & Hl & Hi & Hr).
  pose proof (info_ok_range pi Hpi). pose proof (Z.mod_pos_bound (i - 1) (poolwords pi)) as Hm.
  rewrite mix_byte_eq by done. cbv zeta. set (j := (i - 1) mod poolwords pi) in *.
  assert (is_word (spread byte rot .^ word_at l j .^ taps pi l j)) as Hw by (apply mixed_word; done || lia).
  unfold unmix_byte. rewrite (swrap_add_sub 32) by (done || lia).
  rewrite list_lookup_total_insert_eq, untwist_twist, taps_insert, list_insert_insert_eq by (done || lia).
  assert (spread byte rot .^ word_at l j .^ taps pi l j .^ taps pi l j .^ spread byte rot = word_at l j) as ->.
  { bitwise_eq. }
  destruct (lookup_lt_is_Some_2 l (Z.to_nat j)) as [x Hx]; [lia |].
  rewrite (list_lookup_total_correct _ _ _ Hx), list_insert_id by done. unfold j.
  rewrite Zplus_mod_idemp_l, Z.sub_add, Z.mod_small by done. done.
Qed.

(** Mixing is undone by [unmix], byte by byte from the last one. *)
Lemma unmix_mix pi m bytes : info_ok pi -> mix_ok pi m -> unmix pi bytes (foldl (mix_byte pi) m bytes) = m.
Proof.
  intros Hpi. revert m. induction bytes as [|b bs IH]; intros m Hm; [done |]. simpl.
  rewrite IH by by apply mix_byte_ok. by apply unmix_mix_byte.
Qed.

(** ** Different inputs *)

(** A word that mixing does not reach keeps its value. *)
Lemma mix_bytes_keep pi m bytes j :
  info_ok pi -> mix_ok pi m -> 0 <= j < poolwords pi ->
  (forall n, 1 <= n <= Z.of_nat (length bytes) -> (m.1.2 - n) mod poolwords pi <> j) ->
  word_at (foldl (mix_byte pi) m bytes).1.1 j = word_at m.1.1 j.
Proof.
  intros Hpi. revert m. induction bytes as [|b bs IH]; intros [[l i] rot] Hm Hj Hn; [done |]. simpl in *.
  pose proof (info_ok_range pi Hpi). rewrite IH; [| by apply mix_byte_ok | done |].
  - rewrite mix_byte_eq by done. simpl. apply list_lookup_total_insert_ne.
    specialize (Hn 1 ltac:(lia)). pose proof (Z.mod_pos_bound (i - 1) (poolwords pi)). lia.
  - intros n Hb. rewrite mix_byte_eq by done. simpl. rewrite Zminus_mod_idemp_l.
    replace (i - 1 - n) with (i - (n + 1)) by lia. apply Hn. lia.
Qed.

Lemma schar_inj a b : is_byte a -> is_byte b -> u32 (schar a) = u32 (schar b) -> a = b.
Proof.
  unfold is_byte, schar, swrap, uwrap. intros Ha Hb. change (2 ^ (8 - 1)) with 128. change (2 ^ 8) with 256.
  change (2 ^ 32) with 4294967296. Z.to_euclidean_division_equations. lia.
Qed.

Lemma rol32_testbit x n i :
  is_word x -> 0 <= n <= 31 -> 0 <= i < 32 ->
  Z.testbit (rol32 x n) i = Z.testbit x (if i <? n then i + (32 - n) else i - n).
Proof.
  intros Hx Hn Hi. unfold rol32, uwrap.
  rewrite Z.lor_spec, Z.mod_pow2_bits_low, Z.shiftr_spec, Z.shiftl_spec by lia.
  destruct (Z.ltb_spec i n).
  - by rewrite (Z.testbit_neg_r x (i - n)) by lia.
  - by rewrite (testbit_high x 32 (i + _)), orb_false_r by (done || lia).
Qed.

Lemma rol32_inj x y n : is_word x -> is_word y -> 0 <= n <= 31 -> rol32 x n = rol32 y n -> x = y.
Proof.
  intros Hx Hy Hn E. apply Z.bits_inj'. intros j Hj.
  destruct (Z.ltb_spec j 32); [| by rewrite !(testbit_high _ 32 j) by done].
  pose (i := if j + n <? 32 then j + n else j + n - 32).
  assert (0 <= i < 32 /\ (if i <? n then i + (32 - n) else i - n) = j) as [Hi Ei].
  { unfold i. destruct (Z.ltb_spec (j + n) 32); zbool; lia. }
  rewrite <- Ei, <- !rol32_testbit by done. by rewrite E.
Qed.

Lemma lxor_cancel a b c : a .^ c = b .^ c -> a = b.
Proof.
  intros E. rewrite <- (Z.lxor_0_r a), <- (Z.lxor_0_r b), <- (Z.lxor_nilpotent c), <- !Z.lxor_assoc. by rewrite E.
Qed.

Lemma mix_byte_differs pi m a b :
  info_ok pi -> mix_ok pi m -> is_byte a -> is_byte b -> a <> b ->
  word_at (mix_byte pi m a).1.1 (mix_byte pi m a).1.2 <> word_at (mix_byte pi m b).1.1 (mix_byte pi m a).1.2.
Proof.
  destruct m as [[l i] rot]. intros Hpi (Hn & Hl & Hi & Hr) Ha Hb Hab.
  pose proof (info_ok_range pi Hpi). pose proof (Z.mod_pos_bound (i - 1) (poolwords pi)) as Hm.
  rewrite !mix_byte_eq by done. simpl. rewrite !list_lookup_total_insert_eq by lia. intros E. apply Hab.
  apply twist_inj in E; [| apply mixed_word; done || lia ..].
  apply schar_inj; [done | done |]. eapply rol32_inj; [apply u32_word .. | apply (rot_range rot) |].
  fold (spread a rot) (spread b rot).
  by apply lxor_cancel, lxor_cancel in E.
Qed.

(** Inputs of the same length, up to the size of the pool, leave different pools. *)
Lemma mix_bytes_inj pi m xs ys :
  info_ok pi -> mix_ok pi m -> Forall is_byte xs -> Forall is_byte ys -> length xs = length ys ->
  Z.of_nat (length xs) <= poolwords pi ->
  (foldl (mix_byte pi) m xs).1.1 = (foldl (mix_byte pi) m ys).1.1 -> xs = ys.
Proof.
  intros Hpi. revert m ys. induction xs as [|a xs IH]; intros m [|b ys] Hm Hx Hy Hl Hn E; try done.
  apply Forall_cons in Hx as [Ha Hx]. apply Forall_cons in Hy as [Hb Hy]. simpl in *.
  destruct (decide (a = b)) as [->|Hab].
  - f_equal. eapply IH; [by apply mix_byte_ok | done | done | lia | lia | done].
  - exfalso. apply (mix_byte_differs pi m a b); [done .. |].
    assert (mix_ok pi (mix_byte pi m a) /\ mix_ok pi (mix_byte pi m b)) as [Hma Hmb] by (split; by apply mix_byte_ok).
    assert ((mix_byte pi m a).1.2 = (mix_byte pi m b).1.2) as Ei.
    { destruct m as [[l i] rot]. by rewrite !mix_byte_eq by done. }
    destruct (mix_byte pi m a) as [[la i] ra], (mix_byte pi m b) as [[lb i'] rb]. simpl in *. subst i'.
    pose proof Hma as (_ & _ & Hi & _).
    assert (forall n, 1 <= n <= Z.of_nat (length xs) -> (i - n) mod poolwords pi <> i) as Hne.
    { intros n Hn' E'. destruct (Z.lt_ge_cases i n).
      - rewrite <- (Z.mod_add _ 1), Z.mod_small in E' by lia. lia.
      - rewrite Z.mod_small in E' by lia. lia. }
    pose proof (mix_bytes_keep pi (la, i, ra) xs i Hpi Hma Hi Hne) as Ea.
    pose proof (mix_bytes_keep pi (lb, i, rb) ys i Hpi Hmb Hi) as Eb. simpl in Ea, Eb.
    rewrite <- Ea, <- Eb, E; [done |]. by injection Hl as <-.
Qed.

(** The position goes down by one for each byte, around the pool. *)
Lemma mix_bytes_position pi m bytes :
  info_ok pi -> mix_ok pi m ->
  (foldl (mix_byte pi) m bytes).1.2 = (m.1.2 - Z.of_nat (length bytes)) mod poolwords pi.
Proof.
  intros Hpi. revert m. induction bytes as [|b bs IH]; intros [[l i] rot] Hm; cbn [foldl length].
  - destruct Hm as (_ & _ & Hi & _). cbn [fst snd]. symmetry. rewrite Z.sub_0_r. by apply Z.mod_small.
  - rewrite IH by by apply mix_byte_ok. rewrite mix_byte_eq by done. cbn [fst snd]. cbv zeta.
    rewrite Zminus_mod_idemp_l. f_equal. lia.
Qed.

Lemma position_length n a b i :
  0 <= a < n -> 0 <= b < n -> (i - a) mod n = (i - b) mod n -> a = b.
Proof.
  intros Ha Hb E. pose proof (Z.div_mod (i - a) n ltac:(lia)) as H1. pose proof (Z.div_mod (i - b) n ltac:(lia)) as H2.
  rewrite E in H1. set (k := (i - a) / n - (i - b) / n).
  assert (n * k = b - a) as H by (unfold k; lia). assert (k = 0) as -> by nia. lia.
Qed.

(** ** Whole pools *)

Record store_ok (r : entropy_store) : Prop := StoreOk {
  so_info : info_ok (info r);
  so_mix : mix_ok (info r) (pool r, add_ptr r, input_rotate r);
  so_count : 0 <= entropy_count r <= POOLBITS r }.

(** The pool before [bytes] were mixed in. *)
Definition unmix_store (bytes : list Z) (r : entropy_store) : entropy_store :=
  let '(l, i, rot) := unmix (info r) bytes (pool r, add_ptr r, input_rotate r) in set_pool l i rot r.

Lemma mix_pool_bytes_eq bytes r :
  mix_pool_bytes bytes r =
    let '(l, i, rot) := foldl (mix_byte (info r)) (pool r, add_ptr r, input_rotate r) bytes in set_pool l i rot r.
Proof. unfold mix_pool_bytes, mix_pool_bytes_extract. by destruct (foldl _ _ _) as [[l i] rot]. Qed.

Lemma mix_pool_ok bytes r : store_ok r -> store_ok (mix_pool_bytes bytes r).
Proof.
  intros [Hpi Hm Hc]. pose proof (mix_bytes_ok _ _ bytes Hpi Hm) as Hok. rewrite mix_pool_bytes_eq.
  destruct (foldl _ _ _) as [[l i] rot]. by constructor.
Qed.

(** Mixing touches nothing but the contents, the position and the rotation. *)
Lemma mix_pool_frame bytes r :
  info (mix_pool_bytes bytes r) = info r /\ limit (mix_pool_bytes bytes r) = limit r /\
  pull (mix_pool_bytes bytes r) = pull r /\ entropy_count (mix_pool_bytes bytes r) = entropy_count r /\
  last_data (mix_pool_bytes bytes r) = last_data r.
Proof. rewrite mix_pool_bytes_eq. by destruct (foldl _ _ _) as [[l i] rot]. Qed.

(** C9: Mixing bytes into a well-formed pool can be undone: from the pool after it
    and the bytes the pool before is computed, so that mixing in the same bytes
    never makes two different pools equal; the entropy count does not change.
    Different inputs of the same length, of at most as many bytes as the pool
    has words, leave different contents; different inputs of any lengths, of
    fewer bytes than the pool has words each, leave different pools, in the
    contents or in the position. *)
Theorem mix_pool_reversible r bytes :
  store_ok r ->
  store_ok (mix_pool_bytes bytes r) /\
  unmix_store bytes (mix_pool_bytes bytes r) = r /\
  entropy_count (mix_pool_bytes bytes r) = entropy_count r /\
  (forall other, Forall is_byte bytes -> Forall is_byte other -> length other = length bytes ->
    Z.of_nat (length other) <= poolwords (info r) ->
    pool (mix_pool_bytes other r) = pool (mix_pool_bytes bytes r) -> other = bytes) /\
  (forall other, Forall is_byte bytes -> Forall is_byte other ->
    Z.of_nat (length bytes) < poolwords (info r) -> Z.of_nat (length other) < poolwords (info r) ->
    mix_pool_bytes other r = mix_pool_bytes bytes r -> other = bytes).
Proof.
  intros Hr. pose proof Hr as [Hpi Hm Hc]. split; [by apply mix_pool_ok |]. split; [| split; [apply mix_pool_frame |]].
  { pose proof (unmix_mix _ _ bytes Hpi Hm) as Hu. rewrite mix_pool_bytes_eq.
    destruct (foldl _ _ _) as [[l i] rot]. unfold unmix_store. simpl. rewrite Hu. by destruct r. }
  assert (forall other, Forall is_byte bytes -> Forall is_byte other -> length other = length bytes ->
    Z.of_nat (length other) <= poolwords (info r) ->
    pool (mix_pool_bytes other r) = pool (mix_pool_bytes bytes r) -> other = bytes) as Hsame.
  { intros other Hb Ho Hl Hn E. eapply (mix_bytes_inj _ _ other bytes Hpi Hm); try done.
    rewrite !mix_pool_bytes_eq in E. by destruct (foldl _ _ other) as [[??]?], (foldl _ _ bytes) as [[??]?]. }
  split; [exact Hsame |]. intros other Hb Ho Hn Hn' E. apply Hsame; [done | done | | lia | by rewrite E].
  apply Nat2Z.inj, (position_length (poolwords (info r)) _ _ (add_ptr r)); [lia | lia |].
  pose proof (mix_bytes_position _ _ other Hpi Hm) as P1. pose proof (mix_bytes_position _ _ bytes Hpi Hm) as P2.
  rewrite !mix_pool_bytes_eq in E. cbn [fst snd] in P1, P2. rewrite <- P1, <- P2.
  destruct (foldl _ _ other) as [[??]?], (foldl _ _ bytes) as [[??]?]. by injection E.
Qed.

Lemma static_pools_ok id : store_ok (store static_pools id).
Proof.
  assert (forall k pi n, 4 <= k <= 16 -> poolwords pi = 2 ^ k -> Z.of_nat n = poolwords pi ->
    Forall (tap_ok pi) [tap1 pi; tap2 pi; tap3 pi; tap4 pi; tap5 pi] ->
    forall lim p, store_ok (Store pi (replicate n 0) lim p 0 0 0 None)) as H.
  { intros k pi n Hk E En Ht lim p. assert (0 < poolwords pi) by (rewrite E; apply Z.pow_pos_nonneg; lia).
    split; simpl; [by split; [exists k |] | | lia].
    split; [by rewrite length_replicate |]. split; [| lia]. apply Forall_replicate. by split. }
  destruct id; [apply (H 7) | apply (H 5) | apply (H 5)]; try done; repeat constructor; done.
Qed.

Lemma mix_pool_reversible_witness :
  let r := mix_pool_bytes [7; 200; 13] (input static_pools) in
  unmix_store [7; 200; 13] r = input static_pools /\
  (pool r !!! 127%nat, add_ptr r, input_rotate r) = (0xa00ae278, 125, 21) /\
  mix_pool_bytes [0] (input static_pools) <> mix_pool_bytes [] (input static_pools).
Proof.
  split; [| split; [by vm_compute |]].
  - apply (mix_pool_reversible (input static_pools) [7; 200; 13] (static_pools_ok input_pool)).
  - intros E. enough ([0] = @nil Z) by done.
    apply (mix_pool_reversible (input static_pools) [] (static_pools_ok input_pool)); [| | | | exact E];
      [constructor | repeat constructor; lia | done | done].
Defined.

End RandomMix.
