(* ===== verification/RandomExtract.v ===== *)
(** Extraction from the entropy pools of drivers/char/random.c: what accounting
    grants, that the loops end with that many bytes, and what a read moves
    between the pools. *)
From S2P Require Import Prelude Bitops Sha1 Random RandomMix.

Module RandomExtract.
Import Sha1 Random RandomMix.

(** ** Accounting *)

(** The bytes that a request for [nbytes] is granted from a pool with [count] bits
    of entropy, at least [min] and leaving [reserved] in the pool, and the count
    that remains. *)
Definition granted (limited : bool) (count nbytes min reserved : Z) : Z :=
  if count / 8 <? min + reserved then 0
  else if limited then Z.min nbytes (count / 8 - reserved) else nbytes.

Definition remaining (limited : bool) (count nbytes min reserved : Z) : Z :=
  if count / 8 <? min + reserved then count
  else if limited then count - 8 * Z.min nbytes (count / 8 - reserved)
  else if nbytes + reserved <=? count / 8 then count - 8 * nbytes else reserved.

Abbreviation limited r := (negb (limit r =? 0)) (only parsing).

Lemma store_count_range r : store_ok r -> 0 <= entropy_count r < 2 ^ 22.
Proof. intros [Hpi _ Hc]. pose proof (info_ok_range _ Hpi). lia. Qed.

Lemma account_eq wt nbytes min reserved r :
  store_ok r -> 0 <= nbytes < 2 ^ 60 -> 0 <= min < 2 ^ 20 -> 0 <= reserved < 2 ^ 20 ->
  exists wake, account wt nbytes min reserved r =
    Ret (granted (limited r) (entropy_count r) nbytes min reserved,
         set_entropy_count (remaining (limited r) (entropy_count r) nbytes min reserved) r, wake).
Proof.
  intros Hr Hn Hm Hv. pose proof (store_count_range r Hr) as Hc. destruct Hr as [_ _ Hb].
  unfold account, granted, remaining. rewrite Z.quot_div_nonneg by lia. zbool.
  assert (8 * (entropy_count r / 8) <= entropy_count r < 8 * (entropy_count r / 8) + 8) as Ha.
  { Z.to_euclidean_division_equations. lia. }
  set (c := entropy_count r) in *. set (a := c / 8) in *.
  rewrite (swrap_small 32 (min + reserved)), (swrap_small 32 (a - reserved)) by lia.
  destruct (Z.ltb_spec a (min + reserved)); [exists false; by destruct r |].
  rewrite (uwrap_small 64 a), (uwrap_small 64 (nbytes + reserved)), (uwrap_small 64 (a - reserved)) by lia.
  set (n := if _ && _ then _ else nbytes).
  assert (n = if limited r then Z.min nbytes (a - reserved) else nbytes) as En.
  { unfold n. destruct (limited r); simpl; [zcase; lia | done]. }
  assert (0 <= n <= nbytes) by (rewrite En; destruct (limited r); lia).
  rewrite (uwrap_small 64 (n + reserved)), (uwrap_small 64 (n * 8)) by lia.
  eexists. f_equal. f_equal. f_equal; [done |]. f_equal. rewrite En. destruct (limited r).
  - zbool. rewrite (swrap_small 32) by lia. lia.
  - zcase; [| done]. rewrite (swrap_small 32) by lia. lia.
Qed.

Lemma granted_range l c n m v : 0 <= n -> 0 <= c -> 0 <= m -> 0 <= v -> 0 <= granted l c n m v <= n.
Proof. intros. unfold granted. zcase; [lia |]. destruct l; lia. Qed.

(** A limited pool gives no more than it has and keeps what is reserved. *)
Lemma remaining_limited c n m v :
  0 <= n -> 0 <= c -> 0 <= m -> 0 <= v -> remaining true c n m v = c - 8 * granted true c n m v.
Proof. intros. unfold remaining, granted. zcase; lia. Qed.

Lemma remaining_range l c n m v :
  0 <= n -> 0 <= c -> 0 <= m -> 0 <= v -> 0 <= remaining l c n m v <= c.
Proof.
  intros. assert (8 * (c / 8) <= c < 8 * (c / 8) + 8) by (Z.to_euclidean_division_equations; lia).
  unfold remaining. zcase; [lia |]. destruct l; [lia |]. zcase; lia.
Qed.

Lemma set_count_ok n r : store_ok r -> 0 <= n <= POOLBITS r -> store_ok (set_entropy_count n r).
Proof. intros [Hpi Hm _] Hn. by constructor. Qed.

(** ** Extraction *)

(** What one turn of extraction may change: the contents, the position and the
    rotation of the pool, and the block for the continuous test. *)
Definition same_account (r r' : entropy_store) : Prop :=
  info r' = info r /\ limit r' = limit r /\ pull r' = pull r /\ entropy_count r' = entropy_count r /\
  (last_data r = None -> last_data r' = None).

#[export] Instance same_account_preorder : PreOrder same_account.
Proof.
  split; unfold same_account.
  - intros r. tauto.
  - intros r1 r2 r3 (?&?&?&?&?) (?&?&?&?&?). split_and!; try congruence. auto.
Qed.

Lemma length_words_bytes l : length (words_bytes l) = (4 * length l)%nat.
Proof. unfold words_bytes. induction l as [|x l IH]; [done |]. rewrite bind_cons, length_app, IH. simpl. lia. Qed.

Lemma words_bytes_ok l : Forall is_byte (words_bytes l).
Proof.
  unfold words_bytes. apply Forall_bind, Forall_forall. intros x _.
  repeat constructor; apply (uwrap_range 8); lia.
Qed.

#[local] Opaque sha_transform mix_pool_bytes_extract words_bytes.

Lemma length_hash_pool r : length (hash_pool r) = 5%nat.
Proof.
  unfold hash_pool. induction (seqZ 0 _) as [|i l IH] using rev_ind; [done |].
  rewrite foldl_app. simpl. apply sha_transform_words.
Qed.

Lemma extract_buf_mix r : exists tmp, extract_buf r = (tmp, mix_pool_bytes (words_bytes (hash_pool r)) r).
Proof.
  unfold extract_buf, mix_pool_bytes. destruct (mix_pool_bytes_extract _ r) as [ext r1]. eexists. reflexivity.
Qed.

Lemma extract_buf_ok r tmp r' :
  store_ok r -> extract_buf r = (tmp, r') ->
  store_ok r' /\ same_account r r' /\ length tmp = 10%nat /\ Forall is_byte tmp /\ last_data r' = last_data r.
Proof.
  intros Hr. unfold extract_buf. destruct (mix_pool_bytes_extract _ r) as [ext r1] eqn:E.
  assert (r1 = mix_pool_bytes (words_bytes (hash_pool r)) r) as -> by (unfold mix_pool_bytes; by rewrite E).
  intros [= <- <-]. destruct (mix_pool_frame (words_bytes (hash_pool r)) r) as (?&?&?&?&?).
  split; [by apply mix_pool_ok |]. split; [by split_and!; [..| congruence] |].
  split; [by rewrite length_take, length_words_bytes |]. split; [| done]. apply Forall_take, words_bytes_ok.
Qed.

(** The code returns something with [P], or, if the continuous test is on, it
    panics because a block came twice. *)
Definition outcome {A} (fips : Prop) (P : A -> Prop) (x : run fault A) : Prop :=
  match x with Ret a => P a | Err duplicated_output => fips | _ => False end.

Lemma outcome_bind {A B} fips (P : A -> Prop) (Q : B -> Prop) x f :
  outcome fips P x -> (forall a, P a -> outcome fips Q (f a)) -> outcome fips Q (x ≫= f).
Proof. destruct x as [a|[]|]; simpl; auto; done. Qed.

Lemma outcome_mono {A} (F G : Prop) (P Q : A -> Prop) x :
  (forall a, P a -> Q a) -> (F -> G) -> outcome F P x -> outcome G Q x.
Proof. destruct x as [a|[]|]; simpl; auto. Qed.

Definition tested (r : entropy_store) : Prop := last_data r <> None.

Lemma set_last_data_ok d r : store_ok r -> store_ok (set_last_data d r).
Proof. intros [Hpi Hm Hc]. by constructor. Qed.

Lemma same_account_tested r r' : same_account r r' -> tested r' -> tested r.
Proof. unfold tested. intros (_&_&_&_&H) ??. auto. Qed.

Lemma extract_loop_ok fuel n buf r :
  store_ok r -> 0 <= n < 2 ^ 31 -> (Z.to_nat n < fuel)%nat ->
  outcome (tested r) (fun '(out, r') => exists new, out = buf ++ new /\ Z.of_nat (length new) = n /\
    Forall is_byte new /\ store_ok r' /\ same_account r r') (extract_loop fuel n buf r).
Proof.
  revert n buf r. induction fuel as [|fuel IH]; intros n buf r Hr Hn Hf; [lia |]. simpl.
  destruct (Z.eqb_spec n 0) as [->|Hn0].
  { exists []. rewrite app_nil_r. do 4 (split; [done |]). reflexivity. }
  destruct (extract_buf r) as [tmp r1] eqn:E.
  destruct (extract_buf_ok r tmp r1 Hr E) as (Hr1 & Hs & Ht & Hb & Hd).
  eapply (outcome_bind _ (fun r2 => store_ok r2 /\ same_account r r2)).
  - destruct (last_data r1) as [d|] eqn:El; [| done].
    case_bool_decide; [simpl; unfold tested; congruence |]. split; [by apply set_last_data_ok |].
    destruct Hs as (?&?&?&?&?). split_and!; try done. congruence.
  - intros r2 [Hr2 Hs2]. rewrite (swrap_small 32 n) by lia. zbool.
    eapply outcome_mono; [| apply (same_account_tested r r2 Hs2) | apply IH; [done | lia | lia]].
    intros [out r'] (new & -> & Hl & Hnew & Hr' & Hs'). exists (take (Z.to_nat (Z.min n 10)) tmp ++ new).
    rewrite <- app_assoc. split; [done |]. split; [| split; [| split; [done |]]].
    + rewrite length_app, length_take. lia.
    + apply Forall_app. split; [by apply Forall_take | done].
    + by transitivity r2.
Qed.

(** ** The three pools *)

(** The read-only data of a pool. *)
Definition fixed (r : entropy_store) : poolinfo * Z * option store_id := (info r, limit r, pull r).

Record random_ok (st : random) : Prop := RandomOk {
  ro_stores : forall id, store_ok (store st id);
  ro_fixed : forall id, fixed (store st id) = fixed (store static_pools id);
  ro_thresh : 8 <= random_read_wakeup_thresh st <= 4096 }.

Lemma store_set_eq id r st : store (set_store id r st) id = r.
Proof. by destruct st, id. Qed.

Lemma store_set_ne id o r st : o <> id -> store (set_store id r st) o = store st o.
Proof. by destruct st, id, o. Qed.

Lemma thresh_set id r st : random_read_wakeup_thresh (set_store id r st) = random_read_wakeup_thresh st.
Proof. by destruct st, id. Qed.

Lemma set_store_ok id r st :
  random_ok st -> store_ok r -> fixed r = fixed (store st id) -> random_ok (set_store id r st).
Proof.
  intros [Hs Hf Ht] Hr Hfix. split.
  - intros o. destruct (decide (o = id)) as [->|]; [by rewrite store_set_eq | by rewrite store_set_ne].
  - intros o. destruct (decide (o = id)) as [->|]; [by rewrite store_set_eq, Hfix | by rewrite store_set_ne].
  - by rewrite thresh_set.
Qed.

Lemma random_ok_limit st id : random_ok st -> limit (store st id) = limit (store static_pools id).
Proof. intros [_ Hf _]. specialize (Hf id). by injection Hf. Qed.

Lemma random_ok_info st id : random_ok st -> info (store st id) = info (store static_pools id).
Proof. intros [_ Hf _]. specialize (Hf id). by injection Hf. Qed.

Lemma random_ok_pull st id : random_ok st -> pull (store st id) = pull (store static_pools id).
Proof. intros [_ Hf _]. specialize (Hf id). by injection Hf. Qed.

(** A request for [n] bytes is served from [r], which becomes [r']. *)
Record draws (r : entropy_store) (n m v : Z) (buf : list Z) (r' : entropy_store) : Prop := Draws {
  dr_length : Z.of_nat (length buf) = granted (limited r) (entropy_count r) n m v;
  dr_bytes : Forall is_byte buf;
  dr_ok : store_ok r';
  dr_fixed : fixed r' = fixed r;
  dr_count : entropy_count r' = remaining (limited r) (entropy_count r) n m v;
  dr_tested : tested r' -> tested r }.

Abbreviation small m := (0 <= m < 2 ^ 20) (only parsing).

Lemma draw_ok wt id n m v st :
  store_ok (store st id) -> 0 <= n < 2 ^ 31 -> small m -> small v ->
  outcome (tested (store st id)) (fun '(buf, st') => exists r', draws (store st id) n m v buf r' /\ st' = set_store id r' st)
    ('(k, r, _) ← account wt n m v (store st id); '(buf, r) ← extract_loop (S (Z.to_nat k)) k [] r;
     Ret (buf, set_store id r st)).
Proof.
  intros Hr Hn Hm Hv. pose proof (so_count _ Hr) as Hc.
  destruct (account_eq wt n m v (store st id) Hr) as [wake ->]; [lia | done | done |]. rewrite run_bind_Ret.
  pose proof (granted_range (limited (store st id)) (entropy_count (store st id)) n m v) as Hg.
  pose proof (remaining_range (limited (store st id)) (entropy_count (store st id)) n m v) as Hrem.
  eapply outcome_bind.
  - eapply outcome_mono; [exact (fun _ H => H) | | apply extract_loop_ok; [apply set_count_ok; [done | lia] | lia | lia]].
    done.
  - intros [buf r'] (new & -> & Hl & Hb & Hr' & (H1 & H2 & H3 & H4 & H5)). exists r'. split; [| done].
    split; try done; [unfold fixed; simpl in *; congruence | unfold tested; auto].
Qed.

(** ** Refilling *)

(** The bytes that a request for [n] moves from an input pool with [ci] bits into
    a pool with [c]. *)
Definition refill (thresh : Z) (lim : bool) (ci c n : Z) : Z :=
  if (c <? 8 * n) && (c <? 1024)
  then granted true ci (Z.min (Z.max n (thresh / 8)) 128) (thresh / 8) (if lim then 0 else thresh / 4)
  else 0.

Abbreviation refill_of st id n :=
  (refill (random_read_wakeup_thresh st) (limited (store st id)) (entropy_count (input st))
     (entropy_count (store st id)) n) (only parsing).

(** What a refill leaves, if any was needed. *)
Record refilled (st : random) (id : store_id) (n : Z) (st' : random) : Prop := Refilled {
  re_ok : random_ok st';
  re_input : entropy_count (input st') = entropy_count (input st) - 8 * refill_of st id n;
  re_count : entropy_count (store st' id) = Z.min 1024 (entropy_count (store st id) + 8 * refill_of st id n);
  re_other : forall o, o <> id -> o <> input_pool -> store st' o = store st o;
  re_thresh : random_read_wakeup_thresh st' = random_read_wakeup_thresh st;
  re_tested : forall o, tested (store st' o) -> tested (store st o) }.

Lemma extract_entropy_S d id n m v st :
  extract_entropy (S d) id n m v st =
    (st ← xfer_secondary_pool (extract_entropy d) id n st;
     '(k, r, _) ← account (random_write_wakeup_thresh st) n m v (store st id);
     '(buf, r) ← extract_loop (S (Z.to_nat k)) k [] r;
     Ret (buf, set_store id r st)).
Proof. reflexivity. Qed.

#[local] Opaque extract_entropy extract_loop.

Lemma xfer_input f n st : random_ok st -> xfer_secondary_pool f input_pool n st = Ret st.
Proof. intros Hst. unfold xfer_secondary_pool. by rewrite (random_ok_pull st input_pool Hst). Qed.

Lemma extract_input_ok d n m v st :
  random_ok st -> 0 <= n < 2 ^ 31 -> small m -> small v ->
  outcome (tested (input st)) (fun '(buf, st') => exists r', draws (input st) n m v buf r' /\ st' = set_store input_pool r' st)
    (extract_entropy (S d) input_pool n m v st).
Proof.
  intros Hst Hn Hm Hv. rewrite extract_entropy_S, xfer_input, run_bind_Ret by done.
  apply (draw_ok _ input_pool); [apply ro_stores | ..]; done.
Qed.

Lemma credit_eq id n st :
  store_ok (store st id) -> 0 <= n < 2 ^ 30 ->
  (credit_entropy_bits id n st).1 =
    set_store id (set_entropy_count (Z.min (POOLBITS (store st id)) (entropy_count (store st id) + n)) (store st id)) st.
Proof.
  intros Hr Hn. pose proof (store_count_range _ Hr). pose proof (so_count _ Hr). unfold credit_entropy_bits.
  destruct (Z.eqb_spec n 0) as [->|]; simpl.
  - rewrite Z.add_0_r, Z.min_r by lia. destruct st as [[] [] [] ??], id; done.
  - rewrite (swrap_small 32) by lia. zbool. do 2 f_equal. zcase; lia.
Qed.

(** Mixing what came from the input pool into another pool and crediting it. *)
Lemma refill_step id n m v k st buf r' :
  random_ok st -> id <> input_pool -> 0 <= k -> refill_of st id n = granted true (entropy_count (input st)) k m v ->
  POOLBITS (store st id) = 1024 -> Z.of_nat (length buf) <= 128 -> 0 <= m -> 0 <= v ->
  draws (input st) k m v buf r' ->
  let st0 := set_store input_pool r' st in
  refilled st id n
    (credit_entropy_bits id (Z.of_nat (length buf) * 8) (set_store id (mix_pool_bytes buf (store st0 id)) st0)).1.
Proof.
  intros Hst Hid Hk Hre Hp Hl Hm Hv [Hlen Hb Hok Hf Hcnt Htest] st0.
  assert (limited (input st) = true) as El by (pose proof (random_ok_limit st input_pool Hst) as E; simpl in E; by rewrite E).
  rewrite El in Hlen, Hcnt. pose proof (ro_stores _ Hst input_pool) as Hin. pose proof (so_count _ Hin) as Hci. simpl in Hci.
  rewrite remaining_limited in Hcnt by lia.
  assert (random_ok st0) as Hst0 by by apply set_store_ok.
  assert (store st0 id = store st id) as E0 by by apply store_set_ne.
  destruct (mix_pool_frame buf (store st id)) as (F1 & F2 & F3 & F4 & F5).
  pose proof (mix_pool_ok buf _ (ro_stores _ Hst id)) as Hmix. pose proof (so_count _ (ro_stores _ Hst id)) as Hc.
  rewrite E0, credit_eq; [| by rewrite store_set_eq | lia]. rewrite store_set_eq, F1, F4, Hp.
  split.
  - apply set_store_ok; [by apply set_store_ok; [| | unfold fixed; rewrite E0; congruence] | | by rewrite store_set_eq].
    apply set_count_ok; [done | rewrite F1; lia].
  - change (input ?x) with (store x input_pool). rewrite !store_set_ne by done. unfold st0. rewrite store_set_eq. simpl. lia.
  - rewrite store_set_eq. simpl. f_equal. lia.
  - intros o Ho Hi. unfold st0. by rewrite !store_set_ne by done.
  - unfold st0. by rewrite !thresh_set.
  - intros o. destruct (decide (o = id)) as [->|]; [rewrite store_set_eq | rewrite !store_set_ne by done].
    + unfold tested. simpl. by rewrite F5.
    + destruct (decide (o = input_pool)) as [->|]; unfold st0; [rewrite store_set_eq; apply Htest | by rewrite store_set_ne].
Qed.

Lemma thresh_parts t : 8 <= t <= 4096 -> 1 <= t / 8 <= 512 /\ 2 <= t / 4 <= 1024.
Proof. intros. Z.to_euclidean_division_equations. lia. Qed.

Lemma xfer_ok d id n st :
  random_ok st -> id <> input_pool -> 0 <= n < 2 ^ 31 ->
  outcome (tested (input st)) (refilled st id n) (xfer_secondary_pool (extract_entropy (S d)) id n st).
Proof.
  intros Hst Hid Hn. pose proof (ro_thresh _ Hst) as Ht. pose proof (ro_stores _ Hst id) as Hr.
  pose proof (store_count_range _ Hr) as Hcr. pose proof (thresh_parts _ Ht) as [H8 H4].
  assert (POOLBITS (store st id) = 1024) as Hp by (rewrite (random_ok_info st id Hst); by destruct id).
  assert (pull (store st id) = Some input_pool) as Hpull by (rewrite (random_ok_pull st id Hst); by destruct id).
  pose proof (so_count _ Hr) as Hc. unfold xfer_secondary_pool.
  rewrite Hpull, Hp, !uwrap_small, (swrap_small 32 n), !Z.quot_div_nonneg, Z.mul_comm by lia.
  destruct (_ && _) eqn:Ew; [| split; unfold refill; rewrite ?Ew; try done; lia].
  set (v := if limited _ then _ else _). assert (0 <= v <= 1024) as Hv by (unfold v; destruct (limited _); lia).
  rewrite (uwrap_small 64 (Z.min _ _)) by lia.
  eapply outcome_bind; [apply extract_input_ok; [done | lia | lia | lia] |].
  intros [buf st0] (r' & Hd & ->). eapply refill_step; [done | done | | | done | | | | exact Hd]; try lia.
  - unfold refill. rewrite Ew. f_equal.
  - pose proof (dr_length _ _ _ _ _ _ Hd) as Hl. pose proof (so_count _ (ro_stores _ Hst input_pool)) as Hci.
    pose proof (granted_range (limited (input st)) (entropy_count (input st))
      (Z.min (Z.max n (random_read_wakeup_thresh st / 8)) (4 * 32)) (random_read_wakeup_thresh st / 8) v).
    simpl in Hci. lia.
Qed.

(** ** Reads *)

(** The entropy of a pool after the refill that a request for [n] causes. *)
Definition available (st : random) (id : store_id) (n : Z) : Z :=
  Z.min 1024 (entropy_count (store st id) + 8 * refill_of st id n).

(** The bytes a request gets: all of them from the pool without limit, otherwise
    no more than there is entropy for. *)
Definition served (st : random) (id : store_id) (n : Z) : Z :=
  if limited (store st id) then Z.min n (available st id n / 8) else n.

Record read_effect (st : random) (id : store_id) (n : Z) (st' : random) : Prop := ReadEffect {
  ef_ok : random_ok st';
  ef_input : entropy_count (input st') = entropy_count (input st) - 8 * refill_of st id n;
  ef_count : entropy_count (store st' id) =
    if limited (store st id) then available st id n - 8 * served st id n else Z.max 0 (available st id n - 8 * n);
  ef_other : forall o, o <> id -> o <> input_pool -> store st' o = store st o }.

Lemma read_effect_intro st st1 id n r' :
  random_ok st -> id <> input_pool -> 0 <= n -> refilled st id n st1 ->
  store_ok r' -> fixed r' = fixed (store st1 id) ->
  entropy_count r' = remaining (limited (store st1 id)) (entropy_count (store st1 id)) n 0 0 ->
  read_effect st id n (set_store id r' st1) /\
  granted (limited (store st1 id)) (entropy_count (store st1 id)) n 0 0 = served st id n.
Proof.
  intros Hst Hid Hn [Hok Hi Hc Ho Ht _] Hr' Hf Hcnt.
  assert (limit (store st1 id) = limit (store st id)) as El.
  { by rewrite (random_ok_limit _ _ Hok), (random_ok_limit _ _ Hst). }
  pose proof (so_count _ (ro_stores _ Hok id)) as Hc1. rewrite El, Hc in *. fold (available st id n) in *.
  assert (8 * (available st id n / 8) <= available st id n < 8 * (available st id n / 8) + 8) as Ha.
  { Z.to_euclidean_division_equations. lia. }
  split; [split |].
  - by apply set_store_ok.
  - change (input ?x) with (store x input_pool). by rewrite store_set_ne.
  - rewrite store_set_eq, Hcnt. unfold remaining, served. zbool.
    destruct (limited (store st id)); [f_equal; f_equal; lia |]. zcase; lia.
  - intros o Ho1 Ho2. rewrite store_set_ne by done. by apply Ho.
  - unfold granted, served. zbool. destruct (limited (store st id)); lia.
Qed.

(** With the continuous test on for some pool. *)
Definition fips (st : random) : Prop := exists id, tested (store st id).

Lemma extract_ok d id n st :
  random_ok st -> id <> input_pool -> 0 <= n < 2 ^ 31 ->
  outcome (fips st) (fun '(buf, st') =>
    Z.of_nat (length buf) = served st id n /\ Forall is_byte buf /\ read_effect st id n st')
    (extract_entropy (S (S d)) id n 0 0 st).
Proof.
  intros Hst Hid Hn. rewrite extract_entropy_S.
  eapply outcome_bind; [eapply outcome_mono, (xfer_ok d id n st Hst Hid Hn); [done |]; by exists input_pool |].
  intros st1 Hre. eapply outcome_mono; [| | apply draw_ok; [apply ro_stores, Hre | lia | lia | lia]].
  - intros [buf st'] (r' & [Hl Hb Hok Hf Hc _] & ->).
    destruct (read_effect_intro st st1 id n r') as [He Hs]; try done; [lia |]. rewrite <- Hs. done.
  - intros Ht. exists id. by apply (re_tested _ _ _ _ Hre).
Qed.

(** What the user sees of [g] granted bytes: all of them, unless a signal or a
    fault of the copy comes between; after a fault the number of bytes that were
    copied is lost. *)
Definition user_result (env : nat -> turn) (g ret : Z) (buf : list Z) : Prop :=
  Forall is_byte buf /\ Z.of_nat (length buf) <= g /\
  (ret = Z.of_nat (length buf) /\ (ret = 0 -> g = 0) \/
   0 < g /\ (ret = - ERESTARTSYS /\ buf = [] \/ ret = - EFAULT)) /\
  ((forall k, need_resched (env k) && signal_pending (env k) = false /\ copy_faults (env k) = false) ->
   ret = g /\ Z.of_nat (length buf) = g).

Lemma user_loop_ok fuel env k n buf r :
  store_ok r -> Forall is_byte buf -> 0 <= n -> Z.of_nat (length buf) + n < 2 ^ 31 -> (Z.to_nat n < fuel)%nat ->
  exists ret buf' r', user_loop fuel env k n (Z.of_nat (length buf)) buf r = Ret (ret, buf', r') /\
    user_result env (Z.of_nat (length buf) + n) ret buf' /\ store_ok r' /\ same_account r r'.
Proof.
  revert k n buf r. induction fuel as [|fuel IH]; intros k n buf r Hr Hb Hn Hl Hf; [lia |]. simpl.
  destruct (Z.eqb_spec n 0) as [->|Hn0].
  { eexists _, _, _. split; [done |]. split; [| done]. split; [done |]. split; [lia |]. split; [left; lia | lia]. }
  destruct (need_resched (env k) && signal_pending (env k)) eqn:Es.
  { eexists _, _, _. split; [done |]. split; [| done]. split; [done |]. split; [lia |]. split.
    - destruct (Z.eqb_spec (Z.of_nat (length buf)) 0) as [E|]; [right | left; lia].
      split; [lia |]. left. split; [done |]. by destruct buf.
    - intros H. specialize (H k) as [H _]. congruence. }
  destruct (extract_buf r) as [tmp r1] eqn:E.
  destruct (extract_buf_ok r tmp r1 Hr E) as (Hr1 & Hs & Ht & Htb & _).
  rewrite (swrap_small 32 n) by lia. zbool. destruct (copy_faults (env k)) eqn:Ec.
  { eexists _, _, _. split; [done |]. split; [| done]. split; [done |]. split; [lia |]. split; [right; auto with lia |].
    intros H. specialize (H k) as [_ H]. congruence. }
  set (i := Z.min n 10).
  assert (Z.of_nat (length (buf ++ take (Z.to_nat i) tmp)) = Z.of_nat (length buf) + i) as Ei by (unfold i; len).
  destruct (IH (S k) (n - i) (buf ++ take (Z.to_nat i) tmp) r1) as (ret & buf' & r' & E' & Hu & Hr' & Hs').
  - done.
  - apply Forall_app. split; [done | by apply Forall_take].
  - lia.
  - lia.
  - lia.
  - rewrite Ei in E', Hu. eexists _, _, _. split; [exact E' |]. split; [| split; [done | by transitivity r1]].
    by replace (Z.of_nat (length buf) + n) with (Z.of_nat (length buf) + i + (n - i)) by lia.
Qed.

Lemma extract_user_ok env id n st :
  random_ok st -> id <> input_pool -> 0 <= n < 2 ^ 31 ->
  outcome (fips st) (fun '(ret, buf, st') => user_result env (served st id n) ret buf /\ read_effect st id n st')
    (extract_entropy_user env id n st).
Proof.
  intros Hst Hid Hn. unfold extract_entropy_user.
  eapply outcome_bind; [eapply outcome_mono, (xfer_ok 0 id n st Hst Hid Hn); [done |]; by exists input_pool |].
  intros st1 Hre. pose proof (ro_stores _ (re_ok _ _ _ _ Hre) id) as Hr. pose proof (so_count _ Hr) as Hc.
  destruct (account_eq (random_write_wakeup_thresh st1) n 0 0 (store st1 id)) as [wake ->]; [done | lia | lia | lia |].
  rewrite run_bind_Ret. set (r1 := set_entropy_count _ _).
  pose proof (granted_range (limited (store st1 id)) (entropy_count (store st1 id)) n 0 0) as Hg.
  pose proof (remaining_range (limited (store st1 id)) (entropy_count (store st1 id)) n 0 0) as Hrem.
  set (g := granted _ _ _ _ _) in *.
  destruct (user_loop_ok (S (Z.to_nat g)) env 0 g [] r1) as (ret & buf & r' & E & Hu & Hr' & Hs);
    [apply set_count_ok; [done | lia] | done | lia | simpl; lia | lia |].
  change (Z.of_nat (length (@nil Z))) with 0 in E, Hu. rewrite E, run_bind_Ret. simpl.
  destruct Hs as (H1 & H2 & H3 & H4 & _).
  destruct (read_effect_intro st st1 id n r') as [He Hserved]; try done; [lia | unfold fixed; simpl in *; congruence |].
  unfold g in Hu. by rewrite Hserved in Hu.
Qed.

(** C21: Reads from the pools return as the contract of the device says: in any
    well-formed state get_random_bytes and /dev/urandom give all the bytes that are
    asked for, and /dev/random, per call at most 512, as many as the blocking pool
    has entropy for after a refill; if that is none the read waits or returns
    -EAGAIN.  A signal or a fault of the copy is reported.  A refill takes from the
    input pool what it adds, at least the bytes of the threshold and at most 128,
    and for the pool without limit leaves a reserve; the other pool is not touched.
    Only with the continuous test on the kernel may panic instead. *)
Theorem random_reads_correct st n env nonblock :
  random_ok st -> 0 <= n < 2 ^ 31 ->
  outcome (fips st) (fun '(buf, st') =>
    Z.of_nat (length buf) = n /\ Forall is_byte buf /\ read_effect st nonblocking_pool n st')
    (get_random_bytes n st) /\
  outcome (fips st) (fun '(ret, buf, st') => user_result env n ret buf /\ read_effect st nonblocking_pool n st')
    (urandom_read env n st) /\
  outcome (fips st) (fun '(t, st') =>
    let g := Z.min (Z.min n 512) (available st blocking_pool (Z.min n 512) / 8) in
    (n = 0 -> t = Return 0 [] /\ st' = st) /\
    (0 < n -> read_effect st blocking_pool (Z.min n 512) st' /\
      match t with
      | Return ret buf => g = 0 /\ nonblock = true /\ ret = - EAGAIN \/ 0 < g /\ user_result env g ret buf
      | Wait => g = 0 /\ nonblock = false
      end)) (random_read nonblock env n st).
Proof.
  intros Hst Hn.
  assert (served st nonblocking_pool n = n) as En.
  { unfold served. by rewrite (random_ok_limit st nonblocking_pool Hst). }
  assert (forall m, served st blocking_pool m = Z.min m (available st blocking_pool m / 8)) as Eb.
  { intros m. unfold served. by rewrite (random_ok_limit st blocking_pool Hst). }
  split; [| split].
  - unfold get_random_bytes. rewrite uwrap_small by lia.
    eapply outcome_mono; [| exact id | by apply extract_ok]. intros [buf st']. by rewrite En.
  - unfold urandom_read. eapply outcome_mono; [| exact id | by apply extract_user_ok].
    intros [[ret buf] st']. by rewrite En.
  - unfold random_read. destruct (Z.eqb_spec n 0) as [->|Hn0]; [split; [done | lia] |].
    assert ((if n >? 512 then 512 else n) = Z.min n 512) as -> by (zcase; lia).
    eapply outcome_bind; [by apply extract_user_ok; [| | lia] |]. intros [[ret buf] st']. rewrite Eb. intros [Hu He].
    split; [lia |]. intros _. split; [done |].
    set (g := Z.min (Z.min n 512) _) in *. pose proof Hu as (_ & Hl & Hcase & _).
    destruct (Z.eqb_spec ret 0) as [->|].
    + assert (g = 0) by (destruct Hcase as [[_ H]|[_ [[H _]|H]]]; [by apply H | done | done]).
      destruct nonblock; auto.
    + right. split; [| done]. destruct Hcase as [[H _]|[H _]]; lia.
Qed.

(** An input pool with 200 bits of entropy; /dev/random read with a large buffer. *)
Definition example_pools : random := (credit_entropy_bits input_pool 200 static_pools).1.
Definition quiet : nat -> turn := fun _ => Turn false false false.

Lemma example_pools_ok : random_ok example_pools.
Proof.
  split; [| by intros [] | by vm_compute].
  intros []; [| apply (static_pools_ok blocking_pool) | apply (static_pools_ok nonblocking_pool)].
  apply (set_count_ok 200 (input static_pools)); [apply (static_pools_ok input_pool) | by vm_compute].
Qed.

Lemma random_reads_correct_witness :
  outcome (fips example_pools) (fun '(buf, st') =>
    Z.of_nat (length buf) = 40 /\ Forall is_byte buf /\ read_effect example_pools nonblocking_pool 40 st')
    (get_random_bytes 40 example_pools) /\
  served example_pools blocking_pool 512 = 25 /\
  match random_read true quiet 4096 example_pools with
  | Ret (Return ret buf, st') => ret = 25 /\ entropy_count (input st') = 0 /\ take 2 buf = [201; 203]
  | _ => False
  end.
Proof.
  split; [| by vm_compute].
  exact (proj1 (random_reads_correct example_pools 40 quiet true example_pools_ok ltac:(lia))).
Defined.

End RandomExtract.
