(* ===== verification/RandomEvent.v ===== *)
(** The estimate of the entropy of events in drivers/char/random.c: the smallest
    of the differences of their times, of first to third order, as long as the
    time fits in 32 bits; after that without the first one. *)
From S2P Require Import Prelude Bitops Sha1 Random RandomMix RandomExtract.

Module RandomEvent.
Import Bitops Sha1 Random RandomMix RandomExtract.

(** The bits of a number, and the entropy that an uncertainty of [d] ticks is
    worth: one bit less, at most 11. *)
Definition bits (x : Z) : Z := if x =? 0 then 0 else Z.log2 x + 1.
Definition worth (d : Z) : Z := Z.min (bits (d / 2)) 11.

(** The state of a source after events at the times [a], [b] and [c], whatever it
    was before. *)
Definition after (a b c : Z) (s : timer_rand_state) : timer_rand_state :=
  (estimate c (estimate b (estimate a s).2).2).2.

Lemma fls_bits x : 0 <= x < 2 ^ 32 -> fls x = bits x.
Proof. intros Hx. unfold fls, clz, bits. rewrite uwrap_small by done. zcase; lia. Qed.

Lemma worth_fls d : 0 <= d < 2 ^ 32 -> Z.min (fls (s32 (d .>> 1))) 11 = worth d.
Proof.
  intros Hd. rewrite Z.shiftr_div_pow2 by lia. change (2 ^ 1) with 2.
  assert (0 <= d / 2 < 2 ^ 31) by (Z.to_euclidean_division_equations; lia).
  rewrite (swrap_small 32) by lia. by rewrite fls_bits by lia.
Qed.

Lemma abs_case d : - 2 ^ 62 < d < 2 ^ 62 -> (if d <? 0 then s64 (- d) else d) = Z.abs d.
Proof. intros. zcase; [rewrite (swrap_small 64) by lia |]; lia. Qed.

Lemma min_case a b : (if a >? b then b else a) = Z.min a b.
Proof. zcase; lia. Qed.

Lemma estimate_eq t s :
  let d1 := t - last_time s in let d2 := d1 - last_delta s in let d3 := d2 - last_delta2 s in
  - 2 ^ 62 < d1 < 2 ^ 62 -> - 2 ^ 62 < d2 < 2 ^ 62 -> - 2 ^ 62 < d3 < 2 ^ 62 ->
  Z.min (Z.abs d2) (Z.abs d3) < 2 ^ 32 ->
  estimate t s = (worth (Z.min (Z.min (Z.abs d1) (Z.abs d2)) (Z.abs d3)),
                  TimerRand (u32 t) d1 d2 (dont_count_entropy s)).
Proof.
  intros d1 d2 d3 H1 H2 H3 Hm. unfold estimate.
  rewrite (swrap_small 64 (t - last_time s)), (swrap_small 64 (_ - last_delta s)),
    (swrap_small 64 (_ - last_delta2 s)) by lia.
  fold d1. fold d2. fold d3. rewrite !abs_case, !min_case by done. rewrite worth_fls; [done | lia].
Qed.

(** The times after [h] times 2^32 ticks, as the machine has them. *)
Abbreviation late h t := (h * 2 ^ 32 + t) (only parsing).

Lemma late_u32 h t : 0 <= t < 2 ^ 32 -> u32 (late h t) = t.
Proof. intros. unfold uwrap. rewrite Z.add_comm, Z.mod_add by lia. by apply Z.mod_small. Qed.

Lemma after_eq h a b c s :
  0 <= h < 2 ^ 20 -> 0 <= a <= b -> b <= c < 2 ^ 32 ->
  after (late h a) (late h b) (late h c) s =
    TimerRand c (h * 2 ^ 32 + (c - b)) (c - 2 * b + a) (dont_count_entropy s).
Proof.
  intros Hh Ha Hb. unfold after, estimate. simpl.
  rewrite !late_u32 by lia. rewrite !(swrap_small 64) by (rewrite ?(swrap_small 64); lia).
  f_equal; lia.
Qed.

(** C24: The entropy that is credited for an event at time [t], after events at [a],
    [b] and [c], is that of the smallest of its first, second and third order
    difference, one bit less than it has and at most 11 bits, as long as the
    counter of ticks has not passed 2^32; from then on ([h > 0]) the first order
    difference is not taken into account, because the last time is kept in a
    cycles_t of 32 bits. *)
Theorem timer_estimate_correct h a b c t s :
  0 <= h < 2 ^ 20 -> 0 <= a <= b -> b <= c <= t -> t < 2 ^ 32 ->
  let d1 := t - c in let d2 := t - 2 * c + b in let d3 := t - 3 * c + 3 * b - a in
  (estimate (late h t) (after (late h a) (late h b) (late h c) s)).1 =
    if h =? 0 then worth (Z.min (Z.min (Z.abs d1) (Z.abs d2)) (Z.abs d3)) else worth (Z.min (Z.abs d2) (Z.abs d3)).
Proof.
  intros Hh Ha Hc Ht. cbv zeta. rewrite after_eq, estimate_eq by (simpl; lia). simpl.
  destruct (Z.eqb_spec h 0) as [->|]; f_equal; lia.
Qed.

(** Two events in the same tick, the second of them 64 ticks after two others: no
    entropy in the first five minutes, six bits later. *)
Lemma timer_estimate_correct_witness :
  let s := TimerRand 0 0 0 false in
  (estimate (late 0 164) (after (late 0 100) (late 0 100) (late 0 164) s)).1 = worth 0 /\
  (estimate (late 1 164) (after (late 1 100) (late 1 100) (late 1 164) s)).1 = worth 64 /\
  worth 0 = 0 /\ worth 64 = 6.
Proof.
  split; [| split; [| by split]].
  - rewrite (timer_estimate_correct 0 100 100 164 164) by lia. by vm_compute.
  - rewrite (timer_estimate_correct 1 100 100 164 164) by lia. by vm_compute.
Defined.

(** Whatever the source, an event is credited with at most 11 bits. *)
Lemma estimate_bound t s : 0 <= (estimate t s).1 <= 11.
Proof.
  unfold estimate. simpl. set (x := s32 _). unfold fls, clz. pose proof (uwrap_range 32 x).
  zcase; [lia |]. assert (Z.log2 (u32 x) < 32) by (apply Z.log2_lt_pow2; lia).
  pose proof (Z.log2_nonneg (u32 x)). lia.
Qed.

End RandomEvent.
