(* ===== verification/RandomSystem.v ===== *)
(** The random number driver, drivers/char/random.c, with any number of readers
    and sources of entropy at a time: each section under the lock of a pool is a
    step.  The counts stay within the pools, /dev/random never gives more bytes
    than entropy was credited for, and a reader sleeps only while there is less
    than the threshold. *)
From S2P Require Import Prelude Bitops Sha1 Random RandomMix RandomExtract RandomEvent Tasks.

Module RandomSystem.
Import Sha1 Random RandomMix RandomExtract RandomEvent.

(** Where a task is that reads [n] bytes through the pool [id]: before the check
    whether the pool needs a refill, before the account of the input pool, taking
    [left] of [got] bytes from that pool, between mixing them in and crediting
    them, before the account of its own pool, giving the bytes to the reader, and
    for /dev/random on the queue of the readers, before and after the check of the
    condition; [woken] says that the queue has been woken since. *)
Inductive pc :=
  | Start (id : store_id) (n : Z)
  | Refill (id : store_id) (n : Z)
  | Pull (id : store_id) (n got left : Z)
  | Credit (id : store_id) (n got : Z)
  | Serve (id : store_id) (n : Z)
  | Output (id : store_id) (left : Z)
  | Queued (n : Z) (woken : bool)
  | Asleep (n : Z) (woken : bool).

(** The pools and the tasks, and two sums that the driver does not have: the bits
    credited to the input pool from outside and the bytes granted to readers of
    /dev/random. *)
Record system := System { pools : random; tasks : gmap Z pc; credited : Z; delivered : Z }.

Definition wake_pc (p : pc) : pc :=
  match p with Queued n _ => Queued n true | Asleep n _ => Asleep n true | _ => p end.

(** wake_up_interruptible on the queue of the readers. *)
Definition wake_queue (wake : bool) (ts : gmap Z pc) : gmap Z pc := if wake then wake_pc <$> ts else ts.

(** The condition of [xfer_secondary_pool], read without a lock. *)
Abbreviation needs_refill r n :=
  (bool_decide (pull r <> None) && (u64 (entropy_count r) <? u64 (n * 8)) && (entropy_count r <? POOLBITS r)) (only parsing).

(** The arguments it takes the input pool's entropy with. *)
Abbreviation refill_bytes thresh n := (Z.min (Z.max (s32 n) (thresh ÷ 8)) (4 * OUTPUT_POOL_WORDS)) (only parsing).
Abbreviation refill_reserve thresh r := (if negb (limit r =? 0) then 0 else thresh ÷ 4) (only parsing).

Abbreviation thresh s := (random_read_wakeup_thresh (pools s)) (only parsing).
Abbreviation wthresh s := (random_write_wakeup_thresh (pools s)) (only parsing).

Inductive step (s : system) : system -> Prop :=
  (* a reader of /dev/urandom or /dev/random, or a caller of get_random_bytes *)
  | step_read t id n :
      tasks s !! t = None -> id <> input_pool -> 0 < n < 2 ^ 31 -> (id = blocking_pool -> n <= SEC_XFER_SIZE) ->
      step s (System (pools s) (<[t := Start id n]> (tasks s)) (credited s) (delivered s))
  | step_start t id n :
      tasks s !! t = Some (Start id n) ->
      let p := if needs_refill (store (pools s) id) n then Refill id n else Serve id n in
      step s (System (pools s) (<[t := p]> (tasks s)) (credited s) (delivered s))
  | step_refill t id n got r wake :
      tasks s !! t = Some (Refill id n) ->
      account (wthresh s) (u64 (refill_bytes (thresh s) n)) (thresh s ÷ 8)
        (refill_reserve (thresh s) (store (pools s) id)) (input (pools s)) = Ret (got, r, wake) ->
      step s (System (set_store input_pool r (pools s)) (<[t := Pull id n got got]> (tasks s)) (credited s) (delivered s))
  (* one block: its hash may come from words that other CPUs are changing *)
  | step_pull t id n got left hash :
      tasks s !! t = Some (Pull id n got left) -> left <> 0 -> length hash = 20%nat ->
      step s (System (set_store input_pool (mix_pool_bytes hash (input (pools s))) (pools s))
                (<[t := Pull id n got (left - Z.min left EXTRACT_SIZE)]> (tasks s)) (credited s) (delivered s))
  | step_fill t id n got tmp :
      tasks s !! t = Some (Pull id n got 0) -> Z.of_nat (length tmp) = got ->
      step s (System (set_store id (mix_pool_bytes tmp (store (pools s) id)) (pools s))
                (<[t := Credit id n got]> (tasks s)) (credited s) (delivered s))
  | step_credit t id n got st wake :
      tasks s !! t = Some (Credit id n got) -> credit_entropy_bits id (got * 8) (pools s) = (st, wake) ->
      step s (System st (wake_queue wake (<[t := Serve id n]> (tasks s))) (credited s) (delivered s))
  | step_serve t id n g r wake :
      tasks s !! t = Some (Serve id n) -> account (wthresh s) n 0 0 (store (pools s) id) = Ret (g, r, wake) ->
      let p := if bool_decide (id = blocking_pool) && (g =? 0) then Queued n false else Output id g in
      step s (System (set_store id r (pools s)) (<[t := p]> (tasks s)) (credited s)
                (delivered s + if bool_decide (id = blocking_pool) then g else 0))
  | step_output t id left hash :
      tasks s !! t = Some (Output id left) -> left <> 0 -> length hash = 20%nat ->
      step s (System (set_store id (mix_pool_bytes hash (store (pools s) id)) (pools s))
                (<[t := Output id (left - Z.min left EXTRACT_SIZE)]> (tasks s)) (credited s) (delivered s))
  (* the read is over, or stopped by a fault, a signal or O_NONBLOCK *)
  | step_return t p :
      tasks s !! t = Some p ->
      (match p with Output _ _ | Queued _ _ | Asleep _ _ => True | _ => False end) ->
      step s (System (pools s) (delete t (tasks s)) (credited s) (delivered s))
  (* wait_event_interruptible: on the queue the condition is tested *)
  | step_check t n woken :
      tasks s !! t = Some (Queued n woken) ->
      let p := if entropy_count (input (pools s)) >=? thresh s then Start blocking_pool n else Asleep n woken in
      step s (System (pools s) (<[t := p]> (tasks s)) (credited s) (delivered s))
  | step_awake t n :
      tasks s !! t = Some (Asleep n true) ->
      step s (System (pools s) (<[t := Queued n false]> (tasks s)) (credited s) (delivered s))
  (* a write, an event or an ioctl mixes bytes into a pool, credits the input pool
     or clears a count *)
  | step_mix id bytes :
      step s (System (set_store id (mix_pool_bytes bytes (store (pools s) id)) (pools s)) (tasks s) (credited s) (delivered s))
  | step_add nbits st wake :
      - 2 ^ 31 <= nbits < 2 ^ 31 -> credit_entropy_bits input_pool nbits (pools s) = (st, wake) ->
      step s (System st (wake_queue wake (tasks s)) (credited s + Z.max 0 nbits) (delivered s))
  | step_clear id :
      step s (System (set_store id (set_entropy_count 0 (store (pools s) id)) (pools s)) (tasks s) (credited s) (delivered s))
  | step_test id d :
      step s (System (set_store id (set_last_data d (store (pools s) id)) (pools s)) (tasks s) (credited s) (delivered s)).

Inductive reachable : system -> Prop :=
  | reach_boot : reachable (System static_pools ∅ 0 0)
  | reach_step s s' : reachable s -> step s s' -> reachable s'.

(** ** The invariant *)

(** Bytes taken from the input pool and not yet credited to another one. *)
Definition in_flight (p : pc) : Z := match p with Pull _ _ got _ | Credit _ _ got => got | _ => 0 end.

Definition request_ok (id : store_id) (n : Z) : Prop := id <> input_pool /\ 0 < n < 2 ^ 31.

Definition pc_ok (p : pc) : Prop :=
  match p with
  | Start id n | Refill id n | Serve id n => request_ok id n
  | Pull id n got rest => request_ok id n /\ 0 <= rest <= got /\ got <= 128
  | Credit id n got => request_ok id n /\ 0 <= got <= 128
  | Output id rest => id <> input_pool /\ 0 <= rest
  | Queued n _ | Asleep n _ => 0 < n < 2 ^ 31
  end.

(** The entropy of the three pools. *)
Definition entropy (st : random) : Z :=
  entropy_count (input st) + entropy_count (blocking st) + entropy_count (nonblocking st).

Record inv (s : system) : Prop := Inv {
  inv_pools : random_ok (pools s);
  inv_tasks : forall t p, tasks s !! t = Some p -> pc_ok p;
  inv_account : entropy (pools s) + 8 * Tasks.total in_flight (tasks s) + 8 * delivered s <= credited s;
  inv_sleep : forall t n, tasks s !! t = Some (Asleep n false) -> entropy_count (input (pools s)) < thresh s }.

Lemma entropy_set id r st :
  entropy (set_store id r st) = entropy st - entropy_count (store st id) + entropy_count r.
Proof. destruct st, id; unfold entropy; simpl; lia. Qed.

Lemma in_flight_nonneg s : inv s -> 0 <= Tasks.total in_flight (tasks s).
Proof.
  intros H. apply Tasks.total_nonneg. intros t p Hp%(inv_tasks s H). destruct p; simpl in *; lia.
Qed.

Lemma lookup_insert_cases (m : gmap Z pc) t t' p q :
  <[t := p]> m !! t' = Some q -> t' = t /\ q = p \/ m !! t' = Some q.
Proof. intros [[<- <-]|[? ?]]%lookup_insert_Some; auto. Qed.

(** A task goes on, with the pools as they are or with one of them replaced. *)
Lemma inv_move s st t p q d :
  inv s -> tasks s !! t = Some p -> pc_ok q -> random_ok st ->
  random_read_wakeup_thresh st = thresh s -> entropy_count (input st) <= entropy_count (input (pools s)) ->
  (forall n, q = Asleep n false -> entropy_count (input st) < thresh s) ->
  entropy st + 8 * in_flight q + 8 * d <= entropy (pools s) + 8 * in_flight p ->
  inv (System st (<[t := q]> (tasks s)) (credited s) (delivered s + d)).
Proof.
  intros [Hp Ht Ha Hs] Hl Hq Hst Hth Hc Hsl He.
  assert (Tasks.total in_flight (<[t := q]> (tasks s)) = Tasks.total in_flight (tasks s) - in_flight p + in_flight q) as Et
    by by apply Tasks.total_update.
  split; simpl; [done | | lia |].
  - intros t' p' [[-> ->]|H]%lookup_insert_cases; [done | by apply (Ht t')].
  - intros t' n [[-> E]|H]%lookup_insert_cases; rewrite Hth; [by apply (Hsl n) |].
    specialize (Hs _ _ H). lia.
Qed.

Lemma inv_replace s st :
  inv s -> random_ok st -> random_read_wakeup_thresh st = thresh s ->
  entropy_count (input st) <= entropy_count (input (pools s)) -> entropy st <= entropy (pools s) ->
  inv (System st (tasks s) (credited s) (delivered s)).
Proof.
  intros [Hp Ht Ha Hs] Hst Hth Hc He. split; simpl; [done | done | lia |].
  intros t n H. rewrite Hth. specialize (Hs _ _ H). lia.
Qed.

(** A pool is replaced by one with the same read-only data and no more entropy. *)
Lemma random_replace_ok s id r :
  inv s -> store_ok r -> fixed r = fixed (store (pools s) id) -> entropy_count r <= entropy_count (store (pools s) id) ->
  let st := set_store id r (pools s) in
  random_ok st /\ random_read_wakeup_thresh st = thresh s /\
  entropy_count (input st) <= entropy_count (input (pools s)) /\
  entropy st = entropy (pools s) - entropy_count (store (pools s) id) + entropy_count r.
Proof.
  intros H Hr Hf Hc st. split; [by apply set_store_ok; [apply H | |] |]. split; [apply thresh_set |].
  split; [| apply entropy_set]. change (input ?x) with (store x input_pool). unfold st.
  destruct (decide (id = input_pool)) as [->|]; [by rewrite store_set_eq | by rewrite store_set_ne].
Qed.

Lemma mix_fixed bytes r :
  fixed (mix_pool_bytes bytes r) = fixed r /\ entropy_count (mix_pool_bytes bytes r) = entropy_count r.
Proof. destruct (mix_pool_frame bytes r) as (?&?&?&?&_). unfold fixed. split; congruence. Qed.

Lemma mix_replace s id bytes :
  inv s ->
  let st := set_store id (mix_pool_bytes bytes (store (pools s) id)) (pools s) in
  random_ok st /\ random_read_wakeup_thresh st = thresh s /\
  entropy_count (input st) <= entropy_count (input (pools s)) /\ entropy st = entropy (pools s).
Proof.
  intros H st. destruct (mix_fixed bytes (store (pools s) id)) as [Hf Hc].
  destruct (random_replace_ok s id (mix_pool_bytes bytes (store (pools s) id))) as (?&?&?&E); try done.
  - apply mix_pool_ok, ro_stores, H.
  - lia.
  - split_and!; try done. unfold st. lia.
Qed.

(** What an account does to the pool and to the sums. *)
Lemma account_replace s id n m v g r wake :
  inv s -> account (wthresh s) n m v (store (pools s) id) = Ret (g, r, wake) ->
  0 <= n < 2 ^ 31 -> 0 <= m < 2 ^ 20 -> 0 <= v < 2 ^ 20 ->
  let st := set_store id r (pools s) in
  random_ok st /\ random_read_wakeup_thresh st = thresh s /\
  entropy_count (input st) <= entropy_count (input (pools s)) /\ 0 <= g <= n /\
  entropy st + (if limited (store (pools s) id) then 8 * g else 0) <= entropy (pools s).
Proof.
  intros H E Hn Hm Hv. set (r0 := store (pools s) id) in *.
  assert (store_ok r0) as Hr by apply ro_stores, H. pose proof (so_count _ Hr) as Hc.
  destruct (account_eq (wthresh s) n m v r0 Hr) as [wake' E']; [lia | done | done |].
  rewrite E' in E. injection E as <- <- _.
  pose proof (remaining_range (limited r0) (entropy_count r0) n m v) as Hrem.
  destruct (random_replace_ok s id (set_entropy_count (remaining (limited r0) (entropy_count r0) n m v) r0))
    as (H1 & H2 & H3 & H4); [done | apply set_count_ok; [done | lia] | done | simpl; fold r0; lia |].
  simpl in H4. fold r0 in H4. split_and!; try done; try (apply granted_range; lia).
  rewrite H4. clear H4. destruct (limited r0); [rewrite remaining_limited by lia |]; lia.
Qed.

(** Crediting another pool moves entropy that was in flight. *)
Lemma credit_replace s id n st wake :
  inv s -> id <> input_pool -> 0 <= n < 2 ^ 30 -> credit_entropy_bits id n (pools s) = (st, wake) ->
  wake = false /\ random_ok st /\ random_read_wakeup_thresh st = thresh s /\
  entropy_count (input st) = entropy_count (input (pools s)) /\ entropy st <= entropy (pools s) + n.
Proof.
  intros H Hid Hn E. assert (store_ok (store (pools s) id)) as Hr by apply ro_stores, H. pose proof (so_count _ Hr) as Hc.
  assert (wake = false) as ->.
  { unfold credit_entropy_bits in E. destruct (n =? 0); [by injection E |]. rewrite bool_decide_false in E by done.
    by injection E. }
  pose proof (credit_eq id n (pools s) Hr Hn) as E'. rewrite E in E'. simpl in E'. subst st.
  split; [done |]. split; [apply set_store_ok; [apply H | apply set_count_ok; [done | lia] | done] |].
  split; [apply thresh_set |]. split; [| rewrite entropy_set; simpl; lia].
  change (input ?x) with (store x input_pool). by rewrite store_set_ne.
Qed.

Lemma add_inv s nbits st wake :
  inv s -> - 2 ^ 31 <= nbits < 2 ^ 31 -> credit_entropy_bits input_pool nbits (pools s) = (st, wake) ->
  inv (System st (wake_queue wake (tasks s)) (credited s + Z.max 0 nbits) (delivered s)).
Proof.
  intros H Hn E. unfold credit_entropy_bits in E. simpl in E.
  destruct (Z.eqb_spec nbits 0) as [->|Hnz].
  { injection E as <- <-. simpl. rewrite Z.add_0_r. by destruct s. }
  pose proof (ro_stores _ (inv_pools s H) input_pool) as Hr. pose proof (store_count_range _ Hr) as Hc.
  pose proof (so_count _ Hr) as Hb. simpl in Hc, Hb. set (r := input (pools s)) in *.
  set (c := if s32 (entropy_count r + nbits) <? 0 then 0 else _) in E.
  assert (0 <= c <= POOLBITS r /\ c <= entropy_count r + Z.max 0 nbits) as [Hc1 Hc2].
  { unfold c. assert (s32 (entropy_count r + nbits) = entropy_count r + nbits \/ s32 (entropy_count r + nbits) < 0) as Hs.
    { destruct (Z.lt_ge_cases (entropy_count r + nbits) (2 ^ 31)); [left; apply (swrap_small 32); lia | right].
      unfold swrap. rewrite <- (Z.mod_add _ (-1)), Z.mod_small by lia. lia. }
    zcase; [lia |]. zcase; lia. }
  injection E as <- <-. destruct H as [Hp Ht Ha Hs]. split.
  - apply set_store_ok; [done | by apply set_count_ok | done].
  - intros t p Hl. unfold wake_queue in Hl. simpl in Hl. destruct (_ >=? _) in Hl; [| by apply (Ht t)].
    rewrite lookup_fmap in Hl. destruct (tasks s !! t) as [q|] eqn:Eq; [| done]. injection Hl as <-.
    specialize (Ht t q Eq). by destruct q.
  - simpl. rewrite entropy_set. simpl. fold r. unfold wake_queue.
    assert (Tasks.total in_flight (if c >=? thresh s then wake_pc <$> tasks s else tasks s)
      = Tasks.total in_flight (tasks s)) as ->; [| lia].
    destruct (_ >=? _); [| done]. apply Tasks.total_fmap. by intros [].
  - intros t n Hl. simpl. rewrite thresh_set. change (input ?x) with (store x input_pool). rewrite store_set_eq. simpl.
    unfold wake_queue in Hl. simpl in Hl. destruct (Z.geb_spec c (thresh s)); [| lia].
    rewrite lookup_fmap in Hl. destruct (tasks s !! t) as [[]|]; done.
Qed.

Lemma new_inv s t q :
  inv s -> tasks s !! t = None -> pc_ok q -> in_flight q = 0 -> (forall n, q <> Asleep n false) ->
  inv (System (pools s) (<[t := q]> (tasks s)) (credited s) (delivered s)).
Proof.
  intros [Hp Ht Ha Hs] Hl Hq Hf Hns. split; simpl; [done | | |].
  - intros t' p' [[-> ->]|H]%lookup_insert_cases; [done | by apply (Ht t')].
  - rewrite Tasks.total_insert_new by done. lia.
  - intros t' n [[-> E]|H]%lookup_insert_cases; [by destruct (Hns n) | by apply (Hs t' n)].
Qed.

Lemma end_inv s t p :
  inv s -> tasks s !! t = Some p -> in_flight p = 0 -> inv (System (pools s) (delete t (tasks s)) (credited s) (delivered s)).
Proof.
  intros [Hp Ht Ha Hs] Hl Hf. split; simpl; [done | | |].
  - intros t' p' [_ H]%lookup_delete_Some. by apply (Ht t').
  - rewrite (Tasks.total_delete in_flight _ t p) by done. lia.
  - intros t' n [_ H]%lookup_delete_Some. by apply (Hs t' n).
Qed.

(** A task goes on and nobody has been served. *)
Lemma inv_move_0 s st t p q :
  inv s -> tasks s !! t = Some p -> pc_ok q -> (forall n, q = Asleep n false -> entropy_count (input st) < thresh s) ->
  random_ok st /\ random_read_wakeup_thresh st = thresh s /\
  entropy_count (input st) <= entropy_count (input (pools s)) /\
  entropy st + 8 * in_flight q <= entropy (pools s) + 8 * in_flight p ->
  inv (System st (<[t := q]> (tasks s)) (credited s) (delivered s)).
Proof.
  intros H Hl Hq Hs (H1 & H2 & H3 & H4). rewrite <- (Z.add_0_r (delivered s)). apply (inv_move s st t p q); auto with lia.
Qed.

Lemma same_pools s : inv s -> random_ok (pools s) /\ thresh s = thresh s /\
  entropy_count (input (pools s)) <= entropy_count (input (pools s)).
Proof. intros H. split; [apply H | split; [done | lia]]. Qed.

Lemma refill_args s id n :
  inv s -> 0 < n < 2 ^ 31 ->
  1 <= refill_bytes (thresh s) n <= 128 /\ 0 <= refill_reserve (thresh s) (store (pools s) id) <= 1024 /\
  1 <= thresh s ÷ 8 <= 512.
Proof.
  intros H Hn. pose proof (ro_thresh _ (inv_pools s H)) as Hth. pose proof (thresh_parts _ Hth) as [H8 H4].
  rewrite (swrap_small 32), !Z.quot_div_nonneg by lia. destruct (limited _); lia.
Qed.

Lemma refill_inv s t id n got r wake :
  inv s -> tasks s !! t = Some (Refill id n) ->
  account (wthresh s) (u64 (refill_bytes (thresh s) n)) (thresh s ÷ 8)
    (refill_reserve (thresh s) (store (pools s) id)) (input (pools s)) = Ret (got, r, wake) ->
  inv (System (set_store input_pool r (pools s)) (<[t := Pull id n got got]> (tasks s)) (credited s) (delivered s)).
Proof.
  intros H Hl E. pose proof (inv_tasks s H _ _ Hl) as [Hid Hn]. destruct (refill_args s id n H Hn) as (Hb & Hv & H8).
  rewrite uwrap_small in E by lia.
  destruct (account_replace s input_pool _ _ _ got r wake H E) as (?&?&?&Hg&He); [lia | lia | lia |].
  rewrite (random_ok_limit _ input_pool (inv_pools s H)) in He. simpl in He.
  apply (inv_move_0 s _ t (Refill id n)); [done | done | simpl; split; [done | lia] | done |]. simpl. auto with lia.
Qed.

Lemma serve_inv s t id n g r wake :
  inv s -> tasks s !! t = Some (Serve id n) -> account (wthresh s) n 0 0 (store (pools s) id) = Ret (g, r, wake) ->
  inv (System (set_store id r (pools s))
    (<[t := if bool_decide (id = blocking_pool) && (g =? 0) then Queued n false else Output id g]> (tasks s)) (credited s)
    (delivered s + if bool_decide (id = blocking_pool) then g else 0)).
Proof.
  intros H Hl E. pose proof (inv_tasks s H _ _ Hl) as [Hid Hn].
  destruct (account_replace s id n 0 0 g r wake H E) as (?&?&?&Hg&He); [lia | lia | lia |].
  rewrite (random_ok_limit _ id (inv_pools s H)) in He.
  apply (inv_move s _ t (Serve id n)); try done.
  - by destruct (_ && _); simpl; [| split; [| lia]].
  - intros m. by destruct (_ && _).
  - assert (in_flight (if bool_decide (id = blocking_pool) && (g =? 0) then Queued n false else Output id g) = 0) as ->
      by by destruct (_ && _).
    destruct id; simpl in *; lia.
Qed.

(** The next place of a task that was at [p]. *)
Local Ltac move_on p :=
  apply (inv_move_0 _ _ _ p); simpl;
  [done | done | destruct_and?; split_and?; done || lia | done | destruct_and?; split_and?; done || lia].

Lemma step_inv s s' : inv s -> step s s' -> inv s'.
Proof.
  intros H Hstep. pose proof (inv_pools s H) as Hp. pose proof (same_pools s H) as Hsame.
  destruct Hstep as [t id n Hl Hid Hn _ | t id n Hl p | t id n got r wake Hl E | t id n got rest hash Hl Hrest _
    | t id n got tmp Hl Htmp | t id n got st wake Hl E | t id n g r wake Hl E p | t id rest hash Hl Hrest _
    | t p Hl Hret | t n woken Hl p | t n Hl | id bytes | nbits st wake Hn E | id | id d];
    try (pose proof (inv_tasks s H _ _ Hl) as Hok; simpl in Hok).
  - by apply new_inv.
  - apply (inv_move_0 s _ t (Start id n)); unfold p; try done; destruct (needs_refill _ _); done || simpl; auto with lia.
  - by eapply refill_inv.
  - destruct (mix_replace s input_pool hash H) as (?&?&?&E). simpl store in *.
    move_on (Pull id n got rest).
  - destruct (mix_replace s id tmp H) as (?&?&?&E).
    move_on (Pull id n got 0).
  - destruct Hok as [[Hid Hn] Hgot].
    destruct (credit_replace s id (got * 8) st wake H) as (-> & ? & ? & Ei & ?); [done | lia | done |]. simpl.
    move_on (Credit id n got).
  - by eapply serve_inv.
  - destruct (mix_replace s id hash H) as (?&?&?&E).
    move_on (Output id rest).
  - apply (end_inv s t p); [done | done |]. by destruct p.
  - apply (inv_move_0 s _ t (Queued n woken)); unfold p; try done.
    + by destruct (_ >=? _).
    + intros m. destruct (Z.geb_spec (entropy_count (input (pools s))) (thresh s)); [done | lia].
    + destruct (_ >=? _); simpl; auto with lia.
  - move_on (Asleep n true).
  - destruct (mix_replace s id bytes H) as (?&?&?&E). apply inv_replace; auto with lia.
  - by apply add_inv.
  - pose proof (ro_stores _ Hp id) as Hr. pose proof (so_count _ Hr).
    destruct (random_replace_ok s id (set_entropy_count 0 (store (pools s) id))) as (?&?&?&E); simpl; try done; try lia.
    + apply set_count_ok; [done | lia].
    + apply inv_replace; auto. rewrite E. simpl. lia.
  - pose proof (ro_stores _ Hp id) as Hr.
    destruct (random_replace_ok s id (set_last_data d (store (pools s) id))) as (?&?&?&E); simpl; try done; try lia.
    + by apply set_last_data_ok.
    + apply inv_replace; auto. rewrite E. simpl. lia.
Qed.

Lemma boot_inv : inv (System static_pools ∅ 0 0).
Proof.
  split; simpl; [| intros ?? H; by rewrite lookup_empty in H | by vm_compute | intros ?? H; by rewrite lookup_empty in H].
  split; [apply static_pools_ok | done | by vm_compute].
Qed.

Lemma random_reachable_inv s : reachable s -> inv s.
Proof. induction 1; [apply boot_inv | by eapply step_inv]. Qed.

(** Every task but a sleeping one that has not been woken can go on. *)
Lemma progress s t p :
  inv s -> tasks s !! t = Some p -> (forall n, p <> Asleep n false) ->
  exists s', step s s' /\ tasks s' !! t <> Some p.
Proof.
  intros H Hl Hns. pose proof (inv_tasks s H _ _ Hl) as Hok. pose proof (ro_stores _ (inv_pools s H)) as Hr.
  destruct p as [id n | id n | id n got rest | id n got | id n | id rest | n w | n w]; simpl in Hok.
  - eexists. split; [by eapply step_start |]. simpl. rewrite lookup_insert_eq. by destruct (needs_refill _ _).
  - destruct Hok as [Hid Hn]. destruct (refill_args s id n H Hn) as (Hb & Hv & H8).
    edestruct (account_eq (wthresh s) (u64 (refill_bytes (thresh s) n)) (thresh s ÷ 8)) as [w E];
      [apply (Hr input_pool) | rewrite uwrap_small; lia | lia | | eexists; split; [by eapply step_refill, E |]];
      [lia | simpl; by rewrite lookup_insert_eq].
  - destruct (decide (rest = 0)) as [->|Hrest].
    + eexists. split; [eapply (step_fill s t id n got (replicate (Z.to_nat got) 0)); [done | len] |]. simpl.
      by rewrite lookup_insert_eq.
    + eexists. split; [by eapply (step_pull s t id n got rest (replicate 20 0)) |]. simpl. rewrite lookup_insert_eq.
      intros [= E]. lia.
  - destruct (credit_entropy_bits id (got * 8) (pools s)) as [st w] eqn:E.
    eexists. split; [by eapply step_credit |]. simpl. unfold wake_queue.
    destruct w; rewrite ?lookup_fmap, lookup_insert_eq; done.
  - destruct Hok as [Hid Hn]. destruct (account_eq (wthresh s) n 0 0 (store (pools s) id)) as [w E]; [done | lia | lia | lia |].
    eexists. split; [by eapply step_serve |]. simpl. rewrite lookup_insert_eq. by destruct (_ && _).
  - eexists. split; [by eapply step_return |]. simpl. by rewrite lookup_delete_eq.
  - eexists. split; [by eapply step_check |]. simpl. rewrite lookup_insert_eq. by destruct (_ >=? _).
  - destruct w; [| by destruct (Hns n)]. eexists. split; [by eapply step_awake |]. simpl. by rewrite lookup_insert_eq.
Qed.

(** C8: In every state that any number of readers and sources of entropy reach, with
    their sections under the locks in any order, the count of each pool is between 0
    and its size, so that the BUG_ON of account is not met; the entropy in the pools
    and eight times the bytes granted to readers of /dev/random are together at most
    the bits that were credited; who sleeps in a read of /dev/random and has not
    been woken finds less entropy than the threshold; and everybody else can go on. *)
Theorem random_accounting s :
  reachable s ->
  (forall id, 0 <= entropy_count (store (pools s) id) <= POOLBITS (store (pools s) id)) /\
  entropy (pools s) + 8 * delivered s <= credited s /\
  (forall t n, tasks s !! t = Some (Asleep n false) -> entropy_count (input (pools s)) < thresh s) /\
  (forall t p, tasks s !! t = Some p -> (forall n, p <> Asleep n false) ->
    exists s', step s s' /\ tasks s' !! t <> Some p).
Proof.
  intros H%random_reachable_inv. split_and!.
  - intros id. apply so_count, ro_stores, H.
  - pose proof (inv_account s H). pose proof (in_flight_nonneg s H). lia.
  - apply (inv_sleep s H).
  - intros t p Hl Hns. by apply progress.
Qed.

Lemma rtc_inv s s' : inv s -> rtc step s s' -> inv s'.
Proof. intros H Hs. induction Hs as [|? ? ? Hs ? IH]; [done |]. by apply IH, (step_inv _ _ H). Qed.

(** ** The functions of the driver as sequences of steps *)

Abbreviation with_pools s st := (System st (tasks s) (credited s) (delivered s)) (only parsing).

Lemma set_store_set_store id r r' st : set_store id r' (set_store id r st) = set_store id r' st.
Proof. by destruct st, id. Qed.

Lemma set_store_id id st : set_store id (store st id) st = st.
Proof. by destruct st, id. Qed.

Lemma mix_steps s id bytes : rtc step s (with_pools s (set_store id (mix_pool_bytes bytes (store (pools s) id)) (pools s))).
Proof. apply rtc_once, step_mix. Qed.

Lemma write_pool_steps s id fuel buffer count ret r :
  write_pool fuel buffer count (store (pools s) id) = Ret (ret, r) -> rtc step s (with_pools s (set_store id r (pools s))).
Proof.
  revert s buffer count. induction fuel as [|fuel IH]; intros s buffer count E; [done |]. simpl in E.
  assert (rtc step s (with_pools s (set_store id (store (pools s) id) (pools s)))) as H0.
  { rewrite set_store_id. destruct s. apply rtc_refl. }
  destruct (count >? 0); [| by injection E as _ <-]. destruct (_ <? _); [by injection E as _ <- |].
  set (b := take (Z.to_nat (Z.min count 64)) buffer) in E.
  etransitivity; [apply (mix_steps s id b) |].
  pose proof (IH (with_pools s (set_store id (mix_pool_bytes b (store (pools s) id)) (pools s)))) as H.
  simpl in H. rewrite store_set_eq in H. specialize (H _ _ E). by rewrite set_store_set_store in H.
Qed.

Lemma add_steps s nbits st wake :
  - 2 ^ 31 <= nbits < 2 ^ 31 -> credit_entropy_bits input_pool nbits (pools s) = (st, wake) ->
  rtc step s (System st (wake_queue wake (tasks s)) (credited s + Z.max 0 nbits) (delivered s)).
Proof. intros. by apply rtc_once, step_add. Qed.

Lemma timer_steps s sample jiffies state count st state' count' wake :
  add_timer_randomness sample jiffies state count (pools s) = (st, state', count', wake) ->
  exists c, credited s <= c <= credited s + 11 /\
    rtc step s (System st (wake_queue wake (tasks s)) c (delivered s)).
Proof.
  unfold add_timer_randomness. intros E. destruct (_ && _).
  { injection E as <- _ _ <-. exists (credited s). split; [lia | destruct s; apply rtc_refl]. }
  destruct (dont_count_entropy state).
  { injection E as <- _ _ <-. exists (credited s). split; [lia | apply (mix_steps s input_pool)]. }
  pose proof (estimate_bound jiffies state) as Hb. destruct (estimate jiffies state) as [n state1]. simpl in Hb.
  destruct (credit_entropy_bits input_pool n _) as [st1 wake1] eqn:Ec. injection E as -> _ _ ->.
  exists (credited s + Z.max 0 n). split; [lia |]. etransitivity; [apply (mix_steps s input_pool sample) |].
  apply (add_steps (with_pools s _)); [lia | done].
Qed.

Lemma random_write_steps s buffer count ret st :
  random_write buffer count (pools s) = Ret (ret, st) -> rtc step s (with_pools s st).
Proof.
  unfold random_write. intros E.
  destruct (write_pool _ buffer count (blocking (pools s))) as [[ret1 r1]| |] eqn:E1; try done. rewrite run_bind_Ret in E.
  pose proof (write_pool_steps s blocking_pool _ _ _ _ _ E1) as H1. etransitivity; [exact H1 |].
  destruct (negb (ret1 =? 0)); [injection E as _ <-; apply rtc_refl |].
  destruct (write_pool _ buffer count (nonblocking _)) as [[ret2 r2]| |] eqn:E2; try done. rewrite run_bind_Ret in E.
  pose proof (write_pool_steps (with_pools s (set_store blocking_pool r1 (pools s))) nonblocking_pool _ _ _ _ _ E2) as H2.
  destruct (negb (ret2 =? 0)); injection E as _ <-; exact H2.
Qed.

Lemma init_steps s id now uts fips :
  rtc step s (with_pools s (set_store id (init_std_data now uts fips (store (pools s) id)) (pools s))).
Proof.
  etransitivity; [apply rtc_once, (step_clear s id) |].
  etransitivity; [apply (mix_steps (with_pools s _) id now) |].
  etransitivity; [apply (mix_steps (with_pools s _) id uts) |]. simpl.
  rewrite !set_store_set_store, !store_set_eq. unfold init_std_data. destruct fips as [mem|]; [| apply rtc_refl].
  etransitivity; [apply rtc_once, (step_test (with_pools s _) id mem) |]. simpl.
  rewrite !set_store_set_store, !store_set_eq. apply rtc_refl.
Qed.

Lemma rand_initialize_steps s now uts fips : rtc step s (with_pools s (rand_initialize now uts fips (pools s))).
Proof.
  etransitivity; [apply (init_steps s input_pool (now input_pool) uts (fips input_pool)) |].
  etransitivity; [apply (init_steps (with_pools s _) blocking_pool (now blocking_pool) uts (fips blocking_pool)) |].
  apply (init_steps (with_pools s _) nonblocking_pool (now nonblocking_pool) uts (fips nonblocking_pool)).
Qed.

(** The values that an ioctl reads are ints. *)
Definition cmd_ok (cmd : random_cmd) : Prop :=
  match cmd with RNDADDTOENTCNT (Some n) | RNDADDENTROPY (Some n) _ _ => - 2 ^ 31 <= n < 2 ^ 31 | _ => True end.

Lemma random_ioctl_steps s capable now uts fips cmd ret out st wake :
  cmd_ok cmd -> random_ioctl capable (rand_initialize now uts fips) cmd (pools s) = Ret (ret, out, st, wake) ->
  exists c, credited s <= c /\ (capable = false -> c = credited s) /\
    rtc step s (System st (wake_queue wake (tasks s)) c (delivered s)).
Proof.
  intros Hcmd E. set (goal := exists c, _).
  assert (forall r o, Ret (r, o, pools s, false) = Ret (E := fault) (ret, out, st, wake) -> goal) as Hnone.
  { intros r o [= _ _ <- <-]. exists (credited s). split; [lia |]. split; [done |]. destruct s. apply rtc_refl. }
  destruct cmd as [[]|[n|]|[n|] size buffer| | |]; simpl in E; try (by eapply Hnone);
    (destruct capable; simpl in E; [| by eapply Hnone]); try (by eapply Hnone).
  - destruct (credit_entropy_bits input_pool n (pools s)) as [st1 wake1] eqn:Ec. injection E as _ _ <- <-.
    exists (credited s + Z.max 0 n). split; [lia |]. split; [done | by apply add_steps].
  - destruct (n <? 0); [by eapply Hnone |]. destruct size as [size|]; [| by eapply Hnone].
    destruct (write_pool (S (length buffer)) buffer (u64 size) (input (pools s))) as [[ret1 r1]| |] eqn:Ew;
      unfold write_pool in E, Ew; fold write_pool in E, Ew; rewrite Ew in E; try done.
    rewrite run_bind_Ret in E. pose proof (write_pool_steps s input_pool (S (length buffer)) _ _ _ _ Ew) as Hw.
    destruct (ret1 <? 0).
    { injection E as _ _ <- <-. exists (credited s). split; [lia | done]. }
    destruct (credit_entropy_bits input_pool n _) as [st1 wake1] eqn:Ec. injection E as _ _ <- <-.
    exists (credited s + Z.max 0 n). split; [lia |]. split; [done |].
    etransitivity; [exact Hw | by apply (add_steps (with_pools s _))].
  - injection E as _ _ <- <-. exists (credited s). split; [lia |]. split; [done |]. apply rand_initialize_steps.
  - injection E as _ _ <- <-. exists (credited s). split; [lia |]. split; [done |]. apply rand_initialize_steps.
Qed.

(** The loops of extraction: [P k] is the place of the task with [k] bytes to go. *)
Section blocks.
Context (t : Z) (p : store_id) (P : Z -> pc).
Hypothesis P_step : forall s k hash,
  tasks s !! t = Some (P k) -> k <> 0 -> length hash = 20%nat ->
  step s (System (set_store p (mix_pool_bytes hash (store (pools s) p)) (pools s))
            (<[t := P (k - Z.min k EXTRACT_SIZE)]> (tasks s)) (credited s) (delivered s)).

Abbreviation goes s st k := (System st (<[t := P k]> (tasks s)) (credited s) (delivered s)) (only parsing).

Lemma goes_refl s k : tasks s !! t = Some (P k) -> rtc step s (goes s (set_store p (store (pools s) p) (pools s)) k).
Proof. intros H. rewrite set_store_id, insert_id by done. destruct s. apply rtc_refl. Qed.

Lemma goes_trans s r k r' k' :
  rtc step s (goes s (set_store p r (pools s)) k) ->
  rtc step (goes s (set_store p r (pools s)) k)
    (goes (goes s (set_store p r (pools s)) k) (set_store p r' (set_store p r (pools s))) k') ->
  rtc step s (goes s (set_store p r' (pools s)) k').
Proof. intros H1 H2. simpl in H2. rewrite set_store_set_store, insert_insert_eq in H2. by etransitivity. Qed.

Lemma block_steps s k tmp r :
  tasks s !! t = Some (P k) -> k <> 0 -> extract_buf (store (pools s) p) = (tmp, r) ->
  rtc step s (goes s (set_store p r (pools s)) (k - Z.min k EXTRACT_SIZE)).
Proof.
  intros Hl Hk E. destruct (extract_buf_mix (store (pools s) p)) as [tmp' E']. rewrite E' in E. injection E as _ <-.
  apply rtc_once, P_step; [done | done |]. by rewrite length_words_bytes, length_hash_pool.
Qed.

Lemma extract_loop_steps fuel s k buf out r :
  0 <= k < 2 ^ 31 -> tasks s !! t = Some (P k) -> extract_loop fuel k buf (store (pools s) p) = Ret (out, r) ->
  rtc step s (goes s (set_store p r (pools s)) 0).
Proof.
  revert s k buf. induction fuel as [|fuel IH]; intros s k buf Hk Hl E; [done |]. simpl in E.
  destruct (Z.eqb_spec k 0) as [->|Hk0]; [injection E as _ <-; by apply goes_refl |].
  destruct (extract_buf _) as [tmp r1] eqn:Eb.
  destruct (match last_data r1 with Some _ => _ | None => _ end) as [r2| |] eqn:Et; try done.
  rewrite run_bind_Ret, (swrap_small 32) in E by lia. destruct (_ <? _) in E; [done |].
  apply (goes_trans s r2 (k - Z.min k EXTRACT_SIZE)).
  - etransitivity; [by eapply block_steps |]. destruct (last_data r1); [| injection Et as <-; apply rtc_refl].
    case_bool_decide; [done |]. injection Et as <-.
    etransitivity; [apply rtc_once, (step_test (goes s _ _) p (Some tmp)) |].
    simpl. rewrite set_store_set_store, store_set_eq. apply rtc_refl.
  - eapply (IH (goes s _ _) (k - Z.min k EXTRACT_SIZE)); [lia | simpl; apply lookup_insert_eq | simpl;
      rewrite store_set_eq; exact E].
Qed.

Lemma user_loop_steps fuel env j s k n buf ret out r :
  0 <= k < 2 ^ 31 -> tasks s !! t = Some (P k) -> user_loop fuel env j k n buf (store (pools s) p) = Ret (ret, out, r) ->
  exists k', rtc step s (goes s (set_store p r (pools s)) k').
Proof.
  revert j s k n buf. induction fuel as [|fuel IH]; intros j s k n buf Hk Hl E; [done |]. simpl in E.
  destruct (Z.eqb_spec k 0) as [->|Hk0]; [injection E as _ _ <-; exists 0; by apply goes_refl |].
  destruct (_ && _); [injection E as _ _ <-; exists k; by apply goes_refl |].
  destruct (extract_buf _) as [tmp r1] eqn:Eb. rewrite (swrap_small 32) in E by lia.
  destruct (_ <? _) in E; [done |]. pose proof (block_steps s k tmp r1 Hl Hk0 Eb) as Hb.
  destruct (copy_faults (env j)); [injection E as _ _ <-; eauto |].
  edestruct (IH (S j) (goes s (set_store p r1 (pools s)) (k - Z.min k EXTRACT_SIZE)) (k - Z.min k EXTRACT_SIZE)) as [k' Hk'];
    [lia | simpl; apply lookup_insert_eq | simpl; rewrite store_set_eq; exact E |].
  exists k'. by eapply goes_trans.
Qed.
End blocks.

Abbreviation at_pc s st t q := (System st (<[t := q]> (tasks s)) (credited s) (delivered s)) (only parsing).

(** One more step of a task. *)
Lemma then_step s st t q st' q' :
  rtc step s (at_pc s st t q) -> step (at_pc s st t q) (System st' (<[t := q']> (<[t := q]> (tasks s))) (credited s)
    (delivered s)) ->
  rtc step s (at_pc s st' t q').
Proof. intros H1 H2. rewrite insert_insert_eq in H2. by eapply rtc_r. Qed.

Lemma pull_steps s t id n bytes m v d buf st :
  inv s -> tasks s !! t = Some (Refill id n) -> request_ok id n ->
  bytes = u64 (refill_bytes (thresh s) n) -> m = thresh s ÷ 8 -> v = refill_reserve (thresh s) (store (pools s) id) ->
  extract_entropy (S d) input_pool bytes m v (pools s) = Ret (buf, st) ->
  rtc step s (at_pc s st t (Pull id n (Z.of_nat (length buf)) 0)) /\ Z.of_nat (length buf) <= 128.
Proof.
  intros H Hl [Hid Hn] -> -> -> E. rewrite extract_entropy_S, xfer_input, run_bind_Ret in E by apply H.
  destruct (account _ _ _ _ _) as [[[g r] wake]| |] eqn:Ea; try done. rewrite run_bind_Ret in E.
  destruct (extract_loop _ _ _ _) as [[buf' r']| |] eqn:El; try done. injection E as <- <-.
  destruct (refill_args s id n H Hn) as (Hb & Hv & H8). pose proof Ea as Ea'. rewrite uwrap_small in Ea' by lia.
  destruct (account_replace s input_pool _ _ _ g r wake H Ea') as (Hok & _ & _ & Hg & _); [lia | lia | lia |].
  pose proof (ro_stores _ Hok input_pool) as Hr. rewrite store_set_eq in Hr.
  pose proof (extract_loop_ok (S (Z.to_nat g)) g [] r Hr) as Ho. rewrite El in Ho.
  destruct Ho as (new & -> & Hlen & _); [lia | lia |]. simpl app. rewrite Hlen. split; [| lia].
  eapply (rtc_l _ _ _ _ (step_refill s t id n g r wake Hl Ea)).
  pose proof (extract_loop_steps t input_pool (Pull id n g) (fun s k hash => step_pull s t id n g k hash)
    (S (Z.to_nat g)) (at_pc s (set_store input_pool r (pools s)) t (Pull id n g g)) g [] new r') as Hs.
  simpl in Hs. rewrite insert_insert_eq, set_store_set_store in Hs. apply Hs; [lia | apply lookup_insert_eq |].
  change (input ?x) with (store x input_pool). rewrite store_set_eq. exact El.
Qed.

Lemma xfer_steps s t id n d st :
  inv s -> tasks s !! t = Some (Start id n) -> xfer_secondary_pool (extract_entropy (S d)) id n (pools s) = Ret st ->
  rtc step s (at_pc s st t (Serve id n)).
Proof.
  intros H Hl E. pose proof (inv_tasks s H _ _ Hl) as Hreq. pose proof Hreq as [Hid Hn].
  assert (pull (store (pools s) id) = Some input_pool) as Hpull.
  { rewrite (random_ok_pull _ id (inv_pools s H)). by destruct id. }
  pose proof (step_start s t id n Hl) as Hstart. cbv zeta in Hstart.
  unfold xfer_secondary_pool in E. rewrite Hpull in E, Hstart. rewrite bool_decide_true in Hstart by done. simpl andb in Hstart.
  destruct (_ && _); [| injection E as <-; by apply rtc_once].
  destruct (extract_entropy _ _ _ _ _ _) as [[tmp st0]| |] eqn:Ex; try done. injection E as <-.
  pose proof (step_inv _ _ H Hstart) as H1.
  destruct (pull_steps _ t id n _ _ _ d tmp st0 H1 (lookup_insert_eq _ _ _) Hreq eq_refl eq_refl eq_refl Ex) as [Hp Hlen].
  simpl in Hp. rewrite insert_insert_eq in Hp.
  assert (rtc step s (at_pc s st0 t (Pull id n (Z.of_nat (length tmp)) 0))) as H2 by by eapply rtc_l.
  pose proof (then_step _ _ _ _ _ _ H2 (step_fill (at_pc s st0 t (Pull id n (Z.of_nat (length tmp)) 0)) t id n _ tmp
    (lookup_insert_eq _ _ _) eq_refl)) as Hfill. clear H2. simpl in Hfill. rename Hfill into H2.
    set (st2 := set_store id (mix_pool_bytes tmp (store st0 id)) st0) in *.
  destruct (credit_entropy_bits id (Z.of_nat (length tmp) * 8) st2) as [st3 wake] eqn:Ec. simpl.
  assert (inv (at_pc s st2 t (Credit id n (Z.of_nat (length tmp))))) as H3.
  { exact (rtc_inv _ _ H H2). }
  destruct (credit_replace _ id (Z.of_nat (length tmp) * 8) st3 wake H3 Hid) as [-> _]; [lia | done |].
  exact (then_step _ _ _ _ _ _ H2 (step_credit (at_pc s st2 t (Credit id n (Z.of_nat (length tmp)))) t id n _ st3 false
    (lookup_insert_eq _ _ _) Ec)).
Qed.

(** A read up to the point where it returns to the user or, with nothing to give,
    goes on the queue. *)
Lemma extract_user_steps s t env id n ret buf st :
  inv s -> tasks s !! t = None -> request_ok id n -> (id = blocking_pool -> n <= SEC_XFER_SIZE) ->
  extract_entropy_user env id n (pools s) = Ret (ret, buf, st) ->
  exists p d, rtc step s (System st (<[t := p]> (tasks s)) (credited s) (delivered s + d)) /\
    (p = Queued n false \/ exists k, p = Output id k).
Proof.
  intros H Hl [Hid Hn] Hx E. unfold extract_entropy_user in E.
  destruct (xfer_secondary_pool _ id n (pools s)) as [st1| |] eqn:Ex; try done. rewrite run_bind_Ret in E.
  destruct (account _ n 0 0 (store st1 id)) as [[[g r] wake]| |] eqn:Ea; try done. rewrite run_bind_Ret in E.
  destruct (user_loop _ _ _ _ _ _ _) as [[[ret' buf'] r']| |] eqn:Eu; try done. injection E as _ _ <-.
  pose proof (step_read s t id n Hl Hid Hn Hx) as Hread. pose proof (step_inv _ _ H Hread) as H0.
  pose proof (xfer_steps _ t id n 0 st1 H0 (lookup_insert_eq _ _ _) Ex) as Hxfer. simpl in Hxfer.
  rewrite insert_insert_eq in Hxfer. pose proof (rtc_inv _ _ H0 Hxfer) as H1.
  pose proof (step_serve (at_pc s st1 t (Serve id n)) t id n g r wake (lookup_insert_eq _ _ _) Ea) as Hserve.
  cbv zeta in Hserve. simpl in Hserve.
  rewrite insert_insert_eq in Hserve.
  destruct (account_replace _ id n 0 0 g r wake H1 Ea) as (_ & _ & _ & Hg & _); [lia | lia | lia |].
  set (d := if bool_decide (id = blocking_pool) then g else 0) in *.
  set (p := if _ && _ then _ else _) in Hserve.
  set (s2 := System (set_store id r st1) (<[t := p]> (tasks s)) (credited s) (delivered s + d)) in Hserve.
  assert (rtc step s s2) as H2 by (eapply rtc_l; [exact Hread |]; by eapply rtc_r).
  destruct (bool_decide (id = blocking_pool) && (g =? 0)) eqn:Eq; unfold p in s2.
  - exists (Queued n false), d. split; [| by left]. apply andb_true_iff in Eq as [_ ->%Z.eqb_eq].
    simpl in Eu. injection Eu as _ _ <-. exact H2.
  - destruct (user_loop_steps t id (Output id) (fun s k hash => step_output s t id k hash)
      (S (Z.to_nat g)) env 0 s2 g 0 [] ret' buf' r') as [k' Hk];
      [lia | apply lookup_insert_eq | unfold s2; simpl; rewrite store_set_eq; exact Eu |].
    exists (Output id k'), d. split; [| eauto]. simpl in Hk. rewrite set_store_set_store, insert_insert_eq in Hk.
    by etransitivity.
Qed.

(** C23: The functions of the driver are executions of the step relation: what an
    event, a write, an ioctl and a read do without interruption is a sequence of its
    steps, an event crediting at most 11 bits and an ioctl of an unprivileged user
    none; so what holds in all reachable states holds for any interleaving of them. *)
Theorem random_driver_steps s :
  reachable s ->
  (forall sample jiffies state count st state' count' wake,
    add_timer_randomness sample jiffies state count (pools s) = (st, state', count', wake) ->
    exists c, credited s <= c <= credited s + 11 /\ rtc step s (System st (wake_queue wake (tasks s)) c (delivered s))) /\
  (forall buffer count ret st, random_write buffer count (pools s) = Ret (ret, st) -> rtc step s (with_pools s st)) /\
  (forall capable now uts fips cmd ret out st wake,
    cmd_ok cmd -> random_ioctl capable (rand_initialize now uts fips) cmd (pools s) = Ret (ret, out, st, wake) ->
    exists c, credited s <= c /\ (capable = false -> c = credited s) /\
      rtc step s (System st (wake_queue wake (tasks s)) c (delivered s))) /\
  (forall t env id n ret buf st,
    tasks s !! t = None -> request_ok id n -> (id = blocking_pool -> n <= SEC_XFER_SIZE) ->
    extract_entropy_user env id n (pools s) = Ret (ret, buf, st) ->
    exists p d, rtc step s (System st (<[t := p]> (tasks s)) (credited s) (delivered s + d)) /\
      (p = Queued n false \/ exists k, p = Output id k)).
Proof.
  intros H%random_reachable_inv. split_and!.
  - intros. by eapply timer_steps.
  - intros. by eapply random_write_steps.
  - intros. by eapply random_ioctl_steps.
  - intros. by eapply extract_user_steps.
Qed.

(** At boot a write of three bytes. *)
Lemma random_driver_steps_witness :
  exists st, random_write [1; 2; 3] 3 static_pools = Ret (3, st) /\
    rtc step (System static_pools ∅ 0 0) (System st ∅ 0 0).
Proof.
  eexists. split; [reflexivity |].
  exact (proj1 (proj2 (random_driver_steps (System static_pools ∅ 0 0) reach_boot)) [1; 2; 3] 3 3 _ eq_refl).
Defined.

(** A reader of /dev/random that finds no entropy goes to sleep. *)
Definition one_reader (p : pc) : system := System static_pools (<[1 := p]> ∅) 0 0.

Lemma one_reader_move p q :
  reachable (one_reader p) -> step (one_reader p) (System static_pools (<[1 := q]> (<[1 := p]> ∅)) 0 0) ->
  reachable (one_reader q).
Proof. intros H Hstep. rewrite insert_insert_eq in Hstep. by eapply reach_step. Qed.

Lemma sleeper_reachable : reachable (one_reader (Asleep 100 false)).
Proof.
  apply (one_reader_move (Queued 100 false)); [| exact (step_check (one_reader (Queued 100 false)) 1 100 false eq_refl)].
  apply (one_reader_move (Serve blocking_pool 100));
    [| exact (step_serve (one_reader (Serve blocking_pool 100)) 1 _ 100 0 (blocking static_pools) true eq_refl
    eq_refl)].
  apply (one_reader_move (Credit blocking_pool 100 0));
    [| exact (step_credit (one_reader (Credit blocking_pool 100 0)) 1 _ 100 0 static_pools false eq_refl eq_refl)].
  apply (one_reader_move (Pull blocking_pool 100 0 0));
    [| exact (step_fill (one_reader (Pull blocking_pool 100 0 0)) 1 _ 100 0 [] eq_refl eq_refl)].
  apply (one_reader_move (Refill blocking_pool 100));
    [| exact (step_refill (one_reader (Refill blocking_pool 100)) 1 _ 100 0 (input static_pools) false eq_refl
    eq_refl)].
  apply (one_reader_move (Start blocking_pool 100));
    [| exact (step_start (one_reader (Start blocking_pool 100)) 1 _ 100 eq_refl)].
  apply (reach_step (System static_pools ∅ 0 0)); [apply reach_boot |].
  by apply (step_read (System static_pools ∅ 0 0) 1 blocking_pool 100).
Qed.

Lemma random_accounting_witness :
  entropy_count (input (pools (one_reader (Asleep 100 false)))) < thresh (one_reader (Asleep 100 false)) /\
  entropy (pools (one_reader (Asleep 100 false))) + 8 * delivered (one_reader (Asleep 100 false)) <= 0.
Proof.
  destruct (random_accounting _ sleeper_reachable) as (_ & He & Hs & _).
  split; [by apply (Hs 1 100) | exact He].
Defined.

End RandomSystem.
